(* ===== verification/_CoqProject ===== *)
-Q . S2P
Prelude.v
Errors.v
Text.v
TextFacts.v
Regex.v
Sha256.v
Value.v
Prog.v
Json.v
ConfigModel.v
Codec.v
Repository.v
Ipc.v
Pipe.v
Handshake.v
Patch.v
FileWire.v
FileShell.v
FileService.v
State.v
RingBuffer.v
Framing.v
Prompts.v
Ssh.v
Elevation.v
AuthWire.v
Terminal.v
Session.v
SessionFacts.v
SessionFrames.v
SessionTime.v
Interactive.v
AuthModel.v
AuthServer.v
AuthClient.v
Askpass.v
AskpassRelay.v
VisibleAuth.v
Redaction.v
Worker.v
WorkerProtocol.v
WorkerProcess.v
BrokerModel.v
Supervisor.v
Supervision.v
SupervisorSteps.v
BrokerServer.v
BrokerProcess.v
BrokerClient.v
AuditLog.v
AuditedCalls.v
Application.v
SetupModel.v
Runtime.v
SetupStore.v
PublicKey.v
ProfileSetup.v
KeySwitch.v
ManagedBlock.v
SshAlias.v
CodexConfig.v
BrokerTask.v
BrokerManager.v
Draft.v
Doctor.v
Installer.v
NamedPipe.v
KeyGenerator.v
SetupWindow.v
ConPty.v
Bootstrap.v
AuthWindow.v
Tools.v
