(* ===== verification/Prelude.v ===== *)
(** * ServerOps: a verification library (root file)

    codex-serverops-mcp lets a local agent work on remote servers over SSH.  An
    MCP server process talks to one broker process per user; the broker starts
    one worker process per session; a worker owns one OpenSSH process in a
    pseudo-terminal and runs framed commands in it.  Secrets are typed by the
    user into a separate window and go straight from there to the worker.
    Source paths below are relative to src/src/codex_serverops_mcp/.

    ** The files

    - [Prelude]: text, bytes, rationals, results, the state-and-exception
      monad [prog], insertion-ordered dictionaries and their lemmas.
    - [Errors]: the exception classes of errors.py and of every package's
      errors module, with their codes and their hierarchy.
    - [Text], [TextFacts], [Regex], [Sha256], [Value], [Json], [Prog]: the
      parts of Python and its standard library the program relies on (string
      methods, UTF-8, base64, integer parsing and printing; the backtracking
      matcher of [re] with a language semantics it is sound and complete for;
      SHA-256 and HMAC; dynamic values; [json.dumps] and [json.loads]), and the
      triples used to reason about programs and scripted environments.
    - [ConfigModel] (config/model.py, config/presentation.py, identifiers.py,
      ssh/target.py), [Codec] (config/codec.py), [Repository]
      (config/repository.py, config/locking.py): profiles, their text form and
      the file that stores them.
    - [Ipc] (ipc/messages.py, ipc/router.py, ipc/constants.py), [Pipe]
      (ipc/connection.py), [Handshake] (ipc/handshake.py): what the processes
      say to each other.
    - [Patch], [FileWire], [FileShell], [FileService] (files/*.py): structured
      file access by shell scripts and their framed responses.
    - [State] (worker/state.py), [RingBuffer] (terminal/buffer.py), [Framing]
      (ssh/framing.py), [Prompts] (ssh/prompts.py), [Ssh] (ssh/invocation.py,
      ssh/auth_policy.py), [AuthWire] (auth/wire.py): the parts of a session.
    - [Elevation] (elevation/service.py, elevation/shell.py): guided sudo.
    - [Terminal], [Session] (worker/session.py, worker/authentication.py,
      worker/control.py, worker/result.py) and [Interactive]
      (worker/interactive.py): the session of a worker over a terminal, a clock
      and an authentication window.  [SessionFacts] proves what the session
      writes and when it asks, [SessionFrames] where its results come from,
      [SessionTime] that its operations end.
    - [AuthModel] (auth/model.py), [AuthServer] (auth/server.py), [AuthClient]
      (auth/client.py), [Askpass] (auth/askpass.py), [AskpassRelay]
      (worker/askpass.py), [VisibleAuth] (worker/visible_auth.py,
      auth/launcher.py): how a secret gets from the user's window to OpenSSH
      and sudo.
    - [Redaction] (security/redaction.py), [AuditLog] (security/audit.py,
      security/locking.py), [AuditedCalls] (security/integration.py,
      security/profile_audit.py): the log of what was done.
    - [Worker] (worker/service.py, worker/protocol.py), [WorkerProtocol],
      [WorkerProcess] (worker/process.py): a worker process, from its listener
      to the services of [FileService], [Elevation] and [Interactive].
    - [BrokerModel] (broker/model.py, broker/registry.py, broker/outcomes.py,
      broker/timeouts.py), [Supervisor], [Supervision], [SupervisorSteps]
      (broker/supervisor.py), [BrokerServer], [BrokerProcess]
      (broker/server.py), [BrokerClient] (broker/client.py): the broker, its
      workers and its clients.  [BrokerTask] (broker/task_model.py,
      broker/task_scheduler.py) and [BrokerManager] (broker/manager.py) start
      it.
    - [Application] (application.py): the operations behind the MCP tools.
    - [Runtime] (runtime.py), [SetupModel] (setup/model.py), [SetupStore]
      (setup/store.py, setup/service.py), [PublicKey]
      (setup/public_key_transition.py, setup/keys.py), [ProfileSetup],
      [KeySwitch] (setup/operations.py), [ManagedBlock], [SshAlias]
      (setup/ssh_alias.py): the setup assistant behind its windows.
    - [Draft] (setup/draft.py, setup/form_state.py, setup/form.py),
      [KeyGenerator] (setup/keys.py), [SetupWindow] (setup/window.py,
      setup/app.py), [AuthWindow] (auth/app.py): what the windows do with what
      the user types and clicks.
    - [CodexConfig] (installer/codex_config.py), [Doctor] (installer/model.py,
      installer/checks.py, installer/doctor.py), [Installer] (installer/cli.py,
      installer/setup.py, installer/paths.py): the installer's block in the
      configuration of Codex, its checks and its commands.
    - [NamedPipe] (ipc/named_pipe.py, ipc/security.py), [ConPty]
      (terminal/conpty.py), [Bootstrap] (bootstrap/model.py,
      bootstrap/service.py), [Tools] (tools/*.py, server.py): the pipes and the
      terminal of Windows, the local state every program starts from, and the
      tools of the MCP server.

    ** How the code is modelled

    A function that only computes is a Rocq function into [result exn], which
    returns a value or raises.  An object with mutable state is a record, and
    its methods are programs of [prog exn S A]: they return, raise (keeping
    every change made before the exception) or wait forever.  The outside world
    is explicit: a terminal, a disk, a pipe or a peer is a script of answers
    consumed call by call together with the trace of the calls ([Prog.io],
    [Terminal.env], [Repository.disk]); every theorem quantifies over all
    scripts.  A component that is handed a callback takes it as an argument
    ([FileService], [Elevation]), so the same definitions run over a scripted
    session and over the worker's.  Python dicts keep insertion order
    ([Prelude.dict]); Python integers are [Z]; floats that stand for times are
    rationals.  Loops over the environment take as fuel the number of answers
    left: each round consumes at least one, so a run stops for want of an
    answer, never for want of fuel.  That the loops of a session end is a
    statement about the clock ([SessionTime.session_operations_end]); loops
    over text take its length.

    The interpreter's Unicode tables, its float printing, [tomllib], the
    OpenSSH client and the operating system are not under src/: they are the
    classes [Text.UnicodeDB], [Json.FloatIO] and [Codec.TomlReader], function
    arguments, and answers of scripts.

    ** What the theorems show

    - A session: every command ends in one of the documented states, is
      written to the terminal at most once, answers at most one authentication
      bound to it, and its result is the complete frame read for it; with a
      clock that moves, its operations give up at their deadlines; the
      frame parser is independent of how the output is split and inverts the
      shell's wrapper; dead sessions stay dead; the buffer of output refines an
      unbounded log.
    - Configuration: construction establishes the profile invariant; encoding
      and decoding are inverse; unknown fields are refused; an update of the
      file is atomic, touches besides it only the lock file and its own
      temporaries, and never overwrites what the caller did not read; a
      migration keeps the original.
    - Processes: envelopes and frames cross a pipe unchanged; a completed
      handshake authenticated the other side.
    - Files and sudo: a request runs only the scripts its permissions admit;
      no argument can change the text of a script; responses and elevated
      output are read back exactly; a patch is exactly the replacement of its
      hunks, and is written only over the content it was computed from.
    - Secrets: a challenge shows its prompt once and takes one response from a
      peer that proved its token; the relay answers only prompts the profile
      allows; what OpenSSH reads is exactly what the user typed.
    - Worker and broker: a worker that opened was verified, and otherwise is
      closed; a request is delivered to a worker at most once, and a failure
      after delivery is reported as such; a start registers a worker or leaves
      none behind; the registry stays consistent under any interleaving of
      threads, and the operations refine that step relation; nothing a client
      sends reaches more than one worker.  Reaching the broker ends, and
      launches at most one process; a scheduled task of somebody else is left
      alone, and a registered one is recognised.
    - Setup and installation: the file of a setup request is always a valid
      record, and one that has ended is final once no update is under way (two
      unlocked updates can cross); a key transition
      reports truthfully what it left; the managed blocks of the OpenSSH and
      Codex configurations are the only text changed, and a change is applied
      completely or taken back.  A form that is filled from a profile with plain roots and a
      key file as the form writes it gives the profile back; the setup window changes what its fields say and reports
      what was done; a key pair is made where none was, or removed again; the
      installer prepares its local data unasked and changes nothing else
      without consent, and its remote checks leave no session behind.
    - The system: every handle of a pipe has one owner under any interleaving
      of accepting and closing; the output of a child is kept byte for byte
      and its terminal queries are answered; a link in place of a managed path
      is left alone; the authentication window gives one answer, of the kind it was
      asked for; the tools offer exactly the operations that exist.
    - The log: a record is one line that reads back as the event; auditing an
      operation does not change it; a preview stays within its limit.

    ** Not modelled

    The pages and widgets of the Tk windows (setup/*_page.py and their helpers;
    their fields are [Draft.FormState]), the launcher of the setup window
    (setup/launcher.py), the main functions and their command lines, the spike/
    and scripts/ directories and the tests: they are user interface, glue, an
    experiment the product does not import, and checks that drive it from
    outside.  pywin32, pywinpty, the COM objects of the task scheduler and
    FastMCP are answers of scripts.  Locks are taken to be held for the whole of
    the operation that takes them, so operations of one object are sequences
    of steps, except in [SupervisorSteps] and [NamedPipe]; the updates of
    [SetupStore], which take no lock, are interleaved in its race; two programs
    that create the same lock file at once are not modelled; the recursion limit
    of the JSON decoder and the wiping of buffers are not observable in the
    model. *)
From Stdlib Require Import ZArith Ascii String.
From Stdlib Require QArith Lqa.
From stdpp Require Export base list option gmap.
From stdpp Require Import strings.
Export String.StringSyntax.

#[global] Open Scope Z_scope.

(** ** Text and bytes

    A Python [str] is the list of its Unicode code points and a [bytes] or
    [bytearray] value the list of its octets. *)
Abbreviation str := (list Z).
Abbreviation bytes := (list Z).

(** [u "abc"] is the Python literal ["abc"] (ASCII literals only). *)
Definition u (s : String.string) : str :=
  map (fun a => Z.of_N (N_of_ascii a)) (list_ascii_of_string s).
Arguments u _%_string : simpl never.
(** [sh "..."] is the text with every backtick standing for a double quote,
    which a literal cannot hold. *)
Definition sh (s : String.string) : str := map (fun c => if c =? 96 then 34 else c) (u s).
Arguments sh _%_string : simpl never.

(** Lengths are Python integers. *)
Definition len {A} (l : list A) : Z := Z.of_nat (length l).

(** ** Real numbers

    Python floats that stand for times and durations are rationals, which
    computes exactly what the code does up to rounding; [frac a b] is the
    literal a/b. *)
Abbreviation Q := QArith_base.Q.
Definition frac (a : Z) (b : positive) : Q := QArith_base.Qmake a b.
Definition qz (a : Z) : Q := frac a 1.
Definition qadd : Q → Q → Q := QArith_base.Qplus.
Definition qsub : Q → Q → Q := QArith_base.Qminus.
Definition qmul : Q → Q → Q := QArith_base.Qmult.
Definition qle : Q → Q → bool := QArith_base.Qle_bool.
Definition qlt (a b : Q) : bool := negb (qle b a).
Definition qmin (a b : Q) : Q := if qle a b then a else b.
Definition qmax (a b : Q) : Q := if qle a b then b else a.
(** Comparisons of clock readings, as propositions *)
Lemma qlt_spec a b : qlt a b = true ↔ QArith_base.Qlt a b.
Proof.
  unfold qlt, qle. rewrite negb_true_iff. split.
  - intros H. apply QArith_base.Qnot_le_lt. intros Hle. apply QArith_base.Qle_bool_iff in Hle. congruence.
  - intros H. destruct (QArith_base.Qle_bool b a) eqn:E; [|done]. apply QArith_base.Qle_bool_iff in E.
    by apply QArith_base.Qlt_not_le in H.
Qed.
Lemma qlt_spec_false a b : qlt a b = false ↔ QArith_base.Qle b a.
Proof. unfold qlt, qle. rewrite negb_false_iff. apply QArith_base.Qle_bool_iff. Qed.
(** [round(x)]: to the nearest integer, ties to even *)
Definition qround (x : Q) : Z :=
  let n := QArith_base.Qnum x in
  let d := Zpos (QArith_base.Qden x) in
  let f := n / d in
  let r := 2 * (n mod d) in
  if r <? d then f else if d <? r then f + 1 else if Z.even f then f else f + 1.

(** ** Results: a pure function that returns or raises *)
Inductive result (E A : Type) : Type :=
  | Ok (a : A)
  | Err (e : E).
Arguments Ok {E A}.
Arguments Err {E A}.

Definition result_bind {E A B} (f : A → result E B) (m : result E A) : result E B :=
  match m with Ok a => f a | Err e => Err e end.
Definition is_ok {E A} (m : result E A) : Prop := match m with Ok _ => True | Err _ => False end.
#[export] Instance result_ret E : MRet (result E) := fun A a => Ok a.
#[export] Instance result_mbind E : MBind (result E) := fun A B => result_bind.
#[export] Instance result_fmap E : FMap (result E) :=
  fun A B f m => match m with Ok a => Ok (f a) | Err e => Err e end.

(** ** Programs: state, exceptions and waiting

    A stateful operation takes the state of its object together with the
    environment it talks to.  It returns, raises (keeping every change made
    before the exception, as Python does), or is left waiting for an
    environment that never answers. *)
Inductive outcome (E A : Type) : Type :=
  | Ret (a : A)
  | Raise (e : E)
  | Hang.
Arguments Ret {E A}.
Arguments Raise {E A}.
Arguments Hang {E A}.

Definition prog (E S A : Type) : Type := S → outcome E A * S.

Definition prog_bind {E S A B} (f : A → prog E S B) (m : prog E S A) : prog E S B :=
  fun s => match m s with
           | (Ret a, s') => f a s'
           | (Raise e, s') => (Raise e, s')
           | (Hang, s') => (Hang, s')
           end.
#[export] Instance prog_ret E S : MRet (prog E S) := fun A a s => (Ret a, s).
#[export] Instance prog_mbind E S : MBind (prog E S) := fun A B => prog_bind.
#[export] Instance prog_fmap E S : FMap (prog E S) :=
  fun A B f m => prog_bind (fun a s => (Ret (f a), s)) m.

Definition raise {E S A} (e : E) : prog E S A := fun s => (Raise e, s).
Definition hang {E S A} : prog E S A := fun s => (Hang, s).
Definition get {E S} : prog E S S := fun s => (Ret s, s).
Definition put {E S} (s : S) : prog E S unit := fun _ => (Ret tt, s).
Definition modify {E S} (f : S → S) : prog E S unit := fun s => (Ret tt, f s).
Definition gets {E S A} (f : S → A) : prog E S A := fun s => (Ret (f s), s).
Definition lift {E S A} (r : result E A) : prog E S A :=
  fun s => match r with Ok a => (Ret a, s) | Err e => (Raise e, s) end.

(** [try: m  except e: h e] *)
Definition try_except {E S A} (m : prog E S A) (h : E → prog E S A) : prog E S A :=
  fun s => match m s with (Raise e, s') => h e s' | r => r end.

(** [try: m  finally: f]: [f] runs on both exits, and an exception it raises
    replaces the one of [m]. *)
Definition try_finally {E S A} (m : prog E S A) (f : prog E S unit) : prog E S A :=
  fun s => match m s with
           | (Hang, s') => (Hang, s')
           | (r, s') => match f s' with
                        | (Ret _, s'') => (r, s'')
                        | (Raise e, s'') => (Raise e, s'')
                        | (Hang, s'') => (Hang, s'')
                        end
           end.

(** [with suppress(...)]: the exceptions [p] selects are dropped. *)
Definition suppress {E S} (p : E → bool) (m : prog E S unit) : prog E S unit :=
  try_except m (fun e => if p e then mret tt else raise e).

(** [for x in l: body] *)
Fixpoint for_each {E S A} (l : list A) (body : A → prog E S unit) : prog E S unit :=
  match l with
  | [] => mret tt
  | x :: l' => body x ≫= fun _ => for_each l' body
  end.

(** ** Insertion-ordered dictionaries

    A Python [dict] keyed by [str]: keys are unique, iteration follows
    insertion order, and assigning an existing key keeps its place. *)
Abbreviation dict A := (list (str * A)).

#[export] Instance str_eq_dec : EqDecision str := _.

Fixpoint dget {A} (d : dict A) (k : str) : option A :=
  match d with
  | [] => None
  | (k', v) :: d' => if decide (k' = k) then Some v else dget d' k
  end.

Fixpoint dset {A} (d : dict A) (k : str) (v : A) : dict A :=
  match d with
  | [] => [(k, v)]
  | (k', v') :: d' => if decide (k' = k) then (k', v) :: d' else (k', v') :: dset d' k v
  end.

Fixpoint ddel {A} (d : dict A) (k : str) : dict A :=
  match d with
  | [] => []
  | (k', v) :: d' => if decide (k' = k) then d' else (k', v) :: ddel d' k
  end.

Definition dkeys {A} (d : dict A) : list str := map fst d.
Definition dhas {A} (d : dict A) (k : str) : bool := bool_decide (k ∈ dkeys d).

(** [{**a, **b}] and [a.update(b)] *)
Definition dmerge {A} (a b : dict A) : dict A :=
  fold_left (fun d kv => dset d kv.1 kv.2) b a.

(** Dictionaries with unique keys, which every Python dict is. *)
Definition dwf {A} (d : dict A) : Prop := NoDup (dkeys d).

(** [required.issubset(fields) and fields.issubset(required | optional)] *)
Definition subset_of (a b : list str) : bool :=
  forallb (fun k => bool_decide (k ∈ b)) a.
Definition same_set (a b : list str) : bool := subset_of a b && subset_of b a.

(** ** Tactics *)

(** Invert an equation between a bind and a value, in either monad. *)
Lemma result_bind_Ok {E A B} (m : result E A) (f : A → result E B) b :
  m ≫= f = Ok b → ∃ a, m = Ok a ∧ f a = Ok b.
Proof. destruct m; simpl; [eauto | discriminate]. Qed.

(** Injection without normalising the two sides *)
Lemma Ok_inj {E A} (a b : A) : Ok (E := E) a = Ok b → a = b.
Proof. by intros [= ->]. Qed.

Lemma result_bind_Err {E A B} (m : result E A) (f : A → result E B) e :
  m ≫= f = Err e → m = Err e ∨ ∃ a, m = Ok a ∧ f a = Err e.
Proof. destruct m; simpl; [eauto | intros [= ->]; auto]. Qed.

Lemma prog_bind_inv {E S A B} (m : prog E S A) (f : A → prog E S B) s r s'' :
  (m ≫= f) s = (r, s'') →
  (∃ a s', m s = (Ret a, s') ∧ f a s' = (r, s'')) ∨
  (∃ e, m s = (Raise e, s'') ∧ r = Raise e) ∨
  (m s = (Hang, s'') ∧ r = Hang).
Proof.
  unfold mbind, prog_mbind, prog_bind. destruct (m s) as [[a|e|] s'];
    [left; eauto | intros [= <- <-]; right; left; eauto | intros [= <- <-]; auto].
Qed.

(** Unfold the monad operations so that a program applied to a state reduces. *)
Ltac unfold_prog :=
  cbv beta iota delta [mbind prog_mbind prog_bind mret prog_ret fmap prog_fmap get put modify
                       gets raise hang lift try_except try_finally suppress fst snd].
Tactic Notation "unfold_prog" "in" hyp(H) :=
  cbv beta iota delta [mbind prog_mbind prog_bind mret prog_ret fmap prog_fmap get put modify
                       gets raise hang lift try_except try_finally suppress fst snd] in H.

(** [inv_ok H] peels every bind off [H : m ≫= f = Ok b]. *)
Ltac inv_ok H :=
  repeat match type of H with
         | _ ≫= _ = Ok _ =>
             let a := fresh "a" in let Ha := fresh "Ha" in
             apply result_bind_Ok in H; destruct H as [a [Ha H]]
         end.

(** Split every [if] and [match] whose subject is not a variable pattern. *)
Ltac split_match :=
  match goal with
  | |- context [match ?x with _ => _ end] => destruct x eqn:?
  | H : context [match ?x with _ => _ end] |- _ => destruct x eqn:?
  end.

Ltac boolean :=
  repeat match goal with
         | H : (_ && _) = true |- _ => apply andb_true_iff in H as [? ?]
         | H : (_ || _) = false |- _ => apply orb_false_iff in H as [? ?]
         | H : negb _ = true |- _ => apply negb_true_iff in H
         | H : negb _ = false |- _ => apply negb_false_iff in H
         | H : bool_decide _ = true |- _ => apply bool_decide_eq_true in H
         | H : bool_decide _ = false |- _ => apply bool_decide_eq_false in H
         | H : Z.leb _ _ = true |- _ => apply Z.leb_le in H
         | H : Z.leb _ _ = false |- _ => apply Z.leb_gt in H
         | H : Z.ltb _ _ = true |- _ => apply Z.ltb_lt in H
         | H : Z.ltb _ _ = false |- _ => apply Z.ltb_ge in H
         end.

(** ** Lemmas on lengths *)
Create HintDb len discriminated.
Create Rewrite HintDb len.

Lemma len_nil {A} : len (@nil A) = 0.
Proof. reflexivity. Qed.
Lemma len_cons {A} (x : A) l : len (x :: l) = 1 + len l.
Proof. unfold len. cbn [length]. lia. Qed.
Lemma len_app {A} (l k : list A) : len (l ++ k) = len l + len k.
Proof. unfold len. rewrite length_app. lia. Qed.
Lemma len_nonneg {A} (l : list A) : 0 <= len l.
Proof. unfold len. lia. Qed.
Lemma len_drop {A} n (l : list A) : 0 <= n → len (drop (Z.to_nat n) l) = Z.max 0 (len l - n).
Proof. unfold len. rewrite length_drop. lia. Qed.
Lemma len_take {A} n (l : list A) : 0 <= n → len (take (Z.to_nat n) l) = Z.min n (len l).
Proof. unfold len. rewrite length_take. lia. Qed.
Lemma len_0 {A} (l : list A) : len l = 0 → l = [].
Proof. destruct l; [done|]. rewrite len_cons. pose proof (len_nonneg l). lia. Qed.
#[export] Hint Rewrite @len_nil @len_cons @len_app : len.
#[export] Hint Resolve len_nonneg : len.

(** ** Lemmas on dictionaries *)
Create HintDb dict discriminated.
Create Rewrite HintDb dict.

Lemma dget_dset_eq {A} (d : dict A) k v : dget (dset d k v) k = Some v.
Proof.
  induction d as [|[k' v'] d IH]; simpl; [by rewrite decide_True|].
  case_decide; simpl; [by rewrite decide_True | by rewrite decide_False].
Qed.

Lemma dget_dset_ne {A} (d : dict A) k k' v : k ≠ k' → dget (dset d k v) k' = dget d k'.
Proof.
  intros Hne. induction d as [|[k1 v1] d IH]; simpl; [by rewrite decide_False|].
  case_decide as E; simpl; [subst; by rewrite !decide_False | by rewrite IH].
Qed.

Lemma dget_None {A} (d : dict A) k : dget d k = None ↔ k ∉ dkeys d.
Proof.
  induction d as [|[k' v] d IH]; simpl; [set_solver|].
  case_decide; [subst; set_solver | rewrite IH; set_solver].
Qed.

Lemma dget_Some_key {A} (d : dict A) k v : dget d k = Some v → k ∈ dkeys d.
Proof. intros H. destruct (decide (k ∈ dkeys d)) as [|Hn]; [done|]. apply dget_None in Hn. congruence. Qed.

Lemma dget_ddel_ne {A} (d : dict A) k k' : k ≠ k' → dget (ddel d k) k' = dget d k'.
Proof.
  intros Hne. induction d as [|[k1 v1] d IH]; simpl; [done|].
  case_decide; simpl; [subst; by rewrite decide_False | by rewrite IH].
Qed.

Lemma dkeys_ddel {A} (d : dict A) k k' : k' ∈ dkeys (ddel d k) → k' ∈ dkeys d.
Proof. induction d as [|[k1 v1] d IH]; simpl; [done|]. case_decide; simpl; set_solver. Qed.

Lemma dget_ddel_eq {A} (d : dict A) k : dwf d → dget (ddel d k) k = None.
Proof.
  unfold dwf. induction d as [|[k1 v1] d IH]; simpl; [done|].
  rewrite NoDup_cons. intros [Hni Hnd]. case_decide; simpl.
  - subst. by apply dget_None.
  - rewrite decide_False by done. auto.
Qed.

Lemma dkeys_dset {A} (d : dict A) k v k' : k' ∈ dkeys (dset d k v) ↔ k' = k ∨ k' ∈ dkeys d.
Proof.
  induction d as [|[k1 v1] d IH]; simpl; [set_solver|].
  case_decide; simpl; [subst; set_solver | rewrite !elem_of_cons, IH; set_solver].
Qed.

Lemma dwf_nil {A} : dwf (@nil (str * A)).
Proof. constructor. Qed.

Lemma dwf_dset {A} (d : dict A) k v : dwf d → dwf (dset d k v).
Proof.
  unfold dwf. induction d as [|[k1 v1] d IH]; simpl; intros H; [constructor; [set_solver|constructor]|].
  apply NoDup_cons in H as [Hni Hnd]. case_decide as Hk; simpl; apply NoDup_cons; split; auto.
  fold (dkeys (dset d k v)). rewrite dkeys_dset. set_solver.
Qed.

Lemma dwf_ddel {A} (d : dict A) k : dwf d → dwf (ddel d k).
Proof.
  unfold dwf. induction d as [|[k1 v1] d IH]; simpl; [done|].
  rewrite NoDup_cons. intros [Hni Hnd]. case_decide; simpl; [done|].
  apply NoDup_cons; split; [|auto]. intros Hin. by apply dkeys_ddel in Hin.
Qed.

#[export] Hint Rewrite @dget_dset_eq : dict.
#[export] Hint Resolve dwf_nil dwf_dset dwf_ddel : dict.
