(* ===== verification/Errors.v ===== *)
(** * Exceptions

    The controlled error hierarchy ([ServerOpsError] and its subclasses, in
    errors.py and the errors.py of each package) and the built-in exceptions
    the code raises or catches.  A controlled error carries the stable [code]
    that crosses the IPC boundary. *)
From S2P Require Import Prelude.

(** ** The classes derived from [ServerOpsError] *)
Inductive error_class : Set :=
  | ServerOpsError
  | ConfigurationError | ConfigVersionError | ConfigConflictError | ConfigLockTimeout
  | SessionError | InvalidSessionState | AuthenticationUnavailable | SessionLost
  | CommandTimedOut | OutcomeUnknown
  | BrokerError | BrokerAlreadyRunning | BrokerUnavailable | BrokerRequestError
  | BrokerRemoteError | BrokerOutcomeUnknown | WorkerOperationError | SessionNotFound
  | IpcError | IpcClosed | IpcTimeout | IpcMessageError | ProtocolVersionError
  | IpcAuthenticationError | PipeSecurityError
  | AuthenticationError | AuthenticationCancelled | AuthenticationRejected
  | AuthenticationTimedOut | AuthenticationProtocolError | AuthenticationReplayError
  | AuthenticationLaunchError
  | RemoteFileError | FileConflictError
  | ElevationError
  | InstallerError
  | BrokerTaskError | BrokerTaskUnavailable.

#[export] Instance error_class_eq_dec : EqDecision error_class.
Proof. solve_decision. Defined.

(** The base class each class names. *)
Definition class_parent (c : error_class) : option error_class :=
  match c with
  | ServerOpsError => None
  | ConfigurationError | SessionError | BrokerError | IpcError | AuthenticationError
  | RemoteFileError | ElevationError | InstallerError | BrokerTaskError => Some ServerOpsError
  | ConfigVersionError | ConfigConflictError | ConfigLockTimeout => Some ConfigurationError
  | InvalidSessionState | AuthenticationUnavailable | SessionLost | CommandTimedOut
  | OutcomeUnknown => Some SessionError
  | BrokerAlreadyRunning | BrokerUnavailable | BrokerRequestError => Some BrokerError
  | BrokerRemoteError | BrokerOutcomeUnknown | WorkerOperationError | SessionNotFound =>
      Some BrokerRequestError
  | IpcClosed | IpcTimeout | IpcMessageError | IpcAuthenticationError | PipeSecurityError =>
      Some IpcError
  | ProtocolVersionError => Some IpcMessageError
  | AuthenticationCancelled | AuthenticationRejected | AuthenticationTimedOut
  | AuthenticationProtocolError | AuthenticationReplayError | AuthenticationLaunchError =>
      Some AuthenticationError
  | FileConflictError => Some RemoteFileError
  | BrokerTaskUnavailable => Some BrokerTaskError
  end.

(** The class attribute [code], when the class body defines one. *)
Definition own_code (c : error_class) : option str :=
  match c with
  | ServerOpsError => Some (u "serverops_error")
  | InstallerError => Some (u "installer_error")
  | BrokerTaskError => Some (u "broker_task_error")
  | BrokerTaskUnavailable => Some (u "broker_task_unavailable")
  | ConfigurationError => Some (u "configuration_invalid")
  | ConfigVersionError => Some (u "configuration_version_unsupported")
  | ConfigConflictError => Some (u "configuration_conflict")
  | ConfigLockTimeout => Some (u "configuration_lock_timeout")
  | SessionError => Some (u "session_error")
  | InvalidSessionState => Some (u "invalid_session_state")
  | AuthenticationUnavailable => Some (u "authentication_unavailable")
  | SessionLost => Some (u "session_lost")
  | CommandTimedOut => Some (u "command_timed_out")
  | OutcomeUnknown => Some (u "outcome_unknown")
  | BrokerError => Some (u "broker_error")
  | BrokerAlreadyRunning => Some (u "broker_already_running")
  | BrokerUnavailable => Some (u "broker_unavailable")
  | BrokerRequestError => Some (u "broker_request_failed")
  | BrokerRemoteError | BrokerOutcomeUnknown | WorkerOperationError => None
  | SessionNotFound => Some (u "session_not_found")
  | IpcError => Some (u "ipc_error")
  | IpcClosed => Some (u "ipc_closed")
  | IpcTimeout => Some (u "ipc_timeout")
  | IpcMessageError => Some (u "ipc_message_invalid")
  | ProtocolVersionError => Some (u "ipc_protocol_version_mismatch")
  | IpcAuthenticationError => Some (u "ipc_authentication_failed")
  | PipeSecurityError => Some (u "ipc_pipe_security_invalid")
  | AuthenticationError => Some (u "authentication_failed")
  | AuthenticationCancelled => Some (u "authentication_cancelled")
  | AuthenticationRejected => Some (u "authentication_rejected")
  | AuthenticationTimedOut => Some (u "authentication_timeout")
  | AuthenticationProtocolError => Some (u "authentication_protocol_invalid")
  | AuthenticationReplayError => Some (u "authentication_request_reused")
  | AuthenticationLaunchError => Some (u "authentication_window_failed")
  | RemoteFileError => Some (u "remote_file_error")
  | FileConflictError => None
  | ElevationError => Some (u "elevation_error")
  end.

(** The class chain is at most four classes long, so the lookups below need
    no more than four steps. *)
Fixpoint mro (fuel : nat) (c : error_class) : list error_class :=
  match fuel with
  | O => []
  | S fuel => c :: match class_parent c with Some p => mro fuel p | None => [] end
  end.
Definition ancestors (c : error_class) : list error_class := mro 4 c.

Definition subclass (c d : error_class) : bool := bool_decide (d ∈ ancestors c).

(** Attribute lookup of [code] on the class. *)
Fixpoint first_code (cs : list error_class) : str :=
  match cs with
  | [] => []
  | c :: cs => match own_code c with Some k => k | None => first_code cs end
  end.
Definition class_code (c : error_class) : str := first_code (ancestors c).

(** ** Exceptions *)
Inductive builtin_error : Set :=
  | ValueError | UnicodeDecodeError | UnicodeEncodeError | FrameProtocolError | PromptPolicyError
  | TypeError | RuntimeError | KeyError | IndexError | AssertionError
  | OSError | FileNotFoundError | FileExistsError | TimeoutExpired
  | OverflowError | KeyboardInterrupt | OtherException.

#[export] Instance builtin_error_eq_dec : EqDecision builtin_error.
Proof. solve_decision. Defined.

Inductive exn : Set :=
  | Builtin (k : builtin_error) (message : str)
  | Controlled (c : error_class) (code : str) (message : str) (state : option str).

#[export] Instance exn_eq_dec : EqDecision exn.
Proof. solve_decision. Defined.

Abbreviation res := (result exn).
Abbreviation M := (prog exn).

(** [raise C(message)] for a class whose constructor takes the message only *)
Definition controlled (c : error_class) (message : str) : exn :=
  Controlled c (class_code c) message None.

(** [C(code, message)]: the classes whose constructor stores an instance code *)
Definition coded (c : error_class) (code message : str) : exn := Controlled c code message None.
Definition worker_operation_error (code message : str) (state : option str) : exn :=
  Controlled WorkerOperationError code message state.
Definition file_conflict (message : str) : exn :=
  Controlled FileConflictError (u "file_conflict") message None.

(** [except C:] clauses and [getattr(error, "code", default)] *)
Definition isinstance (e : exn) (c : error_class) : bool :=
  match e with Builtin _ _ => false | Controlled d _ _ _ => subclass d c end.
Definition is_value_error (e : exn) : bool :=
  match e with
  | Builtin (ValueError | UnicodeDecodeError | UnicodeEncodeError | FrameProtocolError | PromptPolicyError) _ => true
  | _ => false
  end.
Definition is_frame_error (e : exn) : bool :=
  match e with Builtin FrameProtocolError _ => true | _ => false end.
Definition is_os_error (e : exn) : bool :=
  match e with Builtin (OSError | FileNotFoundError | FileExistsError) _ => true | _ => false end.
(** [except Exception:] lets only [KeyboardInterrupt] and its like through. *)
Definition is_exception (e : exn) : bool :=
  match e with Builtin KeyboardInterrupt _ => false | _ => true end.
Definition error_code (e : exn) (default : str) : str :=
  match e with Builtin _ _ => default | Controlled _ code _ _ => code end.
Definition error_message (e : exn) : str :=
  match e with Builtin _ m => m | Controlled _ _ m _ => m end.

Definition value_error (m : str) : exn := Builtin ValueError m.
(** [if condition: raise e] *)
Definition raise_if (condition : bool) (e : exn) : res unit := if condition then Err e else Ok tt.

(** ** Lemmas *)
Lemma ancestors_complete c :
  ∀ n, (4 ≤ n)%nat → mro n c = ancestors c.
Proof.
  intros n Hn. do 4 (destruct n as [|n]; [lia|]).
  destruct c; destruct n; reflexivity.
Qed.

Lemma subclass_refl c : subclass c c = true.
Proof. destruct c; reflexivity. Qed.

Lemma subclass_root c : subclass c ServerOpsError = true.
Proof. destruct c; reflexivity. Qed.

Lemma isinstance_controlled c d code m s :
  isinstance (Controlled c code m s) d = subclass c d.
Proof. reflexivity. Qed.
