(* ===== verification/Text.v ===== *)
(** * Text: the Python string and bytes operations the program uses

    The methods of [str] and [bytes] (searching, splitting, stripping, number
    parsing and printing), the UTF-8 codec with its strict and replacing error
    handlers, and base64 with strict validation.  They model the language and
    its standard library, so no source lines are mapped to them. *)
From S2P Require Import Prelude Errors.

(** ** Unicode database

    [str.isalnum], [str.lower], [str.casefold] and [repr] consult tables of the
    interpreter; the development uses only their values on ASCII. *)
Class UnicodeDB := {
  uc_alnum : Z → bool;
  uc_lower : Z → str;
  uc_casefold : Z → str;
  uc_printable : Z → bool;
}.
(** The characters a literal cannot hold: newline, double quote, return and
    escape. *)
Definition nl : str := [10].
Definition dq : str := [34].
Definition cr : str := [13].
Definition esc : str := [27].

Definition ascii_digit (c : Z) : bool := (48 <=? c) && (c <=? 57).
Definition ascii_upper (c : Z) : bool := (65 <=? c) && (c <=? 90).
Definition ascii_lower (c : Z) : bool := (97 <=? c) && (c <=? 122).
Definition ascii_alnum (c : Z) : bool := ascii_digit c || ascii_upper c || ascii_lower c.
Definition ascii_to_lower (c : Z) : Z := if ascii_upper c then c + 32 else c.
Definition is_ascii (c : Z) : bool := (0 <=? c) && (c <? 128).

Class UnicodeDBLaws (U : UnicodeDB) : Prop := {
  uc_alnum_ascii : ∀ c, is_ascii c = true → uc_alnum c = ascii_alnum c;
  uc_lower_ascii : ∀ c, is_ascii c = true → uc_lower c = [ascii_to_lower c];
  uc_casefold_ascii : ∀ c, is_ascii c = true → uc_casefold c = [ascii_to_lower c];
  uc_printable_ascii : ∀ c, is_ascii c = true → uc_printable c = (32 <=? c) && (c <? 127);
}.

(** A database that knows ASCII only; it instantiates the interface. *)
Definition ascii_db : UnicodeDB :=
  {| uc_alnum := ascii_alnum;
     uc_lower := fun c => [ascii_to_lower c];
     uc_casefold := fun c => [ascii_to_lower c];
     uc_printable := fun c => (32 <=? c) && (c <? 127) |}.
#[export] Instance ascii_db_laws : UnicodeDBLaws ascii_db.
Proof. by split. Qed.

(** ** Searching and slicing *)
Fixpoint starts_with (p s : str) : bool :=
  match p, s with
  | [], _ => true
  | x :: p, y :: s => (x =? y) && starts_with p s
  | _ :: _, [] => false
  end.
Definition ends_with (p s : str) : bool := starts_with (rev p) (rev s).
Definition starts_with_any (ps : list str) (s : str) : bool := existsb (fun p => starts_with p s) ps.

(** [s.find(p)] counted from the start of [s] *)
Fixpoint find (p s : str) : option nat :=
  if starts_with p s then Some 0%nat
  else match s with [] => None | _ :: s' => S <$> find p s' end.
Definition contains (p s : str) : bool := bool_decide (is_Some (find p s)).

Definition str_eqb (a b : str) : bool := bool_decide (a = b).
Definition mem_Z (c : Z) (s : list Z) : bool := existsb (Z.eqb c) s.

(** [s.replace(p, r)], [s.count(p)] and [s.split(p)] for a non-empty [p]: the
    occurrences are taken from the left and do not overlap. *)
Fixpoint split_fuel (fuel : nat) (p s acc : str) : list str :=
  match fuel with
  | O => [rev acc]
  | S fuel =>
      match s with
      | [] => [rev acc]
      | c :: s' => if starts_with p s then rev acc :: split_fuel fuel p (drop (length p) s) []
                   else split_fuel fuel p s' (c :: acc)
      end
  end.
Definition split (p s : str) : list str := split_fuel (S (length s)) p s [].

Fixpoint join (sep : str) (l : list str) : str :=
  match l with
  | [] => []
  | [x] => x
  | x :: l' => x ++ sep ++ join sep l'
  end.
Definition replace_all (p r s : str) : str := join r (split p s).
Definition count (p s : str) : Z := len (split p s) - 1.

(** [s.split(c)] for one character *)
Fixpoint split_char (c : Z) (s : str) : list str :=
  match s with
  | [] => [[]]
  | x :: s' => if x =? c then [] :: split_char c s'
               else match split_char c s' with
                    | w :: ws => (x :: w) :: ws
                    | [] => [[x]]
                    end
  end.

(** [s.partition(c)] for one character *)
Fixpoint partition_at (c : Z) (s : str) : option (str * str) :=
  match s with
  | [] => None
  | x :: s' => if x =? c then Some ([], s')
               else match partition_at c s' with
                    | Some (a, b) => Some (x :: a, b)
                    | None => None
                    end
  end.

(** ** Stripping *)
Definition is_space (c : Z) : bool :=
  mem_Z c [9; 10; 11; 12; 13; 28; 29; 30; 31; 32; 133; 160; 5760; 8192; 8193; 8194; 8195; 8196;
           8197; 8198; 8199; 8200; 8201; 8202; 8232; 8233; 8239; 8287; 12288].
Fixpoint drop_while (p : Z → bool) (s : str) : str :=
  match s with [] => [] | c :: s' => if p c then drop_while p s' else s end.
Definition lstrip (p : Z → bool) (s : str) : str := drop_while p s.
Definition rstrip (p : Z → bool) (s : str) : str := rev (drop_while p (rev s)).
Definition strip_with (p : Z → bool) (s : str) : str := rstrip p (lstrip p s).
Definition strip (s : str) : str := strip_with is_space s.
Definition removesuffix (p s : str) : str :=
  if ends_with p s && negb (str_eqb p []) then take (length s - length p) s else s.
Definition removeprefix (p s : str) : str := if starts_with p s then drop (length p) s else s.

(** [s.split()]: the words between white space *)
Fixpoint split_words (s word : str) : list str :=
  match s with
  | [] => if str_eqb word [] then [] else [rev word]
  | c :: s => if is_space c then (if str_eqb word [] then split_words s [] else rev word :: split_words s [])
              else split_words s (c :: word)
  end.
Definition words (s : str) : list str := split_words s [].
(** [s.split(None, 1)] on a text that starts with no white space: the first
    word and what follows the white space after it *)
Fixpoint take_word (s : str) : str * str :=
  match s with
  | [] => ([], [])
  | c :: s' => if is_space c then ([], s) else let '(w, r) := take_word s' in (c :: w, r)
  end.
Definition split_once (s : str) : option (str * str) :=
  let '(w, r) := take_word s in
  match lstrip is_space r with
  | [] => None
  | r => if str_eqb w [] then None else Some (w, r)
  end.

(** ** Lines: [s.splitlines(keepends=True)] and [s.splitlines()] *)
Definition line_break (c : Z) : bool := mem_Z c [10; 11; 12; 13; 28; 29; 30; 133; 8232; 8233].
Fixpoint splitlines_acc (s acc : str) : list str :=
  match s with
  | [] => match acc with [] => [] | _ => [rev acc] end
  | c :: s1 =>
      if line_break c then
        match s1 with
        | d :: s2 => if (c =? 13) && (d =? 10)
                     then rev (d :: c :: acc) :: splitlines_acc s2 []
                     else rev (c :: acc) :: splitlines_acc s1 []
        | [] => [rev (c :: acc)]
        end
      else splitlines_acc s1 (c :: acc)
  end.
Definition splitlines_keep (s : str) : list str := splitlines_acc s [].
Definition strip_line_end (l : str) : str :=
  match rev l with
  | [] => l
  | c :: r => if line_break c then
                match r with
                | d :: r' => if (c =? 10) && (d =? 13) then rev r' else rev r
                | [] => []
                end
              else l
  end.
Definition splitlines (s : str) : list str := map strip_line_end (splitlines_keep s).

(** ** Numbers *)
Definition decimal_zeros : list Z :=
  [48; 1632; 1776; 1984; 2406; 2534; 2662; 2790; 2918; 3046; 3174; 3302; 3430; 3558; 3664; 3792;
   3872; 4160; 4240; 6112; 6160; 6470; 6608; 6784; 6800; 6992; 7088; 7232; 7248; 42528; 43216;
   43264; 43472; 43504; 43600; 44016; 65296; 66720; 68912; 69734; 69872; 69942; 70096; 70384;
   70736; 70864; 71248; 71360; 71472; 71904; 72016; 72784; 73040; 73120; 73552; 92768; 92864;
   93008; 120782; 120792; 120802; 120812; 120822; 123200; 123632; 124144; 125264; 130032].
(** The value of a Unicode decimal digit (general category Nd). *)
Definition digit_value (c : Z) : option Z :=
  match List.find (fun z => (z <=? c) && (c <? z + 10)) decimal_zeros with
  | Some z => Some (c - z)
  | None => None
  end.
Definition is_decimal (c : Z) : bool := match digit_value c with Some _ => true | None => false end.

(** The digits of [int(s)]: single underscores may separate digits. *)
Fixpoint digits_of (s : str) (prev_digit : bool) (acc : Z) (n : nat) : option (Z * nat) :=
  match s with
  | [] => if prev_digit then Some (acc, n) else None
  | c :: s' =>
      match digit_value c with
      | Some d => digits_of s' true (10 * acc + d) (S n)
      | None => if (c =? 95) && prev_digit then digits_of s' false acc n else None
      end
  end.
Definition int_max_str_digits : nat := 4300.
Definition unsigned_int (s : str) : option Z :=
  match digits_of s false 0 0 with
  | Some (z, n) => if (int_max_str_digits <? n)%nat then None else Some z
  | None => None
  end.
Definition parse_int (s : str) : option Z :=
  match strip s with
  | c :: s' => if c =? 43 then unsigned_int s'
               else if c =? 45 then Z.opp <$> unsigned_int s'
               else unsigned_int (c :: s')
  | [] => None
  end.

(** [str(n)] *)
Fixpoint digits_fuel (fuel : nat) (n : Z) (acc : str) : str :=
  match fuel with
  | O => acc
  | S fuel => let acc' := (48 + n mod 10) :: acc in
              if n <? 10 then acc' else digits_fuel fuel (n / 10) acc'
  end.
Definition show_nat_Z (n : Z) : str := digits_fuel (S (Z.to_nat (Z.log2 n))) n [].
Definition show_int (n : Z) : str := if n <? 0 then 45 :: show_nat_Z (- n) else show_nat_Z n.

(** [f"{x:.1f}"] *)
Definition show_fixed1 (x : Q) : str :=
  let n := qround (qmul x (qz 10)) in
  (if n <? 0 then [45] else []) ++ show_nat_Z (Z.abs n / 10) ++ u "." ++ show_nat_Z (Z.abs n mod 10).

(** The lower-case hexadecimal digits of [n], at least [w] of them *)
Definition hex_digit (d : Z) : Z := if d <? 10 then 48 + d else 87 + d.
Fixpoint hex_fixed (w : nat) (n : Z) : str :=
  match w with
  | O => []
  | S w => hex_fixed w (n / 16) ++ [hex_digit (n mod 16)]
  end.

(** [repr(s)] *)
Definition repr_char {U : UnicodeDB} (quote c : Z) : str :=
  if (c =? quote) || (c =? 92) then [92; c]
  else if c =? 9 then u "\t" else if c =? 10 then u "\n" else if c =? 13 then u "\r"
  else if uc_printable c then [c]
  else if c <? 256 then u "\x" ++ hex_fixed 2 c
  else if c <? 65536 then u "\u" ++ hex_fixed 4 c
  else u "\U" ++ hex_fixed 8 c.
Definition py_repr {U : UnicodeDB} (s : str) : str :=
  let quote := if mem_Z 39 s && negb (mem_Z 34 s) then 34 else 39 in
  [quote] ++ concat (map (repr_char quote) s) ++ [quote].

(** ** UTF-8 *)
Definition surrogate (c : Z) : bool := (55296 <=? c) && (c <=? 57343).
Definition utf8_encode_char (c : Z) : bytes :=
  if c <? 128 then [c]
  else if c <? 2048 then [192 + c / 64; 128 + c mod 64]
  else if c <? 65536 then [224 + c / 4096; 128 + (c / 64) mod 64; 128 + c mod 64]
  else [240 + c / 262144; 128 + (c / 4096) mod 64; 128 + (c / 64) mod 64; 128 + c mod 64].
Definition utf8_bytes (s : str) : bytes := concat (map utf8_encode_char s).
(** [s.encode("utf-8")]: a lone surrogate cannot be encoded. *)
Definition utf8_encode (s : str) : res bytes :=
  if existsb surrogate s then Err (Builtin UnicodeEncodeError (u "surrogates not allowed"))
  else Ok (utf8_bytes s).
(** [s.encode("utf-8", errors="replace")]: a surrogate becomes a question mark. *)
Definition utf8_encode_replace (s : str) : bytes :=
  utf8_bytes (map (fun c => if surrogate c then 63 else c) s).

Definition cont (b : Z) : bool := (128 <=? b) && (b <? 192).
(** What the decoder finds at the head of a non-empty input: a character and
    its length, an invalid sequence of [n] bytes, or a sequence cut off by the
    end of the input. *)
Inductive utf8_item := UChar (c : Z) (n : nat) | UInvalid (n : nat) | UShort.

Definition second_ok (b0 b1 : Z) : bool :=
  if b0 =? 224 then (160 <=? b1) && (b1 <? 192)
  else if b0 =? 237 then (128 <=? b1) && (b1 <? 160)
  else if b0 =? 240 then (144 <=? b1) && (b1 <? 192)
  else if b0 =? 244 then (128 <=? b1) && (b1 <? 144)
  else cont b1.

Definition utf8_next (b0 : Z) (rest : bytes) : utf8_item :=
  if b0 <? 128 then UChar b0 1
  else if b0 <? 194 then UInvalid 1
  else if b0 <? 224 then
    match rest with
    | [] => UShort
    | b1 :: _ => if cont b1 then UChar ((b0 - 192) * 64 + (b1 - 128)) 2 else UInvalid 1
    end
  else if b0 <? 240 then
    match rest with
    | [] => UShort
    | b1 :: rest1 =>
        if negb (second_ok b0 b1) then UInvalid 1
        else match rest1 with
             | [] => UShort
             | b2 :: _ => if cont b2
                          then UChar ((b0 - 224) * 4096 + (b1 - 128) * 64 + (b2 - 128)) 3
                          else UInvalid 2
             end
    end
  else if b0 <? 245 then
    match rest with
    | [] => UShort
    | b1 :: rest1 =>
        if negb (second_ok b0 b1) then UInvalid 1
        else match rest1 with
             | [] => UShort
             | b2 :: rest2 =>
                 if negb (cont b2) then UInvalid 2
                 else match rest2 with
                      | [] => UShort
                      | b3 :: _ =>
                          if cont b3
                          then UChar ((b0 - 240) * 262144 + (b1 - 128) * 4096
                                      + (b2 - 128) * 64 + (b3 - 128)) 4
                          else UInvalid 3
                      end
             end
    end
  else UInvalid 1.

(** Strict decoding: the text, or where the error starts and whether it is an
    "unexpected end of data" (which always extends to the end of the input). *)
Inductive utf8_result :=
  | UText (s : str)
  | UBad (start : nat) (unexpected_end : bool).
Fixpoint utf8_decode_fuel (fuel : nat) (pos : nat) (b : bytes) : utf8_result :=
  match fuel, b with
  | O, _ => UText []
  | _, [] => UText []
  | S fuel, b0 :: rest =>
      match utf8_next b0 rest with
      | UChar c n =>
          match utf8_decode_fuel fuel (pos + n) (drop n b) with
          | UText s => UText (c :: s)
          | bad => bad
          end
      | UInvalid _ => UBad pos false
      | UShort => UBad pos true
      end
  end.
Definition utf8_decode (b : bytes) : utf8_result := utf8_decode_fuel (length b) 0 b.

(** [b.decode("utf-8", errors="replace")] *)
Fixpoint utf8_replace_fuel (fuel : nat) (b : bytes) : str :=
  match fuel, b with
  | O, _ => []
  | _, [] => []
  | S fuel, b0 :: rest =>
      match utf8_next b0 rest with
      | UChar c n => c :: utf8_replace_fuel fuel (drop n b)
      | UInvalid n => 65533 :: utf8_replace_fuel fuel (drop n b)
      | UShort => [65533]
      end
  end.
Definition utf8_replace (b : bytes) : str := utf8_replace_fuel (length b) b.

(** ** Base64 *)
Definition b64_char (v : Z) : Z :=
  if v <? 26 then 65 + v else if v <? 52 then 97 + (v - 26)
  else if v <? 62 then 48 + (v - 52) else if v =? 62 then 43 else 47.
Definition b64_value (c : Z) : option Z :=
  if ascii_upper c then Some (c - 65) else if ascii_lower c then Some (c - 97 + 26)
  else if ascii_digit c then Some (c - 48 + 52)
  else if c =? 43 then Some 62 else if c =? 47 then Some 63 else None.

Fixpoint b64_encode (b : bytes) : str :=
  match b with
  | [] => []
  | [x] => [b64_char (x / 4); b64_char ((x mod 4) * 16); 61; 61]
  | [x; y] => [b64_char (x / 4); b64_char ((x mod 4) * 16 + y / 16);
               b64_char ((y mod 16) * 4); 61]
  | x :: y :: z :: b' =>
      b64_char (x / 4) :: b64_char ((x mod 4) * 16 + y / 16)
      :: b64_char ((y mod 16) * 4 + z / 64) :: b64_char (z mod 64) :: b64_encode b'
  end.

(** [binascii.a2b_base64(s, strict_mode=True)], the loop of the C code: the
    position inside the current group of four, the bits left over, the padding
    characters counted so far and whether padding has started. *)
Record b64_state := B64 { quad : Z; left : Z; pads : Z; padding : bool }.
Fixpoint b64_loop (s : str) (st : b64_state) (acc : bytes) : option bytes :=
  match s with
  | [] => if quad st =? 0 then Some (rev acc) else None
  | c :: s' =>
      if c =? 61 then
        if (2 <=? quad st) then
          if 4 <=? quad st + (pads st + 1)
          then match s' with [] => Some (rev acc) | _ => None end
          else b64_loop s' (B64 (quad st) (left st) (pads st + 1) true) acc
        else b64_loop s' (B64 (quad st) (left st) (pads st) true) acc
      else
        match b64_value c with
        | None => None
        | Some v =>
            if padding st then None
            else if quad st =? 0 then b64_loop s' (B64 1 v 0 false) acc
            else if quad st =? 1 then
              b64_loop s' (B64 2 (v mod 16) 0 false) ((left st * 4 + v / 16) :: acc)
            else if quad st =? 2 then
              b64_loop s' (B64 3 (v mod 4) 0 false) ((left st * 16 + v / 4) :: acc)
            else b64_loop s' (B64 0 0 0 false) ((left st * 64 + v) :: acc)
        end
  end.
Definition b64_decode (s : str) : option bytes :=
  if starts_with [61] s then None else b64_loop s (B64 0 0 0 false) [].

(** ** Ordering: texts compare by code point, position by position *)
Fixpoint str_ltb (a b : str) : bool :=
  match a, b with
  | [], [] => false
  | [], _ :: _ => true
  | _ :: _, [] => false
  | x :: a, y :: b => (x <? y) || ((x =? y) && str_ltb a b)
  end.
(** [sorted(l, key=key)]: stable insertion sort *)
Fixpoint insert_by {A} (key : A → str) (x : A) (l : list A) : list A :=
  match l with
  | [] => [x]
  | y :: l' => if str_ltb (key y) (key x) then y :: insert_by key x l' else x :: l
  end.
Definition sort_by {A} (key : A → str) (l : list A) : list A := foldr (insert_by key) [] l.
Definition sort_strs : list str → list str := sort_by id.
