(* ===== verification/TextFacts.v ===== *)
(** * Facts about text

    The lemmas on UTF-8, base64, searching, splitting and number printing that
    the components share. *)
From S2P Require Import Prelude Errors Text.

(** Let [lia] reason about division and remainder. *)
#[local] Ltac Zify.zify_post_hook ::= Z.to_euclidean_division_equations.

(** ** Prefixes *)
Lemma starts_with_spec p s : starts_with p s = true ↔ ∃ t, s = p ++ t.
Proof.
  revert s. induction p as [|x p IH]; intros s; simpl; [split; eauto|].
  destruct s as [|y s]; simpl; [split; [done | intros [? ?]; done]|].
  rewrite andb_true_iff, Z.eqb_eq, IH. split.
  - intros [-> [t ->]]. eauto.
  - intros [t [= -> ->]]. eauto.
Qed.

Lemma starts_with_app p s : starts_with p (p ++ s) = true.
Proof. apply starts_with_spec. eauto. Qed.

Lemma starts_with_refl p : starts_with p p = true.
Proof. apply starts_with_spec. exists []. by rewrite app_nil_r. Qed.

Lemma drop_prefix {A} (p s : list A) : drop (length p) (p ++ s) = s.
Proof. apply drop_app_length. Qed.

(** ** UTF-8 *)
Definition code_point (c : Z) : bool := (0 <=? c) && (c <? 1114112) && negb (surrogate c).
Definition byte (b : Z) : bool := (0 <=? b) && (b <? 256).
Abbreviation text_ok s := (forallb code_point s = true).
Abbreviation bytes_ok b := (forallb byte b = true).

(** Decide every comparison in the goal by linear arithmetic. *)
Ltac zcmp :=
  repeat match goal with
         | |- context [?a <? ?b] =>
             first [ replace (a <? b) with true by (symmetry; apply Z.ltb_lt; lia)
                   | replace (a <? b) with false by (symmetry; apply Z.ltb_ge; lia) ]
         | |- context [?a <=? ?b] =>
             first [ replace (a <=? b) with true by (symmetry; apply Z.leb_le; lia)
                   | replace (a <=? b) with false by (symmetry; apply Z.leb_gt; lia) ]
         | |- context [?a =? ?b] =>
             first [ replace (a =? b) with true by (symmetry; apply Z.eqb_eq; lia)
                   | replace (a =? b) with false by (symmetry; apply Z.eqb_neq; lia) ]
         end; cbn [andb orb negb].

(** Turn a boolean conjunction of comparisons, in the goal or in a hypothesis,
    into arithmetic. *)
Ltac zprop :=
  repeat match goal with
         | |- (_ && _) = true => apply andb_true_iff; split
         | |- (_ <=? _) = true => apply Z.leb_le
         | |- (_ <? _) = true => apply Z.ltb_lt
         | |- (_ =? _) = true => apply Z.eqb_eq
         | H : (_ =? _) = true |- _ => apply Z.eqb_eq in H
         | H : (_ =? _) = false |- _ => apply Z.eqb_neq in H
         end.

Lemma code_point_bounds c :
  code_point c = true ↔ (0 <= c < 55296 ∨ 57344 <= c < 1114112).
Proof. unfold code_point, surrogate. split; intros; lia. Qed.

Lemma utf8_next_encode c rest :
  code_point c = true →
  ∃ b0 tl, utf8_encode_char c = b0 :: tl ∧
           utf8_next b0 (tl ++ rest) = UChar c (length (utf8_encode_char c)).
Proof.
  intros Hc%code_point_bounds. unfold utf8_encode_char.
  destruct (Z.ltb_spec c 128); [|destruct (Z.ltb_spec c 2048);
    [|destruct (Z.ltb_spec c 65536)]].
  - eexists _, _; split; [reflexivity|]. cbn. unfold utf8_next. zcmp. done.
  - eexists _, _; split; [reflexivity|]. cbn [app length]. unfold utf8_next, cont.
    zcmp. f_equal. lia.
  - eexists _, _; split; [reflexivity|]. cbn [app length]. unfold utf8_next.
    assert (second_ok (224 + c / 4096) (128 + (c / 64) mod 64) = true) as ->
      by (unfold second_ok, cont; repeat case_match; zprop; lia).
    unfold cont.
    zcmp. f_equal. lia.
  - eexists _, _; split; [reflexivity|]. cbn [app length]. unfold utf8_next.
    assert (second_ok (240 + c / 262144) (128 + (c / 4096) mod 64) = true) as ->
      by (unfold second_ok, cont; repeat case_match; zprop; lia).
    unfold cont.
    zcmp. f_equal. lia.
Qed.

Lemma utf8_encode_char_length c : (1 ≤ length (utf8_encode_char c))%nat.
Proof. unfold utf8_encode_char. repeat case_match; simpl; lia. Qed.

Lemma utf8_decode_fuel_encode s fuel pos :
  text_ok s → (length (utf8_bytes s) ≤ fuel)%nat →
  utf8_decode_fuel fuel pos (utf8_bytes s) = UText s.
Proof.
  revert fuel pos. induction s as [|c s IH]; intros fuel pos; [by destruct fuel|].
  simpl. intros [Hc Hs]%andb_true_iff Hf.
  change (utf8_bytes (c :: s)) with (utf8_encode_char c ++ utf8_bytes s) in *.
  destruct (utf8_next_encode c (utf8_bytes s) Hc) as (b0 & tl & Heq & Hn).
  pose proof (utf8_encode_char_length c). rewrite length_app in Hf.
  destruct fuel as [|fuel]; [lia|].
  assert (Hd : drop (length (utf8_encode_char c)) (utf8_encode_char c ++ utf8_bytes s)
               = utf8_bytes s) by apply drop_prefix.
  revert Hd Hn. rewrite Heq. cbn [app]. intros Hd Hn.
  cbn [utf8_decode_fuel]. rewrite Hn, Hd, IH; [done|done|lia].
Qed.

(** Strict decoding inverts encoding. *)
Lemma utf8_decode_encode s : text_ok s → utf8_decode (utf8_bytes s) = UText s.
Proof. intros. by apply utf8_decode_fuel_encode. Qed.

(** And encoding inverts decoding: what decodes is the encoding of its text. *)
Lemma second_bounds b0 b1 : second_ok b0 b1 = true →
  128 <= b1 < 192 ∧ (b0 = 224 → 160 <= b1) ∧ (b0 = 237 → b1 < 160) ∧ (b0 = 240 → 144 <= b1) ∧ (b0 = 244 → b1 < 144).
Proof.
  unfold second_ok, cont.
  destruct (Z.eqb_spec b0 224), (Z.eqb_spec b0 237), (Z.eqb_spec b0 240), (Z.eqb_spec b0 244); intros H; boolean; lia.
Qed.
Lemma utf8_next_char b0 rest c n :
  0 <= b0 → utf8_next b0 rest = UChar c n →
  code_point c = true ∧ ∃ t, b0 :: rest = utf8_encode_char c ++ t ∧ drop n (b0 :: rest) = t.
Proof.
  intros Hb0 H. unfold utf8_next in H.
  destruct (Z.ltb_spec b0 128).
  { injection H as <- <-. split; [apply code_point_bounds; lia|]. exists rest. unfold utf8_encode_char. by zcmp. }
  destruct (Z.ltb_spec b0 194); [discriminate|].
  destruct (Z.ltb_spec b0 224).
  { destruct rest as [|b1 rest]; [discriminate|]. destruct (cont b1) eqn:E; [|discriminate]. injection H as <- <-.
    unfold cont in E. boolean. split; [apply code_point_bounds; lia|]. exists rest. split; [|done].
    unfold utf8_encode_char. zcmp. cbn [app]. repeat f_equal; lia. }
  destruct (Z.ltb_spec b0 240).
  { destruct rest as [|b1 rest]; [discriminate|]. destruct (second_ok b0 b1) eqn:E; [|discriminate]. apply second_bounds in E.
    cbn [negb] in H. destruct rest as [|b2 rest]; [discriminate|]. destruct (cont b2) eqn:E2; [|discriminate]. injection H as <- <-.
    unfold cont in E2. boolean. split; [apply code_point_bounds; lia|]. exists rest. split; [|done].
    unfold utf8_encode_char. zcmp. cbn [app]. repeat f_equal; lia. }
  destruct (Z.ltb_spec b0 245); [|discriminate].
  destruct rest as [|b1 rest]; [discriminate|]. destruct (second_ok b0 b1) eqn:E; [|discriminate]. apply second_bounds in E.
  cbn [negb] in H. destruct rest as [|b2 rest]; [discriminate|]. destruct (cont b2) eqn:E2; [|discriminate]. cbn [negb] in H.
  destruct rest as [|b3 rest]; [discriminate|]. destruct (cont b3) eqn:E3; [|discriminate]. injection H as <- <-.
  unfold cont in E2, E3. boolean. split; [apply code_point_bounds; lia|]. exists rest. split; [|done].
  unfold utf8_encode_char. zcmp. cbn [app]. repeat f_equal; lia.
Qed.
Lemma utf8_decode_fuel_text fuel pos b t :
  Forall (fun x => 0 <= x) b → (length b ≤ fuel)%nat → utf8_decode_fuel fuel pos b = UText t → text_ok t ∧ utf8_bytes t = b.
Proof.
  revert pos b t. induction fuel as [|fuel IH]; intros pos b t Hb Hf H; cbn [utf8_decode_fuel] in H.
  { injection H as <-. by destruct b; [|cbn in Hf; lia]. }
  destruct b as [|b0 rest]; [by injection H as <-|]. inversion Hb as [|? ? Hb0 Hrest]; subst.
  destruct (utf8_next b0 rest) as [c n|n|] eqn:E; [|discriminate|discriminate].
  destruct (utf8_next_char _ _ _ _ Hb0 E) as (Hc & u' & Hu & Hd). rewrite Hd in H.
  destruct (utf8_decode_fuel fuel (pos + n) u') as [s|] eqn:Es; [|discriminate]. injection H as <-.
  assert (Forall (fun x => 0 <= x) u') by (by apply (Forall_app _ (utf8_encode_char c)); rewrite <- Hu).
  apply IH in Es as [Hs Hbytes]; [|done|].
  - split; [cbn; by rewrite Hc|]. change (utf8_bytes (c :: s)) with (utf8_encode_char c ++ utf8_bytes s). by rewrite Hbytes, Hu.
  - apply (f_equal length) in Hu. rewrite length_app in Hu. pose proof (utf8_encode_char_length c). cbn [length] in *. lia.
Qed.
Lemma utf8_decode_text b t : bytes_ok b → utf8_decode b = UText t → text_ok t ∧ utf8_bytes t = b.
Proof.
  intros Hb. apply utf8_decode_fuel_text; [|done]. rewrite forallb_forall in Hb. apply Forall_forall. intros x Hx.
  specialize (Hb x ltac:(by apply list_elem_of_In)). unfold byte in Hb. boolean. lia.
Qed.

Lemma utf8_replace_fuel_encode s fuel :
  text_ok s → (length (utf8_bytes s) ≤ fuel)%nat →
  utf8_replace_fuel fuel (utf8_bytes s) = s.
Proof.
  revert fuel. induction s as [|c s IH]; intros fuel; [by destruct fuel|].
  simpl. intros [Hc Hs]%andb_true_iff Hf.
  change (utf8_bytes (c :: s)) with (utf8_encode_char c ++ utf8_bytes s) in *.
  destruct (utf8_next_encode c (utf8_bytes s) Hc) as (b0 & tl & Heq & Hn).
  pose proof (utf8_encode_char_length c). rewrite length_app in Hf.
  destruct fuel as [|fuel]; [lia|].
  assert (Hd : drop (length (utf8_encode_char c)) (utf8_encode_char c ++ utf8_bytes s)
               = utf8_bytes s) by apply drop_prefix.
  revert Hd Hn. rewrite Heq. cbn [app]. intros Hd Hn.
  cbn [utf8_replace_fuel]. rewrite Hn, Hd, IH; [done|done|lia].
Qed.

Lemma utf8_replace_encode s : text_ok s → utf8_replace (utf8_bytes s) = s.
Proof. intros. by apply utf8_replace_fuel_encode. Qed.

Lemma utf8_encode_ok s : text_ok s → utf8_encode s = Ok (utf8_bytes s).
Proof.
  intros H. unfold utf8_encode. destruct (existsb surrogate s) eqn:E; [|done].
  apply existsb_exists in E as (c & Hin & Hc). rewrite forallb_forall in H.
  specialize (H c Hin). unfold code_point in H. rewrite Hc, andb_false_r in H. done.
Qed.

Lemma utf8_bytes_app a b : utf8_bytes (a ++ b) = utf8_bytes a ++ utf8_bytes b.
Proof. unfold utf8_bytes. by rewrite map_app, concat_app. Qed.

Lemma utf8_bytes_ascii s : forallb is_ascii s = true → utf8_bytes s = s.
Proof.
  induction s as [|c s IH]; simpl; [done|]. intros [Hc Hs]%andb_true_iff.
  change (utf8_bytes (c :: s)) with (utf8_encode_char c ++ utf8_bytes s).
  rewrite IH by done. unfold utf8_encode_char, is_ascii in *. zcmp. done.
Qed.

Lemma text_ok_ascii s : forallb is_ascii s = true → text_ok s.
Proof.
  rewrite !forallb_forall. intros H c Hin. specialize (H c Hin).
  unfold is_ascii, code_point, surrogate in *. lia.
Qed.

Lemma utf8_bytes_range s : text_ok s → bytes_ok (utf8_bytes s).
Proof.
  induction s as [|c s IH]; simpl; [done|]. intros [Hc Hs]%andb_true_iff.
  change (utf8_bytes (c :: s)) with (utf8_encode_char c ++ utf8_bytes s).
  rewrite forallb_app, IH, andb_true_r by done. apply code_point_bounds in Hc.
  unfold utf8_encode_char. repeat case_match; cbn; unfold byte; lia.
Qed.

(** ** Base64 *)
Definition b64_alphabet (c : Z) : bool := ascii_alnum c || (c =? 43) || (c =? 47) || (c =? 61).

(** A boolean property of a bounded integer, checked by computation. *)
Lemma range_check (f : Z → bool) n v :
  forallb f (map Z.of_nat (seq 0 n)) = true → 0 <= v < Z.of_nat n → f v = true.
Proof.
  rewrite forallb_forall. intros H Hv. apply H, in_map_iff.
  exists (Z.to_nat v). split; [lia|]. apply in_seq. lia.
Qed.

Lemma b64_value_char v : 0 <= v < 64 → b64_value (b64_char v) = Some v.
Proof.
  intros Hv.
  pose proof (range_check (fun v => bool_decide (b64_value (b64_char v) = Some v)) 64 v
                eq_refl Hv) as H. by apply bool_decide_eq_true in H.
Qed.

Lemma b64_char_alphabet v : 0 <= v < 64 → b64_alphabet (b64_char v) = true.
Proof. intros Hv. by apply (range_check (fun v => b64_alphabet (b64_char v)) 64). Qed.

Lemma b64_char_not_pad v : 0 <= v < 64 → (b64_char v =? 61) = false.
Proof.
  intros Hv. apply negb_true_iff.
  by apply (range_check (fun v => negb (b64_char v =? 61)) 64).
Qed.

(** Induction in steps of three, the groups of the encoder. *)
Lemma list_ind3 {A} (P : list A → Prop) :
  P [] → (∀ x, P [x]) → (∀ x y, P [x; y]) →
  (∀ x y z l, P l → P (x :: y :: z :: l)) → ∀ l, P l.
Proof.
  intros H0 H1 H2 H3. fix IH 1. intros [|x [|y [|z l]]];
    [exact H0 | exact (H1 x) | exact (H2 x y) | apply H3, IH].
Qed.

(** One data character in each of the four positions of a group. *)
Lemma b64_loop_char v s q lft pd acc :
  0 <= v < 64 →
  b64_loop (b64_char v :: s) (B64 q lft pd false) acc =
  if q =? 0 then b64_loop s (B64 1 v 0 false) acc
  else if q =? 1 then b64_loop s (B64 2 (v mod 16) 0 false) ((lft * 4 + v / 16) :: acc)
  else if q =? 2 then b64_loop s (B64 3 (v mod 4) 0 false) ((lft * 16 + v / 4) :: acc)
  else b64_loop s (B64 0 0 0 false) ((lft * 64 + v) :: acc).
Proof. intros Hv. simpl. by rewrite b64_char_not_pad, b64_value_char by done. Qed.

Lemma b64_loop_encode b acc :
  bytes_ok b → b64_loop (b64_encode b) (B64 0 0 0 false) acc = Some (rev acc ++ b).
Proof.
  revert acc. induction b as [|x|x y|x y z b IH] using list_ind3; intros acc; cbn [forallb b64_encode].
  - intros _. cbn. by rewrite app_nil_r.
  - intros Hx. unfold byte in Hx. rewrite !b64_loop_char by lia. cbn. f_equal.
    f_equal. f_equal. lia.
  - intros Hx. unfold byte in Hx. rewrite !b64_loop_char by lia. cbn.
    rewrite <- app_assoc. f_equal. f_equal. cbn. repeat f_equal; lia.
  - intros Hx. unfold byte in Hx. boolean. rewrite !b64_loop_char by lia. cbn [Z.eqb].
    cbn. rewrite IH by done. cbn. rewrite <- !app_assoc. cbn. repeat f_equal; lia.
Qed.

(** Strict base64 decoding inverts encoding. *)
Lemma b64_decode_encode b : bytes_ok b → b64_decode (b64_encode b) = Some b.
Proof.
  intros Hb. unfold b64_decode.
  replace (starts_with [61] (b64_encode b)) with false;
    [by rewrite b64_loop_encode|].
  assert (∀ v l, 0 <= v < 64 → false = starts_with [61] (b64_char v :: l)) as Hne.
  { intros v l Hv. cbn [starts_with]. by rewrite Z.eqb_sym, b64_char_not_pad. }
  destruct b as [|x [|y [|z b]]]; [done|..]; cbn [forallb] in Hb; unfold byte in Hb;
    apply Hne; lia.
Qed.

Lemma b64_encode_alphabet b : bytes_ok b → forallb b64_alphabet (b64_encode b) = true.
Proof.
  induction b as [|x|x y|x y z b IH] using list_ind3; cbn [forallb b64_encode]; intros Hx;
    unfold byte in Hx; boolean; rewrite ?b64_char_alphabet by lia; auto.
Qed.

Lemma b64_alphabet_ascii s : forallb b64_alphabet s = true → forallb is_ascii s = true.
Proof.
  rewrite !forallb_forall. intros H c Hin. specialize (H c Hin). revert H.
  unfold b64_alphabet, is_ascii, ascii_alnum, ascii_digit, ascii_upper, ascii_lower. lia.
Qed.

(** ** Decimal numbers *)
Lemma digits_of_app a b p acc n :
  forallb is_decimal a = true → a ≠ [] →
  ∃ acc', digits_of (a ++ b) p acc n = digits_of b true acc' (n + length a)
          ∧ digits_of a p acc n = Some (acc', (n + length a)%nat).
Proof.
  revert p acc n. induction a as [|c a IH]; intros p acc n Ha Hne; [done|].
  cbn [forallb] in Ha. apply andb_true_iff in Ha as [Hc Ha].
  unfold is_decimal in Hc. cbn [app digits_of].
  destruct (digit_value c) as [d|] eqn:Hd; [|done].
  destruct a as [|c' a].
  - exists (10 * acc + d). cbn. rewrite Nat.add_1_r. done.
  - destruct (IH true (10 * acc + d) (S n) Ha ltac:(done)) as (acc' & H1 & H2).
    assert (S n + length (c' :: a) = n + length (c :: c' :: a))%nat as E by (cbn; lia).
    exists acc'. by rewrite <- E.
Qed.

Lemma digit_value_ascii d : 0 <= d < 10 → digit_value (48 + d) = Some d.
Proof.
  intros Hd.
  pose proof (range_check (fun d => bool_decide (digit_value (48 + d) = Some d)) 10 d
                eq_refl Hd) as H. by apply bool_decide_eq_true in H.
Qed.

(** Printing pushes the digits of [n] in front of [acc], and reading the
    digits back from accumulator 0 gives [n]. *)
Lemma digits_fuel_spec fuel n acc :
  0 <= n < 10 ^ Z.of_nat fuel → (0 < fuel)%nat →
  ∃ ds, digits_fuel fuel n acc = ds ++ acc ∧ ds ≠ [] ∧
        (length ds ≤ fuel)%nat ∧ forallb ascii_digit ds = true ∧
        ∀ p m, digits_of ds p 0 m = Some (n, (m + length ds)%nat).
Proof.
  revert n acc. induction fuel as [|fuel IH]; intros n acc Hn Hf; [lia|].
  cbn [digits_fuel]. destruct (Z.ltb_spec n 10) as [Hlt|Hge].
  - exists [48 + n mod 10]. rewrite Z.mod_small by lia. repeat split.
    + done.
    + simpl; lia.
    + cbn. unfold ascii_digit. zcmp. done.
    + intros p m. cbn [digits_of]. rewrite digit_value_ascii by lia. cbn [length].
      rewrite Nat.add_1_r. done.
  - destruct fuel as [|fuel]; [cbn in Hn; lia|].
    destruct (IH (n / 10) ((48 + n mod 10) :: acc)) as (ds & Heq & Hne & Hl & Hd & Hrd).
    { rewrite Nat2Z.inj_succ, Z.pow_succ_r in Hn by lia. lia. }
    { lia. }
    exists (ds ++ [48 + n mod 10]). rewrite Heq, <- app_assoc. repeat split.
    + by destruct ds.
    + rewrite length_app. simpl. lia.
    + rewrite forallb_app, Hd. cbn. unfold ascii_digit. zcmp. done.
    + intros p m. destruct (digits_of_app ds [48 + n mod 10] p 0 m) as (acc' & H1 & H2);
        [|done|].
      { apply forallb_forall. intros c Hc. rewrite forallb_forall in Hd. specialize (Hd c Hc).
        unfold is_decimal. replace c with (48 + (c - 48)) by lia.
        rewrite digit_value_ascii; [done|]. unfold ascii_digit in Hd. lia. }
      rewrite Hrd in H2. injection H2 as <-. rewrite H1. cbn [digits_of].
      rewrite digit_value_ascii, length_app by lia. cbn [length].
      replace (S (m + length ds)) with (m + (length ds + 1))%nat by lia.
      replace (10 * (n / 10) + n mod 10) with n by lia. done.
Qed.

Lemma log2_digits n : 0 <= n → n < 10 ^ Z.of_nat (S (Z.to_nat (Z.log2 n))).
Proof.
  intros Hn. destruct (Z.eq_dec n 0) as [->|Hnz]; [done|].
  pose proof (Z.log2_spec n ltac:(lia)) as [_ Hlt]. pose proof (Z.log2_nonneg n).
  replace (Z.of_nat (S (Z.to_nat (Z.log2 n)))) with (Z.succ (Z.log2 n)) by lia.
  eapply Z.lt_le_trans; [exact Hlt|]. apply Z.pow_le_mono_l. lia.
Qed.

Lemma show_nat_spec n :
  0 <= n → ∃ ds, show_nat_Z n = ds ∧ ds ≠ [] ∧ forallb ascii_digit ds = true ∧
                 (length ds ≤ S (Z.to_nat (Z.log2 n)))%nat ∧
                 ∀ p m, digits_of ds p 0 m = Some (n, (m + length ds)%nat).
Proof.
  intros Hn. unfold show_nat_Z.
  destruct (digits_fuel_spec (S (Z.to_nat (Z.log2 n))) n []) as (ds & Heq & ? & ? & ? & ?);
    [split; [done | by apply log2_digits] | lia |].
  exists ds. rewrite Heq, app_nil_r. auto.
Qed.

(** Stripping leaves a text alone when neither end is a space. *)
Lemma strip_id s :
  forallb (fun c => negb (is_space c)) s = true → strip s = s.
Proof.
  assert (∀ l, forallb (fun c => negb (is_space c)) l = true → drop_while is_space l = l) as Hd.
  { intros [|c l]; cbn; [done|]. intros [Hc _]%andb_true_iff.
    apply negb_true_iff in Hc. by rewrite Hc. }
  intros Hs. unfold strip, strip_with, lstrip, rstrip. rewrite (Hd s Hs).
  rewrite Hd; [apply rev_involutive|]. rewrite forallb_forall in *.
  intros c Hc. apply Hs. by apply in_rev.
Qed.

Lemma ascii_digit_not_space c : ascii_digit c = true → is_space c = false.
Proof.
  intros Hc. unfold ascii_digit in Hc.
  pose proof (range_check (fun d => negb (is_space (d + 48))) 10 (c - 48) eq_refl ltac:(lia)) as H.
  apply negb_true_iff in H. by replace (c - 48 + 48) with c in H by lia.
Qed.

(** Printing an integer and reading it back: the numbers printed here have
    fewer digits than the interpreter's limit of 4300. *)
Lemma parse_show_int n :
  (Z.to_nat (Z.log2 (Z.abs n)) < 4300)%nat → parse_int (show_int n) = Some n.
Proof.
  intros Hb. unfold show_int, parse_int.
  destruct (show_nat_spec (Z.abs n) ltac:(lia)) as (ds & Heq & Hne & Hd & Hl & Hrd).
  assert (unsigned_int ds = Some (Z.abs n)) as Hu.
  { unfold unsigned_int. rewrite Hrd. unfold int_max_str_digits.
    destruct (Nat.ltb_spec 4300 (0 + length ds)%nat); [lia|done]. }
  assert (forallb (fun c => negb (is_space c)) ds = true) as Hsp.
  { apply forallb_forall. intros c Hc. rewrite forallb_forall in Hd.
    by rewrite ascii_digit_not_space by auto. }
  destruct (Z.ltb_spec n 0).
  - replace (- n) with (Z.abs n) by lia. rewrite Heq.
    rewrite strip_id by (apply andb_true_iff; by split). cbn [Z.eqb Pos.eqb].
    rewrite Hu. cbn. f_equal. lia.
  - replace n with (Z.abs n) at 1 by lia. rewrite Heq, strip_id by done.
    destruct ds as [|c ds]; [done|]. cbn in Hd. unfold ascii_digit in Hd.
    zcmp. rewrite Hu. f_equal. lia.
Qed.

(** The shape of a printed integer *)
Lemma show_int_shape n :
  ∃ sign ds, show_int n = sign ++ ds ∧ (sign = [] ∨ sign = [45]) ∧ ds ≠ [] ∧
             forallb ascii_digit ds = true.
Proof.
  unfold show_int. destruct (show_nat_spec (Z.abs n) ltac:(lia)) as (ds & Heq & Hne & Hd & _).
  destruct (Z.ltb_spec n 0).
  - exists [45], ds. replace (- n) with (Z.abs n) by lia. rewrite Heq. auto.
  - exists [], ds. replace n with (Z.abs n) at 1 by lia. rewrite Heq. auto.
Qed.

Lemma digit_decimal c : ascii_digit c = true → is_decimal c = true.
Proof.
  intros Hc. unfold ascii_digit in Hc. unfold is_decimal.
  replace c with (48 + (c - 48)) by lia. by rewrite digit_value_ascii by lia.
Qed.

(** UTF-8 puts no ASCII byte inside another character. *)
Lemma utf8_bytes_absent b s :
  text_ok s → 0 <= b < 128 → b ∉ s → b ∉ utf8_bytes s.
Proof.
  intros Hs Hb. induction s as [|c s IH]; [set_solver|]. cbn in Hs.
  apply andb_true_iff in Hs as [Hc Hs]. apply code_point_bounds in Hc.
  intros Hn. change (utf8_bytes (c :: s)) with (utf8_encode_char c ++ utf8_bytes s).
  rewrite elem_of_app. intros [Hin|Hin]; [|apply IH; set_solver]. apply Hn.
  apply list_elem_of_In in Hin. unfold utf8_encode_char in Hin.
  destruct (Z.ltb_spec c 128); [cbn in Hin; set_solver|].
  pose proof (Z.mod_pos_bound c 64 ltac:(lia)).
  pose proof (Z.mod_pos_bound (c / 64) 64 ltac:(lia)).
  pose proof (Z.mod_pos_bound (c / 4096) 64 ltac:(lia)).
  pose proof (Z.div_pos c 64 ltac:(lia) ltac:(lia)).
  pose proof (Z.div_pos c 4096 ltac:(lia) ltac:(lia)).
  pose proof (Z.div_pos c 262144 ltac:(lia) ltac:(lia)).
  destruct (c <? 2048); [|destruct (c <? 65536)]; cbn in Hin; lia.
Qed.

(** ** Splitting at a character, and stripping at the end *)
Definition lacks (c : Z) (s : str) : bool := forallb (fun x => negb (x =? c)) s.

Lemma split_char_nonempty c s : split_char c s ≠ [].
Proof. induction s as [|x s IH]; cbn; [done|]. destruct (x =? c); [done|]. by destruct (split_char c s). Qed.

Lemma split_char_lacks c s : Forall (fun w => lacks c w = true) (split_char c s).
Proof.
  induction s as [|x s IH]; cbn; [by repeat constructor|].
  destruct (x =? c) eqn:E; [by constructor|].
  destruct (split_char c s) as [|w ws]; [constructor; [cbn; by rewrite E|done]|].
  inversion_clear IH. constructor; [cbn; by rewrite E|done].
Qed.

Lemma split_char_word c w s : lacks c w = true → split_char c (w ++ c :: s) = w :: split_char c s.
Proof.
  induction w as [|x w IH]; cbn; [by rewrite Z.eqb_refl|].
  intros [Hx Hw]%andb_true_iff. apply negb_true_iff in Hx. by rewrite Hx, IH.
Qed.

Lemma split_char_last c w : lacks c w = true → split_char c w = [w].
Proof.
  induction w as [|x w IH]; cbn; [done|].
  intros [Hx Hw]%andb_true_iff. apply negb_true_iff in Hx. by rewrite Hx, IH.
Qed.

Lemma split_char_join c ws :
  ws ≠ [] → Forall (fun w => lacks c w = true) ws → split_char c (join [c] ws) = ws.
Proof.
  intros Hne H. induction H as [|w ws Hw Hws IH]; [done|].
  destruct ws as [|w' ws]; [by apply split_char_last|].
  change (join [c] (w :: w' :: ws)) with (w ++ c :: join [c] (w' :: ws)).
  by rewrite split_char_word, IH.
Qed.

Lemma drop_while_suffix p s : ∃ t, s = t ++ drop_while p s ∧ forallb p t = true.
Proof.
  induction s as [|c s (t & Ht & Hp)]; cbn; [by exists []|].
  destruct (p c) eqn:E; [|by exists []].
  exists (c :: t). cbn. rewrite E, <- Ht. done.
Qed.

Lemma rstrip_prefix p s : ∃ t, s = rstrip p s ++ t ∧ forallb p t = true.
Proof.
  unfold rstrip. destruct (drop_while_suffix p (rev s)) as (t & Ht & Hp).
  exists (rev t). split.
  - rewrite <- rev_app_distr, <- Ht. by rewrite rev_involutive.
  - rewrite forallb_forall in *. intros x Hx. apply Hp. by apply in_rev.
Qed.

Lemma rstrip_last p s c : p c = false → rstrip p (s ++ [c]) = s ++ [c].
Proof. intros H. unfold rstrip. rewrite rev_app_distr. cbn. rewrite H. cbn. by rewrite rev_involutive. Qed.

Lemma rstrip_end p s : rstrip p s = [] ∨ ∃ t c, rstrip p s = t ++ [c] ∧ p c = false.
Proof.
  unfold rstrip. destruct (drop_while p (rev s)) as [|c l] eqn:E; [by left|]. right.
  exists (rev l), c. split; [done|]. clear -E. revert E.
  induction (rev s) as [|x r IH]; cbn; [done|]. destruct (p x) eqn:Ep; [done|]. by intros [= <- <-].
Qed.

(** ** Sorting permutes *)
Lemma insert_by_perm {A} (key : A → str) x l : insert_by key x l ≡ₚ x :: l.
Proof.
  induction l as [|y l IH]; cbn; [done|]. destruct (str_ltb _ _); [|done].
  rewrite IH. apply Permutation_swap.
Qed.
Lemma sort_by_perm {A} (key : A → str) l : sort_by key l ≡ₚ l.
Proof. induction l as [|x l IH]; cbn; [done|]. by rewrite insert_by_perm, IH. Qed.

(** ** Replacing *)
Lemma split_fuel_acc fuel p s acc :
  split_fuel fuel p s acc = match split_fuel fuel p s [] with w :: ws => (rev acc ++ w) :: ws | [] => [] end.
Proof.
  revert s acc. induction fuel as [|fuel IH]; intros s acc; cbn [split_fuel]; [cbn; by rewrite app_nil_r|].
  destruct s as [|c s]; [cbn; by rewrite app_nil_r|].
  destruct (starts_with p (c :: s)); [cbn; by rewrite app_nil_r|].
  rewrite (IH s (c :: acc)), (IH s [c]). destruct (split_fuel fuel p s []) as [|w ws]; [done|].
  cbn. by rewrite <- app_assoc.
Qed.

Lemma split_fuel_more fuel p s acc : p ≠ [] → (length s < fuel)%nat →
  split_fuel fuel p s acc = split_fuel (S (length s)) p s acc.
Proof.
  intros Hp. revert s acc. induction fuel as [fuel IH] using lt_wf_ind; intros s acc Hf.
  destruct fuel as [|fuel]; [lia|]. cbn [split_fuel]. destruct s as [|c s]; [done|].
  destruct (starts_with p (c :: s)) eqn:E.
  - f_equal. assert (length (drop (length p) (c :: s)) < S (length s))%nat.
    { rewrite length_drop. destruct p; [done|]. cbn. lia. }
    cbn [length] in *. rewrite (IH fuel) by lia.
    destruct (decide (fuel = S (length s))) as [->|]; [by rewrite <- (IH (S (length s))) by lia|].
    symmetry. rewrite (IH (S (length s))) by lia. done.
  - cbn [length] in *. rewrite (IH fuel) by lia. done.
Qed.

Lemma split_nonempty fuel p s acc : split_fuel fuel p s acc ≠ [].
Proof.
  revert s acc. induction fuel as [|fuel IH]; intros s acc; cbn [split_fuel]; [done|].
  destruct s; [done|]. destruct (starts_with _ _); [done|apply IH].
Qed.

Lemma join_cons_head sep x w ws : join sep ((x :: w) :: ws) = x :: join sep (w :: ws).
Proof. by destruct ws. Qed.

Lemma split_fuel_step fuel p c s acc :
  split_fuel (S fuel) p (c :: s) acc =
  if starts_with p (c :: s) then rev acc :: split_fuel fuel p (drop (length p) (c :: s)) []
  else split_fuel fuel p s (c :: acc).
Proof. reflexivity. Qed.

(** [s.replace(p, r)] from the left *)
Lemma replace_all_cons p r c s : p ≠ [] →
  replace_all p r (c :: s) =
  if starts_with p (c :: s) then r ++ replace_all p r (drop (length p) (c :: s))
  else c :: replace_all p r s.
Proof.
  intros Hp. unfold replace_all, split.
  rewrite (split_fuel_step (length (c :: s)) p c s []). cbn [length].
  destruct (starts_with p (c :: s)) eqn:E.
  - assert (length (drop (length p) (c :: s)) < S (length s))%nat.
    { rewrite length_drop. destruct p; [done|]. cbn. lia. }
    rewrite (split_fuel_more (S (length s)) p (drop (length p) (c :: s)) []) by (done || lia).
    pose proof (split_nonempty (S (length (drop (length p) (c :: s)))) p (drop (length p) (c :: s)) []).
    by destruct (split_fuel _ p (drop _ _) []).
  - rewrite split_fuel_acc. pose proof (split_nonempty (S (length s)) p s []).
    destruct (split_fuel (S (length s)) p s []) as [|w ws]; [done|]. cbn [rev app]. apply join_cons_head.
Qed.
Lemma replace_all_nil p r : replace_all p r [] = [].
Proof. reflexivity. Qed.

(** Normalising line ends takes every carriage return out. *)
Definition without_cr (s : str) : str := List.filter (fun c => negb (c =? 13)) s.
Lemma replace_cr s : replace_all cr [] s = without_cr s.
Proof.
  induction s as [|c s IH]; [done|]. rewrite replace_all_cons by done. unfold cr. cbn [starts_with without_cr List.filter].
  rewrite Z.eqb_sym, andb_true_r. destruct (c =? 13); cbn [negb]; [exact IH|f_equal; exact IH].
Qed.
Lemma replace_crlf_cr s : replace_all cr [] (replace_all (cr ++ nl) nl s) = without_cr s.
Proof.
  rewrite replace_cr. change (cr ++ nl) with [13; 10].
  remember (length s) as n eqn:Hn. revert s Hn. induction n as [n IH] using lt_wf_ind. intros s ->.
  destruct s as [|c s]; [done|]. rewrite replace_all_cons by done.
  destruct (starts_with [13; 10] (c :: s)) eqn:E.
  - apply starts_with_spec in E as [t E]. injection E as -> ->.
    change (drop (length [13; 10]) (13 :: 10 :: t)) with t.
    change (without_cr (13 :: 10 :: t)) with (10 :: without_cr t).
    change (without_cr (nl ++ ?x)) with (10 :: without_cr x). f_equal. apply (IH (length t)); [cbn; lia|done].
  - assert (∀ x, without_cr (c :: x) = if negb (c =? 13) then c :: without_cr x else without_cr x) as Hc by done.
    rewrite !Hc, (IH (length s)); [done|cbn; lia|done].
Qed.
