(* ===== verification/Regex.v ===== *)
(** * Regex: the backtracking matcher of Python's [re] module

    The patterns of the program are written as terms of [re]; [fullmatch],
    [search], [finditer] and [subn] run them with the priorities of the
    standard library (greedy and lazy repetition, leftmost alternative first).
    The second half relates the matcher to the language a pattern denotes, so
    that a component can reason about what a pattern accepts. *)
From S2P Require Import Prelude Errors Text TextFacts.

(** ** Patterns *)
Inductive re : Type :=
  | RChar (p : Z → bool)
  | REmpty
  | RSeq (a b : re)
  | RAlt (a b : re)
  | RStar (greedy : bool) (a : re)
  | RGroup (n : nat) (a : re)
  | RBol
  | REol
  | RWordB.

Definition ROpt (a : re) : re := RAlt a REmpty.
Definition RPlus (a : re) : re := RSeq a (RStar true a).
Fixpoint RRepeat (n : nat) (a : re) : re :=
  match n with O => REmpty | S n => RSeq a (RRepeat n a) end.
(** [a{0,n}] *)
Fixpoint RUpto (n : nat) (a : re) : re :=
  match n with O => REmpty | S n => ROpt (RSeq a (RUpto n a)) end.
(** [a{lo,hi}] and [a{lo,}] *)
Definition RRange (lo hi : nat) (a : re) : re := RSeq (RRepeat lo a) (RUpto (hi - lo) a).
Definition RAtLeast (lo : nat) (a : re) : re := RSeq (RRepeat lo a) (RStar true a).
Fixpoint RSeqs (l : list re) : re :=
  match l with [] => REmpty | [a] => a | a :: l => RSeq a (RSeqs l) end.
Fixpoint RAlts (l : list re) : re :=
  match l with [] => RChar (fun _ => false) | [a] => a | a :: l => RAlt a (RAlts l) end.

(** Character classes *)
Definition cls (l : list (Z * Z)) (c : Z) : bool :=
  existsb (fun r => (r.1 <=? c) && (c <=? r.2)) l.
Definition cls_not (p : Z → bool) (c : Z) : bool := negb (p c).
Definition any_but_newline (c : Z) : bool := negb (c =? 10).
Definition any_char (_ : Z) : bool := true.
Definition one (c : Z) : Z → bool := Z.eqb c.
Definition word_char {U : UnicodeDB} (c : Z) : bool := uc_alnum c || (c =? 95).
(** With [re.IGNORECASE] a letter also matches its other case, and four more
    characters fold to ASCII letters: U+0130 and U+0131 to i, U+017F to s and
    U+212A to k. *)
Definition fold_case (c : Z) : Z :=
  if ascii_upper c then c + 32
  else if (c =? 304) || (c =? 305) then 105
  else if c =? 383 then 115
  else if c =? 8490 then 107 else c.
Definition ci (p : Z → bool) (c : Z) : bool :=
  p c || p (fold_case c) || (ascii_lower (fold_case c) && p (fold_case c - 32)).
(** A literal, and a literal under [re.IGNORECASE] *)
Definition RLit (s : str) : re := RSeqs (map (fun c => RChar (one c)) s).
Definition RLitI (s : str) : re := RSeqs (map (fun c => RChar (ci (one c))) s).

(** ** Matching *)
(** A position in the subject: what lies before it (reversed), what lies after
    it, and the groups captured so far as (group, (start, end)). *)
Record mstate := MState { before : str; after : str; caps : list (nat * (nat * nat)) }.
Definition mpos (s : mstate) : nat := length (before s).

Section matcher.
Context {U : UnicodeDB}.

Definition at_boundary (s : mstate) : bool :=
  let l := match before s with c :: _ => word_char c | [] => false end in
  let r := match after s with c :: _ => word_char c | [] => false end in
  xorb l r.
Definition at_end (s : mstate) : bool :=
  match after s with [] => true | [c] => c =? 10 | _ => false end.
Definition at_start (s : mstate) : bool :=
  match before s with [] => true | _ => false end.
Definition step_char (p : Z → bool) (s : mstate) : option mstate :=
  match after s with
  | c :: rest => if p c then Some (MState (c :: before s) rest (caps s)) else None
  | [] => None
  end.
Definition capture (n start : nat) (s : mstate) : mstate :=
  MState (before s) (after s) ((n, (start, mpos s)) :: caps s).

Fixpoint star_loop (m : (mstate → option mstate) → mstate → option mstate) (greedy : bool)
    (fuel : nat) (k : mstate → option mstate) (s : mstate) : option mstate :=
  match fuel with
  | O => k s
  | S fuel =>
      let more := m (fun s' => if (length (after s') <? length (after s))%nat
                               then star_loop m greedy fuel k s' else None) s in
      if greedy then match more with Some t => Some t | None => k s end
      else match k s with Some t => Some t | None => more end
  end.

Fixpoint rmatch (r : re) (k : mstate → option mstate) (s : mstate) {struct r} : option mstate :=
  match r with
  | RChar p => match step_char p s with Some s' => k s' | None => None end
  | REmpty => k s
  | RSeq a b => rmatch a (rmatch b k) s
  | RAlt a b => match rmatch a k s with Some t => Some t | None => rmatch b k s end
  | RStar g a => star_loop (rmatch a) g (S (length (after s))) k s
  | RGroup n a => rmatch a (fun s' => k (capture n (mpos s) s')) s
  | RBol => if at_start s then k s else None
  | REol => if at_end s then k s else None
  | RWordB => if at_boundary s then k s else None
  end.

Definition start_of (s : str) : mstate := MState [] s [].

(** [p.fullmatch(s)] *)
Definition fullmatch_state (r : re) (s : str) : option mstate :=
  rmatch r (fun t => match after t with [] => Some t | _ => None end) (start_of s).
Definition fullmatch (r : re) (s : str) : bool := bool_decide (is_Some (fullmatch_state r s)).

(** [p.search(s)], from a position onwards *)
Fixpoint search_fuel (fuel : nat) (r : re) (s : mstate) : option (nat * mstate) :=
  match rmatch r Some s with
  | Some t => Some (mpos s, t)
  | None =>
      match fuel, after s with
      | S fuel, c :: rest => search_fuel fuel r (MState (c :: before s) rest [])
      | _, _ => None
      end
  end.
Definition search_from (r : re) (s : mstate) : option (nat * mstate) :=
  search_fuel (length (after s)) r s.
Definition search (r : re) (s : str) : option (nat * mstate) := search_from r (start_of s).
Definition matches_in (r : re) (s : str) : bool := bool_decide (is_Some (search r s)).

(** [p.finditer(s)]: every match with its start; the patterns of the program
    never match the empty string, and the search resumes where one ended. *)
Fixpoint finditer_fuel (fuel : nat) (r : re) (s : mstate) : list (nat * mstate) :=
  match fuel with
  | O => []
  | S fuel =>
      match search_from r s with
      | None => []
      | Some (i, t) => (i, t) :: finditer_fuel fuel r (MState (before t) (after t) [])
      end
  end.
Definition finditer (r : re) (s : str) : list (nat * mstate) :=
  finditer_fuel (S (length s)) r (start_of s).

End matcher.

(** [m.group(n)] and [m.group(0)] *)
Definition slice (s : str) (i j : nat) : str := take (j - i) (drop i s).
Definition whole (t : mstate) : str := rev (before t) ++ after t.
Definition cap_of (n : nat) (t : mstate) : option (nat * nat) :=
  match List.find (fun c => (c.1 =? n)%nat) (caps t) with Some c => Some c.2 | None => None end.
Definition group (n : nat) (t : mstate) : option str :=
  match cap_of n t with Some (i, j) => Some (slice (whole t) i j) | None => None end.
Definition group0 (m : nat * mstate) : str := slice (whole m.2) m.1 (mpos m.2).

(** [p.subn(f, s)] *)
Fixpoint subst_matches (f : nat * mstate → str) (s : str) (pos : nat)
    (ms : list (nat * mstate)) : str :=
  match ms with
  | [] => drop pos s
  | m :: ms => slice s pos m.1 ++ f m ++ subst_matches f s (mpos m.2) ms
  end.
Definition subn {U : UnicodeDB} (r : re) (f : nat * mstate → str) (s : str) : str * nat :=
  let ms := finditer r s in (subst_matches f s 0 ms, length ms).

(** ** The language of a pattern

    [lang r s t]: matching [r] from position [s] can end at position [t].  A
    repetition only goes around again when its body consumed something. *)
Section language.
Context {U : UnicodeDB}.

Inductive lang : re → mstate → mstate → Prop :=
  | lang_char p s t : step_char p s = Some t → lang (RChar p) s t
  | lang_empty s : lang REmpty s s
  | lang_seq a b s t v : lang a s t → lang b t v → lang (RSeq a b) s v
  | lang_alt_l a b s t : lang a s t → lang (RAlt a b) s t
  | lang_alt_r a b s t : lang b s t → lang (RAlt a b) s t
  | lang_star_done g a s : lang (RStar g a) s s
  | lang_star_more g a s t v :
      lang a s t → (length (after t) < length (after s))%nat →
      lang (RStar g a) t v → lang (RStar g a) s v
  | lang_group n a s t : lang a s t → lang (RGroup n a) s (capture n (mpos s) t)
  | lang_bol s : at_start s = true → lang RBol s s
  | lang_eol s : at_end s = true → lang REol s s
  | lang_wordb s : at_boundary s = true → lang RWordB s s.

Lemma star_loop_sound a g :
  (∀ k s t, rmatch a k s = Some t → ∃ s', lang a s s' ∧ k s' = Some t) →
  ∀ fuel k s t, star_loop (rmatch a) g fuel k s = Some t →
                ∃ s', lang (RStar g a) s s' ∧ k s' = Some t.
Proof.
  intros IH fuel. induction fuel as [|fuel IHf]; intros k s t; cbn [star_loop].
  { intros H. exists s. split; [constructor|done]. }
  assert (∀ t, rmatch a (fun s' => if (length (after s') <? length (after s))%nat
                                   then star_loop (rmatch a) g fuel k s' else None) s = Some t →
               ∃ s', lang (RStar g a) s s' ∧ k s' = Some t) as Hmore.
  { intros t' H. apply IH in H as (s1 & Hl & H).
    destruct (Nat.ltb_spec (length (after s1)) (length (after s))); [|done].
    apply IHf in H as (s2 & Hl2 & H). exists s2. split; [|done].
    by eapply lang_star_more. }
  destruct g.
  - destruct (rmatch a _ s) eqn:E; intros H; [|exists s; split; [constructor|done]].
    injection H as <-. by apply Hmore.
  - destruct (k s) eqn:E; intros H; [|by apply Hmore].
    injection H as <-. exists s. split; [constructor|done].
Qed.

(** Whatever the matcher finds is in the language. *)
Lemma rmatch_sound r : ∀ k s t, rmatch r k s = Some t → ∃ s', lang r s s' ∧ k s' = Some t.
Proof.
  induction r as [p| |a IHa b IHb|a IHa b IHb|g a IHa|n a IHa| | |]; intros k s t; cbn [rmatch].
  - destruct (step_char p s) eqn:E; [|done]. intros H. eexists. split; [by constructor|done].
  - intros H. exists s. split; [constructor|done].
  - intros H. apply IHa in H as (s1 & H1 & H). apply IHb in H as (s2 & H2 & H).
    exists s2. split; [by eapply lang_seq|done].
  - destruct (rmatch a k s) eqn:E; intros H.
    + injection H as ->. apply IHa in E as (s' & ? & ?). exists s'. split; [by constructor|done].
    + apply IHb in H as (s' & ? & ?). exists s'. split; [by apply lang_alt_r|done].
  - by apply star_loop_sound.
  - intros H. apply IHa in H as (s' & ? & ?). eexists. split; [by constructor|done].
  - destruct (at_start s) eqn:E; [|done]. intros H. exists s. split; [by constructor|done].
  - destruct (at_end s) eqn:E; [|done]. intros H. exists s. split; [by constructor|done].
  - destruct (at_boundary s) eqn:E; [|done]. intros H. exists s. split; [by constructor|done].
Qed.

Lemma star_loop_complete a g :
  (∀ k s s', lang a s s' → is_Some (k s') → is_Some (rmatch a k s)) →
  ∀ s s', lang (RStar g a) s s' →
  ∀ fuel k, (length (after s) < fuel)%nat → is_Some (k s') →
            is_Some (star_loop (rmatch a) g fuel k s).
Proof.
  intros IH s s' Hl. remember (RStar g a) as r eqn:Er. revert Er.
  induction Hl as [| | | | |g' a' s0|g' a' s0 s1 s2 Ha _ Hlen Hl IHl| | | |]; intros Er fuel k Hf Hk;
    simplify_eq; destruct fuel as [|fuel]; try lia; cbn [star_loop].
  - destruct g; [destruct (rmatch a _ s0); [by eexists|done]|].
    destruct Hk as [t ->]. by eexists.
  - assert (is_Some (rmatch a (fun s' => if (length (after s') <? length (after s0))%nat
                       then star_loop (rmatch a) g fuel k s' else None) s0)) as [t Ht].
    { apply IH with s1; [done|]. destruct (Nat.ltb_spec (length (after s1)) (length (after s0))); [|lia].
      apply IHl; [done | lia | done]. }
    destruct g; rewrite Ht; [by eexists|]. destruct (k s0); by eexists.
Qed.

(** The matcher finds something whenever the language has a match the
    continuation accepts: backtracking misses nothing. *)
Lemma rmatch_complete r : ∀ k s s', lang r s s' → is_Some (k s') → is_Some (rmatch r k s).
Proof.
  induction r as [p| |a IHa b IHb|a IHa b IHb|g a IHa|n a IHa| | |]; intros k s s' Hl Hk; cbn [rmatch].
  - inversion Hl as [? ? ? E| | | | | | | | | |]; subst. by rewrite E.
  - inversion Hl; subst. done.
  - inversion Hl; subst. eapply IHa; [done|]. by eapply IHb.
  - inversion Hl; subst.
    + destruct (IHa k s s') as [t ->]; [done|done|]. by eexists.
    + destruct (rmatch a k s); [by eexists|]. by eapply IHb.
  - eapply star_loop_complete; [exact IHa | exact Hl | lia | exact Hk].
  - inversion Hl; subst. eapply IHa; [done|]. done.
  - inversion Hl as [| | | | | | | | ? E| |]; subst. by rewrite E.
  - inversion Hl as [| | | | | | | | | ? E|]; subst. by rewrite E.
  - inversion Hl as [| | | | | | | | | |? E]; subst. by rewrite E.
Qed.

Lemma fullmatch_lang r s :
  fullmatch r s = true ↔ ∃ t, lang r (start_of s) t ∧ after t = [].
Proof.
  unfold fullmatch. rewrite bool_decide_eq_true. split.
  - intros [t Ht]. apply rmatch_sound in Ht as (s' & Hl & Hk). exists s'.
    destruct (after s') eqn:E; done.
  - intros (t & Hl & Ht). eapply rmatch_complete; [exact Hl|]. rewrite Ht. by eexists.
Qed.

(** *** Inversion of the derived forms *)
Lemma lang_seq_inv a b s v : lang (RSeq a b) s v ↔ ∃ t, lang a s t ∧ lang b t v.
Proof. split; [inversion 1; eauto | intros (t & ? & ?); by eapply lang_seq]. Qed.

Lemma lang_char_inv p s t :
  lang (RChar p) s t ↔
  ∃ c rest, after s = c :: rest ∧ p c = true ∧ t = MState (c :: before s) rest (caps s).
Proof.
  split.
  - inversion 1 as [? ? ? E| | | | | | | | | |]; subst. unfold step_char in E.
    destruct (after s) as [|c rest]; [done|]. destruct (p c) eqn:Hp; [|done].
    injection E as <-. eauto.
  - intros (c & rest & Ha & Hp & ->). constructor. unfold step_char. by rewrite Ha, Hp.
Qed.

(** What a class repeated [n] times consumes. *)
Lemma lang_repeat_char p n s t :
  lang (RRepeat n (RChar p)) s t ↔
  ∃ w rest, after s = w ++ rest ∧ length w = n ∧ forallb p w = true ∧
            t = MState (rev w ++ before s) rest (caps s).
Proof.
  revert s. induction n as [|n IH]; intros s; cbn [RRepeat].
  - split.
    + inversion 1; subst. exists [], (after t). by destruct t.
    + intros (w & rest & Ha & Hl & _ & ->). destruct w; [|done]. cbn in *. subst rest.
      destruct s; constructor.
  - rewrite lang_seq_inv. split.
    + intros (t1 & H1 & H2). apply lang_char_inv in H1 as (c & rest & Ha & Hp & ->).
      apply IH in H2 as (w & rest' & Hw & Hl & Hf & ->). cbn in *. subst rest.
      exists (c :: w), rest'. cbn. rewrite Hp, <- app_assoc. auto.
    + intros (w & rest & Ha & Hl & Hf & ->). destruct w as [|c w]; [done|].
      cbn in Hf. apply andb_true_iff in Hf as [Hp Hf].
      exists (MState (c :: before s) (w ++ rest) (caps s)). split.
      { apply lang_char_inv. exists c, (w ++ rest). auto. }
      apply IH. exists w, rest. cbn in *. rewrite <- app_assoc. auto.
Qed.

Lemma lang_upto_char p n s t :
  lang (RUpto n (RChar p)) s t ↔
  ∃ w rest, after s = w ++ rest ∧ (length w ≤ n)%nat ∧ forallb p w = true ∧
            t = MState (rev w ++ before s) rest (caps s).
Proof.
  revert s. induction n as [|n IH]; intros s; cbn [RUpto].
  - split.
    + inversion 1; subst. exists [], (after t). by destruct t.
    + intros (w & rest & Ha & Hl & _ & ->). destruct w; [|cbn in *; lia]. cbn in *. subst rest.
      destruct s; constructor.
  - unfold ROpt. split.
    + inversion 1 as [| | |? ? ? ? H1|? ? ? ? H1| | | | | |]; subst.
      * apply lang_seq_inv in H1 as (t1 & H1 & H2).
        apply lang_char_inv in H1 as (c & rest & Ha & Hp & ->).
        apply IH in H2 as (w & rest' & Hw & Hl & Hf & ->). cbn in *. subst rest.
        exists (c :: w), rest'. cbn. rewrite Hp, <- app_assoc. repeat split; auto. lia.
      * inversion H1; subst. exists [], (after t). destruct t. repeat split; simpl; lia || done.
    + intros (w & rest & Ha & Hl & Hf & ->). destruct w as [|c w].
      { cbn in *. subst rest. apply lang_alt_r. destruct s; constructor. }
      cbn in Hf. apply andb_true_iff in Hf as [Hp Hf]. apply lang_alt_l, lang_seq_inv.
      exists (MState (c :: before s) (w ++ rest) (caps s)). split.
      { apply lang_char_inv. exists c, (w ++ rest). auto. }
      apply IH. exists w, rest. cbn in *. rewrite <- app_assoc. repeat split; auto. lia.
Qed.

Lemma lang_star_char g p s t :
  lang (RStar g (RChar p)) s t ↔
  ∃ w rest, after s = w ++ rest ∧ forallb p w = true ∧
            t = MState (rev w ++ before s) rest (caps s).
Proof.
  split.
  - intros H. remember (RStar g (RChar p)) as r eqn:Er. revert Er.
    induction H as [| | | | |g' a s0|g' a s0 s1 s2 Ha _ Hlen Hl IHl| | | |]; intros Er; simplify_eq.
    + exists [], (after s0). by destruct s0.
    + apply lang_char_inv in Ha as (c & rest & Ha & Hp & ->).
      destruct IHl as (w & rest' & Hw & Hf & ->); [done|]. cbn in *. subst rest.
      exists (c :: w), rest'. cbn. rewrite Hp, <- app_assoc. auto.
  - intros (w & rest & Ha & Hf & ->). revert s Ha.
    induction w as [|c w IH]; intros s Ha; cbn in *.
    { subst rest. destruct s; constructor. }
    apply andb_true_iff in Hf as [Hp Hf].
    apply lang_star_more with (MState (c :: before s) (w ++ rest) (caps s)).
    + apply lang_char_inv. exists c, (w ++ rest). auto.
    + rewrite Ha. cbn. lia.
    + rewrite <- app_assoc.
      apply (IH Hf (MState (c :: before s) (w ++ rest) (caps s))). done.
Qed.

Lemma lang_lit w s t :
  lang (RLit w) s t ↔ ∃ rest, after s = w ++ rest ∧ t = MState (rev w ++ before s) rest (caps s).
Proof.
  revert s. induction w as [|c w IH]; intros s.
  - split; [inversion 1; subst; exists (after t); by destruct t|].
    intros (rest & Ha & ->). cbn in Ha. subst rest. destruct s; constructor.
  - assert (lang (RLit (c :: w)) s t ↔ lang (RSeq (RChar (one c)) (RLit w)) s t) as ->.
    { destruct w; [|done]. cbn [RLit map RSeqs]. rewrite lang_seq_inv. split.
      - intros H. exists t. split; [exact H|constructor].
      - intros (t1 & H & H1). by inversion H1; subst. }
    rewrite lang_seq_inv. split.
    + intros (t1 & H1 & H). apply lang_char_inv in H1 as (d & rest & Ha & Hd & ->).
      apply Z.eqb_eq in Hd as <-. apply IH in H as (rest' & Hr & ->). cbn in Hr. subst rest.
      exists rest'. cbn. by rewrite <- app_assoc.
    + intros (rest & Ha & ->). exists (MState (c :: before s) (w ++ rest) (caps s)). split.
      * apply lang_char_inv. exists c, (w ++ rest). by rewrite Z.eqb_refl.
      * apply IH. exists rest. cbn. by rewrite <- app_assoc.
Qed.
Lemma lang_opt_char p s t :
  lang (ROpt (RChar p)) s t ↔
  ∃ w rest, after s = w ++ rest ∧ (length w ≤ 1)%nat ∧ forallb p w = true ∧
            t = MState (rev w ++ before s) rest (caps s).
Proof.
  rewrite <- lang_upto_char. cbn [RUpto]. unfold ROpt. split.
  - inversion 1; subst; [|by apply lang_alt_r]. apply lang_alt_l, lang_seq_inv. eexists. by split; [|constructor].
  - inversion 1 as [| | |? ? ? ? H1| | | | | | |]; subst; [|by apply lang_alt_r]. apply lang_alt_l.
    apply lang_seq_inv in H1 as (t1 & H1 & H2). by inversion H2; subst.
Qed.
Lemma lang_plus_char p s t :
  lang (RPlus (RChar p)) s t ↔
  ∃ w rest, after s = w ++ rest ∧ w ≠ [] ∧ forallb p w = true ∧ t = MState (rev w ++ before s) rest (caps s).
Proof.
  unfold RPlus. rewrite lang_seq_inv. split.
  - intros (t1 & H1 & H2). apply lang_char_inv in H1 as (c & rest & Ha & Hp & ->).
    apply lang_star_char in H2 as (w & rest' & Hw & Hf & ->). cbn in *. subst rest.
    exists (c :: w), rest'. cbn. rewrite Hp, <- app_assoc. auto.
  - intros ([|c w] & rest & Ha & Hne & Hf & ->); [done|]. cbn in Hf. apply andb_true_iff in Hf as [Hp Hf].
    exists (MState (c :: before s) (w ++ rest) (caps s)). split.
    + apply lang_char_inv. by exists c, (w ++ rest).
    + apply lang_star_char. exists w, rest. cbn. by rewrite <- app_assoc.
Qed.

(** *** Where a search can find a match *)
Lemma search_skip r w fuel b rest :
  (length w ≤ fuel)%nat →
  (∀ w1 w2, w = w1 ++ w2 → w2 ≠ [] →
     rmatch r Some (MState (rev w1 ++ b) (w2 ++ rest) []) = None) →
  search_fuel fuel r (MState b (w ++ rest) []) =
  search_fuel (fuel - length w) r (MState (rev w ++ b) rest []).
Proof.
  revert fuel b. induction w as [|c w IH]; intros fuel b Hf Hn; cbn [length rev app].
  { by rewrite Nat.sub_0_r. }
  destruct fuel as [|fuel]; [cbn in Hf; lia|]. cbn [search_fuel after].
  pose proof (Hn [] (c :: w) eq_refl ltac:(done)) as H0. cbn [rev app] in H0. rewrite H0.
  cbn [Nat.sub]. rewrite IH.
  - by rewrite <- app_assoc.
  - cbn in Hf. lia.
  - intros w1 w2 -> Hw. specialize (Hn (c :: w1) w2 eq_refl Hw). cbn [rev] in Hn.
    by rewrite <- app_assoc in Hn.
Qed.

Lemma rmatch_head p r k s :
  match after s with c :: _ => p c = false | [] => True end →
  rmatch (RSeq (RChar p) r) k s = None.
Proof. cbn. unfold step_char. destruct (after s); [done|]. by intros ->. Qed.

(** A pattern that starts with a character the text does not contain *)
Lemma search_absent p r s : forallb (fun c => negb (p c)) s = true →
  search (RSeq (RChar p) r) s = None.
Proof.
  intros H. unfold search, search_from, start_of. cbn [after].
  rewrite <- (app_nil_r s) at 2. rewrite search_skip.
  - rewrite Nat.sub_diag. cbn [search_fuel]. by rewrite rmatch_head.
  - done.
  - intros w1 w2 -> Hw. apply rmatch_head. cbn [after]. destruct w2 as [|c w2]; [done|].
    rewrite forallb_app in H. cbn in H. boolean. done.
Qed.

Lemma subn_absent p r f s : forallb (fun c => negb (p c)) s = true →
  subn (RSeq (RChar p) r) f s = (s, 0%nat).
Proof.
  intros H. unfold subn, finditer. cbn [finditer_fuel].
  pose proof (search_absent p r s H) as E. unfold search in E. by rewrite E.
Qed.

(** A first character and at most [n] more *)
Lemma class_upto_text p q n s t :
  lang (RSeqs [RBol; RChar p; RUpto n (RChar q); REol]) (start_of s) t → after t = [] →
  forallb (fun c => p c || q c) s = true.
Proof.
  intros H Ht. apply lang_seq_inv in H as (s1 & H1 & H). inversion H1; subst.
  apply lang_seq_inv in H as (s2 & H2 & H). apply lang_char_inv in H2 as (c & rest & Ha & Hp & ->).
  apply lang_seq_inv in H as (s3 & H3 & H). apply lang_upto_char in H3 as (w & rest' & Hw & _ & Hq & ->).
  cbn [after start_of] in Ha, Hw. subst s rest. inversion H; subst. cbn [after] in Ht. subst rest'.
  cbn. rewrite app_nil_r, Hp. cbn.
  rewrite forallb_forall in *. intros x Hx. by rewrite Hq, orb_true_r.
Qed.

(** Between [lo] and [hi] characters of one class *)
Lemma class_range_text p lo hi s :
  fullmatch (RSeqs [RBol; RRange lo hi (RChar p); REol]) s = true → forallb p s = true.
Proof.
  intros (t & H & Ht)%fullmatch_lang. apply lang_seq_inv in H as (s1 & H1 & H). inversion H1; subst.
  apply lang_seq_inv in H as (s2 & H2 & H). apply lang_seq_inv in H2 as (s3 & H2 & H3).
  apply lang_repeat_char in H2 as (w1 & r1 & Ha & _ & Hp1 & ->).
  apply lang_upto_char in H3 as (w2 & r2 & Hb & _ & Hp2 & ->). cbn [after start_of] in Ha, Hb. subst s r1.
  inversion H; subst. cbn [after] in Ht. subst r2. by rewrite app_nil_r, forallb_app, Hp1, Hp2.
Qed.

End language.
