(* ===== verification/Sha256.v ===== *)
(** * Sha256: the hash function of [hashlib.sha256]

    FIPS 180-4 on 32-bit words: the configuration store and the file service
    compare contents by the hexadecimal digest computed here.  It models the
    standard library, so no source lines are mapped to it. *)
From S2P Require Import Prelude Errors Text.

Definition w32 (x : Z) : Z := Z.land x 4294967295.
Definition rotr (n x : Z) : Z := Z.lor (Z.shiftr x n) (w32 (Z.shiftl x (32 - n))).
Definition big_sigma0 (x : Z) : Z := Z.lxor (Z.lxor (rotr 2 x) (rotr 13 x)) (rotr 22 x).
Definition big_sigma1 (x : Z) : Z := Z.lxor (Z.lxor (rotr 6 x) (rotr 11 x)) (rotr 25 x).
Definition small_sigma0 (x : Z) : Z := Z.lxor (Z.lxor (rotr 7 x) (rotr 18 x)) (Z.shiftr x 3).
Definition small_sigma1 (x : Z) : Z := Z.lxor (Z.lxor (rotr 17 x) (rotr 19 x)) (Z.shiftr x 10).
Definition choose (x y z : Z) : Z := Z.lxor (Z.land x y) (Z.land (4294967295 - x) z).
Definition majority (x y z : Z) : Z := Z.lxor (Z.lxor (Z.land x y) (Z.land x z)) (Z.land y z).

Definition round_constants : list Z :=
  [1116352408; 1899447441; 3049323471; 3921009573; 961987163; 1508970993; 2453635748; 2870763221;
   3624381080; 310598401; 607225278; 1426881987; 1925078388; 2162078206; 2614888103; 3248222580;
   3835390401; 4022224774; 264347078; 604807628; 770255983; 1249150122; 1555081692; 1996064986;
   2554220882; 2821834349; 2952996808; 3210313671; 3336571891; 3584528711; 113926993; 338241895;
   666307205; 773529912; 1294757372; 1396182291; 1695183700; 1986661051; 2177026350; 2456956037;
   2730485921; 2820302411; 3259730800; 3345764771; 3516065817; 3600352804; 4094571909; 275423344;
   430227734; 506948616; 659060556; 883997877; 958139571; 1322822218; 1537002063; 1747873779;
   1955562222; 2024104815; 2227730452; 2361852424; 2428436474; 2756734187; 3204031479; 3329325298].
Definition initial_hash : list Z :=
  [1779033703; 3144134277; 1013904242; 2773480762; 1359893119; 2600822924; 528734635; 1541459225].

(** The message schedule, newest word first *)
Fixpoint schedule (n : nat) (rev_words : list Z) : list Z :=
  match n with
  | O => rev_words
  | S n =>
      let at_ i := nth i rev_words 0 in
      schedule n (w32 (small_sigma1 (at_ 1%nat) + at_ 6%nat + small_sigma0 (at_ 14%nat) + at_ 15%nat)
                  :: rev_words)
  end.

Definition sha_round (h : list Z) (kw : Z * Z) : list Z :=
  match h with
  | [a; b; c; d; e; f; g; x] =>
      let t1 := x + big_sigma1 e + choose e f g + kw.1 + kw.2 in
      let t2 := big_sigma0 a + majority a b c in
      [w32 (t1 + t2); a; b; c; w32 (d + t1); e; f; g]
  | _ => h
  end.
Definition compress (h : list Z) (block : list Z) : list Z :=
  let words := rev (schedule 48 (rev block)) in
  zip_with (fun a b => w32 (a + b)) h (fold_left sha_round (zip round_constants words) h).

(** The big-endian words of the bytes *)
Fixpoint words_of (b : bytes) : list Z :=
  match b with
  | x :: y :: z :: t :: b' => (((x * 256 + y) * 256 + z) * 256 + t) :: words_of b'
  | _ => []
  end.
Fixpoint be_bytes (n : nat) (x : Z) : bytes :=
  match n with O => [] | S n => be_bytes n (x / 256) ++ [x mod 256] end.
Definition sha_pad (b : bytes) : bytes :=
  b ++ [128] ++ replicate (Z.to_nat ((55 - len b) mod 64)) 0 ++ be_bytes 8 (8 * len b).
Fixpoint compress_all (fuel : nat) (h : list Z) (ws : list Z) : list Z :=
  match fuel, ws with
  | S fuel, _ :: _ => compress_all fuel (compress h (take 16 ws)) (drop 16 ws)
  | _, _ => h
  end.
(** [hashlib.sha256(b).hexdigest()] *)
Definition sha256_hex (b : bytes) : str :=
  let ws := words_of (sha_pad b) in
  concat (map (hex_fixed 8) (compress_all (length ws) initial_hash ws)).

(** [hashlib.sha256(b).digest()], and [hmac.digest(key, message, "sha256").hex()] *)
Definition sha256 (b : bytes) : bytes :=
  let ws := words_of (sha_pad b) in
  concat (map (be_bytes 4) (compress_all (length ws) initial_hash ws)).
Definition hmac_block (key : bytes) : bytes :=
  let k := if 64 <? len key then sha256 key else key in k ++ replicate (64 - length k) 0.
Definition hmac_hex (key message : bytes) : str :=
  let k := hmac_block key in
  sha256_hex (map (fun b => Z.lxor b 92) k ++ sha256 (map (fun b => Z.lxor b 54) k ++ message)).

Example sha256_abc :
  sha256_hex (u "abc") = u "ba7816bf8f01cfea414140de5dae2223b00361a396177a9cb410ff61f20015ad".
Proof. vm_compute. reflexivity. Qed.
Example sha256_two_blocks :
  sha256_hex (u "abcdbcdecdefdefgefghfghighijhijkijkljklmklmnlmnomnopnopq") =
  u "248d6a61d20638b8e5c026930c3e6039a33ce45964ff2167f6ecedd419db06c1".
Proof. vm_compute. reflexivity. Qed.
(** RFC 4231, test case 2 *)
Example hmac_jefe :
  hmac_hex (u "Jefe") (u "what do ya want for nothing?") =
  u "5bdcc146bf60754e6a042426089575c75a003f089d2739839dec58b964ec3843".
Proof. vm_compute. reflexivity. Qed.

(** A digest prints as 64 hexadecimal digits. *)
Definition hex_char (c : Z) : bool := ((48 <=? c) && (c <=? 57)) || ((97 <=? c) && (c <=? 102)).
Lemma hex_digit_char n : hex_char (hex_digit (n mod 16)) = true.
Proof.
  pose proof (Z.mod_pos_bound n 16 ltac:(lia)). unfold hex_char, hex_digit.
  destruct (Z.ltb_spec (n mod 16) 10).
  - rewrite (proj2 (Z.leb_le 48 _)), (proj2 (Z.leb_le _ 57)) by lia. done.
  - rewrite (proj2 (Z.leb_le 97 _)), (proj2 (Z.leb_le _ 102)) by lia. by rewrite orb_true_r.
Qed.
Lemma hex_fixed_shape w n : length (hex_fixed w n) = w ∧ forallb hex_char (hex_fixed w n) = true.
Proof.
  revert n. induction w as [|w IH]; intros n; [done|]. cbn [hex_fixed]. destruct (IH (n / 16)) as [Hl Hf].
  rewrite length_app, forallb_app, Hl, Hf. cbn [length forallb]. rewrite hex_digit_char. split; [lia|done].
Qed.
Lemma sha_rounds_length kws : ∀ h, length h = 8%nat → length (fold_left sha_round kws h) = 8%nat.
Proof.
  induction kws as [|kw kws IH]; intros h Hh; [done|]. cbn [fold_left]. apply IH.
  do 8 (destruct h as [|? h]; [done|]). by destruct h.
Qed.
Lemma compress_all_length fuel : ∀ h ws, length h = 8%nat → length (compress_all fuel h ws) = 8%nat.
Proof.
  induction fuel as [|fuel IH]; intros h ws Hh; [done|]. cbn [compress_all]. destruct ws as [|w ws]; [done|].
  apply IH. unfold compress. rewrite length_zip_with, sha_rounds_length by done. rewrite Hh. reflexivity.
Qed.
Lemma sha256_hex_shape b : length (sha256_hex b) = 64%nat ∧ forallb hex_char (sha256_hex b) = true.
Proof.
  unfold sha256_hex. pose proof (compress_all_length (length (words_of (sha_pad b))) initial_hash
    (words_of (sha_pad b)) eq_refl) as H. revert H.
  generalize (compress_all (length (words_of (sha_pad b))) initial_hash (words_of (sha_pad b))) as l. intros l Hl.
  assert (∀ l : list Z, length (concat (map (hex_fixed 8) l)) = (8 * length l)%nat ∧
                        forallb hex_char (concat (map (hex_fixed 8) l)) = true) as Hc.
  { clear. induction l as [|x l [IH1 IH2]]; [done|]. cbn [map concat]. destruct (hex_fixed_shape 8 x) as [H1 H2].
    rewrite length_app, forallb_app, H1, H2, IH1, IH2. cbn [length]. split; [lia|done]. }
  destruct (Hc l) as [H1 H2]. rewrite H1, Hl. done.
Qed.
