(* ===== verification/Value.v ===== *)
(** * Value: the dynamic values that cross the program's boundaries

    Payloads of IPC messages, parsed configuration documents and tool results
    are Python objects built from the JSON types (TOML adds dates and times,
    which the program only ever rejects).  The tests the code makes on them
    ([isinstance], membership, equality with a literal) are written here once;
    they model the language, so no source lines are mapped to them. *)
From S2P Require Import Prelude Errors Text TextFacts.

(** ** Floats *)
Inductive pyfloat : Type :=
  | Finite (q : Q)
  | Infinite (negative : bool)
  | NaN.

(** [a <= b], false as soon as one side is not a number *)
Definition fle (a b : pyfloat) : bool :=
  match a, b with
  | NaN, _ | _, NaN => false
  | Infinite true, _ | _, Infinite false => true
  | Infinite false, _ | _, Infinite true => false
  | Finite p, Finite q => qle p q
  end.

(** ** Values *)
Inductive value : Type :=
  | VNone
  | VBool (b : bool)
  | VInt (n : Z)
  | VFloat (f : pyfloat)
  | VStr (s : str)
  | VList (l : list value)
  | VDict (d : list (str * value))
  | VOther (type_name : str).

Section value_ind.
Context (P : value → Prop).
Hypothesis (HNone : P VNone) (HBool : ∀ b, P (VBool b)) (HInt : ∀ n, P (VInt n))
  (HFloat : ∀ f, P (VFloat f)) (HStr : ∀ s, P (VStr s))
  (HList : ∀ l, Forall P l → P (VList l))
  (HDict : ∀ d, Forall (fun kv => P kv.2) d → P (VDict d))
  (HOther : ∀ t, P (VOther t)).
(** Induction that reaches the values inside lists and dictionaries *)
Fixpoint value_ind' (v : value) : P v :=
  match v with
  | VNone => HNone
  | VBool b => HBool b
  | VInt n => HInt n
  | VFloat f => HFloat f
  | VStr s => HStr s
  | VList l =>
      HList l ((fix go l : Forall P l :=
                  match l with
                  | [] => Forall_nil_2 _
                  | v :: l => Forall_cons_2 _ _ _ (value_ind' v) (go l)
                  end) l)
  | VDict d =>
      HDict d ((fix go d : Forall (fun kv => P kv.2) d :=
                  match d with
                  | [] => Forall_nil_2 _
                  | kv :: d => Forall_cons_2 _ kv d (value_ind' kv.2) (go d)
                  end) d)
  | VOther t => HOther t
  end.
End value_ind.

(** ** [isinstance] and friends *)
Definition is_str (v : value) : bool := match v with VStr _ => true | _ => false end.
Definition is_bool (v : value) : bool := match v with VBool _ => true | _ => false end.
(** [bool] is a subclass of [int]. *)
Definition is_int (v : value) : bool := match v with VInt _ | VBool _ => true | _ => false end.
Definition is_float (v : value) : bool := match v with VFloat _ => true | _ => false end.
Definition is_dict (v : value) : bool := match v with VDict _ => true | _ => false end.
Definition is_list (v : value) : bool := match v with VList _ => true | _ => false end.
Definition is_none (v : value) : bool := match v with VNone => true | _ => false end.
(** [not isinstance(v, bool) and isinstance(v, int)] *)
Definition is_plain_int (v : value) : bool := match v with VInt _ => true | _ => false end.
Definition as_str (v : value) : option str := match v with VStr s => Some s | _ => None end.
Definition as_int (v : value) : option Z :=
  match v with VInt n => Some n | VBool b => Some (Z.b2z b) | _ => None end.

(** Truth value testing *)
Definition truthy (v : value) : bool :=
  match v with
  | VNone => false
  | VBool b => b
  | VInt n => negb (n =? 0)
  | VFloat (Finite q) => negb (QArith_base.Qnum q =? 0)
  | VFloat _ => true
  | VStr s => negb (str_eqb s [])
  | VList l => match l with [] => false | _ => true end
  | VDict d => match d with [] => false | _ => true end
  | VOther _ => true
  end.

(** [d.get(k)] and [d.get(k, default)] *)
Definition get_or (default : value) (d : dict value) (k : str) : value :=
  match dget d k with Some v => v | None => default end.
Definition vget (d : dict value) (k : str) : value := get_or VNone d k.
(** [d[k]] *)
Definition getitem (d : dict value) (k : str) : res value :=
  match dget d k with Some v => Ok v | None => Err (Builtin KeyError k) end.

(** [v == "literal"] and [v in {literals}]: a list or a dictionary is not
    hashable, and asking whether it is in a set is an error. *)
Definition eq_str (v : value) (s : str) : bool :=
  match v with VStr t => str_eqb t s | _ => false end.
Definition unhashable (v : value) : bool := is_list v || is_dict v.
Definition in_set (v : value) (l : list str) : res bool :=
  if unhashable v then Err (Builtin TypeError (u "unhashable type"))
  else Ok (existsb (eq_str v) l).

(** [v == n] for an integer literal; a float or a truth value can be equal. *)
Definition eq_int (v : value) (n : Z) : bool :=
  match v with
  | VInt m => m =? n
  | VBool b => Z.b2z b =? n
  | VFloat (Finite q) => QArith_base.Qnum q =? n * Zpos (QArith_base.Qden q)
  | _ => false
  end.

(** A number as a float: [float(v)] of an [int] or a [float] *)
Definition to_float (v : value) : pyfloat :=
  match v with
  | VInt n => Finite (qz n)
  | VBool b => Finite (qz (Z.b2z b))
  | VFloat f => f
  | _ => NaN
  end.

(** [set(payload)] against the fields an operation expects:
    [required.issubset(fields) and fields.issubset(required | optional)] *)
Definition fields_match (payload : dict value) (required optional : list str) : bool :=
  subset_of required (dkeys payload) && subset_of (dkeys payload) (required ++ optional).

Lemma fields_match_required payload required optional k :
  fields_match payload required optional = true → k ∈ required → ∃ v, dget payload k = Some v.
Proof.
  unfold fields_match, subset_of. intros [H _]%andb_true_iff Hk.
  rewrite forallb_forall in H. apply list_elem_of_In in Hk. specialize (H k Hk).
  apply bool_decide_eq_true in H. destruct (dget payload k) as [v|] eqn:E; [eauto|].
  by apply dget_None in E.
Qed.

Lemma fields_match_allowed payload required optional k v :
  fields_match payload required optional = true → dget payload k = Some v → k ∈ required ++ optional.
Proof.
  unfold fields_match, subset_of. intros [_ H]%andb_true_iff Hk.
  rewrite forallb_forall in H. apply dget_Some_key, list_elem_of_In in Hk.
  specialize (H k Hk). by apply bool_decide_eq_true in H.
Qed.

(** [float(v)] of a number: an integer beyond the largest float is an error. *)
Definition float_limit : Z := 2 ^ 1024 - 2 ^ 970.
Definition float_of (v : value) : res pyfloat :=
  match as_int v with
  | Some n => if float_limit <=? Z.abs n then Err (Builtin OverflowError (u "int too large to convert to float"))
              else Ok (Finite (qz n))
  | None => Ok (to_float v)
  end.
(** [isinstance(v, int | float) and not isinstance(v, bool)] *)
Definition is_number (v : value) : bool := is_plain_int v || is_float v.
(** [if not lo <= float(v) <= hi: raise e] leaves a finite number. *)
Definition number_between (lo hi : Q) (v : value) (e : exn) : res Q :=
  f ← float_of v;
  match f with
  | Finite q => if qle lo q && qle q hi then Ok q else Err e
  | _ => Err e
  end.
Lemma number_between_ok lo hi v e q : number_between lo hi v e = Ok q → qle lo q = true ∧ qle q hi = true.
Proof.
  unfold number_between. destruct (float_of v) as [[p|s|]|]; cbn; try done.
  destruct (qle lo p && qle p hi) eqn:H; [|done]. intros [= <-]. by apply andb_true_iff in H.
Qed.
