(* ===== verification/Prog.v ===== *)
(** * Prog: reasoning about programs, and a scripted outside world

    Triples for the [prog] monad with a condition for each of the three ways
    an operation ends, and [io], the state of a component together with the
    script of answers its environment gives and the trace of what it was
    asked.  A component whose calls leave the program states them as a type of
    calls and reasons with the rules here; running out of answers is [Hang],
    which stands for waiting forever and for being killed at that point. *)
From S2P Require Import Prelude Errors.

(** ** Triples *)
Section triples.
Context {E S : Type}.
Implicit Types (P I : S → Prop).

(** From [P], [m] returns into [Q], raises into [R], or stops in [I]. *)
Definition triple {A} (I P : S → Prop) (m : prog E S A) (Q : A → S → Prop) (R : E → S → Prop) : Prop :=
  ∀ s, P s → match m s with
             | (Ret a, s') => Q a s'
             | (Raise e, s') => R e s'
             | (Hang, s') => I s'
             end.
(** Every end of [m] is in [P] when its start is. *)
Definition keeps {A} P (m : prog E S A) : Prop := triple P P m (fun _ => P) (fun _ => P).

Context {A B : Type}.
Lemma triple_ret I P (a : A) Q R : (∀ s, P s → Q a s) → triple I P (mret a) Q R.
Proof. intros H s Hs. by apply H. Qed.
Lemma triple_raise I P e (Q : A → S → Prop) R : (∀ s, P s → R e s) → triple I P (raise e) Q R.
Proof. intros H s Hs. by apply H. Qed.
Lemma triple_bind I P m (f : A → prog E S B) Q Q' R :
  triple I P m Q R → (∀ a, triple I (Q a) (f a) Q' R) → triple I P (m ≫= f) Q' R.
Proof.
  intros Hm Hf s Hs. specialize (Hm s Hs). unfold mbind, prog_mbind, prog_bind.
  destruct (m s) as [[a|e|] s']; [by apply Hf|done|done].
Qed.
Lemma triple_conseq I I' P P' (m : prog E S A) Q Q' (R R' : E → S → Prop) :
  triple I' P' m Q' R' → (∀ s, P s → P' s) → (∀ a s, Q' a s → Q a s) → (∀ e s, R' e s → R e s) →
  (∀ s, I' s → I s) → triple I P m Q R.
Proof. intros Hm HP HQ HR HI s Hs. specialize (Hm s (HP s Hs)). destruct (m s) as [[a|e|] s']; auto. Qed.
Lemma triple_before I P P' (m : prog E S A) Q R :
  triple I P' m Q R → (∀ s, P s → P' s) → triple I P m Q R.
Proof. intros Hm HP s Hs. by apply Hm, HP. Qed.
Lemma triple_raising I P (m : prog E S A) Q (R R' : E → S → Prop) :
  triple I P m Q R' → (∀ e s, R' e s → R e s) → triple I P m Q R.
Proof. intros Hm HR s Hs. specialize (Hm s Hs). destruct (m s) as [[a|e|] s']; auto. Qed.
Lemma triple_try I P (m : prog E S A) h Q R R' :
  triple I P m Q R → (∀ e, triple I (R e) (h e) Q R') → triple I P (try_except m h) Q R'.
Proof.
  intros Hm Hh s Hs. specialize (Hm s Hs). unfold try_except.
  destruct (m s) as [[a|e|] s']; [done|by apply Hh|done].
Qed.
(** The clean-up keeps what either exit established. *)
Lemma triple_finally I P (m : prog E S A) f Q R :
  triple I P m Q R →
  (∀ a, triple I (Q a) f (fun _ => Q a) R) → (∀ e, triple I (R e) f (fun _ => R e) R) →
  triple I P (try_finally m f) Q R.
Proof.
  intros Hm Hq Hr s Hs. specialize (Hm s Hs). unfold try_finally.
  destruct (m s) as [[a|e|] s']; [| |done].
  - specialize (Hq a s' Hm). destruct (f s') as [[[]|e|] s'']; done.
  - specialize (Hr e s' Hm). destruct (f s') as [[[]|e'|] s'']; done.
Qed.
(** The clean-up moves on from what either exit established. *)
Lemma triple_cleanup I P (m : prog E S A) f Q Q' R R' :
  triple I P m Q R →
  (∀ a, triple I (Q a) f (fun _ => Q' a) R') → (∀ e, triple I (R e) f (fun _ => R' e) R') →
  triple I P (try_finally m f) Q' R'.
Proof.
  intros Hm Hq Hr s Hs. specialize (Hm s Hs). unfold try_finally.
  destruct (m s) as [[a|e|] s']; [| |done].
  - specialize (Hq a s' Hm). destruct (f s') as [[[]|e|] s'']; done.
  - specialize (Hr e s' Hm). destruct (f s') as [[[]|e'|] s'']; done.
Qed.
Lemma triple_get I P (f : S → prog E S B) Q R :
  (∀ x, P x → triple I (fun s => s = x) (f x) Q R) → triple I P (get ≫= f) Q R.
Proof. intros H s Hs. by apply (H s Hs s). Qed.
Lemma triple_modify I P f (Q : unit → S → Prop) R : (∀ s, P s → Q tt (f s)) → triple I P (modify f) Q R.
Proof. intros H s Hs. by apply H. Qed.
Lemma triple_lift I P (r : result E A) Q R :
  (∀ a s, r = Ok a → P s → Q a s) → (∀ e s, r = Err e → P s → R e s) → triple I P (lift r) Q R.
Proof. intros H1 H2 s Hs. unfold lift. destruct r; auto. Qed.
Lemma triple_pure (φ : Prop) I P (m : prog E S A) Q R :
  (φ → triple I P m Q R) → triple I (fun s => φ ∧ P s) m Q R.
Proof. intros H s [Hf Hs]. by apply H. Qed.
Lemma triple_lift_at I P (r : result E A) (f : A → prog E S B) Q R :
  (∀ a, r = Ok a → triple I P (f a) Q R) → (∀ e s, P s → R e s) → triple I P (lift r ≫= f) Q R.
Proof. intros Hf Hr s Hs. destruct r as [a|e]; [by apply Hf|by apply (Hr e s)]. Qed.
Lemma triple_exists {X} I (P : X → S → Prop) (m : prog E S A) Q R :
  (∀ x, triple I (P x) m Q R) → triple I (fun s => ∃ x, P x s) m Q R.
Proof. intros H s [x Hs]. by apply (H x). Qed.
End triples.

(** ** Keeping a property of the state
    [m] keeps [P] however it ends, and what it returns satisfies [Q]. *)
Definition spec {E S A : Type} (P : S → Prop) (m : prog E S A) (Q : A → Prop) : Prop :=
  triple P P m (fun a s => Q a ∧ P s) (fun _ => P).
Definition anything {A : Type} : A → Prop := fun _ => True.

Section specs.
Context {E S A B : Type} {P : S → Prop}.
Lemma spec_ret (a : A) Q : Q a → spec (E := E) P (mret a) Q.
Proof. intros H. by apply triple_ret. Qed.
Lemma spec_raise (e : E) (Q : A → Prop) : spec P (raise e) Q.
Proof. by apply triple_raise. Qed.
Lemma spec_hang (Q : A → Prop) : spec (E := E) P hang Q.
Proof. intros s Hs. exact Hs. Qed.
Lemma spec_lift (r : result E A) : spec P (lift r) (fun a => r = Ok a).
Proof. apply triple_lift; [done|]. by intros e s _ Hs. Qed.
Lemma spec_gets (f : S → A) : spec (E := E) P (gets f) (fun a => ∃ s, P s ∧ a = f s).
Proof. intros s Hs. split; [eauto|done]. Qed.
Lemma spec_modify f : (∀ s, P s → P (f s)) → spec (E := E) P (modify f) anything.
Proof. intros H s Hs. split; [done|by apply H]. Qed.
Lemma spec_bind (m : prog E S A) (f : A → prog E S B) Q Q' :
  spec P m Q → (∀ a, Q a → spec P (f a) Q') → spec P (m ≫= f) Q'.
Proof.
  intros Hm Hf. eapply triple_bind; [apply Hm|]. intros a. apply triple_pure. intros Ha. by apply Hf.
Qed.
Lemma spec_conseq (m : prog E S A) Q Q' : spec P m Q → (∀ a, Q a → Q' a) → spec P m Q'.
Proof. intros Hm HQ. eapply triple_conseq; [apply Hm|..]; cbn; naive_solver. Qed.
Lemma spec_anything (m : prog E S A) Q : spec P m Q → spec P m anything.
Proof. intros H. by eapply spec_conseq. Qed.
Lemma spec_try (m : prog E S A) h Q :
  spec P m Q → (∀ e, spec P (h e) Q) → spec P (try_except m h) Q.
Proof. intros Hm Hh. eapply triple_try; [apply Hm|]. intros e. apply Hh. Qed.
Lemma spec_finally (m : prog E S A) f Q :
  spec P m Q → spec P f anything → spec P (try_finally m f) Q.
Proof.
  intros Hm Hf. eapply triple_finally; [apply Hm| |].
  - intros a. apply triple_pure. intros Ha. eapply triple_conseq; [apply Hf|..]; cbn; naive_solver.
  - intros e. eapply triple_conseq; [apply Hf|..]; cbn; naive_solver.
Qed.
End specs.
(** The condition a lifted guard leaves behind *)
Lemma spec_when {S A : Type} {P : S → Prop} (b : bool) (e : exn) (m : prog exn S A) Q :
  (b = false → spec P m Q) → spec P (lift (raise_if b e);; m) Q.
Proof. intros H s Hs. destruct b; [exact Hs|]. by apply H. Qed.

(** Follow a straight-line program: the condition on a call is left to the
    caller, the facts a lifted result gives are introduced. *)
Ltac spec_step :=
  match goal with
  | |- spec _ (lift (raise_if _ _);; _) _ => apply spec_when; intros ?
  | |- spec _ (lift ?r ≫= _) _ => eapply spec_bind; [apply spec_lift | cbv beta; intros ? ?]
  | |- spec _ (mret _) _ => apply spec_ret
  | |- spec _ (raise _) _ => apply spec_raise
  | |- spec _ hang _ => apply spec_hang
  | |- spec _ (if ?b then _ else _) _ => destruct b eqn:?
  end.

(** ** A component and its environment *)
Section scripted.
Context {State Call Reply : Type}.

Record io := Io { st : State; script : list (res Reply); trace : list Call }.

(** One call: it is traced, and the next answer of the script is its result. *)
Definition ask (c : Call) : prog exn io Reply := fun s =>
  match script s with
  | [] => (Hang, Io (st s) [] (trace s ++ [c]))
  | Ok a :: rest => (Ret a, Io (st s) rest (trace s ++ [c]))
  | Err e :: rest => (Raise e, Io (st s) rest (trace s ++ [c]))
  end.
Definition state : prog exn io State := gets st.
Definition update (f : State → State) : prog exn io unit :=
  modify (fun s => Io (f (st s)) (script s) (trace s)).

(** Calls change the trace only. *)
Lemma triple_ask (P : io → Prop) c (R : exn → io → Prop) :
  (∀ s r, P s → P (Io (st s) r (trace s ++ [c]))) → (∀ e s, P s → R e s) →
  triple P P (ask c) (fun _ => P) R.
Proof.
  intros HP HR s Hs. unfold ask. destruct (script s) as [|[a|e] rest]; [by apply HP|by apply HP|].
  apply HR. by apply HP.
Qed.

Lemma triple_state {B} I P (f : State → prog exn io B) Q R :
  (∀ d, triple I (fun s => P s ∧ st s = d) (f d) Q R) → triple I P (state ≫= f) Q R.
Proof. intros H s Hs. by apply (H (st s) s). Qed.

(** ** What a program asks its environment
    Since the environment was at [tr]: every call satisfies [φ], and every
    answer still to come is one of [scr]. *)
Definition calls_in (tr : list Call) (scr : list (res Reply)) (φ : Call → Prop) (s : io) : Prop :=
  ∃ new, trace s = tr ++ new ∧ Forall φ new ∧ ∀ x, x ∈ script s → x ∈ scr.

Lemma calls_in_start s φ : calls_in (trace s) (script s) φ s.
Proof. exists []. by rewrite app_nil_r. Qed.
Lemma calls_in_next tr scr (φ : Call → Prop) c st0 rest s :
  calls_in tr scr φ s → φ c → (∀ x, x ∈ rest → x ∈ scr) →
  calls_in tr scr φ (Io st0 rest (trace s ++ [c])).
Proof.
  intros (new & Ht & Hn & Hs) Hc Hr. exists (new ++ [c]). cbn. rewrite Ht, app_assoc. split; [done|].
  split; [|done]. apply Forall_app. auto.
Qed.
Lemma spec_ask tr scr (φ : Call → Prop) c :
  φ c → spec (calls_in tr scr φ) (ask c) (fun a => Ok a ∈ scr).
Proof.
  intros Hc s Hs. pose proof Hs as (_ & _ & _ & Hsub). unfold ask.
  destruct (script s) as [|[a|e] rest] eqn:E; [|split; [apply Hsub; by left|]|];
    (apply calls_in_next; [done..|]); intros x Hx; try (apply Hsub; by right). by apply elem_of_nil in Hx.
Qed.
(** The judgement, read on one run *)
Lemma spec_calls {A} (φ : Call → Prop) (m : prog exn io A) Q s :
  spec (calls_in (trace s) (script s) φ) m Q →
  ∃ new, trace (m s).2 = trace s ++ new ∧ Forall φ new ∧ ∀ a, (m s).1 = Ret a → Q a.
Proof.
  intros H. specialize (H s (calls_in_start s φ)). unfold calls_in in H.
  destruct (m s) as [[a|e|] s']; cbn in *; [destruct H as (Ha & new & H1 & H2 & _) | ..];
    try destruct H as (new & H1 & H2 & _); exists new; naive_solver.
Qed.

(** ** Loop bounds
    A program never makes answers.  Two programs agree with [k] answers left:
    a loop over the environment agrees with itself under any larger bound. *)
Definition within (k : nat) (s : io) : Prop := (length (script s) <= k)%nat.
Lemma spec_ask_within k c : spec (within k) (ask c) anything.
Proof.
  intros s Hs. unfold ask, within in *. destruct (script s) as [|[a|e] rest]; cbn in *; [lia|split; [done|]; cbn; lia|lia].
Qed.
Definition agree {A} (k : nat) (m m' : prog exn io A) : Prop := ∀ s, within k s → m s = m' s.
Lemma agree_refl {A} k (m : prog exn io A) : agree k m m.
Proof. done. Qed.
Lemma agree_bind {A B} k m m' (f g : A → prog exn io B) :
  agree k m m' → spec (within k) m anything → (∀ a, agree k (f a) (g a)) → agree k (m ≫= f) (m' ≫= g).
Proof.
  intros Hm Hs Hf s Hk. specialize (Hs s Hk). unfold mbind, prog_mbind, prog_bind. rewrite <- (Hm s Hk).
  destruct (m s) as [[a|e|] s']; [|done..]. by apply Hf, Hs.
Qed.
(** A step that consumed an answer *)
Definition fewer (k : nat) (s : io) : Prop := (length (script s) < k)%nat.
Lemma triple_ask_fewer k c :
  triple (fun _ => True) (within k) (ask c) (fun _ => fewer k) (fun _ => fewer k).
Proof.
  intros s Hs. unfold ask, within, fewer in *. destruct (script s) as [|[a|e] rest]; cbn in *; [done|lia..].
Qed.
Lemma agree_consumed {A B} k (m : prog exn io A) (f g : A → prog exn io B) R :
  triple (fun _ => True) (within k) m (fun _ => fewer k) R →
  (∀ a k', (k' < k)%nat → agree k' (f a) (g a)) → agree k (m ≫= f) (m ≫= g).
Proof.
  intros Hm Hf s Hk. specialize (Hm s Hk). unfold mbind, prog_mbind, prog_bind.
  destruct (m s) as [[a|e|] s']; [|done..]. apply (Hf a _ Hm). by red.
Qed.
Lemma agree_try {A} k m m' (h : exn → prog exn io A) : agree k m m' → agree k (try_except m h) (try_except m' h).
Proof. intros Hm s Hk. unfold try_except. by rewrite (Hm s Hk). Qed.
Lemma agree_finally {A} k (m m' : prog exn io A) f : agree k m m' → agree k (try_finally m f) (try_finally m' f).
Proof. intros Hm s Hk. unfold try_finally. by rewrite (Hm s Hk). Qed.

(** ** The order of calls
    A monitor allows a call or not, and moves with its answer. *)
Section monitored.
Context {Phase : Type} (allowed : Phase → Call → Prop) (after : Phase → Call → res Reply → Phase).
(** The phase after the calls [cs], answered in turn by [answers]; the last call
    may be waiting for its answer. *)
Inductive conversation : Phase → list Call → list (res Reply) → Phase → Prop :=
  | conv_start ph answers : conversation ph [] answers ph
  | conv_call ph c cs a answers ph' :
      allowed ph c → conversation (after ph c a) cs answers ph' → conversation ph (c :: cs) (a :: answers) ph'
  | conv_waiting ph c : allowed ph c → conversation ph [c] [] ph.
Lemma conversation_call ph cs answers ph' c a rest :
  conversation ph cs answers ph' → allowed ph' c → drop (length cs) answers = a :: rest →
  conversation ph (cs ++ [c]) answers (after ph' c a) ∧ drop (length (cs ++ [c])) answers = rest.
Proof.
  intros H Hc. induction H as [ph answers|ph c0 cs a0 answers ph' H0 H IH|ph c0 H0]; cbn [app length].
  - rewrite drop_0. intros ->. split; [by repeat constructor|done].
  - rewrite !skipn_cons. intros Hd. destruct (IH Hc Hd) as [H1 H2]. split; [by constructor|done].
  - done.
Qed.
Lemma conversation_wait ph cs answers ph' c :
  conversation ph cs answers ph' → allowed ph' c → (length cs < length answers)%nat ∨ length cs = length answers →
  drop (length cs) answers = [] → conversation ph (cs ++ [c]) answers ph'.
Proof.
  intros H Hc. induction H as [ph answers|ph c0 cs a0 answers ph' H0 H IH|ph c0 H0]; cbn [app length].
  - rewrite drop_0. intros _ ->. by constructor.
  - rewrite skipn_cons. intros Hl Hd. constructor; [done|]. apply IH; [done|lia|done].
  - intros [H1|H1] _; lia.
Qed.
(** Since the environment was at [tr] with the answers [scr]: the calls obey the
    monitor, which is now in phase [ph]. *)
Definition at_phase (tr : list Call) (scr : list (res Reply)) (start ph : Phase) (s : io) : Prop :=
  ∃ cs, trace s = tr ++ cs ∧ script s = drop (length cs) scr ∧ conversation start cs scr ph ∧
        (length cs <= length scr)%nat.
(** The calls obey it, however far they got. *)
Definition obeyed (tr : list Call) (scr : list (res Reply)) (start : Phase) (s : io) : Prop :=
  ∃ cs ph, trace s = tr ++ cs ∧ conversation start cs scr ph.
Lemma at_phase_start s start : at_phase (trace s) (script s) start start s.
Proof. exists []. rewrite app_nil_r. repeat split; [constructor|cbn; lia]. Qed.
Lemma at_phase_obeyed tr scr start ph s : at_phase tr scr start ph s → obeyed tr scr start s.
Proof. intros (cs & Ht & _ & Hc & _). by exists cs, ph. Qed.
Lemma triple_monitored tr scr start ph c (Q : Reply → io → Prop) (R : exn → io → Prop) :
  allowed ph c →
  (∀ a s, at_phase tr scr start (after ph c (Ok a)) s → Q a s) →
  (∀ e s, at_phase tr scr start (after ph c (Err e)) s → R e s) →
  triple (obeyed tr scr start) (at_phase tr scr start ph) (ask c) Q R.
Proof.
  intros Hc HQ HR s (cs & Ht & Hs & Hm & Hl). unfold ask. destruct (script s) as [|a rest] eqn:E.
  - exists (cs ++ [c]), ph. cbn [trace]. rewrite Ht, app_assoc. split; [done|]. symmetry in Hs.
    apply conversation_wait; [done..|lia|done].
  - symmetry in Hs. destruct (conversation_call _ _ _ _ _ _ _ Hm Hc Hs) as [H1 H2].
    assert (length cs < length scr)%nat as Hlt
      by (destruct (Nat.ltb_spec (length cs) (length scr)) as [|Hge]; [done|by rewrite drop_ge in Hs by lia]).
    assert (at_phase tr scr start (after ph c a) (Io (st s) rest (trace s ++ [c]))) as Hp.
    { exists (cs ++ [c]). cbn [trace script]. rewrite Ht, app_assoc, H2. repeat split; [done|].
      rewrite length_app. cbn. lia. }
    destruct a; [by apply HQ|by apply HR].
Qed.
(** Calls leave the state alone: what held of it still does. *)
Lemma triple_asked (φ : State → Prop) tr scr start ph c (Q : Reply → io → Prop) (R : exn → io → Prop) :
  allowed ph c →
  (∀ a s, at_phase tr scr start (after ph c (Ok a)) s ∧ φ (st s) → Q a s) →
  (∀ e s, at_phase tr scr start (after ph c (Err e)) s ∧ φ (st s) → R e s) →
  triple (obeyed tr scr start) (fun s => at_phase tr scr start ph s ∧ φ (st s)) (ask c) Q R.
Proof.
  intros Hc HQ HR s [Hs Hx].
  pose proof (triple_monitored tr scr start ph c (fun a => at_phase tr scr start (after ph c (Ok a)))
    (fun e => at_phase tr scr start (after ph c (Err e))) Hc ltac:(done) ltac:(done) s Hs) as H.
  assert (st (ask c s).2 = st s) as Hst by (unfold ask; by destruct (script s) as [|[]]).
  destruct (ask c s) as [[a|e|] s']; cbn [snd] in *; [apply HQ|apply HR|exact H]; (split; [exact H|]); by rewrite Hst.
Qed.
(** The phase together with what it says of the component's state: calls
    leave the state alone. *)
Definition tracked (rel : Phase → State → Prop) (tr : list Call) (scr : list (res Reply)) (start ph : Phase) (s : io) : Prop :=
  at_phase tr scr start ph s ∧ rel ph (st s).
Lemma triple_tracked rel tr scr start ph c (Q : Reply → io → Prop) (R : exn → io → Prop) :
  allowed ph c → (∀ a x, rel ph x → rel (after ph c a) x) →
  (∀ a s, tracked rel tr scr start (after ph c (Ok a)) s → Q a s) →
  (∀ e s, tracked rel tr scr start (after ph c (Err e)) s → R e s) →
  triple (obeyed tr scr start) (tracked rel tr scr start ph) (ask c) Q R.
Proof.
  intros Hc Hrel HQ HR. apply triple_asked; [done|..]; intros ? s [Hs Hx]; [apply HQ|apply HR]; (split; [done|by apply Hrel]).
Qed.
Lemma tracked_obeyed rel tr scr start ph s : tracked rel tr scr start ph s → obeyed tr scr start s.
Proof. intros [H _]. by eapply at_phase_obeyed. Qed.
(** Programs that make no calls stay in the phase. *)
Lemma at_phase_st tr scr start ph s (f : State → State) :
  at_phase tr scr start ph s → at_phase tr scr start ph (Io (f (st s)) (script s) (trace s)).
Proof. intros H. exact H. Qed.
End monitored.
End scripted.
Arguments io : clear implicits.
Arguments Io {State Call Reply}.

