(* ===== verification/Json.v ===== *)
(** * Json: the text form of values

    [json.dumps] with compact separators and without ASCII escaping, and
    [json.loads] as a recursive-descent reader that hands every object's
    members to a hook, as [object_pairs_hook] does.  Floating-point numerals
    are delegated to the interpreter.  These are standard-library functions,
    so no source lines are mapped to them. *)
From S2P Require Import Prelude Errors Text TextFacts Value.

(** ** Strings *)
(** The escapes of [json.dumps(s, ensure_ascii=False)] *)
Definition json_escape_char (c : Z) : str :=
  if c =? 34 then u "\" ++ dq
  else if c =? 92 then u "\\"
  else if c =? 10 then u "\n" else if c =? 13 then u "\r" else if c =? 9 then u "\t"
  else if c =? 8 then u "\b" else if c =? 12 then u "\f"
  else if c <? 32 then u "\u" ++ hex_fixed 4 c
  else [c].
Definition json_escape (s : str) : str := concat (map json_escape_char s).
Definition json_string (s : str) : str := dq ++ json_escape s ++ dq.
Arguments json_string _ : simpl never.

Definition hex_value (c : Z) : option Z :=
  if ascii_digit c then Some (c - 48)
  else if (97 <=? c) && (c <=? 102) then Some (c - 87)
  else if (65 <=? c) && (c <=? 70) then Some (c - 55) else None.
Definition hex4 (s : str) : option (Z * str) :=
  match s with
  | a :: b :: c :: d :: s' =>
      match hex_value a, hex_value b, hex_value c, hex_value d with
      | Some a, Some b, Some c, Some d => Some (((a * 16 + b) * 16 + c) * 16 + d, s')
      | _, _, _, _ => None
      end
  | _ => None
  end.
Definition simple_escape (c : Z) : option Z :=
  if (c =? 34) || (c =? 92) || (c =? 47) then Some c
  else if c =? 98 then Some 8 else if c =? 102 then Some 12 else if c =? 110 then Some 10
  else if c =? 114 then Some 13 else if c =? 116 then Some 9 else None.

(** The characters up to the closing quote, and what follows it.  A control
    character inside a string is an error (strict mode); a pair of surrogate
    escapes is one character. *)
Fixpoint scan_string (fuel : nat) (s : str) : option (str * str) :=
  match fuel with
  | O => None
  | S fuel =>
      match s with
      | [] => None
      | c :: s' =>
          if c =? 34 then Some ([], s')
          else if c <? 32 then None
          else if negb (c =? 92) then
            match scan_string fuel s' with Some (t, r) => Some (c :: t, r) | None => None end
          else
            match s' with
            | [] => None
            | e :: s2 =>
                if e =? 117 then
                  match hex4 s2 with
                  | None => None
                  | Some (hi, s3) =>
                      match (if (55296 <=? hi) && (hi <=? 56319)
                             then match s3 with
                                  | 92 :: 117 :: s4 =>
                                      match hex4 s4 with
                                      | Some (lo, s5) =>
                                          if (56320 <=? lo) && (lo <=? 57343)
                                          then Some (65536 + (hi - 55296) * 1024 + (lo - 56320), s5)
                                          else Some (hi, s3)
                                      | None => None
                                      end
                                  | _ => Some (hi, s3)
                                  end
                             else Some (hi, s3)) with
                      | Some (c, s6) =>
                          match scan_string fuel s6 with
                          | Some (t, r) => Some (c :: t, r)
                          | None => None
                          end
                      | None => None
                      end
                  end
                else
                  match simple_escape e with
                  | Some x => match scan_string fuel s2 with
                              | Some (t, r) => Some (x :: t, r)
                              | None => None
                              end
                  | None => None
                  end
            end
      end
  end.

(** ** Floating-point numerals
    [float.__repr__] and [float(numeral)] of the interpreter. *)
Class FloatIO := {
  float_repr : pyfloat → str;
  float_parse : str → pyfloat;
}.

(** ** [json.dumps] *)
Definition type_error (m : str) : exn := Builtin TypeError m.
Section dumps.
Context {F : FloatIO}.

(** [allow_nan=False]: an infinity or a NaN is refused. *)
Definition json_float (f : pyfloat) : res str :=
  match f with
  | Finite _ => Ok (float_repr f)
  | _ => Err (value_error (u "Out of range float values are not JSON compliant"))
  end.

Fixpoint json_dumps (v : value) : res str :=
  match v with
  | VNone => Ok (u "null")
  | VBool b => Ok (if b then u "true" else u "false")
  | VInt n => Ok (show_int n)
  | VFloat f => json_float f
  | VStr s => Ok (json_string s)
  | VList l =>
      items ← (fix go (l : list value) : res (list str) :=
                 match l with
                 | [] => Ok []
                 | v :: l => t ← json_dumps v; ts ← go l; Ok (t :: ts)
                 end) l;
      Ok (u "[" ++ join (u ",") items ++ u "]")
  | VDict d =>
      items ← (fix go (d : list (str * value)) : res (list str) :=
                 match d with
                 | [] => Ok []
                 | (k, v) :: d => t ← json_dumps v; ts ← go d; Ok ((json_string k ++ u ":" ++ t) :: ts)
                 end) d;
      Ok (u "{" ++ join (u ",") items ++ u "}")
  | VOther t => Err (type_error (u "Object of type " ++ t ++ u " is not JSON serializable"))
  end.
Definition json_dumps_items (l : list value) : res (list str) :=
  (fix go (l : list value) : res (list str) :=
     match l with
     | [] => Ok []
     | v :: l => t ← json_dumps v; ts ← go l; Ok (t :: ts)
     end) l.
Definition json_dumps_members (d : dict value) : res (list str) :=
  (fix go (d : list (str * value)) : res (list str) :=
     match d with
     | [] => Ok []
     | (k, v) :: d => t ← json_dumps v; ts ← go d; Ok ((json_string k ++ u ":" ++ t) :: ts)
     end) d.
End dumps.

(** ** [json.loads] *)
Inductive json_error :=
  | JsonDecodeError
  | JsonRaised (e : exn).

Definition json_space (c : Z) : bool := (c =? 32) || (c =? 9) || (c =? 10) || (c =? 13).
Definition skip_ws (s : str) : str := drop_while json_space s.

(** The longest prefix of digits, and the rest *)
Fixpoint take_digits (s : str) : str * str :=
  match s with
  | c :: s' => if ascii_digit c then let '(d, r) := take_digits s' in (c :: d, r) else ([], s)
  | [] => ([], [])
  end.
(** The integer part of a numeral: no leading zero *)
Definition int_part (s : str) : option (str * str) :=
  match s with
  | 48 :: r => Some (u "0", r)
  | c :: _ => if ascii_digit c then Some (take_digits s) else None
  | [] => None
  end.
Definition frac_part (s : str) : str * str :=
  match s with
  | 46 :: r => match take_digits r with
               | ([], _) => ([], s)
               | (d, r') => (46 :: d, r')
               end
  | _ => ([], s)
  end.
Definition exp_part (s : str) : str * str :=
  match s with
  | c :: r =>
      if (c =? 101) || (c =? 69) then
        let '(sign, r1) := match r with
                           | x :: r' => if (x =? 43) || (x =? 45) then ([x], r') else ([], r)
                           | [] => ([], r)
                           end in
        match take_digits r1 with
        | ([], _) => ([], s)
        | (d, r2) => (c :: sign ++ d, r2)
        end
      else ([], s)
  | [] => ([], [])
  end.

Section loads.
Context {F : FloatIO}.
(** [hook] receives the members of every object in the order of the text. *)
Variable hook : list (str * value) → res value.

Definition json_number (s : str) : result json_error (value * str) :=
  let '(sign, s1) := match s with 45 :: r => (u "-", r) | _ => ([], s) end in
  match int_part s1 with
  | None => Err JsonDecodeError
  | Some (ip, s2) =>
      let '(fp, s3) := frac_part s2 in
      let '(ep, s4) := exp_part s3 in
      match fp ++ ep with
      | [] => match parse_int (sign ++ ip) with
              | Some n => Ok (VInt n, s4)
              | None => Err (JsonRaised (value_error (u "Exceeds the limit for integer string conversion")))
              end
      | _ => Ok (VFloat (float_parse (sign ++ ip ++ fp ++ ep)), s4)
      end
  end.

Definition json_scalar (s : str) : result json_error (value * str) :=
  if starts_with (u "null") s then Ok (VNone, drop 4 s)
  else if starts_with (u "true") s then Ok (VBool true, drop 4 s)
  else if starts_with (u "false") s then Ok (VBool false, drop 5 s)
  else if starts_with (u "NaN") s then Ok (VFloat NaN, drop 3 s)
  else if starts_with (u "Infinity") s then Ok (VFloat (Infinite false), drop 8 s)
  else if starts_with (u "-Infinity") s then Ok (VFloat (Infinite true), drop 9 s)
  else json_number s.

Definition run_hook (ms : list (str * value)) (r : str) : result json_error (value * str) :=
  match hook ms with Ok v => Ok (v, r) | Err e => Err (JsonRaised e) end.

Fixpoint json_value (fuel : nat) (s : str) : result json_error (value * str) :=
  match fuel with
  | O => Err JsonDecodeError
  | S fuel =>
      match s with
      | 34 :: s' => match scan_string (S (length s')) s' with
                    | Some (t, r) => Ok (VStr t, r)
                    | None => Err JsonDecodeError
                    end
      | 123 :: s' => match skip_ws s' with
                     | 125 :: r => run_hook [] r
                     | s1 => json_members fuel s1 []
                     end
      | 91 :: s' => match skip_ws s' with
                    | 93 :: r => Ok (VList [], r)
                    | s1 => json_items fuel s1 []
                    end
      | _ => json_scalar s
      end
  end
with json_members (fuel : nat) (s : str) (acc : list (str * value)) : result json_error (value * str) :=
  match fuel with
  | O => Err JsonDecodeError
  | S fuel =>
      match s with
      | 34 :: s' =>
          match scan_string (S (length s')) s' with
          | None => Err JsonDecodeError
          | Some (k, r) =>
              match skip_ws r with
              | 58 :: r1 =>
                  match json_value fuel (skip_ws r1) with
                  | Err e => Err e
                  | Ok (v, r2) =>
                      match skip_ws r2 with
                      | 125 :: r3 => run_hook (rev ((k, v) :: acc)) r3
                      | 44 :: r3 => json_members fuel (skip_ws r3) ((k, v) :: acc)
                      | _ => Err JsonDecodeError
                      end
                  end
              | _ => Err JsonDecodeError
              end
          end
      | _ => Err JsonDecodeError
      end
  end
with json_items (fuel : nat) (s : str) (acc : list value) : result json_error (value * str) :=
  match fuel with
  | O => Err JsonDecodeError
  | S fuel =>
      match json_value fuel s with
      | Err e => Err e
      | Ok (v, r) =>
          match skip_ws r with
          | 93 :: r1 => Ok (VList (rev (v :: acc)), r1)
          | 44 :: r1 => json_items fuel (skip_ws r1) (v :: acc)
          | _ => Err JsonDecodeError
          end
      end
  end.

(** [json.loads(s, object_pairs_hook=hook)]: the fuel covers every position
    of the text twice, and each call consumes a character or goes one level
    down at the same one. *)
Definition json_loads (s : str) : result json_error value :=
  match s with
  | 65279 :: _ => Err JsonDecodeError
  | _ => match json_value (S (2 * length s)) (skip_ws s) with
         | Err e => Err e
         | Ok (v, r) => match skip_ws r with [] => Ok v | _ => Err JsonDecodeError end
         end
  end.
End loads.

(** ** Reading back what was written *)
Definition char_ok (c : Z) : Prop := 0 <= c < 1114112.

Lemma json_escape_length c : (1 ≤ length (json_escape_char c))%nat.
Proof. unfold json_escape_char, u. repeat case_match; cbn; lia. Qed.

Lemma json_escape_char_control c :
  0 <= c < 32 → c ≠ 10 → c ≠ 13 → c ≠ 9 → c ≠ 8 → c ≠ 12 →
  ∃ b, json_escape_char c = 92 :: 117 :: b ∧ length b = 4%nat ∧
       ∀ s, hex4 (b ++ s) = Some (c, s).
Proof.
  intros Hc. rewrite <- (Z2Nat.id c) by lia. assert (Z.to_nat c < 32)%nat as Hn by lia. revert Hn.
  generalize (Z.to_nat c). clear c Hc. intros n Hn.
  do 32 (destruct n as [|n];
    [intros; first [lia | eexists; split_and!; [reflexivity|reflexivity|reflexivity]]|]).
  lia.
Qed.

Lemma scan_escape_char c fuel s :
  char_ok c →
  scan_string (S fuel) (json_escape_char c ++ s) =
  match scan_string fuel s with Some (t, r) => Some (c :: t, r) | None => None end.
Proof.
  intros Hc. unfold char_ok in Hc.
  destruct (decide (c ∈ [34; 92; 10; 13; 9; 8; 12])) as [Hin|Hn].
  { rewrite !elem_of_cons, elem_of_nil in Hin.
    destruct Hin as [->|[->|[->|[->|[->|[->|[->|[]]]]]]]]; reflexivity. }
  rewrite !elem_of_cons, elem_of_nil in Hn.
  destruct (decide (c < 32)).
  - destruct (json_escape_char_control c) as (b & -> & Hb & Hh); [lia|tauto..|].
    cbn [app scan_string]. change (92 =? 34) with false. change (92 <? 32) with false.
    change (negb (92 =? 92)) with false. change (117 =? 117) with true. cbn iota. rewrite Hh.
    rewrite (proj2 (Z.leb_gt 55296 c)) by lia. cbn [andb]. done.
  - unfold json_escape_char. zcmp; try tauto. cbn [app scan_string]. zcmp; try tauto.
Qed.

Lemma scan_escape s fuel r :
  Forall char_ok s → (length (json_escape s ++ 34%Z :: r) ≤ fuel)%nat →
  scan_string fuel (json_escape s ++ 34 :: r) = Some (s, r).
Proof.
  intros Hs. revert fuel. induction Hs as [|c s Hc Hs IH]; intros fuel Hf.
  { destruct fuel; [cbn in Hf; lia|]. done. }
  change (json_escape (c :: s)) with (json_escape_char c ++ json_escape s) in *.
  rewrite <- app_assoc in *. rewrite length_app in Hf. pose proof (json_escape_length c).
  destruct fuel as [|fuel]; [lia|]. rewrite scan_escape_char by done.
  rewrite IH; [done|lia].
Qed.

(** ** Numerals *)
Definition not_numeral (s : str) : Prop :=
  match s with c :: _ => ascii_digit c = false ∧ c ≠ 46 ∧ c ≠ 101 ∧ c ≠ 69 | [] => True end.

Lemma take_digits_app d s :
  forallb ascii_digit d = true → match s with c :: _ => ascii_digit c = false | [] => True end →
  take_digits (d ++ s) = (d, s).
Proof.
  induction d as [|c d IH]; cbn; intros Hd Hs.
  { destruct s as [|c s]; [done|]. cbn. by rewrite Hs. }
  apply andb_true_iff in Hd as [Hc Hd]. by rewrite Hc, IH.
Qed.

(** A printed integer has no leading zero. *)
Lemma digits_fuel_head fuel n acc :
  0 < n → n < 10 ^ Z.of_nat fuel → ∃ c t, digits_fuel fuel n acc = c :: t ∧ c ≠ 48.
Proof.
  revert n acc. induction fuel as [|fuel IH]; intros n acc Hn Hlt; [cbn in Hlt; lia|].
  cbn [digits_fuel]. rewrite Nat2Z.inj_succ, Z.pow_succ_r in Hlt by lia.
  pose proof (Z.mod_pos_bound n 10 ltac:(lia)). pose proof (Z.div_mod n 10 ltac:(lia)).
  destruct (Z.ltb_spec n 10).
  - eexists _, _. split; [reflexivity|]. rewrite Z.mod_small by lia. lia.
  - apply IH; lia.
Qed.

Lemma show_nat_head n : 0 <= n → n = 0 ∨ ∃ c t, show_nat_Z n = c :: t ∧ c ≠ 48.
Proof.
  intros Hn. destruct (decide (n = 0)) as [->|]; [by left|right].
  unfold show_nat_Z. apply digits_fuel_head; [lia|]. by apply log2_digits.
Qed.

Lemma int_part_show n s :
  0 <= n → not_numeral s → int_part (show_nat_Z n ++ s) = Some (show_nat_Z n, s).
Proof.
  intros Hn Hs. destruct (show_nat_head n Hn) as [->|(c & t & Hc & Hne)]; [reflexivity|].
  destruct (show_nat_spec n Hn) as (ds & Heq & _ & Hd & _). subst ds.
  assert (take_digits (show_nat_Z n ++ s) = (show_nat_Z n, s)) as Ht.
  { apply take_digits_app; [done|]. destruct s; [done|]. by destruct Hs as [? _]. }
  rewrite Hc in *. cbn in Hd. apply andb_true_iff in Hd as [Hdc _]. cbn [app int_part].
  rewrite <- app_comm_cons in Ht. rewrite Ht, Hdc.
  destruct c as [|p|p]; try done. do 6 (destruct p as [p|p|]; try done).
Qed.

Lemma frac_exp_none s : not_numeral s → frac_part s = ([], s) ∧ exp_part s = ([], s).
Proof.
  destruct s as [|c s]; [done|]. intros (_ & H46 & H101 & H69). split.
  - cbn. destruct c as [|p|p]; try done. do 6 (destruct p as [p|p|]; try done).
  - cbn. by rewrite (proj2 (Z.eqb_neq c 101) H101), (proj2 (Z.eqb_neq c 69) H69).
Qed.

Lemma int_part_digits ds c t : ds = c :: t → forallb ascii_digit ds = true → c ≠ 45.
Proof. intros -> H ->. discriminate. Qed.

Section roundtrip.
Context {F : FloatIO}.
Variable hook : list (str * value) → res value.
Hypothesis hook_dict : ∀ d, dwf d → hook d = Ok (VDict d).

(** The numerals of the interpreter: a float prints as an integer part with a
    fraction or an exponent, and reads back to itself. *)
Definition fraction_text (s : str) : Prop :=
  s = [] ∨ ∃ d, s = 46 :: d ∧ d ≠ [] ∧ forallb ascii_digit d = true.
Definition exponent_text (s : str) : Prop :=
  s = [] ∨ ∃ sign d, s = 101 :: sign ++ d ∧ (sign = [] ∨ sign = [43] ∨ sign = [45]) ∧
                     d ≠ [] ∧ forallb ascii_digit d = true.
Definition float_ok (f : pyfloat) : Prop :=
  (∃ q, f = Finite q) ∧ float_parse (float_repr f) = f ∧
  ∃ sign n fp ep, float_repr f = sign ++ show_nat_Z n ++ fp ++ ep ∧ (sign = [] ∨ sign = [45]) ∧
                  0 <= n ∧ fraction_text fp ∧ exponent_text ep ∧ fp ++ ep ≠ [].

(** The values JSON can carry without loss *)
Inductive json_ok : value → Prop :=
  | ok_null : json_ok VNone
  | ok_bool b : json_ok (VBool b)
  | ok_int n : (Z.to_nat (Z.log2 (Z.abs n)) < 4300)%nat → json_ok (VInt n)
  | ok_float f : float_ok f → json_ok (VFloat f)
  | ok_str s : Forall char_ok s → json_ok (VStr s)
  | ok_list l : Forall json_ok l → json_ok (VList l)
  | ok_dict d : dwf d → Forall (fun kv => Forall char_ok kv.1) d →
                Forall (fun kv => json_ok kv.2) d → json_ok (VDict d).

Definition starts_value (t : str) : Prop :=
  match t with c :: _ => json_space c = false ∧ c ≠ 93 ∧ c ≠ 65279 | [] => False end.

Lemma skip_ws_start t r : starts_value t → skip_ws (t ++ r) = t ++ r.
Proof. destruct t as [|c t]; [done|]. intros [Hc _]. cbn. by rewrite Hc. Qed.

Lemma show_nat_start n : 0 <= n → ∃ c t, show_nat_Z n = c :: t ∧ ascii_digit c = true.
Proof.
  intros Hn. destruct (show_nat_spec n Hn) as (ds & -> & Hne & Hd & _).
  destruct ds as [|c t]; [done|]. cbn in Hd. apply andb_true_iff in Hd as [Hc _]. eauto.
Qed.

(** A numeral is dispatched to the number reader. *)
Lemma scalar_number sign n t :
  0 <= n → (sign = [] ∨ sign = [45]) →
  let s := sign ++ show_nat_Z n ++ t in
  json_scalar s = json_number s ∧ (∀ fuel, json_value hook (S fuel) s = json_number s) ∧
  starts_value s.
Proof.
  intros Hn Hs. destruct (show_nat_start n Hn) as (c & w & -> & Hc). cbv zeta.
  unfold ascii_digit in Hc. apply andb_true_iff in Hc as [H1 H2]. apply Z.leb_le in H1. apply Z.leb_le in H2.
  assert (c ∈ [48; 49; 50; 51; 52; 53; 54; 55; 56; 57]) as Hin.
  { rewrite !elem_of_cons. lia. }
  rewrite !elem_of_cons, elem_of_nil in Hin.
  destruct Hs as [-> | ->]; destruct_or! Hin; try done; subst c;
    (split_and!; [reflexivity|reflexivity|done]).
Qed.

Lemma number_show n r : (Z.to_nat (Z.log2 (Z.abs n)) < 4300)%nat → not_numeral r →
  json_number (show_int n ++ r) = Ok (VInt n, r).
Proof.
  intros Hb Hr. pose proof (parse_show_int n Hb) as Hp. revert Hp.
  destruct (frac_exp_none r Hr) as [Hf He]. unfold show_int, json_number.
  destruct (Z.ltb_spec n 0) as [Hneg|Hpos]; intros Hp.
  - cbn [app]. rewrite int_part_show by (done || lia). rewrite Hf, He. cbn [app].
    change (u "-" ++ show_nat_Z (- n)) with (45 :: show_nat_Z (- n)). by rewrite Hp.
  - destruct (show_nat_start n Hpos) as (c & w & Hw & Hc).
    assert (match show_nat_Z n ++ r with 45 :: r' => (u "-", r') | _ => ([], show_nat_Z n ++ r) end
            = ([], show_nat_Z n ++ r)) as ->.
    { rewrite Hw. cbn. destruct c as [|p|p]; try done. do 6 (destruct p as [p|p|]; try done). }
    rewrite int_part_show by done. rewrite Hf, He. cbn [app]. by rewrite Hp.
Qed.

Lemma exp_part_text ep s : exponent_text ep → not_numeral s → exp_part (ep ++ s) = (ep, s).
Proof.
  intros [->|(sign & d & -> & Hsign & Hne & Hd)] Hs; [by apply frac_exp_none|].
  destruct d as [|c d]; [done|].
  assert (take_digits (c :: d ++ s) = (c :: d, s)) as Ht.
  { apply (take_digits_app (c :: d)); [done|]. destruct s; [done|]. by destruct Hs. }
  cbn [forallb] in Hd. apply andb_true_iff in Hd as [Hc _].
  assert ((c =? 43) || (c =? 45) = false) as Hcs.
  { unfold ascii_digit in Hc. zprop. boolean. apply orb_false_iff. split; apply Z.eqb_neq; lia. }
  destruct Hsign as [-> | [-> | ->]]; cbn [app exp_part Z.eqb Pos.eqb orb];
    rewrite ?Hcs, Ht; done.
Qed.

Lemma number_float f r : float_ok f → not_numeral r →
  json_number (float_repr f ++ r) = Ok (VFloat f, r).
Proof.
  intros (_ & Hp & sign & n & fp & ep & Hr & Hsign & Hn & Hf & He & Hne) Hnn.
  assert (match fp ++ ep ++ r with c :: _ => ascii_digit c = false | [] => True end) as Hhead.
  { destruct Hf as [->|(d & -> & _)]; [|done]. destruct He as [->|(? & d & -> & _)]; [|done].
    destruct r; [done|]. by destruct Hnn. }
  assert (int_part (show_nat_Z n ++ fp ++ ep ++ r) = Some (show_nat_Z n, fp ++ ep ++ r)) as Hi.
  { destruct (show_nat_head n Hn) as [->|(c & t & Hc & Hne0)]; [reflexivity|].
    destruct (show_nat_spec n Hn) as (ds & Heq & _ & Hd & _). subst ds.
    pose proof (take_digits_app (show_nat_Z n) _ Hd Hhead) as Ht.
    rewrite Hc in *. cbn [forallb] in Hd. apply andb_true_iff in Hd as [Hdc _].
    cbn [app int_part]. cbn [app] in Ht. rewrite Ht, Hdc.
    destruct c as [|p|p]; try done. do 6 (destruct p as [p|p|]; try done). }
  assert (frac_part (fp ++ ep ++ r) = (fp, ep ++ r)) as Hfp.
  { destruct Hf as [->|(d & -> & Hdne & Hd)].
    - cbn [app]. destruct He as [->|(? & d & -> & _)]; [by apply frac_exp_none|done].
    - cbn [app frac_part]. rewrite take_digits_app; [by destruct d|done|].
      destruct He as [->|(? & ? & -> & _)]; [|done]. destruct r; [done|]. by destruct Hnn. }
  pose proof (exp_part_text ep r He Hnn) as Hep.
  unfold json_number. rewrite Hr, <- !app_assoc.
  assert (match sign ++ show_nat_Z n ++ fp ++ ep ++ r with 45 :: r' => (u "-", r')
          | _ => ([], sign ++ show_nat_Z n ++ fp ++ ep ++ r) end
          = (sign, show_nat_Z n ++ fp ++ ep ++ r)) as ->.
  { destruct Hsign as [-> | ->]; [|done]. destruct (show_nat_start n Hn) as (c & w & -> & Hc).
    cbn. destruct c as [|p|p]; try done. do 6 (destruct p as [p|p|]; try done). }
  rewrite Hi, Hfp, Hep. destruct (fp ++ ep) as [|x y] eqn:E; [done|].
  rewrite <- Hr. by rewrite Hp.
Qed.

(** A value whose text reads back to it, whatever follows *)
Definition reads (v : value) : Prop :=
  ∀ t, json_dumps v = Ok t →
  starts_value t ∧
  ∀ fuel r, not_numeral r → (2 * length (t ++ r) < fuel)%nat → json_value hook fuel (t ++ r) = Ok (v, r).

Lemma starts_value_app t r : starts_value t → starts_value (t ++ r).
Proof. by destruct t. Qed.

Lemma items_read l ts acc fuel r :
  Forall reads l → l ≠ [] → json_dumps_items l = Ok ts →
  (2 * length (join (u ",") ts ++ 93%Z :: r) + 1 < fuel)%nat →
  starts_value (join (u ",") ts) ∧
  json_items hook fuel (join (u ",") ts ++ 93 :: r) acc = Ok (VList (rev acc ++ l), r).
Proof.
  intros Hl. revert ts acc fuel. induction Hl as [|v l Hv Hl IH]; intros ts acc fuel Hne; [done|].
  unfold json_dumps_items. cbn. intros H. apply result_bind_Ok in H as (t & Ht & H).
  apply result_bind_Ok in H as (ts' & Hts & H). injection H as <-.
  destruct (Hv t Ht) as [Hst Hrd]. intros Hf. destruct fuel as [|fuel]; [lia|].
  destruct l as [|v' l].
  - injection Hts as <-. cbn [join] in *. split; [done|]. cbn [json_items].
    rewrite Hrd by (done || lia). by cbn.
  - destruct ts' as [|t' ts']; [apply result_bind_Ok in Hts as (? & _ & Hts);
      by apply result_bind_Ok in Hts as (? & _ & Hts)|].
    change (join (u ",") (t :: t' :: ts')) with (t ++ 44 :: join (u ",") (t' :: ts')) in *.
    split; [by apply starts_value_app|].
    rewrite <- app_assoc in *. rewrite <- app_comm_cons in *.
    rewrite length_app in Hf. cbn [length] in Hf.
    destruct (IH (t' :: ts') (v :: acc) fuel) as [Hst' Hrec]; [done|exact Hts|lia|].
    cbn [json_items]. rewrite Hrd by (try done; rewrite length_app; cbn [length]; lia).
    cbn [skip_ws drop_while json_space Z.eqb Pos.eqb orb].
    rewrite skip_ws_start by done. rewrite Hrec. cbn. by rewrite <- app_assoc.
Qed.

Lemma members_read d ts acc fuel r :
  Forall (fun kv => reads kv.2) d → Forall (fun kv => Forall char_ok kv.1) d → d ≠ [] →
  json_dumps_members d = Ok ts → dwf (rev acc ++ d) →
  (2 * length (join (u ",") ts ++ 125%Z :: r) + 1 < fuel)%nat →
  (∃ s, join (u ",") ts = 34 :: s) ∧
  json_members hook fuel (join (u ",") ts ++ 125 :: r) acc = Ok (VDict (rev acc ++ d), r).
Proof.
  intros Hd Hk. revert ts acc fuel.
  induction Hd as [|[k v] d Hv Hd IH]; intros ts acc fuel Hne; [done|]. cbn in Hv.
  inversion_clear Hk as [|? ? Hkc Hks]. cbn in Hkc.
  unfold json_dumps_members. cbn. intros H. apply result_bind_Ok in H as (t & Ht & H).
  apply result_bind_Ok in H as (ts' & Hts & H). apply Ok_inj in H. subst ts. intros Hwf.
  destruct (Hv t Ht) as [Hst Hrd]. intros Hf. destruct fuel as [|fuel]; [lia|].
  assert (∀ tl, (2 * length ((json_string k ++ u ":" ++ t) ++ tl) + 1 < S fuel)%nat → not_numeral tl →
    json_members hook (S fuel) ((json_string k ++ u ":" ++ t) ++ tl) acc =
    match skip_ws tl with
    | 125 :: r3 => run_hook hook (rev ((k, v) :: acc)) r3
    | 44 :: r3 => json_members hook fuel (skip_ws r3) ((k, v) :: acc)
    | _ => Err JsonDecodeError
    end) as Hstep.
  { intros tl Hl Htl. unfold json_string in *. change dq with [34] in *. change (u ":") with [58] in *.
    rewrite <- !app_assoc in *. cbn [app json_members]. rewrite !length_app in Hl. cbn [length] in Hl.
    rewrite scan_escape; [|done|rewrite !length_app; cbn [length]; lia].
    cbn [skip_ws drop_while json_space Z.eqb Pos.eqb orb]. rewrite skip_ws_start by done.
    rewrite Hrd by (try done; rewrite length_app; lia). done. }
  destruct d as [|[k' v'] d].
  - injection Hts as <-. cbn [join] in *. split; [eexists; reflexivity|].
    rewrite Hstep by (done || lia). cbn [skip_ws drop_while json_space Z.eqb Pos.eqb orb].
    unfold run_hook. cbn [rev]. by rewrite hook_dict.
  - destruct ts' as [|t' ts']; [apply result_bind_Ok in Hts as (? & _ & Hts);
      by apply result_bind_Ok in Hts as (? & _ & Hts)|].
    change (join (u ",") ((json_string k ++ u ":" ++ t) :: t' :: ts'))
      with ((json_string k ++ u ":" ++ t) ++ 44 :: join (u ",") (t' :: ts')) in *.
    split; [eexists; reflexivity|].
    rewrite <- (app_assoc (_ ++ _)) in Hf |- *. rewrite <- app_comm_cons in Hf |- *.
    rewrite Hstep by done. rewrite length_app in Hf. cbn [length] in Hf.
    destruct (IH Hks (t' :: ts') ((k, v) :: acc) fuel) as [[s Hs] Hrec];
      [done|exact Hts|cbn [rev]; by rewrite <- app_assoc|lia|].
    cbn [skip_ws drop_while json_space Z.eqb Pos.eqb orb].
    rewrite skip_ws_start by (by rewrite Hs). rewrite Hrec. cbn. by rewrite <- app_assoc.
Qed.

Lemma json_value_list fuel s : starts_value s → json_value hook (S fuel) (91 :: s) = json_items hook fuel s [].
Proof.
  intros Hst. pose proof (skip_ws_start s [] Hst) as Hw. rewrite app_nil_r in Hw.
  cbn [json_value]. rewrite Hw. destruct s as [|c s]; [done|]. destruct Hst as (_ & H93 & _).
  destruct c as [|p|p]; try done. do 7 (destruct p as [p|p|]; try done).
Qed.

Lemma json_read v : json_ok v → reads v.
Proof.
  induction v as [|b|n|f|s|l IH|d IH|t] using value_ind'; intros Hok tx Htx; inversion Hok; subst;
    cbn in Htx; try (apply Ok_inj in Htx; subst tx).
  - split; [done|]. by intros [|fuel] r _ Hf; [lia|].
  - destruct b; (split; [done|]; by intros [|fuel] r _ Hf; [lia|]).
  - assert (∃ sign, show_int n = sign ++ show_nat_Z (Z.abs n) ∧ (sign = [] ∨ sign = [45])) as (sg & Hs & Hsg).
    { unfold show_int. destruct (Z.ltb_spec n 0); [exists [45]|exists []];
        (split; [|auto]); rewrite ?Z.abs_neq, ?Z.abs_eq by lia; done. }
    split; [rewrite Hs, <- (app_nil_r (show_nat_Z _)); by apply scalar_number; [lia|]|].
    intros [|fuel] r Hr Hf; [lia|]. rewrite <- number_show by done. rewrite Hs, <- app_assoc.
    by apply scalar_number; [lia|].
  - match goal with H : float_ok f |- _ => rename H into Hfl end. pose proof Hfl as ([q ->] & _ & sg & n & fp & ep & Hr & Hsg & Hn & _).
    cbn in Htx. apply Ok_inj in Htx; subst tx. split; [rewrite Hr; by apply scalar_number|].
    intros [|fuel] r Hnn Hf; [lia|]. rewrite <- number_float by done. rewrite Hr, <- !app_assoc.
    by apply scalar_number.
  - split; [done|]. intros [|fuel] r Hr Hf; [lia|]. unfold json_string in *.
    change dq with [34] in *. rewrite <- app_assoc in *. cbn [app json_value].
    rewrite <- app_assoc in *. cbn [app length] in *. by rewrite scan_escape by (done || lia).
  - apply result_bind_Ok in Htx as (ts & Hts & Htx). apply Ok_inj in Htx; subst tx. split; [done|].
    intros [|fuel] r Hr Hf; [lia|]. change (u "[") with [91] in *. change (u "]") with [93] in *.
    rewrite <- !app_assoc in *. cbn [app length] in *.
    destruct l as [|v l]; [injection Hts as <-; done|].
    destruct (items_read (v :: l) ts [] fuel r) as [Hst Hrd]; [|done|exact Hts|lia|].
    { rewrite Forall_forall in *. auto. }
    cbn [rev app] in Hrd. rewrite <- Hrd. apply json_value_list. by apply starts_value_app.
  - apply result_bind_Ok in Htx as (ts & Hts & Htx). apply Ok_inj in Htx; subst tx. split; [done|].
    intros [|fuel] r Hr Hf; [lia|]. change (u "{") with [123] in *. change (u "}") with [125] in *.
    rewrite <- !app_assoc in *. cbn [app length] in *. cbn [json_value].
    destruct d as [|kv d].
    { injection Hts as <-. cbn. unfold run_hook. by rewrite hook_dict. }
    destruct (members_read (kv :: d) ts [] fuel r) as [[s Hs] Hrd]; [|done|done|exact Hts|done|lia|].
    { rewrite !Forall_forall in *. auto. }
    rewrite Hs in *. cbn [app skip_ws drop_while json_space Z.eqb Pos.eqb orb]. exact Hrd.
Qed.

Lemma json_loads_dumps v t : json_ok v → json_dumps v = Ok t → json_loads hook t = Ok v.
Proof.
  intros Hok Ht. destruct (json_read v Hok t Ht) as [Hst Hrd].
  specialize (Hrd (S (2 * length t)) []). rewrite app_nil_r in Hrd.
  pose proof (skip_ws_start t [] Hst) as Hw. rewrite app_nil_r in Hw.
  unfold json_loads. rewrite Hw, Hrd by (done || lia). cbn.
  destruct t as [|c t]; [done|]. destruct Hst as (_ & _ & H).
  destruct c as [|p|p]; try done. do 16 (destruct p as [p|p|]; try done).
Qed.

(** What is printed is text. *)
Lemma ascii_chars s : forallb is_ascii s = true → Forall char_ok s.
Proof.
  intros H. rewrite forallb_forall in H. apply Forall_forall. intros c Hc. apply list_elem_of_In in Hc.
  specialize (H c Hc). unfold is_ascii in H. unfold char_ok. boolean. lia.
Qed.
Lemma digits_chars s : forallb ascii_digit s = true → Forall char_ok s.
Proof.
  intros H. apply ascii_chars. rewrite forallb_forall in *. intros c Hc. specialize (H c Hc).
  unfold ascii_digit, is_ascii in *. boolean. by zcmp.
Qed.
Lemma hex_fixed_chars w n : Forall char_ok (hex_fixed w n).
Proof.
  revert n. induction w as [|w IH]; intros n; [constructor|]. cbn [hex_fixed]. apply Forall_app. split; [done|].
  constructor; [|constructor]. unfold hex_digit, char_ok. pose proof (Z.mod_pos_bound n 16).
  destruct (Z.ltb_spec (n mod 16) 10); lia.
Qed.
Lemma json_string_chars s : Forall char_ok s → Forall char_ok (json_string s).
Proof.
  intros H. unfold json_string. apply Forall_app. split; [by apply ascii_chars|]. apply Forall_app.
  split; [|by apply ascii_chars]. unfold json_escape. apply Forall_concat, Forall_map.
  eapply Forall_impl; [exact H|]. intros c Hc. unfold json_escape_char.
  repeat case_match; try (by apply ascii_chars); [|by constructor].
  apply Forall_app. split; [by apply ascii_chars|apply hex_fixed_chars].
Qed.
Lemma show_int_chars n : Forall char_ok (show_int n).
Proof.
  destruct (show_int_shape n) as (sign & ds & -> & Hs & _ & Hd). apply Forall_app.
  split; [|by apply digits_chars]. destruct Hs as [-> | ->]; by apply ascii_chars.
Qed.
Lemma float_chars f : float_ok f → Forall char_ok (float_repr f).
Proof.
  intros (_ & _ & sign & n & fp & ep & -> & Hs & Hn & Hf & He & _).
  destruct (show_nat_spec n Hn) as (ds & -> & _ & Hd & _). rewrite !Forall_app.
  split_and!; [by destruct Hs as [-> | ->]; apply ascii_chars|by apply digits_chars| |].
  - destruct Hf as [-> |(d & -> & _ & Hd')]; [constructor|]. constructor; [unfold char_ok; lia|by apply digits_chars].
  - destruct He as [-> |(sg & d & -> & Hsg & _ & Hd')]; [constructor|]. constructor; [unfold char_ok; lia|].
    apply Forall_app. split; [|by apply digits_chars]. destruct Hsg as [-> |[-> | ->]]; by apply ascii_chars.
Qed.
Lemma join_chars sep l : Forall char_ok sep → Forall (Forall char_ok) l → Forall char_ok (join sep l).
Proof.
  intros Hs. induction 1 as [|x l Hx Hl IH]; [constructor|]. destruct l as [|y l]; [done|].
  change (join sep (x :: y :: l)) with (x ++ sep ++ join sep (y :: l)). rewrite !Forall_app. auto.
Qed.
Lemma json_dumps_chars v : json_ok v → ∀ t, json_dumps v = Ok t → Forall char_ok t.
Proof.
  induction v as [|b|n|f|s|l IH|d IH|tn] using value_ind'; intros Hok t Ht; inversion Hok; subst;
    cbn [json_dumps] in Ht; try (apply Ok_inj in Ht; subst t).
  - by apply ascii_chars.
  - by destruct b; apply ascii_chars.
  - apply show_int_chars.
  - match goal with H : float_ok f |- _ => rename H into Hf end. pose proof Hf as ([q ->] & _).
    cbn in Ht. apply Ok_inj in Ht; subst t. by apply float_chars.
  - by apply json_string_chars.
  - apply result_bind_Ok in Ht as (ts & Hts & Ht). apply Ok_inj in Ht; subst t.
    rewrite !Forall_app. split_and!; [by apply ascii_chars| |by apply ascii_chars].
    apply join_chars; [by apply ascii_chars|]. clear Hok.
    match goal with H : Forall json_ok l |- _ => rename H into Hl end.
    revert ts Hts. induction l as [|v l IHl]; intros ts Hts; [injection Hts as <-; constructor|].
    apply result_bind_Ok in Hts as (t1 & Ht1 & Hts). apply result_bind_Ok in Hts as (ts' & Hts' & Hts).
    apply Ok_inj in Hts; subst ts. apply Forall_cons in IH as [IHv IH], Hl as [Hv Hl].
    constructor; [by apply IHv|by apply IHl].
  - apply result_bind_Ok in Ht as (ts & Hts & Ht). apply Ok_inj in Ht; subst t.
    rewrite !Forall_app. split_and!; [by apply ascii_chars| |by apply ascii_chars].
    apply join_chars; [by apply ascii_chars|]. clear Hok.
    match goal with H : Forall (fun kv => json_ok kv.2) d |- _ => rename H into Hl end.
    match goal with H : Forall (fun kv => Forall char_ok kv.1) d |- _ => rename H into Hk end.
    match goal with H : dwf d |- _ => clear H end.
    revert ts Hts. induction d as [|[k v] d IHl]; intros ts Hts; [injection Hts as <-; constructor|].
    apply result_bind_Ok in Hts as (t1 & Ht1 & Hts). apply result_bind_Ok in Hts as (ts' & Hts' & Hts).
    apply Ok_inj in Hts; subst ts. apply Forall_cons in IH as [IHv IH], Hl as [Hv Hl], Hk as [Hk1 Hk].
    constructor; [|by apply IHl]. rewrite !Forall_app.
    split_and!; [by apply json_string_chars|by apply ascii_chars|by eapply IHv].
Qed.
End roundtrip.
