(* ===== verification/ConfigModel.v ===== *)
(** * ConfigModel: server profiles and the configuration

    The profile record with the checks its constructor makes
    (config/model.py), the configuration as an insertion-ordered dictionary
    of profiles, the two public views of a profile (config/presentation.py)
    and the resolution of a profile's SSH target (ssh/target.py). *)
From S2P Require Import Prelude Errors Text TextFacts Regex Value.

(** ** Names *)
Definition PROFILE_NAME : re :=
  RSeqs [RBol; RChar (cls [(65, 90); (97, 122); (48, 57)]);
         RUpto 63 (RChar (cls [(65, 90); (97, 122); (48, 57); (46, 46); (95, 95); (45, 45)])); REol].
Definition REMOTE_USER : re :=
  RSeqs [RBol; RChar (cls [(65, 90); (97, 122); (95, 95)]);
         RUpto 63 (RChar (cls [(65, 90); (97, 122); (48, 57); (95, 95); (46, 46); (45, 45)])); REol].
Definition SESSION_ID : re :=
  RSeqs [RBol; RLit (u "sess-"); RRepeat 16 (RChar (cls [(48, 57); (97, 102)])); REol].

Inductive ConnectionType : Set := SSH_CONFIG | DIRECT.
Inductive Authentication : Set := OPENSSH | INTERACTIVE_PASSWORD.
Inductive ElevationMode : Set := DISABLED | NON_INTERACTIVE | INTERACTIVE.
#[export] Instance ConnectionType_eq_dec : EqDecision ConnectionType.
Proof. solve_decision. Defined.
#[export] Instance Authentication_eq_dec : EqDecision Authentication.
Proof. solve_decision. Defined.
#[export] Instance ElevationMode_eq_dec : EqDecision ElevationMode.
Proof. solve_decision. Defined.

Definition connection_type_value (c : ConnectionType) : str :=
  match c with SSH_CONFIG => u "ssh_config" | DIRECT => u "direct" end.
Definition authentication_value (a : Authentication) : str :=
  match a with OPENSSH => u "openssh" | INTERACTIVE_PASSWORD => u "interactive_password" end.
Definition elevation_mode_value (m : ElevationMode) : str :=
  match m with
  | DISABLED => u "disabled" | NON_INTERACTIVE => u "non_interactive" | INTERACTIVE => u "interactive"
  end.

(** ** Paths: [PurePosixPath] *)
(** What the path starts with (nothing, one slash, or exactly two) and its
    parts; empty and [.] parts are dropped. *)
Definition posix_root (p : str) : str :=
  match p with
  | 47 :: 47 :: 47 :: _ => u "/"
  | 47 :: 47 :: _ => u "//"
  | 47 :: _ => u "/"
  | _ => []
  end.
Definition posix_tail (p : str) : list str :=
  List.filter (fun w => negb (str_eqb w []) && negb (str_eqb w (u "."))) (split_char 47 p).
Definition posix_is_absolute (p : str) : bool := starts_with (u "/") p.
Definition posix_str (p : str) : str :=
  match posix_root p, posix_tail p with
  | [], [] => u "."
  | root, parts => root ++ join (u "/") parts
  end.

(** ** Profiles *)
Record ServerProfile := Profile {
  display_name : str;
  connection_type : ConnectionType;
  authentication : Authentication;
  ssh_host : option str;
  host : option str;
  port : option Z;
  user : option str;
  identity_file : option str;
  allowed_roots : list str;
  allow_terminal : bool;
  allow_file_read : bool;
  allow_file_write : bool;
  elevation_mode : ElevationMode;
  allow_root_session : bool;
  environment : str;
  command_timeout_seconds : Z;
  max_output_bytes : Z;
}.
#[export] Instance ServerProfile_eq_dec : EqDecision ServerProfile.
Proof. solve_decision. Defined.

Definition set_allowed_roots (p : ServerProfile) (roots : list str) : ServerProfile :=
  Profile (display_name p) (connection_type p) (authentication p) (ssh_host p) (host p) (port p)
    (user p) (identity_file p) roots (allow_terminal p) (allow_file_read p) (allow_file_write p)
    (elevation_mode p) (allow_root_session p) (environment p) (command_timeout_seconds p)
    (max_output_bytes p).

Definition config_error (m : str) : exn := controlled ConfigurationError m.
Definition has_control (s : str) : bool := existsb (fun c => c <? 32) s.
Definition is_None {A} (o : option A) : bool := match o with None => true | Some _ => false end.
Definition is_some {A} (o : option A) : bool := negb (is_None o).

Section profiles.
Context {U : UnicodeDB}.

Definition validate_profile_name (name : str) : res unit :=
  raise_if (negb (fullmatch PROFILE_NAME name))
    (config_error (u "profile name must be 1-64 characters using letters, digits, '.', '_' or '-'")).

Definition validate_display_text (value field_name : str) (maximum : Z) : res unit :=
  raise_if (str_eqb value [] || negb (str_eqb value (strip value)) || (maximum <? len value))
    (config_error (field_name ++ u " must be a non-empty trimmed string"));;
  raise_if (has_control value) (config_error (field_name ++ u " contains a control character")).

Definition validate_target (value field_name : str) : res unit :=
  validate_display_text value field_name 255;;
  raise_if (starts_with (u "-") value || existsb is_space value)
    (config_error (field_name ++ u " is not a valid OpenSSH target value")).

Definition normalize_root (value : str) : res str :=
  encoded ← utf8_encode value;
  raise_if ((4096 <? len encoded) || has_control value)
    (config_error (u "allowed_roots must contain only text paths"));;
  raise_if (negb (posix_is_absolute value) || bool_decide (u ".." ∈ posix_tail value))
    (config_error (u "allowed root must be an absolute normalized path: " ++ py_repr value));;
  let canonical := posix_str value in
  raise_if (negb (str_eqb canonical (rstrip (Z.eqb 47) value)) &&
            negb (str_eqb canonical (u "/") && str_eqb value (u "/")))
    (config_error (u "allowed root must already be normalized: " ++ py_repr value));;
  Ok canonical.

Fixpoint normalize_roots (roots normalized : list str) : res (list str) :=
  match roots with
  | [] => Ok normalized
  | value :: roots =>
      canonical ← normalize_root value;
      normalize_roots roots
        (if bool_decide (canonical ∈ normalized) then normalized else normalized ++ [canonical])
  end.
Definition normalize_allowed_roots (roots : list str) : res (list str) := normalize_roots roots [].

Definition check_connection (p : ServerProfile) : res unit :=
  match connection_type p with
  | SSH_CONFIG =>
      match ssh_host p with
      | None => Err (config_error (u "ssh_config profiles require ssh_host"))
      | Some alias =>
          validate_target alias (u "ssh_host");;
          raise_if (is_some (host p) || is_some (port p) || is_some (user p))
            (config_error (u "ssh_config profiles cannot also define direct host, port or user"));;
          raise_if (negb (bool_decide (authentication p = OPENSSH)))
            (config_error (u "ssh_config profiles must use OpenSSH authentication"))
      end
  | DIRECT =>
      raise_if (is_some (ssh_host p))
        (config_error (u "direct profiles cannot define ssh_host"));;
      match host p, user p, port p with
      | Some h, Some n, Some k =>
          validate_target h (u "host");;
          raise_if (negb (fullmatch REMOTE_USER n))
            (config_error (u "user is not a supported Linux account name"));;
          raise_if (negb ((1 <=? k) && (k <=? 65535)))
            (config_error (u "port must be between 1 and 65535"))
      | _, _, _ => Err (config_error (u "direct profiles require host, port and user"))
      end
  end.

Definition check_identity (p : ServerProfile) : res unit :=
  match identity_file p with
  | None => Ok tt
  | Some path =>
      validate_display_text path (u "identity_file") 1024;;
      raise_if (negb (bool_decide (authentication p = OPENSSH)))
        (config_error (u "identity_file is only valid with OpenSSH authentication"))
  end.

Definition check_permissions (p : ServerProfile) : res unit :=
  raise_if (allow_file_write p && negb (allow_file_read p))
    (config_error (u "allow_file_write requires allow_file_read"));;
  raise_if ((allow_file_read p || allow_file_write p) && bool_decide (allowed_roots p = []))
    (config_error (u "structured file access requires at least one allowed root"));;
  raise_if (allow_root_session p && bool_decide (elevation_mode p = DISABLED))
    (config_error (u "a root session requires an enabled elevation mode"));;
  raise_if (allow_root_session p && negb (allow_terminal p))
    (config_error (u "a root session requires terminal access"));;
  raise_if (negb ((1 <=? command_timeout_seconds p) && (command_timeout_seconds p <=? 3600)))
    (config_error (u "command_timeout_seconds must be between 1 and 3600"));;
  raise_if (negb ((4096 <=? max_output_bytes p) && (max_output_bytes p <=? 16777216)))
    (config_error (u "max_output_bytes must be between 4096 and 16777216")).

(** The constructor: [__post_init__] replaces the allowed roots by their
    normal forms and then checks the rest.  The record's types stand for the
    [isinstance] tests on the enumeration members and on [bool] numbers. *)
Definition server_profile (p : ServerProfile) : res ServerProfile :=
  validate_display_text (display_name p) (u "display_name") 128;;
  validate_display_text (environment p) (u "environment") 64;;
  roots ← normalize_allowed_roots (allowed_roots p);
  let q := set_allowed_roots p roots in
  check_connection q;;
  check_identity q;;
  check_permissions q;;
  Ok q.

(** ** Configurations *)
Record ServerOpsConfig := Config { profiles : dict ServerProfile; schema_version : Z }.
Definition CONFIG_SCHEMA_VERSION : Z := 1.

Fixpoint validate_names (d : dict ServerProfile) : res unit :=
  match d with
  | [] => Ok tt
  | (name, _) :: d => validate_profile_name name;; validate_names d
  end.
Definition server_ops_config (d : dict ServerProfile) (version : Z) : res ServerOpsConfig :=
  raise_if (negb (version =? CONFIG_SCHEMA_VERSION))
    (config_error (u "config schema must be " ++ show_int CONFIG_SCHEMA_VERSION ++ u ", got "
                   ++ show_int version));;
  validate_names d;;
  Ok (Config d version).

Definition empty_config : res ServerOpsConfig := server_ops_config [] CONFIG_SCHEMA_VERSION.
Definition with_profile (c : ServerOpsConfig) (name : str) (p : ServerProfile) : res ServerOpsConfig :=
  validate_profile_name name;;
  server_ops_config (dset (profiles c) name p) CONFIG_SCHEMA_VERSION.
Definition without_profile (c : ServerOpsConfig) (name : str) : res ServerOpsConfig :=
  validate_profile_name name;;
  raise_if (negb (dhas (profiles c) name)) (config_error (u "profile does not exist: " ++ name));;
  server_ops_config (ddel (profiles c) name) CONFIG_SCHEMA_VERSION.

(** ** Session identifiers *)
Definition new_session_id (token_hex : str) : str := u "sess-" ++ token_hex.
Definition validate_session_id (v : str) : res unit :=
  raise_if (negb (fullmatch SESSION_ID v)) (value_error (u "session_id has an invalid format")).

(** ** Presentation *)
Definition opt_str (o : option str) : value := match o with Some s => VStr s | None => VNone end.
Definition opt_int (o : option Z) : value := match o with Some n => VInt n | None => VNone end.
(** [a or b] on optional strings *)
Definition str_or (a b : option str) : option str :=
  match a with Some (_ :: _) => a | _ => b end.

Definition profile_summary (name : str) (p : ServerProfile) : dict value :=
  [(u "name", VStr name);
   (u "display_name", VStr (display_name p));
   (u "connection_type", VStr (connection_type_value (connection_type p)));
   (u "target", opt_str (str_or (ssh_host p) (host p)));
   (u "environment", VStr (environment p));
   (u "allow_terminal", VBool (allow_terminal p));
   (u "allow_file_read", VBool (allow_file_read p));
   (u "allow_file_write", VBool (allow_file_write p));
   (u "elevation_mode", VStr (elevation_mode_value (elevation_mode p)))].

Definition profile_details (name : str) (p : ServerProfile) : dict value :=
  dmerge (profile_summary name p)
    [(u "ssh_host", opt_str (ssh_host p));
     (u "host", opt_str (host p));
     (u "port", opt_int (port p));
     (u "user", opt_str (user p));
     (u "identity_file", opt_str (identity_file p));
     (u "authentication", VStr (authentication_value (authentication p)));
     (u "allowed_roots", VList (map VStr (allowed_roots p)));
     (u "allow_root_session", VBool (allow_root_session p));
     (u "command_timeout_seconds", VInt (command_timeout_seconds p));
     (u "max_output_bytes", VInt (max_output_bytes p))].

(** ** SSH targets *)
Definition MAX_SSH_CONFIG_OUTPUT_BYTES : Z := 1048576.
Record ResolvedSshTarget := Target { target_host : str; target_port : Z; target_user : str }.

Definition check_resolved (field_name v : str) : res unit :=
  raise_if (str_eqb v [] || negb (str_eqb v (strip v)) || (255 <? len v) || has_control v)
    (config_error (u "resolved SSH " ++ field_name ++ u " is invalid")).
Definition resolved_ssh_target (h : str) (k : Z) (n : str) : res ResolvedSshTarget :=
  check_resolved (u "host") h;;
  check_resolved (u "user") n;;
  raise_if (negb ((1 <=? k) && (k <=? 65535))) (config_error (u "resolved SSH port is invalid"));;
  Ok (Target h k n).

Definition target_keys : list str := [u "hostname"; u "port"; u "user"].
(** The first value of each of the three keys *)
Definition target_line (values : dict str) (line : str) : dict str :=
  match partition_at 32 line with
  | Some (key, v) =>
      if bool_decide (key ∈ target_keys) && negb (dhas values key)
      then dset values key (strip v) else values
  | None => values
  end.
Definition target_values (stdout : str) : dict str := fold_left target_line (splitlines stdout) [].

Definition assert_some {A} (o : option A) : res A :=
  match o with Some a => Ok a | None => Err (Builtin AssertionError []) end.

(** [runner] is the OpenSSH client: the exit code and the output of [ssh -G]. *)
Definition resolve_ssh_target (runner : list str → res (Z * str)) (ssh_executable : str)
    (p : ServerProfile) : res ResolvedSshTarget :=
  match connection_type p with
  | DIRECT =>
      h ← assert_some (host p);
      k ← assert_some (port p);
      n ← assert_some (user p);
      resolved_ssh_target h k n
  | SSH_CONFIG =>
      alias ← assert_some (ssh_host p);
      completed ← runner [ssh_executable; u "-G"; u "--"; alias];
      raise_if (negb (completed.1 =? 0))
        (config_error (u "OpenSSH could not resolve the configured SSH alias"));;
      encoded ← utf8_encode completed.2;
      raise_if (MAX_SSH_CONFIG_OUTPUT_BYTES <? len encoded)
        (config_error (u "OpenSSH alias resolution output exceeded its size limit"));;
      let values := target_values completed.2 in
      match dget values (u "hostname"), dget values (u "port"), dget values (u "user") with
      | Some h, Some k, Some n =>
          match parse_int k with
          | None => Err (config_error (u "OpenSSH alias resolved to an invalid port"))
          | Some k => resolved_ssh_target h k n
          end
      | _, _, _ => Err (config_error (u "OpenSSH alias resolution omitted host, port or user"))
      end
  end.
End profiles.

(** ** Well-formedness *)
Definition root_ok (r : str) : Prop :=
  posix_is_absolute r = true ∧ u ".." ∉ posix_tail r ∧ posix_str r = r ∧ has_control r = false.

Definition connection_ok (p : ServerProfile) : Prop :=
  match connection_type p with
  | SSH_CONFIG => is_Some (ssh_host p) ∧ host p = None ∧ port p = None ∧ user p = None ∧
                  authentication p = OPENSSH
  | DIRECT => ssh_host p = None ∧ is_Some (host p) ∧ is_Some (user p) ∧
              ∃ k, port p = Some k ∧ 1 <= k <= 65535
  end.

(** What every constructed profile satisfies *)
Record profile_wf (p : ServerProfile) : Prop := {
  wf_roots : Forall root_ok (allowed_roots p);
  wf_roots_once : NoDup (allowed_roots p);
  wf_connection : connection_ok p;
  wf_identity : is_Some (identity_file p) → authentication p = OPENSSH;
  wf_write : allow_file_write p = true → allow_file_read p = true;
  wf_read : allow_file_read p = true → allowed_roots p ≠ [];
  wf_root_session : allow_root_session p = true →
                    elevation_mode p ≠ DISABLED ∧ allow_terminal p = true;
  wf_timeout : 1 <= command_timeout_seconds p <= 3600;
  wf_output : 4096 <= max_output_bytes p <= 16777216;
}.

Lemma raise_if_Ok c e x : raise_if c e = Ok x → c = false.
Proof. by destruct c. Qed.
Lemma then_Ok {A} (m : res unit) (k : res A) a : (m;; k) = Ok a → m = Ok tt ∧ k = Ok a.
Proof. intros H. apply result_bind_Ok in H as ([] & ? & ?). done. Qed.

(** Take every check that was passed out of [H : check;; ... = Ok _]. *)
Ltac passed H :=
  repeat match type of H with
         | (raise_if _ _;; _) = Ok _ =>
             let P := fresh "Hp" in apply then_Ok in H as [P H]; apply raise_if_Ok in P
         | (_;; _) = Ok _ => let P := fresh "Hp" in apply then_Ok in H as [P H]
         | raise_if _ _ = Ok _ => apply raise_if_Ok in H
         end.

(** *** Paths *)
Lemma posix_root_cases p : posix_is_absolute p = true →
  (posix_root p = u "/" ∧ ∃ s, p = 47 :: s) ∨ (posix_root p = u "//" ∧ ∃ s, p = 47 :: 47 :: s).
Proof.
  unfold posix_is_absolute. change (u "/") with [47].
  destruct p as [|c p]; [done|]. cbn [starts_with].
  intros H. rewrite andb_true_r in H. apply Z.eqb_eq in H as <-.
  destruct p as [|c p]; [by left; eauto|].
  destruct (decide (c = 47)) as [->|Hc].
  - destruct p as [|d p]; [by right; eauto|].
    destruct (decide (d = 47)) as [->|Hd]; [by left; eauto|right]. split; [|eauto]. cbn.
    destruct d as [|d|d]; try done. do 6 (destruct d as [d|d|]; try done).
  - left. split; [|eauto]. cbn.
    destruct c as [|d|d]; try done. do 6 (destruct d as [d|d|]; try done).
Qed.

Definition part_ok (w : str) : Prop := w ≠ [] ∧ w ≠ u "." ∧ lacks 47 w = true.
Lemma posix_tail_parts p : Forall part_ok (posix_tail p).
Proof.
  unfold posix_tail. pose proof (split_char_lacks 47 p) as H.
  induction H as [|w ws Hw Hws IH]; cbn; [done|].
  destruct (negb _ && negb _) eqn:E; [|done]. boolean. unfold str_eqb in *. boolean. by constructor.
Qed.

Lemma posix_tail_filter ws : Forall part_ok ws →
  List.filter (fun w => negb (str_eqb w []) && negb (str_eqb w (u "."))) ws = ws.
Proof.
  induction 1 as [|w ws (H1 & H2 & H3) Hws IH]; cbn; [done|]. unfold str_eqb in *.
  rewrite !bool_decide_eq_false_2 by done. cbn. by rewrite IH.
Qed.

Lemma join_head ws : ws ≠ [] → Forall part_ok ws →
  ∃ c s, join (u "/") ws = c :: s ∧ c ≠ 47.
Proof.
  intros Hne H. destruct ws as [|w ws]; [done|]. inversion_clear H as [|? ? (H1 & H2 & H3) _].
  destruct w as [|c w]; [done|]. cbn in H3. apply andb_true_iff in H3 as [H3 _].
  apply negb_true_iff, Z.eqb_neq in H3. exists c. destruct ws; eauto.
Qed.

Lemma join_last ws : ws ≠ [] → Forall part_ok ws →
  ∃ s c, join (u "/") ws = s ++ [c] ∧ c ≠ 47.
Proof.
  intros Hne H. induction H as [|w ws (H1 & H2 & H3) Hws IH]; [done|].
  destruct ws as [|w' ws].
  - destruct w as [|c w _] using rev_ind; [done|]. exists w, c. split; [done|].
    unfold lacks in H3. rewrite forallb_app in H3. cbn in H3. boolean. by apply Z.eqb_neq.
  - destruct IH as (s & c & Hs & Hc); [done|].
    exists (w ++ u "/" ++ s), c. split; [|done].
    change (join (u "/") (w :: w' :: ws)) with (w ++ u "/" ++ join (u "/") (w' :: ws)).
    rewrite Hs. by rewrite !app_assoc.
Qed.

(** A printed path parses to the same root and parts. *)
Lemma posix_print root ws :
  (root = u "/" ∨ root = u "//") → ws ≠ [] → Forall part_ok ws →
  posix_root (root ++ join (u "/") ws) = root ∧ posix_tail (root ++ join (u "/") ws) = ws.
Proof.
  intros Hroot Hne Hws. destruct (join_head ws Hne Hws) as (c & s & Hj & Hc).
  assert (split_char 47 (join (u "/") ws) = ws) as Hsp.
  { change (u "/") with [47]. apply split_char_join; [done|].
    eapply Forall_impl; [exact Hws|]. by intros w (_ & _ & ?). }
  split.
  - rewrite Hj. destruct Hroot as [-> | ->]; cbn;
      (destruct c as [|d|d]; try done; do 6 (destruct d as [d|d|]; try done)).
  - unfold posix_tail. destruct Hroot as [-> | ->];
      [change (u "/" ++ ?s) with (47 :: s) | change (u "//" ++ ?s) with (47 :: 47 :: s)];
      cbn [split_char Z.eqb Pos.eqb]; rewrite Hsp; cbn; by apply posix_tail_filter.
Qed.

Lemma utf8_encode_prefix a t b :
  utf8_encode (a ++ t) = Ok b → ∃ b', utf8_encode a = Ok b' ∧ len b' <= len b.
Proof.
  unfold utf8_encode. rewrite existsb_app.
  destruct (existsb surrogate a); [done|]. cbn. destruct (existsb surrogate t); [done|].
  intros [= <-]. eexists. split; [done|]. rewrite utf8_bytes_app, len_app.
  pose proof (len_nonneg (utf8_bytes t)). lia.
Qed.

Section profile_facts.
Context {U : UnicodeDB}.

Lemma has_control_app a b : has_control (a ++ b) = has_control a || has_control b.
Proof. apply existsb_app. Qed.

(** The comparison the code makes between a path and its normal form *)
Definition written_normally (v : str) : bool :=
  str_eqb (posix_str v) (rstrip (Z.eqb 47) v) || (str_eqb (posix_str v) (u "/") && str_eqb v (u "/")).

(** Without any part, only a single slash passes. *)
Lemma normal_root_slash v :
  posix_is_absolute v = true → posix_tail v = [] → written_normally v = true → posix_str v = u "/".
Proof.
  intros Habs Ht Hc. pose proof (posix_root_cases v Habs) as Hroot.
  assert (posix_str v = posix_root v) as Hs.
  { unfold posix_str. rewrite Ht. destruct Hroot as [[-> _]|[-> _]]; reflexivity. }
  unfold written_normally, str_eqb in Hc. apply orb_true_iff in Hc as [Hc|Hc]; boolean; [|done].
  rewrite Hs in Hc. destruct (rstrip_end (Z.eqb 47) v) as [E|(t & c & E & Hne)]; rewrite E in Hc.
  - destruct Hroot as [[E' _]|[E' _]]; rewrite E' in Hc; discriminate.
  - destruct Hroot as [[E' _]|[E' _]]; rewrite E' in Hc;
      [change (u "/") with ([] ++ [47]) in Hc | change (u "//") with ([47] ++ [47]) in Hc];
      apply app_inj_tail in Hc as [_ <-]; discriminate.
Qed.

(** With parts, the normal form is the path less its trailing slashes, and
    printing and parsing it changes nothing. *)
Lemma normal_root_parts v :
  posix_is_absolute v = true → posix_tail v ≠ [] → written_normally v = true →
  (∃ t, v = posix_str v ++ t) ∧ posix_is_absolute (posix_str v) = true ∧
  posix_tail (posix_str v) = posix_tail v ∧ posix_str (posix_str v) = posix_str v ∧
  rstrip (Z.eqb 47) (posix_str v) = posix_str v.
Proof.
  intros Habs Ht Hc. pose proof (posix_tail_parts v) as Hparts.
  assert (∃ root, posix_root v = root ∧ (root = u "/" ∨ root = u "//")) as (root & Hr & Hrr)
    by (destruct (posix_root_cases v Habs) as [[-> _]|[-> _]]; eauto).
  assert (∀ p, posix_root p = root → posix_str p = root ++ join (u "/") (posix_tail p)) as Hstr.
  { intros p Hp. unfold posix_str. rewrite Hp. by destruct Hrr as [-> | ->]. }
  pose proof (Hstr v Hr) as Hs.
  destruct (posix_print root (posix_tail v) Hrr Ht Hparts) as [Hpr Hpt]. rewrite <- Hs in Hpr, Hpt.
  destruct (join_last (posix_tail v) Ht Hparts) as (s & c & Hlast & Hcc).
  split_and!; [| |done| |].
  - destruct (rstrip_prefix (Z.eqb 47) v) as (t & Hv & _). exists t.
    unfold written_normally, str_eqb in Hc. apply orb_true_iff in Hc as [Hc|Hc]; boolean; [by rewrite Hc|].
    subst v. by destruct Ht.
  - rewrite Hs. by destruct Hrr as [-> | ->].
  - by rewrite (Hstr _ Hpr), Hpt, Hs.
  - rewrite Hs, Hlast, app_assoc. apply rstrip_last. by apply Z.eqb_neq.
Qed.

(** A normal form is a well-formed root, and normalising it again changes
    nothing. *)
Lemma normalize_root_spec v r : normalize_root v = Ok r → root_ok r ∧ normalize_root r = Ok r.
Proof.
  unfold normalize_root at 1. intros H. apply result_bind_Ok in H as (b & Hb & H).
  passed H. injection H as <-. boolean.
  assert (written_normally v = true) as Hn.
  { unfold written_normally. apply negb_false_iff. by rewrite negb_orb, Hp1. }
  destruct (decide (posix_tail v = [])) as [Ht|Ht].
  { rewrite (normal_root_slash v) by done. split; [|reflexivity].
    unfold root_ok. split_and!; try reflexivity.
    change (posix_tail (u "/")) with (@nil str). set_solver. }
  destruct (normal_root_parts v) as ((t & Hv) & Habs & Hpt & Hidem & Hrs); [done..|].
  assert (has_control (posix_str v) = false) as Hctl.
  { match goal with H : has_control v = false |- _ => rewrite Hv, has_control_app in H end. by boolean. }
  rewrite <- Hpt in *. split; [done|].
  rewrite Hv in Hb. apply utf8_encode_prefix in Hb as (b' & Hb' & Hl).
  unfold normalize_root. rewrite Hb'. cbn.
  rewrite (proj2 (Z.ltb_ge 4096 (len b')) ltac:(lia)), Hctl, Habs. cbn.
  rewrite bool_decide_eq_false_2 by done. cbn. rewrite Hidem, Hrs. unfold str_eqb.
  by rewrite bool_decide_eq_true_2.
Qed.

Lemma normalize_roots_spec roots acc out :
  normalize_roots roots acc = Ok out →
  Forall (fun r => normalize_root r = Ok r) acc → NoDup acc →
  Forall (fun r => normalize_root r = Ok r) out ∧ NoDup out.
Proof.
  revert acc. induction roots as [|v roots IH]; intros acc; cbn; [by intros [= <-]|].
  intros H Hf Hnd. apply result_bind_Ok in H as (r & Hr & H).
  apply normalize_root_spec in Hr as [_ Hr]. eapply IH; [exact H| |]; case_bool_decide; try done.
  - apply Forall_app; auto.
  - apply NoDup_app. split_and!; [done|set_solver|apply NoDup_singleton].
Qed.

Lemma normalize_roots_id roots acc :
  Forall (fun r => normalize_root r = Ok r) roots → NoDup (acc ++ roots) →
  normalize_roots roots acc = Ok (acc ++ roots).
Proof.
  revert acc. induction roots as [|r roots IH]; intros acc Hf Hnd; cbn; [by rewrite app_nil_r|].
  inversion_clear Hf as [|? ? Hr Hf']. rewrite Hr. cbn.
  rewrite bool_decide_eq_false_2.
  - rewrite IH; [by rewrite <- app_assoc|done|by rewrite <- app_assoc].
  - apply NoDup_app in Hnd as (_ & Hd & _). intros Hin. apply (Hd r Hin). set_solver.
Qed.

Lemma normalize_allowed_roots_idem roots out :
  normalize_allowed_roots roots = Ok out →
  normalize_allowed_roots out = Ok out ∧ Forall root_ok out ∧ NoDup out.
Proof.
  intros H. apply normalize_roots_spec in H as [Hf Hnd]; [|done|constructor].
  split_and!; [by apply normalize_roots_id| |done].
  eapply Forall_impl; [exact Hf|]. intros r Hr. by apply normalize_root_spec in Hr as [? _].
Qed.

Lemma is_some_false {A} (o : option A) : is_some o = false → o = None.
Proof. by destruct o. Qed.

Lemma check_connection_ok p : check_connection p = Ok tt → connection_ok p.
Proof.
  unfold check_connection, connection_ok. destruct (connection_type p).
  - destruct (ssh_host p); [|done]. intros H. passed H. boolean.
    repeat match goal with E : is_some _ = false |- _ => apply is_some_false in E end.
    split_and!; done.
  - intros H. passed H. apply is_some_false in Hp.
    destruct (host p), (user p), (port p) as [k|]; try done. passed H. boolean.
    split_and!; try done. exists k. split; [done|lia].
Qed.

Lemma check_identity_ok p : check_identity p = Ok tt → is_Some (identity_file p) → authentication p = OPENSSH.
Proof. unfold check_identity. destruct (identity_file p); [|by intros _ [? ?]]. intros H _. passed H. by boolean. Qed.

Lemma server_profile_wf p q : server_profile p = Ok q → profile_wf q.
Proof.
  unfold server_profile. intros H. passed H.
  apply result_bind_Ok in H as (roots & Hroots & H). passed H. injection H as <-.
  apply normalize_allowed_roots_idem in Hroots as (Hidem & Hok & Hnd).
  pose proof Hp3 as Hperm. unfold check_permissions in Hperm. passed Hperm. boolean.
  constructor; cbn in *.
  - exact Hok.
  - exact Hnd.
  - by apply check_connection_ok.
  - apply (check_identity_ok (set_allowed_roots p roots)). done.
  - intros Hw. rewrite Hw in *. by destruct (allow_file_read p).
  - intros Hr. rewrite Hr in *. cbn in *. by boolean.
  - intros Hr. rewrite Hr in *. cbn in *. boolean. done.
  - lia.
  - lia.
Qed.

Lemma server_profile_idem p q : server_profile p = Ok q → server_profile q = Ok q.
Proof.
  unfold server_profile at 1. intros H. passed H.
  apply result_bind_Ok in H as (roots & Hroots & H).
  pose proof H as Hchecks. passed H. injection H as <-.
  apply normalize_allowed_roots_idem in Hroots as (Hidem & Hok & Hnd).
  unfold server_profile. cbn [display_name environment set_allowed_roots allowed_roots].
  rewrite Hp, Hp0. cbn. rewrite Hidem. cbn. exact Hchecks.
Qed.

(** C35: A profile that was constructed satisfies the policy of the
    model: the roots are distinct normalised absolute paths without [..], the
    connection fields fit the connection type, writing implies reading,
    reading implies a root, a root session implies an elevation mode and
    terminal access, and the limits are in range.  Constructing it again from
    its own fields gives the same profile. *)
Theorem profile_invariant p q :
  server_profile p = Ok q → profile_wf q ∧ server_profile q = Ok q.
Proof. intros H. split; [by eapply server_profile_wf | by eapply server_profile_idem]. Qed.
End profile_facts.

(** A direct profile used as a concrete input *)
Definition sample_profile : ServerProfile :=
  Profile (u "Web server") DIRECT OPENSSH None (Some (u "web.example.org")) (Some 22) (Some (u "deploy"))
    None [u "/srv/www/"; u "/var/log"; u "/srv/www"] true true true NON_INTERACTIVE true
    (u "production") 60 2097152.

Lemma profile_invariant_witness :
  ∃ q, server_profile (U := ascii_db) sample_profile = Ok q ∧
       allowed_roots q = [u "/srv/www"; u "/var/log"] ∧ profile_wf q ∧
       server_profile (U := ascii_db) q = Ok q.
Proof.
  exists (set_allowed_roots sample_profile [u "/srv/www"; u "/var/log"]).
  assert (server_profile (U := ascii_db) sample_profile =
          Ok (set_allowed_roots sample_profile [u "/srv/www"; u "/var/log"])) as H
    by (vm_compute; reflexivity).
  split; [exact H|]. split; [reflexivity|]. exact (profile_invariant (U := ascii_db) _ _ H).
Defined.

(** *** Configurations as finite maps *)
Section config_facts.
Context {U : UnicodeDB}.

Definition name_ok (name : str) : Prop := fullmatch PROFILE_NAME name = true.
Record config_wf (c : ServerOpsConfig) : Prop := {
  wf_names : Forall name_ok (dkeys (profiles c));
  wf_unique : dwf (profiles c);
  wf_version : schema_version c = CONFIG_SCHEMA_VERSION;
}.

Lemma validate_profile_name_Ok name : validate_profile_name name = Ok tt ↔ name_ok name.
Proof. unfold validate_profile_name, raise_if, name_ok. by destruct (fullmatch PROFILE_NAME name). Qed.

Lemma validate_names_Ok d : validate_names d = Ok tt ↔ Forall name_ok (dkeys d).
Proof.
  induction d as [|[n p] d IH]; cbn; [by split|]. rewrite Forall_cons, <- IH, <- validate_profile_name_Ok.
  split; [intros H; by apply then_Ok in H|]. intros [-> ->]. done.
Qed.

Lemma server_ops_config_Ok d : Forall name_ok (dkeys d) →
  server_ops_config d CONFIG_SCHEMA_VERSION = Ok (Config d CONFIG_SCHEMA_VERSION).
Proof. intros H. unfold server_ops_config. apply validate_names_Ok in H. by rewrite H. Qed.

Lemma dkeys_dset_Forall {A} P (d : dict A) k v : P k → Forall P (dkeys d) → Forall P (dkeys (dset d k v)).
Proof. rewrite !Forall_forall. intros Hk Hd x. rewrite dkeys_dset. intros [->|]; auto. Qed.
Lemma dkeys_ddel_Forall {A} P (d : dict A) k : Forall P (dkeys d) → Forall P (dkeys (ddel d k)).
Proof. rewrite !Forall_forall. intros Hd x Hx. by apply Hd, (dkeys_ddel _ k). Qed.

(** A configuration is a finite map from valid names to
    profiles: adding a profile under a valid name succeeds and changes exactly
    that entry, removing one succeeds exactly for a name that is present and
    deletes exactly that entry, and both keep the configuration well formed. *)
Theorem config_updates c name p :
  config_wf c →
  (name_ok name → ∃ c', with_profile c name p = Ok c' ∧ config_wf c' ∧
     ∀ k, dget (profiles c') k = if decide (k = name) then Some p else dget (profiles c) k) ∧
  (∀ c', without_profile c name = Ok c' → config_wf c' ∧ is_Some (dget (profiles c) name) ∧
     ∀ k, dget (profiles c') k = if decide (k = name) then None else dget (profiles c) k) ∧
  (is_Some (dget (profiles c) name) → is_ok (without_profile c name)).
Proof.
  intros [Hn Hu Hv]. split_and!.
  - intros Hname. exists (Config (dset (profiles c) name p) CONFIG_SCHEMA_VERSION).
    unfold with_profile. rewrite (proj2 (validate_profile_name_Ok name) Hname). split_and!.
    + cbn. apply server_ops_config_Ok. by apply dkeys_dset_Forall.
    + constructor; cbn; [by apply dkeys_dset_Forall | by apply dwf_dset | done].
    + intros k. cbn. case_decide; [subst; apply dget_dset_eq | by apply dget_dset_ne].
  - intros c' H. unfold without_profile in H. passed H.
    unfold dhas in Hp0. apply negb_false_iff, bool_decide_eq_true in Hp0.
    rewrite server_ops_config_Ok in H by (by apply dkeys_ddel_Forall). injection H as <-. split_and!.
    + constructor; cbn; [by apply dkeys_ddel_Forall | by apply dwf_ddel | done].
    + destruct (dget (profiles c) name) eqn:E; [by eexists|]. by apply dget_None in E.
    + intros k. cbn. case_decide; [subst; by apply dget_ddel_eq | by apply dget_ddel_ne].
  - intros [q Hq]. apply dget_Some_key in Hq. unfold without_profile.
    rewrite Forall_forall in Hn. rewrite (proj2 (validate_profile_name_Ok name) (Hn _ Hq)).
    unfold dhas. rewrite bool_decide_eq_true_2 by done.
    rewrite server_ops_config_Ok; [done|]. apply dkeys_ddel_Forall. by apply Forall_forall.
Qed.

(** *** SSH targets *)
(** The first line of the output for a key, and what follows its space *)
Definition first_value (key : str) (stdout : str) : option str :=
  match List.find (fun l => starts_with (key ++ u " ") l) (splitlines stdout) with
  | Some l => Some (strip (drop (S (length key)) l))
  | None => None
  end.

Lemma partition_at_lacks c s a b : partition_at c s = Some (a, b) → s = a ++ c :: b ∧ lacks c a = true.
Proof.
  revert a b. induction s as [|x s IH]; intros a b; cbn; [done|].
  destruct (Z.eqb_spec x c) as [->|Hx]; [by intros [= <- <-]|].
  destruct (partition_at c s) as [[a' b']|]; [|done]. intros [= <- <-].
  destruct (IH a' b' eq_refl) as [-> Hl]. cbn. split; [done|].
  by rewrite (proj2 (Z.eqb_neq x c) Hx).
Qed.
Lemma partition_at_word c a b : lacks c a = true → partition_at c (a ++ c :: b) = Some (a, b).
Proof.
  induction a as [|x a IH]; cbn; [by rewrite Z.eqb_refl|].
  intros [Hx Ha]%andb_true_iff. apply negb_true_iff in Hx. by rewrite Hx, IH.
Qed.
Lemma partition_at_key key line : lacks 32 key = true →
  starts_with (key ++ u " ") line = true ↔
  ∃ v, partition_at 32 line = Some (key, v) ∧ v = drop (S (length key)) line.
Proof.
  intros Hk. rewrite starts_with_spec. change (u " ") with [32]. split.
  - intros [t ->]. rewrite <- app_assoc. cbn [app]. rewrite partition_at_word by done. exists t. split; [done|].
    rewrite drop_app_ge by lia. replace (S (length key) - length key)%nat with 1%nat by lia. done.
  - intros (v & H & _). apply partition_at_lacks in H as [-> _]. exists v. by rewrite <- app_assoc.
Qed.

Lemma target_lines_first key lines values :
  key ∈ target_keys →
  dget (fold_left target_line lines values) key =
  match dget values key with
  | Some v => Some v
  | None => match List.find (fun l => starts_with (key ++ u " ") l) lines with
            | Some l => Some (strip (drop (S (length key)) l))
            | None => None
            end
  end.
Proof.
  intros Hkey. assert (lacks 32 key = true) as Hl.
  { unfold target_keys in Hkey. rewrite !elem_of_cons in Hkey.
    destruct Hkey as [->|[->|[->|Hkey]]]; [reflexivity..|]. by apply elem_of_nil in Hkey. }
  revert values. induction lines as [|l lines IH]; intros values; cbn; [by destruct (dget values key)|].
  rewrite IH. clear IH. unfold target_line.
  destruct (starts_with (key ++ u " ") l) eqn:Hs.
  - apply partition_at_key in Hs as (v & Hp & ->); [|done]. rewrite Hp.
    rewrite bool_decide_eq_true_2 by done. cbn. unfold dhas.
    case_bool_decide as Hin; cbn.
    + destruct (dget values key) eqn:E; [done|]. by apply dget_None in E.
    + rewrite dget_dset_eq. by rewrite (proj2 (dget_None values key) Hin).
  - destruct (partition_at 32 l) as [[k v]|] eqn:Hp; [|done].
    destruct (_ && _); [|done]. rewrite dget_dset_ne; [done|]. intros ->.
    assert (starts_with (key ++ u " ") l = true); [|congruence].
    apply partition_at_key; [done|]. exists v. split; [done|].
    apply partition_at_lacks in Hp as [-> _]. rewrite drop_app_ge by lia.
    replace (S (length key) - length key)%nat with 1%nat by lia. done.
Qed.

Lemma target_values_first key stdout :
  key ∈ target_keys → dget (target_values stdout) key = first_value key stdout.
Proof. intros H. unfold target_values. by rewrite target_lines_first. Qed.

(** A resolved target is the profile's own host, port and user
    for a direct profile; for an alias it is the first hostname, port and user
    the OpenSSH client reports, after it succeeded.  Either way neither name
    is empty or holds a control character, and the port is in range. *)
Theorem resolved_target runner exe p t :
  resolve_ssh_target runner exe p = Ok t →
  target_host t ≠ [] ∧ target_user t ≠ [] ∧
  has_control (target_host t) = false ∧ has_control (target_user t) = false ∧
  1 <= target_port t <= 65535 ∧
  match connection_type p with
  | DIRECT => host p = Some (target_host t) ∧ port p = Some (target_port t) ∧
              user p = Some (target_user t)
  | SSH_CONFIG => ∃ alias out k,
      ssh_host p = Some alias ∧ runner [exe; u "-G"; u "--"; alias] = Ok (0, out) ∧
      first_value (u "hostname") out = Some (target_host t) ∧
      first_value (u "user") out = Some (target_user t) ∧
      first_value (u "port") out = Some k ∧ parse_int k = Some (target_port t)
  end.
Proof.
  assert (∀ h k n t, resolved_ssh_target h k n = Ok t →
    t = Target h k n ∧ h ≠ [] ∧ n ≠ [] ∧ has_control h = false ∧ has_control n = false ∧
    1 <= k <= 65535) as Hmk.
  { intros h k n t' H. unfold resolved_ssh_target, check_resolved in H. passed H. injection H as <-.
    unfold str_eqb in *. boolean. split_and!; try done; lia. }
  unfold resolve_ssh_target. destruct (connection_type p).
  - intros H. apply result_bind_Ok in H as (alias & Ha & H).
    apply result_bind_Ok in H as ([rc out] & Hr & H). passed H.
    apply result_bind_Ok in H as (enc & _ & H). passed H. cbn [fst snd] in *. boolean. apply Z.eqb_eq in Hp as ->.
    rewrite !target_values_first in H by (unfold target_keys; set_solver).
    repeat match type of H with context [match first_value ?k ?l with _ => _ end] =>
      destruct (first_value k l) eqn:?; [|done] end.
    destruct (parse_int _) eqn:Hk; [|done].
    apply Hmk in H as (-> & Hrest). cbn [target_host target_user target_port].
    split_and!; try tauto. unfold assert_some in Ha. destruct (ssh_host p); [|done]. injection Ha as ->.
    eexists _, _, _. split_and!; done.
  - intros H. unfold assert_some in H. destruct (host p), (port p), (user p); try done.
    apply Hmk in H as (-> & Hrest). cbn. tauto.
Qed.
End config_facts.

Definition sample_config : ServerOpsConfig := Config [(u "web", sample_profile)] CONFIG_SCHEMA_VERSION.
Lemma config_updates_witness :
  config_wf (U := ascii_db) sample_config ∧
  (∃ c', with_profile (U := ascii_db) sample_config (u "db.1") sample_profile = Ok c' ∧
         dget (profiles c') (u "db.1") = Some sample_profile ∧
         dget (profiles c') (u "web") = Some sample_profile).
Proof.
  assert (config_wf (U := ascii_db) sample_config) as Hwf.
  { constructor; [|apply (dwf_dset [] (u "web") sample_profile), dwf_nil|done].
    constructor; [|constructor]. vm_compute. reflexivity. }
  split; [exact Hwf|].
  destruct (proj1 (config_updates (U := ascii_db) sample_config (u "db.1") sample_profile Hwf))
    as (c' & Hc & _ & Hget); [vm_compute; reflexivity|].
  exists c'. rewrite !Hget. split_and!; [exact Hc|reflexivity|reflexivity].
Defined.

Definition sample_runner (_ : list str) : res (Z * str) :=
  Ok (0, u "user deploy" ++ nl ++ u "hostname 10.0.0.7" ++ nl ++ u "port 2222" ++ nl ++ u "port 1").
Lemma resolved_target_witness :
  let p := Profile (u "alias") SSH_CONFIG OPENSSH (Some (u "prod")) None None None None [] true false
             false DISABLED false (u "test") 60 4096 in
  resolve_ssh_target sample_runner (u "ssh.exe") p = Ok (Target (u "10.0.0.7") 2222 (u "deploy")) ∧
  1 <= 2222 <= 65535.
Proof.
  intros p.
  assert (resolve_ssh_target sample_runner (u "ssh.exe") p =
          Ok (Target (u "10.0.0.7") 2222 (u "deploy"))) as H by (vm_compute; reflexivity).
  split; [exact H|].
  exact (proj1 (proj2 (proj2 (proj2 (proj2
    (resolved_target sample_runner (u "ssh.exe") p _ H)))))).
Defined.
