(* ===== verification/Codec.v ===== *)
(** * Codec: configurations as TOML text (config/codec.py)

    Decoding migrates old documents, refuses secrets and unknown fields, and
    builds every profile through its constructor; encoding prints the profiles
    in name order.  The TOML reader is the standard library's [tomllib]: an
    interface with the two facts about TOML the development needs, which the
    reader of the printed fragment at the end of the file satisfies. *)
From S2P Require Import Prelude Errors Text TextFacts Regex Value Json ConfigModel.

(** ** TOML *)
(** [tomllib.loads]: the document, or the message of [TOMLDecodeError] *)
Class TomlReader := toml_loads : str → result str (dict value).

(** The documents the program writes: keys of the root table, then tables
    [[profiles."name"]] of scalar and text-array values. *)
Inductive toml_value :=
  | TStr (s : str)
  | TBool (b : bool)
  | TInt (n : Z)
  | TTexts (l : list str).
Record toml_document := TomlDocument {
  toml_root : dict toml_value;
  toml_tables : dict (dict toml_value);
}.

Definition toml_value_text (v : toml_value) : str :=
  match v with
  | TStr s => json_string s
  | TBool b => if b then u "true" else u "false"
  | TInt n => show_int n
  | TTexts l => u "[" ++ join (u ", ") (map json_string l) ++ u "]"
  end.
Definition toml_line (kv : str * toml_value) : str := kv.1 ++ u " = " ++ toml_value_text kv.2.
Definition toml_table_lines (t : str * dict toml_value) : list str :=
  [[]; u "[profiles." ++ json_string t.1 ++ u "]"] ++ map toml_line t.2.
Definition toml_text (d : toml_document) : str :=
  join nl (map toml_line (toml_root d) ++ concat (map toml_table_lines (toml_tables d))) ++ nl.

(** What such a document denotes *)
Definition toml_denote (v : toml_value) : value :=
  match v with
  | TStr s => VStr s
  | TBool b => VBool b
  | TInt n => VInt n
  | TTexts l => VList (map VStr l)
  end.
Definition denote_table (t : dict toml_value) : dict value := map (prod_map id toml_denote) t.
Definition toml_denote_document (d : toml_document) : dict value :=
  denote_table (toml_root d) ++
  match toml_tables d with
  | [] => []
  | ts => [(u "profiles", VDict (map (prod_map id (fun t => VDict (denote_table t))) ts))]
  end.

(** Texts TOML can hold in a basic string: no delete character *)
Definition toml_char (c : Z) : Prop := 0 <= c < 1114112 ∧ c ≠ 127.
Definition toml_str_ok (s : str) : Prop := Forall toml_char s.
Definition toml_value_ok (v : toml_value) : Prop :=
  match v with
  | TStr s => toml_str_ok s
  | TBool _ => True
  | TInt n => Z.abs n < 2 ^ 63
  | TTexts l => Forall toml_str_ok l
  end.
Definition bare_char (c : Z) : bool := ascii_alnum c || (c =? 95) || (c =? 45).
Definition bare_key (k : str) : Prop := k ≠ [] ∧ forallb bare_char k = true.
Definition toml_table_ok (t : dict toml_value) : Prop :=
  dwf t ∧ Forall (fun kv => bare_key kv.1 ∧ toml_value_ok kv.2) t.
Definition toml_document_ok (d : toml_document) : Prop :=
  toml_table_ok (toml_root d) ∧ u "profiles" ∉ dkeys (toml_root d) ∧ dwf (toml_tables d) ∧
  Forall (fun t => toml_str_ok t.1 ∧ toml_table_ok t.2) (toml_tables d).

Class TomlLaws (T : TomlReader) : Prop := {
  (** documents of this shape read back to what they denote *)
  toml_loads_document : ∀ d, toml_document_ok d → toml_loads (toml_text d) = Ok (toml_denote_document d);
  (** TOML forbids the delete character everywhere *)
  toml_loads_delete : ∀ t, 127 ∈ t → ∃ m, toml_loads t = Err m;
}.

(** ** Decoding *)
Definition FORBIDDEN_SECRET_FIELDS : list str :=
  [u "password"; u "sudo_password"; u "key_passphrase"; u "private_key_content"].
Definition PROFILE_FIELDS : list str :=
  [u "display_name"; u "connection_type"; u "authentication"; u "ssh_host"; u "host"; u "port";
   u "user"; u "identity_file"; u "allowed_roots"; u "allow_terminal"; u "allow_file_read";
   u "allow_file_write"; u "elevation_mode"; u "allow_root_session"; u "environment";
   u "command_timeout_seconds"; u "max_output_bytes"].

Definition expect_string (raw : dict value) (name : str) (required : bool) : res (option str) :=
  match vget raw name with
  | VNone => if required then Err (config_error (name ++ u " must be a string")) else Ok None
  | VStr s => Ok (Some s)
  | _ => Err (config_error (name ++ u " must be a string"))
  end.
Definition expect_bool (raw : dict value) (name : str) (default : bool) : res bool :=
  match get_or (VBool default) raw name with
  | VBool b => Ok b
  | _ => Err (config_error (name ++ u " must be true or false"))
  end.
Definition expect_int (raw : dict value) (name : str) (default : option Z) : res (option Z) :=
  match get_or (opt_int default) raw name with
  | VNone => Ok None
  | VInt n => Ok (Some n)
  | _ => Err (config_error (name ++ u " must be an integer"))
  end.
(** [enum_type(value)]: the member with that value *)
Definition expect_enum {E} (members : list (str * E)) (v : value) (name : str) : res E :=
  match v with
  | VStr s =>
      match dget members s with
      | Some e => Ok e
      | None => Err (config_error (name ++ u " must be one of: " ++ join (u ", ") (map fst members)))
      end
  | _ => Err (config_error (name ++ u " must be a string"))
  end.
Definition connection_types : list (str * ConnectionType) :=
  map (fun c => (connection_type_value c, c)) [SSH_CONFIG; DIRECT].
Definition authentications : list (str * Authentication) :=
  map (fun a => (authentication_value a, a)) [OPENSSH; INTERACTIVE_PASSWORD].
Definition elevation_modes : list (str * ElevationMode) :=
  map (fun m => (elevation_mode_value m, m)) [DISABLED; NON_INTERACTIVE; INTERACTIVE].

Definition config_version_error (m : str) : exn := controlled ConfigVersionError m.

(** One profile of a version 0 document: [sudo_mode] becomes [elevation_mode]. *)
Definition migrate_profile (v : value) : res value :=
  match v with
  | VDict d =>
      match dget d (u "sudo_mode") with
      | Some mode =>
          if dhas d (u "elevation_mode")
          then Err (config_error (u "legacy sudo_mode conflicts with elevation_mode"))
          else Ok (VDict (dset (ddel d (u "sudo_mode")) (u "elevation_mode") mode))
      | None => Ok v
      end
  | _ => Err (config_error (u "every profile must be a table"))
  end.
Fixpoint migrate_profiles (d : dict value) : res (dict value) :=
  match d with
  | [] => Ok []
  | (name, v) :: d => v' ← migrate_profile v; d' ← migrate_profiles d; Ok ((name, v') :: d')
  end.
Definition migrate (raw : dict value) : res (dict value * bool) :=
  match get_or (VInt 0) raw (u "schema_version") with
  | VInt version =>
      if CONFIG_SCHEMA_VERSION <? version
      then Err (config_version_error (u "config schema " ++ show_int version
             ++ u " is newer than supported schema " ++ show_int CONFIG_SCHEMA_VERSION))
      else if version <? 0
      then Err (config_version_error (u "config schema version cannot be negative"))
      else if version =? 0 then
        match get_or (VDict []) raw (u "profiles") with
        | VDict d =>
            d' ← migrate_profiles d;
            let document := if dhas raw (u "profiles") then dset raw (u "profiles") (VDict d') else raw in
            Ok (dset document (u "schema_version") (VInt 1), true)
        | _ => Err (config_error (u "profiles must be a table"))
        end
      else if negb (version =? CONFIG_SCHEMA_VERSION)
      then Err (config_version_error (u "no migration path exists for config schema "
                                      ++ show_int version))
      else Ok (raw, false)
  | _ => Err (config_error (u "schema_version must be an integer"))
  end.

Fixpoint all_strs (l : list value) : option (list str) :=
  match l with
  | [] => Some []
  | VStr s :: l => match all_strs l with Some ss => Some (s :: ss) | None => None end
  | _ => None
  end.
(** [", ".join(sorted(set))]: the keys of [raw] that [p] selects *)
Definition listed (p : str → bool) (raw : dict value) : str :=
  join (u ", ") (sort_strs (List.filter p (dkeys raw))).

Section codec.
Context {U : UnicodeDB} {T : TomlReader}.

Definition parse_profile (name : str) (raw_value : value) : res ServerProfile :=
  match raw_value with
  | VDict raw =>
      let forbidden k := bool_decide (k ∈ FORBIDDEN_SECRET_FIELDS) in
      raise_if (existsb forbidden (dkeys raw))
        (config_error (u "profile " ++ py_repr name ++ u " contains forbidden secret fields: "
                       ++ listed forbidden raw));;
      let unknown k := negb (bool_decide (k ∈ PROFILE_FIELDS)) in
      raise_if (existsb unknown (dkeys raw))
        (config_error (u "profile " ++ py_repr name ++ u " contains unknown fields: "
                       ++ listed unknown raw));;
      roots ← match get_or (VList []) raw (u "allowed_roots") with
              | VList l => match all_strs l with
                           | Some ss => Ok ss
                           | None => Err (config_error (u "allowed_roots must be an array of strings"))
                           end
              | _ => Err (config_error (u "allowed_roots must be an array of strings"))
              end;
      connection ← expect_enum connection_types (vget raw (u "connection_type")) (u "connection_type");
      auth ← expect_enum authentications (vget raw (u "authentication")) (u "authentication");
      mode ← expect_enum elevation_modes
               (get_or (VStr (elevation_mode_value DISABLED)) raw (u "elevation_mode"))
               (u "elevation_mode");
      shown ← expect_string raw (u "display_name") true;
      alias ← expect_string raw (u "ssh_host") false;
      target ← expect_string raw (u "host") false;
      number ← expect_int raw (u "port") None;
      account ← expect_string raw (u "user") false;
      key_file ← expect_string raw (u "identity_file") false;
      terminal ← expect_bool raw (u "allow_terminal") true;
      can_read ← expect_bool raw (u "allow_file_read") false;
      can_write ← expect_bool raw (u "allow_file_write") false;
      root_session ← expect_bool raw (u "allow_root_session") false;
      env ← expect_string raw (u "environment") false;
      timeout ← expect_int raw (u "command_timeout_seconds") (Some 60);
      output ← expect_int raw (u "max_output_bytes") (Some 2097152);
      server_profile
        (Profile (default [] shown) connection auth alias target number account key_file roots
           terminal can_read can_write mode root_session
           (match env with Some (c :: s) => c :: s | _ => u "unspecified" end)
           (default 0 timeout) (default 0 output))
  | _ => Err (config_error (u "profile " ++ py_repr name ++ u " must be a table"))
  end.

Fixpoint parse_profiles (d : dict value) : res (dict ServerProfile) :=
  match d with
  | [] => Ok []
  | (name, raw) :: d => p ← parse_profile name raw; ps ← parse_profiles d; Ok ((name, p) :: ps)
  end.

Definition ROOT_FIELDS : list str := [u "schema_version"; u "profiles"].
Definition decode_config (text : str) : res (ServerOpsConfig * bool) :=
  match toml_loads text with
  | Err m => Err (config_error (u "invalid TOML: " ++ m))
  | Ok parsed =>
      documented ← migrate parsed;
      let '(document, migrated) := documented in
      let unknown k := negb (bool_decide (k ∈ ROOT_FIELDS)) in
      raise_if (existsb unknown (dkeys document))
        (config_error (u "config contains unknown top-level fields: " ++ listed unknown document));;
      match get_or (VDict []) document (u "profiles") with
      | VDict raw =>
          parsed_profiles ← parse_profiles raw;
          config ← server_ops_config parsed_profiles CONFIG_SCHEMA_VERSION;
          Ok (config, migrated)
      | _ => Err (config_error (u "profiles must be a table"))
      end
  end.
End codec.

(** ** Encoding *)
Definition toml_str (s : str) : toml_value := TStr s.
Definition profile_fields (p : ServerProfile) : list (str * option toml_value) :=
  [(u "display_name", Some (TStr (display_name p)));
   (u "connection_type", Some (TStr (connection_type_value (connection_type p))));
   (u "authentication", Some (TStr (authentication_value (authentication p))));
   (u "ssh_host", TStr <$> ssh_host p);
   (u "host", TStr <$> host p);
   (u "port", TInt <$> port p);
   (u "user", TStr <$> user p);
   (u "identity_file", TStr <$> identity_file p);
   (u "allowed_roots", Some (TTexts (allowed_roots p)));
   (u "allow_terminal", Some (TBool (allow_terminal p)));
   (u "allow_file_read", Some (TBool (allow_file_read p)));
   (u "allow_file_write", Some (TBool (allow_file_write p)));
   (u "elevation_mode", Some (TStr (elevation_mode_value (elevation_mode p))));
   (u "allow_root_session", Some (TBool (allow_root_session p)));
   (u "environment", Some (TStr (environment p)));
   (u "command_timeout_seconds", Some (TInt (command_timeout_seconds p)));
   (u "max_output_bytes", Some (TInt (max_output_bytes p)))].
(** The fields that are not [None] *)
Fixpoint present (fields : list (str * option toml_value)) : dict toml_value :=
  match fields with
  | [] => []
  | (k, Some v) :: fields => (k, v) :: present fields
  | (_, None) :: fields => present fields
  end.
Definition profile_lines (np : str * ServerProfile) : list str :=
  [[]; u "[profiles." ++ json_string np.1 ++ u "]"] ++ map toml_line (present (profile_fields np.2)).
Definition encode_config (c : ServerOpsConfig) : str :=
  join nl ([u "schema_version = " ++ show_int CONFIG_SCHEMA_VERSION]
           ++ concat (map profile_lines (sort_by fst (profiles c)))) ++ nl.

(** ** What is written is a document *)
Definition profile_table (p : ServerProfile) : dict toml_value := present (profile_fields p).
Definition config_document (c : ServerOpsConfig) : toml_document :=
  TomlDocument [(u "schema_version", TInt CONFIG_SCHEMA_VERSION)]
    (map (prod_map id profile_table) (sort_by fst (profiles c))).

Lemma encode_config_text c : encode_config c = toml_text (config_document c).
Proof.
  unfold encode_config, toml_text. cbn [config_document toml_root toml_tables].
  do 2 f_equal. f_equal. f_equal. rewrite map_map. apply map_ext. by intros [n p].
Qed.

(** The texts a profile holds *)
Definition opt_list {A} (o : option A) : list A := match o with Some a => [a] | None => [] end.
Definition profile_texts (p : ServerProfile) : list str :=
  [display_name p; environment p] ++ opt_list (ssh_host p) ++ opt_list (host p) ++ opt_list (user p)
  ++ opt_list (identity_file p) ++ allowed_roots p.
Definition printable_profile (p : ServerProfile) : Prop := Forall toml_str_ok (profile_texts p).

Lemma field_names_nodup : NoDup PROFILE_FIELDS.
Proof. apply (bool_decide_unpack _). vm_compute. exact I. Qed.

Lemma present_keys fields : dkeys (present fields) `sublist_of` map fst fields.
Proof.
  induction fields as [|[k [v|]] fields IH]; cbn; [constructor|by apply sublist_skip|by apply sublist_cons].
Qed.
Lemma present_dget fields k :
  NoDup (map fst fields) → dget (present fields) k = match dget fields k with Some o => o | None => None end.
Proof.
  induction fields as [|[k' o] fields IH]; cbn; [done|]. rewrite NoDup_cons. intros [Hni Hnd].
  destruct o as [v|]; cbn; case_decide as E; try done; try by apply IH. subst.
  apply dget_None. intros Hin. apply Hni. by eapply elem_of_sublist; [|apply present_keys].
Qed.

Lemma profile_table_dget p k :
  dget (denote_table (profile_table p)) k =
  match dget (profile_fields p) k with Some (Some v) => Some (toml_denote v) | _ => None end.
Proof.
  unfold denote_table. assert (∀ t : dict toml_value,
    dget (map (prod_map id toml_denote) t) k = toml_denote <$> dget t k) as ->.
  { induction t as [|[k' v] t IH]; cbn; [done|]. by case_decide. }
  unfold profile_table. rewrite present_dget by apply field_names_nodup.
  by destruct (dget (profile_fields p) k) as [[v|]|].
Qed.

Lemma denote_table_keys t : dkeys (denote_table t) = dkeys t.
Proof. unfold dkeys, denote_table. rewrite map_map. by apply map_ext; intros [k v]. Qed.

Lemma profile_table_keys p k : k ∈ dkeys (denote_table (profile_table p)) → k ∈ PROFILE_FIELDS.
Proof. rewrite denote_table_keys. intros H. eapply elem_of_sublist in H; [|apply present_keys]. done. Qed.

Lemma all_strs_map l : all_strs (map VStr l) = Some l.
Proof. induction l as [|s l IH]; cbn; [done|]. by rewrite IH. Qed.

Section roundtrip.
Context {U : UnicodeDB} {T : TomlReader} {L : TomlLaws T}.

Lemma vget_profile p k v :
  dget (profile_fields p) k = Some v →
  vget (denote_table (profile_table p)) k = match v with Some v => toml_denote v | None => VNone end.
Proof. intros H. unfold vget, get_or. rewrite profile_table_dget, H. by destruct v. Qed.
Lemma get_or_profile p k d v :
  dget (profile_fields p) k = Some (Some v) →
  get_or d (denote_table (profile_table p)) k = toml_denote v.
Proof. intros H. unfold get_or. by rewrite profile_table_dget, H. Qed.

Lemma existsb_false {A} (f : A → bool) l : (∀ x, x ∈ l → f x = false) → existsb f l = false.
Proof.
  intros H. destruct (existsb f l) eqn:E; [|done]. apply existsb_exists in E as (x & Hx & Hf).
  apply list_elem_of_In in Hx. rewrite (H x Hx) in Hf. done.
Qed.

(** What each reader finds under a field of a printed profile *)
Lemma expect_string_field p k r s :
  dget (profile_fields p) k = Some (Some (TStr s)) →
  expect_string (denote_table (profile_table p)) k r = Ok (Some s).
Proof. intros H. unfold expect_string. by rewrite (vget_profile p k _ H). Qed.
Lemma expect_string_optional p k o :
  dget (profile_fields p) k = Some (TStr <$> o) →
  expect_string (denote_table (profile_table p)) k false = Ok o.
Proof. intros H. unfold expect_string. rewrite (vget_profile p k _ H). by destruct o. Qed.
Lemma expect_bool_field p k d b :
  dget (profile_fields p) k = Some (Some (TBool b)) →
  expect_bool (denote_table (profile_table p)) k d = Ok b.
Proof. intros H. unfold expect_bool. by rewrite (get_or_profile p k _ _ H). Qed.
Lemma expect_int_field p k d n :
  dget (profile_fields p) k = Some (Some (TInt n)) →
  expect_int (denote_table (profile_table p)) k d = Ok (Some n).
Proof. intros H. unfold expect_int. by rewrite (get_or_profile p k _ _ H). Qed.
Lemma expect_int_optional p k o :
  dget (profile_fields p) k = Some (TInt <$> o) →
  expect_int (denote_table (profile_table p)) k None = Ok o.
Proof.
  intros H. unfold expect_int. change (opt_int None) with VNone.
  fold (vget (denote_table (profile_table p)) k). rewrite (vget_profile p k _ H). by destruct o.
Qed.
Lemma expect_connection c n : expect_enum connection_types (VStr (connection_type_value c)) n = Ok c.
Proof. by destruct c. Qed.
Lemma expect_authentication a n : expect_enum authentications (VStr (authentication_value a)) n = Ok a.
Proof. by destruct a. Qed.
Lemma expect_elevation m n : expect_enum elevation_modes (VStr (elevation_mode_value m)) n = Ok m.
Proof. by destruct m. Qed.

Lemma profile_environment p : server_profile p = Ok p →
  match environment p with [] => False | _ => True end.
Proof. unfold server_profile. intros H. passed H. unfold validate_display_text in Hp0. passed Hp0.
  unfold str_eqb in *. boolean. by destruct (environment p). Qed.

Lemma parse_profile_table name p :
  server_profile p = Ok p → parse_profile name (VDict (denote_table (profile_table p))) = Ok p.
Proof.
  intros Hp. unfold parse_profile.
  set (raw := denote_table (profile_table p)).
  assert (existsb (fun k => bool_decide (k ∈ FORBIDDEN_SECRET_FIELDS)) (dkeys raw) = false) as ->.
  { apply existsb_false. intros k Hk. apply profile_table_keys in Hk. apply bool_decide_eq_false_2.
    revert k Hk. apply (Forall_forall (fun k => k ∉ FORBIDDEN_SECRET_FIELDS)).
    apply (bool_decide_unpack _). vm_compute. exact I. }
  assert (existsb (fun k => negb (bool_decide (k ∈ PROFILE_FIELDS))) (dkeys raw) = false) as ->.
  { apply existsb_false. intros k Hk. apply profile_table_keys in Hk.
    by rewrite bool_decide_eq_true_2. }
  subst raw. cbn [raise_if mbind result_mbind result_bind].
  rewrite (get_or_profile p (u "allowed_roots") _ _ eq_refl). cbn [toml_denote].
  rewrite all_strs_map. cbn [mbind result_mbind result_bind].
  rewrite (vget_profile p (u "connection_type") _ eq_refl), (vget_profile p (u "authentication") _ eq_refl),
    (get_or_profile p (u "elevation_mode") _ _ eq_refl). cbn [toml_denote].
  rewrite expect_connection, expect_authentication, expect_elevation. cbn [mbind result_mbind result_bind].
  rewrite (expect_string_field p (u "display_name") _ _ eq_refl),
    (expect_string_optional p (u "ssh_host") _ eq_refl), (expect_string_optional p (u "host") _ eq_refl),
    (expect_int_optional p (u "port") _ eq_refl), (expect_string_optional p (u "user") _ eq_refl),
    (expect_string_optional p (u "identity_file") _ eq_refl),
    (expect_bool_field p (u "allow_terminal") _ _ eq_refl),
    (expect_bool_field p (u "allow_file_read") _ _ eq_refl),
    (expect_bool_field p (u "allow_file_write") _ _ eq_refl),
    (expect_bool_field p (u "allow_root_session") _ _ eq_refl),
    (expect_string_field p (u "environment") _ _ eq_refl),
    (expect_int_field p (u "command_timeout_seconds") _ _ eq_refl),
    (expect_int_field p (u "max_output_bytes") _ _ eq_refl).
  cbn [mbind result_mbind result_bind default].
  pose proof (profile_environment p Hp) as He.
  assert (match environment p with c :: s => c :: s | [] => u "unspecified" end = environment p) as ->
    by (by destruct (environment p)).
  by destruct p.
Qed.

(** *** The printed document is well formed *)
Definition toml_str_okb (s : str) : bool :=
  forallb (fun c => (0 <=? c) && (c <? 1114112) && negb (c =? 127)) s.
Lemma toml_str_okb_ok s : toml_str_okb s = true → toml_str_ok s.
Proof.
  unfold toml_str_okb, toml_str_ok. rewrite forallb_forall, Forall_forall. intros H c Hc.
  apply list_elem_of_In in Hc. specialize (H c Hc). unfold toml_char.
  boolean. zprop. lia.
Qed.

Lemma name_text n : name_ok n → toml_str_ok n.
Proof.
  intros H. apply fullmatch_lang in H as (t & Hl & Ht). apply class_upto_text in Hl; [|done].
  apply toml_str_okb_ok. unfold toml_str_okb. rewrite forallb_forall in *. intros c Hc.
  specialize (Hl c Hc). unfold cls in Hl. cbn in Hl. rewrite !orb_false_r in Hl.
  apply andb_true_iff. rewrite andb_true_iff, negb_true_iff, Z.eqb_neq, Z.leb_le, Z.ltb_lt.
  rewrite !orb_true_iff, !andb_true_iff, !Z.leb_le in Hl. lia.
Qed.

Lemma present_ok fields :
  NoDup (map fst fields) → Forall (fun kv => bare_key kv.1 ∧ match kv.2 with Some v => toml_value_ok v | None => True end) fields →
  toml_table_ok (present fields).
Proof.
  intros Hnd Hf. split.
  - unfold dwf. eapply sublist_NoDup; [exact Hnd|apply present_keys].
  - clear Hnd. induction Hf as [|[k [v|]] fields [Hk Hv] Hf IH]; cbn; auto.
Qed.

Lemma toml_opt_ok (o : option str) :
  Forall toml_str_ok (opt_list o) → match TStr <$> o with Some v => toml_value_ok v | None => True end.
Proof. destruct o; [|done]. by inversion 1. Qed.

Lemma profile_table_ok p : server_profile p = Ok p → printable_profile p → toml_table_ok (profile_table p).
Proof.
  intros Hp Hpr. pose proof (server_profile_wf p p Hp) as Hwf.
  unfold printable_profile, profile_texts in Hpr. rewrite !Forall_app in Hpr.
  destruct Hpr as (Hne & Ha & Hh & Hu & Hi & Hr). inversion_clear Hne as [|? ? Hd He].
  inversion_clear He as [|? ? Henv _].
  apply present_ok; [apply field_names_nodup|].
  assert (match TInt <$> port p with Some v => toml_value_ok v | None => True end) as Hport.
  { pose proof (wf_connection p Hwf) as Hc. unfold connection_ok in Hc.
    destruct (connection_type p); [by destruct Hc as (_ & _ & -> & _)|].
    destruct Hc as (_ & _ & _ & k & -> & Hk). cbn. lia. }
  pose proof (wf_timeout p Hwf). pose proof (wf_output p Hwf).
  unfold profile_fields. repeat (apply Forall_cons; split; [split; [by vm_compute|]; cbn [snd]|]).
  all: try by apply toml_opt_ok.
  - exact Hd.
  - by destruct (connection_type p); apply toml_str_okb_ok.
  - by destruct (authentication p); apply toml_str_okb_ok.
  - exact Hport.
  - exact Hr.
  - done.
  - done.
  - done.
  - by destruct (elevation_mode p); apply toml_str_okb_ok.
  - done.
  - exact Henv.
  - cbn. lia.
  - cbn. lia.
  - constructor.
Qed.

Lemma sort_profiles_keys (d : dict ServerProfile) : dkeys (sort_by fst d) ≡ₚ dkeys d.
Proof. unfold dkeys. by rewrite sort_by_perm. Qed.

Lemma config_document_ok c :
  config_wf c → Forall (fun np => server_profile np.2 = Ok np.2 ∧ printable_profile np.2) (profiles c) →
  toml_document_ok (config_document c).
Proof.
  intros [Hn Hu Hv] Hp. unfold config_document, toml_document_ok. cbn [toml_root toml_tables].
  assert (dkeys (map (prod_map id profile_table) (sort_by fst (profiles c))) = dkeys (sort_by fst (profiles c))) as Hk.
  { unfold dkeys. rewrite map_map. apply map_ext. by intros [k v]. }
  split_and!.
  - split; [by apply (dwf_dset [] (u "schema_version") (TInt 1)), dwf_nil|].
    constructor; [|constructor]. split; by vm_compute.
  - apply (bool_decide_unpack _). vm_compute. exact I.
  - unfold dwf. by rewrite Hk, sort_profiles_keys.
  - apply Forall_forall. intros t Ht. apply list_elem_of_In, in_map_iff in Ht as ([n p] & <- & Hin). cbn.
    apply list_elem_of_In in Hin. rewrite sort_by_perm in Hin. rewrite Forall_forall in Hp.
    destruct (Hp _ Hin) as [H1 H2]. cbn in *. split; [|by apply profile_table_ok].
    apply name_text. rewrite Forall_forall in Hn. apply Hn.
    apply list_elem_of_In. apply in_map_iff. exists (n, p). split; [done|]. by apply list_elem_of_In.
Qed.

(** *** Decoding the document *)
Lemma parse_profiles_tables l :
  Forall (fun np => server_profile np.2 = Ok np.2) l →
  parse_profiles (map (prod_map id (fun t => VDict (denote_table t))) (map (prod_map id profile_table) l))
  = Ok l.
Proof.
  induction 1 as [|[n p] l Hp Hl IH]; [done|]. cbn [map prod_map parse_profiles]. cbn in Hp.
  change (id n) with n. cbn [fst snd]. rewrite parse_profile_table by done. cbn. by rewrite IH.
Qed.

(** The part of [decode_config] that follows the TOML reader *)
Definition decode_document (parsed : dict value) : res (ServerOpsConfig * bool) :=
  documented ← migrate parsed;
  let '(document, migrated) := documented in
  let unknown k := negb (bool_decide (k ∈ ROOT_FIELDS)) in
  raise_if (existsb unknown (dkeys document))
    (config_error (u "config contains unknown top-level fields: " ++ listed unknown document));;
  match get_or (VDict []) document (u "profiles") with
  | VDict raw =>
      parsed_profiles ← parse_profiles raw;
      config ← server_ops_config parsed_profiles CONFIG_SCHEMA_VERSION;
      Ok (config, migrated)
  | _ => Err (config_error (u "profiles must be a table"))
  end.
Lemma decode_config_document text :
  decode_config text =
  match toml_loads text with
  | Err m => Err (config_error (u "invalid TOML: " ++ m))
  | Ok parsed => decode_document parsed
  end.
Proof. reflexivity. Qed.

Lemma decode_current raw :
  decode_document [(u "schema_version", VInt 1); (u "profiles", VDict raw)] =
  (parsed_profiles ← parse_profiles raw;
   config ← server_ops_config parsed_profiles CONFIG_SCHEMA_VERSION;
   Ok (config, false)).
Proof. reflexivity. Qed.

(** C34: Decoding the text of a configuration gives the same
    configuration back, its profiles in name order, without a migration; the
    texts of the profiles must not hold the delete character, which TOML does
    not allow. *)
Theorem config_roundtrip c :
  config_wf c → Forall (fun np => server_profile np.2 = Ok np.2 ∧ printable_profile np.2) (profiles c) →
  decode_config (encode_config c) = Ok (Config (sort_by fst (profiles c)) CONFIG_SCHEMA_VERSION, false) ∧
  sort_by fst (profiles c) ≡ₚ profiles c.
Proof.
  intros Hwf Hp. split; [|apply sort_by_perm].
  pose proof (config_document_ok c Hwf Hp) as Hdoc.
  rewrite decode_config_document, encode_config_text, toml_loads_document by done.
  destruct Hwf as [Hn Hu Hv].
  assert (server_ops_config (sort_by fst (profiles c)) CONFIG_SCHEMA_VERSION =
          Ok (Config (sort_by fst (profiles c)) CONFIG_SCHEMA_VERSION)) as Hmk.
  { apply server_ops_config_Ok. by rewrite sort_profiles_keys. }
  assert (Forall (fun np => server_profile np.2 = Ok np.2) (sort_by fst (profiles c))) as Hs.
  { rewrite sort_by_perm. eapply Forall_impl; [exact Hp|]. by intros np [? _]. }
  apply parse_profiles_tables in Hs. unfold config_document, toml_denote_document in *.
  cbn [toml_root toml_tables] in *.
  destruct (sort_by fst (profiles c)) as [|np l]; [reflexivity|].
  cbn [map] in *.
  etransitivity; [apply decode_current|]. rewrite Hs. cbn [mbind result_mbind result_bind].
  by rewrite Hmk.
Qed.

Lemma dkeys_ddel_ne {A} (d : dict A) k k' : k' ∈ dkeys d → k' ≠ k → k' ∈ dkeys (ddel d k).
Proof.
  induction d as [|[k1 v] d IH]; cbn; [done|]. rewrite elem_of_cons. intros [->|Hin] Hne.
  - rewrite decide_False by done. cbn. set_solver.
  - case_decide; [done|]. cbn. apply elem_of_cons. auto.
Qed.

Lemma migrate_profile_keys raw v k :
  migrate_profile (VDict raw) = Ok v → k ∈ dkeys raw → k ≠ u "sudo_mode" →
  ∃ raw', v = VDict raw' ∧ k ∈ dkeys raw'.
Proof.
  cbn. destruct (dget raw (u "sudo_mode")); [|intros [= <-]; eauto].
  destruct (dhas raw (u "elevation_mode")); [done|]. intros [= <-] Hk Hne. eexists. split; [done|].
  apply dkeys_dset. right. by apply dkeys_ddel_ne.
Qed.

Lemma migrate_profiles_elem l l' name raw k :
  migrate_profiles l = Ok l' → (name, VDict raw) ∈ l → k ∈ dkeys raw → k ≠ u "sudo_mode" →
  ∃ raw', (name, VDict raw') ∈ l' ∧ k ∈ dkeys raw'.
Proof.
  revert l'. induction l as [|[n v] l IH]; intros l'; [by rewrite elem_of_nil|].
  cbn [migrate_profiles]. intros H Hin Hk Hne.
  apply result_bind_Ok in H as (v' & Hv & H). apply result_bind_Ok in H as (d' & Hd & H).
  injection H as <-. apply elem_of_cons in Hin as [[= <- <-]|Hin].
  - destruct (migrate_profile_keys raw v' k Hv Hk Hne) as (raw' & -> & Hk').
    exists raw'. split; [by left|done].
  - destruct (IH d' Hd Hin Hk Hne) as (raw' & Hr & Hk'). exists raw'. split; [by right|done].
Qed.

(** Migration keeps every profile and every field but [sudo_mode]. *)
Lemma migrate_keeps document document' m raws name raw k :
  migrate document = Ok (document', m) → dget document (u "profiles") = Some (VDict raws) →
  (name, VDict raw) ∈ raws → k ∈ dkeys raw → k ≠ u "sudo_mode" →
  ∃ raws' raw', dget document' (u "profiles") = Some (VDict raws') ∧
                (name, VDict raw') ∈ raws' ∧ k ∈ dkeys raw'.
Proof.
  unfold migrate. intros H Hd Hin Hk Hne. destruct (get_or (VInt 0) document _); try done.
  destruct (_ <? n); [done|]. destruct (n <? 0); [done|]. destruct (n =? 0).
  - unfold get_or in H. rewrite Hd in H. apply result_bind_Ok in H as (l' & Hl & H).
    destruct (migrate_profiles_elem raws l' name raw k Hl Hin Hk Hne) as (raw' & Hr & Hk').
    exists l', raw'. injection H as <- <-.
    rewrite dget_dset_ne by (apply (bool_decide_unpack _); vm_compute; exact I).
    unfold dhas. rewrite bool_decide_eq_true_2 by (by eapply dget_Some_key).
    by rewrite dget_dset_eq.
  - destruct (negb _); [done|]. injection H as <- <-. eauto.
Qed.

Lemma parse_profile_unknown name raw k :
  k ∈ dkeys raw → (k ∈ FORBIDDEN_SECRET_FIELDS ∨ k ∉ PROFILE_FIELDS) →
  ∃ e, parse_profile name (VDict raw) = Err e.
Proof.
  intros Hk Hor. apply list_elem_of_In in Hk. unfold parse_profile.
  destruct (existsb (fun k => bool_decide (k ∈ FORBIDDEN_SECRET_FIELDS)) (dkeys raw)) eqn:E1;
    [eexists; reflexivity|].
  destruct (existsb (fun k => negb (bool_decide (k ∈ PROFILE_FIELDS))) (dkeys raw)) eqn:E2;
    [eexists; reflexivity|]. exfalso.
  destruct Hor as [H|H].
  - apply Bool.not_true_iff_false in E1. apply E1. apply existsb_exists. exists k.
    split; [done|]. by apply bool_decide_eq_true_2.
  - apply Bool.not_true_iff_false in E2. apply E2. apply existsb_exists. exists k.
    split; [done|]. by rewrite bool_decide_eq_false_2.
Qed.

Lemma parse_profiles_error l name raw e :
  (name, raw) ∈ l → parse_profile name raw = Err e → ∃ e', parse_profiles l = Err e'.
Proof.
  intros Hin He. induction l as [|[n v] l IH]; [by apply elem_of_nil in Hin|].
  cbn [parse_profiles]. apply elem_of_cons in Hin as [[= <- <-]|Hin].
  - rewrite He. eexists. reflexivity.
  - destruct (parse_profile n v); [|eexists; reflexivity].
    destruct (IH Hin) as [e' ->]. eexists. reflexivity.
Qed.

(** A document that holds a secret field in any profile is
    refused as a whole, whatever else it says, and so is one with a field the
    model does not know (the migration from version 0 knows [sudo_mode]). *)
Theorem unknown_fields_refused text document raws name raw k :
  toml_loads text = Ok document → dget document (u "profiles") = Some (VDict raws) →
  (name, VDict raw) ∈ raws → k ∈ dkeys raw →
  (k ∈ FORBIDDEN_SECRET_FIELDS ∨ (k ∉ PROFILE_FIELDS ∧ k ≠ u "sudo_mode")) →
  ∃ e, decode_config text = Err e.
Proof.
  intros Hload Hd Hin Hk Hor. rewrite decode_config_document, Hload. unfold decode_document.
  destruct (migrate document) as [[document' m]|e] eqn:Hm; [|by eexists].
  assert (k ≠ u "sudo_mode") as Hne.
  { destruct Hor as [Hf|[_ ?]]; [|done]. intros ->. revert Hf.
    apply (bool_decide_unpack _). vm_compute. exact I. }
  destruct (migrate_keeps document document' m raws name raw k) as (raws' & raw' & Hd' & Hin' & Hk'); try done.
  cbn [mbind result_mbind result_bind]. destruct (existsb _ _); [by eexists|].
  unfold get_or. rewrite Hd'. cbn [raise_if mbind result_mbind result_bind].
  destruct (parse_profile_unknown name raw' k Hk') as [e He]; [tauto|].
  destruct (parse_profiles_error raws' name _ e Hin' He) as [e' ->]. by eexists.
Qed.

(** A profile whose display name holds the delete character is accepted by
    the model and written, but the file cannot be read again. *)
Definition deleting_profile : ServerProfile :=
  Profile (u "a" ++ [127]) SSH_CONFIG OPENSSH (Some (u "prod")) None None None None [] true false false
    DISABLED false (u "test") 60 4096.
Lemma delete_character_unreadable :
  server_profile deleting_profile = Ok deleting_profile ∧
  ∃ e, decode_config (encode_config (Config [(u "web", deleting_profile)] CONFIG_SCHEMA_VERSION)) = Err e.
Proof.
  split; [vm_compute; reflexivity|]. rewrite decode_config_document.
  destruct (toml_loads_delete (encode_config (Config [(u "web", deleting_profile)] CONFIG_SCHEMA_VERSION)))
    as [m ->]; [|by eexists].
  apply (bool_decide_unpack _). vm_compute. exact I.
Qed.
End roundtrip.

(** ** A reader of the printed fragment

    It accepts exactly the texts [toml_text] prints: it reads line by line and
    compares the printed form of what it found with its input. *)
Inductive toml_item :=
  | BlankLine
  | TableLine (name : str)
  | EntryLine (k : str) (v : toml_value).

Fixpoint read_texts (fuel : nat) (s : str) : option (list str) :=
  match fuel, s with
  | S fuel, 34 :: r =>
      match scan_string (S (length r)) r with
      | Some (t, r1) =>
          if str_eqb r1 (u "]") then Some [t]
          else if starts_with (u ", ") r1 then cons t <$> read_texts fuel (drop 2 r1) else None
      | None => None
      end
  | _, _ => None
  end.
Definition read_value (s : str) : option toml_value :=
  match s with
  | 34 :: r => match scan_string (S (length r)) r with Some (t, _) => Some (TStr t) | None => None end
  | 91 :: r => if str_eqb r (u "]") then Some (TTexts []) else TTexts <$> read_texts (length r) r
  | _ => if str_eqb s (u "true") then Some (TBool true)
         else if str_eqb s (u "false") then Some (TBool false)
         else TInt <$> parse_int s
  end.
Definition read_line (s : str) : option toml_item :=
  match s with
  | [] => Some BlankLine
  | 91 :: _ =>
      match drop (length (u "[profiles.")) s with
      | 34 :: r => match scan_string (S (length r)) r with Some (t, _) => Some (TableLine t) | None => None end
      | _ => None
      end
  | _ => match partition_at 32 s with
         | Some (k, r) => EntryLine k <$> read_value (drop 2 r)
         | None => None
         end
  end.
(** The entries before the first table, and the tables *)
Fixpoint read_lines (ls : list str) : option (dict toml_value * dict (dict toml_value)) :=
  match ls with
  | [] => Some ([], [])
  | l :: ls =>
      item ← read_line l;
      rest ← read_lines ls;
      let '(entries, tables) := rest in
      match item with
      | BlankLine => Some (entries, tables)
      | TableLine name => Some ([], (name, entries) :: tables)
      | EntryLine k v => Some ((k, v) :: entries, tables)
      end
  end.
Definition fragment_reader : TomlReader := fun text =>
  match read_lines (split_char 10 text) with
  | Some (root, tables) =>
      if str_eqb (toml_text (TomlDocument root tables)) text && negb (mem_Z 127 text)
      then Ok (toml_denote_document (TomlDocument root tables)) else Err (u "unsupported document")
  | None => Err (u "unsupported document")
  end.

(** *** It satisfies the interface *)
Lemma scan_json_string s r : toml_str_ok s →
  scan_string (S (length (json_escape s ++ 34 :: r))) (json_escape s ++ 34 :: r) = Some (s, r).
Proof.
  intros Hs. apply scan_escape; [|lia]. eapply Forall_impl; [exact Hs|]. by intros c [? _].
Qed.
Lemma json_string_cons s r : json_string s ++ r = 34 :: json_escape s ++ 34 :: r.
Proof. unfold json_string. change dq with [34]. cbn [app]. by rewrite <- app_assoc. Qed.

Lemma read_texts_print l t fuel :
  toml_str_ok t → Forall toml_str_ok l →
  (length (join (u ", ") (map json_string (t :: l)) ++ u "]") ≤ fuel)%nat →
  read_texts fuel (join (u ", ") (map json_string (t :: l)) ++ u "]") = Some (t :: l).
Proof.
  revert t fuel. induction l as [|t' l IH]; intros t fuel Ht Hl Hf.
  - cbn [map join] in *. rewrite json_string_cons in *. destruct fuel as [|fuel]; [cbn in Hf; lia|].
    cbn [read_texts]. by rewrite scan_json_string.
  - inversion_clear Hl as [|? ? Ht' Hl'].
    change (join (u ", ") (map json_string (t :: t' :: l)))
      with (json_string t ++ u ", " ++ join (u ", ") (map json_string (t' :: l))) in *.
    rewrite <- !app_assoc, json_string_cons in *. destruct fuel as [|fuel]; [cbn in Hf; lia|].
    cbn [read_texts]. rewrite scan_json_string by done. cbn [length] in Hf.
    rewrite length_app in Hf. cbn [length] in Hf. rewrite length_app in Hf.
    set (w := join (u ", ") (map json_string (t' :: l)) ++ u "]") in *.
    change (str_eqb (u ", " ++ w) (u "]")) with false. rewrite starts_with_app.
    change (drop 2 (u ", " ++ w)) with w. subst w. rewrite (IH t' fuel) by (done || lia). done.
Qed.

Lemma read_value_print v : toml_value_ok v → read_value (toml_value_text v) = Some v.
Proof.
  destruct v as [s|b|n|l]; cbn [toml_value_ok toml_value_text]; intros Hok.
  - rewrite <- (app_nil_r (json_string s)), json_string_cons. cbn [read_value].
    by rewrite scan_json_string.
  - by destruct b.
  - assert (parse_int (show_int n) = Some n) as Hp.
    { apply parse_show_int. apply Nat.lt_le_trans with 63%nat; [|lia].
      destruct (decide (Z.abs n = 0)) as [->|]; [cbn; lia|].
      pose proof (Z.log2_lt_pow2 (Z.abs n) 63 ltac:(lia)). pose proof (Z.log2_nonneg (Z.abs n)). lia. }
    unfold read_value. rewrite Hp.
    destruct (show_int_shape n) as (sg & ds & Hs & Hsg & Hne & Hd). rewrite Hs.
    destruct ds as [|c ds]; [done|]. cbn [forallb] in Hd. apply andb_true_iff in Hd as [Hc _].
    unfold ascii_digit in Hc. boolean.
    assert (c ∈ [48; 49; 50; 51; 52; 53; 54; 55; 56; 57]) as Hin by (rewrite !elem_of_cons; lia).
    rewrite !elem_of_cons, elem_of_nil in Hin. unfold str_eqb.
    destruct Hsg as [-> | ->]; destruct_or! Hin; try done; subst c; cbn [app];
      rewrite !bool_decide_eq_false_2 by done; done.
  - change (u "[") with [91]. cbn [app read_value]. destruct l as [|t l]; [reflexivity|].
    inversion_clear Hok as [|? ? Ht Hl]. unfold str_eqb.
    assert (∃ w, join (u ", ") (map json_string (t :: l)) ++ u "]" = 34 :: w) as [w Hw].
    { destruct l; cbn [map join]; rewrite <- ?app_assoc, json_string_cons; by eexists. }
    rewrite bool_decide_eq_false_2 by (rewrite Hw; discriminate).
    by rewrite read_texts_print.
Qed.

Lemma bare_key_head k : bare_key k → ∃ c w, k = c :: w ∧ c ≠ 91 ∧ lacks 32 k = true ∧ lacks 10 k = true.
Proof.
  intros [Hne Hb]. destruct k as [|c w]; [done|]. exists c, w. split; [done|].
  assert (∀ b, bare_char b = true → b ≠ 91 ∧ b ≠ 32 ∧ b ≠ 10) as Hc.
  { intros b Hbc. split_and!; intros ->; discriminate. }
  rewrite forallb_forall in Hb. split_and!.
  - apply Hc, Hb. by left.
  - unfold lacks. apply forallb_forall. intros x Hx. apply negb_true_iff, Z.eqb_neq. by apply Hc, Hb.
  - unfold lacks. apply forallb_forall. intros x Hx. apply negb_true_iff, Z.eqb_neq. by apply Hc, Hb.
Qed.

Lemma read_line_entry k v : bare_key k → toml_value_ok v → read_line (toml_line (k, v)) = Some (EntryLine k v).
Proof.
  intros Hk Hv. destruct (bare_key_head k Hk) as (c & w & -> & Hc & Hl & _).
  unfold toml_line. cbn [fst snd]. change (u " = ") with [32; 61; 32].
  assert (read_line ((c :: w) ++ [32; 61; 32] ++ toml_value_text v) =
          match partition_at 32 ((c :: w) ++ [32; 61; 32] ++ toml_value_text v) with
          | Some (k, r) => EntryLine k <$> read_value (drop 2 r)
          | None => None
          end) as ->.
  { cbn [app read_line]. destruct c as [|p|p]; try done. do 7 (destruct p as [p|p|]; try done). }
  cbn [app] in *. change (c :: w ++ 32 :: 61 :: 32 :: toml_value_text v)
    with ((c :: w) ++ 32 :: 61 :: 32 :: toml_value_text v).
  rewrite partition_at_word by done. change (drop 2 (61 :: 32 :: ?x)) with x. by rewrite read_value_print.
Qed.

Lemma read_line_table name : toml_str_ok name →
  read_line (u "[profiles." ++ json_string name ++ u "]") = Some (TableLine name).
Proof.
  intros Hn. rewrite json_string_cons. unfold read_line.
  change (u "[profiles.") with [91; 112; 114; 111; 102; 105; 108; 101; 115; 46].
  cbn [app length drop]. by rewrite scan_json_string.
Qed.

(** Neither line holds a newline, so the text splits into them. *)
Lemma lacks_app c a b : lacks c (a ++ b) = lacks c a && lacks c b.
Proof. apply forallb_app. Qed.
Lemma json_string_lacks s : toml_str_ok s → lacks 10 (json_string s) = true ∧ lacks 127 (json_string s) = true.
Proof.
  intros Hs. unfold json_string. rewrite !lacks_app. change (lacks 10 dq) with true. change (lacks 127 dq) with true.
  rewrite !andb_true_r. cbn [andb]. induction Hs as [|c s [Hc H127] Hs [IH1 IH2]]; [done|].
  change (json_escape (c :: s)) with (json_escape_char c ++ json_escape s). rewrite !lacks_app, IH1, IH2, !andb_true_r.
  destruct (decide (c < 32)).
  - pose proof (range_check (fun c => lacks 10 (json_escape_char c) && lacks 127 (json_escape_char c)) 32 c eq_refl ltac:(lia)) as H.
    cbv beta in H. boolean. by split.
  - unfold json_escape_char. repeat (case_match; [split; reflexivity|]).
    rewrite (proj2 (Z.ltb_ge c 32)) by lia. zprop. unfold lacks. cbn [forallb].
    split; apply andb_true_iff; (split; [|done]); apply negb_true_iff, Z.eqb_neq; lia.
Qed.
Lemma show_int_lacks n c : c < 45 ∨ 57 < c → lacks c (show_int n) = true.
Proof.
  intros Hc. destruct (show_int_shape n) as (sg & ds & -> & Hsg & _ & Hd). rewrite lacks_app.
  apply andb_true_iff. split.
  - destruct Hsg as [-> | ->]; unfold lacks; cbn [forallb]; [done|]. apply andb_true_iff.
    split; [|done]. apply negb_true_iff, Z.eqb_neq. lia.
  - unfold lacks. rewrite forallb_forall in *. intros x Hx. specialize (Hd x Hx). unfold ascii_digit in Hd. boolean.
    apply negb_true_iff, Z.eqb_neq. lia.
Qed.
Lemma texts_lacks l : Forall toml_str_ok l →
  lacks 10 (join (u ", ") (map json_string l)) = true ∧ lacks 127 (join (u ", ") (map json_string l)) = true.
Proof.
  induction 1 as [|s l Hs Hl [IH1 IH2]]; [done|]. destruct (json_string_lacks s Hs) as [H1 H2].
  destruct l as [|s' l]; [done|].
  change (join (u ", ") (map json_string (s :: s' :: l)))
    with (json_string s ++ u ", " ++ join (u ", ") (map json_string (s' :: l))).
  by rewrite !lacks_app, H1, H2, IH1, IH2.
Qed.
Lemma value_lacks v : toml_value_ok v →
  lacks 10 (toml_value_text v) = true ∧ lacks 127 (toml_value_text v) = true.
Proof.
  destruct v as [s|b|n|l]; cbn [toml_value_ok toml_value_text]; intros Hok.
  - by apply json_string_lacks.
  - by destruct b.
  - split; apply show_int_lacks; lia.
  - rewrite !lacks_app. destruct (texts_lacks l Hok) as [-> ->]. done.
Qed.

Lemma toml_line_lacks kv : bare_key kv.1 → toml_value_ok kv.2 → lacks 10 (toml_line kv) = true ∧ lacks 127 (toml_line kv) = true.
Proof.
  intros Hk Hv. unfold toml_line. rewrite !lacks_app. destruct (value_lacks _ Hv) as [-> ->].
  destruct Hk as [_ Hb]. assert (∀ c, bare_char c = false → lacks c kv.1 = true) as Hl.
  { intros c Hc. unfold lacks. rewrite forallb_forall in *. intros x Hx.
    apply negb_true_iff, Z.eqb_neq. intros ->. rewrite Hb in Hc; done. }
  by rewrite !Hl.
Qed.

Definition document_lines (d : toml_document) : list str :=
  map toml_line (toml_root d) ++ concat (map toml_table_lines (toml_tables d)).
Lemma document_lines_lack d : toml_document_ok d →
  Forall (fun l => lacks 10 l = true ∧ lacks 127 l = true) (document_lines d).
Proof.
  assert (∀ t, toml_table_ok t → Forall (fun l => lacks 10 l = true ∧ lacks 127 l = true) (map toml_line t)) as Ht.
  { intros t [_ Ht]. induction Ht as [|kv t [Hk Hv] Ht IH]; cbn; [done|]. constructor; [by apply toml_line_lacks|done]. }
  intros (Hr & _ & _ & Hts). unfold document_lines. apply Forall_app. split; [by apply Ht|].
  induction Hts as [|t ts [Hn Hok] Hts IH]; [done|]. cbn [map concat]. apply Forall_app. split; [|done].
  unfold toml_table_lines. apply Forall_app. split; [|by apply Ht].
  constructor; [done|]. constructor; [|done]. rewrite !lacks_app. by destruct (json_string_lacks _ Hn) as [-> ->].
Qed.

Lemma split_lines_text ls : Forall (fun l => lacks 10 l = true) ls → ls ≠ [] →
  split_char 10 (join nl ls ++ nl) = ls ++ [[]].
Proof.
  intros H Hne. assert (join nl ls ++ nl = join [10] (ls ++ [[]])) as ->.
  { clear H. induction ls as [|l ls IH]; [done|]. destruct ls as [|l' ls]; [done|].
    change (join nl (l :: l' :: ls)) with (l ++ nl ++ join nl (l' :: ls)).
    rewrite <- !app_assoc, IH by done. done. }
  apply split_char_join; [by destruct ls|]. apply Forall_app. auto.
Qed.

Lemma read_entries t ls : toml_table_ok t →
  read_lines (map toml_line t ++ ls) =
  match read_lines ls with Some (es, ts) => Some (t ++ es, ts) | None => None end.
Proof.
  intros [_ Ht]. induction Ht as [|[k v] t [Hk Hv] Ht IH]; cbn [map app read_lines].
  { by destruct (read_lines ls) as [[es ts]|]. }
  rewrite read_line_entry by done. rewrite IH. by destruct (read_lines ls) as [[es ts]|].
Qed.

Lemma read_tables ts :
  Forall (fun t => toml_str_ok t.1 ∧ toml_table_ok t.2) ts →
  read_lines (concat (map toml_table_lines ts) ++ [[]]) = Some ([], ts).
Proof.
  induction 1 as [|[n t] ts [Hn Ht] Hts IH]; [done|]. cbn [map concat]. rewrite <- app_assoc.
  unfold toml_table_lines at 1. cbn [fst snd] in *. rewrite <- (app_assoc _ (map _ _)). cbn [app read_lines].
  rewrite read_line_table by done. rewrite read_entries by done. rewrite IH. cbn.
  by rewrite app_nil_r.
Qed.

Lemma mem_Z_lacks c s : mem_Z c s = false ↔ lacks c s = true.
Proof.
  unfold mem_Z, lacks. induction s as [|x s IH]; cbn; [done|].
  rewrite orb_false_iff, andb_true_iff, negb_true_iff, IH, (Z.eqb_sym x c). done.
Qed.
Lemma join_lacks c sep ls : lacks c sep = true → Forall (fun l => lacks c l = true) ls → lacks c (join sep ls) = true.
Proof.
  intros Hs. induction 1 as [|l ls Hl Hls IH]; [done|]. destruct ls as [|l' ls]; [done|].
  change (join sep (l :: l' :: ls)) with (l ++ sep ++ join sep (l' :: ls)). by rewrite !lacks_app, Hl, Hs, IH.
Qed.

#[export] Instance fragment_laws : TomlLaws fragment_reader.
Proof.
  split.
  - intros d Hd. pose proof (document_lines_lack d Hd) as Hl. pose proof Hd as (Hr & Hp & Hwf & Hts).
    unfold toml_loads, fragment_reader, toml_text. fold (document_lines d).
    assert (read_lines (split_char 10 (join nl (document_lines d) ++ nl)) = Some (toml_root d, toml_tables d)) as ->.
    { destruct (decide (document_lines d = [])) as [E|E].
      - rewrite E. unfold document_lines in E. apply app_eq_nil in E as [E1 E2].
        destruct (toml_root d), (toml_tables d) as [|[n t] ts]; done.
      - rewrite split_lines_text; [|by eapply Forall_impl; [exact Hl|]; intros l [? _]|done].
        unfold document_lines. rewrite <- app_assoc, read_entries, read_tables by done. by rewrite app_nil_r. }
    fold (document_lines d). destruct d as [root tables]. cbn [toml_root toml_tables].
    unfold str_eqb. rewrite bool_decide_eq_true_2 by done.
    rewrite (proj2 (mem_Z_lacks _ _)); [done|]. rewrite lacks_app. apply andb_true_iff. split; [|done].
    apply join_lacks; [done|]. eapply Forall_impl; [exact Hl|]. by intros l [_ ?].
  - intros t Ht. unfold toml_loads, fragment_reader. destruct (read_lines _) as [[root tables]|]; [|by eexists].
    assert (mem_Z 127 t = true) as ->; [|rewrite andb_false_r; by eexists].
    destruct (mem_Z 127 t) eqn:E; [done|]. apply mem_Z_lacks in E. unfold lacks in E.
    rewrite forallb_forall in E. apply list_elem_of_In in Ht. specialize (E _ Ht). discriminate.
Qed.

(** ** Concrete configurations *)
Definition stored_profile : ServerProfile := set_allowed_roots sample_profile [u "/srv/www"; u "/var/log"].
Definition stored_config : ServerOpsConfig :=
  Config [(u "web", stored_profile); (u "db", stored_profile)] CONFIG_SCHEMA_VERSION.

Lemma config_roundtrip_witness :
  let _ := fragment_reader in
  decode_config (U := ascii_db) (encode_config stored_config) =
  Ok (Config [(u "db", stored_profile); (u "web", stored_profile)] CONFIG_SCHEMA_VERSION, false).
Proof.
  assert (config_wf (U := ascii_db) stored_config) as Hwf.
  { split; [|apply (bool_decide_unpack _); vm_compute; exact I|reflexivity].
    constructor; [by vm_compute|]. constructor; [by vm_compute|constructor]. }
  refine (proj1 (config_roundtrip (U := ascii_db) (L := fragment_laws) stored_config Hwf _)).
  assert (server_profile (U := ascii_db) stored_profile = Ok stored_profile) as Hp by (vm_compute; reflexivity).
  assert (printable_profile stored_profile) as Hpr.
  { unfold printable_profile. repeat constructor; cbn; lia. }
  constructor; [by split|]. constructor; [by split|constructor].
Defined.

Lemma unknown_fields_refused_witness :
  let text := u "[profiles." ++ json_string (u "web") ++ u "]" ++ nl ++ u "password = " ++ json_string (u "x") ++ nl in
  ∃ document e, fragment_reader (nl ++ text) = Ok document ∧
    decode_config (U := ascii_db) (T := fragment_reader) (nl ++ text) = Err e.
Proof.
  intros text.
  set (document := [(u "profiles", VDict [(u "web", VDict [(u "password", VStr (u "x"))])])]).
  assert (fragment_reader (nl ++ text) = Ok document) as Hl by (vm_compute; reflexivity).
  destruct (unknown_fields_refused (U := ascii_db) (T := fragment_reader) (nl ++ text) document
    [(u "web", VDict [(u "password", VStr (u "x"))])] (u "web")
    [(u "password", VStr (u "x"))] (u "password") Hl) as [e He].
  - reflexivity.
  - by left.
  - by left.
  - left. by left.
  - exists document, e. by split.
Defined.
