(* ===== verification/Repository.v ===== *)
(** * Repository: the configuration file (config/repository.py, config/locking.py)

    The store keeps the whole configuration in one file, replaces it through a
    temporary file, and serialises its operations with a lock file.  The disk
    is a map from paths to contents; every system call is asked of a script
    that lets it succeed or fail, and a script that ends stands for a process
    that dies at that call. *)
From S2P Require Import Prelude Errors Text TextFacts Regex Sha256 Value Prog Json ConfigModel Codec.

(** A path is a directory and a file name. *)
Abbreviation path := (str * str)%type.

Inductive disk_call :=
  | MakeDirectory (dir : str)
  | SecurePath (dir : str) (name : option str)
  | OpenExclusive (p : path)
  | OpenWrite (p : path)
  | WriteContent (p : path) (content : bytes)
  | FlushFile (p : path)
  | Rename (source target : path)
  | RemoveFile (p : path)
  | ReadContent (p : path)
  | SyncDirectory (dir : str)
  | OpenLock (p : path)
  | TryLock (p : path)
  | Unlock (p : path)
  | CloseLock (p : path)
  | ReadClock
  | NewName.
(** [Partial k e]: a write that failed after [k] bytes *)
Inductive disk_reply := Done | Time (t : Q) | Token (hex : str) | Partial (k : nat) (e : exn).

Record disk := Disk { files : gmap path bytes; locked : bool }.
Abbreviation disk_io := (io disk disk_call disk_reply).

Definition call (c : disk_call) : M disk_io unit := ask c;; mret tt.
Definition clock : M disk_io Q :=
  r ← ask ReadClock; match r with Time t => mret t | _ => hang end.
Definition fresh_name : M disk_io str :=
  r ← ask NewName; match r with Token h => mret h | _ => hang end.
Definition set_file (p : path) (content : bytes) : M disk_io unit :=
  update (fun d => Disk (<[p := content]> (files d)) (locked d)).
Definition drop_file (p : path) : M disk_io unit :=
  update (fun d => Disk (delete p (files d)) (locked d)).
Definition set_locked (b : bool) : M disk_io unit := update (fun d => Disk (files d) b).

Definition exists_file (p : path) : M disk_io bool :=
  d ← state; mret (bool_decide (is_Some (files d !! p))).
(** [path.read_bytes()] *)
Definition read_bytes (p : path) : M disk_io bytes :=
  call (ReadContent p);;
  d ← state;
  match files d !! p with
  | Some content => mret content
  | None => raise (Builtin FileNotFoundError [])
  end.
(** [os.open(path, O_WRONLY | O_CREAT | O_EXCL)] *)
Definition open_exclusive (p : path) : M disk_io unit :=
  call (OpenExclusive p);;
  present ← exists_file p;
  if present : bool then raise (Builtin FileExistsError []) else set_file p [].
(** [stream.write(content)] and [flush], with [fsync] but for the lock file; the
    file is open and empty. *)
Definition write_content (p : path) (content : bytes) : M disk_io unit :=
  r ← ask (WriteContent p content);
  match r with
  | Partial k e => set_file p (take k content);; raise e
  | _ => set_file p content;; call (FlushFile p)
  end.
(** [os.replace(source, target)] *)
Definition replace_file (source target : path) : M disk_io unit :=
  call (Rename source target);;
  d ← state;
  match files d !! source with
  | Some content => drop_file source;; set_file target content
  | None => raise (Builtin FileNotFoundError [])
  end.
(** [path.unlink(missing_ok=True)] *)
Definition unlink (p : path) : M disk_io unit := call (RemoveFile p);; drop_file p.

(** ** The store *)
Record ConfigSnapshot := Snapshot { config : ServerOpsConfig; content_hash : str }.
Record ConfigPreparation := Preparation {
  snapshot : ConfigSnapshot;
  created : bool;
  migrated : bool;
  backup_path : option path;
}.

(** [nt] tells whether the program runs on Windows. *)
Record TomlProfileRepository := Repository {
  directory : str;
  file_name : str;
  lock_timeout : Q;
  nt : bool;
}.
Definition path_of (r : TomlProfileRepository) : path := (directory r, file_name r).
Definition lock_path (r : TomlProfileRepository) : path := (directory r, file_name r ++ u ".lock").
Definition temporary_path (r : TomlProfileRepository) (hex : str) : path :=
  (directory r, u "." ++ file_name r ++ u "." ++ hex ++ u ".tmp").

(** [default_config_path]: LOCALAPPDATA as given or from the environment *)
Definition default_config_path (local_app_data environment_value : option str) : res (str * str) :=
  match match local_app_data with Some root => Some root | None => environment_value end with
  | Some (c :: root) => Ok ((c :: root) ++ u "/codex-serverops-mcp", u "config.toml")
  | _ => Err (config_error (u "LOCALAPPDATA is unavailable"))
  end.
Definition content_hash_of (content : bytes) : str := sha256_hex content.

Section repository.
Context {U : UnicodeDB} {T : TomlReader}.
Variable r : TomlProfileRepository.

Definition secure (dir : str) (name : option str) : M disk_io unit :=
  if nt r then call (SecurePath dir name) else mret tt.
Definition sync_directory : M disk_io unit :=
  if nt r then mret tt else call (SyncDirectory (directory r)).

(** *** The lock (config/locking.py)
    [__enter__] polls until the lock is taken or the time is over; every
    round takes answers from the script, which bounds the rounds. *)
Fixpoint lock_rounds (fuel : nat) (deadline : Q) : M disk_io unit :=
  match fuel with
  | O => hang
  | S fuel =>
      try_except (call (TryLock (lock_path r));; set_locked true)
        (fun e =>
           if is_os_error e then
             now ← clock;
             if qle deadline now then
               call (CloseLock (lock_path r));;
               raise (controlled ConfigLockTimeout
                        (u "timed out waiting for configuration lock: " ++ (lock_path r).1 ++ u "/"
                         ++ (lock_path r).2))
             else lock_rounds fuel deadline
           else raise e)
  end.
(** The lock file is created when it is not there, and an empty one gets a byte
    to be locked. *)
Definition open_lock : M disk_io unit :=
  call (OpenLock (lock_path r));;
  d ← state;
  (match files d !! lock_path r with None => set_file (lock_path r) [] | Some _ => mret tt end);;
  d ← state;
  match files d !! lock_path r with
  | Some [] => write_content (lock_path r) [0]
  | _ => mret tt
  end.
Definition lock_enter : M disk_io unit :=
  call (MakeDirectory (directory r));;
  call (SecurePath (directory r) None);;
  open_lock;;
  call (SecurePath (directory r) (Some (lock_path r).2));;
  now ← clock;
  s ← get;
  lock_rounds (S (length (script s))) (qadd now (lock_timeout r)).
Definition lock_exit : M disk_io unit :=
  try_finally (call (Unlock (lock_path r))) (call (CloseLock (lock_path r));; set_locked false).
Definition with_lock {A} (body : M disk_io A) : M disk_io A :=
  lock_enter;; try_finally body lock_exit.

(** *** Reading *)
Definition decode_content (content : bytes) : res (ConfigSnapshot * bool) :=
  match utf8_decode content with
  | UText text =>
      decoded ← decode_config text;
      Ok (Snapshot decoded.1 (content_hash_of content), decoded.2)
  | UBad _ _ => Err (config_error (u "configuration must be UTF-8"))
  end.
Definition load_unlocked : M disk_io (ConfigSnapshot * bool) :=
  present ← exists_file (path_of r);
  if present : bool then
    content ← read_bytes (path_of r);
    lift (decode_content content)
  else
    empty ← lift empty_config;
    mret (Snapshot empty (content_hash_of []), false).

(** *** Writing *)
Definition write_bytes_unlocked (content : bytes) : M disk_io unit :=
  call (MakeDirectory (directory r));;
  secure (directory r) None;;
  hex ← fresh_name;
  let temporary := temporary_path r hex in
  try_finally
    (open_exclusive temporary;;
     write_content temporary content;;
     secure (directory r) (Some temporary.2);;
     replace_file temporary (path_of r);;
     secure (directory r) (Some (file_name r));;
     sync_directory)
    (unlink temporary).
Definition write_unlocked (c : ServerOpsConfig) : M disk_io ConfigSnapshot :=
  content ← lift (utf8_encode (encode_config c));
  write_bytes_unlocked content;;
  mret (Snapshot c (content_hash_of content)).

Definition backup_name (content : bytes) : str := u "config-" ++ content_hash_of content ++ u ".toml".
Definition backup_migration_unlocked (backups : str) (content : bytes) : M disk_io path :=
  call (MakeDirectory backups);;
  secure backups None;;
  let p := (backups, backup_name content) in
  present ← exists_file p;
  if present : bool then
    stored ← read_bytes p;
    if str_eqb stored content then mret p
    else raise (config_error (u "configuration migration backup collision: " ++ p.1 ++ u "/" ++ p.2))
  else
    open_exclusive p;;
    write_content p content;;
    secure backups (Some p.2);;
    mret p.

(** *** Operations *)
Definition check_hash (current_hash : str) (expected_hash : option str) : res unit :=
  match expected_hash with
  | Some h => raise_if (negb (str_eqb h current_hash))
                (controlled ConfigConflictError
                   (u "configuration changed after it was read; reload before writing"))
  | None => Ok tt
  end.

Definition load : M disk_io ConfigSnapshot :=
  with_lock (loaded ← load_unlocked; mret loaded.1).
Definition migrate_store : M disk_io (ConfigSnapshot * bool) :=
  with_lock
    (loaded ← load_unlocked;
     let '(current, pending) := loaded in
     if pending : bool then written ← write_unlocked (config current); mret (written, true)
     else mret (current, false)).
Definition save (c : ServerOpsConfig) (expected_hash : option str) : M disk_io ConfigSnapshot :=
  with_lock
    (loaded ← load_unlocked;
     lift (check_hash (content_hash loaded.1) expected_hash);;
     write_unlocked c).
Definition update_store (operation : ServerOpsConfig → res ServerOpsConfig) (expected_hash : option str) :
    M disk_io ConfigSnapshot :=
  with_lock
    (loaded ← load_unlocked;
     lift (check_hash (content_hash loaded.1) expected_hash);;
     c ← lift (operation (config loaded.1));
     write_unlocked c).
Definition put_profile (name : str) (p : ServerProfile) (expected_hash : option str) : M disk_io ConfigSnapshot :=
  lift (validate_profile_name name);;
  update_store (fun c => with_profile c name p) expected_hash.
Definition remove_profile (name : str) (expected_hash : option str) : M disk_io ConfigSnapshot :=
  lift (validate_profile_name name);;
  update_store (fun c => without_profile c name) expected_hash.

Definition show_path (p : path) : str := p.1 ++ u "/" ++ p.2.
(** [snapshot != verified.config]: profiles compare as a mapping, whatever
    their order. *)
Definition same_config (a b : ServerOpsConfig) : bool :=
  bool_decide (schema_version a = schema_version b) &&
  (length (profiles a) =? length (profiles b))%nat &&
  forallb (fun np => bool_decide (dget (profiles b) np.1 = Some np.2)) (profiles a).
Definition migrate_verified (current : ConfigSnapshot) (backup : path) : M disk_io ConfigPreparation :=
  written ← write_unlocked (config current);
  loaded ← load_unlocked;
  let '(verified, pending) := loaded in
  if (pending : bool) || negb (same_config (config verified) (config current))
  then raise (config_error (u "migrated configuration verification failed"))
  else mret (Preparation written false true (Some backup)).
Definition roll_back (original : bytes) (backup : path) : M disk_io ConfigPreparation :=
  try_except (write_bytes_unlocked original)
    (fun e => if is_exception e
              then raise (config_error (u "configuration migration and rollback failed; backup: "
                                        ++ show_path backup))
              else raise e);;
  raise (config_error (u "configuration migration failed and was rolled back; backup: "
                       ++ show_path backup)).
Definition initialize_or_migrate (backups : str) : M disk_io ConfigPreparation :=
  with_lock
    (present ← exists_file (path_of r);
     if negb present then
       empty ← lift empty_config;
       written ← write_unlocked empty;
       mret (Preparation written true false None)
     else
       original ← read_bytes (path_of r);
       loaded ← load_unlocked;
       let '(current, pending) := loaded in
       if negb pending then mret (Preparation current false false None)
       else
         backup ← backup_migration_unlocked backups original;
         try_except (migrate_verified current backup)
           (fun e => if is_exception e then roll_back original backup else raise e)).
End repository.

(** ** What an operation can do to the disk *)
Definition reply_ok (r : res disk_reply) : Prop :=
  match r with
  | Err e | Ok (Partial _ e) => is_os_error e = true
  | _ => True
  end.
(** The system calls fail with [OSError] only. *)
Definition script_ok (s : disk_io) : Prop := Forall reply_ok (script s).
Definition file_at (p : path) (s : disk_io) : option bytes := files (st s) !! p.

Section effects.
Context {U : UnicodeDB} {T : TomlReader}.
Variable r : TomlProfileRepository.
(** The disk when the operation starts *)
Variable d0 : gmap path bytes.

Definition other (q : path) : Prop := (q ≠ path_of r ∧ q ≠ lock_path r) ∧ ∀ hex, q ≠ temporary_path r hex.
(** Taking the lock leaves a lock file that has a byte as it was, and gives one
    that is missing or empty a NUL byte, unless that fails. *)
Definition lock_left (before now : option bytes) : Prop :=
  now = before ∨ (before = None ∨ before = Some []) ∧ (now = Some [] ∨ now = Some [0]).
(** The configuration file holds [f], and every other file is as in [b] but for
    temporaries and the lock file. *)
Definition holds (f : option bytes) (b : gmap path bytes) (s : disk_io) : Prop :=
  script_ok s ∧ file_at (path_of r) s = f ∧ (∀ q, other q → files (st s) !! q = b !! q) ∧
  lock_left (b !! lock_path r) (file_at (lock_path r) s).

Lemma temporary_ne hex : temporary_path r hex ≠ path_of r.
Proof.
  intros H. apply (f_equal (fun p : path => length p.2)) in H. unfold temporary_path, path_of in H.
  cbn [snd] in H. rewrite !length_app in H. change (length (u ".")) with 1%nat in H. lia.
Qed.

Lemma lock_ne : lock_path r ≠ path_of r.
Proof.
  intros H. apply (f_equal (fun p : path => length p.2)) in H. unfold lock_path, path_of in H.
  cbn [snd] in H. rewrite length_app in H. change (length (u ".lock")) with 5%nat in H. lia.
Qed.
Lemma lock_ne_temporary hex : lock_path r ≠ temporary_path r hex.
Proof.
  intros H. apply (f_equal (fun p : path => last p.2)) in H. unfold lock_path, temporary_path in H.
  cbn [snd] in H. change (u ".lock") with (u ".loc" ++ [107]) in H. change (u ".tmp") with (u ".tm" ++ [112]) in H.
  rewrite !app_assoc, !last_snoc in H. discriminate.
Qed.

Lemma holds_step f b s l sc c :
  holds f b s → Forall reply_ok sc → holds f b (Io (Disk (files (st s)) l) sc c).
Proof. intros (_ & Hf & Hb & Hl) Hsc. done. Qed.

Lemma io_eta (s : disk_io) : Disk (files (st s)) (locked (st s)) = st s.
Proof. by destruct s as [[]]. Qed.

(** A predicate that system calls keep, which fail with an OS error *)
Definition stable (P : disk_io → Prop) : Prop :=
  ∀ s sc c l, P s → Forall reply_ok sc → P (Io (Disk (files (st s)) l) sc c).
Definition safe (P : disk_io → Prop) : Prop := stable P ∧ ∀ s, P s → script_ok s.

Lemma triple_syscall P c : safe P →
  triple P P (ask c) (fun a s => P s ∧ reply_ok (Ok a)) (fun e s => P s ∧ is_os_error e = true).
Proof.
  intros [Hst Hok] s Hs. pose proof (Hok s Hs) as Hsc. unfold script_ok in Hsc. unfold ask.
  rewrite <- (io_eta s). destruct (script s) as [|[a|e] rest] eqn:E.
  - by apply Hst.
  - inversion_clear Hsc. split; [by apply Hst|done].
  - inversion_clear Hsc. split; [by apply Hst|done].
Qed.
Lemma triple_call P c : safe P →
  triple P P (call c) (fun _ => P) (fun e s => P s ∧ is_os_error e = true).
Proof.
  intros H. eapply triple_bind; [by apply triple_syscall|]. intros a. apply triple_ret. by intros s [? _].
Qed.

Lemma safe_holds f b : safe (holds f b).
Proof. split; [intros s sc c l Hs Hsc; by apply holds_step|by intros s [? _]]. Qed.

(** Closing a goal about [holds] after the files changed *)
Lemma holds_set f b p content s :
  holds f b s → p = path_of r →
  holds (Some content) b (Io (Disk (<[p := content]> (files (st s))) (locked (st s))) (script s) (trace s)).
Proof.
  intros (Hsc & Hf & Hb & Hl) ->. split; [done|]. split; [apply lookup_insert_eq|]. split.
  - intros q Hq. cbn. rewrite lookup_insert_ne; [by apply Hb|]. destruct Hq as [[? _] _]. congruence.
  - unfold file_at. cbn. rewrite lookup_insert_ne; [done|]. intros E. by apply lock_ne.
Qed.
Lemma holds_set_temporary f b hex content s :
  holds f b s →
  holds f b (Io (Disk (<[temporary_path r hex := content]> (files (st s))) (locked (st s))) (script s) (trace s)).
Proof.
  intros (Hsc & Hf & Hb & Hl). split; [done|]. split; [|split].
  - unfold file_at. cbn. rewrite lookup_insert_ne by apply temporary_ne. done.
  - intros q [Hq Hh]. cbn. rewrite lookup_insert_ne by (by intros <-; eapply Hh). by apply Hb.
  - unfold file_at. cbn. rewrite lookup_insert_ne; [done|]. intros E. by destruct (lock_ne_temporary hex).
Qed.
Lemma holds_drop_temporary f b hex s :
  holds f b s →
  holds f b (Io (Disk (delete (temporary_path r hex) (files (st s))) (locked (st s))) (script s) (trace s)).
Proof.
  intros (Hsc & Hf & Hb & Hl). split; [done|]. split; [|split].
  - unfold file_at. cbn. rewrite lookup_delete_ne by apply temporary_ne. done.
  - intros q [Hq Hh]. cbn. rewrite lookup_delete_ne by (by intros <-; eapply Hh). by apply Hb.
  - unfold file_at. cbn. rewrite lookup_delete_ne; [done|]. intros E. by destruct (lock_ne_temporary hex).
Qed.
(** What opening the lock file may write into it *)
Definition lockable (P : disk_io → Prop) : Prop :=
  ∀ s content, P s → file_at (lock_path r) s = None ∨ file_at (lock_path r) s = Some [] →
    content = [] ∨ content = [0] →
    P (Io (Disk (<[lock_path r := content]> (files (st s))) (locked (st s))) (script s) (trace s)).
Lemma lockable_holds f b : lockable (holds f b).
Proof.
  intros s content (Hsc & Hf & Hb & Hl) Hnow Hc. split; [done|]. split; [|split].
  - unfold file_at. cbn. rewrite lookup_insert_ne by apply lock_ne. done.
  - intros q Hq. cbn. rewrite lookup_insert_ne; [by apply Hb|]. destruct Hq as [[_ ?] _]. congruence.
  - unfold file_at. cbn. rewrite lookup_insert_eq. right. split; [|destruct Hc as [->| ->]; auto].
    destruct Hl as [Hl|[Hl _]]; [by rewrite <- Hl|done].
Qed.

(** The temporary file holds [content]. *)
Definition staged f b hex content (s : disk_io) : Prop :=
  holds f b s ∧ file_at (temporary_path r hex) s = Some content.
Lemma safe_staged f b hex content : safe (staged f b hex content).
Proof.
  split; [|by intros s [[? _] _]]. intros s sc c l [Hs Ht] Hsc. split; [by apply holds_step|done].
Qed.
Lemma safe_or P Q : safe P → safe Q → safe (fun s => P s ∨ Q s).
Proof.
  intros [H1 H2] [H3 H4]. split; [|intros s [H|H]; auto].
  intros s sc c l [H|H] Hsc; [left; by apply H1|right; by apply H3].
Qed.

(** Either content *)
Definition either f content b (s : disk_io) : Prop := holds f b s ∨ holds (Some content) b s.
Lemma safe_either f content b : safe (either f content b).
Proof. apply safe_or; apply safe_holds. Qed.

Lemma triple_secure P dir name : safe P →
  triple P P (secure r dir name) (fun _ => P) (fun e s => P s ∧ is_os_error e = true).
Proof. intros H. unfold secure. destruct (nt r); [by apply triple_call|by apply triple_ret]. Qed.
Lemma triple_sync P : safe P →
  triple P P (sync_directory r) (fun _ => P) (fun e s => P s ∧ is_os_error e = true).
Proof. intros H. unfold sync_directory. destruct (nt r); [by apply triple_ret|by apply triple_call]. Qed.

Lemma triple_open_exclusive f b hex :
  triple (holds f b) (holds f b) (open_exclusive (temporary_path r hex))
    (fun _ => holds f b) (fun e s => holds f b s ∧ is_os_error e = true).
Proof.
  eapply triple_bind; [apply triple_call, safe_holds|]. intros ?.
  unfold exists_file. eapply triple_bind with (Q := fun _ => holds f b).
  { apply triple_state. intros d. apply triple_ret. by intros s [? _]. }
  intros []; [by apply triple_raise|]. apply triple_modify. intros s. apply holds_set_temporary.
Qed.
Lemma triple_write_content f b hex content :
  triple (holds f b) (holds f b) (write_content (temporary_path r hex) content)
    (fun _ => staged f b hex content) (fun e s => holds f b s ∧ is_os_error e = true).
Proof.
  eapply triple_bind; [apply triple_syscall, safe_holds|]. intros a.
  assert (∀ a, triple (holds f b) (fun s => holds f b s ∧ reply_ok (Ok a))
    (set_file (temporary_path r hex) content;; call (FlushFile (temporary_path r hex)))
    (fun _ => staged f b hex content) (fun e s => holds f b s ∧ is_os_error e = true)) as Hok.
  { intros a'. eapply triple_bind with (Q := fun _ => staged f b hex content).
    - apply triple_modify. intros s [Hs _]. split; [by apply holds_set_temporary|apply lookup_insert_eq].
    - intros ?. eapply triple_conseq; [apply triple_call, (safe_staged f b hex content)|done|done| |].
      + by intros e s [[? _] ?].
      + by intros s [? _]. }
  destruct a; try apply Hok.
  eapply triple_bind with (Q := fun _ s => holds f b s ∧ is_os_error e = true).
  - apply triple_modify. intros s [Hs He]. split; [by apply holds_set_temporary|done].
  - intros ?. by apply triple_raise.
Qed.

Lemma triple_replace f b hex content :
  triple (either f content b) (staged f b hex content) (replace_file (temporary_path r hex) (path_of r))
    (fun _ => holds (Some content) b) (fun e s => either f content b s ∧ is_os_error e = true).
Proof.
  eapply triple_bind with (Q := fun _ => staged f b hex content).
  { eapply triple_conseq; [apply triple_call, (safe_staged f b hex content)|done|done| |].
    - intros e s [[? _] ?]. split; [by left|done].
    - intros s [? _]. by left. }
  intros ?. apply triple_state. intros d.
  eapply triple_conseq with (P' := fun s => (files d !! temporary_path r hex = Some content) ∧ holds f b s);
    [|intros s [[Hs Ht] <-]; by split|intros ? ? H; exact H|intros ? ? H; exact H|intros ? H; exact H].
  apply triple_pure. intros ->.
  eapply triple_bind with (Q := fun _ => holds f b).
  - apply triple_modify. intros s. apply holds_drop_temporary.
  - intros ?. apply triple_modify. intros s Hs. by apply (holds_set f b (path_of r) content s).
Qed.

Lemma triple_unlink P hex : safe P →
  (∀ s, P s → P (Io (Disk (delete (temporary_path r hex) (files (st s))) (locked (st s))) (script s) (trace s))) →
  triple P P (unlink (temporary_path r hex)) (fun _ => P) (fun e s => P s ∧ is_os_error e = true).
Proof.
  intros Hs Hd. eapply triple_bind; [by apply triple_call|]. intros ?. apply triple_modify. by apply Hd.
Qed.

(** Writing leaves the old content or the new one, and the new one when it
    returns: a death or a failure anywhere in between never shows a part. *)
Lemma triple_write_bytes f b content :
  triple (either f content b) (holds f b) (write_bytes_unlocked r content)
    (fun _ => holds (Some content) b) (fun e s => either f content b s ∧ is_os_error e = true).
Proof.
  assert (∀ m : M disk_io unit, triple (holds f b) (holds f b) m (fun _ => holds f b)
            (fun e s => holds f b s ∧ is_os_error e = true) →
          triple (either f content b) (holds f b) m (fun _ => holds f b)
            (fun e s => either f content b s ∧ is_os_error e = true)) as Hold.
  { intros m Hm. eapply triple_conseq; [exact Hm|done|done| |]; [|by left].
    intros e s [? ?]. split; [by left|done]. }
  assert (∀ m : M disk_io unit, triple (holds (Some content) b) (holds (Some content) b) m (fun _ => holds (Some content) b)
            (fun e s => holds (Some content) b s ∧ is_os_error e = true) →
          triple (either f content b) (holds (Some content) b) m (fun _ => holds (Some content) b)
            (fun e s => either f content b s ∧ is_os_error e = true)) as Hnew.
  { intros m Hm. eapply triple_conseq; [exact Hm|done|done| |]; [|by right].
    intros e s [? ?]. split; [by right|done]. }
  unfold write_bytes_unlocked.
  eapply triple_bind; [apply Hold, triple_call, safe_holds|]. intros ?.
  eapply triple_bind; [apply Hold, triple_secure, safe_holds|]. intros ?.
  eapply triple_bind with (Q := fun _ => holds f b).
  { unfold fresh_name. eapply triple_bind.
    - eapply triple_conseq; [apply triple_syscall, (safe_holds f b)|done|done| |by left].
      intros e s [? ?]. split; [by left|done].
    - intros [| | |]; try (intros s [Hs _]; by left). by apply triple_ret; intros s [? _]. }
  intros hex. apply triple_finally.
  - eapply triple_bind; [apply Hold, triple_open_exclusive|]. intros ?.
    eapply triple_bind with (Q := fun _ => staged f b hex content).
    { eapply triple_conseq; [apply triple_write_content|done|done| |by left].
      intros e s [? ?]. split; [by left|done]. }
    intros ?. eapply triple_bind with (Q := fun _ => staged f b hex content).
    { eapply triple_conseq; [apply triple_secure, (safe_staged f b hex content)|done|done| |].
      - intros e s [[? _] ?]. split; [by left|done].
      - intros s [? _]. by left. }
    intros ?. eapply triple_bind; [apply triple_replace|]. intros ?.
    eapply triple_bind; [apply Hnew, triple_secure, safe_holds|]. intros ?.
    apply Hnew, triple_sync, safe_holds.
  - intros ?. apply Hnew, triple_unlink; [apply safe_holds|]. intros s. apply holds_drop_temporary.
  - intros e. eapply triple_conseq with (Q' := fun _ s => either f content b s ∧ is_os_error e = true)
      (R' := fun e s => either f content b s ∧ is_os_error e = true)
      (I' := either f content b) (P' := fun s => either f content b s ∧ is_os_error e = true); try done.
    intros s [Hs He].
    pose proof (triple_unlink (either f content b) hex (safe_either f content b)) as Hu.
    specialize (Hu ltac:(intros s' [H|H]; [left|right]; by apply holds_drop_temporary) s Hs).
    destruct (unlink _ s) as [[[]|e'|] s']; [by split|done|done].
Qed.

(** *** The lock *)
Definition lock_error (e : exn) : Prop :=
  is_os_error e = true ∨ ∃ m, e = controlled ConfigLockTimeout m.

Lemma triple_syscall_any P c : safe P → triple P P (call c) (fun _ => P) (fun e s => P s ∧ lock_error e).
Proof.
  intros H. eapply triple_conseq; [by apply triple_call|done|done| |done].
  intros e s [? ?]. split; [done|by left].
Qed.
Lemma triple_set_locked P b : safe P → triple P P (set_locked b) (fun _ => P) (fun e s => P s ∧ lock_error e).
Proof. intros [Hst Hok]. apply triple_modify. intros s Hs. apply Hst; [done|by apply Hok]. Qed.
Lemma triple_clock P : safe P → triple P P clock (fun _ => P) (fun e s => P s ∧ lock_error e).
Proof.
  intros H. unfold clock. eapply triple_bind.
  - eapply triple_conseq; [by apply triple_syscall|done|done| |done]. intros e s [? ?]. split; [done|by left].
  - by intros [| | |] s [? _].
Qed.

Lemma triple_lock_rounds P fuel deadline : safe P →
  triple P P (lock_rounds r fuel deadline) (fun _ => P) (fun e s => P s ∧ lock_error e).
Proof.
  intros H. induction fuel as [|fuel IH]; [by intros s Hs|]. cbn [lock_rounds].
  eapply triple_try with (R := fun e s => P s ∧ lock_error e).
  - eapply triple_bind; [by apply triple_syscall_any|]. intros ?. by apply triple_set_locked.
  - intros e. apply triple_conseq with (I' := P) (P' := fun s => lock_error e ∧ P s)
      (Q' := fun _ => P) (R' := fun e s => P s ∧ lock_error e); [|by intros s [? ?]|done|done|done].
    apply triple_pure. intros He. destruct (is_os_error e); [|by apply triple_raise].
    eapply triple_bind; [by apply triple_clock|]. intros now. destruct (qle deadline now); [|apply IH].
    eapply triple_bind; [by apply triple_syscall_any|]. intros ?. apply triple_raise.
    intros s Hs. split; [done|right; by eexists].
Qed.

Lemma triple_open_lock P : safe P → lockable P →
  triple P P (open_lock r) (fun _ => P) (fun e s => P s ∧ lock_error e).
Proof.
  intros H Hl. unfold open_lock. eapply triple_bind; [by apply triple_syscall_any|]. intros ?.
  apply triple_state. intros d. eapply triple_bind with (Q := fun _ => P).
  { destruct (files d !! lock_path r) as [c|] eqn:E; [apply triple_ret; by intros s [? _]|].
    apply triple_modify. intros s [Hs <-]. by apply Hl; [|left|left]. }
  intros ?. apply triple_state. intros d1. destruct (files d1 !! lock_path r) as [[|x c]|] eqn:E;
    [|apply triple_ret; by intros s [? _]..].
  eapply triple_conseq with (P' := fun s => P s ∧ file_at (lock_path r) s = Some []);
    [|intros s [Hs <-]; by split|intros ? ? Hq; exact Hq|intros ? ? Hq; exact Hq|intros ? Hq; exact Hq].
  assert (safe (fun s => P s ∧ file_at (lock_path r) s = Some [])) as H'.
  { destruct H as [Hst Hok]. split; [|by intros s [? _]; apply Hok]. intros s sc c l [Hs He] Hsc. split; [by apply Hst|done]. }
  unfold write_content. eapply triple_bind with (Q := fun a s => (P s ∧ file_at (lock_path r) s = Some []) ∧ reply_ok (Ok a)).
  { eapply triple_conseq; [by apply (triple_syscall _ _ H')|done|done| |by intros s [? _]].
    intros e s [[? _] ?]. split; [done|by left]. }
  intros reply. assert (triple P (fun s => (P s ∧ file_at (lock_path r) s = Some []) ∧ reply_ok (Ok reply))
    (set_file (lock_path r) [0];; call (FlushFile (lock_path r))) (fun _ => P) (fun e s => P s ∧ lock_error e)) as Hok.
  { eapply triple_bind with (Q := fun _ => P).
    - apply triple_modify. intros s [[Hs He] _]. by apply Hl; [|right|right].
    - intros ?. by apply triple_syscall_any. }
  destruct reply as [| | |k e]; try exact Hok.
  eapply triple_bind with (Q := fun _ s => P s ∧ lock_error e).
  - apply triple_modify. intros s [[Hs He] Hr]. split; [|by left]. apply Hl; [done|by right|]. destruct k as [|[|k]]; [by left|by right..].
  - intros ?. by apply triple_raise.
Qed.
Lemma triple_lock_enter P : safe P → lockable P →
  triple P P (lock_enter r) (fun _ => P) (fun e s => P s ∧ lock_error e).
Proof.
  intros H Hl. unfold lock_enter. do 2 (eapply triple_bind; [by apply triple_syscall_any|]; intros ?).
  eapply triple_bind; [by apply triple_open_lock|]. intros ?. eapply triple_bind; [by apply triple_syscall_any|]. intros ?.
  eapply triple_bind; [by apply triple_clock|]. intros now s Hs.
  by apply (triple_lock_rounds P (S (length (script s))) (qadd now (lock_timeout r)) H).
Qed.

Lemma triple_lock_exit P : safe P →
  triple P P (lock_exit r) (fun _ => P) (fun e s => P s ∧ lock_error e).
Proof.
  intros H. unfold lock_exit. apply triple_finally.
  - by apply triple_syscall_any.
  - intros ?. eapply triple_bind; [by apply triple_syscall_any|]. intros ?. by apply triple_set_locked.
  - intros e. assert (safe (fun s => P s ∧ lock_error e)) as H'.
    { destruct H as [Hst Hok]. split; [|by intros s [? _]; apply Hok]. intros s sc c l [Hs He] Hsc. split; [by apply Hst|done]. }
    eapply triple_conseq with (I' := fun s => P s ∧ lock_error e) (P' := fun s => P s ∧ lock_error e) (Q' := fun _ s => P s ∧ lock_error e) (R' := fun e' s => (P s ∧ lock_error e) ∧ lock_error e');
      [|done|done|by intros e' s [[? _] ?]|by intros s [? _]].
    eapply triple_bind; [by apply (triple_syscall_any _ _ H')|]. intros ?. by apply (triple_set_locked _ _ H').
Qed.

(** The body runs between taking and releasing the lock; a failing release
    replaces what the body returned. *)
Lemma triple_with_lock {A} (I P : disk_io → Prop) (m : M disk_io A) Q R :
  safe P → lockable P → (∀ a, safe (Q a)) → (∀ e, safe (R e)) →
  (∀ s, P s → I s) → (∀ a s, Q a s → I s) → (∀ e s, R e s → I s) →
  (∀ e s, P s → lock_error e → R e s) → (∀ a e s, Q a s → lock_error e → R e s) →
  (∀ e e' s, R e s → lock_error e' → R e' s) →
  triple I P m Q R → triple I P (with_lock r m) Q R.
Proof.
  intros HP HL HQ HR IP IQ IR LP LQ LR Hm. unfold with_lock.
  eapply triple_bind.
  { eapply triple_conseq; [by apply (triple_lock_enter P)|done|done| |done]. intros e s [? ?]. by apply LP. }
  intros ?. apply triple_finally; [exact Hm| |].
  - intros x. eapply triple_conseq; [by apply (triple_lock_exit (Q x))|done|done| |by apply IQ].
    intros e s [? ?]. by eapply LQ.
  - intros e. eapply triple_conseq; [by apply (triple_lock_exit (R e))|done|done| |by apply IR].
    intros e' s [? ?]. by eapply LR.
Qed.

(** *** Loading and writing *)
(** What loading finds in a file with this content *)
Definition loaded_from (f : option bytes) (loaded : ConfigSnapshot * bool) : Prop :=
  match f with
  | Some content => decode_content content = Ok loaded
  | None => loaded = (Snapshot (Config [] CONFIG_SCHEMA_VERSION) (content_hash_of []), false)
  end.
Lemma loaded_hash f loaded : loaded_from f loaded → content_hash loaded.1 = content_hash_of (default [] f).
Proof.
  destruct f as [content|]; cbn; [|by intros ->]. unfold decode_content.
  destruct (utf8_decode content); [|done]. intros H. apply result_bind_Ok in H as (d & _ & H). by injection H as <-.
Qed.

Lemma triple_read_bytes f b :
  triple (holds f b) (holds f b) (read_bytes (path_of r))
    (fun content s => holds f b s ∧ f = Some content) (fun _ => holds f b).
Proof.
  unfold read_bytes. eapply triple_bind.
  { eapply triple_conseq; [apply triple_call, (safe_holds f b)|done|done|by intros e s [? _]|done]. }
  intros ?. apply triple_state. intros d. destruct (files d !! path_of r) as [content|] eqn:E.
  - apply triple_ret. intros s [Hs <-]. split; [done|]. destruct Hs as (_ & Hf & _). unfold file_at in Hf. congruence.
  - apply triple_raise. by intros s [? _].
Qed.
Lemma triple_load f b :
  triple (holds f b) (holds f b) (load_unlocked r)
    (fun loaded s => holds f b s ∧ loaded_from f loaded) (fun _ => holds f b).
Proof.
  unfold load_unlocked. eapply triple_bind with (Q := fun present s => holds f b s ∧ present = bool_decide (is_Some f)).
  { unfold exists_file. apply triple_state. intros d. apply triple_ret. intros s [Hs <-]. split; [done|].
    destruct Hs as (_ & Hf & _). unfold file_at in Hf. by rewrite Hf. }
  intros present. destruct f as [content|]; cbn [is_Some].
  - eapply triple_conseq with (P' := fun s => present = true ∧ holds (Some content) b s);
      [|intros s [? ->]; split; [by rewrite bool_decide_eq_true_2 by eauto|done]|intros ? ? H; exact H|intros ? ? H; exact H|intros ? H; exact H].
    apply triple_pure. intros ->.
    eapply triple_bind; [apply triple_read_bytes|]. intros content'.
    apply triple_lift; [|by intros e s _ [? _]]. intros a s Ha [Hs [= ->]]. by split.
  - eapply triple_conseq with (P' := fun s => present = false ∧ holds None b s);
      [|intros s [? ->]; split; [by rewrite bool_decide_eq_false_2 by (by intros [? ?])|done]|intros ? ? H; exact H|intros ? ? H; exact H|intros ? H; exact H].
    apply triple_pure. intros ->. apply triple_ret. by intros s Hs.
Qed.

(** The file after a configuration was written *)
Definition written (c : ServerOpsConfig) (content : bytes) : Prop := utf8_encode (encode_config c) = Ok content.
Lemma triple_write f b c :
  triple (fun s => holds f b s ∨ ∃ content, written c content ∧ holds (Some content) b s)
    (holds f b) (write_unlocked r c)
    (fun snap s => ∃ content, written c content ∧ snap = Snapshot c (content_hash_of content) ∧ holds (Some content) b s)
    (fun _ s => holds f b s ∨ ∃ content, written c content ∧ holds (Some content) b s).
Proof.
  unfold write_unlocked. destruct (utf8_encode (encode_config c)) as [content|e] eqn:E; [|by intros s Hs; left].
  eapply triple_conseq with (I' := either f content b) (P' := holds f b)
    (Q' := fun snap s => snap = Snapshot c (content_hash_of content) ∧ holds (Some content) b s)
    (R' := fun e s => either f content b s ∧ is_os_error e = true); [|done| | |].
  - eapply triple_bind with (Q := fun x s => x = content ∧ holds f b s).
    { apply triple_lift; [|done]. intros a s [= ->] Hs. by split. }
    intros x. apply triple_pure. intros ->. eapply triple_bind; [apply triple_write_bytes|]. intros ?.
    by apply triple_ret.
  - intros a s [-> Hs]. by exists content.
  - intros e s [[Hs|Hs] _]; [by left|right]. by exists content.
  - intros s [Hs|Hs]; [by left|right]. by exists content.
Qed.

(** *** Updates *)
(** What an update that was allowed to write puts into the file *)
Definition accepted (operation : ServerOpsConfig → res ServerOpsConfig) (expected : option str)
    (f : option bytes) (c : ServerOpsConfig) (content : bytes) : Prop :=
  (∃ loaded, loaded_from f loaded ∧ operation (config loaded.1) = Ok c) ∧
  (∀ h, expected = Some h → h = content_hash_of (default [] f)) ∧ written c content.
Definition updated operation expected f b (s : disk_io) : Prop :=
  holds f b s ∨ ∃ c content, accepted operation expected f c content ∧ holds (Some content) b s.

Lemma safe_exists {A} (P : A → disk_io → Prop) : (∀ a, safe (P a)) → safe (fun s => ∃ a, P a s).
Proof.
  intros H. split; [|by intros s [a Ha]; eapply H]. intros s sc c l [a Ha] Hsc. exists a. by apply H.
Qed.
Lemma safe_and (φ : Prop) (P : disk_io → Prop) : safe P → safe (fun s => φ ∧ P s).
Proof. intros [H1 H2]. split; [|by intros s [_ ?]; apply H2]. intros s sc c l [? ?] Hsc. split; [done|by apply H1]. Qed.
Lemma safe_updated operation expected f b : safe (updated operation expected f b).
Proof.
  apply safe_or; [apply safe_holds|]. apply safe_exists. intros c. apply safe_exists. intros content.
  apply safe_and, safe_holds.
Qed.
Lemma check_hash_Ok current expected x :
  check_hash current expected = Ok x → ∀ h, expected = Some h → h = current.
Proof. intros H h ->. apply raise_if_Ok in H. unfold str_eqb in H. by boolean. Qed.

Lemma triple_update operation expected f b :
  triple (updated operation expected f b) (holds f b) (update_store r operation expected)
    (fun snap s => ∃ content, accepted operation expected f (config snap) content ∧
                   snap = Snapshot (config snap) (content_hash_of content) ∧ holds (Some content) b s)
    (fun _ => updated operation expected f b).
Proof.
  unfold update_store. apply triple_with_lock.
  - apply safe_holds.
  - apply lockable_holds.
  - intros snap. apply safe_exists. intros content. apply safe_and, safe_and, safe_holds.
  - intros _. apply safe_updated.
  - intros s Hs. by left.
  - intros snap s (content & Ha & _ & Hs). right. eauto.
  - done.
  - intros e s Hs _. by left.
  - intros snap e s (content & Ha & _ & Hs) _. right. eauto.
  - done.
  - eapply triple_bind.
    { eapply triple_conseq; [apply triple_load|done|done|by left|by left]. }
    intros loaded. eapply triple_bind with (Q := fun _ s => holds f b s ∧ loaded_from f loaded ∧
      ∀ h, expected = Some h → h = content_hash_of (default [] f)).
    { apply triple_lift; [|by intros e s _ [? _]; left]. intros x s Hx [Hs Hl]. split; [done|]. split; [done|].
      rewrite <- (loaded_hash f loaded Hl). by eapply check_hash_Ok. }
    intros ?. destruct (operation (config loaded.1)) as [c|e] eqn:Eop; [|by intros s [? _]; left].
    intros s (Hs & Hl & He).
    pose proof (triple_write f b c s Hs) as Hw. unfold lift, mbind, prog_mbind, prog_bind.
    destruct (write_unlocked r c s) as [[snap|e|] s'].
    + destruct Hw as (content & Hc & -> & Hs'). exists content. split; [|done]. split; [by exists loaded|done].
    + destruct Hw as [Hw|(content & Hc & Hs')]; [by left|right]. exists c, content. split; [|done].
      split; [by exists loaded|done].
    + destruct Hw as [Hw|(content & Hc & Hs')]; [by left|right]. exists c, content. split; [|done].
      split; [by exists loaded|done].
Qed.
End effects.

(** *** Migration *)
Section migration.
Context {U : UnicodeDB} {T : TomlReader}.
Variable r : TomlProfileRepository.
Variable (backups : str) (original : bytes).
Definition backup : path := (backups, backup_name original).
Hypothesis backup_other : other r backup.

(** The file holds [f]; and the backup holds the original content. *)
Definition kept (f : option bytes) (s : disk_io) : Prop := script_ok s ∧ file_at (path_of r) s = f.
Definition saved (f : option bytes) (s : disk_io) : Prop := kept f s ∧ file_at backup s = Some original.
Lemma safe_kept f : safe (kept f).
Proof. split; [by intros s sc c l [? ?] ?|by intros s [? _]]. Qed.
Lemma safe_saved f : safe (saved f).
Proof. split; [by intros s sc c l [[? ?] ?] ?|by intros s [[? _] _]]. Qed.

Lemma lockable_kept f : lockable r (kept f).
Proof.
  intros s content [Hs Hf] _ _. split; [done|]. unfold file_at. cbn. rewrite lookup_insert_ne; [done|]. apply lock_ne.
Qed.
Lemma kept_set f p content s : p = backup → kept f s →
  kept f (Io (Disk (<[p := content]> (files (st s))) (locked (st s))) (script s) (trace s)).
Proof.
  intros -> [Hs Hf]. split; [done|]. unfold file_at. cbn. rewrite lookup_insert_ne; [done|].
  by destruct backup_other as [[? _] _].
Qed.

Lemma triple_backup f : 
  triple (kept f) (kept f) (backup_migration_unlocked r backups original)
    (fun p s => p = backup ∧ saved f s) (fun _ => kept f).
Proof.
  assert (∀ c, triple (kept f) (kept f) (call c) (fun _ => kept f) (fun _ => kept f)) as Hcall.
  { intros c. eapply triple_conseq; [apply triple_call, safe_kept|done|done|by intros e s [? _]|done]. }
  unfold backup_migration_unlocked. fold backup.
  eapply triple_bind; [apply Hcall|]. intros ?.
  eapply triple_bind with (Q := fun _ => kept f).
  { eapply triple_conseq; [apply triple_secure, safe_kept|done|done|by intros e s [? _]|done]. }
  intros ?. eapply triple_bind with (Q := fun _ => kept f).
  { apply triple_state. intros d. apply triple_ret. by intros s [? _]. }
  intros [].
  - eapply triple_bind with (Q := fun content s => kept f s ∧ file_at backup s = Some content).
    { unfold read_bytes. eapply triple_bind; [apply Hcall|]. intros ?. apply triple_state. intros d.
      destruct (files d !! backup) eqn:E; [|by apply triple_raise; intros s [? _]].
      apply triple_ret. by intros s [? <-]. }
    intros content. unfold str_eqb. case_bool_decide as Hc; [|by apply triple_raise; intros s [? _]].
    apply triple_ret. intros s [? ?]. subst content. done.
  - eapply triple_bind with (Q := fun _ => kept f).
    { unfold open_exclusive. eapply triple_bind; [apply Hcall|]. intros ?.
      eapply triple_bind with (Q := fun _ => kept f).
      { apply triple_state. intros d. apply triple_ret. by intros s [? _]. }
      intros []; [by apply triple_raise|]. apply triple_modify. intros s Hs. by apply kept_set. }
    intros ?. eapply triple_bind with (Q := fun _ => saved f).
    { unfold write_content. eapply triple_bind.
      { eapply triple_conseq; [apply (triple_syscall (kept f)), safe_kept|done|done|by intros e s [? _]|done]. }
      intros reply. destruct reply.
      4: { eapply triple_bind with (Q := fun _ => kept f).
           - apply triple_modify. intros s [Hs _]. by apply kept_set.
           - intros ?. by apply triple_raise. }
      all: eapply triple_bind with (Q := fun _ => saved f);
        [apply triple_modify; intros s [Hs _]; split; [by apply kept_set|apply lookup_insert_eq]|].
      all: intros ?; eapply triple_conseq; [apply (triple_call (saved f)), safe_saved|done|done| |];
        [by intros e s [[? _] _]|by intros s [? _]]. }
    intros ?. eapply triple_bind with (Q := fun _ => saved f).
    { eapply triple_conseq; [apply (triple_secure r (saved f)), safe_saved|done|done| |];
        [by intros e s [[? _] _]|by intros s [? _]]. }
    intros ?. by apply triple_ret.
Qed.

(** Whatever the file holds, the backup keeps the original. *)
Definition backed (s : disk_io) : Prop := script_ok s ∧ file_at backup s = Some original.
Lemma holds_backed f s0 s : backed s0 → holds r f (files (st s0)) s → backed s.
Proof. intros [_ Hb] (Hs & _ & Ho & _). split; [done|]. unfold file_at. by rewrite Ho. Qed.

(** The migrated content is in the file. *)
Definition migration_done (current : ConfigSnapshot) (s : disk_io) : Prop :=
  backed s ∧ ∃ content, written (config current) content ∧ file_at (path_of r) s = Some content.

Lemma triple_migrate_verified current f :
  triple backed (saved f) (migrate_verified r current backup)
    (fun prep s => migrated prep = true ∧ migration_done current s) (fun _ => backed).
Proof.
  intros s0 [[Hs0 Hf] Hb]. assert (backed s0) as Hb0 by done.
  assert (holds r f (files (st s0)) s0) as Hh by (split_and!; [done..|by left]). revert s0 Hs0 Hf Hb Hb0 Hh.
  intros s0 Hs0 Hf Hb Hb0 Hh.
  pose proof (triple_write r f (files (st s0)) (config current) s0 Hh) as Hw.
  unfold migrate_verified, mbind, prog_mbind, prog_bind.
  destruct (write_unlocked r (config current) s0) as [[snap|e|] s1];
    [|by destruct Hw as [Hw|(content & _ & Hw)]; eapply holds_backed..].
  destruct Hw as (content & Hc & -> & Hh1).
  pose proof (triple_load r (Some content) (files (st s0)) s1 Hh1) as Hl.
  destruct (load_unlocked r s1) as [[[verified pending]|e|] s2]; [|by eapply holds_backed..].
  destruct Hl as [Hh2 _]. destruct (pending || _); [by eapply holds_backed|].
  split; [done|]. split; [by eapply holds_backed|]. exists content. split; [done|]. by destruct Hh2 as (_ & ? & _).
Qed.

Definition rolled_back_error : exn :=
  config_error (u "configuration migration failed and was rolled back; backup: " ++ show_path backup).
Lemma triple_roll_back :
  triple backed backed (roll_back r original backup)
    (fun _ _ => False)
    (fun e s => backed s ∧ (e = rolled_back_error → file_at (path_of r) s = Some original)).
Proof.
  intros s0 Hb0. destruct Hb0 as [Hs0 Hb]. pose proof (conj Hs0 Hb : backed s0) as Hb0.
  pose proof (triple_write_bytes r (file_at (path_of r) s0) (files (st s0)) original s0 ltac:(split_and!; [done..|by left])) as Hw.
  unfold roll_back, try_except, mbind, prog_mbind, prog_bind.
  destruct (write_bytes_unlocked r original s0) as [[[]|e|] s1].
  - split; [by eapply holds_backed|]. intros _. by destruct Hw as (_ & ? & _).
  - destruct Hw as [Hw He]. assert (backed s1) as Hb1 by (destruct Hw; by eapply holds_backed).
    assert (is_exception e = true) as -> by (by destruct e as [[]|]). split; [done|].
    intros H. exfalso. apply (f_equal error_message) in H.
    unfold rolled_back_error, config_error, controlled in H. cbn [error_message] in H.
    apply (f_equal (take 30)) in H.
    rewrite !take_app_le in H by (vm_compute; lia). vm_compute in H. discriminate.
  - by destruct Hw; eapply holds_backed.
Qed.

Definition migration_returns (prep : ConfigPreparation) (s : disk_io) : Prop :=
  if migrated prep
  then ∃ current, decode_content original = Ok (current, true) ∧ migration_done current s
  else kept (Some original) s.
Definition migration_fails (e : exn) (s : disk_io) : Prop :=
  kept (Some original) s ∨ (backed s ∧ (e = rolled_back_error → file_at (path_of r) s = Some original)).
Definition recoverable (s : disk_io) : Prop := kept (Some original) s ∨ backed s.

Lemma safe_backed : safe backed.
Proof. split; [by intros s sc c l [? ?] ?|by intros s [? _]]. Qed.
Lemma safe_migration_done current : safe (migration_done current).
Proof.
  split; [|by intros s [[? _] _]]. intros s sc c l [[? ?] Hx] Hsc. split; [done|exact Hx].
Qed.
Lemma safe_migration_returns prep : safe (migration_returns prep).
Proof.
  unfold migration_returns. destruct (migrated prep); [|apply safe_kept].
  apply safe_exists. intros current. apply safe_and, safe_migration_done.
Qed.
Lemma safe_migration_fails e : safe (migration_fails e).
Proof.
  apply safe_or; [apply safe_kept|]. split; [|by intros s [[? _] _]].
  intros s sc c l [[? ?] Hx] Hsc. split; [done|exact Hx].
Qed.
Lemma lock_error_ne e : lock_error e → e ≠ rolled_back_error.
Proof. intros [H|[m ->]] E; [by rewrite E in H|]. by apply (f_equal (fun e => isinstance e ConfigLockTimeout)) in E. Qed.

(** Programs that keep the original are recoverable all along. *)
Lemma triple_kept {A} (m : M disk_io A) Q :
  triple (kept (Some original)) (kept (Some original)) m Q (fun _ => kept (Some original)) →
  triple recoverable (kept (Some original)) m Q migration_fails.
Proof. intros H. eapply triple_conseq; [exact H|done|done|by left|by left]. Qed.

Lemma triple_initialize :
  triple recoverable (kept (Some original)) (initialize_or_migrate r backups) migration_returns migration_fails.
Proof.
  unfold initialize_or_migrate. apply triple_with_lock.
  - apply safe_kept.
  - apply lockable_kept.
  - apply safe_migration_returns.
  - apply safe_migration_fails.
  - by left.
  - intros prep s. unfold migration_returns. destruct (migrated prep); [|by left].
    intros (? & _ & ? & _). by right.
  - intros e s [H|[H _]]; [by left|by right].
  - by left.
  - intros prep e s. unfold migration_returns. intros H He. destruct (migrated prep); [|by left].
    destruct H as (? & _ & ? & _). right. split; [done|]. intros E. by apply lock_error_ne in E.
  - intros e e' s [H|[H _]] He; [by left|right]. split; [done|]. intros E. by apply lock_error_ne in E.
  - eapply triple_bind with (Q := fun present s => present = true ∧ kept (Some original) s).
    { unfold exists_file. apply triple_state. intros d. apply triple_ret. intros s [[Hs Hf] <-].
      unfold file_at in Hf. rewrite Hf. done. }
    intros present. apply triple_pure. intros ->. cbn [negb].
    eapply triple_bind with (Q := fun content s => content = original ∧ kept (Some original) s).
    { apply triple_kept. intros s Hs.
      pose proof (triple_read_bytes r (Some original) (files (st s)) s ltac:(destruct Hs; split_and!; [done..|by left])) as H.
      destruct (read_bytes _ s) as [[x|e|] s']; [destruct H as [(? & ? & _) [= <-]]|by destruct H as (? & ? & _)..].
      done. }
    intros content. apply triple_pure. intros ->.
    eapply triple_bind with (Q := fun loaded s => decode_content original = Ok loaded ∧ kept (Some original) s).
    { apply triple_kept. intros s Hs.
      pose proof (triple_load r (Some original) (files (st s)) s ltac:(destruct Hs; split_and!; [done..|by left])) as H.
      destruct (load_unlocked r s) as [[x|e|] s']; [destruct H as [(? & ? & _) ?]|by destruct H as (? & ? & _)..].
      done. }
    intros [current pending]. apply triple_pure. intros Hdec.
    destruct pending; [|by apply triple_ret].
    eapply triple_bind; [apply triple_kept, triple_backup|]. intros p. apply triple_pure. intros ->.
    eapply triple_try with (R := fun _ => backed).
    + eapply triple_conseq; [apply (triple_migrate_verified current (Some original))|done| |done|by right].
      intros prep s [Hm Hd]. unfold migration_returns. rewrite Hm. by exists current.
    + intros e. destruct (is_exception e) eqn:He.
      * eapply triple_conseq; [apply triple_roll_back|done|done|by right|by right].
      * apply triple_raise. intros s Hs. right. split; [done|]. by intros ->.
Qed.
End migration.

Section guarantees.
Context {U : UnicodeDB} {T : TomlReader}.

(** C8: However an update ends, by returning, by an error at any
    system call, or by the process dying at any of them, the configuration
    file holds its old content or the complete text of the configuration the
    operation computed from it, and no other file has changed but the lock
    file, which is created with a byte to lock if it was missing or empty, and
    the store's temporaries, which an update that was cut short or could not
    remove its own may leave behind.  The new text appears only when the caller's hash, if it gave one, is the
    hash of the content that was read; on return it is there and the snapshot
    describes it. *)
Theorem update_atomic r operation expected s :
  script_ok s →
  let f := file_at (path_of r) s in
  let '(o, s') := update_store r operation expected s in
  (file_at (path_of r) s' = f ∨
   ∃ c content, accepted operation expected f c content ∧ file_at (path_of r) s' = Some content) ∧
  (∀ q, other r q → files (st s') !! q = files (st s) !! q) ∧
  lock_left (file_at (lock_path r) s) (file_at (lock_path r) s') ∧
  (∀ snap, o = Ret snap → ∃ content, accepted operation expected f (config snap) content ∧
     content_hash snap = content_hash_of content ∧ file_at (path_of r) s' = Some content).
Proof.
  intros Hs f.
  pose proof (triple_update r operation expected f (files (st s)) s ltac:(split_and!; [done..|by left])) as H.
  destruct (update_store r operation expected s) as [[snap|e|] s'].
  - destruct H as (content & Ha & Hsnap & _ & Hf & Ho & Hl). split_and!; [|done|done|].
    + right. by exists (config snap), content.
    + intros snap' [= <-]. exists content. split; [done|]. by rewrite Hsnap.
  - destruct H as [(_ & Hf & Ho & Hl)|(c & content & Ha & _ & Hf & Ho & Hl)]; (split_and!; [|done..]);
      [by left|right; by exists c, content].
  - destruct H as [(_ & Hf & Ho & Hl)|(c & content & Ha & _ & Hf & Ho & Hl)]; (split_and!; [|done..]);
      [by left|right; by exists c, content].
Qed.

(** A migration never loses the original text: wherever it
    stops, the configuration file or the backup holds it.  When it fails and
    says it rolled back, the file holds it; when it returns a migrated
    snapshot, the file holds the complete migrated text and the backup the
    original; when there was nothing to migrate, the file is unchanged. *)
Theorem migration_keeps_original r backups original s :
  script_ok s → file_at (path_of r) s = Some original → other r (backup backups original) →
  let '(o, s') := initialize_or_migrate r backups s in
  (file_at (path_of r) s' = Some original ∨ file_at (backup backups original) s' = Some original) ∧
  (o = Raise (rolled_back_error backups original) → file_at (path_of r) s' = Some original) ∧
  (∀ prep, o = Ret prep →
     if migrated prep
     then file_at (backup backups original) s' = Some original ∧
          ∃ current content, decode_content original = Ok (current, true) ∧
            written (config current) content ∧ file_at (path_of r) s' = Some content
     else file_at (path_of r) s' = Some original).
Proof.
  intros Hs Hf Ho. pose proof (triple_initialize r backups original Ho s (conj Hs Hf)) as H.
  destruct (initialize_or_migrate r backups s) as [[prep|e|] s'].
  - unfold migration_returns in H. split_and!; [|done|].
    + destruct (migrated prep); [destruct H as (? & _ & [_ ?] & _); by right|destruct H; by left].
    + intros prep' [= <-]. destruct (migrated prep); [|by destruct H].
      destruct H as (current & Hd & [_ Hb] & content & Hw & Hc). split; [done|]. by exists current, content.
  - split_and!; [|intros [= ->]|done].
    + destruct H as [[_ ?]|[[_ ?] _]]; [by left|by right].
    + destruct H as [[_ ?]|[_ H]]; [done|by apply H].
  - split_and!; [|done|done]. destruct H as [[_ ?]|[_ ?]]; [by left|by right].
Qed.
End guarantees.

(** ** Concrete runs *)
Definition sample_store : TomlProfileRepository := Repository (u "C:/data") (u "config.toml") (qz 5) true.
Definition done_calls (n : nat) : list (res disk_reply) := replicate n (Ok Done).
Definition start_disk (contents : gmap path bytes) (answers : list (res disk_reply)) : disk_io :=
  Io (Disk contents false) answers [].
(** Take the lock, whose file is there, read the file, write it anew, release the lock *)
Definition update_script : list (res disk_reply) :=
  done_calls 4 ++ [Ok (Time (qz 0)); Ok Done] ++ done_calls 1
  ++ done_calls 2 ++ [Ok (Token (u "00ff"))] ++ done_calls 7 ++ done_calls 2.
Lemma done_calls_ok n : Forall reply_ok (done_calls n).
Proof. by apply Forall_replicate. Qed.

Definition empty_text : bytes := utf8_bytes (encode_config (Config [] CONFIG_SCHEMA_VERSION)).
(** The first use of the store: the lock file is made. *)
Definition first_script : list (res disk_reply) := done_calls 2 ++ update_script.
Definition sample_disk : disk_io := start_disk {[ path_of sample_store := empty_text ]} first_script.
Lemma sample_disk_ok : script_ok sample_disk.
Proof. unfold script_ok. cbn. by repeat constructor. Qed.
Definition add_web (c : ServerOpsConfig) : res ServerOpsConfig :=
  with_profile (U := ascii_db) c (u "web") stored_profile.

Lemma update_atomic_witness :
  let '(o, s') := update_store (U := ascii_db) (T := fragment_reader) sample_store add_web
                    (Some (content_hash_of empty_text)) sample_disk in
  (∃ snap, o = Ret snap) ∧ file_at (lock_path sample_store) s' = Some [0] ∧
  ∀ q, other sample_store q → files (st s') !! q = files (st sample_disk) !! q.
Proof.
  pose proof (update_atomic (U := ascii_db) (T := fragment_reader) sample_store add_web
    (Some (content_hash_of empty_text)) sample_disk sample_disk_ok) as H.
  assert (∃ snap, (update_store (U := ascii_db) (T := fragment_reader) sample_store add_web
    (Some (content_hash_of empty_text)) sample_disk).1 = Ret snap) as Hr
    by (eexists; vm_compute; reflexivity).
  assert (file_at (lock_path sample_store) (update_store (U := ascii_db) (T := fragment_reader) sample_store add_web
    (Some (content_hash_of empty_text)) sample_disk).2 = Some [0]) as Hl by (vm_compute; reflexivity).
  destruct (update_store _ _ _ _) as [o s']. split; [exact Hr|]. split; [exact Hl|exact (proj1 (proj2 H))].
Defined.

(** A document of version 0: the empty one *)
Definition old_text : bytes := nl.
Definition old_disk (answers : list (res disk_reply)) : disk_io :=
  start_disk {[ path_of sample_store := old_text ]} answers.
Definition lock_script : list (res disk_reply) := done_calls 6 ++ [Ok (Time (qz 0)); Ok Done].
(** Everything succeeds: two reads, the backup, the new text, its verification *)
Definition migration_script : list (res disk_reply) :=
  lock_script ++ done_calls 2 ++ done_calls 6 ++ done_calls 2 ++ [Ok (Token (u "00ff"))]
  ++ done_calls 7 ++ done_calls 1 ++ done_calls 2.

Lemma sample_backup_other : other sample_store (backup (u "C:/backups") old_text).
Proof.
  split; [split|].
  - intros H. apply (f_equal fst) in H. discriminate.
  - intros H. apply (f_equal fst) in H. discriminate.
  - intros hex H. apply (f_equal fst) in H. discriminate.
Qed.

Lemma migration_keeps_original_witness :
  let '(o, s') := initialize_or_migrate (U := ascii_db) (T := fragment_reader) sample_store (u "C:/backups")
                    (old_disk migration_script) in
  (∃ prep, o = Ret prep ∧ migrated prep = true) ∧
  (file_at (path_of sample_store) s' = Some old_text ∨
   file_at (backup (u "C:/backups") old_text) s' = Some old_text).
Proof.
  assert (script_ok (old_disk migration_script)) as Hs
    by (unfold script_ok; cbn; by repeat constructor).
  pose proof (migration_keeps_original (U := ascii_db) (T := fragment_reader) sample_store (u "C:/backups")
    old_text (old_disk migration_script) Hs eq_refl sample_backup_other) as H.
  assert (∃ prep, (initialize_or_migrate (U := ascii_db) (T := fragment_reader) sample_store (u "C:/backups")
    (old_disk migration_script)).1 = Ret prep ∧ migrated prep = true) as Hr
    by (eexists; split; [vm_compute; reflexivity|reflexivity]).
  destruct (initialize_or_migrate _ _ _) as [o s']. split; [exact Hr|exact (proj1 H)].
Defined.

(** A write of the backup that fails leaves a part of it, which makes every
    later migration fail with a collision although no call fails any more. *)
Definition broken_backup_script : list (res disk_reply) :=
  lock_script ++ done_calls 2 ++ done_calls 3 ++ [Ok (Partial 0 (Builtin OSError (u "disk full")))] ++ done_calls 2.
Definition after_broken_backup : gmap path bytes :=
  files (st (initialize_or_migrate (U := ascii_db) (T := fragment_reader) sample_store (u "C:/backups")
               (old_disk broken_backup_script)).2).
Lemma failed_backup_blocks_migration :
  (initialize_or_migrate (U := ascii_db) (T := fragment_reader) sample_store (u "C:/backups")
     (start_disk after_broken_backup (drop 2 migration_script))).1 =
  Raise (config_error (u "configuration migration backup collision: "
                       ++ show_path (backup (u "C:/backups") old_text))).
Proof. vm_compute. reflexivity. Qed.
