(* ===== verification/Ipc.v ===== *)
(** * Ipc: the messages between the processes (ipc/messages.py, ipc/router.py, ipc/constants.py)

    An envelope is validated when it is constructed, printed as compact JSON
    and read back with duplicate fields refused.  The router dispatches a
    request to the handler registered for its type. *)
From S2P Require Import Prelude Errors Text TextFacts Regex Value Json ConfigModel.

Definition MAX_IPC_MESSAGE_BYTES : Z := 262144.
Definition MAX_AUTH_MESSAGE_BYTES : Z := 16384.
Definition IPC_HANDSHAKE_TIMEOUT_SECONDS : Q := qz 5.
Definition IPC_FRAME_TIMEOUT_SECONDS : Q := qz 5.
Definition BROKER_PROTOCOL_VERSION : Z := 3.
Definition WORKER_PROTOCOL_VERSION : Z := 3.

Definition ipc_message_error (m : str) : exn := controlled IpcMessageError m.

(** ** Envelopes *)
Definition MESSAGE_ID : re :=
  RSeqs [RBol; RRange 8 64 (RChar (cls [(65, 90); (97, 122); (48, 57); (95, 95); (45, 45)])); REol].
Definition MESSAGE_TYPE : re :=
  RSeqs [RBol; RChar (cls [(97, 122)]); RUpto 63 (RChar (cls [(97, 122); (48, 57); (95, 95); (46, 46); (45, 45)])); REol].
Definition ENVELOPE_FIELDS : list str := [u "protocol_version"; u "message_id"; u "message_type"; u "payload"].

Record Envelope := Env {
  protocol_version : Z; message_id : str; message_type : str; payload : dict value }.

Section envelopes.
Context {U : UnicodeDB} {F : FloatIO}.

(** [pattern.fullmatch(v)] on a value that need not be text *)
Definition match_text (pattern : re) (v : value) (message : str) : res str :=
  match v with
  | VStr s => raise_if (negb (fullmatch pattern s)) (ipc_message_error message);; Ok s
  | _ => Err (type_error (u "expected string or bytes-like object"))
  end.
(** The constructor of [Envelope], with its checks *)
Definition envelope (version id kind body : value) : res Envelope :=
  n ← (match version with
       | VInt n => Ok n
       | _ => Err (ipc_message_error (u "protocol_version must be an integer"))
       end);
  i ← match_text MESSAGE_ID id (u "message_id has an invalid format");
  t ← match_text MESSAGE_TYPE kind (u "message_type has an invalid format");
  match body with
  | VDict d => Ok (Env n i t d)
  | _ => Err (ipc_message_error (u "payload must be an object"))
  end.
(** [Envelope.create]: [fresh] is [uuid.uuid4().hex]. *)
Definition create (fresh kind : str) (body : option (dict value)) (id : option str) : res Envelope :=
  envelope (VInt BROKER_PROTOCOL_VERSION)
    (VStr (match id with Some (c :: i) => c :: i | _ => u "msg_" ++ fresh end))
    (VStr kind) (VDict (default [] body)).

(** ** Encoding *)
Definition too_long (max_bytes : Z) : exn :=
  ipc_message_error (u "message exceeds the " ++ show_int max_bytes ++ u "-byte limit").
Definition document (e : Envelope) : value :=
  VDict [(u "protocol_version", VInt (protocol_version e)); (u "message_id", VStr (message_id e));
         (u "message_type", VStr (message_type e)); (u "payload", VDict (payload e))].
(** A [TypeError] or a [ValueError] of the encoder is an invalid message. *)
Definition encoded (r : res bytes) : res bytes :=
  match r with
  | Err e => if is_value_error e || (match e with Builtin TypeError _ => true | _ => false end)
             then Err (ipc_message_error (u "message payload is not valid JSON")) else Err e
  | ok => ok
  end.
Definition encode_envelope (e : Envelope) (max_bytes : Z) : res bytes :=
  b ← encoded (t ← json_dumps (document e); utf8_encode t);
  raise_if ((len b =? 0) || (max_bytes <? len b)) (too_long max_bytes);;
  Ok b.

(** ** Decoding *)
Fixpoint unique_pairs (duplicate : str → exn) (pairs : list (str * value)) (d : dict value) : res (dict value) :=
  match pairs with
  | [] => Ok d
  | (k, v) :: pairs => if dhas d k then Err (duplicate k) else unique_pairs duplicate pairs (dset d k v)
  end.
Definition reject_duplicate_keys (pairs : list (str * value)) : res value :=
  VDict <$> unique_pairs (fun k => ipc_message_error (u "duplicate JSON field: " ++ k)) pairs [].
Definition not_json : exn := ipc_message_error (u "message is not valid UTF-8 JSON").
Definition decode_document (b : bytes) : res value :=
  match utf8_decode b with
  | UBad _ _ => Err not_json
  | UText t => match json_loads reject_duplicate_keys t with
               | Ok v => Ok v
               | Err JsonDecodeError => Err not_json
               | Err (JsonRaised e) => Err e
               end
  end.
Definition protocol_mismatch (got : Z) : exn :=
  controlled ProtocolVersionError
    (u "broker protocol mismatch: expected " ++ show_int BROKER_PROTOCOL_VERSION ++ u ", got " ++ show_int got).
Definition decode_envelope (b : bytes) (max_bytes : Z) : res Envelope :=
  raise_if ((len b =? 0) || (max_bytes <? len b)) (too_long max_bytes);;
  v ← decode_document b;
  match v with
  | VDict d =>
      raise_if (negb (same_set (dkeys d) ENVELOPE_FIELDS))
        (ipc_message_error (u "message envelope fields do not match the protocol"));;
      version ← getitem d (u "protocol_version");
      id ← getitem d (u "message_id");
      kind ← getitem d (u "message_type");
      body ← getitem d (u "payload");
      e ← envelope version id kind body;
      raise_if (negb (protocol_version e =? BROKER_PROTOCOL_VERSION)) (protocol_mismatch (protocol_version e));;
      Ok e
  | _ => Err (ipc_message_error (u "message envelope must be an object"))
  end.
End envelopes.

(** ** The router (ipc/router.py) *)
Section router.
Context {U : UnicodeDB} {F : FloatIO}.
(** A handler acts on the state of the process it serves. *)
Context {S : Type}.
Definition MessageHandler : Type := dict value → M S (dict value).
Definition MessageRouter : Type := dict MessageHandler.
(** [fresh] and [fresh'] are the identifiers drawn for messages without one. *)
Definition register (router : MessageRouter) (fresh kind : str) (h : MessageHandler) : res MessageRouter :=
  raise_if (dhas router kind) (value_error (u "message handler is already registered: " ++ kind));;
  create fresh kind None None;;
  Ok (dset router kind h).
Definition dispatch (router : MessageRouter) (fresh : str) (request : Envelope) : M S Envelope :=
  match dget router (message_type request) with
  | None =>
      lift (create fresh (u "error")
              (Some [(u "code", VStr (u "unknown_message_type")); (u "message_type", VStr (message_type request))])
              (Some (message_id request)))
  | Some h =>
      body ← h (payload request);
      lift (create fresh (message_type request ++ u ".result") (Some body) (Some (message_id request)))
  end.
End router.

(** ** Responses
    The response of a request carries its identifier, and its type unless it
    reports an error. *)
Definition responds (request response : Envelope) : Prop :=
  message_id response = message_id request ∧
  (message_type response = message_type request ++ u ".result" ∨ message_type response = u "error").
Section responses.
Context {U : UnicodeDB}.
Lemma create_responds request body response kind :
  create [] kind (Some body) (Some (message_id request)) = Ok response →
  message_id response = message_id request ∧ message_type response = kind.
Proof.
  intros H. unfold create, envelope, match_text in H. inv_ok H. apply Ok_inj in H as <-.
  apply Ok_inj in Ha as <-. inv_ok Ha0. inv_ok Ha1. apply Ok_inj in Ha0, Ha1. cbn. subst.
  split; [|done]. destruct (message_id request); [|done]. vm_compute in Ha2. discriminate.
Qed.
End responses.

(** ** Reading back what was sent *)
Section roundtrip.
Context {U : UnicodeDB} {F : FloatIO}.

Record envelope_wf (e : Envelope) : Prop := {
  wf_version : protocol_version e = BROKER_PROTOCOL_VERSION;
  wf_id : fullmatch MESSAGE_ID (message_id e) = true;
  wf_type : fullmatch MESSAGE_TYPE (message_type e) = true;
  wf_payload : json_ok (VDict (payload e));
}.

Lemma class_chars p s : (∀ c, p c = true → is_ascii c = true) → forallb p s = true → Forall char_ok s.
Proof.
  intros Hp H. apply ascii_chars. rewrite forallb_forall in *. auto.
Qed.
Lemma cls_ascii l c :
  forallb (fun r => (0 <=? r.1) && (r.2 <? 128)) l = true → cls l c = true → is_ascii c = true.
Proof.
  unfold cls. rewrite forallb_forall. intros Hl Hc. apply existsb_exists in Hc as ([a b] & Hin & Hc).
  specialize (Hl _ Hin). cbn in *. unfold is_ascii. boolean. by zcmp.
Qed.
Lemma message_id_chars s : fullmatch MESSAGE_ID s = true → Forall char_ok s.
Proof. intros H. eapply class_chars; [|by eapply class_range_text]. intros c. apply cls_ascii. reflexivity. Qed.
Lemma message_type_chars s : fullmatch MESSAGE_TYPE s = true → Forall char_ok s.
Proof.
  intros (t & H & Ht)%fullmatch_lang. eapply class_chars; [|by eapply class_upto_text]. cbv beta.
  intros c [Hc|Hc]%orb_true_iff; (eapply cls_ascii; [|exact Hc]; reflexivity).
Qed.

Lemma unique_pairs_ok dup d acc :
  dwf (acc ++ d) → unique_pairs dup d acc = Ok (acc ++ d).
Proof.
  revert acc. induction d as [|[k v] d IH]; intros acc Hwf; [by rewrite app_nil_r|]. cbn [unique_pairs].
  unfold dwf, dkeys in *. rewrite map_app in Hwf. cbn [map fst] in Hwf.
  apply NoDup_app in Hwf as (Ha & Hd & Hkd). assert (k ∉ dkeys acc) as Hk.
  { intros Hin. apply (Hd _ Hin). by left. }
  unfold dhas. rewrite bool_decide_eq_false_2 by done.
  assert (dset acc k v = acc ++ [(k, v)]) as ->.
  { clear -Hk. induction acc as [|[k1 v1] acc IH]; [done|]. cbn in *. rewrite decide_False by set_solver.
    rewrite IH by set_solver. done. }
  rewrite IH; [by rewrite <- app_assoc|]. rewrite <- app_assoc, map_app. apply NoDup_app. split; [done|].
  split; [|done]. intros x Hx. by apply Hd.
Qed.
Lemma reject_duplicates_ok d : dwf d → reject_duplicate_keys d = Ok (VDict d).
Proof. intros H. unfold reject_duplicate_keys. by rewrite unique_pairs_ok. Qed.

Lemma envelope_ok n i k p :
  fullmatch MESSAGE_ID i = true → fullmatch MESSAGE_TYPE k = true →
  envelope (VInt n) (VStr i) (VStr k) (VDict p) = Ok (Env n i k p).
Proof. intros Hi Hk. unfold envelope, match_text. cbn [mbind result_mbind result_bind]. by rewrite Hi, Hk. Qed.
Lemma document_ok e : envelope_wf e → json_ok (document e).
Proof.
  intros [Hv Hi Ht Hp]. constructor.
  - unfold dwf. apply (bool_decide_unpack _). vm_compute. exact I.
  - do 4 (apply Forall_cons_2; [by apply ascii_chars|]). apply Forall_nil_2.
  - apply Forall_cons_2; [|apply Forall_cons_2; [|apply Forall_cons_2; [|apply Forall_cons_2; [exact Hp|apply Forall_nil_2]]]];
      constructor.
    + rewrite Hv. vm_compute. lia.
    + by apply message_id_chars.
    + by apply message_type_chars.
Qed.
Lemma encode_text s b : utf8_encode s = Ok b → Forall char_ok s → utf8_decode b = UText s.
Proof.
  unfold utf8_encode. destruct (existsb surrogate s) eqn:E; [done|]. intros [= <-] H. apply utf8_decode_encode.
  rewrite forallb_forall. intros c Hc. rewrite Forall_forall in H. specialize (H c ltac:(by apply list_elem_of_In)).
  unfold char_ok in H. unfold code_point. zcmp. apply negb_true_iff.
  destruct (surrogate c) eqn:Es; [|done]. assert (existsb surrogate s = true) by (apply existsb_exists; eauto).
  congruence.
Qed.
Lemma encoded_Ok r b : encoded r = Ok b → r = Ok b.
Proof. destruct r as [|e]; [done|]. cbn. by destruct (is_value_error e || _). Qed.

(** Every envelope the processes build from JSON values is read
    back as it was sent, within the size limit both sides use. *)
Theorem envelope_roundtrip e max_bytes b :
  envelope_wf e → encode_envelope e max_bytes = Ok b →
  len b <= max_bytes ∧ decode_envelope b max_bytes = Ok e.
Proof.
  intros Hwf H. unfold encode_envelope in H. inv_ok H. apply encoded_Ok in Ha.
  apply result_bind_Ok in Ha as (t & Ht & Hb). apply raise_if_Ok in Ha0. apply Ok_inj in H; subst a.
  pose proof (document_ok e Hwf) as Hd. unfold decode_envelope. rewrite Ha0. cbn [raise_if mbind result_mbind result_bind].
  boolean. split; [done|].
  unfold decode_document. rewrite (encode_text t b Hb (json_dumps_chars _ Hd _ Ht)).
  rewrite (json_loads_dumps _ reject_duplicates_ok _ _ Hd Ht). destruct e as [n i k p], Hwf as [Hv Hi Hk Hp].
  cbn [protocol_version message_id message_type payload] in Hv, Hi, Hk, Hp. subst n. unfold document.
  cbn [protocol_version message_id message_type payload mbind result_mbind result_bind].
  set (d := [(u "protocol_version", _); _; _; _]).
  assert (same_set (dkeys d) ENVELOPE_FIELDS = true) as -> by reflexivity.
  assert (getitem d (u "protocol_version") = Ok (VInt BROKER_PROTOCOL_VERSION)) as -> by reflexivity.
  assert (getitem d (u "message_id") = Ok (VStr i)) as -> by reflexivity.
  assert (getitem d (u "message_type") = Ok (VStr k)) as -> by reflexivity.
  assert (getitem d (u "payload") = Ok (VDict p)) as -> by reflexivity.
  cbn [raise_if negb mbind result_mbind result_bind]. by rewrite envelope_ok.
Qed.
End roundtrip.

(** An interpreter that knows one float only *)
Definition half_float : FloatIO :=
  {| float_repr := fun _ => u "0.5"; float_parse := fun _ => Finite (frac 1 2) |}.
Definition sample_envelope : Envelope :=
  Env 3 (u "msg_0123456789") (u "session.exec")
    [(u "session_id", VStr (u "sess-0011223344556677")); (u "command", VStr (u "echo " ++ dq ++ [233] ++ nl));
     (u "timeout", VFloat (Finite (frac 1 2))); (u "flags", VList [VBool true; VNone; VInt (-7)])].
Lemma envelope_roundtrip_witness :
  ∃ b, encode_envelope (F := half_float) sample_envelope MAX_IPC_MESSAGE_BYTES = Ok b ∧
       decode_envelope (U := ascii_db) (F := half_float) b MAX_IPC_MESSAGE_BYTES = Ok sample_envelope.
Proof.
  destruct (encode_envelope (F := half_float) sample_envelope MAX_IPC_MESSAGE_BYTES) as [b|] eqn:E;
    [|vm_compute in E; discriminate].
  exists b. split; [reflexivity|].
  apply (envelope_roundtrip (U := ascii_db) (F := half_float) sample_envelope MAX_IPC_MESSAGE_BYTES b); [|exact E].
  assert (float_ok (F := half_float) (Finite (frac 1 2))) as Hf.
  { split; [by eexists|]. split; [reflexivity|]. exists [], 0, (u ".5"), []. split; [reflexivity|]. split; [by left|].
    split; [lia|]. split; [right; by exists (u "5")|]. split; [by left|done]. }
  split; [reflexivity..|]. constructor.
  - unfold dwf. apply (bool_decide_unpack _). vm_compute. exact I.
  - apply (bool_decide_unpack _). vm_compute. exact I.
  - repeat (apply Forall_cons_2; [cbn [snd]|]); [..|apply Forall_nil_2]; constructor.
    + apply (bool_decide_unpack _). vm_compute. exact I.
    + apply (bool_decide_unpack _). vm_compute. exact I.
    + exact Hf.
    + apply Forall_cons_2; [constructor|]. apply Forall_cons_2; [constructor|]. apply Forall_cons_2; [|apply Forall_nil_2].
      constructor. vm_compute. lia.
Defined.

(** A message identifier that is not text does not raise an IPC error: the
    regular expression refuses it with a [TypeError] first. *)
Definition numeric_message_id : bytes := sh "{`protocol_version`:3,`message_id`:5,`message_type`:`a`,`payload`:{}}".
Lemma numeric_message_id_escapes :
  decode_envelope (U := ascii_db) (F := half_float) numeric_message_id MAX_IPC_MESSAGE_BYTES =
  Err (type_error (u "expected string or bytes-like object")).
Proof. vm_compute. reflexivity. Qed.
