(* ===== verification/Pipe.v ===== *)
(** * Pipe: length-prefixed frames over a named pipe (ipc/connection.py)

    [PipeConnection] with the pipe as its environment: each system call is
    traced and answered by the script.  The loops take the number of answers
    left as fuel; every round asks at least one call, so they stop for want of
    an answer before they stop for want of fuel. *)
From S2P Require Import Prelude Errors Text TextFacts Regex Value Prog Json ConfigModel Ipc.

(** The system calls and their answers.  [Failed n] is a [pywintypes.error]
    whose [winerror] is [n].  An answer the call cannot give (one of
    another call, or more bytes than were asked for) leaves the program
    waiting. *)
Inductive pipe_call :=
  | ReadFile (size : Z) | PeekNamedPipe | WriteFile (data : bytes)
  | Monotonic | Sleep (seconds : Q) | FlushFileBuffers | DisconnectNamedPipe | CloseHandle.
Inductive pipe_reply :=
  | Data (chunk : bytes) | Available (count : Z) | Written (count : Z)
  | Clock (now : Q) | Done | Failed (winerror : Z).

(** The connection: its handle is there until it is closed. *)
Record connection := Connection { opened : bool; server_side : bool }.
Abbreviation pipe := (io connection pipe_call pipe_reply).

Definition BROKEN_PIPE_ERRORS : list Z := [109; 232; 233].
Definition ipc_closed (m : str) : exn := controlled IpcClosed m.
Definition connection_closed : exn := ipc_closed (u "named-pipe connection is closed").
Definition pywintypes_error : exn := Builtin OtherException (u "pywintypes.error").
(** [except pywintypes.error]: a broken pipe is a closed connection. *)
Definition pipe_failure (winerror : Z) : exn :=
  if bool_decide (winerror ∈ BROKEN_PIPE_ERRORS)
  then ipc_closed (u "named-pipe peer closed the connection") else pywintypes_error.

Definition require_open : M pipe unit :=
  c ← state; if opened c then mret tt else raise connection_closed.
Definition monotonic : M pipe Q := r ← ask Monotonic; match r with Clock t => mret t | _ => hang end.
(** A call whose result is not used; with [suppress(pywintypes.error)] its
    failure is dropped. *)
Definition quiet_call (c : pipe_call) : M pipe unit :=
  r ← ask c; match r with Done | Failed _ => mret tt | _ => hang end.
Definition close_handle : M pipe unit :=
  r ← ask CloseHandle; match r with Done => mret tt | Failed _ => raise pywintypes_error | _ => hang end.

(** ** Closing *)
Definition close : M pipe unit :=
  c ← state;
  if negb (opened c) then mret tt
  else
    update (fun c => Connection false (server_side c));;
    (if server_side c then quiet_call FlushFileBuffers;; quiet_call DisconnectNamedPipe else mret tt);;
    close_handle.
(** [except BaseException: self.close(); raise] *)
Definition or_close {A} (m : M pipe A) : M pipe A := try_except m (fun e => close;; raise e).

(** ** Reading *)
Definition rounds : M pipe nat := gets (fun s => S (length (script s))).
Fixpoint wait_loop (fuel : nat) (deadline : Q) : M pipe Z :=
  match fuel with
  | O => hang
  | S fuel =>
      require_open;;
      r ← ask PeekNamedPipe;
      match r with
      | Failed w => raise (pipe_failure w)
      | Available n =>
          if 0 <? n then mret n
          else
            now ← monotonic;
            let remaining := qsub deadline now in
            if qle remaining (qz 0)
            then raise (controlled IpcTimeout (u "timed out waiting for a named-pipe message"))
            else
              r ← ask (Sleep (qmin (frac 1 100) remaining));
              match r with Done => wait_loop fuel deadline | _ => hang end
      | _ => hang
      end
  end.
Definition wait_for_available_bytes (deadline : Q) : M pipe Z := fuel ← rounds; wait_loop fuel deadline.

(** [deadline is None and frame_timeout is not None]: the first bytes start
    the clock of the frame. *)
Definition next_deadline (deadline frame_timeout : option Q) : M pipe (option Q) :=
  match deadline, frame_timeout with
  | None, Some t => now ← monotonic; mret (Some (qadd now (qmax (qz 0) t)))
  | _, _ => mret deadline
  end.
Definition read_size (size : Z) (deadline : option Q) : M pipe Z :=
  match deadline with
  | None => mret size
  | Some d => n ← wait_for_available_bytes d; mret (Z.min size n)
  end.
Fixpoint read_loop (fuel : nat) (size : Z) (deadline frame_timeout : option Q) (chunks : bytes) :
    M pipe (bytes * option Q) :=
  match fuel with
  | O => hang
  | S fuel =>
      if size <=? len chunks then mret (chunks, deadline)
      else
        n ← read_size (size - len chunks) deadline;
        r ← ask (ReadFile n);
        match r with
        | Failed w => raise (pipe_failure w)
        | Data [] => raise (ipc_closed (u "named-pipe peer returned end of stream"))
        | Data chunk =>
            if n <? len chunk then hang else
            deadline ← next_deadline deadline frame_timeout;
            read_loop fuel size deadline frame_timeout (chunks ++ chunk)
        | _ => hang
        end
  end.
Definition read_exact (size : Z) (deadline frame_timeout : option Q) : M pipe (bytes * option Q) :=
  require_open;;
  fuel ← rounds;
  read_loop fuel size deadline frame_timeout [].

(** [struct.Struct("!I")] *)
Definition pack (n : Z) : bytes := [n / 16777216 mod 256; n / 65536 mod 256; n / 256 mod 256; n mod 256].
Definition unpack (b : bytes) : Z := fold_left (fun n c => n * 256 + c) b 0.
Definition LENGTH_PREFIX_size : Z := 4.

Definition start_deadline (timeout : option Q) : M pipe (option Q) :=
  match timeout with
  | None => mret None
  | Some t => now ← monotonic; mret (Some (qadd now (qmax (qz 0) t)))
  end.
Definition receive_bytes (max_bytes : Z) (timeout frame_timeout : option Q) : M pipe bytes :=
  or_close
    (deadline ← start_deadline timeout;
     prefix ← read_exact LENGTH_PREFIX_size deadline frame_timeout;
     let length := unpack prefix.1 in
     lift (raise_if ((length <? 1) || (max_bytes <? length))
             (ipc_message_error (u "declared message length exceeds the " ++ show_int max_bytes ++ u "-byte limit")));;
     payload ← read_exact length prefix.2 None;
     mret payload.1).

(** ** Writing *)
Fixpoint write_loop (fuel : nat) (data : bytes) (offset : Z) : M pipe unit :=
  match fuel with
  | O => hang
  | S fuel =>
      if len data <=? offset then mret tt
      else
        r ← ask (WriteFile (drop (Z.to_nat offset) data));
        match r with
        | Failed w => raise (pipe_failure w)
        | Written n =>
            if n <? 1 then raise (ipc_closed (u "named-pipe write made no progress"))
            else write_loop fuel data (offset + n)
        | _ => hang
        end
  end.
Definition write_all (data : bytes) : M pipe unit :=
  require_open;; fuel ← rounds; write_loop fuel data 0.
Definition send_bytes (max_bytes : Z) (payload : bytes) : M pipe unit :=
  lift (raise_if ((len payload =? 0) || (max_bytes <? len payload)) (too_long max_bytes));;
  write_all (pack (len payload) ++ payload).

(** ** Envelopes *)
Section envelopes.
Context {U : UnicodeDB} {F : FloatIO}.
Definition send (max_bytes : Z) (e : Envelope) : M pipe unit :=
  b ← lift (encode_envelope e max_bytes); send_bytes max_bytes b.
Definition receive (max_bytes : Z) (timeout frame_timeout : option Q) : M pipe Envelope :=
  or_close (b ← receive_bytes max_bytes timeout frame_timeout; lift (decode_envelope b max_bytes)).
End envelopes.

(** ** A frame crosses the pipe *)
Definition sent_in (counts : list Z) : list (res pipe_reply) := map (fun n => Ok (Written n)) counts.
Definition read_in (chunks : list bytes) : list (res pipe_reply) := map (fun c => Ok (Data c)) chunks.
(** The bytes the system accepts when it takes [counts] bytes at a time *)
Fixpoint accepted (calls : list pipe_call) (counts : list Z) : bytes :=
  match calls, counts with
  | WriteFile d :: calls, n :: counts => take (Z.to_nat n) d ++ accepted calls counts
  | _, _ => []
  end.
Definition total (counts : list Z) : Z := fold_right Z.add 0 counts.
Lemma total_nonneg counts : Forall (fun n => 1 <= n) counts → 0 <= total counts.
Proof. unfold total. induction 1; cbn [fold_right]; lia. Qed.

Lemma write_loop_sent counts : ∀ fuel data offset c rest tr,
  (length counts < fuel)%nat → Forall (fun n => 1 <= n) counts → 0 <= offset →
  offset + total counts = len data →
  ∃ calls, write_loop fuel data offset (Io c (sent_in counts ++ rest) tr) = (Ret tt, Io c rest (tr ++ calls)) ∧
           accepted calls counts = drop (Z.to_nat offset) data.
Proof.
  induction counts as [|n counts IH]; intros [|fuel] data offset c rest tr Hf Hn Ho Ht; cbn in Hf; try lia;
    cbn [write_loop].
  - cbn in Ht. destruct (Z.leb_spec (len data) offset); [|lia]. exists []. cbn. rewrite app_nil_r. split; [done|].
    symmetry. apply drop_ge. unfold len in Ht. lia.
  - apply Forall_cons in Hn as [Hn1 Hn]. cbn [total fold_right] in Ht. pose proof (total_nonneg counts Hn).
    fold (total counts) in Ht. destruct (Z.leb_spec (len data) offset); [lia|].
    destruct (IH fuel data (offset + n) c rest (tr ++ [WriteFile (drop (Z.to_nat offset) data)]))
      as (calls & Hrun & Hacc); [lia|done|lia|lia|].
    exists (WriteFile (drop (Z.to_nat offset) data) :: calls). split.
    + unfold_prog. unfold ask. cbn [script sent_in map app st trace]. destruct (Z.ltb_spec n 1); [lia|].
      fold (sent_in counts). rewrite Hrun. by rewrite <- app_assoc.
    + cbn [accepted]. rewrite Hacc. replace (Z.to_nat (offset + n)) with (Z.to_nat offset + Z.to_nat n)%nat by lia.
      by rewrite <- drop_drop, take_drop.
Qed.

Lemma read_loop_read chunks : ∀ fuel acc size c rest tr,
  (length chunks < fuel)%nat → Forall (fun b => b ≠ []) chunks → len acc + len (concat chunks) = size →
  ∃ tr', read_loop fuel size None None acc (Io c (read_in chunks ++ rest) tr) =
         (Ret (acc ++ concat chunks, None), Io c rest tr').
Proof.
  induction chunks as [|b chunks IH]; intros [|fuel] acc size c rest tr Hf Hn Hs; cbn in Hf; try lia;
    cbn [read_loop].
  - cbn in Hs. rewrite len_nil in Hs. destruct (Z.leb_spec size (len acc)); [|lia]. exists tr. cbn. by rewrite app_nil_r.
  - apply Forall_cons in Hn as [Hb Hn]. cbn [concat] in *. rewrite len_app in Hs.
    pose proof (len_nonneg (concat chunks)).
    assert (0 < len b) by (destruct b; [done|rewrite len_cons; pose proof (len_nonneg b); lia]).
    destruct (Z.leb_spec size (len acc)); [lia|].
    destruct (IH fuel (acc ++ b) size c rest (tr ++ [ReadFile (size - len acc)])) as [tr' Hrun];
      [lia|done|rewrite len_app; lia|].
    exists tr'. unfold_prog. unfold ask. cbn [script read_in map app st trace read_size].
    unfold_prog. cbn [script st trace]. destruct b as [|x b]; [done|]. destruct (Z.ltb_spec (size - len acc) (len (x :: b))); [lia|].
    unfold next_deadline. unfold_prog. rewrite app_assoc. exact Hrun.
Qed.

Lemma unpack_pack n : 0 <= n < 4294967296 → unpack (pack n) = n.
Proof.
  intros Hn. unfold unpack, pack. cbn [fold_left].
  assert (n / 16777216 < 256) by (apply Z.div_lt_upper_bound; lia).
  assert (0 <= n / 16777216) by (apply Z.div_pos; lia).
  rewrite (Z.mod_small (n / 16777216)) by lia.
  pose proof (Z.div_mod n 256 ltac:(lia)) as H1. pose proof (Z.div_mod (n / 256) 256 ltac:(lia)) as H2.
  pose proof (Z.div_mod (n / 65536) 256 ltac:(lia)) as H3.
  rewrite Z.div_div in H2 by lia. rewrite Z.div_div in H3 by lia. change (256 * 256) with 65536 in H2.
  change (65536 * 256) with 16777216 in H3. lia.
Qed.

(** A payload within the limit crosses the pipe whole: however
    few bytes at a time the system accepts from the sender and returns to the
    receiver, the sender's call returns, the receiver's call returns exactly
    that payload, and neither end is closed. *)
Theorem frame_crosses_pipe payload max_bytes counts c d tr tr' :
  1 <= len payload <= max_bytes → max_bytes < 4294967296 →
  opened c = true → opened d = true →
  Forall (fun n => 1 <= n) counts → total counts = 4 + len payload →
  ∃ calls, send_bytes max_bytes payload (Io c (sent_in counts) tr) = (Ret tt, Io c [] (tr ++ calls)) ∧
  ∀ first rest, Forall (fun b => b ≠ []) (first ++ rest) →
    concat (first ++ rest) = accepted calls counts → len (concat first) = 4 →
    ∃ seen, receive_bytes max_bytes None None (Io d (read_in (first ++ rest)) tr') = (Ret payload, Io d [] seen).
Proof.
  intros Hp Hm Hc Hd Hn Ht. unfold send_bytes.
  assert (len (pack (len payload) ++ payload) = 4 + len payload) as Hlen by (rewrite len_app; reflexivity).
  destruct (write_loop_sent counts (S (length (sent_in counts))) (pack (len payload) ++ payload) 0 c [] tr)
    as (calls & Hrun & Hacc); [unfold sent_in; rewrite length_map; lia|done|lia|lia|].
  exists calls. split.
  - rewrite app_nil_r in Hrun. unfold_prog.
    destruct (Z.eqb_spec (len payload) 0); [lia|]. destruct (Z.ltb_spec max_bytes (len payload)); [lia|]. cbn [orb raise_if].
    unfold write_all, require_open, state, rounds. unfold_prog. cbn [st script]. rewrite Hc. exact Hrun.
  - intros first rest Hne Hcat Hfirst. rewrite Hacc in Hcat. cbn [Z.to_nat drop] in Hcat. rewrite concat_app in Hcat.
    assert (concat first = pack (len payload) ∧ concat rest = payload) as [Hf Hr].
    { apply app_inj_1 in Hcat; [done|]. unfold len in Hfirst. change (length (pack (len payload))) with 4%nat. lia. }
    apply Forall_app in Hne as [Hne1 Hne2]. unfold read_in. rewrite map_app. fold (read_in first). fold (read_in rest).
    destruct (read_loop_read first (S (length (read_in first ++ read_in rest))) [] 4 d (read_in rest) tr')
      as [tr1 Hr1]; [unfold read_in; rewrite length_app, !length_map; lia|done|by rewrite Hfirst|].
    destruct (read_loop_read rest (S (length (read_in rest))) [] (len payload) d [] tr1)
      as [tr2 Hr2]; [unfold read_in; rewrite length_map; lia|done|by rewrite Hr|].
    exists tr2. unfold receive_bytes, or_close, start_deadline. unfold_prog.
    unfold read_exact, require_open, state, rounds. unfold_prog. cbn [st script]. rewrite Hd.
    change LENGTH_PREFIX_size with 4. cbn [script]. rewrite Hr1. cbn [app fst snd]. rewrite Hf, unpack_pack by lia.
    destruct (Z.ltb_spec (len payload) 1); [lia|]. destruct (Z.ltb_spec max_bytes (len payload)); [lia|]. cbn [orb raise_if st script]. rewrite Hd. cbn [script].
    rewrite app_nil_r in Hr2. rewrite Hr2. cbn [app fst]. by rewrite Hr.
Qed.

(** A payload accepted in four pieces and read one byte at a time *)
Lemma frame_crosses_pipe_witness :
  let p := u "hello" in
  let c := Connection true false in
  ∃ calls, send_bytes 100 p (Io c (sent_in [1; 2; 3; 3]) []) = (Ret tt, Io c [] calls) ∧
  ∃ seen, receive_bytes 100 None None (Io c (read_in (map (fun x => [x]) (pack 5 ++ p))) []) = (Ret p, Io c [] seen).
Proof.
  intros p c.
  destruct (frame_crosses_pipe p 100 [1; 2; 3; 3] c c [] []) as (calls & H1 & H2);
    [vm_compute; split; discriminate|reflexivity..| |reflexivity|].
  { apply (bool_decide_unpack _). vm_compute. exact I. }
  exists calls. split; [exact H1|].
  apply (H2 (map (fun x => [x]) (pack 5)) (map (fun x => [x]) p)); [|vm_compute in H1; injection H1 as <-; reflexivity|reflexivity].
  apply (bool_decide_unpack _). vm_compute. exact I.
Defined.

(** ** Failures close the connection *)
Lemma close_closes s : opened (st (close s).2) = false.
Proof.
  unfold close, state. unfold_prog. destruct (opened (st s)) eqn:Ho; [|done]. cbn [negb].
  unfold update, quiet_call, close_handle, ask. unfold_prog. cbn [st script trace].
  repeat (case_match; simplify_eq; cbn [st opened]; try done).
Qed.
Lemma or_close_closes {A} (m : M pipe A) s e s' : or_close m s = (Raise e, s') → opened (st s') = false.
Proof.
  unfold or_close. unfold_prog. intros H. destruct (m s) as [[a|e1|] s1]; [done| |done].
  pose proof (close_closes s1) as Hc. destruct (close s1) as [[[]|e2|] s2]; cbn in Hc; congruence.
Qed.
(** A receive that fails, or whose message is refused, leaves no connection. *)
Lemma receive_closes {U : UnicodeDB} {F : FloatIO} max_bytes timeout frame_timeout s e s' :
  receive max_bytes timeout frame_timeout s = (Raise e, s') → opened (st s') = false.
Proof. apply or_close_closes. Qed.
Lemma receive_bytes_closes max_bytes timeout frame_timeout s e s' :
  receive_bytes max_bytes timeout frame_timeout s = (Raise e, s') → opened (st s') = false.
Proof. apply or_close_closes. Qed.
