(* ===== verification/Handshake.v ===== *)
(** * Handshake: mutual authentication of the processes (ipc/handshake.py)

    Client and server prove to each other that they hold the instance token:
    each sends an HMAC over its label, the protocol version, the role and the
    two nonces.  Messages, nonces and message identifiers are calls answered
    by the script. *)
From S2P Require Import Prelude Errors Text TextFacts Regex Sha256 Value Prog Json ConfigModel Ipc.

Inductive hs_call := SendMessage (e : Envelope) | ReceiveMessage (timeout : option Q) | DrawNonce | DrawId.
Inductive hs_reply := Sent | Received (e : Envelope) | Hex (s : str).
Abbreviation hs := (io unit hs_call hs_reply).

Definition IPC_ROLES : list str := [u "mcp"; u "broker"; u "auth"; u "askpass"].
Definition NONCE : re := RSeqs [RBol; RRepeat 64 (RChar (cls [(48, 57); (97, 102)])); REol].
Definition PROOF : re := NONCE.
Definition authentication_error (m : str) : exn := controlled IpcAuthenticationError m.

Section handshake.
Context {U : UnicodeDB} {F : FloatIO}.

Definition send (e : Envelope) : M hs unit := r ← ask (SendMessage e); match r with Sent => mret tt | _ => hang end.
Definition receive (timeout : option Q) : M hs Envelope :=
  r ← ask (ReceiveMessage timeout); match r with Received e => mret e | _ => hang end.
(** [secrets.token_hex(32)] and [uuid.uuid4().hex] *)
Definition token_hex : M hs str := r ← ask DrawNonce; match r with Hex s => mret s | _ => hang end.
Definition new_id : M hs str := r ← ask DrawId; match r with Hex s => mret s | _ => hang end.

Definition proof_text (label role client_nonce server_nonce : str) : str :=
  join [0] [label; show_int BROKER_PROTOCOL_VERSION; role; client_nonce; server_nonce].
Definition proof (instance_token label role client_nonce server_nonce : str) : res str :=
  key ← utf8_encode instance_token;
  message ← utf8_encode (proof_text label role client_nonce server_nonce);
  Ok (hmac_hex key message).
Definition text_field (body : dict value) (name : str) (pattern : re) : res str :=
  match vget body name with
  | VStr s => raise_if (negb (fullmatch pattern s))
                (authentication_error (u "broker handshake " ++ name ++ u " is invalid"));; Ok s
  | _ => Err (authentication_error (u "broker handshake " ++ name ++ u " is invalid"))
  end.
Definition has_version (body : dict value) : bool :=
  eq_int (vget body (u "protocol_version")) BROKER_PROTOCOL_VERSION.

Definition challenge_accepted (challenge response : Envelope) : bool :=
  str_eqb (message_id response) (message_id challenge)
  && str_eqb (message_type response) (u "hello.challenge.ack")
  && same_set (dkeys (payload response)) [u "protocol_version"; u "server_nonce"; u "server_proof"]
  && has_version (payload response).
Definition hello_accepted (hello acknowledgement : Envelope) : bool :=
  str_eqb (message_id acknowledgement) (message_id hello)
  && str_eqb (message_type acknowledgement) (u "hello.ack")
  && same_set (dkeys (payload acknowledgement)) [u "protocol_version"]
  && has_version (payload acknowledgement).

Definition client_handshake (instance_token role : str) (timeout : option Q) : M hs unit :=
  lift (raise_if (negb (bool_decide (role ∈ IPC_ROLES))) (value_error (u "IPC handshake role is invalid")));;
  client_nonce ← token_hex;
  fresh ← new_id;
  challenge ← lift (create fresh (u "hello.challenge")
                      (Some [(u "role", VStr role); (u "client_nonce", VStr client_nonce)]) None);
  send challenge;;
  response ← receive timeout;
  lift (raise_if (negb (challenge_accepted challenge response))
          (authentication_error (u "broker handshake challenge response is invalid")));;
  server_nonce ← lift (text_field (payload response) (u "server_nonce") NONCE);
  server_proof ← lift (text_field (payload response) (u "server_proof") PROOF);
  expected ← lift (proof instance_token (u "server") role client_nonce server_nonce);
  lift (raise_if (negb (str_eqb server_proof expected))
          (authentication_error (u "broker server proof was rejected")));;
  fresh ← new_id;
  client_proof ← lift (proof instance_token (u "client") role client_nonce server_nonce);
  hello ← lift (create fresh (u "hello")
                  (Some [(u "role", VStr role); (u "client_nonce", VStr client_nonce);
                         (u "server_nonce", VStr server_nonce); (u "client_proof", VStr client_proof)]) None);
  send hello;;
  acknowledgement ← receive timeout;
  lift (raise_if (negb (hello_accepted hello acknowledgement))
          (ipc_message_error (u "broker handshake acknowledgement is invalid"))).

Definition challenge_valid (challenge : Envelope) (expected_role : str) : bool :=
  str_eqb (message_type challenge) (u "hello.challenge")
  && same_set (dkeys (payload challenge)) [u "role"; u "client_nonce"]
  && eq_str (vget (payload challenge) (u "role")) expected_role.
Definition hello_valid (hello : Envelope) (expected_role client_nonce server_nonce : str) : bool :=
  str_eqb (message_type hello) (u "hello")
  && same_set (dkeys (payload hello)) [u "role"; u "client_nonce"; u "server_nonce"; u "client_proof"]
  && eq_str (vget (payload hello) (u "role")) expected_role
  && eq_str (vget (payload hello) (u "client_nonce")) client_nonce
  && eq_str (vget (payload hello) (u "server_nonce")) server_nonce.

Definition server_handshake (expected_token expected_role : str) (timeout : option Q) : M hs unit :=
  lift (raise_if (negb (bool_decide (expected_role ∈ IPC_ROLES))) (value_error (u "IPC handshake role is invalid")));;
  challenge ← receive timeout;
  lift (raise_if (negb (challenge_valid challenge expected_role))
          (authentication_error (u "broker handshake challenge is invalid")));;
  client_nonce ← lift (text_field (payload challenge) (u "client_nonce") NONCE);
  server_nonce ← token_hex;
  server_proof ← lift (proof expected_token (u "server") expected_role client_nonce server_nonce);
  response ← lift (create [] (u "hello.challenge.ack")
                     (Some [(u "protocol_version", VInt BROKER_PROTOCOL_VERSION);
                            (u "server_nonce", VStr server_nonce); (u "server_proof", VStr server_proof)])
                     (Some (message_id challenge)));
  send response;;
  hello ← receive timeout;
  lift (raise_if (negb (hello_valid hello expected_role client_nonce server_nonce))
          (authentication_error (u "broker handshake request is invalid")));;
  client_proof ← lift (text_field (payload hello) (u "client_proof") PROOF);
  expected ← lift (proof expected_token (u "client") expected_role client_nonce server_nonce);
  lift (raise_if (negb (str_eqb client_proof expected))
          (authentication_error (u "broker client proof was rejected")));;
  acknowledgement ← lift (create [] (u "hello.ack") (Some [(u "protocol_version", VInt BROKER_PROTOCOL_VERSION)])
                            (Some (message_id hello)));
  send acknowledgement.

(** ** What a completed handshake shows *)
(** [answers a s s']: the run from [s] to [s'] used the answers [a]. *)
Definition answers (a : list hs_reply) (s s' : hs) : Prop := script s = map Ok a ++ script s'.
Lemma lift_Ret {A} (r : res A) (a : A) (s s' : hs) : lift r s = (Ret a, s') → r = Ok a ∧ s' = s.
Proof. unfold lift. destruct r; [by intros [= -> ->]|done]. Qed.
Lemma bind_Ret {A B} (m : M hs A) (f : A → M hs B) s b s'' :
  (m ≫= f) s = (Ret b, s'') → ∃ a s', m s = (Ret a, s') ∧ f a s' = (Ret b, s'').
Proof. intros [(a & s' & H)|[(e & _ & [=])|[_ [=]]]]%prog_bind_inv. eauto. Qed.
Lemma ask_Ret (c : hs_call) (r : hs_reply) (s s' : hs) : ask c s = (Ret r, s') → script s = Ok r :: script s'.
Proof. unfold ask. destruct (script s) as [|[a|e] rest]; [done| |done]. by intros [= -> <-]. Qed.
Lemma send_Ret e s s' : send e s = (Ret tt, s') → answers [Sent] s s'.
Proof. intros (r & s1 & H & H')%bind_Ret. apply ask_Ret in H. destruct r; try done. by injection H' as <-. Qed.
Lemma receive_Ret t e s s' : receive t s = (Ret e, s') → answers [Received e] s s'.
Proof. intros (r & s1 & H & H')%bind_Ret. apply ask_Ret in H. destruct r; try done. by injection H' as -> <-. Qed.
Lemma token_hex_Ret x s s' : token_hex s = (Ret x, s') → answers [Hex x] s s'.
Proof. intros (r & s1 & H & H')%bind_Ret. apply ask_Ret in H. destruct r; try done. by injection H' as -> <-. Qed.
Lemma new_id_Ret x s s' : new_id s = (Ret x, s') → answers [Hex x] s s'.
Proof. intros (r & s1 & H & H')%bind_Ret. apply ask_Ret in H. destruct r; try done. by injection H' as -> <-. Qed.
Lemma answers_app a b s1 s2 s3 : answers a s1 s2 → answers b s2 s3 → answers (a ++ b) s1 s3.
Proof. unfold answers. intros -> ->. by rewrite map_app, app_assoc. Qed.
Lemma answers_nil s : answers [] s s.
Proof. done. Qed.

Lemma text_field_Ok body name p x :
  text_field body name p = Ok x → vget body name = VStr x ∧ fullmatch p x = true.
Proof.
  unfold text_field. destruct (vget body name); try done. intros H. inv_ok H. injection H as <-.
  apply raise_if_Ok, negb_false_iff in Ha. done.
Qed.
Lemma str_eqb_Ok a b : str_eqb a b = true → a = b.
Proof. apply bool_decide_eq_true. Qed.
Lemma eq_str_Ok v x : eq_str v x = true → v = VStr x.
Proof. destruct v; try done. by intros ->%str_eqb_Ok. Qed.

(** Split a run that returned into its steps. *)
Ltac steps H :=
  repeat match type of H with
         | (_ ≫= _) _ = _ =>
             let a := fresh "a" in let s1 := fresh "s" in let H1 := fresh "Hs" in
             apply bind_Ret in H as (a & s1 & H1 & H); cbv beta in H
         end;
  repeat match goal with
         | K : lift (raise_if _ _) _ = (Ret _, _) |- _ =>
             apply lift_Ret in K as [K ->]; apply raise_if_Ok in K
         | K : lift _ _ = (Ret _, _) |- _ => apply lift_Ret in K as [K ->]
         | K : send _ _ = (Ret ?a, _) |- _ => destruct a; apply send_Ret in K
         | K : receive _ _ = (Ret _, _) |- _ => apply receive_Ret in K
         | K : token_hex _ = (Ret _, _) |- _ => apply token_hex_Ret in K
         | K : new_id _ = (Ret _, _) |- _ => apply new_id_Ret in K
         end.

Ltac facts :=
  repeat match goal with
         | K : text_field _ _ _ = Ok _ |- _ => apply text_field_Ok in K as [? ?]
         | K : negb (str_eqb _ _) = false |- _ => apply negb_false_iff, str_eqb_Ok in K; subst
         | K : negb _ = false |- _ => apply negb_false_iff in K
         end.
Ltac chain :=
  unfold answers in *; cbn [map app] in *;
  repeat match goal with K : script ?x = _ |- context [script ?x] => rewrite K; clear K end; reflexivity.

(** The proof of a side: what the other one receives as [name] is the HMAC of
    the label, the role and both nonces under the token. *)
Definition carries_proof (e : Envelope) (name token label role client_nonce server_nonce : str) : Prop :=
  ∃ pf, vget (payload e) name = VStr pf ∧ proof token label role client_nonce server_nonce = Ok pf.

Lemma client_authenticates token role timeout s s' :
  client_handshake token role timeout s = (Ret tt, s') →
  ∃ client_nonce i response j acknowledgement server_nonce,
    answers [Hex client_nonce; Hex i; Sent; Received response; Hex j; Sent; Received acknowledgement] s s' ∧
    vget (payload response) (u "server_nonce") = VStr server_nonce ∧
    carries_proof response (u "server_proof") token (u "server") role client_nonce server_nonce.
Proof.
  intros H. unfold client_handshake in H. steps H. facts.
  do 6 eexists. split; [chain|]. split; [eassumption|]. by repeat eexists.
Qed.
Lemma server_authenticates token role timeout s s' :
  server_handshake token role timeout s = (Ret tt, s') →
  ∃ client_nonce challenge server_nonce hello,
    answers [Received challenge; Hex server_nonce; Sent; Received hello; Sent] s s' ∧
    vget (payload challenge) (u "client_nonce") = VStr client_nonce ∧
    vget (payload challenge) (u "role") = VStr role ∧ vget (payload hello) (u "role") = VStr role ∧
    vget (payload hello) (u "server_nonce") = VStr server_nonce ∧
    carries_proof hello (u "client_proof") token (u "client") role client_nonce server_nonce.
Proof.
  intros H. unfold server_handshake in H. steps H. facts.
  unfold challenge_valid, hello_valid in *. boolean.
  repeat match goal with K : eq_str _ _ = true |- _ => apply eq_str_Ok in K end.
  do 4 eexists. split; [chain|]. do 4 (split; [eassumption|]). by repeat eexists.
Qed.
End handshake.

(** ** Both sides agree *)
Section agreement.
Context {U : UnicodeDB} {F : FloatIO}.

(** The texts under the HMAC determine what was proved: a proof made for one
    side, role or pair of nonces is none for another. *)
Lemma proof_text_inj l1 r1 c1 s1 l2 r2 c2 s2 :
  Forall (fun t => lacks 0 t = true) [l1; r1; c1; s1; l2; r2; c2; s2] →
  proof_text l1 r1 c1 s1 = proof_text l2 r2 c2 s2 → l1 = l2 ∧ r1 = r2 ∧ c1 = c2 ∧ s1 = s2.
Proof.
  rewrite !Forall_cons. intros (A1 & A2 & A3 & A4 & B1 & B2 & B3 & B4 & _) H. unfold proof_text in H.
  assert (lacks 0 (show_int BROKER_PROTOCOL_VERSION) = true) by reflexivity.
  apply (f_equal (split_char 0)) in H.
  rewrite !split_char_join in H by (done || by repeat constructor). by injection H as -> -> -> ->.
Qed.

Lemma nonce_match s : fullmatch NONCE s = true ↔ length s = 64%nat ∧ forallb (cls [(48, 57); (97, 102)]) s = true.
Proof.
  rewrite fullmatch_lang. split.
  - intros (t & H & Ht). apply lang_seq_inv in H as (s1 & H1 & H). inversion H1; subst.
    apply lang_seq_inv in H as (s2 & H2 & H). apply lang_repeat_char in H2 as (w & r & Ha & Hl & Hf & ->).
    inversion H; subst. cbn in *. subst r. by rewrite Ha, app_nil_r.
  - intros [Hl Hf]. exists (MState (rev s ++ []) [] []). split; [|done].
    apply lang_seq_inv. exists (start_of s). split; [by constructor|]. apply lang_seq_inv. eexists.
    split; [|by constructor]. apply lang_repeat_char. exists s, []. by rewrite app_nil_r.
Qed.
Lemma proof_is_proof key message : fullmatch PROOF (hmac_hex key message) = true.
Proof.
  apply nonce_match. unfold hmac_hex. destruct (sha256_hex_shape
    (map (fun b => Z.lxor b 92) (hmac_block key) ++
     sha256 (map (fun b => Z.lxor b 54) (hmac_block key) ++ message))) as [Hl Hf].
  split; [exact Hl|]. rewrite forallb_forall in *. intros c Hc. specialize (Hf c Hc).
  unfold hex_char in Hf. unfold cls. cbn [existsb fst snd]. by rewrite orb_false_r.
Qed.

Lemma create_id fresh kind body i c :
  i = c :: tl i → fullmatch MESSAGE_ID i = true → fullmatch MESSAGE_TYPE kind = true →
  create fresh kind (Some body) (Some i) = Ok (Env BROKER_PROTOCOL_VERSION i kind body).
Proof. intros Hi Hid Hk. rewrite Hi in *. unfold create. by apply envelope_ok. Qed.
Lemma create_fresh fresh kind body :
  fullmatch MESSAGE_ID (u "msg_" ++ fresh) = true → fullmatch MESSAGE_TYPE kind = true →
  create fresh kind (Some body) None = Ok (Env BROKER_PROTOCOL_VERSION (u "msg_" ++ fresh) kind body).
Proof. intros Hid Hk. unfold create. by apply envelope_ok. Qed.

Lemma str_eqb_refl x : str_eqb x x = true.
Proof. by apply bool_decide_eq_true. Qed.
Lemma eq_str_refl x : eq_str (VStr x) x = true.
Proof. apply str_eqb_refl. Qed.
Lemma run_lift {A B} (a : A) (f : A → M hs B) s : (lift (Ok a) ≫= f) s = f a s.
Proof. done. Qed.
Lemma run_send {B} e (f : unit → M hs B) x r tr :
  (send e ≫= f) (Io x (Ok Sent :: r) tr) = f tt (Io x r (tr ++ [SendMessage e])).
Proof. done. Qed.
Lemma run_receive {B} t e (f : Envelope → M hs B) x r tr :
  (receive t ≫= f) (Io x (Ok (Received e) :: r) tr) = f e (Io x r (tr ++ [ReceiveMessage t])).
Proof. done. Qed.
Lemma run_token_hex {B} n (f : str → M hs B) x r tr :
  (token_hex ≫= f) (Io x (Ok (Hex n) :: r) tr) = f n (Io x r (tr ++ [DrawNonce])).
Proof. done. Qed.
Lemma run_new_id {B} n (f : str → M hs B) x r tr :
  (new_id ≫= f) (Io x (Ok (Hex n) :: r) tr) = f n (Io x r (tr ++ [DrawId])).
Proof. done. Qed.
Lemma text_field_ok body name p x :
  vget body name = VStr x → fullmatch p x = true → text_field body name p = Ok x.
Proof. intros H1 H2. unfold text_field. rewrite H1, H2. done. Qed.

Lemma handshake_completes token role client_nonce server_nonce i1 i2 t1 t2 key m1 m2 :
  role ∈ IPC_ROLES → fullmatch NONCE client_nonce = true → fullmatch NONCE server_nonce = true →
  fullmatch MESSAGE_ID (u "msg_" ++ i1) = true → fullmatch MESSAGE_ID (u "msg_" ++ i2) = true →
  utf8_encode token = Ok key →
  utf8_encode (proof_text (u "server") role client_nonce server_nonce) = Ok m1 →
  utf8_encode (proof_text (u "client") role client_nonce server_nonce) = Ok m2 →
  ∃ c1 s1 c2 s2,
    client_handshake token role t1
      (Io tt (map Ok [Hex client_nonce; Hex i1; Sent; Received s1; Hex i2; Sent; Received s2]) []) =
      (Ret tt, Io tt [] [DrawNonce; DrawId; SendMessage c1; ReceiveMessage t1; DrawId; SendMessage c2;
                         ReceiveMessage t1]) ∧
    server_handshake token role t2
      (Io tt (map Ok [Received c1; Hex server_nonce; Sent; Received c2; Sent]) []) =
      (Ret tt, Io tt [] [ReceiveMessage t2; DrawNonce; SendMessage s1; ReceiveMessage t2; SendMessage s2]).
Proof.
  intros Hrole Hcn Hsn Hi1 Hi2 Hk Hm1 Hm2.
  set (pf1 := hmac_hex key m1). set (pf2 := hmac_hex key m2).
  assert (proof token (u "server") role client_nonce server_nonce = Ok pf1) as P1 by (unfold proof; by rewrite Hk, Hm1).
  assert (proof token (u "client") role client_nonce server_nonce = Ok pf2) as P2 by (unfold proof; by rewrite Hk, Hm2).
  set (c1 := Env BROKER_PROTOCOL_VERSION (u "msg_" ++ i1) (u "hello.challenge")
               [(u "role", VStr role); (u "client_nonce", VStr client_nonce)]).
  set (s1 := Env BROKER_PROTOCOL_VERSION (u "msg_" ++ i1) (u "hello.challenge.ack")
               [(u "protocol_version", VInt BROKER_PROTOCOL_VERSION); (u "server_nonce", VStr server_nonce);
                (u "server_proof", VStr pf1)]).
  set (c2 := Env BROKER_PROTOCOL_VERSION (u "msg_" ++ i2) (u "hello")
               [(u "role", VStr role); (u "client_nonce", VStr client_nonce);
                (u "server_nonce", VStr server_nonce); (u "client_proof", VStr pf2)]).
  set (s2 := Env BROKER_PROTOCOL_VERSION (u "msg_" ++ i2) (u "hello.ack")
               [(u "protocol_version", VInt BROKER_PROTOCOL_VERSION)]).
  assert (fullmatch PROOF pf1 = true ∧ fullmatch PROOF pf2 = true) as [F1 F2] by (split; apply proof_is_proof).
  exists c1, s1, c2, s2. split.
  - unfold client_handshake. rewrite bool_decide_eq_true_2 by done. cbn [map negb raise_if].
    rewrite run_lift, run_token_hex, run_new_id, create_fresh by done. fold c1.
    rewrite run_lift, run_send, run_receive.
    assert (challenge_accepted c1 s1 = true) as -> by (unfold challenge_accepted; change (message_id s1) with (message_id c1); by rewrite str_eqb_refl).
    cbn [negb raise_if]. rewrite run_lift, (text_field_ok (payload s1) (u "server_nonce") NONCE server_nonce eq_refl Hsn).
    rewrite run_lift, (text_field_ok (payload s1) (u "server_proof") PROOF pf1 eq_refl F1). rewrite run_lift, P1, run_lift.
    rewrite str_eqb_refl. cbn [negb raise_if].
    rewrite run_lift, run_new_id, P2, run_lift, create_fresh by done. fold c2.
    rewrite run_lift, run_send, run_receive.
    assert (hello_accepted c2 s2 = true) as -> by (unfold hello_accepted; change (message_id s2) with (message_id c2); by rewrite str_eqb_refl).
    done.
  - unfold server_handshake. rewrite bool_decide_eq_true_2 by done. cbn [map negb raise_if].
    rewrite run_lift, run_receive.
    assert (challenge_valid c1 role = true) as -> by (unfold challenge_valid; change (vget (payload c1) (u "role")) with (VStr role); by rewrite eq_str_refl).
    cbn [negb raise_if]. rewrite run_lift, (text_field_ok (payload c1) (u "client_nonce") NONCE client_nonce eq_refl Hcn).
    rewrite run_lift, run_token_hex, P1, run_lift, (create_id _ _ _ (message_id c1) 109) by done. fold s1.
    rewrite run_lift, run_send, run_receive.
    assert (hello_valid c2 role client_nonce server_nonce = true) as ->
      by (unfold hello_valid; change (vget (payload c2) (u "role")) with (VStr role);
          change (vget (payload c2) (u "client_nonce")) with (VStr client_nonce);
          change (vget (payload c2) (u "server_nonce")) with (VStr server_nonce); by rewrite !eq_str_refl).
    cbn [negb raise_if]. rewrite run_lift, (text_field_ok (payload c2) (u "client_proof") PROOF pf2 eq_refl F2). rewrite run_lift, P2, run_lift.
    rewrite str_eqb_refl. cbn [negb raise_if].
    rewrite run_lift, (create_id _ _ _ (message_id c2) 109) by done. done.
Qed.

(** C30: a handshake that returns authenticated the other side.  The
    client returns only after a response whose proof is the HMAC, under its
    token, of the server label, the role and the nonce the client drew for
    this run; the server only after a hello that names its role and the nonce
    it drew itself and carries the corresponding client proof. *)
Theorem handshake_authenticates token role timeout :
  (∀ s s', client_handshake token role timeout s = (Ret tt, s') →
     ∃ client_nonce i response j acknowledgement server_nonce,
       answers [Hex client_nonce; Hex i; Sent; Received response; Hex j; Sent; Received acknowledgement] s s' ∧
       vget (payload response) (u "server_nonce") = VStr server_nonce ∧
       carries_proof response (u "server_proof") token (u "server") role client_nonce server_nonce) ∧
  (∀ s s', server_handshake token role timeout s = (Ret tt, s') →
     ∃ client_nonce challenge server_nonce hello,
       answers [Received challenge; Hex server_nonce; Sent; Received hello; Sent] s s' ∧
       vget (payload challenge) (u "client_nonce") = VStr client_nonce ∧
       vget (payload challenge) (u "role") = VStr role ∧ vget (payload hello) (u "role") = VStr role ∧
       vget (payload hello) (u "server_nonce") = VStr server_nonce ∧
       carries_proof hello (u "client_proof") token (u "client") role client_nonce server_nonce).
Proof. split; intros s s' H; [by eapply client_authenticates | by eapply server_authenticates]. Qed.
End agreement.

(** The two sides of one handshake, each fed the other's messages *)
Definition nonce_a : str := replicate 64 97.
Definition nonce_b : str := replicate 64 98.
Lemma handshake_authenticates_witness :
  ∃ c1 s1 c2 s2,
    let client := Io tt (map Ok [Hex nonce_a; Hex (u "0001"); Sent; Received s1; Hex (u "0002"); Sent; Received s2]) [] in
    let server := Io tt (map Ok [Received c1; Hex nonce_b; Sent; Received c2; Sent]) [] in
    (client_handshake (U := ascii_db) (u "token") (u "mcp") None client).1 = Ret tt ∧
    (server_handshake (U := ascii_db) (u "token") (u "mcp") None server).1 = Ret tt ∧
    (∃ sn, vget (payload s1) (u "server_nonce") = VStr sn ∧
           carries_proof s1 (u "server_proof") (u "token") (u "server") (u "mcp") nonce_a sn) ∧
    (∃ cn, vget (payload c1) (u "client_nonce") = VStr cn ∧
           carries_proof c2 (u "client_proof") (u "token") (u "client") (u "mcp") cn nonce_b).
Proof.
  destruct (handshake_completes (U := ascii_db) (u "token") (u "mcp") nonce_a nonce_b (u "0001") (u "0002") None None
              (u "token") (proof_text (u "server") (u "mcp") nonce_a nonce_b)
              (proof_text (u "client") (u "mcp") nonce_a nonce_b))
    as (c1 & s1 & c2 & s2 & Hc & Hs); [by left|vm_compute; reflexivity..|].
  exists c1, s1, c2, s2. cbv zeta.
  pose proof (proj1 (handshake_authenticates (U := ascii_db) (u "token") (u "mcp") None) _ _ Hc)
    as (cn & i & r & j & k & sn & Ha & Hn & Hp).
  pose proof (proj2 (handshake_authenticates (U := ascii_db) (u "token") (u "mcp") None) _ _ Hs)
    as (cn' & ch & sn' & h & Ha' & Hcn' & _ & _ & _ & Hp').
  rewrite Hc, Hs. unfold answers in Ha, Ha'. cbn [script map app] in Ha, Ha'.
  assert (cn = nonce_a ∧ r = s1) as [-> ->] by (split; congruence).
  assert (sn' = nonce_b ∧ ch = c1 ∧ h = c2) as (-> & -> & ->) by (split_and!; congruence).
  split; [reflexivity|]. split; [reflexivity|]. split; [exists sn; by split|exists cn'; by split].
Defined.
