(* ===== verification/Patch.v ===== *)
(** * Patch: unified diffs (files/patch.py)

    Parsing a patch into hunks and applying them to a text, and what a patch
    that applies means: the text splits into untouched pieces and the old side
    of every hunk, in order and at the declared places. *)
From S2P Require Import Prelude Errors Text TextFacts Regex ConfigModel.

Definition remote_file_error (code message : str) : exn := coded RemoteFileError code message.
Definition patch_invalid (message : str) : exn := remote_file_error (u "patch_invalid") message.

Definition digits : re := RPlus (RChar is_decimal).
Definition HUNK_HEADER : re :=
  RSeqs [RBol; RLit (u "@@ -"); RGroup 1 digits; ROpt (RSeq (RLit (u ",")) (RGroup 2 digits));
         RLit (u " +"); RGroup 3 digits; ROpt (RSeq (RLit (u ",")) (RGroup 4 digits));
         RLit (u " @@"); ROpt (RSeq (RLit (u " ")) (RStar true (RChar any_but_newline)));
         ROpt (RLit nl); REol].
Definition MAX_PATCH_BYTES : Z := 131072.
Definition no_newline_marker : str := u "\ No newline at end of file".

Record PatchHunk := Hunk {
  old_start : Z;
  old_count : Z;
  new_start : Z;
  new_count : Z;
  lines : list str;
}.

Section patch.
Context {U : UnicodeDB}.

(** ** Parsing *)
Definition is_header (line : str) : bool := fullmatch HUNK_HEADER line.
(** [int(match.group(n))], and [int(match.group(n) or 1)] *)
Definition group_int (n : nat) (m : mstate) : res Z :=
  match parse_int (default [] (group n m)) with
  | Some z => Ok z
  | None => Err (value_error (u "invalid integer"))
  end.
Definition group_int_or_1 (n : nat) (m : mstate) : res Z :=
  match group n m with Some (_ :: _) => group_int n m | _ => Ok 1 end.

(** The lines of a hunk: up to the next header or a line that belongs to none *)
Fixpoint hunk_lines (ls : list str) : list str * list str :=
  match ls with
  | [] => ([], [])
  | line :: rest =>
      if is_header line then ([], ls)
      else if starts_with_any [u " "; u "+"; u "-"; no_newline_marker] line
      then let '(taken, left) := hunk_lines rest in (line :: taken, left)
      else ([], ls)
  end.

Definition skipped_line (line : str) : bool :=
  starts_with_any [u "--- "; u "+++ "; u "diff "; u "index "] line || str_eqb (strip line) [].

(** Every round takes at least one line. *)
Fixpoint parse_loop (fuel : nat) (ls : list str) : res (list PatchHunk) :=
  match fuel, ls with
  | O, _ | _, [] => Ok []
  | S fuel, line :: rest =>
      if skipped_line line then parse_loop fuel rest
      else
        match fullmatch_state HUNK_HEADER line with
        | None => Err (patch_invalid (u "patch contains unsupported text outside a hunk"))
        | Some m =>
            os ← group_int 1 m;
            oc ← group_int_or_1 2 m;
            ns ← group_int 3 m;
            nc ← group_int_or_1 4 m;
            let '(taken, left) := hunk_lines rest in
            hunks ← parse_loop fuel left;
            Ok (Hunk os oc ns nc taken :: hunks)
        end
  end.
Definition parse_hunks (patch : str) : res (list PatchHunk) :=
  let ls := splitlines_keep patch in
  hunks ← parse_loop (length ls) ls;
  raise_if (bool_decide (hunks = [])) (patch_invalid (u "patch contains no unified-diff hunks"));;
  Ok hunks.

(** A marker takes the newline off the line before it. *)
Fixpoint normalize_markers (ls : list str) (normalized : list str) : res (list str) :=
  match ls with
  | [] => Ok normalized
  | line :: rest =>
      if starts_with no_newline_marker line then
        match rev normalized with
        | [] => Err (patch_invalid (u "orphan no-newline marker"))
        | last :: before => normalize_markers rest (rev before ++ [removesuffix nl last])
        end
      else
        match line with
        | c :: _ => if (c =? 32) || (c =? 43) || (c =? 45)
                    then normalize_markers rest (normalized ++ [line])
                    else Err (patch_invalid (u "patch hunk line is invalid"))
        | [] => Err (patch_invalid (u "patch hunk line is invalid"))
        end
  end.
Definition normalize_no_newline_markers (ls : list str) : res (list str) := normalize_markers ls [].

(** ** Applying *)
Definition require_source_line (source : list str) (index : Z) (expected : str) : res unit :=
  match nth_error source (Z.to_nat index) with
  | Some line => raise_if (negb (str_eqb line expected))
                   (file_conflict (u "patch context does not match the current remote text"))
  | None => Err (file_conflict (u "patch context does not match the current remote text"))
  end.

Record progress := Progress { source_index : Z; emitted : list str; consumed : Z; produced : Z }.
Definition apply_line (source : list str) (line : str) (p : progress) : res progress :=
  match line with
  | c :: value =>
      if c =? 32 then
        require_source_line source (source_index p) value;;
        Ok (Progress (source_index p + 1) (emitted p ++ [value]) (consumed p + 1) (produced p + 1))
      else if c =? 45 then
        require_source_line source (source_index p) value;;
        Ok (Progress (source_index p + 1) (emitted p) (consumed p + 1) (produced p))
      else if c =? 43 then
        Ok (Progress (source_index p) (emitted p ++ [value]) (consumed p) (produced p + 1))
      else Err (patch_invalid (u "patch hunk line is invalid"))
  | [] => Err (Builtin IndexError (u "string index out of range"))
  end.
Fixpoint apply_lines (source : list str) (ls : list str) (p : progress) : res progress :=
  match ls with
  | [] => Ok p
  | line :: ls => p' ← apply_line source line p; apply_lines source ls p'
  end.

(** [source[i:j]] for indexes in range *)
Definition source_slice (source : list str) (i j : Z) : list str :=
  take (Z.to_nat (j - i)) (drop (Z.to_nat i) source).

Definition target_index (h : PatchHunk) : Z :=
  if old_count h =? 0 then old_start h else old_start h - 1.
Definition apply_hunk (source : list str) (h : PatchHunk) (result : list str) (cursor : Z) :
    res (list str * Z) :=
  let target := target_index h in
  raise_if ((target <? cursor) || (len source <? target))
    (file_conflict (u "patch hunk starts outside the current remote text"));;
  ls ← normalize_no_newline_markers (lines h);
  p ← apply_lines source ls (Progress target (result ++ source_slice source cursor target) 0 0);
  raise_if (negb (consumed p =? old_count h) || negb (produced p =? new_count h))
    (patch_invalid (u "patch hunk line counts do not match header"));;
  Ok (emitted p, source_index p).
Fixpoint apply_hunks (source : list str) (hunks : list PatchHunk) (result : list str) (cursor : Z) :
    res (list str * Z) :=
  match hunks with
  | [] => Ok (result, cursor)
  | h :: hunks => rc ← apply_hunk source h result cursor; apply_hunks source hunks rc.1 rc.2
  end.

Definition apply_unified_patch (original patch : str) : res str :=
  raise_if (str_eqb patch [] || mem_Z 0 patch) (value_error (u "patch must be non-empty text without NUL"));;
  encoded ← utf8_encode patch;
  raise_if (MAX_PATCH_BYTES <? len encoded) (value_error (u "patch exceeds the 131072-byte limit"));;
  hunks ← parse_hunks patch;
  let source := splitlines_keep original in
  rc ← apply_hunks source hunks [] 0;
  Ok (concat (rc.1 ++ drop (Z.to_nat rc.2) source)).

(** ** What a patch means *)
(** The two sides of a hunk's lines *)
Definition on_old_side (line : str) : bool := match line with c :: _ => (c =? 32) || (c =? 45) | [] => false end.
Definition on_new_side (line : str) : bool := match line with c :: _ => (c =? 32) || (c =? 43) | [] => false end.
Definition old_side (ls : list str) : list str := map (drop 1) (List.filter on_old_side ls).
Definition new_side (ls : list str) : list str := map (drop 1) (List.filter on_new_side ls).

(** From line [cursor] of [source] on, the hunks replace their old sides by
    their new sides and leave the rest alone. *)
Inductive patched (source : list str) : Z → list PatchHunk → list str → Prop :=
  | patched_end cursor : 0 <= cursor → patched source cursor [] (drop (Z.to_nat cursor) source)
  | patched_hunk cursor h ls hunks rest :
      0 <= cursor <= target_index h → target_index h <= len source →
      normalize_no_newline_markers (lines h) = Ok ls →
      len (old_side ls) = old_count h → len (new_side ls) = new_count h →
      source_slice source (target_index h) (target_index h + old_count h) = old_side ls →
      patched source (target_index h + old_count h) hunks rest →
      patched source cursor (h :: hunks)
        (source_slice source cursor (target_index h) ++ new_side ls ++ rest).

(** The lines a hunk can hold after normalisation *)
Definition prefixed (line : str) : Prop := ∃ c v, line = c :: v ∧ (c = 32 ∨ c = 43 ∨ c = 45).

Lemma removesuffix_prefixed line : prefixed line → prefixed (removesuffix nl line).
Proof.
  intros (c & v & -> & Hc). unfold removesuffix.
  destruct (ends_with nl (c :: v) && _) eqn:E; [|by exists c, v].
  change (length nl) with 1%nat. destruct v as [|d v].
  - exfalso. boolean. by destruct Hc as [-> | [-> | ->]].
  - exists c, (take (length v) (d :: v)). split; [|done]. cbn [length]. by rewrite Nat.sub_succ, Nat.sub_0_r.
Qed.

Lemma normalize_markers_prefixed ls acc out :
  normalize_markers ls acc = Ok out → Forall prefixed acc → Forall prefixed out.
Proof.
  revert acc. induction ls as [|line ls IH]; intros acc; cbn [normalize_markers]; [by intros [= <-]|].
  destruct (starts_with no_newline_marker line).
  - destruct (rev acc) as [|last before] eqn:E; [done|]. intros H Hacc. eapply IH; [exact H|].
    rewrite <- (rev_involutive acc), E in Hacc. cbn [rev] in Hacc. apply Forall_app in Hacc as [H1 H2].
    inversion_clear H2. apply Forall_app. split; [done|]. constructor; [by apply removesuffix_prefixed|done].
  - destruct line as [|c v]; [done|]. destruct ((c =? 32) || (c =? 43) || (c =? 45)) eqn:E; [|done].
    intros H Hacc. eapply IH; [exact H|]. apply Forall_app. split; [done|]. constructor; [|done].
    exists c, v. split; [done|]. rewrite !orb_true_iff, !Z.eqb_eq in E. lia.
Qed.

Lemma source_slice_cons source i n line :
  0 <= i → 0 < n → nth_error source (Z.to_nat i) = Some line →
  source_slice source i (i + n) = line :: source_slice source (i + 1) (i + 1 + (n - 1)).
Proof.
  intros Hi Hn Hnth. unfold source_slice.
  replace (Z.to_nat (i + n - i)) with (S (Z.to_nat (n - 1))) by lia.
  replace (Z.to_nat (i + 1 + (n - 1) - (i + 1))) with (Z.to_nat (n - 1)) by lia.
  replace (Z.to_nat (i + 1)) with (S (Z.to_nat i)) by lia.
  revert Hnth. generalize (Z.to_nat i). clear. intros i. revert source.
  induction i as [|i IH]; intros [|x source]; cbn; try done; [by intros [= ->]|]. intros H. by apply IH.
Qed.

Lemma source_slice_length source i n old :
  0 <= i → source_slice source i (i + n) = old → len old = n → n = 0 ∨ i + n <= len source.
Proof.
  intros Hi <- Hl. unfold source_slice, len in *. rewrite length_take, length_drop in Hl. lia.
Qed.

(** Applying the lines of a hunk succeeds exactly when the old side is what
    the source holds there. *)
Lemma apply_lines_spec source ls : Forall prefixed ls →
  ∀ p q, 0 <= source_index p →
  apply_lines source ls p = Ok q ↔
  source_slice source (source_index p) (source_index p + len (old_side ls)) = old_side ls ∧
  q = Progress (source_index p + len (old_side ls)) (emitted p ++ new_side ls)
        (consumed p + len (old_side ls)) (produced p + len (new_side ls)).
Proof.
  induction 1 as [|line ls (c & v & -> & Hc) Hls IH]; intros p q Hp.
  { cbn. unfold old_side, new_side. cbn. rewrite !Z.add_0_r, app_nil_r. unfold source_slice.
    rewrite Z.sub_diag. cbn. destruct p as [i e k m]. cbn. split; [by intros [= <-]|by intros [_ ->]]. }
  cbn [apply_lines apply_line].
  assert (∀ p', 0 <= source_index p' → (Z.eqb c 32 = true ∨ Z.eqb c 45 = true) →
    source_index p' = source_index p + 1 →
    (require_source_line source (source_index p) v;; apply_lines source ls p') = Ok q ↔
    source_slice source (source_index p) (source_index p + (1 + len (old_side ls))) = v :: old_side ls ∧
    q = Progress (source_index p' + len (old_side ls)) (emitted p' ++ new_side ls)
          (consumed p' + len (old_side ls)) (produced p' + len (new_side ls))) as Hold.
  { intros p' Hp' _ Hidx. unfold require_source_line.
    destruct (nth_error source (Z.to_nat (source_index p))) as [line|] eqn:Hn.
    - rewrite (source_slice_cons source (source_index p) _ line) by (done || pose proof (len_nonneg (old_side ls)); lia).
      replace (1 + len (old_side ls) - 1) with (len (old_side ls)) by lia. rewrite <- Hidx.
      unfold str_eqb. case_bool_decide as E.
      + subst line. cbn. rewrite IH by done. split; [intros [-> ->]; done|intros [[= ->] ->]; done].
      + cbn. split; [done|]. intros [[= ?] _]. done.
    - split; [done|]. intros [H _]. exfalso.
      apply (f_equal length) in H. unfold source_slice in H. rewrite length_take, length_drop in H.
      apply nth_error_None in Hn. cbn in H. lia. }
  unfold old_side, new_side. destruct Hc as [-> | [-> | ->]]; cbn [List.filter on_old_side on_new_side Z.eqb Pos.eqb orb map].
  - rewrite !len_cons. fold (old_side ls) (new_side ls). specialize (Hold (Progress (source_index p + 1) (emitted p ++ [v]) (consumed p + 1) (produced p + 1))).
    cbn [source_index emitted consumed produced] in Hold. change (drop 1 (32 :: v)) with v.
    etransitivity; [|etransitivity; [apply Hold; [lia|by left|done]|]].
    + unfold require_source_line. destruct (nth_error _ _); [|done]. by destruct (raise_if _ _).
    + rewrite <- app_assoc. cbn [app].
      replace (source_index p + 1 + len (old_side ls)) with (source_index p + (1 + len (old_side ls))) by lia.
      replace (consumed p + 1 + len (old_side ls)) with (consumed p + (1 + len (old_side ls))) by lia.
      replace (produced p + 1 + len (new_side ls)) with (produced p + (1 + len (new_side ls))) by lia. done.
  - rewrite !len_cons. fold (old_side ls) (new_side ls). change (drop 1 (43 :: v)) with v. cbn [mbind result_mbind result_bind].
    rewrite IH by done. cbn [source_index emitted consumed produced]. rewrite <- app_assoc. cbn [app].
    replace (produced p + 1 + len (new_side ls)) with (produced p + (1 + len (new_side ls))) by lia. done.
  - rewrite !len_cons. fold (old_side ls) (new_side ls). specialize (Hold (Progress (source_index p + 1) (emitted p) (consumed p + 1) (produced p))).
    cbn [source_index emitted consumed produced] in Hold. change (drop 1 (45 :: v)) with v.
    etransitivity; [|etransitivity; [apply Hold; [lia|by right|done]|]].
    + unfold require_source_line. destruct (nth_error _ _); [|done]. by destruct (raise_if _ _).
    + replace (source_index p + 1 + len (old_side ls)) with (source_index p + (1 + len (old_side ls))) by lia.
      replace (consumed p + 1 + len (old_side ls)) with (consumed p + (1 + len (old_side ls))) by lia. done.
Qed.

Lemma apply_hunk_spec source h result cursor r' c' : 0 <= cursor →
  apply_hunk source h result cursor = Ok (r', c') ↔
  ∃ ls, cursor <= target_index h <= len source ∧ normalize_no_newline_markers (lines h) = Ok ls ∧
    len (old_side ls) = old_count h ∧ len (new_side ls) = new_count h ∧
    source_slice source (target_index h) (target_index h + old_count h) = old_side ls ∧
    r' = result ++ source_slice source cursor (target_index h) ++ new_side ls ∧
    c' = target_index h + old_count h.
Proof.
  intros Hcur. unfold apply_hunk. set (t := target_index h). split.
  - intros H. passed H. boolean. apply result_bind_Ok in H as (ls & Hls & H).
    apply result_bind_Ok in H as (p & Hp & H). passed H. injection H as <- <-. boolean.
    assert (Forall prefixed ls) as Hpre by (by eapply normalize_markers_prefixed).
    apply (apply_lines_spec source ls Hpre) in Hp as [Hsl ->]; [|cbn; lia].
    cbn [source_index emitted consumed produced] in *. zprop. exists ls.
    replace (old_count h) with (len (old_side ls)) in * by lia.
    split_and!; try done; try lia. by rewrite <- app_assoc.
  - intros (ls & Ht & Hls & Ho & Hn & Hsl & -> & ->).
    rewrite (proj2 (orb_false_iff _ _)) by (split; apply Z.ltb_ge; lia). cbn [raise_if mbind result_mbind result_bind].
    rewrite Hls. cbn [mbind result_mbind result_bind].
    assert (Forall prefixed ls) as Hpre by (by eapply normalize_markers_prefixed).
    rewrite (proj2 (apply_lines_spec source ls Hpre (Progress t (result ++ source_slice source cursor t) 0 0)
      (Progress (t + len (old_side ls)) ((result ++ source_slice source cursor t) ++ new_side ls)
         (0 + len (old_side ls)) (0 + len (new_side ls))) ltac:(cbn; lia)));
      [|cbn [source_index emitted consumed produced]; rewrite Ho; by split].
    cbn [mbind result_mbind result_bind source_index emitted consumed produced]. rewrite Ho, Hn, !Z.add_0_l, !Z.eqb_refl.
    cbn. by rewrite <- app_assoc.
Qed.

Lemma apply_hunks_patched source hunks : ∀ result cursor rc, 0 <= cursor →
  apply_hunks source hunks result cursor = Ok rc →
  ∃ w, rc.1 ++ drop (Z.to_nat rc.2) source = result ++ w ∧ patched source cursor hunks w.
Proof.
  induction hunks as [|h hunks IH]; intros result cursor rc Hcur; cbn [apply_hunks].
  { intros [= <-]. eexists. split; [done|]. by constructor. }
  intros H. apply result_bind_Ok in H as ([r' c'] & Hh & H).
  apply apply_hunk_spec in Hh as (ls & Ht & Hls & Ho & Hn & Hsl & -> & ->); [|done].
  pose proof (len_nonneg (old_side ls)). apply IH in H as (w & Hw & Hp); [|cbn; lia].
  exists (source_slice source cursor (target_index h) ++ new_side ls ++ w). rewrite Hw. split.
  - cbn [fst]. by rewrite <- !app_assoc.
  - eapply patched_hunk; try done; lia.
Qed.

Lemma patched_apply_hunks source cursor hunks w :
  patched source cursor hunks w → ∀ result,
  ∃ rc, apply_hunks source hunks result cursor = Ok rc ∧ rc.1 ++ drop (Z.to_nat rc.2) source = result ++ w.
Proof.
  induction 1 as [cursor Hc|cursor h ls hunks rest Hc Ht Hls Ho Hn Hsl Hp IH]; intros result.
  { by exists (result, cursor). }
  destruct (IH (result ++ source_slice source cursor (target_index h) ++ new_side ls)) as (rc & Hrc & Hw).
  exists rc. cbn [apply_hunks].
  rewrite (proj2 (apply_hunk_spec source h result cursor _ _ ltac:(lia))
    (ex_intro _ ls (conj (conj (proj2 Hc) Ht) (conj Hls (conj Ho (conj Hn (conj Hsl (conj eq_refl eq_refl)))))))).
  split; [exact Hrc|]. rewrite Hw. by rewrite <- !app_assoc.
Qed.

(** C37: A patch applies exactly when it parses into hunks and the
    text splits into untouched pieces and the old sides of the hunks, in order
    and at the places the headers declare; the result is then the same text
    with the new sides in their places.  In every other case the operation
    fails and there is no result. *)
Theorem patch_replaces_hunks original patch result :
  apply_unified_patch original patch = Ok result ↔
  (patch ≠ [] ∧ 0 ∉ patch ∧ ∃ encoded, utf8_encode patch = Ok encoded ∧ len encoded <= MAX_PATCH_BYTES) ∧
  ∃ hunks, parse_hunks patch = Ok hunks ∧
  ∃ ls, patched (splitlines_keep original) 0 hunks ls ∧ result = concat ls.
Proof.
  unfold apply_unified_patch, str_eqb.
  assert (∀ s, mem_Z 0 s = false ↔ 0 ∉ s) as Hmem.
  { intros s. rewrite <- Bool.not_true_iff_false. unfold mem_Z. rewrite existsb_exists, list_elem_of_In.
    split; intros H Hn; apply H; [by exists 0|]. destruct Hn as (x & Hx & E). by apply Z.eqb_eq in E as ->. }
  split.
  - intros H. passed H. apply result_bind_Ok in H as (encoded & He & H). passed H.
    apply result_bind_Ok in H as (hunks & Hh & H). apply result_bind_Ok in H as (rc & Hrc & H).
    injection H as <-. boolean. apply apply_hunks_patched in Hrc as (w & Hw & Hp); [|lia].
    split; [|exists hunks; split; [done|]; exists w; split; [done|]; by rewrite Hw].
    split; [done|]. split; [by apply Hmem|by exists encoded].
  - intros ((Hne & H0 & encoded & He & Hl) & hunks & Hh & ls & Hp & ->).
    rewrite bool_decide_eq_false_2 by done. rewrite (proj2 (Hmem patch) H0). cbn [orb raise_if mbind result_mbind result_bind].
    rewrite He. cbn [mbind result_mbind result_bind]. rewrite (proj2 (Z.ltb_ge _ _) Hl). cbn [raise_if mbind result_mbind result_bind].
    rewrite Hh. cbn [mbind result_mbind result_bind].
    destruct (patched_apply_hunks _ _ _ _ Hp []) as (rc & -> & Hw). cbn [mbind result_mbind result_bind]. by rewrite Hw.
Qed.
End patch.

Example apply_sample :
  apply_unified_patch (U := ascii_db) (u "a" ++ nl ++ u "b" ++ nl ++ u "c" ++ nl)
    (u "@@ -2 +2,2 @@" ++ nl ++ u "-b" ++ nl ++ u "+x" ++ nl ++ u "+y" ++ nl) =
  Ok (u "a" ++ nl ++ u "x" ++ nl ++ u "y" ++ nl ++ u "c" ++ nl).
Proof. vm_compute. reflexivity. Qed.
