(* ===== verification/FileWire.v ===== *)
(** * FileWire: the responses of the remote file helper (files/wire.py)

    The helper prints rows of base64 cells between two marker lines; parsing
    looks for the markers, decodes the rows and groups them by key.  The round
    trip shows that every response the helper prints, with either line ending
    and whatever the terminal showed before it, is read back exactly. *)
From S2P Require Import Prelude Errors Text TextFacts Regex ConfigModel Patch.

Definition WIRE_KEY : re :=
  RSeqs [RBol; RChar (cls [(97, 122)]); RUpto 31 (RChar (cls [(97, 122); (48, 57); (95, 95)])); REol].
Definition MAX_WIRE_TEXT_BYTES : Z := 8388608.

Record FileWireCommand := WireCommand { token : str; command : str }.
Record FileWireResponse := WireResponse { rows : dict (list (list bytes)) }.

Definition file_protocol_error (m : str) : exn := remote_file_error (u "file_protocol_error") m.

(** [_text] *)
Definition wire_text (v : bytes) : res str :=
  match utf8_decode v with
  | UText s => Ok s
  | UBad _ _ => Err (file_protocol_error (u "remote file response contains invalid encoded text"))
  end.
(** [_decode_cell]: [value.encode("ascii")], then strict base64 *)
Definition decode_cell (v : str) : res bytes :=
  match (if forallb is_ascii v then b64_decode v else None) with
  | Some b => Ok b
  | None => Err (file_protocol_error (u "remote file response contains invalid base64"))
  end.

(** *** The accessors *)
Definition row_values (r : FileWireResponse) (name : str) : list (list bytes) :=
  default [] (dget (rows r) name).
Definition invalid_field (name : str) : exn := file_protocol_error (u "invalid remote field: " ++ name).
Definition one_bytes (r : FileWireResponse) (name : str) : res bytes :=
  match row_values r name with
  | [[cell]] => Ok cell
  | _ => Err (invalid_field name)
  end.
Definition one (r : FileWireResponse) (name : str) : res str :=
  cell ← one_bytes r name; wire_text cell.
Definition optional (r : FileWireResponse) (name : str) : res (option str) :=
  match row_values r name with
  | [] => Ok None
  | [[cell]] => s ← wire_text cell; Ok (Some s)
  | _ => Err (invalid_field name)
  end.
Fixpoint map_res {A B} (f : A → res B) (l : list A) : res (list B) :=
  match l with
  | [] => Ok []
  | a :: l => b ← f a; bs ← map_res f l; Ok (b :: bs)
  end.
Definition many (r : FileWireResponse) (name : str) (width : Z) : res (list (list str)) :=
  raise_if (existsb (fun v => negb (len v =? width)) (row_values r name))
    (file_protocol_error (u "invalid remote rows: " ++ name));;
  map_res (map_res wire_text) (row_values r name).

Definition encode_argument (v : str) : res str :=
  encoded ← utf8_encode v; Ok (b64_encode encoded).

(** *** Parsing *)
Definition begin_marker (token : str) : str := u "__SERVEROPS_FILE_BEGIN_" ++ token ++ u "__".
Definition end_marker (token : str) : str := u "__SERVEROPS_FILE_END_" ++ token ++ u "__".

(** [lines.index(x)]: what lies before the first occurrence, and after it *)
Fixpoint split_at (x : str) (ls : list str) : option (list str * list str) :=
  match ls with
  | [] => None
  | l :: ls => if str_eqb l x then Some ([], ls)
               else match split_at x ls with
                    | Some (before, rest) => Some (l :: before, rest)
                    | None => None
                    end
  end.

Section wire.
Context {U : UnicodeDB}.

Definition parse_row (parsed : dict (list (list bytes))) (line : str) : res (dict (list (list bytes))) :=
  let cells := split_char 9 line in
  let key := default [] (head cells) in
  raise_if (negb (fullmatch WIRE_KEY key) || (len cells <? 2))
    (file_protocol_error (u "remote file response row is invalid"));;
  values ← map_res decode_cell (drop 1 cells);
  Ok (dset parsed key (default [] (dget parsed key) ++ [values])).
Fixpoint parse_rows (parsed : dict (list (list bytes))) (ls : list str) : res (dict (list (list bytes))) :=
  match ls with
  | [] => Ok parsed
  | l :: ls => parsed' ← parse_row parsed l; parse_rows parsed' ls
  end.

Definition response_lines (output : str) : list str :=
  split_char 10 (replace_all cr [] (replace_all (cr ++ nl) nl output)).
Definition check_status (r : FileWireResponse) : res FileWireResponse :=
  status ← one r (u "status");
  if str_eqb status (u "error") then
    code ← one r (u "code");
    message ← one r (u "message");
    Err (remote_file_error code message)
  else if negb (str_eqb status (u "ok"))
  then Err (file_protocol_error (u "remote file response status is invalid"))
  else Ok r.
Definition parse_file_response (output token : str) : res FileWireResponse :=
  raise_if (MAX_WIRE_TEXT_BYTES <? len (utf8_encode_replace output))
    (file_protocol_error (u "remote file response exceeds its limit"));;
  match split_at (begin_marker token) (response_lines output) with
  | None => Err (file_protocol_error (u "remote file response markers are missing"))
  | Some (_, after_begin) =>
      match split_at (end_marker token) after_begin with
      | None => Err (file_protocol_error (u "remote file response markers are missing"))
      | Some (body, trailing) =>
          raise_if (existsb (fun l => negb (str_eqb l [])) trailing)
            (file_protocol_error (u "unexpected data follows file response"));;
          parsed ← parse_rows [] body;
          check_status (WireResponse parsed)
      end
  end.

(** ** What the helper prints *)
(** [_serverops_row key cell...] *)
Definition row_line (row : str * list bytes) : str := join [9] (row.1 :: map b64_encode row.2).
Definition response_text (token : str) (sent : list (str * list bytes)) : list str :=
  [begin_marker token] ++ map row_line sent ++ [end_marker token].
(** The rows grouped by key, in order *)
Definition add_row (parsed : dict (list (list bytes))) (row : str * list bytes) : dict (list (list bytes)) :=
  dset parsed row.1 (default [] (dget parsed row.1) ++ [row.2]).
Definition grouped (sent : list (str * list bytes)) : dict (list (list bytes)) := fold_left add_row sent [].

Definition key_ok (k : str) : Prop := fullmatch WIRE_KEY k = true.
Definition row_ok (row : str * list bytes) : Prop :=
  key_ok row.1 ∧ row.2 ≠ [] ∧ Forall (fun b => bytes_ok b) row.2.

(** ** Reading it back *)
Definition clean (l : str) : Prop := lacks 10 l = true ∧ lacks 13 l = true.

Lemma without_cr_id s : lacks 13 s = true → without_cr s = s.
Proof.
  unfold lacks, without_cr. induction s as [|c s IH]; cbn; [done|]. intros [Hc Hs]%andb_true_iff.
  rewrite Hc. f_equal. by apply IH.
Qed.
Lemma without_cr_app a b : without_cr (a ++ b) = without_cr a ++ without_cr b.
Proof. apply List.filter_app. Qed.

Lemma response_lines_text eol ls :
  (eol = nl ∨ eol = cr ++ nl) → Forall clean ls →
  response_lines (concat (map (fun l => l ++ eol) ls)) = ls ++ [[]].
Proof.
  intros He Hls. unfold response_lines. rewrite replace_crlf_cr.
  induction Hls as [|l ls [H10 H13] Hls IH]; [done|]. cbn [map concat].
  rewrite !without_cr_app, without_cr_id by done.
  assert (without_cr eol = nl) as -> by (by destruct He as [-> | ->]).
  rewrite <- app_assoc. change (nl ++ ?x) with (10 :: x). rewrite split_char_word by done. by rewrite IH.
Qed.

Lemma split_at_first x before rest : x ∉ before → split_at x (before ++ x :: rest) = Some (before, rest).
Proof.
  induction before as [|l before IH]; cbn [app split_at]; unfold str_eqb; intros H.
  - by rewrite bool_decide_eq_true_2.
  - rewrite bool_decide_eq_false_2 by set_solver. fold (split_at x). rewrite IH by set_solver. done.
Qed.

Lemma key_text k : key_ok k → forallb (fun c => cls [(97, 122); (48, 57); (95, 95)] c) k = true ∧ k ≠ [].
Proof.
  intros H. split; [|by intros ->].
  apply fullmatch_lang in H as (t & Hl & Ht). apply class_upto_text in Hl; [|done].
  rewrite forallb_forall in *. intros c Hc. specialize (Hl c Hc). unfold cls in *. cbn in *.
  rewrite !orb_false_r in *. rewrite !orb_true_iff, !andb_true_iff, !Z.leb_le in *. lia.
Qed.
Lemma key_lacks k c : key_ok k → c < 48 → lacks c k = true.
Proof.
  intros [H _]%key_text Hc. unfold lacks. rewrite forallb_forall in *. intros x Hx. specialize (H x Hx).
  unfold cls in H. cbn in H. rewrite !orb_false_r in H. rewrite !orb_true_iff, !andb_true_iff, !Z.leb_le in H.
  apply negb_true_iff, Z.eqb_neq. lia.
Qed.
Lemma cell_lacks b c : bytes_ok b → c < 43 → lacks c (b64_encode b) = true.
Proof.
  intros Hb Hc. pose proof (b64_encode_alphabet b Hb) as H. unfold lacks. rewrite forallb_forall in *.
  intros x Hx. specialize (H x Hx). apply negb_true_iff, Z.eqb_neq. intros ->.
  unfold b64_alphabet, ascii_alnum, ascii_digit, ascii_upper, ascii_lower in H.
  rewrite !orb_true_iff, !andb_true_iff, !Z.leb_le, !Z.eqb_eq in H. lia.
Qed.

Lemma row_cells row : row_ok row → split_char 9 (row_line row) = row.1 :: map b64_encode row.2.
Proof.
  intros (Hk & _ & Hb). apply split_char_join; [done|]. constructor; [by apply key_lacks|].
  apply Forall_map. eapply Forall_impl; [exact Hb|]. intros b H. by apply cell_lacks.
Qed.
Lemma join_lacks_char c sep ls :
  lacks c sep = true → Forall (fun l => lacks c l = true) ls → lacks c (join sep ls) = true.
Proof.
  intros Hs. induction 1 as [|l ls Hl Hls IH]; [done|]. destruct ls as [|l' ls]; [done|].
  change (join sep (l :: l' :: ls)) with (l ++ sep ++ join sep (l' :: ls)).
  unfold lacks in *. by rewrite !forallb_app, Hl, Hs, IH.
Qed.
Lemma row_clean row : row_ok row → clean (row_line row).
Proof.
  intros (Hk & _ & Hb). split; apply join_lacks_char; try done; (constructor; [by apply key_lacks|]);
    apply Forall_map; (eapply Forall_impl; [exact Hb|]); intros b H; by apply cell_lacks.
Qed.
Lemma row_ne_marker token row : row_ok row → lacks 9 token = true → row_line row ≠ end_marker token.
Proof.
  intros (_ & Hne & _) Ht H. apply (f_equal (lacks 9)) in H. revert H. unfold row_line, end_marker, lacks.
  rewrite !forallb_app. fold (lacks 9 token). rewrite Ht. destruct (row.2) as [|b bs]; [done|].
  cbn [map join]. rewrite forallb_app. cbn [forallb Z.eqb Pos.eqb negb andb app]. rewrite andb_false_r. done.
Qed.

Lemma decode_cells bs : Forall (fun b => bytes_ok b) bs → map_res decode_cell (map b64_encode bs) = Ok bs.
Proof.
  induction 1 as [|b bs Hb Hbs IH]; [done|]. cbn [map map_res].
  assert (decode_cell (b64_encode b) = Ok b) as ->.
  { unfold decode_cell. rewrite b64_alphabet_ascii by (by apply b64_encode_alphabet). by rewrite b64_decode_encode. }
  cbn [mbind result_mbind result_bind]. by rewrite IH.
Qed.
Lemma parse_row_line parsed row : row_ok row → parse_row parsed (row_line row) = Ok (add_row parsed row).
Proof.
  intros Hrow. pose proof Hrow as (Hk & Hne & Hb). unfold parse_row. rewrite row_cells by done.
  change (default [] (head (row.1 :: map b64_encode row.2))) with row.1. unfold key_ok in Hk. rewrite Hk. rewrite len_cons.
  assert (1 <= len (map b64_encode row.2)) by (destruct row.2 as [|b bs]; [done|]; cbn [map]; rewrite len_cons; pose proof (len_nonneg (map b64_encode bs)); lia).
  rewrite (proj2 (Z.ltb_ge _ _)) by lia. cbn [negb orb raise_if mbind result_mbind result_bind].
  change (drop 1 (row.1 :: ?l)) with l. by rewrite decode_cells.
Qed.
Lemma parse_rows_lines sent parsed : Forall row_ok sent →
  parse_rows parsed (map row_line sent) = Ok (fold_left add_row sent parsed).
Proof.
  intros H. revert parsed. induction H as [|row sent Hrow Hs IH]; intros parsed; [done|].
  cbn [map parse_rows fold_left]. rewrite parse_row_line by done. apply IH.
Qed.

(** Whatever rows the helper prints, with a valid key and at
    least one cell of any bytes, the parser returns those rows grouped by key
    (or the error the rows report), for both line endings and after any lines
    the terminal showed before the response. *)
Theorem file_response_roundtrip token noise sent eol :
  (eol = nl ∨ eol = cr ++ nl) → clean token → lacks 9 token = true →
  Forall clean noise → begin_marker token ∉ noise → Forall row_ok sent →
  let output := concat (map (fun l => l ++ eol) (noise ++ response_text token sent)) in
  len (utf8_encode_replace output) <= MAX_WIRE_TEXT_BYTES →
  parse_file_response output token = check_status (WireResponse (grouped sent)).
Proof.
  intros He [H10 H13] H9 Hnoise Hbegin Hsent output Hlen. unfold parse_file_response.
  rewrite (proj2 (Z.ltb_ge _ _) Hlen). cbn [raise_if mbind result_mbind result_bind].
  assert (clean (begin_marker token) ∧ clean (end_marker token)) as [Hb Hend].
  { unfold clean, begin_marker, end_marker, lacks in *. by rewrite !forallb_app, H10, H13. }
  unfold output. rewrite response_lines_text; [|done|].
  2: { apply Forall_app. split; [done|]. unfold response_text. apply Forall_app. split; [by constructor|].
       apply Forall_app. split; [|by constructor]. apply Forall_map. eapply Forall_impl; [exact Hsent|].
       intros row Hrow. by apply row_clean. }
  unfold response_text. rewrite <- !app_assoc. cbn [app]. rewrite split_at_first by done.
  rewrite split_at_first.
  2: { intros Hin. apply list_elem_of_In, in_map_iff in Hin as (row & Hrow & Hin).
       apply list_elem_of_In in Hin. rewrite Forall_forall in Hsent. by apply (row_ne_marker token row (Hsent _ Hin) H9). }
  cbn [existsb str_eqb bool_decide negb orb]. rewrite parse_rows_lines by done. done.
Qed.
End wire.

Definition sample_rows : list (str * list bytes) :=
  [(u "status", [u "ok"]); (u "path", [u "/srv/a b"]); (u "entry", [u "x"; [0; 9; 10; 255]])].
Lemma file_response_roundtrip_witness :
  let output := concat (map (fun l => l ++ cr ++ nl) ([u "$ ls"; []] ++ response_text (u "00ff") sample_rows)) in
  parse_file_response (U := ascii_db) output (u "00ff") =
  Ok (WireResponse [(u "status", [[u "ok"]]); (u "path", [[u "/srv/a b"]]); (u "entry", [[u "x"; [0; 9; 10; 255]]])]).
Proof.
  intros output. etransitivity.
  - apply (file_response_roundtrip (U := ascii_db) (u "00ff") [u "$ ls"; []] sample_rows (cr ++ nl)).
    + by right.
    + by split.
    + reflexivity.
    + repeat constructor.
    + apply (bool_decide_unpack _). vm_compute. exact I.
    + repeat constructor; (by vm_compute) || discriminate.
    + vm_compute. discriminate.
  - vm_compute. reflexivity.
Defined.
