(* ===== verification/FileShell.v ===== *)
(** * FileShell: the commands the file service sends (files/shell.py, files/shell_protocol.py)

    Every operation is one POSIX shell script: a prologue of helper functions,
    a body for the operation and the closing lines.  Whatever path,
    content or query an operation is given, it reaches the script as base64,
    digits or hexadecimal only; the last part shows that the rest of the script
    does not depend on it. *)
From S2P Require Import Prelude Errors Text TextFacts Regex Sha256 ConfigModel Patch FileWire.

(** [s[i:i+n] for i in range(0, len(s), n)] *)
Fixpoint chunks_fuel (fuel : nat) (n : nat) (s : str) : list str :=
  match fuel, s with
  | S fuel, _ :: _ => take n s :: chunks_fuel fuel n (drop n s)
  | _, _ => []
  end.
Definition chunks (n : nat) (s : str) : list str := chunks_fuel (length s) n s.

Section shell.
(** The roots of the profile and the token of the command
    ([secrets.token_hex(16)]) *)
Variable allowed_roots : list str.

(** ** The protocol around a body *)
Definition prologue (first last roots : str) : str :=
    sh "(
set +e
_serverops_begin='"
    ++ first
    ++ sh "'
_serverops_end='"
    ++ last
    ++ sh "'
_serverops_roots='"
    ++ roots
    ++ sh "'
_serverops_encode() { base64 | tr -d '\r\n'; }
_serverops_decode() { printf '%s' `$1` | base64 -d; }
_serverops_row() {
  _serverops_row_key=$1
  shift
  printf '%s' `$_serverops_row_key`
  for _serverops_row_value in `$@`; do
    printf '\t'
    printf '%s' `$_serverops_row_value` | _serverops_encode
  done
  printf '\n'
}
_serverops_blob() {
  printf '%s\t' `$1`
  _serverops_encode
  printf '\n'
}
_serverops_error() {
  printf '%s\n' `$_serverops_begin`
  _serverops_row status error
  _serverops_row code `$1`
  _serverops_row message `$2`
  printf '%s\n' `$_serverops_end`
  exit 0
}
_serverops_success() {
  printf '%s\n' `$_serverops_begin`
  _serverops_row status ok
}
_serverops_finish() { printf '%s\n' `$_serverops_end`; exit 0; }
_serverops_allowed() {
  _serverops_candidate=$1
  for _serverops_encoded_root in $_serverops_roots; do
    _serverops_root_input=$(_serverops_decode `$_serverops_encoded_root`) || return 2
    _serverops_root=$(realpath -- `$_serverops_root_input` 2>/dev/null) || return 2
    if [ `$_serverops_root` = / ]; then return 0; fi
    case `$_serverops_candidate` in
      `$_serverops_root`|`$_serverops_root`/*) return 0 ;;
    esac
  done
  return 1
}
_serverops_is_root() {
  _serverops_candidate=$1
  for _serverops_encoded_root in $_serverops_roots; do
    _serverops_root_input=$(_serverops_decode `$_serverops_encoded_root`) || continue
    _serverops_root=$(realpath -- `$_serverops_root_input` 2>/dev/null) || continue
    [ `$_serverops_candidate` = `$_serverops_root` ] && return 0
  done
  return 1
}
_serverops_valid_name() {
  [ -n `$1` ] && [ `$1` != . ] && [ `$1` != .. ] && [ `${1#-}` = `$1` ]
}
_serverops_owned_tree() {
  _serverops_foreign=$(find `$1` ! -user `$(id -u)` -print -quit 2>/dev/null) || return 1
  [ -z `$_serverops_foreign` ]
}
".
Definition wrap (token body : str) : res FileWireCommand :=
  encoded_roots ← map_res encode_argument allowed_roots;
  let roots := join (u " ") encoded_roots in
  Ok (WireCommand token
        (prologue (begin_marker token) (end_marker token) roots ++ body ++ nl ++ u ")" ++ nl)).

(** ** Shared parts *)
Definition existing (path : str) : res str :=
  encoded ← encode_argument path;
  Ok (
    sh "
_serverops_path=$(_serverops_decode '"
    ++ encoded
    ++ sh "') ||   _serverops_error invalid_path 'Remote path could not be decoded.'
_serverops_resolved=$(realpath -- `$_serverops_path` 2>/dev/null) ||   _serverops_error path_not_found 'Remote path could not be resolved.'
_serverops_allowed `$_serverops_resolved`
_serverops_allowed_status=$?
[ `$_serverops_allowed_status` -eq 0 ] ||   _serverops_error path_outside_roots 'Remote path is outside allowed roots.'
").
Definition new_entry (path prefix : str) : res str :=
  encoded ← encode_argument path;
  let variable := if str_eqb prefix [] then sh "_serverops_" else sh "_serverops_" ++ prefix ++ sh "_" in
  Ok (
    sh "
"
    ++ variable
    ++ sh "path=$(_serverops_decode '"
    ++ encoded
    ++ sh "') ||   _serverops_error invalid_path 'Remote path could not be decoded.'
"
    ++ variable
    ++ sh "parent_input=$(dirname -- `${"
    ++ variable
    ++ sh "path}`)
"
    ++ variable
    ++ sh "name=$(basename -- `${"
    ++ variable
    ++ sh "path}`)
_serverops_valid_name `${"
    ++ variable
    ++ sh "name}` ||   _serverops_error invalid_path 'New path name is invalid.'
"
    ++ variable
    ++ sh "parent=$(realpath -- `${"
    ++ variable
    ++ sh "parent_input}` 2>/dev/null) ||   _serverops_error parent_not_found 'Remote parent directory could not be resolved.'
_serverops_allowed `${"
    ++ variable
    ++ sh "parent}` ||   _serverops_error path_outside_roots 'Remote parent is outside allowed roots.'
[ -w `${"
    ++ variable
    ++ sh "parent}` ] ||   _serverops_error permission_denied 'Remote parent directory is not writable.'
"
    ++ variable
    ++ sh "target=`${"
    ++ variable
    ++ sh "parent}/${"
    ++ variable
    ++ sh "name}`
if [ -e `${"
    ++ variable
    ++ sh "target}` ] || [ -L `${"
    ++ variable
    ++ sh "target}` ]; then
  _serverops_error destination_exists 'Remote destination already exists.'
fi
").
Definition entry_reference (path prefix : str) : res str :=
  encoded ← encode_argument path;
  let variable := sh "_serverops_" ++ prefix ++ sh "_" in
  Ok (
    sh "
"
    ++ variable
    ++ sh "path=$(_serverops_decode '"
    ++ encoded
    ++ sh "') ||   _serverops_error invalid_path 'Remote path could not be decoded.'
"
    ++ variable
    ++ sh "parent_input=$(dirname -- `${"
    ++ variable
    ++ sh "path}`)
"
    ++ variable
    ++ sh "name=$(basename -- `${"
    ++ variable
    ++ sh "path}`)
_serverops_valid_name `${"
    ++ variable
    ++ sh "name}` ||   _serverops_error invalid_path 'Remote path name is invalid.'
"
    ++ variable
    ++ sh "parent=$(realpath -- `${"
    ++ variable
    ++ sh "parent_input}` 2>/dev/null) ||   _serverops_error parent_not_found 'Remote parent directory could not be resolved.'
"
    ++ variable
    ++ sh "entry=`${"
    ++ variable
    ++ sh "parent}/${"
    ++ variable
    ++ sh "name}`
"
    ++ variable
    ++ sh "resolved=$(realpath -- `${"
    ++ variable
    ++ sh "entry}` 2>/dev/null) ||   _serverops_error path_not_found 'Remote path could not be resolved.'
_serverops_allowed `${"
    ++ variable
    ++ sh "parent}` ||   _serverops_error path_outside_roots 'Remote parent is outside allowed roots.'
_serverops_allowed `${"
    ++ variable
    ++ sh "resolved}` ||   _serverops_error path_outside_roots 'Remote path target is outside allowed roots.'
"
    ++ variable
    ++ sh "owner=$(stat -c %u -- `${"
    ++ variable
    ++ sh "entry}` 2>/dev/null) ||   _serverops_error stat_failed 'Remote ownership could not be read.'
[ `${"
    ++ variable
    ++ sh "owner}` = `$(id -u)` ] ||   _serverops_error ownership_unsupported 'Structured edits require paths owned by the SSH user.'
").

(** ** Operations *)
Definition list_directory (token path : str) (limit : Z) : res FileWireCommand :=
  setup ← existing path;
  wrap token (setup ++
    sh "
[ -d `$_serverops_resolved` ] || _serverops_error not_a_directory 'Remote path is not a directory.'
_serverops_success
_serverops_row path `$_serverops_resolved`
_serverops_count=0
_serverops_truncated=false
while IFS= read -r -d '' _serverops_child; do
  if [ `$_serverops_count` -ge "
    ++ show_int limit
    ++ sh " ]; then
    _serverops_truncated=true
    break
  fi
  _serverops_name=${_serverops_child##*/}
  if [ -L `$_serverops_child` ]; then _serverops_type=symlink
  elif [ -d `$_serverops_child` ]; then _serverops_type=directory
  elif [ -f `$_serverops_child` ]; then _serverops_type=file
  else _serverops_type=other
  fi
  _serverops_size=$(stat -c %s -- `$_serverops_child` 2>/dev/null) || _serverops_size=0
  _serverops_mtime=$(stat -c %Y -- `$_serverops_child` 2>/dev/null) || _serverops_mtime=0
  _serverops_mode=$(stat -c %a -- `$_serverops_child` 2>/dev/null) || _serverops_mode=''
  _serverops_row entry `$_serverops_name` `$_serverops_type`     `$_serverops_size` `$_serverops_mtime` `$_serverops_mode`
  _serverops_count=$((_serverops_count + 1))
done < <(find `$_serverops_resolved` -mindepth 1 -maxdepth 1 -print0 2>/dev/null | LC_ALL=C sort -z)
_serverops_row truncated `$_serverops_truncated`
_serverops_finish
").
Definition stat (token path : str) : res FileWireCommand :=
  setup ← existing path;
  wrap token (setup ++
    sh "
if [ -L `$_serverops_path` ]; then _serverops_type=symlink
elif [ -d `$_serverops_resolved` ]; then _serverops_type=directory
elif [ -f `$_serverops_resolved` ]; then _serverops_type=file
else _serverops_type=other
fi
_serverops_size=$(stat -c %s -- `$_serverops_resolved` 2>/dev/null) ||   _serverops_error stat_failed 'Remote metadata could not be read.'
_serverops_mtime=$(stat -c %Y -- `$_serverops_resolved` 2>/dev/null) ||   _serverops_error stat_failed 'Remote metadata could not be read.'
_serverops_mode=$(stat -c %a -- `$_serverops_resolved` 2>/dev/null) ||   _serverops_error stat_failed 'Remote metadata could not be read.'
_serverops_success
_serverops_row path `$_serverops_resolved`
_serverops_row type `$_serverops_type`
_serverops_row size `$_serverops_size`
_serverops_row modified_epoch `$_serverops_mtime`
_serverops_row mode `$_serverops_mode`
_serverops_finish
").
Definition hash (token path : str) : res FileWireCommand :=
  setup ← existing path;
  wrap token (setup ++
    sh "
[ -f `$_serverops_resolved` ] || _serverops_error not_a_file 'Remote path is not a regular file.'
_serverops_sha=$(sha256sum -- `$_serverops_resolved` 2>/dev/null | awk '{print $1}') ||   _serverops_error hash_failed 'Remote file hash could not be calculated.'
_serverops_success
_serverops_row path `$_serverops_resolved`
_serverops_row sha256 `$_serverops_sha`
_serverops_finish
").
Definition read_text (token path : str) (byte_limit : Z) (start_line end_line : option Z) :
    res FileWireCommand :=
  setup ← existing path;
  let body := setup ++
    sh "
[ -f `$_serverops_resolved` ] || _serverops_error not_a_file 'Remote path is not a regular file.'
_serverops_sha=$(sha256sum -- `$_serverops_resolved` 2>/dev/null | awk '{print $1}') ||   _serverops_error hash_failed 'Remote file hash could not be calculated.'
" in
  match start_line with
  | None =>
      wrap token (body ++
    sh "
_serverops_selected_size=$(wc -c < `$_serverops_resolved`) ||   _serverops_error read_failed 'Remote file size could not be read.'
_serverops_success
_serverops_row path `$_serverops_resolved`
_serverops_row sha256 `$_serverops_sha`
_serverops_row selected_bytes `$_serverops_selected_size`
if [ `$_serverops_selected_size` -gt "
    ++ show_int byte_limit ++ sh " ]; then _serverops_row truncated true
else _serverops_row truncated false
fi
head -c "
    ++ show_int byte_limit ++ sh " -- `$_serverops_resolved` | _serverops_blob content
_serverops_finish
")
  | Some first =>
      last ← assert_some end_line;
      let sed_range := show_int first ++ u "," ++ show_int last ++ u "p" in
      wrap token (body ++
    sh "
_serverops_selected_size=$(sed -n '"
    ++ sed_range
    ++ sh "' -- `$_serverops_resolved` | wc -c) ||   _serverops_error read_failed 'Remote line range could not be read.'
_serverops_success
_serverops_row path `$_serverops_resolved`
_serverops_row sha256 `$_serverops_sha`
_serverops_row selected_bytes `$_serverops_selected_size`
if [ `$_serverops_selected_size` -gt "
    ++ show_int byte_limit
    ++ sh " ]; then _serverops_row truncated true
else _serverops_row truncated false
fi
sed -n '"
    ++ sed_range
    ++ sh "' -- `$_serverops_resolved` | head -c "
    ++ show_int byte_limit
    ++ sh " | _serverops_blob content
_serverops_finish
")
  end.
Definition search_text (token path query : str) (limit : Z) : res FileWireCommand :=
  encoded_query ← encode_argument query;
  setup ← existing path;
  wrap token (setup ++
    sh "
_serverops_query=$(_serverops_decode '"
    ++ encoded_query
    ++ sh "') ||   _serverops_error invalid_query 'Search text could not be decoded.'
_serverops_success
_serverops_row path `$_serverops_resolved`
_serverops_count=0
_serverops_truncated=false
while IFS= read -r -d '' _serverops_match_file; do
  _serverops_match_resolved=$(realpath -- `$_serverops_match_file` 2>/dev/null) || continue
  _serverops_allowed `$_serverops_match_resolved` || continue
  if od -An -v -tx1 `$_serverops_match_resolved` 2>/dev/null |       grep -Eq '(^|[[:space:]])00([[:space:]]|$)'; then
    continue
  fi
  while IFS= read -r _serverops_match; do
    if [ `$_serverops_count` -ge "
    ++ show_int limit
    ++ sh " ]; then
      _serverops_truncated=true
      break 2
    fi
    _serverops_line=${_serverops_match%%:*}
    _serverops_text=${_serverops_match#*:}
    _serverops_row match `$_serverops_match_resolved` `$_serverops_line` `$_serverops_text`
    _serverops_count=$((_serverops_count + 1))
  done < <(LC_ALL=C grep -n -F -- `$_serverops_query` `$_serverops_match_resolved` 2>/dev/null)
done < <(find `$_serverops_resolved` -type f -print0 2>/dev/null)
_serverops_row truncated `$_serverops_truncated`
_serverops_finish
").
Definition content_arguments (encoded_content : str) : str :=
  join (u " \" ++ nl) (map (fun c => u "  '" ++ c ++ u "'") (chunks 512 encoded_content)).
(** [encode_argument(content.decode("utf-8"))] of bytes that are UTF-8 is their base64. *)
Definition write_text (token path : str) (content : bytes) (expected_sha256 : option str) :
    res FileWireCommand :=
  encoded_path ← encode_argument path;
  encoded_content ← match utf8_decode content with
                    | UText s => encode_argument s
                    | UBad _ _ => Err (Builtin UnicodeDecodeError [])
                    end;
  let content_hash := sha256_hex content in
  let expected := default [] expected_sha256 in
  wrap token (
    sh "
_serverops_path=$(_serverops_decode '"
    ++ encoded_path
    ++ sh "') ||   _serverops_error invalid_path 'Remote path could not be decoded.'
_serverops_expected='"
    ++ expected
    ++ sh "'
_serverops_existing=false
if [ -e `$_serverops_path` ] || [ -L `$_serverops_path` ]; then
  _serverops_existing=true
  _serverops_target=$(realpath -- `$_serverops_path` 2>/dev/null) ||     _serverops_error path_not_found 'Remote path could not be resolved.'
  _serverops_allowed `$_serverops_target`
  _serverops_allowed_status=$?
  [ `$_serverops_allowed_status` -eq 0 ] ||     _serverops_error path_outside_roots 'Remote path is outside allowed roots.'
  [ -f `$_serverops_target` ] || _serverops_error not_a_file 'Remote path is not a regular file.'
  [ -w `$_serverops_target` ] || _serverops_error permission_denied 'Remote file is not writable.'
  _serverops_parent=$(dirname -- `$_serverops_target`)
  _serverops_before=$(sha256sum -- `$_serverops_target` | awk '{print $1}') ||     _serverops_error hash_failed 'Remote file hash could not be calculated.'
  [ -z `$_serverops_expected` ] || [ `$_serverops_before` = `$_serverops_expected` ] ||     _serverops_error file_conflict 'Remote file does not match expected_sha256.'
  _serverops_owner=$(stat -c %u -- `$_serverops_target`) ||     _serverops_error stat_failed 'Remote ownership could not be read.'
  _serverops_mode=$(stat -c %a -- `$_serverops_target`) ||     _serverops_error stat_failed 'Remote mode could not be read.'
  _serverops_group=$(stat -c %g -- `$_serverops_target`) ||     _serverops_error stat_failed 'Remote group could not be read.'
  [ `$_serverops_owner` = `$(id -u)` ] ||     _serverops_error ownership_unsupported 'Structured writes require a file owned by the SSH user.'
else
  [ -z `$_serverops_expected` ] ||     _serverops_error file_conflict 'Expected file does not exist.'
  _serverops_parent_input=$(dirname -- `$_serverops_path`)
  _serverops_name=$(basename -- `$_serverops_path`)
  _serverops_valid_name `$_serverops_name` ||     _serverops_error invalid_path 'New file name is invalid.'
  _serverops_parent=$(realpath -- `$_serverops_parent_input` 2>/dev/null) ||     _serverops_error parent_not_found 'Remote parent directory could not be resolved.'
  _serverops_allowed `$_serverops_parent` ||     _serverops_error path_outside_roots 'Remote parent is outside allowed roots.'
  _serverops_target=`$_serverops_parent/$_serverops_name`
fi
[ -w `$_serverops_parent` ] ||   _serverops_error permission_denied 'Remote parent directory is not writable.'
_serverops_temp=$(mktemp -- `$_serverops_parent/.serverops.XXXXXX`) ||   _serverops_error temporary_file_failed 'Remote temporary file could not be created.'
trap 'rm -f -- `$_serverops_temp`' EXIT
printf '%s' \
"
    ++ content_arguments encoded_content
    ++ sh " | base64 -d > `$_serverops_temp` ||   _serverops_error transfer_failed 'Remote text transfer failed.'
_serverops_temp_hash=$(sha256sum -- `$_serverops_temp` | awk '{print $1}') ||   _serverops_error hash_failed 'Temporary file hash could not be calculated.'
[ `$_serverops_temp_hash` = '"
    ++ content_hash
    ++ sh "' ] ||   _serverops_error transfer_failed 'Transferred text hash does not match.'
if [ `$_serverops_existing` = true ]; then
  chmod `$_serverops_mode` -- `$_serverops_temp` ||     _serverops_error metadata_failed 'Existing file mode could not be preserved.'
  chgrp `$_serverops_group` -- `$_serverops_temp` ||     _serverops_error metadata_failed 'Existing file group could not be preserved.'
  _serverops_now=$(realpath -- `$_serverops_path` 2>/dev/null) ||     _serverops_error file_conflict 'Remote file changed before replacement.'
  [ `$_serverops_now` = `$_serverops_target` ] ||     _serverops_error file_conflict 'Remote path target changed before replacement.'
  _serverops_now_hash=$(sha256sum -- `$_serverops_target` | awk '{print $1}') ||     _serverops_error file_conflict 'Remote file changed before replacement.'
  [ `$_serverops_now_hash` = `$_serverops_before` ] ||     _serverops_error file_conflict 'Remote file changed before replacement.'
else
  if [ -e `$_serverops_target` ] || [ -L `$_serverops_target` ]; then
    _serverops_error file_conflict 'Remote destination appeared before replacement.'
  fi
fi
sync `$_serverops_temp` 2>/dev/null || true
mv -f -- `$_serverops_temp` `$_serverops_target` ||   _serverops_error replace_failed 'Remote atomic replacement failed.'
trap - EXIT
_serverops_after=$(sha256sum -- `$_serverops_target` | awk '{print $1}') ||   _serverops_error hash_failed 'Replaced file hash could not be calculated.'
[ `$_serverops_after` = '"
    ++ content_hash
    ++ sh "' ] ||   _serverops_error replace_failed 'Replaced file hash does not match.'
_serverops_success
_serverops_row path `$_serverops_target`
_serverops_row sha256 `$_serverops_after`
_serverops_row created `$([ `$_serverops_existing` = false ] && printf true || printf false)`
_serverops_finish
").
Definition mkdir (token path : str) : res FileWireCommand :=
  setup ← new_entry path [];
  wrap token (setup ++
    sh "
mkdir -m 700 -- `$_serverops_target` ||   _serverops_error mkdir_failed 'Remote directory could not be created.'
_serverops_resolved=$(realpath -- `$_serverops_target` 2>/dev/null) ||   _serverops_error mkdir_failed 'Created directory could not be resolved.'
_serverops_allowed `$_serverops_resolved` ||   _serverops_error path_outside_roots 'Created directory is outside allowed roots.'
_serverops_success
_serverops_row path `$_serverops_resolved`
_serverops_finish
").
Definition rename (token source destination : str) : res FileWireCommand :=
  source_setup ← entry_reference source (u "source");
  destination_setup ← new_entry destination (u "destination");
  wrap token (source_setup ++
    sh "
_serverops_is_root `$_serverops_source_resolved` &&   _serverops_error protected_root 'An allowed root cannot be renamed.'
_serverops_owned_tree `$_serverops_source_entry` ||   _serverops_error ownership_unsupported 'Structured edits require paths owned by the SSH user.'
"
    ++ destination_setup ++
    sh "
_serverops_source_now=$(realpath -- `$_serverops_source_entry` 2>/dev/null) ||   _serverops_error file_conflict 'Remote source changed before rename.'
[ `$_serverops_source_now` = `$_serverops_source_resolved` ] ||   _serverops_error file_conflict 'Remote source target changed before rename.'
mv -- `$_serverops_source_entry` `$_serverops_destination_target` ||   _serverops_error rename_failed 'Remote path could not be renamed.'
_serverops_result=$(realpath -- `$_serverops_destination_target` 2>/dev/null) ||   _serverops_error rename_failed 'Renamed path could not be resolved.'
_serverops_success
_serverops_row source `$_serverops_source_resolved`
_serverops_row destination `$_serverops_result`
_serverops_finish
").
Definition remove (token path : str) (recursive : bool) (expected_sha256 : option str) :
    res FileWireCommand :=
  setup ← entry_reference path (u "target");
  let check := match expected_sha256 with
               | None => []
               | Some expected =>
    sh "
[ -f `$_serverops_target_resolved` ] ||   _serverops_error file_conflict 'expected_sha256 requires a regular file.'
_serverops_remove_hash=$(sha256sum -- `$_serverops_target_resolved` | awk '{print $1}') ||   _serverops_error hash_failed 'Remote file hash could not be calculated.'
[ `$_serverops_remove_hash` = '"
    ++ expected
    ++ sh "' ] ||   _serverops_error file_conflict 'Remote file does not match expected_sha256.'
"
               end in
  let removal := if recursive then
    sh "
_serverops_owned_tree `$_serverops_target_entry` ||   _serverops_error ownership_unsupported 'Recursive removal contains a foreign-owned path.'
rm -rf -- `$_serverops_target_entry` ||   _serverops_error remove_failed 'Remote path could not be removed.'
"
    else
    sh "
if [ -d `$_serverops_target_entry` ] && [ ! -L `$_serverops_target_entry` ]; then
  rmdir -- `$_serverops_target_entry` ||     _serverops_error directory_not_empty 'Remote directory is not empty; recursive is required.'
else
  rm -- `$_serverops_target_entry` ||     _serverops_error remove_failed 'Remote path could not be removed.'
fi
" in
  wrap token (setup ++
    sh "
_serverops_is_root `$_serverops_target_resolved` &&   _serverops_error protected_root 'An allowed root cannot be removed.'
"
    ++ check ++
    sh "
_serverops_target_now=$(realpath -- `$_serverops_target_entry` 2>/dev/null) ||   _serverops_error file_conflict 'Remote target changed before removal.'
[ `$_serverops_target_now` = `$_serverops_target_resolved` ] ||   _serverops_error file_conflict 'Remote target changed before removal.'
"
    ++ removal ++
    sh "
_serverops_success
_serverops_row path `$_serverops_target_resolved`
_serverops_finish
").
End shell.

(** ** The operations as data *)
Inductive file_operation :=
  | ListDirectory (path : str) (limit : Z)
  | StatPath (path : str)
  | HashFile (path : str)
  | ReadText (path : str) (byte_limit : Z) (range : option (Z * Z))
  | SearchText (path query : str) (limit : Z)
  | WriteText (path : str) (content : str) (expected : option str)
  | MakeDirectory (path : str)
  | RenamePath (source destination : str)
  | RemovePath (path : str) (recursive : bool) (expected : option str).
Definition build (roots : list str) (token : str) (op : file_operation) : res FileWireCommand :=
  match op with
  | ListDirectory p n => list_directory roots token p n
  | StatPath p => stat roots token p
  | HashFile p => hash roots token p
  | ReadText p n r => read_text roots token p n (fst <$> r) (snd <$> r)
  | SearchText p q n => search_text roots token p q n
  | WriteText p c e => b ← utf8_encode c; write_text roots token p b e
  | MakeDirectory p => mkdir roots token p
  | RenamePath p q => rename roots token p q
  | RemovePath p r e => remove roots token p r e
  end.

(** ** Arguments cannot change the script
    What is left of a script when every base64 character is dropped *)
Definition skeleton (s : str) : str := List.filter (fun c => negb (b64_alphabet c)) s.
Definition inert (s : str) : Prop := forallb b64_alphabet s = true.

(** The arguments as the service passes them on: texts, natural numbers and
    hexadecimal digests *)
Definition digest_ok (o : option str) : Prop := match o with Some h => inert h | None => True end.
Definition arguments_ok (op : file_operation) : Prop :=
  match op with
  | ListDirectory p n => text_ok p ∧ 0 <= n
  | StatPath p | HashFile p | MakeDirectory p => text_ok p
  | ReadText p n r => text_ok p ∧ 0 <= n ∧ match r with Some (a, b) => 0 <= a ∧ 0 <= b | None => True end
  | SearchText p q n => text_ok p ∧ text_ok q ∧ 0 <= n
  | WriteText p c e => text_ok p ∧ text_ok c ∧ digest_ok e
  | RenamePath p q => text_ok p ∧ text_ok q
  | RemovePath p _ e => text_ok p ∧ digest_ok e
  end.
(** What of an operation may show in the script: which one it is, its flags,
    and how many pieces the content is sent in *)
Definition pieces (c : str) : nat := length (chunks 512 (b64_encode (utf8_bytes c))).
Definition shape (op : file_operation) : nat * bool * bool * nat :=
  match op with
  | ListDirectory _ _ => (0, false, false, 0)
  | StatPath _ => (1, false, false, 0)
  | HashFile _ => (2, false, false, 0)
  | ReadText _ _ r => (3, bool_decide (is_Some r), false, 0)
  | SearchText _ _ _ => (4, false, false, 0)
  | WriteText _ c e => (5, false, false, pieces c)
  | MakeDirectory _ => (6, false, false, 0)
  | RenamePath _ _ => (7, false, false, 0)
  | RemovePath _ r e => (8, r, bool_decide (is_Some e), 0)
  end%nat.

Lemma skeleton_app a b : skeleton (a ++ b) = skeleton a ++ skeleton b.
Proof. apply List.filter_app. Qed.
Lemma skeleton_inert s : inert s → skeleton s = [].
Proof.
  unfold skeleton, inert. induction s as [|c s IH]; cbn; [done|]. intros [-> Hs]%andb_true_iff. by apply IH.
Qed.
Lemma skeleton_join sep l : skeleton (join sep l) = join (skeleton sep) (map skeleton l).
Proof.
  induction l as [|x l IH]; [done|]. destruct l as [|y l]; [done|].
  change (join sep (x :: y :: l)) with (x ++ sep ++ join sep (y :: l)). by rewrite !skeleton_app, IH.
Qed.
Lemma encode_argument_inert v e : text_ok v → encode_argument v = Ok e → inert e.
Proof.
  intros Hv H. unfold encode_argument in H. rewrite utf8_encode_ok in H by done. injection H as <-.
  apply b64_encode_alphabet. by apply utf8_bytes_range.
Qed.
Lemma show_int_inert n : 0 <= n → inert (show_int n).
Proof.
  intros Hn. unfold inert, show_int. rewrite (proj2 (Z.ltb_ge _ _) Hn).
  destruct (show_nat_spec n Hn) as (ds & -> & _ & Hd & _). rewrite forallb_forall in *.
  intros c Hc. unfold b64_alphabet, ascii_alnum. by rewrite (Hd c Hc).
Qed.

Lemma chunks_fuel_inert fuel n s : inert s → Forall inert (chunks_fuel fuel n s).
Proof.
  unfold inert. revert s. induction fuel as [|fuel IH]; intros s Hs; [done|]. destruct s as [|c s]; [done|].
  cbn [chunks_fuel]. rewrite <- (take_drop n (c :: s)), forallb_app in Hs. boolean. constructor; [done|by apply IH].
Qed.
Lemma chunks_concat n s : (0 < n)%nat → concat (chunks n s) = s.
Proof.
  intros Hn. unfold chunks. assert (∀ fuel t, (length t ≤ fuel)%nat → concat (chunks_fuel fuel n t) = t) as H.
  { induction fuel as [|fuel IH]; intros [|c t] Hf; try done; [cbn in Hf; lia|]. cbn [chunks_fuel concat].
    rewrite IH; [apply take_drop|]. rewrite length_drop. cbn in *. lia. }
  by apply H.
Qed.
Lemma skeleton_content e : inert e →
  skeleton (content_arguments e) =
  join (skeleton (u " \" ++ nl)) (replicate (length (chunks 512 e)) (skeleton (u "  '") ++ skeleton (u "'"))).
Proof.
  intros He. unfold content_arguments. rewrite skeleton_join. f_equal.
  pose proof (chunks_fuel_inert (length e) 512 e He) as H. fold (chunks 512 e) in H.
  induction H as [|c l Hc Hl IH]; [done|]. cbn [map length replicate]. rewrite !skeleton_app, (skeleton_inert c) by done.
  by rewrite IH.
Qed.

Lemma map_res_length {A B} (f : A → res B) l l' : map_res f l = Ok l' → length l' = length l.
Proof.
  revert l'. induction l as [|a l IH]; intros l'; cbn; [by intros [= <-]|].
  intros H. apply result_bind_Ok in H as (b & _ & H). apply result_bind_Ok in H as (bs & Hbs & H).
  injection H as <-. cbn. by rewrite (IH bs).
Qed.
Lemma skeleton_roots roots l : Forall (fun r => text_ok r) roots → map_res encode_argument roots = Ok l →
  map skeleton l = replicate (length roots) [].
Proof.
  intros Hr. revert l. induction Hr as [|r roots Hr Hrs IH]; intros l; cbn [map_res]; [by intros [= <-]|].
  intros H. apply result_bind_Ok in H as (b & Hb & H). apply result_bind_Ok in H as (bs & Hbs & H).
  injection H as <-. cbn. rewrite (skeleton_inert b) by (by eapply encode_argument_inert). by rewrite (IH bs).
Qed.

(** Two roots lists and two tokens that may differ *)
Section shape.
Variables (roots1 roots2 : list str) (token1 token2 : str).
Hypothesis (Hr1 : Forall (fun r => text_ok r) roots1) (Hr2 : Forall (fun r => text_ok r) roots2).
Hypothesis (Hlen : length roots1 = length roots2) (Ht1 : inert token1) (Ht2 : inert token2).

Ltac skel :=
  repeat rewrite skeleton_app;
  repeat match goal with
         | H : inert ?s |- context [skeleton ?s] => rewrite (skeleton_inert s H)
         end.

Lemma wrap_shape b1 b2 c1 c2 :
  wrap roots1 token1 b1 = Ok c1 → wrap roots2 token2 b2 = Ok c2 → skeleton b1 = skeleton b2 →
  skeleton (command c1) = skeleton (command c2).
Proof.
  unfold wrap. intros H1 H2 Hb. apply result_bind_Ok in H1 as (l1 & Hl1 & H1). apply result_bind_Ok in H2 as (l2 & Hl2 & H2).
  apply Ok_inj in H1, H2. subst c1 c2. cbn [command]. unfold prologue, begin_marker, end_marker. skel.
  rewrite !skeleton_join, (skeleton_roots roots1), (skeleton_roots roots2), Hlen by done. by rewrite Hb.
Qed.

(** Take the pieces of a built command out of the hypotheses. *)
Ltac pieces :=
  repeat match goal with
         | H : _ ≫= _ = Ok _ |- _ => apply result_bind_Ok in H as (? & ? & ?)
         | H : encode_argument ?v = Ok ?e, T : forallb code_point ?v = true |- _ =>
             apply (encode_argument_inert v e T) in H
         | H : 0 <= ?n |- context [show_int ?n] =>
             assert (inert (show_int n)) by (by apply show_int_inert); clear H
         end.

Lemma existing_shape p1 p2 e1 e2 : text_ok p1 → text_ok p2 →
  existing p1 = Ok e1 → existing p2 = Ok e2 → skeleton e1 = skeleton e2.
Proof.
  intros T1 T2 H1 H2. unfold existing in *. pieces.
  repeat match goal with H : Ok _ = Ok _ |- _ => apply Ok_inj in H; subst end. skel. reflexivity.
Qed.
Lemma new_entry_shape p1 p2 pre e1 e2 : text_ok p1 → text_ok p2 →
  new_entry p1 pre = Ok e1 → new_entry p2 pre = Ok e2 → skeleton e1 = skeleton e2.
Proof.
  intros T1 T2 H1 H2. unfold new_entry in *. pieces.
  repeat match goal with H : Ok _ = Ok _ |- _ => apply Ok_inj in H; subst end. skel. reflexivity.
Qed.
Lemma entry_reference_shape p1 p2 pre e1 e2 : text_ok p1 → text_ok p2 →
  entry_reference p1 pre = Ok e1 → entry_reference p2 pre = Ok e2 → skeleton e1 = skeleton e2.
Proof.
  intros T1 T2 H1 H2. unfold entry_reference in *. pieces.
  repeat match goal with H : Ok _ = Ok _ |- _ => apply Ok_inj in H; subst end. skel. reflexivity.
Qed.

(** The two set-ups agree; then compare the bodies piece by piece. *)
Ltac setups :=
  repeat match goal with
         | H1 : existing ?p = Ok ?a, H2 : existing ?q = Ok ?b |- _ =>
             pose proof (existing_shape p q a b ltac:(assumption) ltac:(assumption) H1 H2); clear H1 H2
         | H1 : new_entry ?p ?k = Ok ?a, H2 : new_entry ?q ?k = Ok ?b |- _ =>
             pose proof (new_entry_shape p q k a b ltac:(assumption) ltac:(assumption) H1 H2); clear H1 H2
         | H1 : entry_reference ?p ?k = Ok ?a, H2 : entry_reference ?q ?k = Ok ?b |- _ =>
             pose proof (entry_reference_shape p q k a b ltac:(assumption) ltac:(assumption) H1 H2); clear H1 H2
         end.
Ltac compare_bodies :=
  setups; skel;
  repeat match goal with E : skeleton ?a = skeleton ?b |- context [skeleton ?a] => rewrite E; clear E end;
  reflexivity.

Lemma written_bytes c : text_ok c → utf8_encode c = Ok (utf8_bytes c) ∧ utf8_decode (utf8_bytes c) = UText c.
Proof. intros H. split; [by apply utf8_encode_ok|by apply utf8_decode_encode]. Qed.

Lemma encode_argument_eq v : text_ok v → encode_argument v = Ok (b64_encode (utf8_bytes v)).
Proof. intros H. unfold encode_argument. by rewrite utf8_encode_ok. Qed.
Lemma hex_fixed_inert w n : inert (hex_fixed w n).
Proof.
  unfold inert. revert n. induction w as [|w IH]; intros n; [done|]. cbn [hex_fixed].
  rewrite forallb_app, IH. cbn. rewrite andb_true_r.
  apply (range_check (fun d => b64_alphabet (hex_digit d)) 16 (n mod 16)); [reflexivity|].
  pose proof (Z.mod_pos_bound n 16 ltac:(lia)). lia.
Qed.
Lemma sha256_inert b : inert (sha256_hex b).
Proof.
  unfold sha256_hex, inert. generalize (compress_all (length (words_of (sha_pad b))) initial_hash (words_of (sha_pad b))).
  intros l. induction l as [|x l IH]; [done|]. cbn [map concat]. rewrite forallb_app, IH.
  by rewrite (hex_fixed_inert 8 x).
Qed.

Lemma write_shape p1 p2 t1 t2 e1 e2 c1 c2 :
  text_ok p1 → text_ok p2 → text_ok t1 → text_ok t2 → digest_ok e1 → digest_ok e2 → pieces t1 = pieces t2 →
  build roots1 token1 (WriteText p1 t1 e1) = Ok c1 → build roots2 token2 (WriteText p2 t2 e2) = Ok c2 →
  skeleton (command c1) = skeleton (command c2).
Proof.
  intros P1 P2 T1 T2 D1 D2 Hp H1 H2. cbn [build] in *.
  destruct (written_bytes t1 T1) as [E1 F1], (written_bytes t2 T2) as [E2 F2].
  rewrite E1 in H1. rewrite E2 in H2. cbn [mbind result_mbind result_bind] in H1, H2.
  unfold write_text in *. rewrite F1, !encode_argument_eq in H1 by done. rewrite F2, !encode_argument_eq in H2 by done.
  cbn [mbind result_mbind result_bind] in H1, H2.
  assert (inert (b64_encode (utf8_bytes t1)) ∧ inert (b64_encode (utf8_bytes t2)) ∧
          inert (b64_encode (utf8_bytes p1)) ∧ inert (b64_encode (utf8_bytes p2))) as (B1 & B2 & B3 & B4)
    by (split_and!; apply b64_encode_alphabet; by apply utf8_bytes_range).
  assert (inert (default [] e1) ∧ inert (default [] e2)) as [G1 G2] by (destruct e1, e2; done).
  pose proof (sha256_inert (utf8_bytes t1)) as S1. pose proof (sha256_inert (utf8_bytes t2)) as S2.
  eapply wrap_shape; [exact H1|exact H2|]. skel. rewrite !skeleton_content by done.
  unfold pieces in Hp. rewrite Hp. reflexivity.
Qed.

Lemma build_shape op1 op2 c1 c2 :
  arguments_ok op1 → arguments_ok op2 → shape op1 = shape op2 →
  build roots1 token1 op1 = Ok c1 → build roots2 token2 op2 = Ok c2 →
  skeleton (command c1) = skeleton (command c2).
Proof.
  intros A1 A2 Hs H1 H2. destruct op1, op2; try discriminate Hs; cbn [arguments_ok] in *;
    repeat match goal with H : _ ∧ _ |- _ => destruct H end.
  6: { injection Hs as Hs. by eapply write_shape; [..|exact H1|exact H2]. }
  all: cbn [build] in *.
  - unfold list_directory in *. pieces. eapply wrap_shape; [done..|]. pieces. compare_bodies.
  - unfold stat in *. pieces. eapply wrap_shape; [done..|]. compare_bodies.
  - unfold hash in *. pieces. eapply wrap_shape; [done..|]. compare_bodies.
  - destruct range as [[a b]|], range0 as [[a' b']|]; try discriminate Hs; unfold read_text in *; cbn [fmap option_fmap option_map fst snd assert_some] in *;
      repeat match goal with H : _ ∧ _ |- _ => destruct H end; pieces;
      repeat match goal with H : Ok _ = Ok _ |- _ => apply Ok_inj in H; subst end;
      (eapply wrap_shape; [done..|]); pieces; compare_bodies.
  - unfold search_text in *. pieces. eapply wrap_shape; [done..|]. pieces. compare_bodies.
  - unfold mkdir in *. pieces. eapply wrap_shape; [done..|]. compare_bodies.
  - unfold rename in *. pieces. eapply wrap_shape; [done..|]. compare_bodies.
  - injection Hs as -> He. unfold remove in *. pieces. destruct expected, expected0; try discriminate He;
      destruct recursive0; cbn [digest_ok] in *; (eapply wrap_shape; [done..|]); compare_bodies.
Qed.
End shape.

(** C13: Whatever the arguments of an operation, the roots and the
    token are, the script that is sent differs from every other script of the
    same operation, flags and number of content pieces only in characters of
    the base64 alphabet: no path, query, content, digest or limit can add a
    quote, a separator or any other character the shell gives a meaning to. *)
Theorem arguments_cannot_change_script roots1 roots2 token1 token2 op1 op2 c1 c2 :
  Forall (fun r => text_ok r) roots1 → Forall (fun r => text_ok r) roots2 → length roots1 = length roots2 →
  inert token1 → inert token2 → arguments_ok op1 → arguments_ok op2 → shape op1 = shape op2 →
  build roots1 token1 op1 = Ok c1 → build roots2 token2 op2 = Ok c2 →
  skeleton (command c1) = skeleton (command c2).
Proof.
  intros R1 R2 L K1 K2 A1 A2 S B1 B2.
  exact (build_shape roots1 roots2 token1 token2 R1 R2 L K1 K2 op1 op2 c1 c2 A1 A2 S B1 B2).
Qed.

(** A path that tries to leave its quotes *)
Definition hostile : str := u "/srv/$(reboot)'; rm -rf / #" ++ nl ++ dq.
Lemma arguments_cannot_change_script_witness :
  let op p := WriteText p (u "text") (Some (u "00ff")) in
  ∃ c1 c2, build [u "/srv"] (u "aa") (op (u "/srv/a")) = Ok c1 ∧ build [u "/srv"] (u "bb") (op hostile) = Ok c2 ∧
           skeleton (command c1) = skeleton (command c2).
Proof.
  intros op.
  destruct (build [u "/srv"] (u "aa") (op (u "/srv/a"))) as [c1|] eqn:E1; [|vm_compute in E1; discriminate].
  destruct (build [u "/srv"] (u "bb") (op hostile)) as [c2|] eqn:E2; [|vm_compute in E2; discriminate].
  exists c1, c2. split; [reflexivity|]. split; [reflexivity|].
  apply (arguments_cannot_change_script [u "/srv"] [u "/srv"] (u "aa") (u "bb") (op (u "/srv/a")) (op hostile));
    try exact E1; try exact E2; try reflexivity; repeat constructor.
Defined.
