(* ===== verification/FileService.v ===== *)
(** * FileService: structured file access (files/service.py)

    The service validates a request, builds the script of the operation, has
    it run by the runner it was given and interprets the response.  The runner
    is an argument, so that the worker can pass its session and the theorems
    can pass a scripted one; they say which commands a request can send. *)
From S2P Require Import Prelude Errors Text TextFacts Regex Value Prog ConfigModel Patch FileWire FileShell.

Definition MAX_REMOTE_PATH_BYTES : Z := 4096.
Definition MAX_WRITE_TEXT_BYTES : Z := 131072.
Definition MAX_QUERY_BYTES : Z := 2048.
Definition SHA256 : re := RSeqs [RBol; RRepeat 64 (RChar (cls [(48, 57); (97, 102)])); REol].

(** [f"{name} exceeds the {maximum}-byte limit"] *)
Definition exceeds (name : str) (maximum : Z) : exn :=
  value_error (name ++ u " exceeds the " ++ show_int maximum ++ u "-byte limit").

Section service.
Context {U : UnicodeDB}.
Variable profile : ServerProfile.
(** [secrets.token_hex(16)], and the [CommandRunner] of the service *)
Context {S : Type} (new_wire_token : M S str) (command_runner : str → Z → M S (dict value)).

(** ** Validation *)
Definition require_read : res unit :=
  raise_if (negb (allow_file_read profile))
    (remote_file_error (u "file_read_disabled") (u "structured file reads are disabled")).
Definition require_write : res unit :=
  raise_if (negb (allow_file_write profile))
    (remote_file_error (u "file_write_disabled") (u "structured file writes are disabled")).

Definition payload_path (payload : dict value) (name : str) : res str :=
  match vget payload name with
  | VStr v =>
      raise_if (str_eqb v [] || mem_Z 0 v) (value_error (name ++ u " must be non-empty text without NUL"));;
      encoded ← utf8_encode v;
      raise_if (MAX_REMOTE_PATH_BYTES <? len encoded)
        (value_error (name ++ u " exceeds the 4096-byte limit"));;
      raise_if (has_control v) (value_error (name ++ u " contains a control character"));;
      Ok v
  | _ => Err (value_error (name ++ u " must be non-empty text without NUL"))
  end.
Definition payload_content (payload : dict value) (name : str) (maximum : Z) : res str :=
  match vget payload name with
  | VStr v =>
      raise_if (mem_Z 0 v) (value_error (name ++ u " must be text without NUL"));;
      encoded ← utf8_encode v;
      raise_if (maximum <? len encoded) (exceeds name maximum);;
      Ok v
  | _ => Err (value_error (name ++ u " must be text without NUL"))
  end.
Definition payload_query (payload : dict value) : res str :=
  query ← payload_content payload (u "query") MAX_QUERY_BYTES;
  raise_if (str_eqb query [] || has_control query) (value_error (u "query must be non-empty single-line text"));;
  Ok query.
(** [value.lower()] *)
Definition lower (s : str) : str := concat (map uc_lower s).
Definition expected_hash (payload : dict value) : res (option str) :=
  match vget payload (u "expected_sha256") with
  | VNone => Ok None
  | VStr v => if fullmatch SHA256 (lower v) then Ok (Some (lower v))
              else Err (value_error (u "expected_sha256 must be a 64-character hexadecimal digest"))
  | _ => Err (value_error (u "expected_sha256 must be a 64-character hexadecimal digest"))
  end.
Definition line_range (payload : dict value) : res (option (Z * Z)) :=
  match vget payload (u "start_line"), vget payload (u "end_line") with
  | VNone, VNone => Ok None
  | VInt first, last_value =>
      raise_if (first <? 1) (value_error (u "start_line must be a positive integer"));;
      match last_value with
      | VInt last =>
          raise_if (last <? first) (value_error (u "end_line must be an integer at least start_line"));;
          raise_if (100000 <? last - first) (value_error (u "line range is too large"));;
          Ok (Some (first, last))
      | _ => Err (value_error (u "end_line must be an integer at least start_line"))
      end
  | _, _ => Err (value_error (u "start_line must be a positive integer"))
  end.
Definition payload_integer (payload : dict value) (name : str) (default minimum maximum : Z) : res Z :=
  match get_or (VInt default) payload name with
  | VInt n => raise_if (negb ((minimum <=? n) && (n <=? maximum)))
                (value_error (name ++ u " is outside the supported range"));;
              Ok n
  | _ => Err (value_error (name ++ u " must be an integer"))
  end.
Definition payload_boolean (payload : dict value) (name : str) (default : bool) : res bool :=
  match get_or (VBool default) payload name with
  | VBool b => Ok b
  | _ => Err (value_error (name ++ u " must be true or false"))
  end.
Definition forbid (o : option str) (field_name action : str) : res unit :=
  raise_if (is_some o) (value_error (field_name ++ u " is not valid for " ++ action)).

Definition max_read_bytes : Z :=
  let response_capacity := Z.max 1 ((max_output_bytes profile - 2048) * 3 / 4) in
  Z.min 1048576 response_capacity.

(** ** Responses *)
Definition wire_bool (v : str) : res bool :=
  if str_eqb v (u "true") then Ok true
  else if str_eqb v (u "false") then Ok false
  else Err (file_protocol_error (u "remote boolean field is invalid")).
Definition nonnegative_integer (v name : str) : res Z :=
  match parse_int v with
  | Some n => raise_if (n <? 0) (file_protocol_error (u "remote " ++ name ++ u " is invalid"));; Ok n
  | None => Err (file_protocol_error (u "remote " ++ name ++ u " is invalid"))
  end.
Definition positive_integer (v name : str) : res Z :=
  n ← nonnegative_integer v name;
  raise_if (n <? 1) (file_protocol_error (u "remote " ++ name ++ u " is invalid"));;
  Ok n.
Definition decode_remote_text (content : bytes) (truncated : bool) : res str :=
  raise_if (mem_Z 0 content || existsb (fun b => (b <? 32) && negb (mem_Z b [9; 10; 13])) content)
    (remote_file_error (u "binary_file") (u "remote file is not supported UTF-8 text"));;
  match utf8_decode content with
  | UText s => Ok s
  | UBad start unexpected_end =>
      if truncated && unexpected_end then
        match utf8_decode (take start content) with
        | UText s => Ok s
        | UBad _ _ => Err (Builtin UnicodeDecodeError [])
        end
      else Err (remote_file_error (u "invalid_utf8") (u "remote file is not valid UTF-8 text"))
  end.
Definition response_digest (r : FileWireResponse) : res str :=
  digest ← one r (u "sha256");
  raise_if (negb (fullmatch SHA256 digest)) (file_protocol_error (u "remote SHA-256 is invalid"));;
  Ok digest.

Definition list_entry (row : list str) : res value :=
  match row with
  | [name; kind; size; modified; mode] =>
      n ← nonnegative_integer size (u "size");
      m ← nonnegative_integer modified (u "modified_epoch");
      Ok (VDict [(u "name", VStr name); (u "type", VStr kind); (u "size", VInt n);
                 (u "modified_epoch", VInt m); (u "mode", VStr mode)])
  | _ => Err (value_error (u "too many values to unpack"))
  end.
Definition list_result (r : FileWireResponse) : res (dict value) :=
  sent ← many r (u "entry") 5;
  entries ← map_res list_entry sent;
  path ← one r (u "path");
  flag ← one r (u "truncated");
  truncated ← wire_bool flag;
  Ok [(u "status", VStr (u "completed")); (u "path", VStr path); (u "entries", VList entries);
      (u "truncated", VBool truncated)].
Definition stat_result (r : FileWireResponse) : res (dict value) :=
  path ← one r (u "path");
  kind ← one r (u "type");
  size ← one r (u "size");
  n ← nonnegative_integer size (u "size");
  modified ← one r (u "modified_epoch");
  m ← nonnegative_integer modified (u "modified_epoch");
  mode ← one r (u "mode");
  Ok [(u "status", VStr (u "completed")); (u "path", VStr path); (u "type", VStr kind); (u "size", VInt n);
      (u "modified_epoch", VInt m); (u "mode", VStr mode)].
Definition hash_result (r : FileWireResponse) : res (dict value) :=
  digest ← response_digest r;
  path ← one r (u "path");
  Ok [(u "status", VStr (u "completed")); (u "path", VStr path); (u "sha256", VStr digest)].
Definition read_text_result (r : FileWireResponse) (range : option (Z * Z)) : res (dict value) :=
  digest ← response_digest r;
  flag ← one r (u "truncated");
  truncated ← wire_bool flag;
  raw ← one_bytes r (u "content");
  text ← decode_remote_text raw truncated;
  path ← one r (u "path");
  selected ← one r (u "selected_bytes");
  n ← nonnegative_integer selected (u "selected_bytes");
  Ok ([(u "status", VStr (u "completed")); (u "path", VStr path); (u "sha256", VStr digest);
       (u "content", VStr text); (u "bytes_returned", VInt (len raw)); (u "selected_bytes", VInt n);
       (u "truncated", VBool truncated)]
      ++ match range with
         | Some (first, last) => [(u "start_line", VInt first); (u "end_line", VInt last)]
         | None => []
         end).
Definition search_match (row : list str) : res value :=
  match row with
  | [path; line; text] =>
      n ← positive_integer line (u "line");
      Ok (VDict [(u "path", VStr path); (u "line", VInt n); (u "text", VStr text)])
  | _ => Err (value_error (u "too many values to unpack"))
  end.
Definition search_result (r : FileWireResponse) : res (dict value) :=
  sent ← many r (u "match") 3;
  matches ← map_res search_match sent;
  path ← one r (u "path");
  flag ← one r (u "truncated");
  truncated ← wire_bool flag;
  Ok [(u "status", VStr (u "completed")); (u "path", VStr path); (u "matches", VList matches);
      (u "truncated", VBool truncated)].
Definition write_result (r : FileWireResponse) : res (dict value) :=
  digest ← response_digest r;
  flag ← one r (u "created");
  created ← wire_bool flag;
  path ← one r (u "path");
  Ok [(u "status", VStr (if created : bool then u "created" else u "updated")); (u "path", VStr path);
      (u "sha256", VStr digest)].

(** ** Running one operation *)
(** What the result of a command says about the response *)
Definition command_output (result : dict value) : res str :=
  if eq_str (vget result (u "status")) (u "outcome_unknown")
  then Err (remote_file_error (u "file_outcome_unknown")
              (u "connection ended before the remote file operation could be verified"))
  else if negb (eq_str (vget result (u "status")) (u "completed")) || negb (eq_int (vget result (u "exit_code")) 0)
  then Err (remote_file_error (u "file_command_failed") (u "remote file helper did not complete"))
  else match vget result (u "truncated") with
       | VBool true => Err (file_protocol_error (u "remote file helper response was truncated"))
       | _ => match vget result (u "output") with
              | VStr s => Ok s
              | _ => Err (file_protocol_error (u "remote file helper returned no text"))
              end
       end.
Definition run (op : file_operation) : M S FileWireResponse :=
  wire_token ← new_wire_token;
  c ← lift (build (allowed_roots profile) wire_token op);
  result ← command_runner (command c) (command_timeout_seconds profile);
  output ← lift (command_output result);
  lift (parse_file_response output (token c)).
Definition run_for (op : file_operation) (interpret : FileWireResponse → res (dict value)) :
    M S (dict value) :=
  r ← run op; lift (interpret r).

(** ** Requests *)
Definition read (action : str) (payload : dict value) : M S (dict value) :=
  lift require_read;;
  path ← lift (payload_path payload (u "path"));
  if str_eqb action (u "list") then
    limit ← lift (payload_integer payload (u "max_results") 200 1 1000);
    run_for (ListDirectory path limit) list_result
  else if str_eqb action (u "stat") then run_for (StatPath path) stat_result
  else if str_eqb action (u "hash") then run_for (HashFile path) hash_result
  else if str_eqb action (u "read_text") then
    byte_limit ← lift (payload_integer payload (u "byte_limit") (Z.min 65536 max_read_bytes) 1 max_read_bytes);
    range ← lift (line_range payload);
    run_for (ReadText path byte_limit range) (fun r => read_text_result r range)
  else if str_eqb action (u "search_text") then
    query ← lift (payload_query payload);
    limit ← lift (payload_integer payload (u "max_results") 100 1 500);
    run_for (SearchText path query limit) search_result
  else raise (value_error (u "unsupported server_files action: " ++ action)).

Definition text_of (v : value) : str := match v with VStr s => s | _ => [] end.
Definition apply_patch (path patch : str) (expected : option str) : M S (dict value) :=
  let limit := Z.min (MAX_WRITE_TEXT_BYTES + 1) max_read_bytes in
  current ← run_for (ReadText path limit None) (fun r => read_text_result r None);
  lift (raise_if (truthy (vget current (u "truncated")))
          (remote_file_error (u "file_too_large") (u "remote text exceeds the safe apply_patch size limit")));;
  let current_hash := text_of (vget current (u "sha256")) in
  lift (raise_if (match expected with Some h => negb (str_eqb h current_hash) | None => false end)
          (file_conflict (u "remote file does not match expected_sha256")));;
  updated ← lift (apply_unified_patch (text_of (vget current (u "content"))) patch);
  content ← lift (utf8_encode updated);
  lift (raise_if (MAX_WRITE_TEXT_BYTES <? len content)
          (value_error (u "patched text exceeds the 131072-byte write limit")));;
  run_for (WriteText path updated (Some current_hash)) write_result.

Definition edit (action : str) (payload : dict value) : M S (dict value) :=
  lift require_write;;
  path ← lift (payload_path payload (u "path"));
  expected ← lift (expected_hash payload);
  if str_eqb action (u "write_text") then
    content ← lift (payload_content payload (u "content") MAX_WRITE_TEXT_BYTES);
    run_for (WriteText path content expected) write_result
  else if str_eqb action (u "apply_patch") then
    patch ← lift (payload_content payload (u "patch") MAX_PATCH_BYTES);
    apply_patch path patch expected
  else if str_eqb action (u "mkdir") then
    lift (forbid expected (u "expected_sha256") action);;
    run_for (MakeDirectory path)
      (fun r => p ← one r (u "path"); Ok [(u "status", VStr (u "created")); (u "path", VStr p)])
  else if str_eqb action (u "rename") then
    lift (forbid expected (u "expected_sha256") action);;
    destination ← lift (payload_path payload (u "destination_path"));
    run_for (RenamePath path destination)
      (fun r => s ← one r (u "source"); d ← one r (u "destination");
                Ok [(u "status", VStr (u "renamed")); (u "source", VStr s); (u "destination", VStr d)])
  else if str_eqb action (u "remove") then
    recursive ← lift (payload_boolean payload (u "recursive") false);
    run_for (RemovePath path recursive expected)
      (fun r => p ← one r (u "path"); Ok [(u "status", VStr (u "removed")); (u "path", VStr p)])
  else raise (value_error (u "unsupported server_file_edit action: " ++ action)).
End service.

(** ** What a request makes the session run *)
Definition op_path (op : file_operation) : str :=
  match op with
  | ListDirectory p _ | StatPath p | HashFile p | ReadText p _ _ | SearchText p _ _ | WriteText p _ _
  | MakeDirectory p | RenamePath p _ | RemovePath p _ _ => p
  end.
Definition reads_only (op : file_operation) : bool :=
  match op with
  | ListDirectory _ _ | StatPath _ | HashFile _ | ReadText _ _ _ | SearchText _ _ _ => true
  | _ => false
  end.
(** [cmd] is the script of an operation [ok] admits, under the profile's roots *)
Definition script_of (profile : ServerProfile) (ok : file_operation → Prop) (cmd : str) (timeout : Z) : Prop :=
  ∃ op hex built, ok op ∧ build (allowed_roots profile) hex op = Ok built ∧
                  cmd = command built ∧ timeout = command_timeout_seconds profile.
(** [r] is what an answer of the session means as a response. *)
Definition answered {U : UnicodeDB} (Answer : dict value → Prop) (r : FileWireResponse) : Prop :=
  ∃ result output key, Answer result ∧ command_output result = Ok output ∧
                       parse_file_response output key = Ok r.

(** The write a patch leads to: the text the patch makes of the content the
    session reported, on condition that the file still has the reported hash. *)
Definition patched_write {U : UnicodeDB} (Answer : dict value → Prop) (path patch : str)
    (expected : option str) (op : file_operation) : Prop :=
  ∃ response current updated hash,
    answered Answer response ∧ read_text_result response None = Ok current ∧
    vget current (u "truncated") = VBool false ∧
    hash = text_of (vget current (u "sha256")) ∧ fullmatch SHA256 hash = true ∧
    (expected = None ∨ expected = Some hash) ∧
    apply_unified_patch (text_of (vget current (u "content"))) patch = Ok updated ∧
    len (utf8_bytes updated) <= MAX_WRITE_TEXT_BYTES ∧
    op = WriteText path updated (Some hash).

(** What a request may run *)
Definition read_admits {U : UnicodeDB} (profile : ServerProfile) (payload : dict value) (op : file_operation) : Prop :=
  allow_file_read profile = true ∧ reads_only op = true ∧ payload_path payload (u "path") = Ok (op_path op).
Definition edit_admits {U : UnicodeDB} (profile : ServerProfile) (Answer : dict value → Prop) (action : str)
    (payload : dict value) (op : file_operation) : Prop :=
  allow_file_write profile = true ∧ payload_path payload (u "path") = Ok (op_path op) ∧
  if str_eqb action (u "apply_patch") then
    reads_only op = true ∨
    ∃ patch expected,
      payload_content payload (u "patch") MAX_PATCH_BYTES = Ok patch ∧ expected_hash payload = Ok expected ∧
      patched_write Answer (op_path op) patch expected op
  else reads_only op = false.

(** Over any runner: [P] is kept and the answers satisfy [Answer] as long as
    only admitted scripts run. *)
Section calls.
Context {U : UnicodeDB} (profile : ServerProfile).
Context {S : Type} (new_wire_token : M S str) (command_runner : str → Z → M S (dict value)).
Context (P : S → Prop) (Answer : dict value → Prop) (ok : file_operation → Prop).
Hypothesis token_spec : spec P new_wire_token anything.
Hypothesis runner_spec : ∀ cmd t, script_of profile ok cmd t → spec P (command_runner cmd t) Answer.
Abbreviation run_for' := (run_for profile new_wire_token command_runner).

Lemma spec_run_for op f : ok op → spec P (run_for' op f) (fun v => ∃ r, answered Answer r ∧ f r = Ok v).
Proof.
  intros Hok. unfold run_for. eapply (spec_bind _ _ (answered Answer)).
  - unfold run. eapply spec_bind; [apply token_spec|]. intros hex _. spec_step.
    eapply spec_bind; [apply runner_spec; exists op, hex, a; auto|]. intros result Hr. spec_step.
    eapply spec_conseq; [apply spec_lift|]. cbv beta. intros r Hp. exists result, a0, (token a). auto.
  - intros r Hr. eapply spec_conseq; [apply spec_lift|]. cbv beta. eauto.
Qed.
Lemma spec_op op f : ok op → spec P (run_for' op f) anything.
Proof. intros H. by eapply spec_anything, spec_run_for. Qed.
End calls.
Ltac spec_all := repeat spec_step.

Lemma response_digest_sha {U : UnicodeDB} r d : response_digest r = Ok d → fullmatch SHA256 d = true.
Proof.
  unfold response_digest. intros H. inv_ok H. injection H as <-. by destruct (fullmatch SHA256 a).
Qed.
Lemma read_text_fields {U : UnicodeDB} r v :
  read_text_result r None = Ok v →
  (∃ b, vget v (u "truncated") = VBool b) ∧ fullmatch SHA256 (text_of (vget v (u "sha256"))) = true.
Proof.
  intros H. unfold read_text_result in H. inv_ok H. apply Ok_inj in H as <-. split; [by eexists|].
  by eapply response_digest_sha.
Qed.

Section requests.
Context {U : UnicodeDB} (profile : ServerProfile).
Context {S : Type} (new_wire_token : M S str) (command_runner : str → Z → M S (dict value)).
Context (P : S → Prop) (Answer : dict value → Prop).
Hypothesis token_spec : spec P new_wire_token anything.

Lemma spec_read action payload :
  (∀ cmd t, script_of profile (read_admits profile payload) cmd t → spec P (command_runner cmd t) Answer) →
  spec P (read profile new_wire_token command_runner action payload) anything.
Proof.
  intros Hrun. unfold read, require_read. spec_step. apply negb_false_iff in H. spec_all; eapply spec_op; eauto; done.
Qed.

Lemma spec_apply_patch ok path patch expected :
  (∀ cmd t, script_of profile ok cmd t → spec P (command_runner cmd t) Answer) →
  (∀ op, op_path op = path → reads_only op = true ∨ patched_write Answer path patch expected op → ok op) →
  spec P (apply_patch profile new_wire_token command_runner path patch expected) anything.
Proof.
  intros Hrun Hok. unfold apply_patch.
  eapply spec_bind; [eapply spec_run_for; [done..|by apply Hok; [|left]]|].
  cbv beta. intros current (r & Hr & Hc). pose proof (read_text_fields _ _ Hc) as [[b Hb] Hs].
  spec_step. rewrite Hb in H. cbn in H. subst b.
  spec_step. spec_step. spec_step. spec_step. apply Z.ltb_ge in H2.
  eapply spec_op; [done..|]. apply Hok; [done|]. right.
  exists r, current, a, (text_of (vget current (u "sha256"))). unfold utf8_encode in *.
  destruct (existsb surrogate a); [discriminate|]. apply Ok_inj in H1 as <-.
  repeat (split; [done|]). split; [|done].
  destruct expected as [h|]; [right|by left]. apply negb_false_iff in H. unfold str_eqb in H.
  boolean. congruence.
Qed.

Lemma spec_edit action payload :
  (∀ cmd t, script_of profile (edit_admits profile Answer action payload) cmd t →
            spec P (command_runner cmd t) Answer) →
  spec P (edit profile new_wire_token command_runner action payload) anything.
Proof.
  intros Hrun. unfold edit, require_write. spec_step. apply negb_false_iff in H. spec_step. spec_step.
  unfold edit_admits in Hrun. destruct (str_eqb action (u "apply_patch")) eqn:Ea.
  - apply bool_decide_eq_true in Ea as ->.
    change (str_eqb (u "apply_patch") (u "write_text")) with false. cbv iota. spec_step.
    eapply spec_apply_patch; [exact Hrun|]. intros op <- [Hop|Hop]; repeat (split; [done|]); [by left|right].
    by exists a1, a0.
  - spec_all; eapply spec_op; eauto; done.
Qed.
End requests.

(** ** A scripted session *)
Inductive file_call := NewToken | RunCommand (command : str) (timeout : Z).
Inductive file_reply := TokenReply (hex : str) | ResultReply (result : dict value).
Abbreviation file_io := (io unit file_call file_reply).
Definition scripted_token : M file_io str :=
  r ← ask NewToken; match r with TokenReply t => mret t | _ => hang end.
Definition scripted_runner (command : str) (timeout : Z) : M file_io (dict value) :=
  r ← ask (RunCommand command timeout); match r with ResultReply d => mret d | _ => hang end.
(** The calls that run admitted scripts only *)
Definition only_runs (profile : ServerProfile) (ok : file_operation → Prop) (c : file_call) : Prop :=
  match c with NewToken => True | RunCommand cmd t => script_of profile ok cmd t end.
Definition gave (s : file_io) (result : dict value) : Prop := Ok (ResultReply result) ∈ script s.

Lemma spec_scripted_token tr scr profile ok :
  spec (calls_in tr scr (only_runs profile ok)) scripted_token anything.
Proof.
  eapply spec_bind; [by apply spec_ask|]. intros [t|d] _; [by apply spec_ret | apply spec_hang].
Qed.
Lemma spec_scripted_runner tr scr profile ok cmd t :
  script_of profile ok cmd t →
  spec (calls_in tr scr (only_runs profile ok)) (scripted_runner cmd t) (fun d => Ok (ResultReply d) ∈ scr).
Proof.
  intros H. eapply spec_bind; [by apply spec_ask|]. intros [t'|d] Hd; [apply spec_hang | by apply spec_ret].
Qed.

(** Whatever the session answers, a read request makes it run
    only scripts of read operations on the path of the payload, under the
    profile's allowed roots and command time limit, and only when the profile
    allows file reads. *)
Theorem reads_are_authorised {U : UnicodeDB} profile action payload s :
  ∃ calls, trace (read profile scripted_token scripted_runner action payload s).2 = trace s ++ calls ∧
           Forall (only_runs profile (read_admits profile payload)) calls.
Proof.
  destruct (spec_calls (only_runs profile (read_admits profile payload))
              (read profile scripted_token scripted_runner action payload) anything s) as (new & H1 & H2 & _);
    [|by exists new].
  eapply spec_read; [apply spec_scripted_token|]. intros. by apply spec_scripted_runner.
Qed.

(** C9: whatever the session answers, an edit request makes it run
    only scripts on the path of the payload and only when the profile allows
    file writes; and apply_patch writes nothing but the patch's result on the
    content the session itself reported, within the write limit, under the
    reported digest, and only when the report was complete and matched the
    digest the request expected. *)
Theorem edits_are_authorised {U : UnicodeDB} profile action payload s :
  ∃ calls, trace (edit profile scripted_token scripted_runner action payload s).2 = trace s ++ calls ∧
           Forall (only_runs profile (edit_admits profile (gave s) action payload)) calls.
Proof.
  destruct (spec_calls (only_runs profile (edit_admits profile (gave s) action payload))
              (edit profile scripted_token scripted_runner action payload) anything s) as (new & H1 & H2 & _);
    [|by exists new].
  eapply spec_edit; [apply spec_scripted_token|]. intros. by apply spec_scripted_runner.
Qed.

(** ** A patch against a scripted session *)
Definition reply_text (token : str) (sent : list (str * list bytes)) : res file_reply :=
  Ok (ResultReply [(u "status", VStr (u "completed")); (u "exit_code", VInt 0); (u "truncated", VBool false);
                   (u "output", VStr (join nl (response_text token sent)))]).
Definition zero_digest : str := concat (replicate 32 (u "0a")).
Definition patch_script : list (res file_reply) :=
  [Ok (TokenReply (u "aa"));
   reply_text (u "aa") [(u "status", [u "ok"]); (u "path", [u "/srv/a"]); (u "sha256", [zero_digest]);
                        (u "content", [u "one" ++ nl]); (u "selected_bytes", [u "4"]); (u "truncated", [u "false"])];
   Ok (TokenReply (u "bb"));
   reply_text (u "bb") [(u "status", [u "ok"]); (u "path", [u "/srv/a"]); (u "sha256", [zero_digest]);
                        (u "created", [u "false"])]].
Definition patch_payload (expected : value) : dict value :=
  [(u "path", VStr (u "/srv/a")); (u "expected_sha256", expected);
   (u "patch", VStr (u "@@ -1 +1 @@" ++ nl ++ u "-one" ++ nl ++ u "+two" ++ nl))].

(** The patch is written when the digest matches, and the file is only read
    when it does not. *)
Example patch_is_written :
  let (r, s) := edit (U := ascii_db) sample_profile scripted_token scripted_runner (u "apply_patch") (patch_payload (VStr zero_digest))
                  (Io tt patch_script []) in
  (r, length (trace s)) =
  (Ret [(u "status", VStr (u "updated")); (u "path", VStr (u "/srv/a")); (u "sha256", VStr zero_digest)], 4%nat).
Proof. vm_compute. reflexivity. Qed.
Example stale_patch_is_refused :
  let (r, s) := edit (U := ascii_db) sample_profile scripted_token scripted_runner (u "apply_patch")
                  (patch_payload (VStr (concat (replicate 32 (u "0b"))))) (Io tt patch_script []) in
  (r, length (trace s)) = (Raise (file_conflict (u "remote file does not match expected_sha256")), 2%nat).
Proof. vm_compute. reflexivity. Qed.
