(* ===== verification/State.v ===== *)
(** * State: the session state machine (worker/state.py)

    The ten states, the table of allowed transitions, and the operations of
    [SessionStateMachine].  Each operation runs under the object's lock, so it
    is one atomic step of the machine. *)
From stdpp Require Import relations.
From S2P Require Import Prelude Errors Text.

(** ** Data *)
Inductive SessionState : Set :=
  | CREATED | STARTING | AUTHENTICATION_REQUIRED | READY | EXECUTING | INTERACTIVE
  | LOST | CLOSING | CLOSED | FAILED.

#[export] Instance SessionState_eq_dec : EqDecision SessionState.
Proof. solve_decision. Defined.

(** The string value of each member of the enumeration *)
Definition state_value (s : SessionState) : str :=
  match s with
  | CREATED => u "created"
  | STARTING => u "starting"
  | AUTHENTICATION_REQUIRED => u "authentication_required"
  | READY => u "ready"
  | EXECUTING => u "executing"
  | INTERACTIVE => u "interactive"
  | LOST => u "lost"
  | CLOSING => u "closing"
  | CLOSED => u "closed"
  | FAILED => u "failed"
  end.

Definition ALLOWED_TRANSITIONS (s : SessionState) : list SessionState :=
  match s with
  | CREATED => [STARTING; CLOSING]
  | STARTING => [AUTHENTICATION_REQUIRED; READY; LOST; FAILED; CLOSING]
  | AUTHENTICATION_REQUIRED => [STARTING; EXECUTING; LOST; FAILED; CLOSING]
  | READY => [EXECUTING; INTERACTIVE; LOST; FAILED; CLOSING]
  | EXECUTING => [AUTHENTICATION_REQUIRED; READY; LOST; FAILED; CLOSING]
  | INTERACTIVE => [READY; LOST; FAILED; CLOSING]
  | LOST => [CLOSING; CLOSED]
  | FAILED => [CLOSING; CLOSED]
  | CLOSING => [CLOSED]
  | CLOSED => []
  end.

Record StateSnapshot := Snapshot {
  snap_state : SessionState; snap_generation : Z; snap_changed_at : Q }.

Record SessionStateMachine := Machine {
  st_state : SessionState;
  st_generation : Z;
  st_changed_at : Q;
  st_auth_return : option SessionState }.

(** ** Operations; [now] is the reading of the monotonic clock *)
Definition new_machine (now : Q) : SessionStateMachine := Machine CREATED 0 now None.

Definition snapshot (m : SessionStateMachine) : StateSnapshot :=
  Snapshot (st_state m) (st_generation m) (st_changed_at m).

Definition invalid_state (message : str) : exn := controlled InvalidSessionState message.

Definition require (states : list SessionState) : M SessionStateMachine unit :=
  m ← get;
  if bool_decide (st_state m ∈ states) then mret tt
  else raise (invalid_state
    (u "operation requires state " ++ join (u ", ") (map state_value states)
     ++ u "; current state is " ++ state_value (st_state m))).

Definition transition (now : Q) (target : SessionState) : M SessionStateMachine StateSnapshot :=
  m ← get;
  if bool_decide (target ∈ ALLOWED_TRANSITIONS (st_state m)) then
    let m' := Machine target (st_generation m + 1) now (st_auth_return m) in
    put m';; mret (snapshot m')
  else raise (invalid_state
    (u "invalid session transition: " ++ state_value (st_state m) ++ u " -> "
     ++ state_value target)).

Definition set_auth_return (r : option SessionState) : M SessionStateMachine unit :=
  modify (fun m => Machine (st_state m) (st_generation m) (st_changed_at m) r).

Definition begin_authentication (now : Q) : M SessionStateMachine unit :=
  m ← get;
  if bool_decide (st_state m ∈ [STARTING; EXECUTING]) then
    set_auth_return (Some (st_state m));;
    transition now AUTHENTICATION_REQUIRED;;
    mret tt
  else raise (invalid_state
    (u "authentication prompt is invalid in state " ++ state_value (st_state m))).

Definition finish_authentication (now : Q) : M SessionStateMachine unit :=
  m ← get;
  if bool_decide (st_state m = AUTHENTICATION_REQUIRED) then
    let target := st_auth_return m in
    set_auth_return None;;
    match target with
    | None => raise (invalid_state (u "authentication return state is unavailable"))
    | Some target => transition now target;; mret tt
    end
  else raise (invalid_state (u "authentication is not active")).

Definition begin_close (now : Q) : M SessionStateMachine bool :=
  m ← get;
  if bool_decide (st_state m = CLOSED) then mret false
  else if bool_decide (st_state m = CLOSING) then mret true
  else
    set_auth_return None;;
    transition now CLOSING;;
    mret true.

(** ** Runs of the machine: any sequence of operations, failing ones included *)
Inductive operation : Set :=
  | OpTransition (target : SessionState)
  | OpBeginAuthentication
  | OpFinishAuthentication
  | OpBeginClose.

Definition perform (now : Q) (o : operation) (m : SessionStateMachine) : SessionStateMachine :=
  match o with
  | OpTransition target => (transition now target m).2
  | OpBeginAuthentication => (begin_authentication now m).2
  | OpFinishAuthentication => (finish_authentication now m).2
  | OpBeginClose => (begin_close now m).2
  end.

Inductive step : SessionStateMachine → SessionStateMachine → Prop :=
  | step_op now o m : step m (perform now o m).

(** The states a session that can no longer be trusted may still visit *)
Definition dead (s : SessionState) : bool :=
  bool_decide (s ∈ [LOST; FAILED; CLOSING; CLOSED]).

(** Every auth return state is one [begin_authentication] recorded. *)
Definition machine_ok (m : SessionStateMachine) : Prop :=
  0 <= st_generation m ∧
  (st_auth_return m = None ∨ st_auth_return m = Some STARTING ∨ st_auth_return m = Some EXECUTING).

(** ** Lemmas *)
Create HintDb state discriminated.

Lemma transition_ok now target m :
  target ∈ ALLOWED_TRANSITIONS (st_state m) →
  transition now target m =
    (Ret (Snapshot target (st_generation m + 1) now),
     Machine target (st_generation m + 1) now (st_auth_return m)).
Proof.
  intros H. unfold transition, mbind, prog_mbind, prog_bind, get, put; cbn.
  by rewrite bool_decide_true.
Qed.

Lemma transition_refused now target m :
  target ∉ ALLOWED_TRANSITIONS (st_state m) →
  ∃ e, transition now target m = (Raise e, m) ∧ isinstance e InvalidSessionState = true.
Proof.
  intros H. unfold transition, mbind, prog_mbind, prog_bind, get; cbn.
  rewrite bool_decide_false by done. by eexists.
Qed.

Lemma transition_cases now target m :
  (target ∈ ALLOWED_TRANSITIONS (st_state m) ∧
   transition now target m =
     (Ret (Snapshot target (st_generation m + 1) now),
      Machine target (st_generation m + 1) now (st_auth_return m))) ∨
  (∃ e, transition now target m = (Raise e, m) ∧ isinstance e InvalidSessionState = true).
Proof.
  destruct (decide (target ∈ ALLOWED_TRANSITIONS (st_state m))).
  - left. auto using transition_ok.
  - right. by apply transition_refused.
Qed.

(** What finishing an authentication does in terms of a transition *)
Lemma finish_authentication_eq now m :
  (finish_authentication now m).2 =
  match st_state m, st_auth_return m with
  | AUTHENTICATION_REQUIRED, Some target =>
      (transition now target
         (Machine (st_state m) (st_generation m) (st_changed_at m) None)).2
  | AUTHENTICATION_REQUIRED, None =>
      Machine (st_state m) (st_generation m) (st_changed_at m) None
  | _, _ => m
  end.
Proof.
  destruct m as [s g t r]; destruct s; cbn -[transition]; try (by destruct r).
  destruct r as [target|]; [|reflexivity].
  unfold finish_authentication, set_auth_return. unfold_prog.
  rewrite bool_decide_true by done. cbn -[transition].
  by destruct (transition _ _ _) as [[] ?].
Qed.

(** The two shapes a single operation can give the machine: the same state, or
    one allowed transition. *)
Lemma perform_cases now o m :
  let m' := perform now o m in
  (st_state m' = st_state m ∧ st_generation m' = st_generation m) ∨
  (st_state m' ∈ ALLOWED_TRANSITIONS (st_state m) ∧ st_generation m' = st_generation m + 1).
Proof.
  destruct o as [target| | |]; cbn -[transition].
  - destruct (transition_cases now target m) as [[H ->]|(e & -> & _)]; cbn; auto.
  - destruct m as [s g t r]; destruct s; cbn; auto; right; split; auto; set_solver.
  - rewrite finish_authentication_eq. destruct m as [s g t r]; destruct s; cbn -[transition]; auto.
    destruct r as [target|]; cbn -[transition]; auto.
    destruct (transition_cases now target (Machine AUTHENTICATION_REQUIRED g t None))
      as [[H ->]|(e & -> & _)]; cbn; auto.
  - destruct m as [s g t r]; destruct s; cbn; auto; right; split; auto; set_solver.
Qed.

Lemma perform_machine_ok now o m : machine_ok m → machine_ok (perform now o m).
Proof.
  intros [Hg Hr]. split.
  { destruct (perform_cases now o m) as [[_ ->]|[_ ->]]; lia. }
  destruct o as [target| | |]; cbn -[transition].
  - destruct (transition_cases now target m) as [[H ->]|(e & -> & _)]; cbn; auto.
  - destruct m as [s g t r]; destruct s; cbn; auto.
  - rewrite finish_authentication_eq. destruct m as [s g t r]; destruct s; cbn -[transition]; auto.
    destruct r as [target|]; cbn -[transition]; auto.
    destruct (transition_cases now target (Machine AUTHENTICATION_REQUIRED g t None))
      as [[H ->]|(e & -> & _)]; cbn; auto.
  - destruct m as [s g t r]; destruct s; cbn; auto.
Qed.
#[export] Hint Resolve perform_machine_ok : state.

Lemma dead_closed s s' : dead s = true → s' ∈ ALLOWED_TRANSITIONS s → dead s' = true.
Proof.
  destruct s; try discriminate; cbn; intros _ H; unfold dead; apply bool_decide_eq_true;
    set_solver.
Qed.

(** ** Properties *)

(** Whatever sequence of operations runs, once a session is
    lost, failed, closing or closed it never becomes usable again, its
    generation never decreases, and a closed session stays closed. *)
Theorem dead_sessions_stay_dead m m' :
  dead (st_state m) = true → rtc step m m' →
  dead (st_state m') = true ∧ st_generation m <= st_generation m' ∧
  (st_state m = CLOSED → st_state m' = CLOSED ∧ st_generation m' = st_generation m).
Proof.
  intros Hd Hr. induction Hr as [m|m m1 m2 [now o m'] _ IH]; [repeat split; auto; lia|].
  destruct (perform_cases now o m') as [[Hs Hg]|[Hs Hg]].
  - rewrite Hs in IH. destruct (IH Hd) as (H1 & H2 & H3).
    split; [done|]. split; [lia|]. intros Hc. destruct (H3 Hc). split; [done|lia].
  - destruct IH as (H1 & H2 & _); [by eapply dead_closed|].
    split; [done|]. split; [lia|]. intros Hc. rewrite Hc in Hs. cbn in Hs. set_solver.
Qed.

Lemma dead_sessions_stay_dead_witness :
  dead LOST = true ∧
  dead (st_state (perform (qz 2) (OpTransition READY) (Machine LOST 4 (qz 1) None))) = true.
Proof.
  split; [reflexivity|].
  apply (dead_sessions_stay_dead (Machine LOST 4 (qz 1) None)); [reflexivity|].
  apply rtc_once. constructor.
Defined.

Lemma begin_close_open now m :
  st_state m ≠ CLOSED →
  ∃ m', begin_close now m = (Ret true, m') ∧ st_state m' = CLOSING.
Proof.
  intros Hm. unfold begin_close. unfold_prog. rewrite bool_decide_false by done.
  destruct m as [s g t r]; destruct s; try done; eexists; split; reflexivity.
Qed.

(** Closing is always possible: from every state but CLOSED,
    [begin_close] answers true without raising and the transition to CLOSED
    that follows it succeeds; on a closed session it answers false and changes
    nothing. *)
Theorem close_always_succeeds now m :
  (st_state m = CLOSED ∧ begin_close now m = (Ret false, m)) ∨
  (st_state m ≠ CLOSED ∧ ∃ m' m'' snap,
     begin_close now m = (Ret true, m') ∧
     transition now CLOSED m' = (Ret snap, m'') ∧ st_state m'' = CLOSED).
Proof.
  destruct (decide (st_state m = CLOSED)) as [E|E].
  - left. split; [done|]. unfold begin_close. unfold_prog. by rewrite bool_decide_true.
  - right. split; [done|]. destruct (begin_close_open now m E) as (m' & -> & Hm').
    exists m'. do 2 eexists. split; [done|]. rewrite transition_ok; [done|].
    rewrite Hm'. set_solver.
Qed.

Lemma begin_authentication_ok now m :
  st_state m ∈ [STARTING; EXECUTING] →
  begin_authentication now m =
    (Ret tt, Machine AUTHENTICATION_REQUIRED (st_generation m + 1) now (Some (st_state m))).
Proof.
  intros Hm. unfold begin_authentication, set_auth_return. unfold_prog.
  rewrite bool_decide_true by done.
  rewrite transition_ok; [done|]. destruct m as [s g t r]; destruct s; cbn in *; set_solver.
Qed.

Lemma finish_authentication_ok now m target :
  st_state m = AUTHENTICATION_REQUIRED → st_auth_return m = Some target →
  target ∈ ALLOWED_TRANSITIONS AUTHENTICATION_REQUIRED →
  finish_authentication now m = (Ret tt, Machine target (st_generation m + 1) now None).
Proof.
  intros Hm Hr Ht. unfold finish_authentication, set_auth_return. unfold_prog.
  rewrite bool_decide_true, Hr by done.
  rewrite transition_ok; [done|]. cbn. by rewrite Hm.
Qed.

(** An authentication that starts while a session is starting
    or executing brings it back to exactly that state, two generations later;
    in every other state it is refused and the machine is left as it was. *)
Theorem authentication_returns_to_origin now now' m :
  if bool_decide (st_state m ∈ [STARTING; EXECUTING]) then
    ∃ m1 m2, begin_authentication now m = (Ret tt, m1) ∧
             st_state m1 = AUTHENTICATION_REQUIRED ∧
             finish_authentication now' m1 = (Ret tt, m2) ∧
             st_state m2 = st_state m ∧ st_generation m2 = st_generation m + 2 ∧
             st_auth_return m2 = None
  else ∃ e, begin_authentication now m = (Raise e, m) ∧ isinstance e InvalidSessionState = true.
Proof.
  case_bool_decide as Hs.
  - do 2 eexists. split; [by apply begin_authentication_ok|]. split; [done|].
    split; [apply finish_authentication_ok; [done..|]|cbn; repeat split; lia].
    cbn in *. set_solver.
  - unfold begin_authentication. unfold_prog. rewrite bool_decide_false by done. by eexists.
Qed.
