(* ===== verification/RingBuffer.v ===== *)
(** * RingBuffer: the terminal output buffer (terminal/buffer.py)

    [TerminalRingBuffer] keeps the newest [max_bytes] bytes of a terminal's
    output and hands them out by absolute cursor.  Its specification is the
    whole output ever appended, an ever-growing log: the buffer refines it. *)
From S2P Require Import Prelude Errors Text.

(** ** Data *)
Record BufferRead := BRead { data : bytes; next_cursor : Z; dropped_before_cursor : bool }.

Record TerminalRingBuffer := Ring {
  max_bytes : Z; rb_data : bytes; rb_start : Z; rb_closed : bool }.

(** ** Operations *)
Definition new_ring (max_bytes : Z) : res TerminalRingBuffer :=
  if max_bytes <? 1 then Err (value_error (u "max_bytes must be positive"))
  else Ok (Ring max_bytes [] 0 false).

Definition end_cursor (b : TerminalRingBuffer) : Z := rb_start b + len (rb_data b).
Definition start_cursor (b : TerminalRingBuffer) : Z := rb_start b.

Definition append (d : bytes) (b : TerminalRingBuffer) : TerminalRingBuffer :=
  match d with
  | [] => b
  | _ =>
      let all := rb_data b ++ d in
      let overflow := len all - max_bytes b in
      if 0 <? overflow
      then Ring (max_bytes b) (drop (Z.to_nat overflow) all) (rb_start b + overflow) (rb_closed b)
      else Ring (max_bytes b) all (rb_start b) (rb_closed b)
  end.

Definition close_ring (b : TerminalRingBuffer) : TerminalRingBuffer :=
  Ring (max_bytes b) (rb_data b) (rb_start b) true.

Definition read_locked (cursor : Z) (b : TerminalRingBuffer) : BufferRead :=
  let dropped := cursor <? rb_start b in
  let effective := Z.max cursor (rb_start b) in
  let offset := Z.min (effective - rb_start b) (len (rb_data b)) in
  BRead (drop (Z.to_nat offset) (rb_data b)) (rb_start b + len (rb_data b)) dropped.

Definition read (cursor : Z) (b : TerminalRingBuffer) : BufferRead := read_locked cursor b.

(** [wait_for_data]: between two looks at the buffer the reader thread may
    append or close.  Each element of [events] is one iteration of the loop:
    the clock reading it makes (used only when there is a deadline) and what
    happened while it waited on the condition. *)
Inductive ring_event : Set := Appended (d : bytes) | ClosedEvent | Nothing.
Definition ring_event_apply (e : ring_event) (b : TerminalRingBuffer) : TerminalRingBuffer :=
  match e with Appended d => append d b | ClosedEvent => close_ring b | Nothing => b end.
Definition must_wait (cursor : Z) (b : TerminalRingBuffer) : bool :=
  negb (rb_closed b) && (end_cursor b <=? cursor).
Definition expired (deadline : option Q) (now : Q) : bool :=
  match deadline with None => false | Some d => qle (qsub d now) (qz 0) end.

Fixpoint wait_loop (deadline : option Q) (cursor : Z) (events : list (Q * ring_event))
    (b : TerminalRingBuffer) : option (BufferRead * TerminalRingBuffer) :=
  if must_wait cursor b then
    match events with
    | [] => None
    | (now, e) :: events =>
        if expired deadline now then Some (read_locked cursor b, b)
        else wait_loop deadline cursor events (ring_event_apply e b)
    end
  else Some (read_locked cursor b, b).

Definition wait_for_data (cursor : Z) (timeout : option Q) (start : Q)
    (events : list (Q * ring_event)) (b : TerminalRingBuffer) :
    option (BufferRead * TerminalRingBuffer) :=
  wait_loop (qadd start <$> timeout) cursor events b.

(** ** Specification: the complete output as a log *)
Definition log_read (log : bytes) (from : Z) : bytes := drop (Z.to_nat from) log.

(** The buffer holds a suffix of the log, all of it or its newest
    [max_bytes] bytes. *)
Record refines (b : TerminalRingBuffer) (log : bytes) : Prop := {
  ref_max : 0 < max_bytes b;
  ref_start : 0 <= rb_start b;
  ref_suffix : rb_data b = log_read log (rb_start b);
  ref_end : end_cursor b = len log;
  ref_bound : len (rb_data b) <= max_bytes b;
  ref_full : rb_start b = 0 ∨ len (rb_data b) = max_bytes b }.

Definition appends (ds : list bytes) (b : TerminalRingBuffer) : TerminalRingBuffer :=
  fold_left (fun b d => append d b) ds b.

(** ** Lemmas *)
Lemma new_ring_refines n b : new_ring n = Ok b → refines b [].
Proof.
  unfold new_ring. destruct (Z.ltb_spec n 1); [done|]. intros [= <-].
  split; unfold end_cursor, len; cbn; auto; lia.
Qed.

Lemma log_read_app log d n :
  0 <= n <= len log → log_read (log ++ d) n = log_read log n ++ d.
Proof. intros Hn. unfold log_read, len in *. rewrite drop_app_le by lia. done. Qed.

Lemma drop_log_read log i n :
  0 <= i → 0 <= n → drop (Z.to_nat i) (log_read log n) = log_read log (n + i).
Proof. intros. unfold log_read. rewrite drop_drop. f_equal. lia. Qed.

Lemma append_refines b log d : refines b log → refines (append d b) (log ++ d).
Proof.
  intros [Hm Hs Hsuf Hend Hb Hf]. unfold append.
  destruct d as [|c d]; [by rewrite app_nil_r|]. set (d' := c :: d).
  assert (Hl : len (log ++ d') = rb_start b + len (rb_data b ++ d'))
    by (rewrite !len_app; unfold end_cursor in *; lia).
  assert (Hd : rb_data b ++ d' = log_read (log ++ d') (rb_start b)).
  { rewrite Hsuf, log_read_app; [done|]. pose proof (len_nonneg (rb_data b)).
    unfold end_cursor in *. lia. }
  pose proof (len_nonneg (rb_data b ++ d')).
  destruct (Z.ltb_spec 0 (len (rb_data b ++ d') - max_bytes b)) as [Ho|Ho];
    split; unfold end_cursor; cbn; auto; try lia.
  - rewrite Hd at 2. by rewrite drop_log_read by lia.
  - rewrite len_drop by lia. lia.
  - rewrite len_drop by lia. lia.
  - right. rewrite len_drop by lia. lia.
  - destruct Hf; [by left|]. right. rewrite len_app in *. pose proof (len_nonneg d'). lia.
Qed.

Lemma close_refines b log : refines b log → refines (close_ring b) log.
Proof. by intros []. Qed.

Lemma appends_refines ds b log : refines b log → refines (appends ds b) (log ++ concat ds).
Proof.
  revert b log. induction ds as [|d ds IH]; intros b log H; cbn; [by rewrite app_nil_r|].
  rewrite app_assoc. by apply IH, append_refines.
Qed.

Lemma read_refines b log cursor :
  refines b log → 0 <= cursor <= len log →
  read cursor b = BRead (log_read log (Z.max cursor (rb_start b))) (len log)
                        (cursor <? rb_start b).
Proof.
  intros [Hm Hs Hsuf Hend Hb Hf] Hc. unfold read, read_locked, end_cursor in *. rewrite <- Hend. f_equal.
  rewrite Z.min_l by lia. rewrite Hsuf at 1. rewrite drop_log_read by lia. f_equal. lia.
Qed.

Lemma refines_start b log : refines b log → rb_start b = Z.max 0 (len log - max_bytes b).
Proof. intros [Hm Hs Hsuf Hend Hb Hf]. unfold end_cursor in *. lia. Qed.

Lemma refines_ext b log log' : refines b log → log = log' → refines b log'.
Proof. by intros ? <-. Qed.

Lemma max_bytes_append d b : max_bytes (append d b) = max_bytes b.
Proof. unfold append. destruct d; [done|]. by case_match. Qed.

Lemma max_bytes_appends ds b : max_bytes (appends ds b) = max_bytes b.
Proof.
  revert b. induction ds as [|d ds IH]; intros b; [done|]. cbn. rewrite IH.
  apply max_bytes_append.
Qed.

Lemma new_ring_max n b : new_ring n = Ok b → max_bytes b = n.
Proof. unfold new_ring. case_match; [done|]. by intros [= <-]. Qed.

Lemma log_read_split log i j :
  0 <= i <= j → log_read log i = take (Z.to_nat (j - i)) (log_read log i) ++ log_read log j.
Proof.
  intros Hij. rewrite <- (take_drop (Z.to_nat (j - i)) (log_read log i)) at 1. f_equal.
  rewrite drop_log_read by lia. f_equal. lia.
Qed.

Lemma log_read_full log : log_read log (len log) = [].
Proof. unfold log_read, len. apply drop_ge. lia. Qed.

Lemma ring_event_refines e b log :
  refines b log →
  ∃ d, refines (ring_event_apply e b) (log ++ d).
Proof.
  destruct e; intros H; [by eexists; apply append_refines|..];
    exists []; rewrite app_nil_r; [by apply close_refines|done].
Qed.

Lemma wait_loop_ends deadline cursor events b :
  existsb (fun e => expired deadline e.1) events = true ∨
  existsb (fun e => match e.2 with ClosedEvent => true | _ => false end) events = true →
  is_Some (wait_loop deadline cursor events b).
Proof.
  revert b. induction events as [|[now e] events IH]; intros b; cbn; [by intros []|].
  intros H. destruct (must_wait cursor b) eqn:Hw; [|eauto].
  destruct (expired deadline now) eqn:He; [eauto|].
  destruct e as [d| |]; cbn in H; [by apply IH| |by apply IH].
  cbn. by destruct events as [|[]].
Qed.

(** ** Properties *)

(** C33: after any sequence of appends, reading at a cursor inside
    the output returns exactly the bytes of the complete output from that
    cursor on, less those older than the newest [max_bytes]; the next cursor
    is the end of the output, and loss is reported exactly when bytes at or
    after the cursor were dropped. *)
Theorem ring_read_correct n ds b0 cursor :
  new_ring n = Ok b0 →
  let log := concat ds in
  let oldest := Z.max 0 (len log - n) in
  0 <= cursor <= len log →
  read cursor (appends ds b0) =
    BRead (log_read log (Z.max cursor oldest)) (len log) (cursor <? oldest).
Proof.
  intros Hn log oldest Hc.
  assert (Hr : refines (appends ds b0) log)
    by (eapply refines_ext; [apply appends_refines, (new_ring_refines n b0 Hn)|done]).
  rewrite (read_refines _ log) by done.
  pose proof (refines_start _ _ Hr) as Hs.
  rewrite max_bytes_appends, (new_ring_max n) in Hs by done. by rewrite Hs.
Qed.

Lemma ring_read_correct_witness :
  0 <= 1 <= len (concat [u "abc"; u "def"]) ∧
  read 1 (appends [u "abc"; u "def"] (Ring 4 [] 0 false)) = BRead (u "cdef") 6 true.
Proof.
  split; [vm_compute; split; discriminate|].
  apply (ring_read_correct 4 [u "abc"; u "def"] (Ring 4 [] 0 false) 1);
    [reflexivity | vm_compute; split; discriminate].
Defined.

(** A reader that always passes back the cursor it was given
    sees a contiguous stream: whatever is appended between two reads, when the
    second reports no loss the two pieces joined are the output from the first
    piece's start, and the buffer never holds more than [max_bytes]. *)
Theorem ring_reads_contiguous b log cursor ds :
  refines b log → 0 <= cursor <= len log →
  let r1 := read cursor b in
  let b' := appends ds b in
  let r2 := read (next_cursor r1) b' in
  len (rb_data b') <= max_bytes b ∧
  (dropped_before_cursor r2 = false →
   data r1 ++ data r2 = log_read (log ++ concat ds) (Z.max cursor (rb_start b))) ∧
  (dropped_before_cursor r2 = true → data r2 = rb_data b').
Proof.
  intros Hr Hc r1 b' r2.
  assert (Hr' : refines b' (log ++ concat ds)) by (by apply appends_refines).
  assert (Hl : 0 <= len log <= len (log ++ concat ds))
    by (rewrite len_app; pose proof (len_nonneg log); pose proof (len_nonneg (concat ds)); lia).
  split; [rewrite <- (max_bytes_appends ds b); apply (ref_bound _ _ Hr')|].
  unfold r2, r1. rewrite (read_refines b log) by done. cbn [next_cursor data].
  rewrite (read_refines b' (log ++ concat ds)) by done. cbn [data dropped_before_cursor].
  pose proof (ref_start _ _ Hr). pose proof (ref_end _ _ Hr) as He. unfold end_cursor in He.
  pose proof (len_nonneg (rb_data b)).
  split; intros Hd; boolean.
  - rewrite (Z.max_l (len log)) by lia. unfold log_read at 2. unfold len.
    rewrite Nat2Z.id, drop_app_length. symmetry. apply log_read_app. lia.
  - rewrite (Z.max_r (len log)) by lia. symmetry. apply (ref_suffix _ _ Hr').
Qed.

Lemma ring_reads_contiguous_witness :
  refines (Ring 8 (u "abc") 0 false) (u "abc") ∧
  data (read 0 (Ring 8 (u "abc") 0 false)) ++
  data (read 3 (appends [u "de"; u "f"] (Ring 8 (u "abc") 0 false))) = u "abcdef".
Proof.
  assert (H : refines (Ring 8 (u "abc") 0 false) (u "abc"))
    by (split; try reflexivity; try (left; reflexivity); discriminate).
  split; [exact H|].
  pose proof (ring_reads_contiguous (Ring 8 (u "abc") 0 false) (u "abc") 0 [u "de"; u "f"] H
                (conj (Z.le_refl 0) (len_nonneg _))) as (_ & H2 & _).
  exact (H2 eq_refl).
Defined.

(** Waiting for data returns as soon as the deadline has passed
    or the buffer is closed, whatever happens meanwhile; and the read it makes
    is of a buffer that has data past the cursor, is closed, or was looked at
    after the deadline. *)
Theorem wait_for_data_terminates cursor timeout start events b :
  (existsb (fun e => expired (qadd start <$> timeout) e.1) events = true ∨
   existsb (fun e => match e.2 with ClosedEvent => true | _ => false end) events = true →
   is_Some (wait_for_data cursor timeout start events b)) ∧
  (∀ r b', wait_for_data cursor timeout start events b = Some (r, b') →
   r = read cursor b' ∧
   (must_wait cursor b' = false ∨
    ∃ now e, (now, e) ∈ events ∧ expired (qadd start <$> timeout) now = true)).
Proof.
  unfold wait_for_data. split; [apply wait_loop_ends|]. generalize (qadd start <$> timeout).
  intros deadline. revert b. induction events as [|[now e] events IH]; intros b r b'; cbn;
    (destruct (must_wait cursor b) eqn:Hw; [|by intros [= <- <-]; auto]); [done|].
  destruct (expired deadline now) eqn:He.
  - intros [= <- <-]. split; [done|]. right. exists now, e. set_solver.
  - intros H. destruct (IH _ _ _ H) as [-> [|(now' & e' & Hin & ?)]]; split; auto.
    right. exists now', e'. set_solver.
Qed.

Lemma wait_for_data_terminates_witness :
  is_Some (wait_for_data 3 (Some (qz 5)) (qz 1) [(qz 2, Nothing); (qz 7, Nothing)]
             (Ring 8 (u "abc") 0 false)).
Proof.
  apply (wait_for_data_terminates 3 (Some (qz 5)) (qz 1) [(qz 2, Nothing); (qz 7, Nothing)]).
  left; reflexivity.
Defined.
