(* ===== verification/Framing.v ===== *)
(** * Framing: the shell frame protocol (ssh/framing.py)

    A command is sent to the remote shell inside a wrapper that prints
    token-correlated marker lines; [CommandFrameParser] reads the terminal's
    output incrementally and answers only when every marker was seen. *)
From S2P Require Import Prelude Errors Text TextFacts Regex.

Section framing.
Context {U : UnicodeDB}.

(** ** Patterns and limits *)

(** [\x1b(?:[@-Z\\-_]|\[[0-?]*[ -/]*[@-~])] *)
Definition ANSI_ESCAPE : re :=
  RSeq (RChar (one 27))
    (RAlt (RChar (cls [(64, 90); (92, 95)]))
       (RSeqs [RChar (one 91); RStar true (RChar (cls [(48, 63)]));
               RStar true (RChar (cls [(32, 47)])); RChar (cls [(64, 126)])])).
Definition strip_ansi (s : str) : str := (subn ANSI_ESCAPE (fun _ => []) s).1.

(** [-?\d+] *)
Definition EXIT_TEXT : re := RSeq (ROpt (RChar (one 45))) (RPlus (RChar is_decimal)).
(** [\r+\n] and [\r+\n$] *)
Definition CR_NEWLINE : re := RSeq (RPlus (RChar (one 13))) (RChar (one 10)).
Definition CR_NEWLINE_END : re := RSeqs [RPlus (RChar (one 13)); RChar (one 10); REol].

Definition SHELL_NONCE_VARIABLE : str := u "_SERVEROPS_SHELL_NONCE".
Definition PARTIAL_LINE_LIMIT : Z := 4096.

(** ** Wrappers *)
Definition isalnum (s : str) : bool :=
  match s with [] => false | _ => forallb uc_alnum s end.

Definition validate_token (value name : str) : res unit :=
  if mem_Z 10 value || mem_Z 13 value || negb (isalnum value)
  then Err (value_error (name ++ u " must be a single alphanumeric value"))
  else Ok tt.
Definition validate_nonce (nonce : option str) : res unit :=
  match nonce with None => Ok tt | Some n => validate_token n (u "shell nonce") end.

Definition begin_marker (token : str) : str := u "__SERVEROPS_BEGIN_" ++ token ++ u "__".
Definition end_marker (token : str) : str := u "__SERVEROPS_END_" ++ token ++ u "__".
Definition cwd_marker (token : str) : str := u "__SERVEROPS_CWD_" ++ token ++ u "__".
Definition health_marker (token : str) : str := u "__SERVEROPS_HEALTH_" ++ token ++ u "__".
Definition debug_marker (token : str) : str := u "__SERVEROPS_DEBUG_" ++ token ++ u "__".
Definition debug_end_marker (token : str) : str := u "__SERVEROPS_DEBUG_END_" ++ token ++ u "__".

Definition readonly_empty (v : str) : str :=
  u " && [[ ${" ++ v ++ u "-} == '' ]] && [[ $(builtin declare -p " ++ v
  ++ u " 2>/dev/null) == declare\ -*r*\ " ++ v ++ u "=\" ++ dq ++ u "\" ++ dq ++ u " ]]".

Definition shell_health_condition (shell_nonce : str) : str :=
  u "[[ ${" ++ SHELL_NONCE_VARIABLE ++ u "-} == '" ++ shell_nonce ++ u "' ]]"
  ++ u " && [[ $(builtin declare -p " ++ SHELL_NONCE_VARIABLE ++ u " 2>/dev/null) == "
  ++ u "declare\ -*r*\ " ++ SHELL_NONCE_VARIABLE ++ u "=\" ++ dq ++ shell_nonce
  ++ u "\" ++ dq ++ u " ]]"
  ++ concat (map readonly_empty
       [u "PROMPT_COMMAND"; u "PS0"; u "PS1"; u "PS2"; u "PS3"; u "PS4"]).

Definition stty_restore : str := u "builtin command -p stty -echo intr '^]' >/dev/null 2>&1".

Definition completion_wrapper (token : str) (shell_nonce : option str) (exit_value : str) : str :=
  let condition :=
    stty_restore ++ match shell_nonce with
                    | None => []
                    | Some nonce => u " && " ++ shell_health_condition nonce
                    end in
  match shell_nonce with
  | None => []
  | Some _ =>
      u "builtin printf '\n" ++ debug_marker token ++ u "\n'" ++ nl
      ++ u "builtin trap -p DEBUG" ++ nl
      ++ u "builtin printf '" ++ debug_end_marker token ++ u "\n'" ++ nl
      ++ u "builtin trap - DEBUG" ++ nl
  end
  ++ u "if " ++ condition ++ u "; then" ++ nl
  ++ u "  builtin printf '\n" ++ end_marker token ++ u ":%s\n' " ++ dq ++ exit_value ++ dq ++ nl
  ++ u "  builtin printf '" ++ cwd_marker token ++ u ":'" ++ nl
  ++ u "  builtin pwd" ++ nl
  ++ match shell_nonce with
     | None => []
     | Some _ => u "  builtin printf '" ++ health_marker token ++ u ":%s\n' " ++ dq
                 ++ u "${" ++ SHELL_NONCE_VARIABLE ++ u "}" ++ dq ++ nl
     end
  ++ u "fi" ++ nl.

Definition command_body (command : str) : str :=
  match rstrip (fun c => (c =? 13) || (c =? 10)) command with [] => u ":" | b => b end.

Definition command_wrapper (command token : str) (shell_nonce : option str) : res str :=
  validate_token token (u "token") ≫= fun _ =>
  validate_nonce shell_nonce ≫= fun _ =>
  Ok (u "{" ++ nl
      ++ stty_restore ++ nl
      ++ u "builtin printf '\n" ++ begin_marker token ++ u "\n'; {" ++ nl
      ++ command_body command ++ nl
      ++ u "}; _serverops_exit=$?" ++ nl
      ++ completion_wrapper token shell_nonce (u "$_serverops_exit")
      ++ u "}" ++ nl).

Definition shell_bootstrap_wrapper (shell_nonce token : str) : res str :=
  validate_token shell_nonce (u "shell nonce") ≫= fun _ =>
  command_wrapper
    (u "builtin unset PROMPT_COMMAND PS0" ++ nl
     ++ u "builtin export PS1='' PS2='' PS3='' PS4=''" ++ nl
     ++ u "builtin readonly PROMPT_COMMAND='' PS0='' PS1='' PS2='' PS3='' PS4=''" ++ nl
     ++ u "builtin readonly " ++ SHELL_NONCE_VARIABLE ++ u "='" ++ shell_nonce ++ u "'")
    token (Some shell_nonce).

Definition interrupt_recovery_wrapper (token : str) (shell_nonce : option str) : res str :=
  validate_token token (u "token") ≫= fun _ =>
  validate_nonce shell_nonce ≫= fun _ =>
  Ok (completion_wrapper token shell_nonce (u "130")).

(** ** The parser *)
Record CommandResult := Result {
  output : str; exit_code : Z; cwd : str; truncated : bool }.

Record CommandFrameParser := Parser {
  p_token : str;
  p_nonce : option str;
  p_max_output_bytes : Z;
  p_scan : bytes;
  p_output : bytes;
  p_started : bool;
  p_truncated : bool;
  p_done : bool;
  p_pending_exit : option Z;
  p_pending_cwd : option str;
  p_pending_output_line : option bytes;
  p_in_debug_probe : bool;
  p_debug_probe_seen : bool }.

Definition new_parser (token : str) (max_output_bytes : Z) (shell_nonce : option str) :
    res CommandFrameParser :=
  validate_token token (u "token") ≫= fun _ =>
  validate_nonce shell_nonce ≫= fun _ =>
  if max_output_bytes <? 1 then Err (value_error (u "max_output_bytes must be positive"))
  else Ok (Parser token shell_nonce max_output_bytes [] [] false false false None None None
             false (match shell_nonce with None => true | Some _ => false end)).

(** The marker lines, fixed when the parser is made *)
Definition p_begin (p : CommandFrameParser) : str := begin_marker (p_token p).
Definition p_end_prefix (p : CommandFrameParser) : str := end_marker (p_token p) ++ u ":".
Definition p_cwd_prefix (p : CommandFrameParser) : str := cwd_marker (p_token p) ++ u ":".
Definition p_health_line (p : CommandFrameParser) : option str :=
  (fun n => health_marker (p_token p) ++ u ":" ++ n) <$> p_nonce p.
Definition p_debug_begin (p : CommandFrameParser) : option str :=
  (fun _ => debug_marker (p_token p)) <$> p_nonce p.
Definition p_debug_end (p : CommandFrameParser) : option str :=
  (fun _ => debug_end_marker (p_token p)) <$> p_nonce p.

Definition frame_error {A} (message : str) : M CommandFrameParser A :=
  raise (Builtin FrameProtocolError message).

(** Field updates *)
Definition set_scan (x : bytes) (p : CommandFrameParser) := Parser
  (p_token p) (p_nonce p) (p_max_output_bytes p) x (p_output p) (p_started p) (p_truncated p)
  (p_done p) (p_pending_exit p) (p_pending_cwd p) (p_pending_output_line p)
  (p_in_debug_probe p) (p_debug_probe_seen p).
Definition set_output (x : bytes) (t : bool) (p : CommandFrameParser) := Parser
  (p_token p) (p_nonce p) (p_max_output_bytes p) (p_scan p) x (p_started p) t
  (p_done p) (p_pending_exit p) (p_pending_cwd p) (p_pending_output_line p)
  (p_in_debug_probe p) (p_debug_probe_seen p).
Definition set_started (p : CommandFrameParser) := Parser
  (p_token p) (p_nonce p) (p_max_output_bytes p) (p_scan p) (p_output p) true (p_truncated p)
  (p_done p) (p_pending_exit p) (p_pending_cwd p) (p_pending_output_line p)
  (p_in_debug_probe p) (p_debug_probe_seen p).
Definition set_done (p : CommandFrameParser) := Parser
  (p_token p) (p_nonce p) (p_max_output_bytes p) (p_scan p) (p_output p) (p_started p)
  (p_truncated p) true (p_pending_exit p) (p_pending_cwd p) (p_pending_output_line p)
  (p_in_debug_probe p) (p_debug_probe_seen p).
Definition set_exit (x : Z) (p : CommandFrameParser) := Parser
  (p_token p) (p_nonce p) (p_max_output_bytes p) (p_scan p) (p_output p) (p_started p)
  (p_truncated p) (p_done p) (Some x) (p_pending_cwd p) (p_pending_output_line p)
  (p_in_debug_probe p) (p_debug_probe_seen p).
Definition set_cwd (x : str) (p : CommandFrameParser) := Parser
  (p_token p) (p_nonce p) (p_max_output_bytes p) (p_scan p) (p_output p) (p_started p)
  (p_truncated p) (p_done p) (p_pending_exit p) (Some x) (p_pending_output_line p)
  (p_in_debug_probe p) (p_debug_probe_seen p).
Definition set_line (x : option bytes) (p : CommandFrameParser) := Parser
  (p_token p) (p_nonce p) (p_max_output_bytes p) (p_scan p) (p_output p) (p_started p)
  (p_truncated p) (p_done p) (p_pending_exit p) (p_pending_cwd p) x
  (p_in_debug_probe p) (p_debug_probe_seen p).
Definition set_probe (inside seen : bool) (p : CommandFrameParser) := Parser
  (p_token p) (p_nonce p) (p_max_output_bytes p) (p_scan p) (p_output p) (p_started p)
  (p_truncated p) (p_done p) (p_pending_exit p) (p_pending_cwd p) (p_pending_output_line p)
  inside seen.

Definition store_output (data : bytes) (p : CommandFrameParser) : CommandFrameParser :=
  match data with
  | [] => p
  | _ =>
      let all := p_output p ++ data in
      let overflow := len all - p_max_output_bytes p in
      if 0 <? overflow then set_output (drop (Z.to_nat overflow) all) true p
      else set_output all (p_truncated p) p
  end.

Definition store_pending (p : CommandFrameParser) : CommandFrameParser :=
  match p_pending_output_line p with Some l => store_output l p | None => p end.

Definition flush_final_output_line (p : CommandFrameParser) : CommandFrameParser :=
  match p_pending_output_line p with
  | None => set_line None p
  | Some line =>
      let line := match search CR_NEWLINE_END line with
                  | Some (i, _) => take i line
                  | None => if ends_with nl line then removelast line else line
                  end in
      store_output line (set_line None p)
  end.

Definition decode_output (out : bytes) : str :=
  let s := strip_ansi (utf8_replace out) in
  replace_all cr nl (subn CR_NEWLINE (fun _ => nl) s).1.

Definition complete : M CommandFrameParser CommandResult :=
  p ← get;
  match p_pending_exit p, p_pending_cwd p with
  | Some exit, Some cwd =>
      put (set_done p);;
      mret (Result (decode_output (p_output p)) exit cwd (p_truncated p))
  | _, _ => raise (Builtin AssertionError [])
  end.

(** The text a raw line stands for *)
Definition normalize_line (raw_line : bytes) : str :=
  strip_ansi (utf8_replace (rstrip (one 13) (removelast raw_line))).

Definition is_line (marker : option str) (line : str) : bool :=
  match marker with Some m => str_eqb line m | None => false end.
Definition begins (marker : option str) (line : str) : bool :=
  match marker with Some m => starts_with m line | None => false end.

Definition consume_before_exit (raw_line : bytes) (line : str) :
    M CommandFrameParser (option CommandResult) :=
  p ← get;
  if p_in_debug_probe p then
    if is_line (p_debug_end p) line then put (set_probe false true p);; mret None
    else match line with
         | [] => mret None
         | _ => frame_error (u "the Bash DEBUG trap changed during the command")
         end
  else if is_line (p_debug_begin p) line then
    put (set_probe true (p_debug_probe_seen p) (flush_final_output_line p));; mret None
  else if begins (p_debug_begin p) line then
    frame_error (u "command DEBUG-probe frame is malformed")
  else if starts_with (p_end_prefix p) line then
    if negb (p_debug_probe_seen p) then
      frame_error (u "command DEBUG-probe frame is missing")
    else
      let exit_text := drop (length (p_end_prefix p)) line in
      if negb (fullmatch EXIT_TEXT exit_text) then
        frame_error (u "command exit frame is malformed")
      else
        put (flush_final_output_line p);;
        match parse_int exit_text with
        | Some n => modify (set_exit n);; mret None
        | None => raise (value_error (u "Exceeds the limit for integer string conversion"))
        end
  else
    put (set_line (Some raw_line) (store_pending p));; mret None.

Definition consume_line (raw_line : bytes) : M CommandFrameParser (option CommandResult) :=
  p ← get;
  let line := normalize_line raw_line in
  if negb (p_started p) then
    if str_eqb line (p_begin p) then put (set_started p);; mret None
    else if starts_with (p_begin p) line then
      frame_error (u "command begin frame is malformed")
    else mret None
  else match p_pending_exit p with
  | None => consume_before_exit raw_line line
  | Some _ =>
      match p_pending_cwd p with
      | None =>
          if negb (starts_with (p_cwd_prefix p) line) then
            frame_error (u "command cwd frame is missing after the exit frame")
          else
            put (set_cwd (drop (length (p_cwd_prefix p)) line) p);;
            match p_health_line p with
            | None => r ← complete; mret (Some r)
            | Some _ => mret None
            end
      | Some _ =>
          if negb (is_line (p_health_line p) line) then
            frame_error (u "command shell-health frame is invalid")
          else r ← complete; mret (Some r)
      end
  end.

Definition bound_partial_line : M CommandFrameParser unit :=
  p ← get;
  if negb (p_started p) || bool_decide (is_Some (p_pending_exit p)) then
    if PARTIAL_LINE_LIMIT <? len (p_scan p) then
      frame_error (u "command frame line exceeds the supported limit")
    else mret tt
  else if PARTIAL_LINE_LIMIT <? len (p_scan p) then
    let p' := set_line None (store_pending p) in
    let flush := Z.to_nat (len (p_scan p) - PARTIAL_LINE_LIMIT) in
    put (set_scan (drop flush (p_scan p)) (store_output (take flush (p_scan p)) p'))
  else mret tt.

(** The loop of [feed]: each round removes a line from the scan buffer, so its
    length bounds the rounds. *)
Fixpoint feed_loop (fuel : nat) (final : bool) : M CommandFrameParser (option CommandResult) :=
  p ← get;
  match fuel, partition_at 10 (p_scan p) with
  | S fuel, Some (raw, rest) =>
      put (set_scan rest p);;
      r ← consume_line (raw ++ nl);
      match r with
      | Some r => mret (Some r)
      | None => feed_loop fuel final
      end
  | _, _ =>
      bound_partial_line;;
      if final then frame_error (u "command frame ended before verified completion")
      else mret None
  end.

Definition feed (data : bytes) (final : bool) : M CommandFrameParser (option CommandResult) :=
  p ← get;
  if p_done p then raise (Builtin RuntimeError (u "frame already completed"))
  else
    let scan := p_scan p ++ data in
    put (set_scan scan p);;
    feed_loop (length scan) final.

End framing.

(** ** Lemmas *)
Section framing_facts.
Context {U : UnicodeDB}.

(** *** The scan buffer is only touched by [feed] and the partial-line bound *)
Lemma store_output_scan d x p : store_output d (set_scan x p) = set_scan x (store_output d p).
Proof. destruct p, d; cbn; [done|]. by case_match. Qed.

Lemma store_output_line d x p : store_output d (set_line x p) = set_line x (store_output d p).
Proof. destruct p, d; cbn; [done|]. by case_match. Qed.

Lemma store_pending_scan x p : store_pending (set_scan x p) = set_scan x (store_pending p).
Proof.
  unfold store_pending.
  change (p_pending_output_line (set_scan x p)) with (p_pending_output_line p).
  case_match; [apply store_output_scan|done].
Qed.

Lemma flush_scan x p :
  flush_final_output_line (set_scan x p) = set_scan x (flush_final_output_line p).
Proof.
  unfold flush_final_output_line.
  change (p_pending_output_line (set_scan x p)) with (p_pending_output_line p).
  case_match; [apply (store_output_scan _ _ (set_line None _))|done].
Qed.

(** [m] neither reads nor writes the scan buffer. *)
Definition scan_free {A} (m : M CommandFrameParser A) : Prop :=
  ∀ x p, m (set_scan x p) = ((m p).1, set_scan x (m p).2).

Lemma scan_free_complete : scan_free complete.
Proof. intros x p. unfold complete. unfold_prog. destruct p as [????????[] []]; done. Qed.

Lemma scan_free_before raw line : scan_free (consume_before_exit raw line).
Proof.
  intros x p. unfold consume_before_exit, frame_error. unfold_prog.
  change (p_in_debug_probe (set_scan x p)) with (p_in_debug_probe p).
  change (p_debug_end (set_scan x p)) with (p_debug_end p).
  change (p_debug_begin (set_scan x p)) with (p_debug_begin p).
  change (p_end_prefix (set_scan x p)) with (p_end_prefix p).
  change (p_debug_probe_seen (set_scan x p)) with (p_debug_probe_seen p).
  rewrite flush_scan, store_pending_scan.
  repeat case_match; done.
Qed.

Lemma scan_free_line raw : scan_free (consume_line raw).
Proof.
  intros x p. unfold consume_line, frame_error. unfold_prog.
  change (p_started (set_scan x p)) with (p_started p).
  change (p_begin (set_scan x p)) with (p_begin p).
  change (p_pending_exit (set_scan x p)) with (p_pending_exit p).
  change (p_pending_cwd (set_scan x p)) with (p_pending_cwd p).
  change (p_cwd_prefix (set_scan x p)) with (p_cwd_prefix p).
  change (p_health_line (set_scan x p)) with (p_health_line p).
  destruct (p_started p); cbn [negb]; [|repeat case_match; done].
  destruct (p_pending_exit p); [|apply scan_free_before].
  destruct (p_pending_cwd p).
  - destruct (is_line _ _); cbn [negb]; [|done].
    rewrite scan_free_complete. by destruct (complete p) as [[]].
  - destruct (starts_with _ _); cbn [negb]; [|done]. destruct (p_health_line p); [done|].
    change (set_cwd ?c (set_scan x p)) with (set_scan x (set_cwd c p)).
    rewrite scan_free_complete. by destruct (complete _) as [[]].
Qed.

(** *** The loop of [feed], line by line *)
Lemma partition_at_line c raw rest :
  c ∉ raw → partition_at c (raw ++ c :: rest) = Some (raw, rest).
Proof.
  induction raw as [|x raw IH]; cbn; intros H; [by rewrite Z.eqb_refl|].
  rewrite (proj2 (Z.eqb_neq x c)) by set_solver. rewrite IH by set_solver. done.
Qed.

Lemma partition_at_None c s : partition_at c s = None ↔ c ∉ s.
Proof.
  induction s as [|x s IH]; cbn; [set_solver|]. destruct (Z.eqb_spec x c); [set_solver|].
  destruct (partition_at c s) as [[]|]; [|set_solver]. split; [done|]. intros H. exfalso.
  destruct IH as [_ IH]. discriminate IH. set_solver.
Qed.

Lemma partition_at_Some c s a b : partition_at c s = Some (a, b) → s = a ++ c :: b ∧ c ∉ a.
Proof.
  revert a. induction s as [|x s IH]; cbn; intros a; [done|].
  destruct (Z.eqb_spec x c) as [->|Hne].
  - intros [= <- <-]. cbn. split; [done|set_solver].
  - destruct (partition_at c s) as [[a' b']|]; [|done]. intros [= <- <-].
    destruct (IH a' eq_refl) as [-> ?]. split; [done|set_solver].
Qed.

Lemma set_scan_id p : set_scan (p_scan p) p = p.
Proof. by destruct p. Qed.
Lemma set_scan_set x y p : set_scan x (set_scan y p) = set_scan x p.
Proof. by destruct p. Qed.

(** One round: the next line is consumed with the rest of the scan in place. *)
Lemma feed_loop_line n final raw rest p :
  p_scan p = raw ++ 10 :: rest → 10 ∉ raw →
  feed_loop (S n) final p =
    match consume_line (raw ++ nl) p with
    | (Ret (Some r), p') => (Ret (Some r), set_scan rest p')
    | (Ret None, p') => feed_loop n final (set_scan rest p')
    | (Raise e, p') => (Raise e, set_scan rest p')
    | (Hang, p') => (Hang, set_scan rest p')
    end.
Proof.
  intros Hs Hr. cbn [feed_loop]. unfold mbind at 1, prog_mbind, prog_bind. cbn [get].
  rewrite Hs, partition_at_line by done. unfold_prog.
  rewrite scan_free_line. by destruct (consume_line (raw ++ nl) p) as [[[]| |] ?].
Qed.

Lemma feed_loop_stop n final p :
  10 ∉ p_scan p →
  feed_loop n final p =
    (bound_partial_line;;
     if final then frame_error (u "command frame ended before verified completion")
     else mret None) p.
Proof.
  intros H. destruct n; cbn [feed_loop]; unfold mbind at 1, prog_mbind, prog_bind; cbn [get];
    [done|]. by rewrite (proj2 (partition_at_None 10 (p_scan p)) H).
Qed.

Lemma scan_length raw rest (s : bytes) : s = raw ++ 10 :: rest → (length rest < length s)%nat.
Proof. intros ->. rewrite length_app. cbn. lia. Qed.

Lemma feed_loop_fuel n m final p :
  (length (p_scan p) ≤ n)%nat → (length (p_scan p) ≤ m)%nat →
  feed_loop n final p = feed_loop m final p.
Proof.
  revert m p. induction n as [|n IH]; intros m p Hn Hm.
  { rewrite !feed_loop_stop; [done| |]; destruct (p_scan p); cbn in *; (set_solver || lia). }
  destruct (partition_at 10 (p_scan p)) as [[raw rest]|] eqn:E.
  - apply partition_at_Some in E as [E Hr]. pose proof (scan_length _ _ _ E).
    destruct m as [|m]; [lia|]. rewrite !(feed_loop_line _ final raw rest) by done.
    destruct (consume_line _ p) as [[[]| |] p']; try done. apply IH; cbn; lia.
  - apply partition_at_None in E. by rewrite !feed_loop_stop.
Qed.

Lemma complete_done p r p' : complete p = (Ret r, p') → p_done p' = true.
Proof. unfold complete. unfold_prog. repeat case_match; try done. by intros [= <- <-]. Qed.

Lemma complete_cases p :
  (∃ r, complete p = (Ret r, set_done p)) ∨ (∃ e, complete p = (Raise e, p)).
Proof. unfold complete. unfold_prog. repeat case_match; eauto. Qed.

Lemma store_output_done d p : p_done (store_output d p) = p_done p.
Proof. unfold store_output. destruct d; [done|]. by case_match. Qed.
Lemma store_pending_done p : p_done (store_pending p) = p_done p.
Proof. unfold store_pending. case_match; [apply store_output_done|done]. Qed.
Lemma flush_done p : p_done (flush_final_output_line p) = p_done p.
Proof. unfold flush_final_output_line. case_match; [by rewrite store_output_done|done]. Qed.

Lemma consume_before_exit_done raw line p :
  p_done (consume_before_exit raw line p).2 = p_done p ∧
  ∀ r, (consume_before_exit raw line p).1 ≠ Ret (Some r).
Proof.
  unfold consume_before_exit, frame_error. unfold_prog.
  repeat case_match; simplify_eq; cbn; rewrite ?flush_done, ?store_pending_done; split; done.
Qed.

(** A line that gives no result leaves the parser unfinished. *)
Lemma consume_line_done raw p p' :
  consume_line raw p = (Ret None, p') → p_done p' = p_done p.
Proof.
  unfold consume_line, frame_error. unfold_prog.
  destruct (p_started p); cbn [negb];
    [|repeat case_match; intros; simplify_eq; done].
  destruct (p_pending_exit p).
  2:{ intros H. destruct (consume_before_exit_done raw (normalize_line raw) p) as [Hd _].
      by rewrite H in Hd. }
  destruct (p_pending_cwd p).
  - destruct (is_line _ _); cbn [negb]; [|done].
    destruct (complete_cases p) as [[r ->]|[e ->]]; done.
  - destruct (starts_with _ _); cbn [negb]; [|done].
    destruct (p_health_line p); [intros; by simplify_eq|].
    destruct (complete_cases (set_cwd (drop (length (p_cwd_prefix p)) (normalize_line raw)) p))
      as [[r ->]|[e ->]]; done.
Qed.

(** *** The parser never waits *)
Lemma consume_line_no_hang raw p : (consume_line raw p).1 ≠ Hang.
Proof.
  unfold consume_line, consume_before_exit, frame_error. unfold_prog.
  destruct (p_started p); cbn [negb]; [|repeat case_match; simplify_eq; cbn; congruence].
  destruct (p_pending_exit p); [|repeat case_match; simplify_eq; cbn; congruence].
  destruct (p_pending_cwd p).
  - destruct (is_line _ _); cbn [negb]; [|cbn; congruence].
    destruct (complete_cases p) as [[r ->]|[e ->]]; cbn; congruence.
  - destruct (starts_with _ _); cbn [negb]; [|cbn; congruence].
    destruct (p_health_line p); [cbn; congruence|].
    destruct (complete_cases (set_cwd (drop (length (p_cwd_prefix p)) (normalize_line raw)) p))
      as [[r ->]|[e ->]]; cbn; congruence.
Qed.

Lemma bound_partial_no_hang p : (bound_partial_line p).1 ≠ Hang.
Proof.
  unfold bound_partial_line, frame_error. unfold_prog. repeat case_match; simplify_eq; cbn; congruence.
Qed.

Lemma feed_no_hang data final p : (feed data final p).1 ≠ Hang.
Proof.
  assert (Hs : ∀ n p, 10 ∉ p_scan p → (feed_loop n final p).1 ≠ Hang).
  { intros n p' Hp. rewrite feed_loop_stop by done. unfold frame_error. unfold_prog.
    pose proof (bound_partial_no_hang p').
    destruct (bound_partial_line p') as [[]]; destruct final; cbn in *; congruence. }
  assert (Hl : ∀ n p, (length (p_scan p) ≤ n)%nat → (feed_loop n final p).1 ≠ Hang).
  { induction n as [|n IH]; intros p' Hn.
    { apply Hs. destruct (p_scan p'); [set_solver|cbn in Hn; lia]. }
    destruct (partition_at 10 (p_scan p')) as [[raw rest]|] eqn:E.
    - apply partition_at_Some in E as [E Hr]. pose proof (scan_length _ _ _ E).
      rewrite (feed_loop_line n final raw rest) by done.
      pose proof (consume_line_no_hang (raw ++ nl) p').
      destruct (consume_line (raw ++ nl) p') as [[[]| |] p1]; cbn in *; try congruence.
      apply IH. cbn. lia.
    - apply Hs. by apply partition_at_None. }
  unfold feed. unfold_prog. destruct (p_done p); cbn; [congruence|]. by apply Hl.
Qed.

(** *** Chunks *)

(** No line of [s], the last and partial one included, reaches the limit; the
    first already has [n] bytes. *)
Fixpoint short_lines (n : Z) (s : bytes) : bool :=
  match s with
  | [] => n <? PARTIAL_LINE_LIMIT
  | c :: s => (n <? PARTIAL_LINE_LIMIT) && short_lines (if c =? 10 then 0 else n + 1) s
  end.

(** Feed the pieces one by one until a result comes. *)
Fixpoint feed_chunks (l : list bytes) : M CommandFrameParser (option CommandResult) :=
  match l with
  | [] => mret None
  | d :: l => r ← feed d false;
              match r with Some r => mret (Some r) | None => feed_chunks l end
  end.

Lemma short_lines_app n a b : short_lines n (a ++ b) = true → short_lines n a = true.
Proof.
  revert n. induction a as [|x a IH]; intros n; cbn.
  - destruct b; cbn; [done|]. intros H. by apply andb_true_iff in H as [-> _].
  - intros [-> H]%andb_true_iff. cbn. eauto.
Qed.

Lemma short_lines_after n raw rest :
  short_lines n (raw ++ 10 :: rest) = true → 10 ∉ raw → short_lines 0 rest = true.
Proof.
  revert n. induction raw as [|x raw IH]; intros n; cbn.
  - intros H _. by boolean.
  - intros H Hx. boolean. rewrite (proj2 (Z.eqb_neq x 10)) in * by set_solver.
    eapply IH; [done|set_solver].
Qed.

Lemma short_lines_len n s :
  short_lines n s = true → 10 ∉ s → n + len s < PARTIAL_LINE_LIMIT.
Proof.
  revert n. induction s as [|x s IH]; intros n; cbn [short_lines]; intros H Hx.
  - boolean. rewrite len_nil. lia.
  - boolean. rewrite (proj2 (Z.eqb_neq x 10)) in * by set_solver.
    rewrite len_cons. specialize (IH (n + 1)). assert (10 ∉ s) by set_solver.
    specialize (IH ltac:(done) ltac:(done)). lia.
Qed.

Lemma bound_partial_short p :
  len (p_scan p) < PARTIAL_LINE_LIMIT → bound_partial_line p = (Ret tt, p).
Proof.
  intros H. unfold bound_partial_line. unfold_prog.
  rewrite (proj2 (Z.ltb_ge PARTIAL_LINE_LIMIT _)) by lia. by case_match.
Qed.

(** What the loop does with a scan buffer: the outcome and, when it wants more
    data, the parser it leaves. *)
Definition scan_run (final : bool) (s : bytes) (p : CommandFrameParser) :=
  feed_loop (length s) final (set_scan s p).

Lemma scan_run_line final raw rest p :
  10 ∉ raw →
  scan_run final (raw ++ 10 :: rest) p =
    match consume_line (raw ++ nl) p with
    | (Ret (Some r), p') => (Ret (Some r), set_scan rest p')
    | (Ret None, p') => scan_run final rest p'
    | (Raise e, p') => (Raise e, set_scan rest p')
    | (Hang, p') => (Hang, set_scan rest p')
    end.
Proof.
  intros Hr. unfold scan_run.
  rewrite (feed_loop_fuel _ (S (length (raw ++ 10 :: rest)))) by (cbn; lia).
  rewrite (feed_loop_line _ _ raw rest) by done. rewrite scan_free_line.
  destruct (consume_line (raw ++ nl) p) as [[[]| |] p']; cbn; rewrite ?set_scan_set; try done.
  apply feed_loop_fuel; cbn; [|lia]. rewrite length_app. cbn. lia.
Qed.

Lemma scan_run_partial s p :
  10 ∉ s → len s < PARTIAL_LINE_LIMIT → scan_run false s p = (Ret None, set_scan s p).
Proof.
  intros Hs Hl. unfold scan_run. rewrite feed_loop_stop by done.
  unfold mbind, prog_mbind, prog_bind. by rewrite bound_partial_short.
Qed.

(** Running on [a] and then on what it left with [b] is running on both. *)
Lemma scan_run_app a b p :
  short_lines 0 (a ++ b) = true →
  match scan_run false a p with
  | (Ret None, p1) => 10 ∉ p_scan p1 ∧ p_done p1 = p_done p ∧
                      short_lines 0 (p_scan p1 ++ b) = true ∧
                      scan_run false (a ++ b) p = scan_run false (p_scan p1 ++ b) p1
  | (r, p1) => scan_run false (a ++ b) p = (r, set_scan (p_scan p1 ++ b) p1)
  end.
Proof.
  remember (length a) as n eqn:Hn. revert a p Hn.
  induction (lt_wf n) as [n _ IH]. intros a p -> Hs.
  destruct (partition_at 10 a) as [[raw rest]|] eqn:E.
  - apply partition_at_Some in E as [-> Hr]. rewrite <- app_assoc in *. cbn [app] in *.
    pose proof (short_lines_after _ _ _ Hs Hr) as Hs'. rewrite !scan_run_line by done.
    destruct (consume_line (raw ++ nl) p) as [[[]| |] p'] eqn:Ec; try (by rewrite set_scan_set).
    specialize (IH (length rest) ltac:(rewrite length_app; cbn; lia) rest p' eq_refl Hs').
    apply consume_line_done in Ec.
    destruct (scan_run false rest p') as [[[]| |] p1]; try done.
    destruct IH as (? & ? & ? & ?). eauto with congruence.
  - apply partition_at_None in E.
    pose proof (short_lines_len _ _ (short_lines_app _ _ _ Hs) E) as Hl.
    rewrite (scan_run_partial a) by (done || lia). cbn -[scan_run].
    split; [done|]. split; [done|]. split; [done|]. unfold scan_run. by rewrite set_scan_set.
Qed.

Lemma feed_run final d p :
  p_done p = false → feed d final p = scan_run final (p_scan p ++ d) p.
Proof. intros H. unfold feed. unfold_prog. by rewrite H. Qed.

Lemma feed_chunks_run l p :
  p_done p = false → 10 ∉ p_scan p → short_lines 0 (p_scan p ++ concat l) = true →
  (feed_chunks l p).1 = (scan_run false (p_scan p ++ concat l) p).1.
Proof.
  revert p. induction l as [|d l IH]; intros p Hd Hn Hs; cbn [concat feed_chunks] in *.
  - rewrite app_nil_r in *. pose proof (short_lines_len _ _ Hs Hn).
    rewrite scan_run_partial; [done|done|lia].
  - unfold mbind at 1, prog_mbind, prog_bind. rewrite feed_run by done.
    rewrite app_assoc in *. pose proof (scan_run_app _ _ p Hs) as Ha.
    destruct (scan_run false (p_scan p ++ d) p) as [[[]| |] p1]; try (by rewrite Ha).
    destruct Ha as (? & ? & ? & ->). apply IH; congruence.
Qed.

(** *** Lines as text *)

(** Text a terminal line carries unchanged *)
Definition plain_char (c : Z) : bool :=
  code_point c && negb (c =? 27) && negb (c =? 10) && negb (c =? 13).
Definition plain (s : str) : bool := forallb plain_char s.

(** The line ends a terminal may produce *)
Definition line_end (e : bytes) : Prop := e = [] ∨ e = cr.

Lemma rstrip_ends p a e : forallb p e = true →
  match rev a with c :: _ => p c = false | [] => True end → rstrip p (a ++ e) = a.
Proof.
  intros He Ha. unfold rstrip. rewrite rev_app_distr.
  assert (H : ∀ x y, forallb p x = true → drop_while p (x ++ y) = drop_while p y).
  { induction x as [|c x IH]; intros y Hx; cbn in *; [done|].
    apply andb_true_iff in Hx as [-> Hx]. auto. }
  rewrite H.
  - rewrite <- (rev_involutive a) at 2. f_equal. destruct (rev a); cbn; [done|]. by rewrite Ha.
  - rewrite forallb_forall in *. intros x Hx. apply He. by apply in_rev.
Qed.

Lemma removelast_end {A} (s : list A) x : removelast (s ++ [x]) = s.
Proof. apply removelast_last. Qed.

Lemma plain_text_ok s : plain s = true → text_ok s.
Proof.
  unfold plain. intros H. rewrite forallb_forall in *. intros c Hc.
  specialize (H c Hc). unfold plain_char in H. by boolean.
Qed.

Lemma strip_ansi_plain s : plain s = true → strip_ansi s = s.
Proof.
  intros H. unfold strip_ansi, ANSI_ESCAPE. rewrite subn_absent; [done|].
  unfold plain in H. rewrite forallb_forall in *. intros c Hc. specialize (H c Hc).
  unfold plain_char in H. boolean. apply negb_true_iff. unfold one. by rewrite Z.eqb_sym.
Qed.

Lemma utf8_char_last c : code_point c = true → c ≠ 13 →
  match rev (utf8_encode_char c) with b :: _ => one 13 b = false | [] => True end.
Proof.
  intros _ Hc. pose proof (Z.mod_pos_bound c 64 ltac:(lia)). unfold utf8_encode_char, one.
  destruct (c <? 128); [|destruct (c <? 2048); [|destruct (c <? 65536)]];
    cbn [rev app]; apply Z.eqb_neq; lia.
Qed.

Lemma normalize_plain t e : plain t = true → line_end e →
  normalize_line ((utf8_bytes t ++ e) ++ nl) = t.
Proof.
  intros Ht He. unfold normalize_line, nl. rewrite removelast_end, rstrip_ends.
  - rewrite utf8_replace_encode by by apply plain_text_ok. by apply strip_ansi_plain.
  - by destruct He as [->| ->].
  - destruct t as [|c t] using rev_ind; [done|]. rewrite utf8_bytes_app, rev_app_distr.
    unfold plain in Ht. rewrite forallb_app in Ht. boolean. cbn in *. boolean.
    unfold utf8_bytes. cbn. rewrite app_nil_r. unfold plain_char in *. boolean.
    pose proof (utf8_char_last c ltac:(done) ltac:(lia)) as Hl.
    destruct (rev (utf8_encode_char c)) eqn:E; [|done].
    pose proof (utf8_encode_char_length c). rewrite <- length_rev, E in *. cbn in *. lia.
Qed.

(** *** What is stored of the output *)

(** The parser holds the newest bytes of the complete output [log] and knows
    whether any were lost. *)
Record stored (log : bytes) (p : CommandFrameParser) : Prop := {
  sto_max : 0 < p_max_output_bytes p;
  sto_output : p_output p = drop (Z.to_nat (len log - p_max_output_bytes p)) log;
  sto_truncated : p_truncated p = (p_max_output_bytes p <? len log) }.

Lemma store_output_stored log d p : stored log p → stored (log ++ d) (store_output d p).
Proof.
  intros [Hm Ho Ht]. unfold store_output. destruct d as [|c d]; [by rewrite app_nil_r|].
  set (d' := c :: d).
  assert (Hn : 1 <= len d') by (unfold d'; rewrite len_cons; pose proof (len_nonneg d); lia).
  assert (Ha : p_output p ++ d' = drop (Z.to_nat (len log - p_max_output_bytes p)) (log ++ d'))
    by (rewrite Ho, drop_app_le; [done|unfold len; lia]).
  assert (Hl : len (p_output p ++ d') = Z.min (len log) (p_max_output_bytes p) + len d').
  { rewrite len_app, Ho. unfold len. rewrite length_drop. lia. }
  destruct (Z.ltb_spec 0 (len (p_output p ++ d') - p_max_output_bytes p)) as [Hz|Hz].
  - split; cbn; [done| |].
    + rewrite Hl, Ha, drop_drop, len_app in *. f_equal. pose proof (len_nonneg log). lia.
    + symmetry. apply Z.ltb_lt. rewrite len_app. rewrite Hl in Hz. lia.
  - split; cbn; [done| |].
    + rewrite Ha. f_equal. rewrite Hl in Hz. rewrite len_app. lia.
    + rewrite Ht. rewrite Hl in Hz. rewrite len_app.
      rewrite (proj2 (Z.ltb_ge _ (len log))) by lia.
      symmetry. apply Z.ltb_ge. lia.
Qed.

(** Between the begin and the exit marker, outside the DEBUG probe: [log] is
    stored and the line [pend] is held back. *)
Record running (token : str) (nonce : option str) (max : Z) (seen : bool) (log : bytes)
    (pend : option bytes) (p : CommandFrameParser) : Prop := {
  run_token : p_token p = token;
  run_nonce : p_nonce p = nonce;
  run_max : p_max_output_bytes p = max;
  run_stored : stored log p;
  run_started : p_started p = true;
  run_exit : p_pending_exit p = None;
  run_cwd : p_pending_cwd p = None;
  run_line : p_pending_output_line p = pend;
  run_probe : p_in_debug_probe p = false;
  run_seen : p_debug_probe_seen p = seen }.

Lemma store_output_shape d p : ∃ o t, store_output d p = set_output o t p.
Proof. unfold store_output. destruct d; [destruct p; by do 2 eexists|]. case_match; eauto. Qed.

Lemma running_store token nonce max seen log pend d p :
  running token nonce max seen log pend p →
  running token nonce max seen (log ++ d) None (store_output d (set_line None p)).
Proof.
  intros []. assert (Hs : stored log (set_line None p)) by (by destruct run_stored0).
  apply (store_output_stored _ d) in Hs.
  destruct (store_output_shape d (set_line None p)) as (o & t & E). rewrite E in *. by split.
Qed.

Lemma running_line token nonce max seen log pend l p :
  running token nonce max seen log pend p → running token nonce max seen log l (set_line l p).
Proof. by intros [? ? ? [] ? ? ? ? ? ?]. Qed.

(** A line of output proper: no marker of this frame *)
Definition quiet (token : str) (nonce : option str) (raw : bytes) : bool :=
  let line := normalize_line (raw ++ nl) in
  negb (starts_with (end_marker token ++ u ":") line) &&
  match nonce with None => true | Some _ => negb (starts_with (debug_marker token) line) end.

Lemma str_eqb_starts a b : str_eqb a b = true → starts_with b a = true.
Proof. unfold str_eqb. intros H. boolean. subst. apply starts_with_refl. Qed.

Lemma consume_output token nonce max seen log pend raw p :
  running token nonce max seen log pend p → quiet token nonce raw = true →
  ∃ p', consume_line (raw ++ nl) p = (Ret None, p') ∧
        running token nonce max seen (log ++ default [] pend) (Some (raw ++ nl)) p'.
Proof.
  intros H Hq. exists (set_line (Some (raw ++ nl)) (store_pending p)). split.
  - unfold consume_line, consume_before_exit. unfold_prog.
    destruct H. rewrite run_started0, run_exit0. cbn [negb]. rewrite run_probe0.
    unfold quiet in Hq. apply andb_true_iff in Hq as [He Hd].
    unfold p_debug_begin, p_end_prefix. rewrite run_token0, run_nonce0.
    apply negb_true_iff in He. rewrite He.
    destruct nonce as [n|]; cbn [fmap option_fmap option_map is_line begins]; [|done].
    apply negb_true_iff in Hd. rewrite Hd.
    destruct (str_eqb _ _) eqn:E; [|done]. apply str_eqb_starts in E. congruence.
  - unfold store_pending. rewrite (run_line _ _ _ _ _ _ _ H). destruct pend as [l|]; cbn.
    + pose proof (running_store _ _ _ _ _ _ l _ H) as Hr.
      rewrite store_output_line in Hr.
      exact (running_line _ _ _ _ _ _ (Some (raw ++ nl)) _ Hr).
    + rewrite app_nil_r. by eapply running_line.
Qed.

Definition unlines (ls : list bytes) : bytes := concat (map (fun l => l ++ nl) ls).

Lemma scan_outputs token nonce max seen final ls rest log pend p :
  running token nonce max seen log pend p →
  Forall (fun l => 10 ∉ l) ls → forallb (quiet token nonce) ls = true →
  ∃ p' log' pend', scan_run final (unlines ls ++ rest) p = scan_run final rest p' ∧
    running token nonce max seen log' pend' p' ∧
    log' ++ default [] pend' = log ++ default [] pend ++ unlines ls.
Proof.
  revert log pend p. induction ls as [|l ls IH]; intros log pend p Hr Hn Hq.
  { exists p, log, pend. cbn. by rewrite app_nil_r. }
  apply Forall_cons in Hn as [Hl Hn]. cbn in Hq. apply andb_true_iff in Hq as [Hq Hqs].
  destruct (consume_output _ _ _ _ _ _ l p Hr Hq) as (p1 & Hc & Hr1).
  destruct (IH _ _ p1 Hr1 Hn Hqs) as (p' & log' & pend' & He & Hr' & Hlog).
  exists p', log', pend'. split; [|split; [done|]].
  - change (unlines (l :: ls)) with ((l ++ nl) ++ unlines ls).
    rewrite <- !app_assoc. cbn [app nl]. rewrite scan_run_line by done. by rewrite Hc.
  - rewrite Hlog. cbn. by rewrite <- !app_assoc.
Qed.

(** *** The markers that end a frame *)

(** No return, and so no line end, at the end of the last output line *)
Definition no_cr_end (l : bytes) : bool :=
  match rev l with c :: _ => negb (c =? 13) | [] => true end.

Lemma cr_newline_end_inv s t :
  rmatch CR_NEWLINE_END Some s = Some t →
  ∃ w rest, after s = w ++ 10 :: rest ∧ w ≠ [] ∧ forallb (one 13) w = true.
Proof.
  intros H. apply rmatch_sound in H as (s' & H & _). unfold CR_NEWLINE_END, RPlus in H.
  cbn [RSeqs] in H. apply lang_seq_inv in H as (s1 & H1 & H2).
  apply lang_seq_inv in H1 as (s2 & H1 & H3). apply lang_char_inv in H1 as (c & r & Hs & Hc & ->).
  apply lang_star_char in H3 as (w & r' & Hw & Hf & ->). cbn in Hw. subst r.
  apply lang_seq_inv in H2 as (s3 & H2 & _).
  apply lang_char_inv in H2 as (c' & r & Hr & Hc' & ->). cbn in Hr. subst r'.
  unfold one in Hc'. apply Z.eqb_eq in Hc'. subst c'.
  exists (c :: w), r. rewrite Hs. split; [done|]. split; [done|]. cbn [forallb].
  by rewrite Hc.
Qed.

Lemma cr_newline_end_absent l1 l2 b rest :
  10 ∉ l2 → l2 ≠ [] → no_cr_end (l1 ++ l2) = true →
  rmatch CR_NEWLINE_END Some (MState b (l2 ++ rest) []) = None.
Proof.
  intros Hn Hne Hcr. destruct (rmatch _ _ _) as [t|] eqn:E; [|done]. exfalso.
  apply cr_newline_end_inv in E as (w & r & Hw & Hwn & Hf). cbn in Hw.
  destruct l2 as [|x l2] using rev_ind; [done|]. clear IHl2.
  unfold no_cr_end in Hcr. rewrite app_assoc, rev_app_distr in Hcr. cbn in Hcr.
  apply negb_true_iff, Z.eqb_neq in Hcr.
  rewrite <- app_assoc in Hw. cbn in Hw.
  assert (x ∈ w) as Hx.
  { assert (Hlen : (length l2 < length w)%nat).
    { destruct (Nat.lt_ge_cases (length l2) (length w)) as [|Hge]; [done|]. exfalso.
      apply (f_equal (fun z => z !! length w)) in Hw.
      rewrite (lookup_app_r w) in Hw by lia. rewrite Nat.sub_diag in Hw. cbn in Hw.
      apply Hn. rewrite elem_of_app. destruct (Nat.lt_ge_cases (length w) (length l2)).
      - left. rewrite lookup_app_l in Hw by lia. by eapply list_elem_of_lookup_2.
      - right. rewrite lookup_app_r in Hw by lia. replace (length w - length l2)%nat with 0%nat in Hw
          by lia. cbn in Hw. injection Hw as ->. set_solver. }
    apply (f_equal (fun z => z !! length l2)) in Hw.
    rewrite lookup_app_r, Nat.sub_diag in Hw by lia. cbn in Hw.
    rewrite lookup_app_l in Hw by lia. symmetry in Hw. by eapply list_elem_of_lookup_2. }
  rewrite forallb_forall in Hf. apply list_elem_of_In in Hx. apply Hf in Hx.
  unfold one in Hx. apply Z.eqb_eq in Hx. congruence.
Qed.

Lemma flush_line l e p :
  10 ∉ l → no_cr_end l = true → line_end e →
  p_pending_output_line p = Some ((l ++ e) ++ nl) →
  flush_final_output_line p = store_output l (set_line None p).
Proof.
  intros Hn Hc He Hp. unfold flush_final_output_line. rewrite Hp. f_equal.
  unfold search, search_from, start_of. cbn [after]. rewrite <- app_assoc.
  rewrite search_skip; [|rewrite length_app; lia|].
  2:{ intros w1 w2 -> Hw. eapply cr_newline_end_absent; [set_solver|done|done]. }
  rewrite app_nil_r, length_app, Nat.add_comm, Nat.add_sub.
  destruct He as [->| ->].
  - change (search_fuel (length ([] ++ nl)) _ _) with (@None (nat * mstate)). cbn match.
    unfold ends_with. rewrite rev_app_distr. cbn [starts_with nl rev app Z.eqb Pos.eqb].
    apply removelast_end.
  - change (search_fuel (length (cr ++ nl)) CR_NEWLINE_END (MState (rev l) (cr ++ nl) []))
      with (Some (length (rev l), MState (10 :: 13 :: rev l) [] [])).
    cbn match. rewrite length_rev. apply take_app_length.
Qed.

Lemma exit_text_ok n : fullmatch EXIT_TEXT (show_int n) = true.
Proof.
  destruct (show_int_shape n) as (sign & ds & -> & Hs & Hne & Hd). apply fullmatch_lang.
  unfold EXIT_TEXT, ROpt, RPlus. exists (MState (rev ds ++ rev sign) [] []). split; [|done].
  apply lang_seq_inv. exists (MState (rev sign) ds []). split.
  - destruct Hs as [->| ->]; [apply lang_alt_r; constructor|].
    apply lang_alt_l, lang_char_inv. exists 45, ds. done.
  - destruct ds as [|d ds]; [done|]. cbn in Hd. apply andb_true_iff in Hd as [Hd Hds].
    apply lang_seq_inv. exists (MState (d :: rev sign) ds []). split.
    + apply lang_char_inv. exists d, ds. cbn. by rewrite digit_decimal.
    + apply lang_star_char. exists ds, []. cbn. rewrite app_nil_r, <- app_assoc.
      split; [done|]. split; [|done]. rewrite forallb_forall in *. intros x Hx.
      by apply digit_decimal, Hds.
Qed.

(** A marker line as the terminal delivers it *)
Definition marker_line (e : bytes) (t : str) : bytes := utf8_bytes t ++ e.

Lemma normalize_marker e t : plain t = true → line_end e → normalize_line (marker_line e t ++ nl) = t.
Proof. apply normalize_plain. Qed.

Lemma marker_line_no_newline e t : plain t = true → line_end e → 10 ∉ marker_line e t.
Proof.
  intros Ht He. unfold marker_line. rewrite elem_of_app. intros [H|H].
  - revert H. apply utf8_bytes_absent; [by apply plain_text_ok|lia|]. intros H.
    apply list_elem_of_In in H. unfold plain in Ht. rewrite forallb_forall in Ht.
    specialize (Ht _ H). discriminate.
  - destruct He as [->| ->]; set_solver.
Qed.

Lemma scan_marker final e t ts p :
  plain t = true → line_end e →
  scan_run final (unlines (map (marker_line e) (t :: ts))) p =
    match consume_line (marker_line e t ++ nl) p with
    | (Ret (Some r), p') =>
        (Ret (Some r), set_scan (unlines (map (marker_line e) ts)) p')
    | (Ret None, p') => scan_run final (unlines (map (marker_line e) ts)) p'
    | (Raise x, p') => (Raise x, set_scan (unlines (map (marker_line e) ts)) p')
    | (Hang, p') => (Hang, set_scan (unlines (map (marker_line e) ts)) p')
    end.
Proof.
  intros Ht He. cbn [map]. change (unlines (?a :: ?b)) with ((a ++ nl) ++ unlines b).
  rewrite <- app_assoc. cbn [app nl]. apply scan_run_line. by apply marker_line_no_newline.
Qed.

Lemma starts_with_app_cons a b c : starts_with a (a ++ b ++ c) = true.
Proof. apply starts_with_app. Qed.

Section markers.
Context (token : str) (max : Z) (e l : bytes).
Context (Htok : plain token = true) (He : line_end e) (Hl : 10 ∉ l) (Hcr : no_cr_end l = true).

Lemma plain_app a b : plain (a ++ b) = plain a && plain b.
Proof. apply forallb_app. Qed.

Lemma consume_debug nonce log p :
  running token (Some nonce) max false log (Some ((l ++ e) ++ nl)) p →
  consume_line (marker_line e (debug_marker token) ++ nl) p =
    (Ret None, set_probe true false (store_output l (set_line None p))).
Proof.
  intros H. unfold consume_line, consume_before_exit. unfold_prog.
  rewrite normalize_marker; [|by unfold debug_marker; rewrite !plain_app, Htok|done].
  rewrite (run_started _ _ _ _ _ _ _ H), (run_exit _ _ _ _ _ _ _ H). cbn [negb].
  rewrite (run_probe _ _ _ _ _ _ _ H). unfold p_debug_begin.
  rewrite (run_nonce _ _ _ _ _ _ _ H), (run_token _ _ _ _ _ _ _ H).
  cbn [fmap option_fmap option_map is_line]. unfold str_eqb. rewrite bool_decide_true by done.
  rewrite (run_seen _ _ _ _ _ _ _ H).
  by rewrite (flush_line l e) by (done || apply (run_line _ _ _ _ _ _ _ H)).
Qed.

Lemma consume_debug_end nonce log p :
  running token (Some nonce) max false log None p →
  consume_line (marker_line e (debug_end_marker token) ++ nl) (set_probe true false p) =
    (Ret None, set_probe false true p).
Proof.
  intros H. unfold consume_line, consume_before_exit. unfold_prog.
  rewrite normalize_marker; [|by unfold debug_end_marker; rewrite !plain_app, Htok|done].
  cbn [set_probe p_started p_pending_exit p_in_debug_probe].
  rewrite (run_started _ _ _ _ _ _ _ H), (run_exit _ _ _ _ _ _ _ H). cbn [negb].
  unfold p_debug_end. cbn [set_probe p_nonce p_token p_in_debug_probe].
  rewrite (run_nonce _ _ _ _ _ _ _ H), (run_token _ _ _ _ _ _ _ H).
  cbn [fmap option_fmap option_map is_line]. unfold str_eqb. by rewrite bool_decide_true by done.
Qed.

Lemma consume_end nonce log code p :
  running token nonce max true log (Some ((l ++ e) ++ nl)) p →
  (Z.to_nat (Z.log2 (Z.abs code)) < 4300)%nat →
  plain (show_int code) = true →
  consume_line (marker_line e (end_marker token ++ u ":" ++ show_int code) ++ nl) p =
    (Ret None, set_exit code (store_output l (set_line None p))).
Proof.
  intros H Hc Hp. unfold consume_line, consume_before_exit. unfold_prog.
  rewrite normalize_marker; [|by unfold end_marker; rewrite !plain_app, Htok, Hp|done].
  rewrite (run_started _ _ _ _ _ _ _ H), (run_exit _ _ _ _ _ _ _ H). cbn [negb].
  rewrite (run_probe _ _ _ _ _ _ _ H). unfold p_debug_begin, p_end_prefix.
  rewrite (run_nonce _ _ _ _ _ _ _ H), (run_token _ _ _ _ _ _ _ H).
  rewrite (run_seen _ _ _ _ _ _ _ H). cbn [negb].
  assert (∀ t, is_line (Some (debug_marker t)) (end_marker token ++ u ":" ++ show_int code) = false
             ∧ begins (Some (debug_marker t)) (end_marker token ++ u ":" ++ show_int code) = false)
    as Hd.
  { intros t. split; [|reflexivity]. cbn [is_line]. unfold str_eqb. by apply bool_decide_false. }
  replace (is_line _ _) with false by (destruct nonce; cbn [fmap option_fmap option_map];
                                       [by rewrite (proj1 (Hd token))|done]).
  replace (begins _ _) with false by (destruct nonce; cbn [fmap option_fmap option_map];
                                       [by rewrite (proj2 (Hd token))|done]).
  rewrite app_assoc, starts_with_app, drop_prefix, exit_text_ok. cbn [negb].
  rewrite parse_show_int by done.
  by rewrite (flush_line l e) by (done || apply (run_line _ _ _ _ _ _ _ H)).
Qed.

Lemma consume_cwd nonce log code path p :
  running token nonce max true log None p → plain path = true →
  consume_line (marker_line e (cwd_marker token ++ u ":" ++ path) ++ nl) (set_exit code p) =
    match nonce with
    | None => (Ret (Some (Result (decode_output (p_output p)) code path (p_truncated p))),
               set_done (set_cwd path (set_exit code p)))
    | Some _ => (Ret None, set_cwd path (set_exit code p))
    end.
Proof.
  intros H Hp. unfold consume_line, complete. unfold_prog.
  rewrite normalize_marker; [|by unfold cwd_marker; rewrite !plain_app, Htok, Hp|done].
  cbn [set_exit p_started p_pending_exit p_pending_cwd].
  rewrite (run_started _ _ _ _ _ _ _ H), (run_cwd _ _ _ _ _ _ _ H). cbn [negb].
  unfold p_cwd_prefix, p_health_line. cbn [set_exit p_token p_nonce].
  rewrite (run_nonce _ _ _ _ _ _ _ H), (run_token _ _ _ _ _ _ _ H).
  rewrite app_assoc, starts_with_app, drop_prefix. by destruct nonce.
Qed.

Lemma consume_health nonce log code path p :
  running token (Some nonce) max true log None p → plain nonce = true →
  consume_line (marker_line e (health_marker token ++ u ":" ++ nonce) ++ nl)
    (set_cwd path (set_exit code p)) =
  (Ret (Some (Result (decode_output (p_output p)) code path (p_truncated p))),
   set_done (set_cwd path (set_exit code p))).
Proof.
  intros H Hp. unfold consume_line, complete. unfold_prog.
  rewrite normalize_marker; [|by unfold health_marker; rewrite !plain_app, Htok, Hp|done].
  cbn [set_cwd set_exit p_started p_pending_exit p_pending_cwd].
  rewrite (run_started _ _ _ _ _ _ _ H). cbn [negb].
  unfold p_health_line. cbn [set_cwd set_exit p_token p_nonce].
  rewrite (run_nonce _ _ _ _ _ _ _ H), (run_token _ _ _ _ _ _ _ H).
  cbn [fmap option_fmap option_map is_line]. unfold str_eqb. by rewrite bool_decide_true by done.
Qed.

(** The marker lines after the output, as the wrapper's shell prints them *)
Definition frame_tail (nonce : option str) (code : Z) (path : str) : list str :=
  match nonce with
  | None => []
  | Some _ => [debug_marker token; debug_end_marker token; []]
  end
  ++ [end_marker token ++ u ":" ++ show_int code; cwd_marker token ++ u ":" ++ path]
  ++ match nonce with None => [] | Some n => [health_marker token ++ u ":" ++ n] end.

Lemma show_int_plain n : plain (show_int n) = true.
Proof.
  destruct (show_int_shape n) as (sign & ds & -> & Hs & _ & Hd). rewrite plain_app.
  replace (plain sign) with true by (by destruct Hs as [->| ->]). cbn.
  unfold plain. rewrite forallb_forall in *. intros c Hc. specialize (Hd c Hc).
  unfold ascii_digit in Hd. boolean. unfold plain_char, code_point, surrogate. zcmp. done.
Qed.

Lemma scan_end final nonce log code path p :
  running token nonce max true log (Some ((l ++ e) ++ nl)) p →
  (Z.to_nat (Z.log2 (Z.abs code)) < 4300)%nat → plain path = true →
  match nonce with None => True | Some n => plain n = true end →
  (scan_run final (unlines (map (marker_line e)
     ([end_marker token ++ u ":" ++ show_int code; cwd_marker token ++ u ":" ++ path]
      ++ match nonce with None => [] | Some n => [health_marker token ++ u ":" ++ n] end))) p).1 =
  Ret (Some (Result (decode_output (drop (Z.to_nat (len (log ++ l) - max)) (log ++ l)))
               code path (max <? len (log ++ l)))).
Proof.
  intros H Hc Hp Hn. cbn [app]. pose proof (show_int_plain code) as Hs.
  rewrite scan_marker; [|by unfold end_marker; rewrite !plain_app, Htok, Hs|done].
  rewrite (consume_end nonce log) by done.
  pose proof (running_store _ _ _ _ _ _ l _ H) as H1.
  rewrite scan_marker; [|by unfold cwd_marker; rewrite !plain_app, Htok, Hp|done].
  rewrite (consume_cwd nonce _ _ _ _ H1) by done.
  destruct (run_stored _ _ _ _ _ _ _ H1) as [_ Ho Ht].
  rewrite (run_max _ _ _ _ _ _ _ H1) in Ho, Ht.
  destruct nonce as [n|]; [|by rewrite Ho, Ht].
  rewrite scan_marker; [|by unfold health_marker; rewrite !plain_app, Htok, Hn|done].
  rewrite (consume_health _ _ _ _ _ H1) by done. cbn [fst]. by rewrite Ho, Ht.
Qed.

End markers.

Lemma scan_tail token max e l final nonce log code path p :
  plain token = true → line_end e → 10 ∉ l → no_cr_end l = true →
  running token nonce max (match nonce with None => true | Some _ => false end) log
    (Some ((l ++ e) ++ nl)) p →
  (Z.to_nat (Z.log2 (Z.abs code)) < 4300)%nat → plain path = true →
  match nonce with None => True | Some n => plain n = true end →
  (scan_run final (unlines (map (marker_line e) (frame_tail token nonce code path))) p).1 =
  Ret (Some (Result (decode_output (drop (Z.to_nat (len (log ++ l) - max)) (log ++ l)))
               code path (max <? len (log ++ l)))).
Proof.
  intros Htok He Hl Hcr H Hc Hp Hn. unfold frame_tail.
  destruct nonce as [n|]; [|by apply (scan_end token max e l Htok He Hl Hcr final None)].
  cbn [app]. rewrite scan_marker; [|by unfold debug_marker; rewrite !plain_app, Htok|done].
  rewrite (consume_debug token max e l Htok He Hl Hcr n log) by done.
  pose proof (running_store _ _ _ _ _ _ l _ H) as H1.
  rewrite scan_marker; [|by unfold debug_end_marker; rewrite !plain_app, Htok|done].
  rewrite (consume_debug_end token max e Htok He n _ _ H1).
  assert (H2 : running token (Some n) max true (log ++ l) None
                 (set_probe false true (store_output l (set_line None p)))).
  { destruct H1 as [? ? ? [? ? ?] ? ? ? ? ? ?]. by repeat split. }
  rewrite scan_marker by done. change (marker_line e []) with (e : bytes).
  destruct (consume_output token (Some n) max true _ _ e _ H2) as (p3 & -> & H3).
  { destruct He as [->| ->]; reflexivity. }
  cbn [default] in H3. rewrite app_nil_r in H3.
  pose proof (scan_end token max e [] Htok He ltac:(set_solver) eq_refl final (Some n) (log ++ l)
                code path p3 H3 Hc Hp Hn) as Hend.
  by rewrite app_nil_r in Hend.
Qed.

(** *** Before the frame *)
Definition ignored (token : str) (raw : bytes) : bool :=
  negb (starts_with (begin_marker token) (normalize_line (raw ++ nl))).

Lemma consume_ignored raw p :
  p_started p = false → ignored (p_token p) raw = true → consume_line (raw ++ nl) p = (Ret None, p).
Proof.
  intros Hs Hi. unfold consume_line, p_begin. unfold_prog. rewrite Hs. cbn [negb].
  unfold ignored in Hi. apply negb_true_iff in Hi. rewrite Hi.
  destruct (str_eqb _ _) eqn:E; [|done]. apply str_eqb_starts in E. congruence.
Qed.

Lemma scan_ignored final pre rest p :
  p_started p = false → Forall (fun l => 10 ∉ l) pre → forallb (ignored (p_token p)) pre = true →
  scan_run final (unlines pre ++ rest) p = scan_run final rest p.
Proof.
  induction pre as [|l pre IH]; intros Hs Hn Hi; [done|].
  apply Forall_cons in Hn as [Hl Hn]. cbn in Hi. apply andb_true_iff in Hi as [Hi His].
  change (unlines (l :: pre)) with ((l ++ nl) ++ unlines pre).
  rewrite <- !app_assoc. cbn [app nl]. rewrite scan_run_line by done.
  rewrite consume_ignored by done. auto.
Qed.

Lemma new_parser_inv token max nonce p :
  new_parser token max nonce = Ok p →
  1 <= max ∧
  p = Parser token nonce max [] [] false false false None None None false
        (match nonce with None => true | Some _ => false end).
Proof.
  unfold new_parser. intros H. inv_ok H. destruct (Z.ltb_spec max 1); [done|].
  by injection H as <-.
Qed.

End framing_facts.

(** ** What a result presupposes *)
Section completeness.
Context {U : UnicodeDB} (token : str) (nonce : option str).

(** A line as the parser consumed it: what [bound_partial_line] had already
    given out as output, and the rest, which is read as a line. *)
Record frame_line := FrameLine { line_cut : bytes; line_kept : bytes }.
Definition line_text (l : frame_line) : str := normalize_line (line_kept l ++ nl).
Definition line_whole (l : frame_line) : Prop := line_cut l = [].
Definition line_raw (l : frame_line) : bytes := line_cut l ++ line_kept l.
(** Only a line that is longer than the limit is cut, and keeps as much. *)
Definition line_ok (l : frame_line) : Prop := 10 ∉ line_raw l ∧ (line_whole l ∨ PARTIAL_LINE_LIMIT <= len (line_kept l)).
Definition raw_lines (h : list frame_line) : bytes := unlines (map line_raw h).

(** The DEBUG probe: its two markers with nothing but blank lines between *)
Definition has_probe (mid : list str) : Prop :=
  match nonce with
  | None => True
  | Some _ => ∃ a blanks b, mid = a ++ debug_marker token :: blanks ++ debug_end_marker token :: b ∧
                            Forall (eq []) blanks
  end.
Definition open_probe (mid : list str) : Prop :=
  ∃ a blanks, mid = a ++ debug_marker token :: blanks ∧ Forall (eq []) blanks.

(** The lines consumed so far, when they lead to a result [r] *)
Definition full_frame (h : list frame_line) (r : CommandResult) : Prop :=
  ∃ pre start mid exit post digits,
    h = pre ++ start :: mid ++ exit :: post ∧
    Forall line_whole (pre ++ [start]) ∧ Forall line_whole post ∧
    begin_marker token ∉ map line_text pre ∧ line_text start = begin_marker token ∧ has_probe (map line_text mid) ∧
    line_text exit = end_marker token ++ u ":" ++ digits ∧
    fullmatch EXIT_TEXT digits = true ∧ parse_int digits = Some (exit_code r) ∧
    map line_text post = (cwd_marker token ++ u ":" ++ cwd r)
      :: match nonce with None => [] | Some n => [health_marker token ++ u ":" ++ n] end.

(** The same, on the way there *)
Definition before_exit (mid : list str) (p : CommandFrameParser) : Prop :=
  p_pending_cwd p = None ∧
  (p_in_debug_probe p = true → nonce ≠ None ∧ open_probe mid) ∧
  (p_debug_probe_seen p = true → has_probe mid).
Definition after_exit (post : list str) (n : Z) (c : option str) : Prop :=
  ∃ digits, fullmatch EXIT_TEXT digits = true ∧ parse_int digits = Some n ∧
    post = (end_marker token ++ u ":" ++ digits)
           :: match c with None => [] | Some c => [cwd_marker token ++ u ":" ++ c] end.
Definition progress (h : list frame_line) (p : CommandFrameParser) : Prop :=
  p_token p = token ∧ p_nonce p = nonce ∧
  if p_started p then
    ∃ pre start mid post, h = pre ++ start :: mid ++ post ∧ Forall line_whole (pre ++ [start]) ∧
      begin_marker token ∉ map line_text pre ∧ line_text start = begin_marker token ∧
      match p_pending_exit p with
      | None => post = [] ∧ before_exit (map line_text mid) p
      | Some n => has_probe (map line_text mid) ∧ after_exit (map line_text post) n (p_pending_cwd p) ∧
                  (p_pending_cwd p ≠ None → nonce ≠ None) ∧ Forall line_whole (tail post)
      end
  else Forall line_whole h ∧ begin_marker token ∉ map line_text h ∧ p_pending_exit p = None ∧ before_exit [] p.
(** Where a line may have been cut *)
Definition cuttable (p : CommandFrameParser) : Prop := p_started p = true ∧ p_pending_exit p = None.

Lemma str_eqb_eq a b : str_eqb a b = true → a = b.
Proof. unfold str_eqb. intros H. by boolean. Qed.

Lemma starts_with_split a b : starts_with a b = true → b = a ++ drop (length a) b.
Proof. intros H. apply starts_with_spec in H as [t ->]. by rewrite drop_prefix. Qed.

(** Storing output changes none of the fields above. *)
Lemma flush_shape p : ∃ o t, flush_final_output_line p = set_output o t (set_line None p).
Proof.
  unfold flush_final_output_line. case_match; [apply store_output_shape|].
  destruct p; cbn. by do 2 eexists.
Qed.
Lemma store_pending_shape p : ∃ o t, store_pending p = set_output o t p.
Proof.
  unfold store_pending. case_match; [apply store_output_shape|]. destruct p; cbn. by do 2 eexists.
Qed.

Lemma probe_grows mid l : has_probe mid → has_probe (mid ++ [l]).
Proof.
  unfold has_probe. destruct nonce; [|done]. intros (a & bl & b & -> & ?).
  exists a, bl, (b ++ [l]). split; [|done]. by rewrite <- !app_assoc; cbn; rewrite <- app_assoc.
Qed.

Lemma open_probe_blank mid : open_probe mid → open_probe (mid ++ [[]]).
Proof.
  intros (a & bl & -> & Hb). exists a, (bl ++ [[]]). split; [by rewrite <- app_assoc|].
  apply Forall_app. by repeat constructor.
Qed.

Lemma open_probe_close n mid :
  nonce = Some n → open_probe mid → has_probe (mid ++ [debug_end_marker token]).
Proof.
  unfold has_probe. intros ->. intros (a & bl & -> & Hb). exists a, bl, [].
  split; [|done]. by rewrite <- app_assoc.
Qed.

(** A line before the exit marker: it extends the middle part, or it is the
    exit marker. *)
Lemma before_exit_step mid raw line p p' :
  p_token p = token → p_nonce p = nonce → before_exit mid p → p_pending_exit p = None →
  consume_before_exit raw line p = (Ret None, p') →
  p_token p' = token ∧ p_nonce p' = nonce ∧ p_started p' = p_started p ∧
  match p_pending_exit p' with
  | None => before_exit (mid ++ [line]) p'
  | Some n => has_probe mid ∧ after_exit [line] n (p_pending_cwd p') ∧ p_pending_cwd p' = None
  end.
Proof.
  intros Ht Hn (Hc & Hin & Hseen) He. unfold consume_before_exit, frame_error. unfold_prog.
  destruct (flush_shape p) as (o & t & Hf). rewrite Hf.
  destruct (store_pending_shape p) as (o' & t' & Hs). rewrite Hs.
  unfold p_debug_end, p_debug_begin, p_end_prefix. rewrite Ht, Hn.
  assert (Hg : before_exit (mid ++ [line]) (set_output o t (set_line None p)) ∨
               p_in_debug_probe p = true).
  { destruct (p_in_debug_probe p) eqn:E; [by right|left]. split; [done|].
    split; cbn; [by rewrite E|]. intros. by apply probe_grows, Hseen. }
  destruct (p_in_debug_probe p) eqn:Ein.
  - destruct (Hin eq_refl) as [Hno Hop]. destruct nonce as [n|] eqn:En; [|done]. cbn.
    destruct (str_eqb line _) eqn:El.
    + intros [= <-]. apply str_eqb_eq in El. subst line. cbn. rewrite He.
      split_and!; try done. split; [done|]. split; [done|]. intros _.
      by eapply open_probe_close.
    + destruct line; [|done]. intros [= <-]. rewrite He. split_and!; try done.
      split; [done|]. split; intros; [split; [congruence|by apply open_probe_blank]|].
      by apply probe_grows, Hseen.
  - destruct Hg as [Hg|]; [|done]. destruct Hg as (Hg1 & Hg2 & Hg3). cbn in Hg1, Hg3.
    destruct (is_line _ line) eqn:El.
    { intros [= <-]. cbn. rewrite He. split_and!; try done. split; [done|].
      destruct nonce as [n|] eqn:En; [|done]. cbn in El. apply str_eqb_eq in El. subst line.
      split; [|done]. intros _. split; [congruence|]. by exists mid, []. }
    destruct (begins _ line); [done|].
    destruct (starts_with (end_marker token ++ u ":") line) eqn:Ee.
    + destruct (p_debug_probe_seen p); [|done]. cbn [negb].
      destruct (fullmatch EXIT_TEXT _) eqn:Ex; [|done]. cbn [negb].
      destruct (parse_int _) as [n|] eqn:Ep; [|done]. intros [= <-]. cbn.
      split_and!; auto. rewrite Hc. eexists. split; [exact Ex|]. split; [exact Ep|].
      f_equal. rewrite app_assoc. by apply starts_with_split.
    + intros [= <-]. cbn. rewrite He. by split_and!.
Qed.

Lemma complete_inv p r p' :
  complete p = (Ret r, p') →
  p_pending_exit p = Some (exit_code r) ∧ p_pending_cwd p = Some (cwd r).
Proof. unfold complete. unfold_prog. repeat case_match; try done. by intros [= <- <-]. Qed.

Lemma app_last {A} (l : list A) x y : l ++ x :: [y] = (l ++ [x]) ++ [y].
Proof. by rewrite <- app_assoc. Qed.

Lemma consume_progress h l p r p' :
  progress h p → (line_whole l ∨ cuttable p) → consume_line (line_kept l ++ nl) p = (Ret r, p') →
  match r with
  | None => progress (h ++ [l]) p'
  | Some r => full_frame (h ++ [l]) r
  end.
Proof.
  intros (Ht & Hn & Hp) Hl. unfold consume_line, frame_error. unfold_prog.
  fold (line_text l). unfold p_begin, p_cwd_prefix, p_health_line. rewrite Ht, Hn.
  destruct (p_started p) eqn:Es; cbn [negb].
  2:{ destruct Hl as [Hl|[? _]]; [|congruence]. destruct Hp as (Hw & Hh & He & Hb). destruct (str_eqb (line_text l) _) eqn:El.
      - intros [= <- <-]. apply str_eqb_eq in El. split_and!; try done. cbn.
        exists h, l, [], []. rewrite He. split_and!; try done. apply Forall_app. by repeat constructor.
      - destruct (starts_with _ (line_text l)); [done|]. intros [= <- <-]. split_and!; try done.
        rewrite Es. split; [apply Forall_app; by repeat constructor|]. split; [|done].
        rewrite map_app, elem_of_app. cbn [map]. rewrite list_elem_of_singleton.
        intros [|Hbl]; [done|]. unfold str_eqb in El. boolean. by rewrite Hbl in El. }
  destruct Hp as (pre & start & mid & post & -> & Hw & Hpre & Hst & Hp).
  destruct (p_pending_exit p) as [n|] eqn:He.
  2:{ destruct Hp as [-> Hb]. intros Hc. destruct r as [r|].
      { destruct (consume_before_exit_done (line_kept l ++ nl) (line_text l) p) as [_ Hd]. rewrite Hc in Hd.
        by destruct (Hd r). }
      destruct (before_exit_step (map line_text mid) (line_kept l ++ nl) (line_text l) p p' Ht Hn Hb He Hc) as (? & ? & Hs & Hm).
      split_and!; try done. rewrite Hs, Es. exists pre, start.
      destruct (p_pending_exit p') as [n|].
      - exists mid, [l]. destruct Hm as (? & ? & Hcw). rewrite Hcw in *. split_and!; try done.
        by rewrite app_nil_r, <- app_assoc.
      - exists (mid ++ [l]), []. rewrite map_app. split_and!; try done. by rewrite !app_nil_r, <- app_assoc. }
  destruct Hl as [Hl|[_ ?]]; [|congruence].
  destruct Hp as (Hprobe & (digits & Hx & Hd & Hpost) & Hcn & Hwp).
  destruct post as [|exit post]; [done|]. cbn [map] in Hpost. pose proof (f_equal (hd []) Hpost) as Hexit. cbn [hd] in Hexit.
  apply (f_equal tail) in Hpost. cbn [tail] in Hpost, Hwp.
  destruct (p_pending_cwd p) as [c|] eqn:Hc.
  - destruct nonce as [nn|] eqn:En; [|by destruct Hcn]. cbn [fmap option_fmap option_map is_line].
    destruct (str_eqb (line_text l) _) eqn:El; [|done]. apply str_eqb_eq in El. cbn [negb].
    destruct (complete p) as [[r'| |] p1] eqn:Eq; try done. intros [= <- <-].
    apply complete_inv in Eq as [E1 E2]. simplify_eq. exists pre, start, mid, exit, (post ++ [l]), digits.
    split_and!; try done; try congruence; [by rewrite <- !app_assoc; cbn; rewrite <- app_assoc|apply Forall_app; by repeat constructor|].
    rewrite map_app, Hpost. cbn [map app]. rewrite El, En. congruence.
  - destruct (starts_with _ (line_text l)) eqn:Eb; [|done]. cbn [negb].
    apply starts_with_spec in Eb as [cw Hcw]. rewrite Hcw, drop_prefix. rewrite <- !app_assoc in Hcw.
    destruct post; [|done].
    destruct nonce as [nn|] eqn:En; cbn [fmap option_fmap option_map].
    + intros [= <- <-]. split_and!; [done|by rewrite En|]. unfold set_cwd. cbn [p_started p_pending_exit p_pending_cwd]. rewrite Es, He.
      exists pre, start, mid, [exit; l]. split_and!; try done.
      * by rewrite <- !app_assoc; cbn; rewrite <- app_assoc.
      * exists digits. cbn [map]. by rewrite Hexit, Hcw.
      * by rewrite En.
      * by repeat constructor.
    + destruct (complete _) as [[r'| |] p1] eqn:Eq; try done. intros [= <- <-].
      apply complete_inv in Eq as [E1 E2]. cbn in E1, E2. simplify_eq. exists pre, start, mid, exit, [l], digits.
      split_and!; try done; try congruence; [by rewrite <- app_assoc; cbn; rewrite <- app_assoc|by repeat constructor|].
      cbn [map]. by rewrite Hcw, En.
Qed.

(** Output, the scan buffer and the pending line do not matter here. *)
Definition frame_state (p : CommandFrameParser) :=
  (p_token p, p_nonce p, p_started p, p_done p, p_pending_exit p, p_pending_cwd p, p_in_debug_probe p, p_debug_probe_seen p).
Lemma progress_state h p p' : frame_state p' = frame_state p → progress h p → progress h p'.
Proof.
  unfold frame_state, progress, before_exit. intros [= -> -> -> _ -> -> -> ->]. done.
Qed.
Lemma cuttable_state p p' : frame_state p' = frame_state p → cuttable p → cuttable p'.
Proof. unfold frame_state, cuttable. by intros [= _ _ -> _ -> _ _ _]. Qed.

(** The first line of a buffer, or what there is of it *)
Definition front (s : bytes) : bytes := match partition_at 10 s with Some (raw, _) => raw | None => s end.
Lemma front_app s d : 10 ∉ s → len s <= len (front (s ++ d)).
Proof.
  intros Hs. unfold front. destruct (partition_at 10 (s ++ d)) as [[raw rest]|] eqn:E; [|unfold len; rewrite length_app; lia].
  apply partition_at_Some in E as [E Hr]. revert raw E Hr. induction s as [|x s IH]; intros raw E Hr; [unfold len; cbn; lia|].
  destruct raw as [|y raw]; [injection E as -> _; set_solver|]. injection E as -> E.
  specialize (IH ltac:(set_solver) raw E ltac:(set_solver)). unfold len in *. cbn. lia.
Qed.
(** [cut] was taken off the line that [s] starts with. *)
Definition cut_before (cut s : bytes) (p : CommandFrameParser) : Prop :=
  10 ∉ cut ∧ (cut = [] ∨ cuttable p ∧ PARTIAL_LINE_LIMIT <= len s).
(** How far the parser is after the bytes [data], of which [h] are the lines *)
Definition read_so_far (data : bytes) (h : list frame_line) (p : CommandFrameParser) : Prop :=
  p_done p = false ∧ 10 ∉ p_scan p ∧ Forall line_ok h ∧ progress h p ∧
  ∃ cut, data = raw_lines h ++ cut ++ p_scan p ∧ cut_before cut (p_scan p) p.

Lemma raw_lines_app h l : raw_lines (h ++ [l]) = raw_lines h ++ line_raw l ++ nl.
Proof. unfold raw_lines, unlines. by rewrite !map_app, concat_app; cbn; rewrite app_nil_r. Qed.

(** The bound on a partial line takes its beginning away, which is output. *)
Lemma bound_partial_state cut s p p' :
  cut_before cut s p → 10 ∉ s → bound_partial_line (set_scan s p) = (Ret tt, p') →
  frame_state p' = frame_state p ∧
  ∃ cut', cut ++ s = cut' ++ p_scan p' ∧ 10 ∉ p_scan p' ∧ cut_before cut' (p_scan p') p'.
Proof.
  intros [Hc Hcut] Hs. unfold bound_partial_line, frame_error. unfold_prog.
  change (p_started (set_scan s p)) with (p_started p). change (p_pending_exit (set_scan s p)) with (p_pending_exit p).
  change (p_scan (set_scan s p)) with s.
  assert (∀ q, q = set_scan s p → frame_state q = frame_state p ∧
    ∃ cut', cut ++ s = cut' ++ p_scan q ∧ 10 ∉ p_scan q ∧ cut_before cut' (p_scan q) q) as Hsame.
  { intros q ->. split; [done|]. exists cut. split; [done|]. split; [done|]. split; [done|].
    destruct Hcut as [|[? ?]]; [by left|right]. split; [|done]. by apply (cuttable_state p). }
  destruct (negb (p_started p) || bool_decide (is_Some (p_pending_exit p))) eqn:E.
  - destruct (PARTIAL_LINE_LIMIT <? len s); [done|]. intros [= <-]. by apply Hsame.
  - destruct (PARTIAL_LINE_LIMIT <? len s) eqn:El; [|intros [= <-]; by apply Hsame].
    intros [= <-]. apply Z.ltb_lt in El. destruct (store_pending_shape (set_scan s p)) as (o & tr & Hst). rewrite Hst.
    match goal with |- context [store_output ?d ?q] => destruct (store_output_shape d q) as (o' & t' & ->) end.
    split; [done|]. exists (cut ++ take (Z.to_nat (len s - PARTIAL_LINE_LIMIT)) s). cbn [p_scan set_scan].
    rewrite <- app_assoc, take_drop. split; [done|].
    assert (10 ∉ take (Z.to_nat (len s - PARTIAL_LINE_LIMIT)) s ∧ 10 ∉ drop (Z.to_nat (len s - PARTIAL_LINE_LIMIT)) s) as [Ht Hd]
      by (rewrite <- (take_drop (Z.to_nat (len s - PARTIAL_LINE_LIMIT)) s) in Hs; set_solver).
    split; [done|]. split; [set_solver|]. right. split.
    + apply (cuttable_state p); [done|]. apply orb_false_iff in E as [E1 E2]. apply negb_false_iff in E1.
      apply bool_decide_eq_false in E2. split; [done|]. destruct (p_pending_exit p); [by destruct E2|done].
    + unfold len in *. rewrite length_drop. unfold PARTIAL_LINE_LIMIT in *. lia.
Qed.

Lemma scan_progress s cut h p :
  p_done p = false → progress h p → Forall line_ok h → cut_before cut (front s) p →
  match scan_run false s p with
  | (Ret (Some r), _) => ∃ h' rest, raw_lines h ++ cut ++ s = raw_lines h' ++ rest ∧ Forall line_ok h' ∧ full_frame h' r
  | (Ret None, p') => ∃ h', read_so_far (raw_lines h ++ cut ++ s) h' p'
  | _ => True
  end.
Proof.
  remember (length s) as n eqn:Hl. revert s cut h p Hl.
  induction (lt_wf n) as [n _ IH]. intros s cut h p -> Hd Hp Hh [Hc Hcut]. unfold front in Hcut.
  destruct (partition_at 10 s) as [[raw rest]|] eqn:E.
  - apply partition_at_Some in E as [-> Hr]. rewrite scan_run_line by done.
    destruct (consume_line (raw ++ nl) p) as [o p1] eqn:Ec.
    set (l := FrameLine cut raw).
    assert (line_ok l) as Hok.
    { split; [unfold line_raw; cbn; set_solver|]. destruct Hcut as [->|[_ Hcut]]; [by left|by right]. }
    assert (line_whole l ∨ cuttable p) as Hwhole by (destruct Hcut as [->|[? _]]; [by left|by right]).
    assert (raw_lines h ++ cut ++ raw ++ 10 :: rest = raw_lines (h ++ [l]) ++ rest) as Heq.
    { rewrite raw_lines_app. unfold line_raw. cbn. by rewrite <- !app_assoc. }
    destruct o as [r1| |]; try done. pose proof (consume_progress _ _ _ _ _ Hp Hwhole Ec) as Hs.
    assert (Forall line_ok (h ++ [l])) as Hh' by (apply Forall_app; split; [done|]; by constructor).
    destruct r1 as [r1|]; [by exists (h ++ [l]), rest|].
    specialize (IH (length rest) ltac:(rewrite length_app; cbn; lia) rest [] (h ++ [l]) p1 eq_refl).
    apply consume_line_done in Ec. rewrite Heq. apply IH; [congruence|done|done|]. split; [set_solver|by left].
  - apply partition_at_None in E. unfold scan_run. rewrite feed_loop_stop by done.
    unfold mbind, prog_mbind, prog_bind. destruct (bound_partial_line (set_scan s p)) as [[[]|e|] p'] eqn:Eb; [|done..].
    destruct (bound_partial_state cut s p p' ltac:(by split) E Eb) as (Hst & cut' & Heq & Hn & Hcut'). cbn.
    exists h. split_and!; [by apply (f_equal (fun x => x.1.1.1.1.2)) in Hst; cbn in Hst; congruence|done|done|by eapply progress_state|].
    exists cut'. by rewrite Heq.
Qed.

Lemma feed_progress data h d p :
  read_so_far data h p →
  match feed d false p with
  | (Ret (Some r), _) => ∃ h' rest, data ++ d = raw_lines h' ++ rest ∧ Forall line_ok h' ∧ full_frame h' r
  | (Ret None, p') => ∃ h', read_so_far (data ++ d) h' p'
  | _ => True
  end.
Proof.
  intros (Hd & Hn & Hh & Hp & cut & -> & Hc & Hcut). rewrite feed_run by done. rewrite <- !app_assoc.
  apply scan_progress; [done..|]. split; [done|]. destruct Hcut as [|[? ?]]; [by left|right]. split; [done|].
  pose proof (front_app (p_scan p) d Hn). lia.
Qed.
Lemma chunks_progress l data h p r p' :
  read_so_far data h p → feed_chunks l p = (Ret (Some r), p') →
  ∃ h' rest, data ++ concat l = raw_lines h' ++ rest ∧ Forall line_ok h' ∧ full_frame h' r.
Proof.
  revert data h p. induction l as [|d l IH]; intros data h p Hp; [done|]. cbn [feed_chunks concat].
  unfold mbind, prog_mbind, prog_bind. pose proof (feed_progress data h d p Hp) as Hf.
  destruct (feed d false p) as [[[r1|]|e|] p1]; [|..|done|done].
  - intros [= <- <-]. destruct Hf as (h' & rest & Heq & ?). exists h', (rest ++ concat l).
    by rewrite app_assoc, Heq, <- app_assoc.
  - destruct Hf as [h' Hf]. intros H. rewrite app_assoc. by eapply IH.
Qed.
Lemma new_parser_reads max p : new_parser token max nonce = Ok p → read_so_far [] [] p.
Proof.
  intros H. apply new_parser_inv in H as [_ ->]. split_and!; [done|cbn; set_solver|done| |].
  - split; [done|]. split; [done|]. cbn. split; [done|]. split; [set_solver|]. do 3 (split; [done|]). unfold has_probe. by destruct nonce.
  - exists []. split; [done|]. split; [set_solver|by left].
Qed.

End completeness.

(** What the terminal shows for one framed command: lines before the frame, the
    begin marker, the command's output [unlines ls ++ l], and the markers the
    completion part of the wrapper prints, with line ends [e ++ nl]. *)
Definition transcript (token : str) (nonce : option str) (e : bytes) (pre ls : list bytes)
    (l : bytes) (code : Z) (path : str) : bytes :=
  unlines pre ++ (marker_line e (begin_marker token) ++ nl) ++ unlines ls ++ ((l ++ e) ++ nl)
  ++ unlines (map (marker_line e) (frame_tail token nonce code path)).

(** ** Properties *)

(** How the terminal output is cut into reads does not matter:
    as long as no line reaches the partial-line limit, feeding the same bytes
    in any pieces has the same outcome, a result, the same error or neither. *)
Theorem feed_chunking {U : UnicodeDB} l l' p :
  p_done p = false → 10 ∉ p_scan p → concat l = concat l' →
  short_lines 0 (p_scan p ++ concat l) = true →
  (feed_chunks l p).1 = (feed_chunks l' p).1.
Proof. intros Hd Hn He Hs. rewrite !feed_chunks_run by congruence. by rewrite He. Qed.

Lemma feed_chunking_witness :
  p_done (Parser (u "T") None 9 [] [] false false false None None None false true) = false ∧
  let p := Parser (u "T") None 9 [] [] false false false None None None false true in
  (feed_chunks (U := ascii_db) [u "__SERVEROPS_BEG"; u "IN_T__" ++ nl] p).1 =
  (feed_chunks (U := ascii_db) [u "__SERVEROPS_BEGIN_T__" ++ nl] p).1.
Proof.
  split; [reflexivity|]. cbn zeta.
  apply (feed_chunking [u "__SERVEROPS_BEG"; u "IN_T__" ++ nl] [u "__SERVEROPS_BEGIN_T__" ++ nl]);
    first [apply not_elem_of_nil | vm_compute; reflexivity].
Defined.

(** C14: a complete frame is read back exactly: whatever quiet
    output a command produced, the result has the command's exit code and
    working directory, its output is the newest [max] bytes of what the
    command printed, and it is marked truncated exactly when bytes were
    dropped; the marker lines never appear in it. *)
Theorem frame_roundtrip {U : UnicodeDB} token nonce max p e pre ls l code path final :
  new_parser token max nonce = Ok p → plain token = true →
  match nonce with None => True | Some n => plain n = true end → line_end e →
  Forall (fun l => 10 ∉ l) pre → forallb (ignored token) pre = true →
  Forall (fun l => 10 ∉ l) ls → forallb (quiet token nonce) ls = true →
  10 ∉ l → no_cr_end l = true → quiet token nonce (l ++ e) = true →
  (Z.to_nat (Z.log2 (Z.abs code)) < 4300)%nat → plain path = true →
  let printed := unlines ls ++ l in
  (feed (transcript token nonce e pre ls l code path) final p).1 =
  Ret (Some (Result (decode_output (drop (Z.to_nat (len printed - max)) printed)) code path
               (max <? len printed))).
Proof.
  intros Hp Htok Hn He Hpre Hpi Hls Hq Hl Hcr Hlq Hc Hpath printed.
  apply new_parser_inv in Hp as [Hmax ->]. rewrite feed_run by done. cbn [p_scan app].
  unfold transcript. rewrite scan_ignored by done.
  rewrite <- (app_assoc _ nl). cbn [app nl].
  rewrite scan_run_line by (apply marker_line_no_newline; [|done];
    unfold begin_marker; by rewrite !plain_app, Htok).
  unfold consume_line at 1. unfold_prog. cbn [p_started negb].
  rewrite normalize_marker; [|unfold begin_marker; by rewrite !plain_app, Htok|done].
  unfold p_begin, str_eqb. cbn [p_token]. rewrite bool_decide_true by done.
  set (p0 := set_started _).
  assert (H0 : running token nonce max (match nonce with None => true | Some _ => false end)
                 [] None p0).
  { repeat split; cbn; [lia|by rewrite drop_nil|]. symmetry. apply Z.ltb_ge. unfold len. cbn. lia. }
  destruct (scan_outputs _ _ _ _ final ls
              (((l ++ e) ++ nl) ++ unlines (map (marker_line e) (frame_tail token nonce code path)))
              _ _ _ H0 Hls Hq) as (p1 & log & pend & -> & H1 & Hlog).
  rewrite <- (app_assoc _ nl). cbn [app nl].
  rewrite scan_run_line by (destruct He as [->| ->]; set_solver).
  destruct (consume_output _ _ _ _ _ _ (l ++ e) _ H1 Hlq) as (p2 & -> & H2).
  cbn [default app] in Hlog. rewrite Hlog in H2.
  exact (scan_tail token max e l final nonce (unlines ls) code path p2 Htok He Hl Hcr H2 Hc Hpath Hn).
Qed.

Lemma frame_roundtrip_witness :
  plain (u "T") = true ∧
  (feed (U := ascii_db)
     (transcript (u "T") (Some (u "N")) cr [u "$ echo"] [u "hello"] (u "world") 3 (u "/root")) false
     (Parser (u "T") (Some (u "N")) 8 [] [] false false false None None None false false)).1 =
  Ret (Some (Result (u "lo" ++ nl ++ u "world") 3 (u "/root") true)).
Proof.
  split; [reflexivity|].
  rewrite (frame_roundtrip (u "T") (Some (u "N")) 8 _ cr [u "$ echo"] [u "hello"] (u "world") 3
             (u "/root"));
    try (vm_compute; reflexivity); try (right; reflexivity);
    try (repeat constructor; vm_compute; set_solver).
Defined.

(** C2: a result is only ever produced by a complete frame.  However
    the terminal's output is cut into reads, the lines of what was read contain,
    in order, the begin marker, for a guarded shell the untouched DEBUG probe,
    the exit marker whose digits are the result's exit code, the working
    directory and, for a guarded shell, the line that proves its nonce.  The
    begin marker and the lines after the exit marker are whole lines; a line
    between them that is longer than 4096 bytes may have lost its beginning to
    the output, and is then judged by the rest, of at least 4096 bytes. *)
Theorem result_needs_full_frame {U : UnicodeDB} token nonce max p chunks r p' :
  new_parser token max nonce = Ok p → feed_chunks chunks p = (Ret (Some r), p') →
  ∃ h rest, concat chunks = raw_lines h ++ rest ∧ Forall line_ok h ∧ full_frame token nonce h r.
Proof.
  intros Hp. by apply (chunks_progress token nonce chunks [] []), (new_parser_reads token nonce max).
Qed.

(** A guarded command read in four pieces, the third of which lets the
    parser give out the beginning of an overlong line *)
Definition guarded_chunks : list bytes :=
  [u "$ " ++ nl ++ u "__SERVEROPS_BEGIN_T__" ++ nl ++ u "he"; u "llo" ++ nl; repeat 120 5000;
   nl ++ unlines (map (marker_line cr) (frame_tail (u "T") (Some (u "N")) 3 (u "/root")))].
Lemma result_needs_full_frame_witness :
  let p := Parser (u "T") (Some (u "N")) 8 [] [] false false false None None None false false in
  let r := Result (u "xxxxxxxx") 3 (u "/root") true in
  (feed_chunks (U := ascii_db) guarded_chunks p).1 = Ret (Some r) ∧
  ∃ h rest, concat guarded_chunks = raw_lines h ++ rest ∧ Forall line_ok h ∧
            full_frame (U := ascii_db) (u "T") (Some (u "N")) h r.
Proof.
  cbv zeta. set (p := Parser _ _ _ _ _ _ _ _ _ _ _ _ _). set (r := Result _ _ _ _).
  assert ((feed_chunks (U := ascii_db) guarded_chunks p).1 = Ret (Some r)) as E by (vm_compute; reflexivity).
  split; [exact E|]. destruct (feed_chunks guarded_chunks p) as [o p'] eqn:Ep. cbn [fst] in E. subst o.
  apply (result_needs_full_frame (U := ascii_db) (u "T") (Some (u "N")) 8 p guarded_chunks r p'); [vm_compute; reflexivity|exact Ep].
Defined.
(** The rest of an overlong line is taken for the exit marker, though no line
    of the data begins with it. *)
Definition forged_exit : bytes := u "__SERVEROPS_END_T__:" ++ repeat 48 4076.
Example cut_line_ends_the_command :
  (feed_chunks (U := ascii_db)
     [u "__SERVEROPS_BEGIN_T__" ++ nl ++ u "output " ++ forged_exit; nl ++ u "__SERVEROPS_CWD_T__:/" ++ nl]
     (Parser (u "T") None 64 [] [] false false false None None None false true)).1 =
  Ret (Some (Result (u "output ") 0 (u "/") false)).
Proof. vm_compute. reflexivity. Qed.
