(* ===== verification/Prompts.v ===== *)
(** * Prompts: recognising OpenSSH and sudo prompts (ssh/prompts.py)

    [PromptDetector] keeps the newest part of the terminal's text and reports
    each prompt once, by the absolute offset where it ends. *)
From S2P Require Import Prelude Errors Text TextFacts Regex Framing.

Inductive PromptKind : Set := HOST_KEY | PASSWORD | KEY_PASSPHRASE | SUDO_PASSWORD.

#[export] Instance PromptKind_eq_dec : EqDecision PromptKind.
Proof. solve_decision. Defined.

Definition kind_value (k : PromptKind) : str :=
  match k with
  | HOST_KEY => u "host_key"
  | PASSWORD => u "password"
  | KEY_PASSPHRASE => u "key_passphrase"
  | SUDO_PASSWORD => u "sudo_password"
  end.

Record PromptEvent := Event { kind : PromptKind; prompt : str }.

(** (absolute start, absolute end, kind, prompt) *)
Abbreviation candidate := (Z * Z * PromptKind * str)%type.

Section prompts.
Context {U : UnicodeDB}.

(** ** Patterns *)
Definition line_start : re := RAlt RBol (RChar (one 10)).
Definition READY_PROMPT : re :=
  RSeqs [line_start; RLit (u "bash-"); RPlus (RChar (cls [(48, 57); (46, 46)]));
         RChar (cls [(36, 36); (35, 35)]); ROpt (RChar (one 32))].
Definition HOST_KEY_PROMPT : re :=
  RSeqs [RLitI (u "Are you sure you want to continue connecting");
         RStar false (RChar any_but_newline); RChar (one 63)].
Definition HOST_KEY_NOTICE_START : re :=
  RSeq line_start (RLitI (u "The authenticity of host ")).
Definition KEY_PASSPHRASE_PROMPT : re :=
  RSeqs [RLitI (u "Enter passphrase for key "); RStar false (RChar any_but_newline);
         RChar (one 58)].
Definition not_line_break (c : Z) : bool := negb (c =? 10) && negb (c =? 13).
Definition SUDO_PROMPT : re :=
  RSeqs [RLitI (u "[sudo] password for "); RStar false (RChar not_line_break); RChar (one 58);
         RStar true (RChar not_line_break)].
Definition SUDO_PROMPT_TEXT : str := u "[sudo] password for %u:".
Definition PASSWORD_PROMPT : re :=
  RSeqs [line_start; RStar true (RChar any_but_newline); RLitI (u "password:")].

Definition SCOPE : re := RPlus (RChar (cls [(97, 122)])).
Definition PROMPT_TOKEN : re := RRepeat 32 (RChar (cls [(48, 57); (97, 102)])).

Definition operation_sudo_prompt (scope token : str) : res str :=
  if negb (fullmatch SCOPE scope) || negb (fullmatch PROMPT_TOKEN token)
  then Err (value_error (u "sudo prompt scope or token is invalid"))
  else Ok (SUDO_PROMPT_TEXT ++ u " serverops-" ++ scope ++ u "-" ++ token).

(** ** The detector *)
Record PromptDetector := Detector {
  history_characters : Z;
  history : str;
  base_offset : Z;
  seen_offsets : PromptKind → Z }.

Definition new_detector (history_characters : Z) : res PromptDetector :=
  if history_characters <? 1024
  then Err (value_error (u "prompt history must be at least 1024 characters"))
  else Ok (Detector history_characters [] 0 (fun _ => 0)).

Definition ready (d : PromptDetector) : bool := matches_in READY_PROMPT (history d).

Definition host_key_notice (history : str) (question_start question_end : nat) : str :=
  let search_start := (question_start - 2048)%nat in
  let region := MState (rev (take search_start history))
                       (slice history search_start question_start) [] in
  let starts := finditer_fuel (S (length (after region))) HOST_KEY_NOTICE_START region in
  let start := match rev starts with m :: _ => m.1 | [] => question_start end in
  strip (slice history start question_end).

Definition patterns : list (PromptKind * re) :=
  [(HOST_KEY, HOST_KEY_PROMPT); (KEY_PASSPHRASE, KEY_PASSPHRASE_PROMPT);
   (SUDO_PASSWORD, SUDO_PROMPT); (PASSWORD, PASSWORD_PROMPT)].

Definition candidate_of (d : PromptDetector) (k : PromptKind) (m : nat * mstate) :
    option candidate :=
  let text := group0 m in
  let m_end := mpos m.2 in
  let absolute_end := base_offset d + Z.of_nat m_end in
  if bool_decide (k = PASSWORD) && matches_in SUDO_PROMPT text then None
  else if absolute_end <=? seen_offsets d k then None
  else Some (base_offset d + Z.of_nat m.1, absolute_end, k,
             if bool_decide (k = HOST_KEY) then host_key_notice (history d) m.1 m_end
             else strip text).

Definition candidates (d : PromptDetector) : list candidate :=
  concat (map (fun kr => omap (candidate_of d kr.1) (finditer kr.2 (history d))) patterns).

(** The order of tuples: offsets first, then the kind's value and the prompt *)
Fixpoint str_leb (a b : str) : bool :=
  match a, b with
  | [], _ => true
  | _, [] => false
  | x :: a, y :: b => (x <? y) || ((x =? y) && str_leb a b)
  end.
Definition candidate_leb (a b : candidate) : bool :=
  let '(s1, e1, k1, p1) := a in
  let '(s2, e2, k2, p2) := b in
  (s1 <? s2) || ((s1 =? s2) &&
    ((e1 <? e2) || ((e1 =? e2) &&
      (if decide (k1 = k2) then str_leb p1 p2 else str_leb (kind_value k1) (kind_value k2))))).
Fixpoint insert_sorted (x : candidate) (l : list candidate) : list candidate :=
  match l with
  | [] => [x]
  | y :: l' => if candidate_leb x y then x :: l else y :: insert_sorted x l'
  end.
Definition sorted (l : list candidate) : list candidate := foldr insert_sorted [] l.

(** [prompt[-limit:]] *)
Definition last_chars (n : nat) (s : str) : str := drop (length s - n) s.

Definition see (k : PromptKind) (e : Z) (d : PromptDetector) : PromptDetector :=
  Detector (history_characters d) (history d) (base_offset d)
    (fun k' => if decide (k' = k) then e else seen_offsets d k').

Fixpoint emit (cs : list candidate) (d : PromptDetector) : list PromptEvent * PromptDetector :=
  match cs with
  | [] => ([], d)
  | (_, absolute_end, k, p) :: cs =>
      if absolute_end <=? seen_offsets d k then emit cs d
      else
        let limit := if bool_decide (k = HOST_KEY) then 2048%nat else 500%nat in
        let '(events, d') := emit cs (see k absolute_end d) in
        (Event k (last_chars limit p) :: events, d')
  end.

Definition remember (text : str) (d : PromptDetector) : PromptDetector :=
  let plain := replace_all cr [] (strip_ansi text) in
  let history := history d ++ plain in
  let dropped := len history - history_characters d in
  if 0 <? dropped
  then Detector (history_characters d) (drop (Z.to_nat dropped) history)
         (base_offset d + dropped) (seen_offsets d)
  else Detector (history_characters d) history (base_offset d) (seen_offsets d).

Definition feed (text : str) (d : PromptDetector) : list PromptEvent * PromptDetector :=
  let d := remember text d in emit (sorted (candidates d)) d.

End prompts.

(** ** Lemmas *)
Section prompt_facts.
Context {U : UnicodeDB}.

(** A strictly increasing path from [a] to [b] *)
Fixpoint chain (a : Z) (l : list Z) (b : Z) : Prop :=
  match l with [] => a = b | x :: l => a < x ∧ chain x l b end.

(** The end offsets of the candidates of one kind *)
Definition ends_of (k : PromptKind) (cs : list candidate) : list Z :=
  omap (fun c : candidate => let '(_, e, k', _) := c in if decide (k' = k) then Some e else None) cs.
Definition candidate_kind (c : candidate) : PromptKind := c.1.2.

Lemma emit_chain cs d :
  let r := emit cs d in
  ∃ accepted, accepted `sublist_of` cs ∧ map kind r.1 = map candidate_kind accepted ∧
    (∀ k, chain (seen_offsets d k) (ends_of k accepted) (seen_offsets r.2 k)) ∧
    history r.2 = history d ∧ base_offset r.2 = base_offset d ∧
    history_characters r.2 = history_characters d ∧
    Forall (fun e => (length (prompt e) ≤ 2048)%nat) r.1.
Proof.
  revert d. induction cs as [|[[[st e] k] p] cs IH]; intros d; cbn [emit].
  { exists []. by split_and!. }
  destruct (Z.leb_spec e (seen_offsets d k)) as [He|He].
  - destruct (IH d) as (acc & Hs & Hk & Hc & ?). exists acc. split; [by constructor|done].
  - destruct (IH (see k e d)) as (acc & Hs & Hk & Hc & Hh & Hb & Hl & Hp).
    destruct (emit cs (see k e d)) as [es d']. cbn in *.
    exists ((st, e, k, p) :: acc). split_and!; try done.
    + by constructor.
    + cbn. by rewrite Hk.
    + intros k'. cbn. specialize (Hc k'). destruct (decide (k = k')) as [->|Hne].
      * rewrite decide_True in Hc by done. cbn. by split; [|apply Hc].
      * by rewrite decide_False in Hc by congruence.
    + constructor; [|done]. cbn. unfold last_chars. rewrite length_drop.
      case_bool_decide; lia.
Qed.

Lemma remember_bounds text d :
  0 <= history_characters d →
  len (history (remember text d)) <= history_characters d ∧
  base_offset (remember text d) + len (history (remember text d)) =
    base_offset d + len (history d) + len (replace_all cr [] (strip_ansi text)) ∧
  history_characters (remember text d) = history_characters d ∧
  seen_offsets (remember text d) = seen_offsets d.
Proof.
  intros Hh. unfold remember. set (plain := replace_all cr [] (strip_ansi text)).
  pose proof (len_nonneg (history d ++ plain)).
  clearbody plain.
  destruct (Z.ltb_spec 0 (len (history d ++ plain) - history_characters d)); cbn.
  - rewrite len_drop by lia. rewrite len_app in *. split_and!; try done; lia.
  - rewrite len_app in *. split_and!; try done; lia.
Qed.

End prompt_facts.

(** ** Properties *)

(** Each prompt is reported once: the events of every kind end
    at strictly increasing absolute offsets, past everything reported before,
    through any number of calls; the text kept never exceeds the history
    limit, no prompt handed on exceeds 2048 characters, and absolute offsets
    stay aligned with the text received. *)
Theorem prompts_reported_once {U : UnicodeDB} text d :
  0 <= history_characters d →
  let '(events, d') := feed text d in
  ∃ accepted, accepted `sublist_of` sorted (candidates (remember text d)) ∧
    map kind events = map candidate_kind accepted ∧
    (∀ k, chain (seen_offsets d k) (ends_of k accepted) (seen_offsets d' k)) ∧
    len (history d') <= history_characters d' ∧
    base_offset d' + len (history d') =
      base_offset d + len (history d) + len (replace_all cr [] (strip_ansi text)) ∧
    Forall (fun e => (length (prompt e) ≤ 2048)%nat) events.
Proof.
  intros Hh. unfold feed. destruct (remember_bounds text d Hh) as (H1 & H2 & H3 & H4).
  destruct (emit_chain (sorted (candidates (remember text d))) (remember text d))
    as (acc & Hs & Hk & Hc & Hhi & Hb & Hl & Hp).
  destruct (emit _ _) as [events d']. cbn in *. exists acc. rewrite Hhi, Hb, Hl, H3.
  split_and!; try done. intros k. specialize (Hc k). by rewrite H4 in Hc.
Qed.

Lemma prompts_reported_once_witness :
  let d := Detector 1024 [] 0 (fun _ => 0) in
  0 <= history_characters d ∧
  ∃ accepted, map kind (feed (U := ascii_db) (u "[sudo] password for a:") d).1 =
              map candidate_kind accepted.
Proof.
  intros d. split; [discriminate|].
  pose proof (prompts_reported_once (U := ascii_db) (u "[sudo] password for a:") d
                ltac:(discriminate)) as H.
  destruct (feed _ d) as [events d']. destruct H as (acc & _ & Hk & _). exists acc. exact Hk.
Defined.
