(* ===== verification/Ssh.v ===== *)
(** * Ssh: starting OpenSSH (ssh/invocation.py, ssh/auth_policy.py)

    The argument vector of the client, and the policy on the questions the
    client asks while it connects: which kinds a profile admits, how a prompt
    of the askpass program is classified, and that each kind is answered once. *)
From S2P Require Import Prelude Errors Text TextFacts Regex ConfigModel Prompts.

(** ** The arguments (ssh/invocation.py) *)
Definition identity_arguments (p : ServerProfile) : list str :=
  match identity_file p with
  | Some f => [u "-i"; f; u "-o"; u "IdentitiesOnly=yes"]
  | None => []
  end.
Definition authentication_arguments (a : Authentication) : list str :=
  match a with
  | INTERACTIVE_PASSWORD =>
      [u "-o"; u "PreferredAuthentications=keyboard-interactive,password"; u "-o"; u "PubkeyAuthentication=no"]
  | OPENSSH =>
      [u "-o"; u "PreferredAuthentications=publickey"; u "-o"; u "PasswordAuthentication=no";
       u "-o"; u "KbdInteractiveAuthentication=no"]
  end.
(** The options of the connection and the target *)
Definition connection_arguments (p : ServerProfile) : res (list str * str) :=
  match connection_type p with
  | DIRECT =>
      h ← assert_some (host p);
      k ← assert_some (port p);
      n ← assert_some (user p);
      Ok ([u "-p"; show_int k; u "-l"; n] ++ authentication_arguments (authentication p)
          ++ identity_arguments p, h)
  | SSH_CONFIG =>
      alias ← assert_some (ssh_host p);
      Ok (identity_arguments p, alias)
  end.
(** An argument is [None] where the code puts a missing prompt in the list. *)
Definition shell_command : list (option str) :=
  map Some [u "/bin/bash"; u "--noprofile"; u "--norc"; u "-i"].
Definition remote_command (p : ServerProfile) (root_session : bool) (root_sudo_prompt : option str) :
    res (list (option str)) :=
  if root_session then
    let interactive := bool_decide (elevation_mode p = INTERACTIVE) in
    let non_interactive := bool_decide (elevation_mode p = NON_INTERACTIVE) in
    raise_if (interactive && match root_sudo_prompt with None | Some [] => true | _ => false end)
      (value_error (u "interactive root sessions require an operation-bound sudo prompt"));;
    let prompt := if non_interactive then [] else [Some (u "-p"); root_sudo_prompt] in
    Ok ([Some (u "/usr/bin/sudo")] ++ (if non_interactive then [Some (u "-n")] else []) ++ prompt
        ++ map Some [u "-i"; u "--"; u "/usr/bin/env"; u "-u"; u "BASH_ENV"; u "-u"; u "ENV";
                     u "-u"; u "SHELLOPTS"; u "-u"; u "BASHOPTS"] ++ shell_command)
  else Ok shell_command.
Definition common_arguments (ssh_executable known_hosts_file : str) : list str :=
  [ssh_executable; u "-tt"; u "-o"; u "BatchMode=no"; u "-o"; u "ControlMaster=no";
   u "-o"; u "StrictHostKeyChecking=ask"; u "-o"; u "UserKnownHostsFile=" ++ known_hosts_file;
   u "-o"; u "NumberOfPasswordPrompts=1"].
Definition build_ssh_arguments (p : ServerProfile) (ssh_executable known_hosts_file : str)
    (root_session : bool) (root_sudo_prompt : option str) : res (list (option str)) :=
  connection ← connection_arguments p;
  remote ← remote_command p root_session root_sudo_prompt;
  Ok (map Some (common_arguments ssh_executable known_hosts_file ++ connection.1 ++ [u "--"; connection.2])
      ++ remote).

Ltac complete := match goal with |- ∃ r, ?x = Ok (map Some r) => exists (match x with Ok l => omap id l | Err _ => [] end); reflexivity end.
(** A profile with the invariant always has a complete argument vector. *)
Lemma build_ssh_arguments_total {U : UnicodeDB} p exe known root prompt :
  profile_wf p → (root = true → allow_root_session p = true) →
  (root = true → elevation_mode p = INTERACTIVE → ∃ c t, prompt = Some (c :: t)) →
  ∃ args, build_ssh_arguments p exe known root prompt = Ok (map Some args).
Proof.
  intros Hwf Hroot Hp. unfold build_ssh_arguments.
  assert (∃ opts target, connection_arguments p = Ok (opts, target)) as (opts & target & ->).
  { pose proof (wf_connection p Hwf) as Hc. unfold connection_ok, connection_arguments in *.
    destruct (connection_type p).
    - destruct Hc as ([a ->] & _). cbn. eauto.
    - destruct Hc as (_ & [h ->] & [n ->] & k & -> & _). cbn. eauto. }
  assert (∃ remote, remote_command p root prompt = Ok (map Some remote)) as (remote & ->).
  { unfold remote_command. destruct root; [|by eexists]. pose proof (wf_root_session p Hwf (Hroot eq_refl)) as He.
    destruct (elevation_mode p) eqn:Em; [by destruct He | |].
    - complete.
    - destruct (Hp eq_refl eq_refl) as (c & t & ->). complete. }
  cbn [mbind result_mbind result_bind fst snd]. rewrite <- map_app. eauto.
Qed.

(** ** The prompt policy (ssh/auth_policy.py) *)
Definition HOST_KEY_LIMIT : Z := 2048.
Definition CREDENTIAL_PROMPT_LIMIT : Z := 500.
Definition prompt_policy_error (message : str) : exn := Builtin PromptPolicyError message.

Definition connection_prompt_kinds (p : ServerProfile) : list PromptKind :=
  match connection_type p, authentication p with
  | SSH_CONFIG, _ => [HOST_KEY; PASSWORD; KEY_PASSPHRASE]
  | DIRECT, INTERACTIVE_PASSWORD => [HOST_KEY; PASSWORD]
  | DIRECT, OPENSSH => [HOST_KEY; KEY_PASSPHRASE]
  end.

Section classify.
Context {U : UnicodeDB}.
Definition HOST_KEY_QUESTION : re :=
  RSeqs [RLitI (u "Are you sure you want to continue connecting"); RStar false (RChar any_char);
         RChar (one 63)].
Definition HOST_KEY_FINGERPRINT : re :=
  RSeqs [RAlts [RLitI (u "ED25519"); RLitI (u "ECDSA"); RLitI (u "RSA"); RLitI (u "DSA")];
         RStar false (RChar any_char); RLitI (u "fingerprint is SHA256:");
         RPlus (RChar (ci (cls [(65, 90); (97, 122); (48, 57); (43, 43); (47, 47)])))].
Definition lazy_plus (a : re) : re := RSeq a (RStar false a).
Definition KEY_PASSPHRASE_QUESTION : re :=
  RSeqs [RLitI (u "Enter passphrase for key "); lazy_plus (RChar any_char); RChar (one 58);
         RStar true (RChar is_space); REol].
Definition ACCOUNT_PASSWORD : re :=
  RSeqs [RAlt RBol (RChar (one 10)); RStar true (RChar any_but_newline); RLitI (u "password:");
         RStar true (RChar is_space); REol].

Definition prompt_control (c : Z) : bool := ((c <? 32) && negb (c =? 10)) || (c =? 127).
Definition casefold (s : str) : str := concat (map uc_casefold s).
(** Both line endings become one newline before the text is stripped. *)
Definition normalize_prompt (prompt : str) : str :=
  strip (replace_all cr nl (replace_all (cr ++ nl) nl prompt)).
Definition classify_askpass_prompt (prompt : str) : res PromptEvent :=
  let normalized := normalize_prompt prompt in
  raise_if (str_eqb normalized [] || (HOST_KEY_LIMIT <? len normalized)
            || existsb prompt_control normalized)
    (prompt_policy_error (u "OpenSSH Askpass prompt is invalid or oversized"));;
  if matches_in HOST_KEY_QUESTION normalized then
    raise_if (negb (contains (u "The authenticity of host ") normalized)
              || negb (matches_in HOST_KEY_FINGERPRINT normalized))
      (prompt_policy_error (u "host-key prompt omitted its algorithm or fingerprint notice"));;
    Ok (Event HOST_KEY normalized)
  else
    raise_if (CREDENTIAL_PROMPT_LIMIT <? len normalized)
      (prompt_policy_error (u "credential prompt is oversized"));;
    if matches_in KEY_PASSPHRASE_QUESTION normalized then Ok (Event KEY_PASSPHRASE normalized)
    else if negb (contains (u "[sudo]") (casefold normalized)) && matches_in ACCOUNT_PASSWORD normalized
    then Ok (Event PASSWORD normalized)
    else Err (prompt_policy_error (u "OpenSSH Askpass prompt kind is not recognized")).
End classify.

Record ConnectionPromptPolicy := ConnectionPolicy {
  policy_kinds : list PromptKind; host_key_answered : bool; credential_answered : bool }.
Definition from_profile (p : ServerProfile) : ConnectionPromptPolicy :=
  ConnectionPolicy (connection_prompt_kinds p) false false.
Definition authorize (e : PromptEvent) : M ConnectionPromptPolicy unit :=
  s ← get;
  lift (raise_if (negb (bool_decide (kind e ∈ policy_kinds s)))
          (prompt_policy_error (kind_value (kind e) ++ u " is not allowed by the selected profile")));;
  lift (raise_if (credential_answered s)
          (prompt_policy_error (u "connection authentication is already complete")));;
  lift (raise_if (bool_decide (kind e = HOST_KEY) && host_key_answered s)
          (prompt_policy_error (u "a host-key decision was already supplied"))).
Definition record_answer (k : PromptKind) : M ConnectionPromptPolicy unit :=
  s ← get;
  if bool_decide (k = HOST_KEY) then
    lift (raise_if (host_key_answered s) (prompt_policy_error (u "a host-key decision was already supplied")));;
    put (ConnectionPolicy (policy_kinds s) true (credential_answered s))
  else
    lift (raise_if (negb (bool_decide (k ∈ [PASSWORD; KEY_PASSPHRASE])))
            (prompt_policy_error (u "prompt kind is not a connection credential")));;
    lift (raise_if (credential_answered s)
            (prompt_policy_error (u "connection authentication is already complete")));;
    put (ConnectionPolicy (policy_kinds s) (host_key_answered s) true).

(** ** Every question is answered once *)
Inductive policy_call := Authorize (e : PromptEvent) | Answer (k : PromptKind).
Definition policy_run (c : policy_call) : M ConnectionPromptPolicy unit :=
  match c with Authorize e => authorize e | Answer k => record_answer k end.
(** The policy after a sequence of calls, and the calls it let through *)
Definition policy_step (s : ConnectionPromptPolicy * list policy_call) (c : policy_call) :
    ConnectionPromptPolicy * list policy_call :=
  match policy_run c s.1 with
  | (Ret _, p) => (p, s.2 ++ [c])
  | (_, p) => (p, s.2)
  end.
Definition policy_calls (p : ServerProfile) (cs : list policy_call) : list policy_call :=
  (fold_left policy_step cs (from_profile p, [])).2.
Definition answers_host_key (c : policy_call) : bool :=
  match c with Answer HOST_KEY => true | _ => false end.
Definition answers_credential (c : policy_call) : bool :=
  match c with Answer (PASSWORD | KEY_PASSPHRASE) => true | _ => false end.
Definition how_many (f : policy_call → bool) (cs : list policy_call) : nat := length (List.filter f cs).
Arguments how_many : simpl never.

Record policy_inv (kinds : list PromptKind) (s : ConnectionPromptPolicy * list policy_call) : Prop := {
  inv_kinds : policy_kinds s.1 = kinds;
  inv_host : how_many answers_host_key s.2 = Nat.b2n (host_key_answered s.1);
  inv_credential : how_many answers_credential s.2 = Nat.b2n (credential_answered s.1);
  inv_granted : ∀ a e b, s.2 = a ++ Authorize e :: b →
    kind e ∈ kinds ∧ how_many answers_credential a = 0%nat ∧
    (kind e = HOST_KEY → how_many answers_host_key a = 0%nat);
}.
Lemma how_many_snoc f cs c : how_many f (cs ++ [c]) = (how_many f cs + Nat.b2n (f c))%nat.
Proof. unfold how_many. rewrite List.filter_app, length_app. cbn. by destruct (f c). Qed.
Lemma split_snoc (cs : list policy_call) c a e b :
  cs ++ [c] = a ++ Authorize e :: b →
  (∃ b', cs = a ++ Authorize e :: b') ∨ (a = cs ∧ c = Authorize e).
Proof.
  destruct b as [|x b _] using rev_ind; intros H.
  - apply app_inj_tail in H as [-> ->]. by right.
  - left. change (a ++ Authorize e :: b ++ [x]) with (a ++ (Authorize e :: b) ++ [x]) in H.
    rewrite app_assoc in H. apply app_inj_tail in H as [-> _]. eauto.
Qed.
Local Ltac fields := cbn [fst snd policy_kinds host_key_answered credential_answered].
Lemma policy_step_inv kinds s c : policy_inv kinds s → policy_inv kinds (policy_step s c).
Proof.
  intros [Hk Hh Hc Hg]. destruct s as [p log]. cbn in *. unfold policy_step. cbn [fst snd].
  destruct c as [e|k]; cbn [policy_run]; unfold authorize, record_answer; unfold_prog; unfold raise_if.
  - destruct (bool_decide (kind e ∈ policy_kinds p)) eqn:E1; cbn; [|by split].
    destruct (credential_answered p) eqn:E2; cbn; [split; fields; rewrite ?E2; done|].
    destruct (bool_decide (kind e = HOST_KEY) && host_key_answered p) eqn:E3; [split; fields; rewrite ?E2; done|].
    apply bool_decide_eq_true in E1. split; fields; [done|by rewrite how_many_snoc, Hh|by rewrite how_many_snoc, Hc, E2|].
    intros a e' b Hs. apply split_snoc in Hs as [[b' Hs] | [-> [= ->]]]; [by eapply Hg|].
    rewrite <- Hk. split; [done|]. split; [by rewrite Hc, ?E2|]. intros Hke. rewrite bool_decide_eq_true_2 in E3 by done.
    cbn in E3. by rewrite Hh, E3.
  - assert (∀ a e b, log ++ [Answer k] = a ++ Authorize e :: b → ∃ b', log = a ++ Authorize e :: b') as Hsplit.
    { intros a e b Hs. apply split_snoc in Hs as [H|[_ H]]; [done|discriminate]. }
    destruct (bool_decide (k = HOST_KEY)) eqn:E1.
    + apply bool_decide_eq_true in E1 as ->. destruct (host_key_answered p) eqn:E2; cbn; [split; fields; rewrite ?E2; done|].
      split; fields; [done|by rewrite how_many_snoc, Hh, ?E2|by rewrite how_many_snoc, Hc; cbn; lia|].
      intros a e b Hs. destruct (Hsplit _ _ _ Hs) as [b' Hb]. by eapply Hg.
    + destruct (bool_decide (k ∈ [PASSWORD; KEY_PASSPHRASE])) eqn:E2; cbn; [|by split].
      destruct (credential_answered p) eqn:E3; cbn; [split; fields; rewrite ?E3; done|].
      apply bool_decide_eq_true in E2.
      split; fields; [done| |rewrite how_many_snoc, Hc, ?E3|].
      * rewrite how_many_snoc, Hh. destruct k; cbn; (lia || done).
      * destruct k; cbn; [set_solver|done..|set_solver].
      * intros a e b Hs. destruct (Hsplit _ _ _ Hs) as [b' Hb]. by eapply Hg.
Qed.

(** Over any sequence of authorisations and answers of a
    connection, at most one host-key decision and at most one credential are
    supplied; a prompt is let through only when the profile admits its kind,
    no credential was supplied before, and a host-key prompt only before its
    decision. *)
Theorem connection_answers_once p cs :
  let granted := policy_calls p cs in
  (how_many answers_host_key granted ≤ 1)%nat ∧ (how_many answers_credential granted ≤ 1)%nat ∧
  ∀ a e b, granted = a ++ Authorize e :: b →
    kind e ∈ connection_prompt_kinds p ∧ how_many answers_credential a = 0%nat ∧
    (kind e = HOST_KEY → how_many answers_host_key a = 0%nat).
Proof.
  assert (policy_inv (connection_prompt_kinds p) (fold_left policy_step cs (from_profile p, []))) as [_ Hh Hc Hg].
  { assert (policy_inv (connection_prompt_kinds p) (from_profile p, [])) as H0.
    { split; [done..|]. by intros [|x a] e b [=]. }
    revert H0. generalize (from_profile p, @nil policy_call). induction cs as [|c cs IH]; intros s Hs; [done|].
    cbn [fold_left]. by apply IH, policy_step_inv. }
  unfold policy_calls. cbn zeta. rewrite Hh, Hc. split; [by destruct (host_key_answered _); cbn; lia|].
  split; [by destruct (credential_answered _); cbn; lia|exact Hg].
Qed.

(** A refused repetition, and a prompt after the credential *)
Example second_answers_refused :
  policy_calls sample_profile
    [Authorize (Event HOST_KEY (u "q")); Answer HOST_KEY; Authorize (Event HOST_KEY (u "q"));
     Authorize (Event KEY_PASSPHRASE (u "k")); Answer KEY_PASSPHRASE; Answer KEY_PASSPHRASE;
     Authorize (Event KEY_PASSPHRASE (u "k"))] =
  [Authorize (Event HOST_KEY (u "q")); Answer HOST_KEY; Authorize (Event KEY_PASSPHRASE (u "k"));
   Answer KEY_PASSPHRASE].
Proof. reflexivity. Qed.
