(* ===== verification/Elevation.v ===== *)
(** * Elevation: guided sudo (elevation/service.py, elevation/shell.py)

    [ElevationService] checks, acquires and releases the sudo credentials of a
    session and runs one command as root between two markers.  Commands run
    through the runner the service was given; the random tokens are calls of
    their own. *)
From S2P Require Import Prelude Errors Text TextFacts Regex Value Prog ConfigModel FileShell Prompts.

Definition elevation_error (code message : str) : exn := coded ElevationError code message.

(** [shlex.quote]: a text of safe characters is its own quotation. *)
Definition shell_safe (c : Z) : bool :=
  ascii_alnum c || mem_Z c [95; 64; 37; 43; 61; 58; 44; 46; 47; 45].
Definition shlex_quote (s : str) : str :=
  match s with
  | [] => u "''"
  | _ => if forallb shell_safe s then s
         else u "'" ++ replace_all (u "'") (sh "'`'`'") s ++ u "'"
  end.

(** ** The elevated command (elevation/shell.py) *)
Record ElevatedShellCommand := Elevated { el_command : str; begin_of : str; end_of : str }.

Definition elevated_arguments (encoded : str) : str :=
  join (u " \" ++ nl) (map (fun c => u "  '" ++ c ++ u "'") (chunks 512 encoded)).
Definition root_wrapper (first last : str) : str :=
  u "/usr/bin/printf '%s\n' '" ++ first ++ u "'; "
  ++ u "/usr/bin/env -u BASH_ENV -u ENV -u SHELLOPTS -u BASHOPTS "
  ++ u "/bin/bash --noprofile --norc -s; _serverops_root_exit=$?; "
  ++ u "/usr/bin/printf '\n%s:%s\n' '" ++ last ++ sh "' `$_serverops_root_exit`; "
  ++ sh "exit `$_serverops_root_exit`".

Section shell.
Context {U : UnicodeDB}.
Definition prompt_flag (sudo_prompt_token : option str) : res str :=
  match sudo_prompt_token with
  | None => Ok []
  | Some t => p ← operation_sudo_prompt (u "elevation") t; Ok (u "-p " ++ shlex_quote p ++ u " ")
  end.
(** [token] is [secrets.token_hex(16)]. *)
Definition build_elevated_shell_command (token command : str) (non_interactive : bool)
    (sudo_prompt_token : option str) : res ElevatedShellCommand :=
  raise_if (negb (Bool.eqb non_interactive (is_None sudo_prompt_token)))
    (value_error (u "interactive sudo requires one operation-bound prompt token"));;
  let first := u "__SERVEROPS_ELEVATED_BEGIN_" ++ token ++ u "__" in
  let last := u "__SERVEROPS_ELEVATED_END_" ++ token ++ u "__" in
  content ← utf8_encode command;
  let arguments := elevated_arguments (b64_encode content) in
  let flag := if non_interactive then u "-n " else [] in
  prompt ← prompt_flag sudo_prompt_token;
  Ok (Elevated
        (u "builtin printf '%s' \" ++ nl ++ arguments ++ u " |" ++ nl
         ++ u "  /bin/base64 -d |" ++ nl
         ++ u "  /usr/bin/sudo " ++ flag ++ prompt ++ u "-- \" ++ nl
         ++ u "  /usr/bin/env -u BASH_ENV -u ENV -u SHELLOPTS -u BASHOPTS \" ++ nl
         ++ u "/bin/bash --noprofile --norc -c " ++ shlex_quote (root_wrapper first last))
        first last).
End shell.

(** ** The service (elevation/service.py) *)
Definition MAX_ELEVATED_COMMAND_BYTES : Z := 131072.
Definition INTERACTIVE_ACQUIRE_TIMEOUT_SECONDS : Q := qz 5.

Section service.
Context {U : UnicodeDB}.
Variable profile : ServerProfile.
Variable ssh_user : str.
(** [secrets.token_hex(16)], and the [CommandRunner] of the service *)
Context {S : Type} (new_hex : M S str) (command_runner : str → Q → option str → M S (dict value)).

Definition non_interactive : bool := bool_decide (elevation_mode profile = NON_INTERACTIVE).
Definition is_disabled : bool := bool_decide (elevation_mode profile = DISABLED).

Definition payload_fields (payload : dict value) (required optional : list str) : res unit :=
  raise_if (negb (fields_match payload required optional))
    (value_error (u "elevation fields do not match the action")).
Definition payload_command (payload : dict value) : res str :=
  v ← getitem payload (u "command");
  match v with
  | VStr s =>
      raise_if (str_eqb s [] || mem_Z 0 s) (value_error (u "command must be non-empty text without NUL"));;
      encoded ← utf8_encode s;
      raise_if (MAX_ELEVATED_COMMAND_BYTES <? len encoded)
        (value_error (u "command exceeds the 131072-byte elevation limit"));;
      Ok s
  | _ => Err (value_error (u "command must be non-empty text without NUL"))
  end.
Definition payload_timeout (payload : dict value) : res (option Q) :=
  match vget payload (u "timeout") with
  | VNone => Ok None
  | v => raise_if (negb (is_number v)) (value_error (u "timeout must be a number"));;
         q ← number_between (frac 1 10) (qz 3600) v (value_error (u "timeout is outside the supported range"));
         Ok (Some q)
  end.

Definition exit_code_of (result : dict value) : res Z :=
  match vget result (u "exit_code") with
  | VInt n => Ok n
  | _ => Err (elevation_error (u "elevation_protocol_error") (u "sudo returned no valid exit code"))
  end.
Definition duration_of (result : dict value) : Z :=
  match vget result (u "duration_ms") with VInt n => n | _ => 0 end.
Definition summary (status : str) (active : bool) : dict value :=
  [(u "status", VStr status); (u "active", VBool active);
   (u "elevation_mode", VStr (elevation_mode_value (elevation_mode profile))); (u "elevated", VBool false);
   (u "effective_user", VStr ssh_user)].
Definition require_enabled : res unit :=
  raise_if is_disabled
    (elevation_error (u "elevation_disabled") (u "guided elevation is disabled for this profile")).

Definition run (command : str) (timeout : Q) (sudo_prompt_token : option str) : M S (dict value) :=
  result ← command_runner command timeout sudo_prompt_token;
  lift (raise_if (negb (eq_str (vget result (u "status")) (u "completed")))
          (elevation_error (u "elevation_outcome_unknown") (u "sudo outcome could not be verified")));;
  mret result.

(** [self.profile.command_timeout_seconds] and [min(10, ...)] of it *)
Definition profile_timeout : Q := qz (command_timeout_seconds profile).
Definition short_timeout : Q := qz (Z.min 10 (command_timeout_seconds profile)).
Definition check_command : str := u "/usr/bin/sudo -n -v".
Definition release_command : str := u "/usr/bin/sudo -k".

(** [_exit_code(_run(...)) == 0] *)
Definition succeeds (command : str) (timeout : Q) (token : option str) : M S bool :=
  result ← run command timeout token;
  code ← lift (exit_code_of result);
  mret (code =? 0).
Definition status : M S (dict value) :=
  if is_disabled then mret (summary (u "disabled") false)
  else
    active ← succeeds check_command short_timeout None;
    mret (summary (if active : bool then u "active" else u "inactive") active).
Definition cache_is_active : M S bool :=
  try_except (succeeds check_command short_timeout None)
    (fun e => if isinstance e ServerOpsError then mret false else raise e).

(** The command that acquires the credentials, and its time limit *)
Definition acquire_command (token : option str) : res str :=
  match token with
  | None => Ok check_command
  | Some t => p ← operation_sudo_prompt (u "elevation") t; Ok (u "/usr/bin/sudo -p '" ++ p ++ u "' -v")
  end.
Definition acquire_timeout (token : option str) : Q :=
  match token with
  | None => profile_timeout
  | Some _ => qmin profile_timeout INTERACTIVE_ACQUIRE_TIMEOUT_SECONDS
  end.
Definition new_prompt_token : M S (option str) :=
  if non_interactive then mret None else t ← new_hex; mret (Some t).
(** [try: result = self._run(...)] with its handler: [None] when the cache
    turned out to be active after a time-out *)
Definition acquire_run (command : str) (token : option str) : M S (option (dict value)) :=
  try_except (Some <$> run command (acquire_timeout token) token)
    (fun e =>
       if isinstance e ServerOpsError then
         if negb (str_eqb (error_code e []) (u "command_timed_out")) then raise e
         else active ← cache_is_active; if active : bool then mret None else raise e
       else raise e).
Definition acquire : M S (dict value) :=
  token ← new_prompt_token;
  command ← lift (acquire_command token);
  result ← acquire_run command token;
  match result with
  | None => mret (summary (u "acquired") true)
  | Some result =>
      code ← lift (exit_code_of result);
      lift (raise_if (negb (code =? 0))
              (elevation_error (if non_interactive then u "elevation_authentication_required"
                                else u "elevation_failed")
                 (u "sudo elevation could not be acquired")));;
      mret (summary (u "acquired") true)
  end.
Definition release : M S (dict value) :=
  released ← succeeds release_command short_timeout None;
  lift (raise_if (negb released)
          (elevation_error (u "elevation_release_failed") (u "sudo credentials could not be released")));;
  mret (summary (u "released") false).

(** [(?:^|\n)<end marker>:(-?\d+)\n*$] *)
Definition end_pattern (end_marker : str) : re :=
  RSeqs [RAlt RBol (RChar (one 10)); RLit end_marker; RChar (one 58);
         RGroup 1 (RSeq (ROpt (RChar (one 45))) (RPlus (RChar is_decimal)));
         RStar true (RChar (one 10)); REol].
Definition parse_elevated_output (result : dict value) (built : ElevatedShellCommand) : res (str * Z) :=
  match vget result (u "output") with
  | VStr output =>
      match search (end_pattern (end_of built)) output with
      | None =>
          Err (elevation_error (if non_interactive then u "elevation_authentication_required"
                                else u "elevation_failed")
                 (u "sudo did not start the elevated command"))
      | Some (start, m) =>
          let user_output := take start output in
          let begin_line := begin_of built ++ nl in
          let shown := match find begin_line user_output with
                       | Some i => drop (i + length begin_line) user_output
                       | None => user_output
                       end in
          match parse_int (default [] (group 1 m)) with
          | Some n => Ok (shown, n)
          | None => Err (value_error (u "invalid integer"))
          end
      end
  | _ => Err (elevation_error (u "elevation_protocol_error") (u "sudo returned no framed output"))
  end.

Definition exec (command : str) (timeout : option Q) : M S (dict value) :=
  token ← new_prompt_token;
  marker ← new_hex;
  built ← lift (build_elevated_shell_command marker command non_interactive token);
  result ← run (el_command built) (default profile_timeout timeout) token;
  parsed ← lift (parse_elevated_output result built);
  code ← lift (exit_code_of result);
  lift (raise_if (negb (code =? parsed.2))
          (elevation_error (u "elevation_protocol_error") (u "elevated exit status was inconsistent")));;
  mret [(u "status", VStr (u "completed")); (u "exit_code", VInt parsed.2); (u "output", VStr parsed.1);
        (u "truncated", VBool (match vget result (u "truncated") with VBool true => true | _ => false end));
        (u "duration_ms", VInt (duration_of result)); (u "elevated", VBool true);
        (u "effective_user", VStr (u "root"))].

Definition handle (action : str) (payload : dict value) : M S (dict value) :=
  if str_eqb action (u "status") then lift (payload_fields payload [] []);; status
  else
    lift require_enabled;;
    if str_eqb action (u "acquire") then lift (payload_fields payload [] []);; acquire
    else if str_eqb action (u "release") then lift (payload_fields payload [] []);; release
    else if str_eqb action (u "exec") then
      lift (payload_fields payload [u "command"] [u "timeout"]);;
      command ← lift (payload_command payload);
      timeout ← lift (payload_timeout payload);
      exec command timeout
    else raise (value_error (u "unsupported worker elevation action: " ++ action)).
End service.

(** ** What a request makes the session run *)
Definition sudo_command {U : UnicodeDB} (profile : ServerProfile) (action : str) (payload : dict value)
    (cmd : str) (timeout : Q) (token : option str) : Prop :=
  elevation_mode profile ≠ DISABLED ∧
  ((cmd = check_command ∧ token = None ∧ action ∈ [u "status"; u "acquire"]) ∨
   (cmd = release_command ∧ token = None ∧ action = u "release") ∨
   (action = u "acquire" ∧ acquire_command token = Ok cmd ∧ timeout = acquire_timeout profile token ∧
    (token = None ↔ elevation_mode profile = NON_INTERACTIVE)) ∨
   (action = u "exec" ∧ (token = None ↔ elevation_mode profile = NON_INTERACTIVE) ∧
    ∃ marker command built given,
      payload_command payload = Ok command ∧ payload_timeout payload = Ok given ∧
      build_elevated_shell_command marker command (non_interactive profile) token = Ok built ∧
      cmd = el_command built ∧ timeout = default (profile_timeout profile) given)).

Section calls.
Context {U : UnicodeDB} (profile : ServerProfile) (ssh_user : str).
Context {S : Type} (new_hex : M S str) (command_runner : str → Q → option str → M S (dict value)).
Context (P : S → Prop) (ok : str → Q → option str → Prop).
Hypothesis hex_spec : spec P new_hex anything.
Hypothesis runner_spec : ∀ cmd t k, ok cmd t k → spec P (command_runner cmd t k) anything.

Lemma spec_sudo cmd t k : ok cmd t k → spec P (run command_runner cmd t k) anything.
Proof.
  intros H. eapply spec_bind; [by apply runner_spec|]. intros result _. spec_step. by spec_step.
Qed.
Lemma spec_succeeds cmd t k : ok cmd t k → spec P (succeeds command_runner cmd t k) anything.
Proof.
  intros H. eapply spec_bind; [by apply spec_sudo|]. intros result _. spec_step. by spec_step.
Qed.
Lemma spec_new_prompt_token :
  spec P (new_prompt_token profile new_hex)
    (fun k => k = None ↔ elevation_mode profile = NON_INTERACTIVE).
Proof.
  unfold new_prompt_token, non_interactive. case_bool_decide.
  - by spec_step.
  - eapply spec_bind; [apply hex_spec|]. intros t _. by spec_step.
Qed.
Lemma spec_cache_is_active :
  ok check_command (short_timeout profile) None → spec P (cache_is_active profile command_runner) anything.
Proof.
  intros H. apply spec_try; [by apply spec_succeeds|]. intros e. by repeat spec_step.
Qed.
Lemma spec_acquire_run cmd k :
  ok cmd (acquire_timeout profile k) k → ok check_command (short_timeout profile) None →
  spec P (acquire_run profile command_runner cmd k) anything.
Proof.
  intros H Hc. apply spec_try.
  - eapply spec_bind; [by apply spec_sudo|]. intros d _. by apply (spec_ret (Some d)).
  - intros e. repeat spec_step. eapply spec_bind; [by apply spec_cache_is_active|]. intros [] _; by spec_step.
Qed.
End calls.

Section requests.
Context {U : UnicodeDB} (profile : ServerProfile) (ssh_user : str).
Context {S : Type} (new_hex : M S str) (command_runner : str → Q → option str → M S (dict value)).
Context (P : S → Prop).
Hypothesis hex_spec : spec P new_hex anything.

Lemma spec_handle action payload :
  (∀ cmd t k, sudo_command profile action payload cmd t k → spec P (command_runner cmd t k) anything) →
  spec P (handle profile ssh_user new_hex command_runner action payload) anything.
Proof.
  intros Hrun. unfold handle, payload_fields, require_enabled.
  destruct (str_eqb action (u "status")) eqn:E1.
  { apply bool_decide_eq_true in E1 as ->. spec_step. unfold status, is_disabled. case_bool_decide; [by spec_step|].
    eapply spec_bind; [eapply spec_succeeds; [exact Hrun|]|].
    - split; [done|]. left. set_solver.
    - intros active _. by spec_step. }
  spec_step. unfold is_disabled in H. apply bool_decide_eq_false in H.
  destruct (str_eqb action (u "acquire")) eqn:E2.
  { apply bool_decide_eq_true in E2 as ->. spec_step. unfold acquire.
    eapply spec_bind; [by apply spec_new_prompt_token|]. cbv beta. intros k Hk. spec_step.
    eapply spec_bind; [eapply spec_acquire_run; [exact Hrun|..]|].
    - split; [done|]. right; right; left. done.
    - split; [done|]. left. set_solver.
    - intros [result|] _; by repeat spec_step. }
  destruct (str_eqb action (u "release")) eqn:E3.
  { apply bool_decide_eq_true in E3 as ->. spec_step. unfold release.
    eapply spec_bind; [eapply spec_succeeds; [exact Hrun|]|].
    - split; [done|]. right; left. done.
    - intros released _. by repeat spec_step. }
  destruct (str_eqb action (u "exec")) eqn:E4; [|by spec_step].
  apply bool_decide_eq_true in E4 as ->. spec_step. spec_step. spec_step. unfold exec.
  eapply spec_bind; [by apply spec_new_prompt_token|]. cbv beta. intros k Hk.
  eapply spec_bind; [apply hex_spec|]. intros marker _. spec_step.
  eapply spec_bind; [eapply spec_sudo; [exact Hrun|]|].
  - split; [done|]. right; right; right. split; [done|]. split; [done|].
    exists marker, a, a1, a0. done.
  - intros result _. by repeat spec_step.
Qed.
End requests.

(** ** A scripted session *)
Inductive sudo_call := NewHex | RunSudo (command : str) (timeout : Q) (token : option str).
Inductive sudo_reply := HexReply (hex : str) | SudoReply (result : dict value).
Abbreviation sudo_io := (io unit sudo_call sudo_reply).
Definition scripted_hex : M sudo_io str :=
  r ← ask NewHex; match r with HexReply t => mret t | _ => hang end.
Definition scripted_sudo (command : str) (timeout : Q) (token : option str) : M sudo_io (dict value) :=
  r ← ask (RunSudo command timeout token); match r with SudoReply d => mret d | _ => hang end.
Definition runs_sudo {U : UnicodeDB} (profile : ServerProfile) (action : str) (payload : dict value)
    (c : sudo_call) : Prop :=
  match c with NewHex => True | RunSudo cmd t k => sudo_command profile action payload cmd t k end.

(** C31: whatever the session answers, an elevation request runs
    sudo only when the profile enables elevation; the only commands are the
    check, the release, the acquisition bound to a fresh prompt token when the
    mode is interactive, and for exec the encoded form of the payload's own
    command within the payload's or the profile's time limit. *)
Theorem elevation_is_authorised {U : UnicodeDB} profile ssh_user action payload s :
  ∃ calls, trace (handle profile ssh_user scripted_hex scripted_sudo action payload s).2 = trace s ++ calls ∧
           Forall (runs_sudo profile action payload) calls.
Proof.
  destruct (spec_calls (runs_sudo profile action payload)
              (handle profile ssh_user scripted_hex scripted_sudo action payload) anything s)
    as (new & H1 & H2 & _); [|by exists new].
  apply spec_handle.
  - eapply spec_bind; [by apply spec_ask|]. intros [t|d] _; [by apply spec_ret | apply spec_hang].
  - intros cmd t k H. eapply spec_bind; [by apply spec_ask|].
    intros [t'|d] _; [apply spec_hang | by apply spec_ret].
Qed.

(** ** Reading the elevated output back *)
Lemma find_first p s i a b : find p s = Some i → s = a ++ p ++ b → (i ≤ length a)%nat.
Proof.
  revert i a. induction s as [|c s IH]; intros i a; cbn [find];
    destruct (starts_with p _) eqn:E; try (intros [= <-] _; lia); intros H Hs.
  destruct a as [|c' a]; cbn in Hs.
  - assert (starts_with p (c :: s) = true) by (rewrite Hs; apply starts_with_app). congruence.
  - injection Hs as -> Hs. destruct (find p s) as [j|] eqn:Ej; [|done]. injection H as <-.
    specialize (IH j a eq_refl Hs). cbn. lia.
Qed.

(** A number and the newlines after it are told apart by their characters. *)
Definition numeral (c : Z) : bool := (c =? 45) || is_decimal c.
Lemma numeral_not_newline c : numeral c = true → (10 =? c) = false.
Proof. intros H. destruct (Z.eqb_spec 10 c) as [<-|]; [discriminate|done]. Qed.
Lemma numeral_span a b x y :
  forallb numeral a = true → forallb numeral b = true →
  forallb (Z.eqb 10) x = true → forallb (Z.eqb 10) y = true →
  a ++ x = b ++ y → a = b.
Proof.
  assert (∀ c l z, numeral c = true → forallb (Z.eqb 10) ((c :: l) ++ z) = true → False) as Hbad.
  { intros c l z Hc H. cbn [app forallb] in H. by rewrite (numeral_not_newline c Hc) in H. }
  revert b. induction a as [|c a IH]; intros [|d b] Ha Hb Hx Hy H; [done|..]; cbn [forallb] in Ha, Hb; boolean.
  - cbn [app] in H. subst x. exfalso. by eapply Hbad.
  - cbn [app] in H. subst y. exfalso. by eapply Hbad.
  - cbn [app] in H. injection H as -> H. f_equal. by eapply IH.
Qed.

Section output.
Context {U : UnicodeDB}.
Variable marker : str.
Hypothesis marker_head : head marker = Some 95.

Lemma end_pattern_lang s t :
  lang (end_pattern marker) s t →
  ∃ lead num nls rest,
    after s = lead ++ marker ++ 58 :: num ++ nls ++ rest ∧
    (lead = [] ∧ at_start s = true ∨ lead = [10]) ∧
    forallb numeral num = true ∧ forallb (Z.eqb 10) (nls ++ rest) = true ∧
    group 1 t = Some (slice (whole t) (mpos s + length lead + length marker + 1)
                        (mpos s + length lead + length marker + 1 + length num)) ∧
    whole t = whole s.
Proof.
  unfold end_pattern. intros H.
  apply lang_seq_inv in H as (s1 & Hlead & H).
  apply lang_seq_inv in H as (s2 & Hm & H). apply lang_lit in Hm as (r2 & Hm & ->).
  apply lang_seq_inv in H as (s3 & Hc & H). apply lang_char_inv in Hc as (c & r3 & Hr2 & Hc & ->).
  apply Z.eqb_eq in Hc as <-.
  apply lang_seq_inv in H as (s4 & Hg & H). inversion Hg as [| | | | | | |? ? ? s4' Hnum| | |]; subst.
  apply lang_seq_inv in Hnum as (s5 & Hsign & Hds).
  apply lang_opt_char in Hsign as (sign & r5 & Hr3 & _ & Hs & ->).
  apply lang_plus_char in Hds as (ds & r6 & Hr5 & _ & Hd & ->).
  apply lang_seq_inv in H as (s7 & Hn & He). apply lang_star_char in Hn as (nls & r7 & Hr6 & Hn & ->).
  inversion He as [| | | | | | | | |? Hend|]; subst. cbn in *. subst r2 r3 r5 r6.
  assert (∃ lead, after s = lead ++ after s1 ∧ before s1 = rev lead ++ before s ∧
                  (lead = [] ∧ at_start s = true ∨ lead = [10])) as (lead & Ha & Hb & Hl).
  { inversion Hlead as [| | |? ? ? ? Hx|? ? ? ? Hx| | | | | |]; subst.
    - inversion Hx; subst. exists []. auto.
    - apply lang_char_inv in Hx as (c & rest & Hx & Hc & ->). apply Z.eqb_eq in Hc as <-.
      exists [10]. auto. }
  exists lead, (sign ++ ds), nls, r7. rewrite Ha, Hm. split; [by rewrite <- !app_assoc|]. split; [done|].
  split.
  { rewrite forallb_forall in Hs, Hd. rewrite forallb_app. apply andb_true_iff. rewrite !forallb_forall.
    split; intros x Hx; unfold numeral; [rewrite Z.eqb_sym; apply orb_true_iff; left; by apply Hs|].
    apply orb_true_iff. right. by apply Hd. }
  split. { rewrite forallb_app. unfold one in Hn. rewrite Hn. destruct r7 as [|x [|]]; cbn in *; [done| |done]. by apply Z.eqb_eq in Hend as ->. }
  split.
  - unfold group, cap_of, capture. cbn [caps List.find fst Nat.eqb snd]. unfold mpos. cbn [before].
    rewrite Hb. repeat progress (rewrite ?length_app, ?length_rev; cbn [length]). unfold slice, whole. cbn [before after]. f_equal. f_equal; [lia|]. f_equal; lia.
  - unfold whole. cbn. rewrite Ha, Hm, Hb. rewrite !rev_app_distr. cbn. rewrite !rev_app_distr, !rev_involutive.
    by rewrite <- !app_assoc.
Qed.

Lemma end_pattern_matches b sign ds nls :
  (sign = [] ∨ sign = [45]) → ds ≠ [] → forallb is_decimal ds = true → forallb (Z.eqb 10) nls = true →
  ∃ t, rmatch (end_pattern marker) Some (MState b (10 :: marker ++ 58 :: (sign ++ ds) ++ nls) []) = Some t.
Proof.
  intros Hs Hne Hd Hn. eapply (rmatch_complete _ Some); [|by eexists].
  unfold end_pattern. apply lang_seq_inv. exists (MState (10 :: b) (marker ++ 58 :: (sign ++ ds) ++ nls) []).
  split; [by apply lang_alt_r, lang_char_inv; repeat eexists|].
  apply lang_seq_inv. eexists. split; [apply lang_lit; by repeat eexists|].
  apply lang_seq_inv. eexists. split; [apply lang_char_inv; by repeat eexists|]. cbn [before after caps].
  apply lang_seq_inv. eexists. split.
  - apply lang_group, lang_seq_inv. eexists. split.
    + apply lang_opt_char. exists sign, (ds ++ nls). cbn [after]. rewrite <- app_assoc. split; [done|].
      split; [by destruct Hs as [-> | ->]; cbn; lia|]. split; [by destruct Hs as [-> | ->]|done].
    + apply lang_plus_char. by exists ds, nls.
  - cbn. apply lang_seq_inv. eexists. split.
    + apply lang_star_char. exists nls, []. cbn. rewrite app_nil_r. by repeat split.
    + by constructor.
Qed.

Lemma search_end_marker w n k :
  find marker (w ++ nl ++ marker) = Some (S (length w)) →
  ∃ m, search (end_pattern marker) (w ++ 10 :: marker ++ 58 :: show_int n ++ replicate k 10) =
       Some (length w, m) ∧ group 1 m = Some (show_int n).
Proof.
  intros Hfirst. set (tail := 58 :: show_int n ++ replicate k 10).
  destruct (show_int_shape n) as (sign & ds & Hn & Hsign & Hne & Hd).
  assert (forallb (Z.eqb 10) (replicate k 10) = true) as Hk.
  { clear. induction k; [done|]. exact IHk. }
  assert (forallb is_decimal ds = true) as Hd'.
  { rewrite forallb_forall in *. intros c Hc. apply digit_decimal. by apply Hd. }
  destruct (end_pattern_matches (rev w) sign ds (replicate k 10) Hsign Hne Hd' Hk) as [t Ht].
  rewrite <- Hn in Ht. fold tail in Ht.
  exists t. split.
  - unfold search, search_from, start_of. cbn [after].
    rewrite (search_skip (end_pattern marker) w); [rewrite app_nil_r|rewrite length_app; lia|].
    + destruct (length (w ++ _) - length w)%nat; cbn [search_fuel]; rewrite Ht;
        unfold mpos; cbn [before]; by rewrite length_rev.
    + intros w1 w2 Hw Hne2. match goal with |- ?x = None => destruct x as [t'|] eqn:E; [|done] end. exfalso.
      apply rmatch_sound in E as (s' & Hl & _). apply end_pattern_lang in Hl as (lead & num & nls & rest & Ha & Hld & _).
      cbn [after] in Ha. set (q := 58 :: num ++ nls ++ rest) in Ha.
      assert (length lead ≤ 1)%nat as Hll by (destruct Hld as [[-> _] | ->]; cbn; lia).
      assert (1 ≤ length w2)%nat as Hl2 by (destruct w2; [done|cbn; lia]).
      assert (w ++ nl ++ marker = (w1 ++ lead) ++ marker ++
                take (length w2 + 1 - length lead) q) as Hcut.
      { subst w. rewrite <- !app_assoc. f_equal.
        apply (f_equal (take (length w2 + 1 + length marker))) in Ha.
        change (10 :: marker ++ tail) with (nl ++ marker ++ tail) in Ha.
        rewrite !app_assoc in Ha. rewrite take_app_length' in Ha.
        2: { rewrite !length_app. cbn. lia. }
        rewrite app_assoc, Ha. rewrite <- !app_assoc. rewrite take_app_ge by lia. f_equal.
        rewrite take_app_ge by lia. f_equal. f_equal. lia. }
      apply (find_first _ _ _ _ _ Hfirst) in Hcut. subst w. rewrite !length_app in Hcut. lia.
  - apply rmatch_sound in Ht as (s' & Hl & [= ->]).
    apply end_pattern_lang in Hl as (lead & num & nls & rest & Ha & Hld & Hnum & Hnl & -> & ->).
    cbn [after] in Ha. destruct marker as [|m0 mk]; [done|]. cbn in marker_head. injection marker_head as ->.
    destruct Hld as [[-> _] | ->]; [done|]. injection Ha as Ha.
    apply app_inv_head in Ha. injection Ha as Ha.
    assert (num = show_int n) as ->.
    { symmetry. eapply numeral_span; [| |exact Hk|exact Hnl|exact Ha]; [|done].
      rewrite Hn, forallb_app. apply andb_true_iff. split; [by destruct Hsign as [-> | ->]|].
      rewrite forallb_forall in *. intros c Hc. unfold numeral. by rewrite Hd', orb_true_r. }
    unfold slice, whole, mpos. cbn [before after length]. rewrite rev_involutive, length_rev.
    unfold tail.
    replace (w ++ 10 :: (95 :: mk) ++ 58 :: show_int n ++ replicate k 10)
      with ((w ++ nl ++ (95 :: mk) ++ [58]) ++ show_int n ++ replicate k 10) by (rewrite <- !app_assoc; done).
    f_equal. rewrite drop_app_length'; [rewrite take_app_length'; [done|lia]|].
    rewrite !length_app. cbn. lia.
Qed.
End output.

(** When sudo prints what the elevated command's wrapper prints
    (any lines before, the begin marker, the command's output, the end marker
    with the exit status and any newlines after), the service returns exactly
    the command's output and its exit status. *)
Theorem elevated_output_roundtrip {U : UnicodeDB} profile marker command ni token built
    noise text n k result :
  build_elevated_shell_command marker command ni token = Ok built →
  0 <= n < 256 →
  let shown := noise ++ begin_of built ++ nl ++ text in
  find (begin_of built ++ nl) shown = Some (length noise) →
  find (end_of built) (shown ++ nl ++ end_of built) = Some (S (length shown)) →
  vget result (u "output") = VStr (shown ++ nl ++ end_of built ++ u ":" ++ show_int n ++ replicate k 10) →
  parse_elevated_output profile result built = Ok (text, n).
Proof.
  intros Hb Hn shown Hbegin Hend Hout. unfold parse_elevated_output. rewrite Hout.
  assert (head (end_of built) = Some 95) as Hh.
  { unfold build_elevated_shell_command in Hb. inv_ok Hb. injection Hb as <-. done. }
  destruct (search_end_marker (end_of built) Hh shown n k Hend) as (m & Hs & Hg).
  change (shown ++ nl ++ end_of built ++ u ":" ++ show_int n ++ replicate k 10)
    with (shown ++ 10 :: end_of built ++ 58 :: show_int n ++ replicate k 10).
  rewrite Hs. cbv beta iota zeta. rewrite take_app_length, Hbegin, Hg.
  change (default [] (Some (show_int n))) with (show_int n).
  rewrite parse_show_int.
  - unfold shown. f_equal. f_equal. rewrite !app_assoc, drop_app_length'; [done|].
    rewrite !length_app. cbn. lia.
  - rewrite Z.abs_eq by lia. pose proof (Z.log2_le_mono n 255 ltac:(lia)) as H. change (Z.log2 255) with 7 in H. lia.
Qed.

(** A command that prints a line that looks like another command's markers *)
Lemma elevated_output_roundtrip_witness :
  ∃ built,
    build_elevated_shell_command (U := ascii_db) (u "a1") (u "id -u") true None = Ok built ∧
    parse_elevated_output (U := ascii_db) sample_profile
      [(u "output", VStr ((u "motd" ++ nl) ++ begin_of built ++ nl ++ (u "0" ++ nl ++ u "__SERVEROPS_ELEVATED_END_00__:9")
                          ++ nl ++ end_of built ++ u ":" ++ show_int 3 ++ replicate 2 10))] built =
    Ok (u "0" ++ nl ++ u "__SERVEROPS_ELEVATED_END_00__:9", 3).
Proof.
  destruct (build_elevated_shell_command (U := ascii_db) (u "a1") (u "id -u") true None) as [built|] eqn:E;
    [|vm_compute in E; discriminate].
  exists built. split; [reflexivity|].
  apply (elevated_output_roundtrip (U := ascii_db) sample_profile (u "a1") (u "id -u") true None built
           (u "motd" ++ nl) (u "0" ++ nl ++ u "__SERVEROPS_ELEVATED_END_00__:9") 3 2);
    [exact E | lia | ..]; vm_compute in E; injection E as <-; vm_compute; reflexivity.
Defined.
