(* ===== verification/AuthWire.v ===== *)
(** * AuthWire: authentication responses on the wire (auth/wire.py)

    One frame per answer of the authentication window: a kind byte, followed by
    the secret when there is one. *)
From S2P Require Import Prelude Errors Text.

Definition MAX_AUTH_RESPONSE_BYTES : Z := 4096.

Inductive AuthResponseKind : Set := SECRET | CONFIRM | REJECT | CANCEL | TIMEOUT.

#[export] Instance AuthResponseKind_eq_dec : EqDecision AuthResponseKind.
Proof. solve_decision. Defined.

Definition kind_byte (k : AuthResponseKind) : Z :=
  match k with SECRET => 1 | CONFIRM => 2 | REJECT => 3 | CANCEL => 4 | TIMEOUT => 5 end.
Definition kind_of_byte (b : Z) : option AuthResponseKind :=
  List.find (fun k => kind_byte k =? b) [SECRET; CONFIRM; REJECT; CANCEL; TIMEOUT].

Record AuthResponse := Response { response_kind : AuthResponseKind; secret : option bytes }.

Definition status (r : AuthResponse) : str :=
  match response_kind r with
  | SECRET => u "submitted"
  | CONFIRM => u "confirmed"
  | REJECT => u "rejected"
  | CANCEL => u "cancelled"
  | TIMEOUT => u "timed_out"
  end.

(** [clear]: the secret is overwritten in place with zeros. *)
Definition zeroes (n : nat) : bytes := replicate n 0.
Definition clear (r : AuthResponse) : AuthResponse :=
  Response (response_kind r) ((fun s => zeroes (length s)) <$> secret r).

Definition protocol_error (m : str) : exn := controlled AuthenticationProtocolError m.

Definition invalid_secret_length (s : bytes) : bool :=
  (len s =? 0) || (MAX_AUTH_RESPONSE_BYTES <? len s).
Definition has_line_ending (s : bytes) : bool := mem_Z 13 s || mem_Z 10 s.

Definition secret_response_frame (secret : bytes) : res bytes :=
  if invalid_secret_length secret then
    Err (protocol_error (u "authentication response has an invalid length"))
  else if has_line_ending secret then
    Err (protocol_error (u "authentication response contains a line ending"))
  else Ok (kind_byte SECRET :: secret).

Definition decision_response_frame (kind : AuthResponseKind) : res bytes :=
  if decide (kind = SECRET) then
    Err (protocol_error (u "a secret response requires response bytes"))
  else Ok [kind_byte kind].

Definition decode_auth_response (frame : bytes) : res AuthResponse :=
  match frame with
  | [] => Err (protocol_error (u "authentication response is empty"))
  | b :: rest =>
      match kind_of_byte b with
      | None => Err (protocol_error (u "authentication response type is unknown"))
      | Some kind =>
          if decide (kind = SECRET) then
            if invalid_secret_length rest then
              Err (protocol_error (u "authentication response has an invalid length"))
            else if has_line_ending rest then
              Err (protocol_error (u "authentication response contains a line ending"))
            else Ok (Response kind (Some rest))
          else match rest with
               | [] => Ok (Response kind None)
               | _ => Err (protocol_error
                             (u "authentication decision contains unexpected data"))
               end
      end
  end.

(** ** Lemmas *)
Lemma kind_of_kind_byte k : kind_of_byte (kind_byte k) = Some k.
Proof. by destruct k. Qed.

Lemma kind_of_byte_Some b k : kind_of_byte b = Some k → b = kind_byte k.
Proof. intros H. apply find_some in H as [_ H]. apply Z.eqb_eq in H. done. Qed.

(** ** Properties *)

(** The answers that decode are exactly the ones the encoders
    produce, and decoding one gives back the kind and the secret it was made
    of. *)
Theorem auth_response_roundtrip frame :
  (∀ s, secret_response_frame s = Ok frame →
        decode_auth_response frame = Ok (Response SECRET (Some s))) ∧
  (∀ k, decision_response_frame k = Ok frame →
        decode_auth_response frame = Ok (Response k None)) ∧
  (∀ r, decode_auth_response frame = Ok r →
        match secret r with
        | Some s => response_kind r = SECRET ∧ secret_response_frame s = Ok frame
        | None => response_kind r ≠ SECRET ∧ decision_response_frame (response_kind r) = Ok frame
        end).
Proof.
  split_and!.
  - intros s. unfold secret_response_frame.
    destruct (invalid_secret_length s) eqn:E1; [done|].
    destruct (has_line_ending s) eqn:E2; [done|]. intros [= <-]. cbn. by rewrite E1, E2.
  - intros k. unfold decision_response_frame. case_decide; [done|]. intros [= <-].
    unfold decode_auth_response. rewrite kind_of_kind_byte. by case_decide.
  - intros r. unfold decode_auth_response. destruct frame as [|b rest]; [done|].
    destruct (kind_of_byte b) as [k|] eqn:Ek; [|done]. apply kind_of_byte_Some in Ek. subst b.
    case_decide as Hk; [subst k|].
    + destruct (invalid_secret_length rest) eqn:E1; [done|].
      destruct (has_line_ending rest) eqn:E2; [done|]. intros [= <-]. cbn. split; [done|].
      unfold secret_response_frame. by rewrite E1, E2.
    + destruct rest; [|done]. intros [= <-]. cbn. split; [done|].
      unfold decision_response_frame. by case_decide.
Qed.
