(* ===== verification/Terminal.v ===== *)
(** * Terminal: a worker session and the terminal it talks to

    The session (worker/session.py) sees its terminal only through the
    [TerminalProcess] protocol (terminal/contracts.py), the clock and its
    authentication coordinator.  The environment [env] answers every call: a
    list of replies per kind of call, consumed in order, and a log of the calls
    that act on the outside.  A program that asks for a reply that is not there
    waits forever ([Hang]). *)
From S2P Require Import Prelude Errors Text TextFacts State RingBuffer Framing Prompts AuthWire.

(** ** The environment *)
Inductive event : Set :=
  | Started (arguments : list str) (environment : dict str)
  | Wrote (data : bytes)
  | Waited (timeout : Q)
  | Terminated
  | TerminalClosed
  | Resized (columns rows : Z)
  | Slept (seconds : Q)
  | Asked (p : PromptEvent)
  | Checked.

(** How the coordinator answers one prompt: the responses it submits to the
    sink, in order, and the exception it ends with, if any. *)
Record coordination := Coordination { submissions : list bytes; failure : option exn }.

Record env := Env {
  clock : list Q;                      (* time.monotonic() *)
  tokens : list str;                   (* new_token() *)
  reads : list (res BufferRead);       (* wait_for_data, read *)
  alive : list bool;                   (* running *)
  calls : list (option exn);           (* start, write, terminate, close, resize, failure_check *)
  waits : list (res (option Z));       (* wait *)
  cursors : list Z;                    (* output_cursor *)
  answers : list coordination;         (* authenticator.respond *)
  log : list event }.

(** ** The session object *)
Record session := Session {
  world : env;
  machine : SessionStateMachine;
  detector : PromptDetector;
  cursor : Z;
  active_token : option str;
  shell_nonce : str;
  max_output : Z }.

Definition set_world (w : env) (s : session) : session :=
  Session w (machine s) (detector s) (cursor s) (active_token s) (shell_nonce s) (max_output s).
Definition set_machine (m : SessionStateMachine) (s : session) : session :=
  Session (world s) m (detector s) (cursor s) (active_token s) (shell_nonce s) (max_output s).
Definition set_detector (d : PromptDetector) (s : session) : session :=
  Session (world s) (machine s) d (cursor s) (active_token s) (shell_nonce s) (max_output s).
Definition set_cursor (c : Z) (s : session) : session :=
  Session (world s) (machine s) (detector s) c (active_token s) (shell_nonce s) (max_output s).
Definition set_active (t : option str) (s : session) : session :=
  Session (world s) (machine s) (detector s) (cursor s) t (shell_nonce s) (max_output s).

Definition state_of (s : session) : SessionState := st_state (machine s).

(** ** Primitive calls *)
Definition log_event (e : event) : M session unit :=
  modify (fun s => let w := world s in
    set_world (Env (clock w) (tokens w) (reads w) (alive w) (calls w) (waits w) (cursors w)
                 (answers w) (log w ++ [e])) s).

Definition monotonic : M session Q :=
  s ← get;
  let w := world s in
  match clock w with
  | [] => hang
  | t :: rest =>
      put (set_world (Env rest (tokens w) (reads w) (alive w) (calls w) (waits w) (cursors w)
                        (answers w) (log w)) s);;
      mret t
  end.

Definition new_token : M session str :=
  s ← get;
  let w := world s in
  match tokens w with
  | [] => hang
  | t :: rest =>
      put (set_world (Env (clock w) rest (reads w) (alive w) (calls w) (waits w) (cursors w)
                        (answers w) (log w)) s);;
      mret t
  end.

Definition read_reply : M session BufferRead :=
  s ← get;
  let w := world s in
  match reads w with
  | [] => hang
  | r :: rest =>
      put (set_world (Env (clock w) (tokens w) rest (alive w) (calls w) (waits w) (cursors w)
                        (answers w) (log w)) s);;
      lift r
  end.

Definition running : M session bool :=
  s ← get;
  let w := world s in
  match alive w with
  | [] => hang
  | b :: rest =>
      put (set_world (Env (clock w) (tokens w) (reads w) rest (calls w) (waits w) (cursors w)
                        (answers w) (log w)) s);;
      mret b
  end.

Definition call (e : event) : M session unit :=
  log_event e;;
  s ← get;
  let w := world s in
  match calls w with
  | [] => hang
  | r :: rest =>
      put (set_world (Env (clock w) (tokens w) (reads w) (alive w) rest (waits w) (cursors w)
                        (answers w) (log w)) s);;
      match r with None => mret tt | Some e => raise e end
  end.

Definition wait_exit : M session (option Z) :=
  s ← get;
  let w := world s in
  match waits w with
  | [] => hang
  | r :: rest =>
      put (set_world (Env (clock w) (tokens w) (reads w) (alive w) (calls w) rest (cursors w)
                        (answers w) (log w)) s);;
      lift r
  end.

Definition output_cursor : M session Z :=
  s ← get;
  let w := world s in
  match cursors w with
  | [] => hang
  | c :: rest =>
      put (set_world (Env (clock w) (tokens w) (reads w) (alive w) (calls w) (waits w) rest
                        (answers w) (log w)) s);;
      mret c
  end.

Definition coordinator_reply : M session coordination :=
  s ← get;
  let w := world s in
  match answers w with
  | [] => hang
  | a :: rest =>
      put (set_world (Env (clock w) (tokens w) (reads w) (alive w) (calls w) (waits w) (cursors w)
                        rest (log w)) s);;
      mret a
  end.

Definition write (data : bytes) : M session unit := call (Wrote data).
Definition terminate : M session unit := call Terminated.
Definition sleep (seconds : Q) : M session unit := log_event (Slept seconds).
Definition wait_for_data (timeout : Q) : M session BufferRead :=
  log_event (Waited timeout);; read_reply.

(** An operation of the state machine; it reads the clock exactly when it
    makes a transition. *)
Definition on_machine {A} (f : Q → M SessionStateMachine A) : M session A :=
  fun s =>
    let at_time t w :=
      let '(r, m) := f t (machine s) in
      if st_generation m =? st_generation (machine s) then (r, set_machine m s)
      else (r, set_machine m (set_world w s)) in
    let w := world s in
    match clock w with
    | [] =>
        let '(r, m) := f (qz 0) (machine s) in
        if st_generation m =? st_generation (machine s) then (r, set_machine m s)
        else (Hang, s)
    | t :: rest =>
        at_time t (Env rest (tokens w) (reads w) (alive w) (calls w) (waits w) (cursors w)
                     (answers w) (log w))
    end.

Definition move_to (target : SessionState) : M session unit :=
  on_machine (fun now => transition now target);; mret tt.
Definition require_state (states : list SessionState) : M session unit :=
  on_machine (fun _ => require states).
Definition get_state : M session SessionState := gets state_of.

(** ** The secret sink (worker/authentication.py) *)

(** [SecretInputSink.submit]: the response goes to the terminal at most once. *)
Definition submit (used : bool) (response : bytes) : M session bool :=
  if used then
    raise (Builtin RuntimeError (u "authentication response capability was already used"))
  else if invalid_secret_length response then
    raise (value_error (u "authentication response has an invalid length"))
  else if has_line_ending response then
    raise (value_error (u "authentication response cannot contain a line ending"))
  else write (response ++ cr);; mret true.

Fixpoint submit_all (used : bool) (responses : list bytes) : M session bool :=
  match responses with
  | [] => mret used
  | r :: rs => used ← submit used r; submit_all used rs
  end.

(** [authenticator.respond(event, sink)], returning whether the sink was used *)
Definition respond (p : PromptEvent) : M session bool :=
  log_event (Asked p);;
  a ← coordinator_reply;
  used ← submit_all false (submissions a);
  match failure a with None => mret used | Some e => raise e end.

(** [UnavailableAuthenticationCoordinator], the default *)
Definition unavailable_respond (p : PromptEvent) : M session bool :=
  raise (controlled AuthenticationUnavailable
           (u "no local authentication coordinator is configured")).
