(* ===== verification/Session.v ===== *)
(** * Session: one SSH session of the worker (worker/session.py)

    [StatefulSshSession]: opening, executing one framed command, interrupting
    and closing.  The loops take the number of clock readings left as fuel:
    every round reads the clock, so a loop never stops for want of fuel (what
    the loops take of a moving clock is in SessionTime.v). *)
From S2P Require Import Prelude Errors Text TextFacts State RingBuffer Framing Prompts AuthWire Terminal.

Section session.
Context {U : UnicodeDB}.
(** [os.environ] of the worker *)
Context (os_environ : dict str).

Definition COMMAND_INPUT_CHUNK_CHARACTERS : Z := 512.
Definition COMMAND_INPUT_FLOW_DELAY_SECONDS : Q := frac 1 100.
Definition SHELL_BOOTSTRAP_TIMEOUT_SECONDS : Q := qz 5.
Definition RECOVERY_TIMEOUT_SECONDS : Q := qz 5.
Definition REMOTE_VINTR_BYTE : bytes := [29].

Record ExecutionResult := Execution {
  ex_output : str; ex_exit_code : Z; ex_cwd : str; ex_truncated : bool; ex_duration_ms : Z }.

(** ** Construction *)
Definition new_session (max_output_bytes : Z) (nonce : str) (now : Q) (w : env) : res session :=
  d ← new_detector 65536;
  Ok (Session w (new_machine now) d 0 None nonce max_output_bytes).

(** ** Prompts *)

(** The closure [_single_authentication_gate] returns *)
Record gate := Gate { authentication_started : bool; repeated_prompt_interrupted : bool }.
Definition single_authentication_gate : gate := Gate false false.

Definition permit (g : gate) : M session (bool * gate) :=
  if negb (authentication_started g) then mret (true, Gate true (repeated_prompt_interrupted g))
  else if negb (repeated_prompt_interrupted g) then
    write REMOTE_VINTR_BYTE;; mret (false, Gate true true)
  else mret (false, g).

(** What a caller passes to [_read_and_handle_prompts] *)
Record prompt_policy := Policy {
  allowed_kinds : list PromptKind;
  sudo_token : option str;
  timed : bool }.
Definition no_prompts : prompt_policy := Policy [] None false.

Definition skipped (pol : prompt_policy) (e : PromptEvent) : bool :=
  negb (bool_decide (kind e ∈ allowed_kinds pol)) ||
  (bool_decide (kind e = SUDO_PASSWORD) &&
   match sudo_token pol with Some t => negb (contains t (prompt e)) | None => false end).

Definition is_prompt_allowed (g : option gate) : M session (bool * option gate) :=
  match g with
  | None => mret (true, None)
  | Some g => '(ok, g) ← permit g; mret (ok, Some g)
  end.

Definition authenticate (pol : prompt_policy) (e : PromptEvent) : M session Q :=
  on_machine begin_authentication;;
  started ← monotonic;
  try_except
    (used ← respond e;
     if negb used then
       raise (controlled SessionError
                (u "authentication coordinator returned without a response"))
     else mret tt)
    (fun error =>
       alive ← running;
       (if alive : bool then terminate else mret tt);;
       move_to FAILED;;
       raise error);;
  on_machine finish_authentication;;
  if timed pol then now ← monotonic; mret (qsub now started) else mret (qz 0).

Fixpoint handle_events (pol : prompt_policy) (es : list PromptEvent) (g : option gate) (spent : Q) :
    M session (option gate * Q) :=
  match es with
  | [] => mret (g, spent)
  | e :: es =>
      if skipped pol e then handle_events pol es g spent
      else
        '(ok, g) ← is_prompt_allowed g;
        if negb ok then handle_events pol es g spent
        else seconds ← authenticate pol e; handle_events pol es g (qadd spent seconds)
  end.

(** The data read, the gate as the prompts left it, and the seconds spent on
    authentication *)
Definition read_and_handle_prompts (timeout : Q) (pol : prompt_policy) (g : option gate) :
    M session (bytes * option gate * Q) :=
  result ← wait_for_data (qmax (qz 0) timeout);
  modify (set_cursor (next_cursor result));;
  match data result with
  | [] => mret ([], g, qz 0)
  | data =>
      s ← get;
      let '(events, d) := Prompts.feed (utf8_replace data) (detector s) in
      modify (set_detector d);;
      '(g, spent) ← handle_events pol events g (qz 0);
      mret (data, g, spent)
  end.

(** ** Writing a command *)
Definition encode_and_write (text : str) : M session unit :=
  data ← lift (utf8_encode text); write data.
Definition write_command_chunk (chunk : str) : M session unit :=
  encode_and_write chunk;; sleep COMMAND_INPUT_FLOW_DELAY_SECONDS.

(** The [while] loop over one line: full chunks are written, a shorter rest
    remains. *)
Fixpoint write_long_line (fuel : nat) (pending line : str) : M session (str * str) :=
  match fuel with
  | O => mret (pending, line)
  | S fuel =>
      if len line <=? COMMAND_INPUT_CHUNK_CHARACTERS then mret (pending, line)
      else
        (match pending with [] => mret tt | _ => write_command_chunk pending end);;
        write_command_chunk (take (Z.to_nat COMMAND_INPUT_CHUNK_CHARACTERS) line);;
        write_long_line fuel [] (drop (Z.to_nat COMMAND_INPUT_CHUNK_CHARACTERS) line)
  end.

Fixpoint write_lines (lines : list str) (pending : str) : M session unit :=
  match lines with
  | [] => match pending with [] => mret tt | _ => encode_and_write pending end
  | line :: lines =>
      '(pending, line) ← write_long_line (length line) pending line;
      if negb (len pending =? 0) && (COMMAND_INPUT_CHUNK_CHARACTERS <? len pending + len line)
      then write_command_chunk pending;; write_lines lines line
      else write_lines lines (pending ++ line)
  end.

Definition write_command (wrapped : str) : M session unit :=
  if len wrapped <=? COMMAND_INPUT_CHUNK_CHARACTERS then encode_and_write wrapped
  else write_lines (splitlines_keep wrapped) [].

(** ** The active command *)
Definition activate_command (token : str) : M session unit :=
  s ← get;
  match active_token s with
  | Some _ => raise (controlled SessionError (u "another command is already active"))
  | None => put (set_active (Some token) s)
  end.

Definition clear_command (token : str) : M session unit :=
  modify (fun s => if bool_decide (active_token s = Some token) then set_active None s else s).

Definition lose_executing_session : M session unit :=
  st ← get_state;
  (if decide (st = EXECUTING) then move_to LOST else mret tt);;
  suppress is_exception (alive ← running; if alive : bool then terminate else mret tt).

Definition outcome_unknown {A} (message : str) : M session A :=
  raise (controlled OutcomeUnknown message).

Definition send_interrupt (token : str) : M session unit :=
  try_except
    (write REMOTE_VINTR_BYTE;;
     sleep (frac 2 10);;
     s ← get;
     text ← lift (interrupt_recovery_wrapper token (Some (shell_nonce s)));
     encode_and_write text)
    (fun e =>
       if is_exception e then
         lose_executing_session;;
         outcome_unknown (u "The connection failed while interrupting a delivered command; "
                          ++ u "the command outcome is unknown.")
       else raise e).

(** Feeding the frame parser, which is a local object of the operation: its
    state is returned, an exception is kept apart. *)
Definition feed_parser (data : bytes) (final : bool) (p : CommandFrameParser) :
    M session (option CommandResult * CommandFrameParser) :=
  match Framing.feed data final p with
  | (Ret r, p') => mret (r, p')
  | (Raise e, _) => raise e
  | (Hang, _) => hang
  end.

Definition slice_wait (deadline now : Q) : Q := qmin (frac 1 4) (qsub deadline now).

(** Every loop of this file makes at most one round per clock reading. *)
Definition clock_fuel : M session nat := gets (fun s => S (length (clock (world s)))).

Fixpoint recovery_loop (fuel : nat) (deadline : Q) (p : CommandFrameParser) : M session bool :=
  match fuel with
  | O => hang
  | S fuel =>
      now ← monotonic;
      if qlt now deadline then
        now ← monotonic;
        '(data, _, _) ← read_and_handle_prompts (slice_wait deadline now) no_prompts None;
        '(r, p) ← match data with [] => mret (None, p) | _ => feed_parser data false p end;
        match r with
        | Some _ => mret true
        | None =>
            alive ← running;
            if negb alive then mret false else recovery_loop fuel deadline p
        end
      else mret false
  end.

Definition wait_for_recovery (p : CommandFrameParser) (timeout : Q) : M session bool :=
  now ← monotonic;
  fuel ← clock_fuel;
  recovery_loop fuel (qadd now timeout) p.

(** ** Executing one command *)
Definition finish_execution (r : CommandResult) (started : Q) : M session ExecutionResult :=
  alive ← running;
  if negb alive then
    lose_executing_session;;
    outcome_unknown (u "The shell ended after command delivery; the command outcome "
                     ++ u "and reusable session state cannot be trusted.")
  else
    move_to READY;;
    now ← monotonic;
    mret (Execution (output r) (exit_code r) (cwd r) (truncated r)
            (qround (qmul (qsub now started) (qz 1000)))).

(** The result, or the deadline passed with the parser in this state *)
Fixpoint execution_loop (fuel : nat) (deadline started : Q) (pol : prompt_policy)
    (g : option gate) (p : CommandFrameParser) : M session (ExecutionResult + CommandFrameParser) :=
  match fuel with
  | O => hang
  | S fuel =>
      now ← monotonic;
      if qlt now deadline then
        now ← monotonic;
        '(data, g, spent) ← read_and_handle_prompts (slice_wait deadline now) pol g;
        let deadline := qadd deadline spent in
        '(r, p) ← match data with
                  | [] => mret (None, p)
                  | _ =>
                      try_except (feed_parser data false p)
                        (fun e =>
                           if is_frame_error e then
                             lose_executing_session;;
                             outcome_unknown
                               (u "Shell framing became invalid after command delivery; "
                                ++ u "the command outcome is unknown.")
                           else raise e)
                  end;
        match r with
        | Some r => x ← finish_execution r started; mret (inl x)
        | None =>
            alive ← running;
            if negb alive then
              suppress is_frame_error (feed_parser [] true p;; mret tt);;
              lose_executing_session;;
              outcome_unknown
                (u "The connection ended before command completion could be verified.")
            else execution_loop fuel deadline started pol g p
        end
      else mret (inr p)
  end.

Definition recover_timed_out (token : str) (timeout : Q) (p : CommandFrameParser) :
    M session ExecutionResult :=
  send_interrupt token;;
  recovered ← try_except (wait_for_recovery p RECOVERY_TIMEOUT_SECONDS)
    (fun e =>
       if is_frame_error e then
         lose_executing_session;;
         outcome_unknown (u "The command timed out and recovery framing was invalid; the outcome "
                          ++ u "is unknown.")
       else raise e);
  alive ← (if recovered : bool then running else mret false);
  if alive : bool then
    move_to READY;;
    raise (controlled CommandTimedOut
             (u "command exceeded its " ++ show_fixed1 timeout ++ u "-second timeout"))
  else
    lose_executing_session;;
    outcome_unknown (u "The command timed out and shell recovery could not be verified; "
                     ++ u "the outcome is unknown.").

Definition execution_policy (allow_sudo_prompt : bool) (sudo_prompt_token : option str) :=
  Policy (if allow_sudo_prompt then [SUDO_PASSWORD] else []) sudo_prompt_token true.
Definition execution_gate (allow_sudo_prompt : bool) : option gate :=
  if allow_sudo_prompt then Some single_authentication_gate else None.

Definition execution_body (command token : str) (timeout started : Q) (allow_sudo_prompt : bool)
    (sudo_prompt_token : option str) (p : CommandFrameParser) : M session ExecutionResult :=
  s ← get;
  wrapped ← lift (command_wrapper command token (Some (shell_nonce s)));
  write_command wrapped;;
  fuel ← clock_fuel;
  r ← execution_loop fuel (qadd started timeout) started
        (execution_policy allow_sudo_prompt sudo_prompt_token)
        (execution_gate allow_sudo_prompt) p;
  match r with
  | inl x => mret x
  | inr p => recover_timed_out token timeout p
  end.

(** The [except BaseException] clause of [execute] *)
Definition fail_execution (e : exn) : M session ExecutionResult :=
  st ← get_state;
  (if decide (st = EXECUTING) then
     alive ← running; move_to (if alive : bool then FAILED else LOST)
   else mret tt);;
  raise e.

Definition invalid_command (command : str) : bool := (len command =? 0) || mem_Z 0 command.

Definition execute (command : str) (timeout : Q) (allow_sudo_prompt : bool)
    (sudo_prompt_token : option str) : M session ExecutionResult :=
  if invalid_command command then
    raise (value_error (u "command must be non-empty text without NUL"))
  else if negb (eqb allow_sudo_prompt (bool_decide (is_Some sudo_prompt_token))) then
    raise (value_error (u "sudo authentication requires one operation-bound prompt token"))
  else
    require_state [READY];;
    token ← new_token;
    s ← get;
    p ← lift (new_parser token (max_output s) (Some (shell_nonce s)));
    activate_command token;;
    move_to EXECUTING;;
    started ← monotonic;
    try_finally
      (try_except
         (execution_body command token timeout started allow_sudo_prompt sudo_prompt_token p)
         fail_execution)
      (clear_command token).

Definition interrupt : M session unit :=
  require_state [EXECUTING];;
  s ← get;
  match active_token s with
  | None => raise (controlled SessionError (u "there is no active command to interrupt"))
  | Some token => send_interrupt token
  end.

(** ** Opening *)
Definition failure_check (present : bool) : M session unit :=
  if present then call Checked else mret tt.

Fixpoint bootstrap_loop (fuel : nat) (deadline : Q) (check : bool) (p : CommandFrameParser) :
    M session unit :=
  match fuel with
  | O => hang
  | S fuel =>
      now ← monotonic;
      if qlt now deadline then
        failure_check check;;
        now ← monotonic;
        '(data, _, _) ← read_and_handle_prompts (slice_wait deadline now) no_prompts None;
        '(r, p) ← match data with
                  | [] => mret (None, p)
                  | _ => try_except (feed_parser data false p)
                           (fun e => if is_frame_error e then
                                       raise (controlled SessionError
                                                (u "the Bash bootstrap frame was invalid"))
                                     else raise e)
                  end;
        match r with
        | Some r =>
            alive ← running;
            if negb alive then
              raise (controlled SessionLost (u "OpenSSH exited during Bash bootstrap"))
            else if negb (exit_code r =? 0) then
              raise (controlled SessionError (u "the Bash bootstrap command failed"))
            else mret tt
        | None =>
            alive ← running;
            if negb alive then
              raise (controlled SessionLost (u "OpenSSH exited during Bash bootstrap"))
            else bootstrap_loop fuel deadline check p
        end
      else raise (controlled SessionError
                    (u "timed out while verifying control of the original Bash shell"))
  end.

Definition initialize_shell (timeout : Q) (check : bool) : M session unit :=
  token ← new_token;
  s ← get;
  p ← lift (new_parser token 4096 (Some (shell_nonce s)));
  wrapped ← lift (shell_bootstrap_wrapper (shell_nonce s) token);
  write_command wrapped;;
  now ← monotonic;
  fuel ← clock_fuel;
  bootstrap_loop fuel (qadd now timeout) check p.

Fixpoint open_loop (fuel : nat) (deadline : Q) (check : bool) (pol : prompt_policy)
    (g : option gate) : M session unit :=
  match fuel with
  | O => hang
  | S fuel =>
      now ← monotonic;
      if qlt now deadline then
        failure_check check;;
        now ← monotonic;
        '(_, g, _) ← read_and_handle_prompts (slice_wait deadline now) pol g;
        s ← get;
        if ready (detector s) then
          failure_check check;;
          now ← monotonic;
          initialize_shell
            (qmin SHELL_BOOTSTRAP_TIMEOUT_SECONDS (qmax (frac 1 10) (qsub deadline now))) check;;
          move_to READY
        else
          alive ← running;
          if negb alive then
            move_to FAILED;;
            raise (controlled SessionLost
                     (u "OpenSSH exited before the Bash prompt was reached"))
          else open_loop fuel deadline check pol g
      else
        move_to FAILED;;
        raise (controlled SessionError
                 (u "timed out waiting for the authenticated Bash prompt"))
  end.

(** The [except BaseException] clause of [open] *)
Definition fail_open (e : exn) : M session unit :=
  alive ← running;
  (if alive : bool then suppress is_exception terminate else mret tt);;
  st ← get_state;
  (if decide (st ∈ [STARTING; AUTHENTICATION_REQUIRED]) then move_to FAILED else mret tt);;
  raise e.

Definition open_body (ssh_arguments : list str) (timeout : Q) (allow_sudo_prompt : bool)
    (sudo_prompt_token : option str) (environment : option (dict str)) (check : bool) :
    M session unit :=
  let child := match environment with Some e => dmerge os_environ e | None => os_environ end in
  call (Started ssh_arguments child);;
  now ← monotonic;
  fuel ← clock_fuel;
  open_loop fuel (qadd now timeout) check
    (Policy (if allow_sudo_prompt then [SUDO_PASSWORD] else []) sudo_prompt_token false)
    (execution_gate allow_sudo_prompt).

Definition open (ssh_arguments : list str) (timeout : Q) (allow_sudo_prompt : bool)
    (sudo_prompt_token : option str) (environment : option (dict str)) (check : bool) :
    M session unit :=
  require_state [CREATED];;
  if negb (eqb allow_sudo_prompt (bool_decide (is_Some sudo_prompt_token))) then
    raise (value_error
             (u "startup sudo authentication requires one operation-bound prompt token"))
  else
    move_to STARTING;;
    try_except
      (open_body ssh_arguments timeout allow_sudo_prompt sudo_prompt_token environment check)
      fail_open.

(** ** Closing *)
Definition close : M session unit :=
  closing ← on_machine begin_close;
  if negb closing then mret tt
  else
    try_finally
      (alive ← running;
       if negb alive then mret tt
       else
         try_except
           (write (u "exit" ++ cr ++ nl);;
            r ← wait_exit;
            match r with None => terminate | Some _ => mret tt end)
           (fun e => if is_exception e then terminate else raise e))
      (call TerminalClosed;; move_to CLOSED).

End session.
