(* ===== verification/SessionFacts.v ===== *)
(** * SessionFacts: correctness of the session operations

    Two footprints are tracked through every program of Session.v by type-class
    instances: what it may log ([logs]) and what part of the session object it
    leaves alone ([core_safe]). *)
From S2P Require Import Prelude Errors Text TextFacts State RingBuffer Framing Prompts AuthWire Terminal Session.

(** ** Footprints *)

(** [E] holds of every event [m] logs. *)
Class logs (E : event → Prop) {A} (m : M session A) : Prop :=
  logs_spec s : ∃ l, log (world (m s).2) = log (world s) ++ l ∧ Forall E l.

(** The part of the session that terminal traffic does not touch *)
Definition core (s : session) : SessionStateMachine * option str * str * Z :=
  (machine s, active_token s, shell_nonce s, max_output s).
Class core_safe {A} (m : M session A) : Prop := core_spec s : core (m s).2 = core s.

(** *** Closure under the program constructors *)
Section closure.
Context {A B : Type}.
Implicit Types (m : M session A) (f : A → M session B).

Lemma bind_eq m f s :
  (m ≫= f) s = match m s with
               | (Ret a, s') => f a s' | (Raise e, s') => (Raise e, s') | (Hang, s') => (Hang, s')
               end.
Proof. reflexivity. Qed.

#[export] Instance logs_ret E (a : A) : logs E (mret a).
Proof. intros s. exists []. by rewrite app_nil_r. Qed.
#[export] Instance logs_raise E e : logs E (raise (A := A) e).
Proof. intros s. exists []. by rewrite app_nil_r. Qed.
#[export] Instance logs_hang E : logs E (hang (A := A)).
Proof. intros s. exists []. by rewrite app_nil_r. Qed.
#[export] Instance logs_lift E (r : res A) : logs E (lift r).
Proof. intros s. exists []. by destruct r; rewrite app_nil_r. Qed.
#[export] Instance logs_gets E (g : session → A) : logs E (gets g).
Proof. intros s. exists []. by rewrite app_nil_r. Qed.
#[export] Instance logs_bind E m f : logs E m → (∀ a, logs E (f a)) → logs E (m ≫= f).
Proof.
  intros Hm Hf s. rewrite bind_eq. destruct (Hm s) as (l & Hl & HE).
  destruct (m s) as [[a|e|] s1]; cbn in Hl; eauto.
  destruct (Hf a s1) as (l2 & Hl2 & HE2). exists (l ++ l2).
  rewrite Hl2, Hl, app_assoc. split; [done|]. by apply Forall_app.
Qed.
#[export] Instance logs_try E m (h : exn → M session A) :
  logs E m → (∀ e, logs E (h e)) → logs E (try_except m h).
Proof.
  intros Hm Hh s. unfold try_except. destruct (Hm s) as (l & Hl & HE).
  destruct (m s) as [[a|e|] s1]; cbn in Hl; eauto.
  destruct (Hh e s1) as (l2 & Hl2 & HE2). exists (l ++ l2).
  rewrite Hl2, Hl, app_assoc. split; [done|]. by apply Forall_app.
Qed.
#[export] Instance logs_finally E m (h : M session unit) :
  logs E m → logs E h → logs E (try_finally m h).
Proof.
  intros Hm Hh s. unfold try_finally. destruct (Hm s) as (l & Hl & HE).
  destruct (Hh (m s).2) as (l2 & Hl2 & HE2).
  destruct (m s) as [[a|e|] s1]; cbn in Hl, Hl2; eauto;
    (exists (l ++ l2); destruct (h s1) as [[] s2]; cbn in *; rewrite Hl2, Hl, app_assoc;
     (split; [done|by apply Forall_app])).
Qed.

#[export] Instance core_ret (a : A) : core_safe (mret a).
Proof. done. Qed.
#[export] Instance core_raise e : core_safe (raise (A := A) e).
Proof. done. Qed.
#[export] Instance core_hang : core_safe (hang (A := A)).
Proof. done. Qed.
#[export] Instance core_lift (r : res A) : core_safe (lift r).
Proof. by destruct r. Qed.
#[export] Instance core_gets (g : session → A) : core_safe (gets g).
Proof. done. Qed.
#[export] Instance core_bind m f : core_safe m → (∀ a, core_safe (f a)) → core_safe (m ≫= f).
Proof.
  intros Hm Hf s. rewrite bind_eq. pose proof (Hm s) as H.
  destruct (m s) as [[a|e|] s1]; [rewrite (Hf a s1)|..]; exact H.
Qed.
#[export] Instance core_try m (h : exn → M session A) :
  core_safe m → (∀ e, core_safe (h e)) → core_safe (try_except m h).
Proof.
  intros Hm Hh s. unfold try_except. pose proof (Hm s) as H.
  destruct (m s) as [[a|e|] s1]; [|rewrite (Hh e s1)|]; exact H.
Qed.

End closure.

#[export] Instance logs_suppress E p (m : M session unit) : logs E m → logs E (suppress p m).
Proof. intros Hm. apply logs_try; [done|]. intros e. destruct (p e); apply _. Qed.
#[export] Instance core_suppress p (m : M session unit) : core_safe m → core_safe (suppress p m).
Proof. intros Hm. apply core_try; [done|]. intros e. destruct (p e); apply _. Qed.

(** A program that branches has a footprint when every branch does. *)
Ltac footprint :=
  repeat first
    [ progress intros
    | match goal with |- context [match ?x with _ => _ end] => destruct x end
    | apply _
    | match goal with |- logs _ (_ ≫= _) => apply logs_bind
                    | |- core_safe (_ ≫= _) => apply core_bind
                    | |- logs _ (try_except _ _) => apply logs_try
                    | |- core_safe (try_except _ _) => apply core_try
                    | |- logs _ (suppress _ _) => apply logs_suppress
                    | |- core_safe (suppress _ _) => apply core_suppress
                    | |- logs _ (try_finally _ _) => apply logs_finally end ].

(** ** The primitive calls *)
#[export] Instance get_logs E : logs E (get (S := session)).
Proof. intros s. exists []. by rewrite app_nil_r. Qed.
#[export] Instance get_core : core_safe (get (S := session)).
Proof. done. Qed.

Lemma log_event_logs E e : E e → logs E (log_event e).
Proof. intros He s. exists [e]. by repeat constructor. Qed.
#[export] Instance log_event_core e : core_safe (log_event e).
Proof. done. Qed.

(** Primitives that consume one reply and log nothing *)
Ltac primitive :=
  intros s; unfold monotonic, new_token, read_reply, running, wait_exit, output_cursor,
    coordinator_reply; unfold_prog;
  destruct s as [[] ? ? ? ? ? ?]; unfold core; cbn;
  repeat (match goal with |- context [match ?r with _ => _ end] => is_var r; destruct r end; cbn);
  try (exists []; rewrite app_nil_r); first [done | split; [lia|done] | split; [lia|tauto] | tauto | idtac].

#[export] Instance monotonic_logs E : logs E monotonic.
Proof. primitive. Qed.
#[export] Instance monotonic_core : core_safe monotonic.
Proof. primitive. Qed.
#[export] Instance new_token_logs E : logs E new_token.
Proof. primitive. Qed.
#[export] Instance new_token_core : core_safe new_token.
Proof. primitive. Qed.
#[export] Instance read_reply_logs E : logs E read_reply.
Proof. primitive. Qed.
#[export] Instance read_reply_core : core_safe read_reply.
Proof. primitive. Qed.
#[export] Instance running_logs E : logs E running.
Proof. primitive. Qed.
#[export] Instance running_core : core_safe running.
Proof. primitive. Qed.
#[export] Instance wait_exit_logs E : logs E wait_exit.
Proof. primitive. Qed.
#[export] Instance wait_exit_core : core_safe wait_exit.
Proof. primitive. Qed.
#[export] Instance output_cursor_logs E : logs E output_cursor.
Proof. primitive. Qed.
#[export] Instance output_cursor_core : core_safe output_cursor.
Proof. primitive. Qed.
#[export] Instance coordinator_reply_logs E : logs E coordinator_reply.
Proof. primitive. Qed.
#[export] Instance coordinator_reply_core : core_safe coordinator_reply.
Proof. primitive. Qed.

Lemma call_logs E e : E e → logs E (call e).
Proof.
  intros He s. exists [e]. unfold call, log_event. unfold_prog.
  destruct s as [[? ? ? ? [|[] ?] ? ? ? ?] ? ? ? ? ? ?]; cbn; by repeat constructor.
Qed.
#[export] Instance call_core e : core_safe (call e).
Proof.
  intros s. unfold call, log_event. unfold_prog.
  by destruct s as [[? ? ? ? [|[] ?] ? ? ? ?] ? ? ? ? ? ?].
Qed.

#[export] Instance modify_cursor_logs E c : logs E (modify (set_cursor c)).
Proof. intros s. exists []. by rewrite app_nil_r. Qed.
#[export] Instance modify_cursor_core c : core_safe (modify (set_cursor c)).
Proof. done. Qed.
#[export] Instance clear_command_logs E t : logs E (clear_command t).
Proof. intros s. exists []. rewrite app_nil_r. unfold clear_command. unfold_prog. by case_match. Qed.

#[export] Instance on_machine_logs E {A} (f : Q → M SessionStateMachine A) : logs E (on_machine f).
Proof.
  intros s. exists []. rewrite app_nil_r. unfold on_machine. split; [|done].
  repeat case_match; done.
Qed.

(** No operation of the state machine waits. *)
Lemma transition_no_hang now t m : (transition now t m).1 ≠ Hang.
Proof. destruct (transition_cases now t m) as [[_ ->]|(e & -> & _)]; cbn; congruence. Qed.
#[export] Instance move_to_logs E t : logs E (move_to t).
Proof. unfold move_to. footprint. Qed.
#[export] Instance require_state_logs E l : logs E (require_state l).
Proof. unfold require_state. apply _. Qed.
#[export] Instance get_state_logs E : logs E get_state.
Proof. unfold get_state. apply _. Qed.
#[export] Instance get_state_core : core_safe get_state.
Proof. unfold get_state. apply _. Qed.

(** ** The programs of the session *)
Section programs.
Context {U : UnicodeDB} (os_environ : dict str).

#[export] Instance modify_detector_logs E d : logs E (modify (set_detector d)).
Proof. intros s. exists []. by rewrite app_nil_r. Qed.
#[export] Instance modify_detector_core d : core_safe (modify (set_detector d)).
Proof. done. Qed.

(** *** What leaves the session object alone *)
#[export] Instance write_core b : core_safe (write b) := _.
#[export] Instance submit_core used r : core_safe (submit used r).
Proof. unfold submit. footprint. Qed.
#[export] Instance submit_all_core used rs : core_safe (submit_all used rs).
Proof. revert used. induction rs as [|r rs IH]; intros used; cbn [submit_all]; footprint. Qed.
#[export] Instance respond_core p : core_safe (respond p).
Proof. unfold respond. footprint. Qed.
#[export] Instance permit_core g : core_safe (permit g).
Proof. unfold permit. footprint. Qed.
#[export] Instance is_prompt_allowed_core g : core_safe (is_prompt_allowed g).
Proof. unfold is_prompt_allowed. footprint. Qed.
#[export] Instance encode_and_write_core t : core_safe (encode_and_write t).
Proof. unfold encode_and_write. footprint. Qed.
#[export] Instance write_command_chunk_core t : core_safe (write_command_chunk t).
Proof. unfold write_command_chunk, sleep. footprint. Qed.
#[export] Instance write_long_line_core n a b : core_safe (write_long_line n a b).
Proof. revert a b. induction n as [|n IH]; intros a b; cbn [write_long_line]; footprint. Qed.
#[export] Instance write_lines_core l a : core_safe (write_lines l a).
Proof. revert a. induction l as [|x l IH]; intros a; cbn [write_lines]; footprint. Qed.
#[export] Instance write_command_core w : core_safe (write_command w).
Proof. unfold write_command. footprint. Qed.
#[export] Instance feed_parser_core d f p : core_safe (feed_parser d f p).
Proof. unfold feed_parser. destruct (Framing.feed d f p) as [[]]; apply _. Qed.
#[export] Instance clock_fuel_core : core_safe clock_fuel.
Proof. unfold clock_fuel. apply _. Qed.
#[export] Instance failure_check_core b : core_safe (failure_check b).
Proof. unfold failure_check. footprint. Qed.

End programs.

(** ** State specifications *)

(** From a state where [P] holds, [m] returns into [Q], raises into [R], or
    waits for the environment. *)
Definition hoare {A} (P : session → Prop) (m : M session A) (Q : A → session → Prop)
    (R : exn → session → Prop) : Prop :=
  ∀ s, P s → match m s with
             | (Ret a, s') => Q a s'
             | (Raise e, s') => R e s'
             | (Hang, _) => True
             end.

Lemma core_eq s s' : core s' = core s → machine s' = machine s ∧ active_token s' = active_token s.
Proof. unfold core. intros H. by simplify_eq. Qed.

(** The session is in one of these states, and this command is active. *)
Definition at_ (l : list SessionState) (t : option str) (s : session) : Prop :=
  state_of s ∈ l ∧ active_token s = t.

(** The session is authenticating, to return to state [x]. *)
Definition paused (x : SessionState) (t : option str) (s : session) : Prop :=
  at_ [AUTHENTICATION_REQUIRED] t s ∧ st_auth_return (machine s) = Some x.

(** [P] speaks of the core only. *)
Definition core_closed (P : session → Prop) : Prop := ∀ s s', core s' = core s → P s → P s'.
Lemma at_closed l t : core_closed (at_ l t).
Proof.
  intros s s' H. apply core_eq in H as [Hm Ha]. unfold at_, state_of. by rewrite Hm, Ha.
Qed.
Lemma paused_closed x t : core_closed (paused x t).
Proof.
  intros s s' H. pose proof (at_closed [AUTHENTICATION_REQUIRED] t s s' H) as Hc.
  apply core_eq in H as [Hm Ha]. unfold paused. rewrite Hm. by intros [? ?]; split; [apply Hc|].
Qed.
Lemma at_weaken l l' t s : at_ l t s → l ⊆ l' → at_ l' t s.
Proof. intros [H ?] Hl. split; [by apply Hl|done]. Qed.

Section hoare_rules.
Context {A B : Type}.
Implicit Types (m : M session A) (P : session → Prop).

Lemma hoare_bind P m (f : A → M session B) Q Q' R :
  hoare P m Q R → (∀ a, hoare (Q a) (f a) Q' R) → hoare P (m ≫= f) Q' R.
Proof.
  intros Hm Hf s Hs. rewrite bind_eq. specialize (Hm s Hs).
  destruct (m s) as [[a|e|] s1]; [apply (Hf a s1 Hm)|done|done].
Qed.
Lemma hoare_try P m h Q R R' :
  hoare P m Q R → (∀ e, hoare (R e) (h e) Q R') → hoare P (try_except m h) Q R'.
Proof.
  intros Hm Hh s Hs. unfold try_except. specialize (Hm s Hs).
  destruct (m s) as [[a|e|] s1]; [done|apply (Hh e s1 Hm)|done].
Qed.
Lemma hoare_conseq P P' m (Q Q' : A → session → Prop) (R R' : exn → session → Prop) :
  hoare P' m Q' R' → (∀ s, P s → P' s) → (∀ a s, Q' a s → Q a s) → (∀ e s, R' e s → R e s) →
  hoare P m Q R.
Proof.
  intros Hm HP HQ HR s Hs. specialize (Hm s (HP s Hs)).
  destruct (m s) as [[a|e|] s1]; auto.
Qed.
Lemma hoare_ret P (a : A) (Q : A → session → Prop) R :
  (∀ s, P s → Q a s) → hoare P (mret a) Q R.
Proof. intros H s Hs. apply H, Hs. Qed.
Lemma hoare_raise P e (Q : A → session → Prop) (R : exn → session → Prop) :
  (∀ s, P s → R e s) → hoare P (raise e) Q R.
Proof. intros H s Hs. apply H, Hs. Qed.
Lemma hoare_core P m (R : exn → session → Prop) :
  core_safe m → core_closed P → (∀ e s, P s → R e s) → hoare P m (fun _ => P) R.
Proof.
  intros Hm HP HR s Hs. specialize (Hm s).
  destruct (m s) as [[a|e|] s1]; cbn [snd] in Hm; try apply HR; try done; by apply (HP s).
Qed.
Lemma hoare_get P (f : session → M session B) Q R :
  (∀ x, hoare P (f x) Q R) → hoare P (get ≫= f) Q R.
Proof. intros H s Hs. exact (H s s Hs). Qed.
End hoare_rules.

(** Moving from a known state *)
Lemma hoare_move l t target :
  (∀ x, x ∈ l → target ∈ ALLOWED_TRANSITIONS x) →
  hoare (at_ l t) (move_to target) (fun _ => at_ [target] t) (fun _ _ => False).
Proof.
  intros Hl s [Hs Ht]. unfold move_to. rewrite bind_eq. unfold on_machine.
  destruct s as [[c ? ? ? ? ? ? ? ?] m ? ? ? ? ?]. unfold state_of in Hs. cbn in *.
  specialize (Hl _ Hs).
  destruct c as [|now c]; rewrite transition_ok by done; cbn;
    rewrite (proj2 (Z.eqb_neq _ _)) by lia; [done|]. cbn. split; [set_solver|done].
Qed.

Lemma hoare_get_state l t {B} (f : SessionState → M session B) Q R :
  (∀ x, x ∈ l → hoare (at_ [x] t) (f x) Q R) → hoare (at_ l t) (get_state ≫= f) Q R.
Proof.
  intros H s [Hs Ht]. rewrite bind_eq. cbn. apply (H _ Hs). split; [|done]. unfold state_of.
  set_solver.
Qed.

Lemma hoare_begin_authentication x t :
  x ∈ [STARTING; EXECUTING] →
  hoare (at_ [x] t) (on_machine begin_authentication)
    (fun _ => paused x t) (fun _ _ => False).
Proof.
  intros Hx s [Hs Ht]. unfold on_machine.
  destruct s as [[c ? ? ? ? ? ? ? ?] m ? ? ? ? ?]. unfold state_of in Hs. cbn in *.
  apply list_elem_of_singleton in Hs.
  assert (Hb : ∀ now, begin_authentication now m =
    (Ret tt, Machine AUTHENTICATION_REQUIRED (st_generation m + 1) now (Some (st_state m))))
    by (intros; apply begin_authentication_ok; by rewrite Hs).
  destruct c as [|now c]; rewrite Hb; cbn; rewrite (proj2 (Z.eqb_neq _ _)) by lia; [done|]. cbn.
  split; [split; [set_solver|done]|by rewrite Hs].
Qed.

Lemma hoare_finish_authentication x t :
  x ∈ [STARTING; EXECUTING] →
  hoare (paused x t) (on_machine finish_authentication) (fun _ => at_ [x] t) (fun _ _ => False).
Proof.
  intros Hx s [[Hs Ht] Hr]. unfold on_machine.
  destruct s as [[c ? ? ? ? ? ? ? ?] m ? ? ? ? ?]. unfold state_of in Hs. cbn in *.
  apply list_elem_of_singleton in Hs.
  assert (Hb : ∀ now, finish_authentication now m =
                (Ret tt, Machine x (st_generation m + 1) now None))
    by (intros; apply finish_authentication_ok; [done|done|]; set_solver).
  destruct c as [|now c]; rewrite Hb; cbn; rewrite (proj2 (Z.eqb_neq _ _)) by lia; [done|]. cbn.
  split; [set_solver|done].
Qed.

(** Readings of the clock and of the process never raise. *)
Lemma monotonic_no_raise P (R : exn → session → Prop) :
  core_closed P → hoare P monotonic (fun _ => P) R.
Proof.
  intros HP s Hs. pose proof (monotonic_core s) as Hc. unfold monotonic in *.
  unfold_prog in Hc. unfold_prog. destruct (clock (world s)); [done|]. by apply (HP s).
Qed.
Lemma running_no_raise P (R : exn → session → Prop) :
  core_closed P → hoare P running (fun _ => P) R.
Proof.
  intros HP s Hs. pose proof (running_core s) as Hc. unfold running in *.
  unfold_prog in Hc. unfold_prog. destruct (alive (world s)); [done|]. by apply (HP s).
Qed.

(** Solve an inclusion of state predicates. *)
Ltac weaken :=
  intros; cbv beta in *; match goal with
          | H : False |- _ => destruct H
          | H : at_ _ ?t ?s |- at_ _ ?t ?s => apply (at_weaken _ _ _ _ H); set_solver
          | H : paused _ ?t ?s |- at_ _ ?t ?s => destruct H as [H _];
                                                 apply (at_weaken _ _ _ _ H); set_solver
          | |- _ => done
          end.
(** Every listed state allows the transition. *)
Ltac allowed :=
  intros ? Hy; repeat (apply elem_of_cons in Hy as [->|Hy]; [cbn; set_solver|]);
  by apply elem_of_nil in Hy.
(** Step over a program that leaves the core alone. *)
Ltac core_step :=
  eapply hoare_bind;
  [first [ apply monotonic_no_raise; first [apply at_closed | apply paused_closed]
         | apply running_no_raise; first [apply at_closed | apply paused_closed]
         | apply hoare_core; [footprint|first [apply at_closed | apply paused_closed]|weaken]]
  |cbv beta].

Section specifications.
Context {U : UnicodeDB} (os_environ : dict str).

Lemma hoare_authenticate pol e x t :
  x ∈ [STARTING; EXECUTING] →
  hoare (at_ [x] t) (authenticate pol e) (fun _ => at_ [x] t)
    (fun _ => at_ [FAILED; AUTHENTICATION_REQUIRED] t).
Proof.
  intros Hx. unfold authenticate.
  eapply hoare_bind with (Q := fun _ => paused x t).
  { eapply hoare_conseq; [by apply (hoare_begin_authentication x t)|weaken..]. }
  intros _. core_step. intros started. eapply hoare_bind with (Q := fun _ => paused x t).
  { eapply hoare_try with (R := fun _ => paused x t).
    - apply hoare_core; [footprint|apply paused_closed|done].
    - intros e'. core_step. intros alive.
      eapply hoare_bind with (Q := fun _ => paused x t).
      { apply hoare_core; [unfold terminate; footprint|apply paused_closed|weaken]. }
      intros _. eapply hoare_bind with (Q := fun _ => at_ [FAILED] t).
      { eapply hoare_conseq; [apply (hoare_move [AUTHENTICATION_REQUIRED] t FAILED)|weaken..].
        allowed. }
      intros _. apply hoare_raise. weaken. }
  intros _. eapply hoare_bind with (Q := fun _ => at_ [x] t).
  { eapply hoare_conseq; [by apply (hoare_finish_authentication x t)|weaken..]. }
  intros _. destruct (timed pol); [core_step; intros now|]; by apply hoare_ret.
Qed.

(** A policy that allows no prompt leaves the session alone. *)
Lemma handle_no_prompts es g q s tok tm :
  handle_events (Policy [] tok tm) es g q s = (Ret (g, q), s).
Proof. induction es as [|e es IH]; [done|]. cbn. apply IH. Qed.

Lemma hoare_handle_events pol es g q x t :
  x ∈ [STARTING; EXECUTING] →
  hoare (at_ [x] t) (handle_events pol es g q) (fun _ => at_ [x] t)
    (fun _ => at_ [x; FAILED; AUTHENTICATION_REQUIRED] t).
Proof.
  intros Hx. revert g q. induction es as [|e es IH]; intros g q; cbn [handle_events].
  { by apply hoare_ret. }
  destruct (skipped pol e); [apply IH|]. core_step. intros [ok g']. destruct (negb ok); [apply IH|].
  eapply hoare_bind; [|intros; apply IH].
  eapply hoare_conseq; [by apply (hoare_authenticate pol e x t)|weaken..].
Qed.

(** The states an exception may leave behind, given the policy *)
Definition failures (pol : prompt_policy) : list SessionState :=
  match allowed_kinds pol with [] => [] | _ => [FAILED; AUTHENTICATION_REQUIRED] end.

Lemma hoare_read pol g timeout x t :
  x ∈ [STARTING; EXECUTING] →
  hoare (at_ [x] t) (read_and_handle_prompts timeout pol g) (fun _ => at_ [x] t)
    (fun _ => at_ (x :: failures pol) t).
Proof.
  intros Hx. unfold read_and_handle_prompts, wait_for_data. core_step. intros r. core_step.
  intros _. destruct (data r) as [|c d]; [by apply hoare_ret|].
  apply hoare_get. intros s. destruct (Prompts.feed _ _) as [events d'].
  core_step. intros _. eapply hoare_bind with (Q := fun _ => at_ [x] t).
  - unfold failures. destruct pol as [[|k ks] tok tm]; cbn [allowed_kinds].
    + intros s' Hs'. by rewrite handle_no_prompts.
    + eapply hoare_conseq; [by apply (hoare_handle_events _ events g (qz 0) x t)|weaken..].
  - intros [g' spent]. by apply hoare_ret.
Qed.

Lemma hoare_lose l t :
  l ⊆ [EXECUTING; LOST] →
  hoare (at_ l t) lose_executing_session (fun _ => at_ [LOST] t) (fun _ => at_ [LOST] t).
Proof.
  intros Hl. unfold lose_executing_session. apply hoare_get_state. intros x Hx.
  eapply hoare_bind with (Q := fun _ => at_ [LOST] t).
  - case_decide.
    + eapply hoare_conseq; [apply (hoare_move [EXECUTING] t LOST)|weaken..]. allowed.
    + apply hoare_ret. intros s Hs. apply (at_weaken _ _ _ _ Hs). set_solver.
  - intros _. apply hoare_core; [unfold terminate; footprint|apply at_closed|weaken].
Qed.

Lemma hoare_outcome_unknown {A} P message (Q : A → session → Prop) R :
  (∀ s e, P s → isinstance e OutcomeUnknown = true → R e s) →
  hoare P (outcome_unknown message) Q R.
Proof. intros H. apply hoare_raise. intros s Hs. by apply H. Qed.

(** Losing the session and reporting an unknown outcome *)
Lemma hoare_lose_unknown {A} l t message (Q : A → session → Prop) (R : exn → session → Prop) :
  l ⊆ [EXECUTING; LOST] → (∀ e s, at_ [LOST] t s → R e s) →
  hoare (at_ l t) (lose_executing_session;; outcome_unknown message) Q R.
Proof.
  intros Hl HR. eapply hoare_bind with (Q := fun _ => at_ [LOST] t).
  - eapply hoare_conseq; [by apply (hoare_lose l t)|auto..].
  - intros _. apply hoare_outcome_unknown. auto.
Qed.

Lemma hoare_send_interrupt tok t :
  hoare (at_ [EXECUTING] t) (send_interrupt tok) (fun _ => at_ [EXECUTING] t)
    (fun _ => at_ [EXECUTING; LOST] t).
Proof.
  unfold send_interrupt. eapply hoare_try with (R := fun _ => at_ [EXECUTING] t).
  - apply hoare_core; [unfold sleep; footprint|apply at_closed|done].
  - intros e. destruct (is_exception e); [|apply hoare_raise; weaken].
    apply hoare_lose_unknown; [set_solver|weaken].
Qed.

Lemma hoare_feed data final p l t :
  hoare (at_ l t) (feed_parser data final p) (fun _ => at_ l t) (fun _ => at_ l t).
Proof. apply hoare_core; [apply _|apply at_closed|done]. Qed.
Lemma require_ok l s : state_of s ∈ l → require_state l s = (Ret tt, s).
Proof.
  intros H. unfold require_state, on_machine, require. unfold_prog.
  destruct s as [[c ? ? ? ? ? ? ? ?] m ? ? ? ? ?]. unfold state_of in H. cbn in *.
  rewrite bool_decide_true by done. destruct c; cbn; by rewrite Z.eqb_refl.
Qed.

Lemma require_refused l s : state_of s ∉ l →
  ∃ e, require_state l s = (Raise e, s) ∧ isinstance e InvalidSessionState = true.
Proof.
  intros H. unfold require_state, on_machine, require. unfold_prog.
  destruct s as [[c ? ? ? ? ? ? ? ?] m ? ? ? ? ?]. unfold state_of in H. cbn in *.
  rewrite bool_decide_false by done. eexists. destruct c; cbn; by rewrite Z.eqb_refl.
Qed.

End specifications.

(** ** Delivery of a command *)

(** What was written to the terminal *)
Definition writes (l : list event) : list bytes :=
  omap (fun e => match e with Wrote b => Some b | _ => None end) l.
Lemma writes_app a b : writes (a ++ b) = writes a ++ writes b.
Proof. apply omap_app. Qed.

(** [m] writes the beginning of [text] in chunks of at most 512 characters; when
    it returns [a], what is left of [text] satisfies [Q a]. *)
Definition delivers (text : str) {A} (m : M session A) (Q : A → str → Prop) : Prop :=
  ∀ s, ∃ l chunks rest,
    log (world (m s).2) = log (world s) ++ l ∧ writes l = map utf8_bytes chunks ∧
    Forall (fun c => len c <= COMMAND_INPUT_CHUNK_CHARACTERS) chunks ∧
    text = concat chunks ++ rest ∧
    match (m s).1 with Ret a => Q a rest | _ => True end.

Lemma delivers_bind {A B} text (m : M session A) (f : A → M session B) Q Q' :
  delivers text m Q → (∀ a rest, Q a rest → delivers rest (f a) Q') →
  delivers text (m ≫= f) Q'.
Proof.
  intros Hm Hf s. rewrite bind_eq. destruct (Hm s) as (l & cs & rest & Hl & Hw & Hc & Ht & HQ).
  destruct (m s) as [[a|e|] s1]; cbn in Hl, HQ; try (by exists l, cs, rest).
  destruct (Hf a rest HQ s1) as (l2 & cs2 & rest2 & Hl2 & Hw2 & Hc2 & Ht2 & HQ2).
  exists (l ++ l2), (cs ++ cs2), rest2.
  rewrite Hl2, Hl, writes_app, Hw, Hw2, map_app, concat_app, Ht, Ht2, !app_assoc.
  split_and!; try done. by apply Forall_app.
Qed.

Lemma delivers_nothing {A} text (m : M session A) (Q : A → str → Prop) :
  logs (fun e => match e with Wrote _ => False | _ => True end) m → (∀ a, Q a text) →
  delivers text m Q.
Proof.
  intros Hm HQ s. destruct (Hm s) as (l & Hl & HE). exists l, [], text.
  split_and!; try done.
  - clear Hl. induction l as [|e l IH]; [done|]. apply Forall_cons in HE as [He HE].
    destruct e; try done; by apply IH.
  - destruct (m s).1; [apply HQ|done..].
Qed.

Lemma delivers_ret {A} text (a : A) (Q : A → str → Prop) : Q a text → delivers text (mret a) Q.
Proof. intros HQ s. exists [], [], text. by rewrite app_nil_r. Qed.

Lemma utf8_encode_eq t b : utf8_encode t = Ok b → b = utf8_bytes t.
Proof. unfold utf8_encode. case_match; [done|]. by intros [= <-]. Qed.

Lemma delivers_write chunk rest :
  len chunk <= COMMAND_INPUT_CHUNK_CHARACTERS →
  delivers (chunk ++ rest) (encode_and_write chunk) (fun _ r => r = rest).
Proof.
  intros Hc s. unfold encode_and_write. rewrite bind_eq. unfold lift.
  destruct (utf8_encode chunk) as [b|e] eqn:E; cbn -[write].
  - apply utf8_encode_eq in E. subst b. unfold write, call, log_event. unfold_prog.
    exists [Wrote (utf8_bytes chunk)], [chunk], rest.
    destruct s as [[? ? ? ? [|[] ?] ? ? ? ?] ? ? ? ? ? ?]; cbn; rewrite app_nil_r;
      by repeat constructor.
  - exists [], [], (chunk ++ rest). by rewrite app_nil_r.
Qed.

Lemma delivers_chunk chunk rest :
  len chunk <= COMMAND_INPUT_CHUNK_CHARACTERS →
  delivers (chunk ++ rest) (write_command_chunk chunk) (fun _ r => r = rest).
Proof.
  intros Hc. unfold write_command_chunk. eapply delivers_bind; [by apply delivers_write|].
  intros _ r ->. apply delivers_nothing; [|done]. unfold sleep. by apply log_event_logs.
Qed.

Lemma delivers_pending pending rest :
  len pending <= COMMAND_INPUT_CHUNK_CHARACTERS →
  delivers (pending ++ rest) (match pending with [] => mret tt | _ => write_command_chunk pending end)
    (fun _ r => r = rest).
Proof.
  intros Hp. destruct pending; [|by apply delivers_chunk]. by apply delivers_ret.
Qed.

Lemma delivers_long_line n pending line rest :
  len pending <= COMMAND_INPUT_CHUNK_CHARACTERS → (length line ≤ n)%nat →
  delivers (pending ++ line ++ rest) (write_long_line n pending line)
    (fun r t => t = r.1 ++ r.2 ++ rest ∧ len r.1 <= COMMAND_INPUT_CHUNK_CHARACTERS ∧
                len r.2 <= COMMAND_INPUT_CHUNK_CHARACTERS).
Proof.
  revert pending line. induction n as [|n IH]; intros pending line Hp Hn; cbn [write_long_line].
  { destruct line; [|cbn in Hn; lia]. by apply delivers_ret. }
  destruct (Z.leb_spec (len line) COMMAND_INPUT_CHUNK_CHARACTERS).
  { by apply delivers_ret. }
  eapply delivers_bind; [by apply delivers_pending|]. intros _ ? ->.
  set (k := Z.to_nat COMMAND_INPUT_CHUNK_CHARACTERS).
  replace (line ++ rest) with (take k line ++ drop k line ++ rest)
    by (by rewrite app_assoc, take_drop).
  eapply delivers_bind; [apply delivers_chunk|].
  { unfold k. rewrite len_take by done. lia. }
  intros _ ? ->. apply (IH []); [done|]. unfold k in *. rewrite length_drop.
  unfold COMMAND_INPUT_CHUNK_CHARACTERS, len in *. lia.
Qed.

Lemma delivers_lines lines pending :
  len pending <= COMMAND_INPUT_CHUNK_CHARACTERS →
  delivers (pending ++ concat lines) (write_lines lines pending) (fun _ r => r = []).
Proof.
  revert pending. induction lines as [|line lines IH]; intros pending Hp; cbn [write_lines concat].
  { destruct pending as [|c p]; [by apply delivers_ret|].
    by apply (delivers_write (c :: p) []). }
  eapply delivers_bind; [by apply delivers_long_line|]. intros [p l] ? (-> & Hp' & Hl). cbn in *.
  destruct (_ && _) eqn:E.
  - eapply delivers_bind; [by apply delivers_chunk|]. intros _ ? ->. by apply IH.
  - rewrite app_assoc. apply IH. rewrite len_app. apply andb_false_iff in E as [E|E]; boolean.
    + apply Z.eqb_eq in E. lia.
    + done.
Qed.

(** Splitting into lines loses nothing. *)
Lemma splitlines_acc_concat s acc : concat (splitlines_acc s acc) = rev acc ++ s.
Proof.
  remember (length s) as n eqn:Hn. revert s acc Hn.
  induction (lt_wf n) as [n _ IH]. intros s acc ->. destruct s as [|c s]; cbn [splitlines_acc].
  { destruct acc; [done|]. cbn [concat]. by rewrite !app_nil_r. }
  destruct (line_break c).
  - destruct s as [|d s]; [cbn; by rewrite app_nil_r|].
    destruct (_ && _).
    + cbn [concat]. rewrite (IH (length s)) by (cbn; lia || done). cbn. by rewrite <- !app_assoc.
    + cbn [concat]. rewrite (IH (length (d :: s))) by (cbn; lia || done). cbn.
      by rewrite <- !app_assoc.
  - rewrite (IH (length s)) by (cbn; lia || done). cbn. by rewrite <- app_assoc.
Qed.

Lemma delivers_command w : delivers w (write_command w) (fun _ r => r = []).
Proof.
  unfold write_command. destruct (Z.leb_spec (len w) COMMAND_INPUT_CHUNK_CHARACTERS).
  - pose proof (delivers_write w [] ltac:(done)) as H1. by rewrite app_nil_r in H1.
  - pose proof (delivers_lines (splitlines_keep w) [] ltac:(done)) as H1.
    assert (E : concat (splitlines_keep w) = w) by apply splitlines_acc_concat.
    cbn [app] in H1. rewrite E in H1. exact H1.
Qed.

(** *** What a command's execution writes besides the command *)
Definition recovery_text {U : UnicodeDB} (b : bytes) : Prop :=
  ∃ token nonce text, interrupt_recovery_wrapper token nonce = Ok text ∧ b = utf8_bytes text.
Definition secret_line (b : bytes) : Prop :=
  ∃ r, b = r ++ cr ∧ 1 <= len r <= MAX_AUTH_RESPONSE_BYTES ∧ 10 ∉ r ∧ 13 ∉ r.
Definition control_event {U : UnicodeDB} (pol : prompt_policy) (e : event) : Prop :=
  match e with
  | Wrote b => b = REMOTE_VINTR_BYTE ∨ recovery_text b ∨
               (secret_line b ∧ allowed_kinds pol ≠ [])
  | Asked p => skipped pol p = false
  | _ => True
  end.
Section control.
Context {U : UnicodeDB} (pol : prompt_policy).
Abbreviation E := (control_event pol).

Lemma secret_line_ok r :
  invalid_secret_length r = false → has_line_ending r = false → secret_line (r ++ cr).
Proof.
  unfold invalid_secret_length, has_line_ending, mem_Z.
  intros [L1%Z.eqb_neq L2%Z.ltb_ge]%orb_false_iff [R1 R2]%orb_false_iff. exists r.
  assert (Hm : ∀ c, existsb (Z.eqb c) r = false → c ∉ r).
  { intros c Hc Hin. apply list_elem_of_In in Hin.
    assert (existsb (Z.eqb c) r = true); [|congruence]. apply existsb_exists. exists c.
    by rewrite Z.eqb_refl. }
  pose proof (len_nonneg r). split_and!; auto; lia.
Qed.

Lemma submit_logs used r : allowed_kinds pol ≠ [] → logs E (submit used r).
Proof.
  intros Hp. unfold submit. destruct used; [apply _|].
  destruct (invalid_secret_length r) eqn:E1; [apply _|].
  destruct (has_line_ending r) eqn:E2; [apply _|]. apply logs_bind; [|apply _].
  apply call_logs. cbn. auto using secret_line_ok.
Qed.
Lemma submit_all_logs used rs : allowed_kinds pol ≠ [] → logs E (submit_all used rs).
Proof.
  intros Hp. revert used. induction rs as [|r rs IH]; intros used; cbn [submit_all]; [apply _|].
  apply logs_bind; [by apply submit_logs|]. auto.
Qed.
Lemma respond_logs p : skipped pol p = false → logs E (respond p).
Proof.
  intros Hs. assert (Hp : allowed_kinds pol ≠ []).
  { intros Hp. unfold skipped in Hs. rewrite Hp in Hs. cbn in Hs. discriminate. }
  unfold respond. apply logs_bind; [by apply log_event_logs|]. intros _.
  apply logs_bind; [apply _|]. intros a. apply logs_bind; [by apply submit_all_logs|].
  intros used. destruct (failure a); apply _.
Qed.
#[export] Instance terminate_logs : logs E terminate.
Proof. by apply call_logs. Qed.
#[export] Instance vintr_logs : logs E (write REMOTE_VINTR_BYTE).
Proof. apply call_logs. by left. Qed.
#[export] Instance sleep_logs q : logs E (sleep q).
Proof. by apply log_event_logs. Qed.
#[export] Instance wait_for_data_logs q : logs E (wait_for_data q).
Proof. unfold wait_for_data. apply logs_bind; [by apply log_event_logs|apply _]. Qed.
Lemma authenticate_logs e : skipped pol e = false → logs E (authenticate pol e).
Proof. intros Hs. pose proof (respond_logs e Hs). unfold authenticate. footprint. Qed.
#[export] Instance is_prompt_allowed_logs g : logs E (is_prompt_allowed g).
Proof. unfold is_prompt_allowed, permit. footprint. Qed.
#[export] Instance handle_events_logs es g q : logs E (handle_events pol es g q).
Proof.
  revert g q. induction es as [|e es IH]; intros g q; cbn [handle_events]; [apply _|].
  destruct (skipped pol e) eqn:Es; [apply IH|]. pose proof (authenticate_logs e Es). footprint.
Qed.
#[export] Instance read_logs t g : logs E (read_and_handle_prompts t pol g).
Proof. unfold read_and_handle_prompts. footprint. Qed.
#[export] Instance handle_no_prompts_logs es g q : logs E (handle_events no_prompts es g q).
Proof. intros s. exists []. unfold no_prompts. by rewrite handle_no_prompts, app_nil_r. Qed.
#[export] Instance read_no_prompts_logs t g : logs E (read_and_handle_prompts t no_prompts g).
Proof. unfold read_and_handle_prompts. footprint. Qed.
#[export] Instance feed_parser_logs d f p : logs E (feed_parser d f p).
Proof. unfold feed_parser. destruct (Framing.feed d f p) as [[]]; apply _. Qed.
#[export] Instance lose_logs : logs E lose_executing_session.
Proof. unfold lose_executing_session. footprint. Qed.
#[export] Instance outcome_unknown_logs A m : logs E (outcome_unknown (A := A) m).
Proof. unfold outcome_unknown. apply _. Qed.
Lemma recovery_write_logs tok n text :
  interrupt_recovery_wrapper tok n = Ok text → logs E (encode_and_write text).
Proof.
  intros Ht. unfold encode_and_write. unfold utf8_encode. case_match; cbn.
  - intros s. exists []. by rewrite app_nil_r.
  - apply (call_logs E (Wrote (utf8_bytes text))). right. left. by exists tok, n, text.
Qed.
#[export] Instance send_interrupt_logs tok : logs E (send_interrupt tok).
Proof.
  unfold send_interrupt. apply logs_try; [|footprint].
  apply logs_bind; [apply _|]. intros _. apply logs_bind; [apply _|]. intros _.
  apply logs_bind; [apply _|]. intros s.
  destruct (interrupt_recovery_wrapper tok (Some (shell_nonce s))) as [text|e] eqn:Et; cbn.
  - intros s'. rewrite bind_eq. cbn. by apply (recovery_write_logs _ _ _ Et).
  - intros s'. exists []. by rewrite app_nil_r.
Qed.
#[export] Instance clock_fuel_logs : logs E clock_fuel.
Proof. unfold clock_fuel. apply _. Qed.
#[export] Instance recovery_loop_logs n d p : logs E (recovery_loop n d p).
Proof. revert p. induction n as [|n IH]; intros p; cbn [recovery_loop]; footprint. Qed.
#[export] Instance finish_execution_logs r t : logs E (finish_execution r t).
Proof. unfold finish_execution. footprint. Qed.
#[export] Instance execution_loop_logs n d t g p : logs E (execution_loop n d t pol g p).
Proof. revert d g p. induction n as [|n IH]; intros d g p; cbn [execution_loop]; footprint. Qed.
#[export] Instance recover_timed_out_logs tok t p : logs E (recover_timed_out tok t p).
Proof. unfold recover_timed_out, wait_for_recovery. footprint. Qed.
#[export] Instance fail_execution_logs e : logs E (fail_execution e).
Proof. unfold fail_execution. footprint. Qed.

(** A program first delivers (part of) [text] and then only controls. *)
Definition delivery (text : str) {A} (m : M session A) : Prop :=
  ∀ s, ∃ l1 l2 chunks rest,
    log (world (m s).2) = log (world s) ++ l1 ++ l2 ∧ writes l1 = map utf8_bytes chunks ∧
    Forall (fun c => len c <= COMMAND_INPUT_CHUNK_CHARACTERS) chunks ∧
    text = concat chunks ++ rest ∧ Forall E l2 ∧
    match (m s).1 with Ret _ => rest = [] | _ => True end.

Lemma delivery_then {A B} text (m : M session A) (f : A → M session B) :
  delivers text m (fun _ r => r = []) → (∀ a, logs E (f a)) → delivery text (m ≫= f).
Proof.
  intros Hm Hf s. rewrite bind_eq. destruct (Hm s) as (l1 & cs & rest & Hl & Hw & Hc & Ht & HQ).
  destruct (m s) as [[a|e|] s1]; cbn in Hl, HQ;
    try (exists l1, [], cs, rest; by rewrite app_nil_r).
  destruct (Hf a s1) as (l2 & Hl2 & HE). exists l1, l2, cs, rest.
  rewrite Hl2, Hl, app_assoc. split_and!; try done. by destruct (f a s1) as [[]].
Qed.

Lemma delivery_try {A} text (m : M session A) h :
  delivery text m → (∀ e, logs E (h e)) → (∀ e s, ¬ ∃ a, (h e s).1 = Ret a) →
  delivery text (try_except m h).
Proof.
  intros Hm Hh Hr s. unfold try_except.
  destruct (Hm s) as (l1 & l2 & cs & rest & Hl & Hw & Hc & Ht & HE & HQ).
  destruct (m s) as [[a|e|] s1]; cbn in Hl, HQ; try (by exists l1, l2, cs, rest).
  destruct (Hh e s1) as (l3 & Hl3 & HE3). exists l1, (l2 ++ l3), cs, rest.
  rewrite Hl3, Hl, !app_assoc. split_and!; try done; [by apply Forall_app|].
  specialize (Hr e s1). destruct (h e s1).1; [|done..]. destruct Hr. eauto.
Qed.

Lemma delivery_finally {A} text (m : M session A) h :
  delivery text m → logs E h → delivery text (try_finally m h).
Proof.
  intros Hm Hh s. unfold try_finally.
  destruct (Hm s) as (l1 & l2 & cs & rest & Hl & Hw & Hc & Ht & HE & HQ).
  destruct (Hh (m s).2) as (l3 & Hl3 & HE3).
  destruct (m s) as [[a|e|] s1]; cbn in Hl, Hl3, HQ; try (by exists l1, l2, cs, rest);
    (exists l1, (l2 ++ l3), cs, rest; destruct (h s1) as [[] s2]; cbn in *;
     rewrite Hl3, Hl, !app_assoc; split_and!; try done; by apply Forall_app).
Qed.

End control.

(** *** The programs before delivery *)
Section before_delivery.
Context {U : UnicodeDB}.

(** Nothing is logged and the nonce stays. *)
Definition silent (s s' : session) : Prop :=
  log (world s') = log (world s) ∧ shell_nonce s' = shell_nonce s.

Lemma on_machine_silent {A} (f : Q → M SessionStateMachine A) s : silent s (on_machine f s).2.
Proof. unfold on_machine, silent. repeat case_match; done. Qed.
Lemma move_to_silent t s : silent s (move_to t s).2.
Proof.
  unfold move_to. rewrite bind_eq. pose proof (on_machine_silent (fun now => transition now t) s).
  by destruct (on_machine _ s) as [[] ?].
Qed.
Lemma monotonic_silent s : silent s (monotonic s).2.
Proof. unfold monotonic. unfold_prog. unfold silent. by destruct (clock (world s)). Qed.
Lemma new_token_cases s :
  new_token s = (Hang, s) ∨
  ∃ tok s1, new_token s = (Ret tok, s1) ∧ silent s s1 ∧ head (tokens (world s)) = Some tok ∧
            machine s1 = machine s ∧ active_token s1 = active_token s.
Proof.
  unfold new_token. unfold_prog. unfold silent. destruct (tokens (world s)) as [|t l]; [by left|].
  right. by do 2 eexists.
Qed.
Lemma activate_silent t s : silent s (activate_command t s).2.
Proof. unfold activate_command. unfold_prog. by destruct (active_token s). Qed.

Lemma silent_trans s1 s2 s3 : silent s1 s2 → silent s2 s3 → silent s1 s3.
Proof. unfold silent. intros [-> ->] [? ?]. done. Qed.

Lemma parser_wrapper command tok max nonce p :
  new_parser tok max (Some nonce) = Ok p → ∃ w, command_wrapper command tok (Some nonce) = Ok w.
Proof.
  unfold new_parser, command_wrapper. intros H. inv_ok H.
  unfold mbind, result_mbind, result_bind. rewrite Ha, Ha0. eauto.
Qed.

Definition delivered (command : str) (pol : prompt_policy) (tok nonce : str) {A}
    (s : session) (r : outcome exn A * session) : Prop :=
  ∃ w l1 l2 chunks rest,
    command_wrapper command tok (Some nonce) = Ok w ∧
    log (world r.2) = log (world s) ++ l1 ++ l2 ∧ writes l1 = map utf8_bytes chunks ∧
    Forall (fun c => len c <= COMMAND_INPUT_CHUNK_CHARACTERS) chunks ∧
    w = concat chunks ++ rest ∧ Forall (control_event pol) l2 ∧
    match r.1 with Ret _ => rest = [] | _ => True end.

Lemma guarded_delivery command tok timeout started allow token p s :
  (∃ w, command_wrapper command tok (Some (shell_nonce s)) = Ok w) →
  delivered command (execution_policy allow token) tok (shell_nonce s) s
    (try_finally
       (try_except (execution_body command tok timeout started allow token p) fail_execution)
       (clear_command tok) s).
Proof.
  intros [w Hw]. exists w. set (pol := execution_policy allow token).
  assert (Hd : delivery pol w
    (try_finally
       (try_except
          (write_command w ≫= fun _ => clock_fuel ≫= fun fuel =>
           execution_loop fuel (qadd started timeout) started pol (execution_gate allow) p
             ≫= fun r => match r with
                         | inl x => mret x
                         | inr p => recover_timed_out tok timeout p
                         end) fail_execution)
       (clear_command tok))).
  { apply delivery_finally; [|apply _]. apply delivery_try.
    - apply delivery_then; [apply delivers_command|]. intros _. footprint.
    - apply _.
    - intros e s1 [a Ha]. unfold fail_execution in Ha. rewrite bind_eq in Ha. cbn in Ha.
      case_decide; rewrite ?bind_eq in Ha; [|done].
      pose proof (running_no_raise (fun _ => True) (fun _ _ => False) ltac:(done) s1 I) as Hr.
      destruct (running s1) as [[b|e'|] s2]; [|done..].
      destruct (move_to _ s2) as [[]]; done. }
  destruct (Hd s) as (l1 & l2 & cs & rest & H). exists l1, l2, cs, rest. split; [done|].
  revert H. unfold try_finally, try_except, execution_body.
  rewrite (bind_eq get). unfold get. rewrite (bind_eq (lift _)). rewrite Hw. cbn -[write_command].
  auto.
Qed.

End before_delivery.

(** ** At most one authentication *)
Section budget.
Context {U : UnicodeDB}.

Definition asked (l : list event) : list PromptEvent :=
  omap (fun e => match e with Asked p => Some p | _ => None end) l.
Definition asks (l : list event) : nat := length (asked l).
Lemma asks_app a b : asks (a ++ b) = (asks a + asks b)%nat.
Proof. unfold asks, asked. by rewrite omap_app, length_app. Qed.

(** [m] asks for at most [n] authentications; [Q a k] holds of what it returns
    and of the number it could still have asked for. *)
Definition spends (n : nat) {A} (m : M session A) (Q : A → nat → Prop) : Prop :=
  ∀ s, ∃ l, log (world (m s).2) = log (world s) ++ l ∧
            match (m s).1 with
            | Ret a => ∃ k, (asks l + k = n)%nat ∧ Q a k
            | _ => (asks l ≤ n)%nat
            end.

Lemma spends_bind {A B} n (m : M session A) (f : A → M session B) Q Q' :
  spends n m Q → (∀ a k, Q a k → spends k (f a) Q') → spends n (m ≫= f) Q'.
Proof.
  intros Hm Hf s. rewrite bind_eq. destruct (Hm s) as (l & Hl & HQ).
  destruct (m s) as [[a|e|] s1]; cbn in Hl, HQ; try (by exists l).
  destruct HQ as (k & Hk & HQ). destruct (Hf a k HQ s1) as (l2 & Hl2 & H2).
  exists (l ++ l2). rewrite Hl2, Hl, asks_app, app_assoc. split; [done|].
  destruct (f a s1).1 as [b|e|]; [|lia..]. destruct H2 as (k2 & ? & ?). exists k2. split; [lia|done].
Qed.

Definition no_ask (e : event) : Prop := match e with Asked _ => False | _ => True end.
Lemma spends_none {A} n (m : M session A) (Q : A → nat → Prop) :
  logs no_ask m → (∀ a, Q a n) → spends n m Q.
Proof.
  intros Hm HQ s. destruct (Hm s) as (l & Hl & HE). exists l. split; [done|].
  assert (asks l = 0%nat) as ->.
  { clear Hl. induction HE as [|e l He HE IH]; [done|]. by destruct e. }
  destruct (m s).1; [|lia..]. by exists n.
Qed.
Lemma spends_ret {A} n (a : A) (Q : A → nat → Prop) : Q a n → spends n (mret a) Q.
Proof. intros H s. exists []. rewrite app_nil_r. split; [done|]. by exists n. Qed.

Lemma spends_weaken {A} n n' (m : M session A) (Q Q' : A → nat → Prop) :
  spends n m Q → (n ≤ n')%nat → (∀ a k, Q a k → Q' a (k + (n' - n))%nat) → spends n' m Q'.
Proof.
  intros Hm Hn HQ s. destruct (Hm s) as (l & Hl & H). exists l. split; [done|].
  destruct (m s).1; [|lia..]. destruct H as (k & ? & ?). exists (k + (n' - n))%nat.
  split; [lia|auto].
Qed.

(** What a gate still allows *)
Definition budget (g : option gate) : nat :=
  match g with Some g => if authentication_started g then 0 else 1 | None => 0 end.

Lemma submit_no_ask used r : logs no_ask (submit used r).
Proof.
  unfold submit. repeat case_match; try apply _. apply logs_bind; [by apply call_logs|apply _].
Qed.
Lemma submit_all_no_ask used rs : logs no_ask (submit_all used rs).
Proof.
  revert used. induction rs as [|r rs IH]; intros used; cbn [submit_all]; [apply _|].
  apply logs_bind; [apply submit_no_ask|auto].
Qed.

Lemma spends_respond p : spends 1 (respond p) (fun _ k => k = 0%nat).
Proof.
  unfold respond. eapply spends_bind with (Q := fun _ k => k = 0%nat).
  { intros s. exists [Asked p]. split; [done|]. cbn. by exists 0%nat. }
  intros _ k ->. apply spends_none; [|done].
  apply logs_bind; [apply _|]. intros a. apply logs_bind; [apply submit_all_no_ask|].
  intros used. destruct (failure a); apply _.
Qed.

Lemma spends_try {A} n (m : M session A) h Q :
  spends n m Q → (∀ e, logs no_ask (h e)) → (∀ e s, ¬ ∃ a, (h e s).1 = Ret a) →
  spends n (try_except m h) Q.
Proof.
  intros Hm Hh Hr s. unfold try_except. destruct (Hm s) as (l & Hl & HQ).
  destruct (m s) as [[a|e|] s1]; cbn in Hl, HQ; try (by exists l).
  destruct (Hh e s1) as (l2 & Hl2 & HE). exists (l ++ l2).
  rewrite Hl2, Hl, asks_app, app_assoc. split; [done|].
  assert (asks l2 = 0%nat) as ->.
  { clear Hl2. induction HE as [|x l2 He HE IH]; [done|]. by destruct x. }
  specialize (Hr e s1). destruct (h e s1).1; [destruct Hr; eauto|lia..].
Qed.

#[export] Instance terminate_no_ask : logs no_ask terminate.
Proof. by apply call_logs. Qed.
#[export] Instance write_no_ask b : logs no_ask (write b).
Proof. by apply call_logs. Qed.
#[export] Instance encode_no_ask t : logs no_ask (encode_and_write t).
Proof. unfold encode_and_write. footprint. Qed.
#[export] Instance sleep_no_ask q : logs no_ask (sleep q).
Proof. by apply log_event_logs. Qed.
#[export] Instance wait_for_data_no_ask q : logs no_ask (wait_for_data q).
Proof. unfold wait_for_data. apply logs_bind; [by apply log_event_logs|apply _]. Qed.
#[export] Instance lose_no_ask : logs no_ask lose_executing_session.
Proof. unfold lose_executing_session. footprint. Qed.
#[export] Instance outcome_unknown_no_ask A m : logs no_ask (outcome_unknown (A := A) m).
Proof. unfold outcome_unknown. apply _. Qed.
#[export] Instance feed_parser_no_ask d f p : logs no_ask (feed_parser d f p).
Proof. unfold feed_parser. destruct (Framing.feed d f p) as [[]]; apply _. Qed.

Lemma spends_authenticate pol e : spends 1 (authenticate pol e) (fun _ k => k = 0%nat).
Proof.
  unfold authenticate. eapply spends_bind with (Q := fun _ k => k = 1%nat).
  { apply spends_none; [apply _|done]. }
  intros _ k ->. eapply spends_bind with (Q := fun _ k => k = 1%nat).
  { apply spends_none; [apply _|done]. }
  intros started k ->. eapply spends_bind with (Q := fun _ k => k = 0%nat).
  { apply spends_try.
    - eapply spends_bind; [apply spends_respond|]. intros used k ->.
      apply spends_none; [footprint|done].
    - footprint.
    - intros e' s [a Ha]. rewrite bind_eq in Ha.
      pose proof (running_no_raise (fun _ => True) (fun _ _ => False) ltac:(done) s I) as Hr.
      destruct (running s) as [[b|x|] s2]; [|done..]. rewrite bind_eq in Ha.
      destruct ((if b then terminate else mret ()) s2) as [[]]; [|done..]. rewrite bind_eq in Ha.
      by destruct (move_to FAILED s0) as [[]]. }
  intros _ k ->. apply spends_none; [footprint|done].
Qed.

Lemma spends_handle_events pol es g q :
  g ≠ None → spends (budget g) (handle_events pol es g q) (fun r k => k = budget r.1 ∧ r.1 ≠ None).
Proof.
  revert g q. induction es as [|e es IH]; intros g q Hg; cbn [handle_events].
  { by apply spends_ret. }
  destruct (skipped pol e); [by apply IH|]. destruct g as [g|]; [|done].
  cbn [is_prompt_allowed]. unfold permit. destruct (authentication_started g) eqn:Eg; cbn [negb].
  - destruct (repeated_prompt_interrupted g) eqn:Er; cbn [negb].
    + apply (IH (Some g)). done.
    + eapply spends_bind with (Q := fun r k => r = (false, Some (Gate true true)) ∧ k = 0%nat).
      { eapply spends_bind with (Q := fun r k => r = (false, Gate true true) ∧ k = 0%nat).
        - eapply spends_bind; [apply spends_none with (Q := fun _ k => k = 0%nat); [apply _|]|].
          + cbn. by rewrite Eg.
          + intros _ k ->. by apply spends_ret.
        - intros ? k [-> ->]. by apply spends_ret. }
      intros ? k [-> ->]. cbn [negb]. by apply (IH (Some (Gate true true))).
  - replace (budget (Some g)) with 1%nat by (cbn; by rewrite Eg).
    apply (spends_bind 1 (mret (true, Gate true (repeated_prompt_interrupted g)) ≫=
             fun '(ok, g) => mret (ok, Some g)) _
             (fun r k => r = (true, Some (Gate true (repeated_prompt_interrupted g))) ∧ k = 1%nat)).
    { by apply (spends_ret 1). }
    intros ? k [-> ->]. cbn [negb]. eapply spends_bind; [apply spends_authenticate|].
    intros seconds k ->. by apply (IH (Some (Gate true (repeated_prompt_interrupted g)))).
Qed.

(** A gate to count with, or no prompt allowed at all *)
Definition gated (pol : prompt_policy) (g : option gate) : Prop :=
  g ≠ None ∨ allowed_kinds pol = [].

Lemma spends_handle pol es g q :
  gated pol g → spends (budget g) (handle_events pol es g q) (fun r k => k = budget r.1 ∧ gated pol r.1).
Proof.
  intros [Hg|Hp].
  - pose proof (spends_handle_events pol es g q Hg) as H. intros s. destruct (H s) as (l & Hl & HQ).
    exists l. split; [done|]. destruct (handle_events pol es g q s).1; try done.
    destruct HQ as (k & ? & ? & ?). exists k. split; [done|]. split; [done|]. by left.
  - intros s. exists []. destruct pol as [ks tok tm]; cbn in Hp; subst ks.
    rewrite handle_no_prompts, app_nil_r. split; [done|]. exists (budget g).
    split; [done|]. split; [done|]. by right.
Qed.

Lemma spends_read t pol g :
  gated pol g →
  spends (budget g) (read_and_handle_prompts t pol g)
    (fun r k => k = budget r.1.2 ∧ gated pol r.1.2).
Proof.
  intros Hg. unfold read_and_handle_prompts.
  eapply spends_bind with (Q := fun _ k => k = budget g); [by apply spends_none; [apply _|]|].
  intros r k ->. eapply spends_bind with (Q := fun _ k => k = budget g);
    [by apply spends_none; [apply _|]|]. intros _ k ->.
  destruct (data r) as [|c d]; [by apply spends_ret|].
  intros s. rewrite (bind_eq get). unfold get. destruct (Prompts.feed _ _) as [events d']. revert s.
  fold (spends (budget g) (modify (set_detector d') ≫= fun _ =>
    handle_events pol events g (qz 0) ≫= fun '(g, spent) => mret (c :: d, g, spent))
    (fun r k => k = budget r.1.2 ∧ gated pol r.1.2)).
  eapply spends_bind with (Q := fun _ k => k = budget g); [by apply spends_none; [apply _|]|].
  intros _ k ->. eapply spends_bind; [by apply spends_handle|]. intros [g' spent] k [-> Hg'].
  by apply spends_ret.
Qed.

#[export] Instance read_no_ask t g : logs no_ask (read_and_handle_prompts t no_prompts g).
Proof.
  unfold read_and_handle_prompts.
  assert (∀ es g q, logs no_ask (handle_events no_prompts es g q)).
  { intros es g' q s. exists []. unfold no_prompts. by rewrite handle_no_prompts, app_nil_r. }
  footprint.
Qed.
#[export] Instance recovery_no_ask n d p : logs no_ask (recovery_loop n d p).
Proof. revert p. induction n as [|n IH]; intros p; cbn [recovery_loop]; footprint. Qed.
#[export] Instance send_interrupt_no_ask t : logs no_ask (send_interrupt t).
Proof. unfold send_interrupt. footprint. Qed.
#[export] Instance recover_no_ask tok t p : logs no_ask (recover_timed_out tok t p).
Proof. unfold recover_timed_out, wait_for_recovery, clock_fuel. footprint. Qed.
#[export] Instance finish_execution_no_ask r t : logs no_ask (finish_execution r t).
Proof. unfold finish_execution. footprint. Qed.
#[export] Instance write_long_line_no_ask n a b : logs no_ask (write_long_line n a b).
Proof.
  revert a b. induction n as [|n IH]; intros a b; cbn [write_long_line];
    unfold write_command_chunk; footprint.
Qed.
#[export] Instance write_lines_no_ask l a : logs no_ask (write_lines l a).
Proof.
  revert a. induction l as [|x l IH]; intros a; cbn [write_lines];
    unfold write_command_chunk; footprint.
Qed.
#[export] Instance write_command_no_ask w : logs no_ask (write_command w).
Proof. unfold write_command. footprint. Qed.

(** Only the total matters from here on. *)
Abbreviation any := (fun _ _ => True).

Lemma spends_quietly {A} n (m : M session A) : logs no_ask m → spends n m any.
Proof. intros Hm. by apply spends_none. Qed.

Lemma spends_then {A B} n (m : M session A) (f : A → M session B) :
  logs no_ask m → (∀ a, spends n (f a) any) → spends n (m ≫= f) any.
Proof.
  intros Hm Hf. eapply spends_bind with (Q := fun _ k => k = n); [by apply spends_none|].
  intros a k ->. apply Hf.
Qed.

Lemma spends_execution_loop n d started pol g p :
  gated pol g → spends (budget g) (execution_loop n d started pol g p) any.
Proof.
  revert d g p. induction n as [|n IH]; intros d g p Hg; cbn [execution_loop].
  { apply spends_quietly, _. }
  apply spends_then; [apply _|]. intros now. destruct (qlt now d); [|by apply spends_ret].
  apply spends_then; [apply _|]. intros now'.
  eapply spends_bind; [by apply spends_read|]. intros [[data g'] spent] k [-> Hg'].
  apply spends_then; [footprint|]. intros [[r|] p'].
  - apply spends_quietly. footprint.
  - apply spends_then; [apply _|]. intros alive. destruct (negb alive); [|by apply IH].
    apply spends_quietly. footprint.
Qed.

Lemma spends_finally {A} n (m : M session A) h :
  spends n m any → logs no_ask h → spends n (try_finally m h) any.
Proof.
  intros Hm Hh s. unfold try_finally. destruct (Hm s) as (l & Hl & HQ).
  destruct (Hh (m s).2) as (l2 & Hl2 & HE).
  assert (Ha : asks l2 = 0%nat).
  { clear Hl2. induction HE as [|x l2 He HE IH]; [done|]. by destruct x. }
  destruct (m s) as [[a|e|] s1]; cbn in Hl, HQ, Hl2; try (by exists l);
    (exists (l ++ l2); destruct (h s1) as [[] s2]; cbn in *;
     rewrite Hl2, Hl, asks_app, app_assoc, Ha; (split; [done|])); try lia.
  - destruct HQ as (k & ? & _). exists k. split; [lia|done].
  - destruct HQ as (k & ? & _). lia.
  - destruct HQ as (k & ? & _). lia.
Qed.

Lemma spends_execution_body command tok timeout started allow token p :
  spends (budget (execution_gate allow))
    (execution_body command tok timeout started allow token p) any.
Proof.
  unfold execution_body, clock_fuel. do 3 (apply spends_then; [apply _|]; intros ?).
  apply spends_then; [apply _|]. intros fuel.
  eapply spends_bind; [apply spends_execution_loop; destruct allow; [by left|by right]|].
  intros r k _. apply spends_quietly. footprint.
Qed.

Lemma spends_execute command timeout allow token :
  spends (budget (execution_gate allow)) (execute command timeout allow token) any.
Proof.
  unfold execute. destruct (invalid_command command); [apply spends_quietly, _|].
  destruct (negb _); [apply spends_quietly, _|].
  do 4 (apply spends_then; [apply _|]; intros ?).
  apply spends_then.
  { intros s. exists []. unfold activate_command. unfold_prog. rewrite app_nil_r.
    by destruct (active_token s). }
  intros _. do 2 (apply spends_then; [apply _|]; intros ?).
  apply spends_finally; [|apply _]. apply spends_try; [apply spends_execution_body| |].
  - intros e. unfold fail_execution. footprint.
  - intros e s [x Hx]. unfold fail_execution in Hx. rewrite bind_eq in Hx. cbn in Hx.
    case_decide; rewrite ?bind_eq in Hx; [|done].
    pose proof (running_no_raise (fun _ => True) (fun _ _ => False) ltac:(done) s I) as Hr.
    destruct (running s) as [[b|e'|] s2]; [|done..].
    by destruct (move_to _ s2) as [[]].
Qed.

End budget.

Section asked_prompts.
Context {U : UnicodeDB} (pol : prompt_policy).

Lemma logs_weaken (E E' : event → Prop) {A} (m : M session A) :
  logs E m → (∀ e, E e → E' e) → logs E' m.
Proof.
  intros Hm HE s. destruct (Hm s) as (l & Hl & H). exists l. split; [done|].
  eapply Forall_impl; [exact H|auto].
Qed.

(** Every prompt handed to the coordinator is one the policy allows. *)
Definition asks_allowed (e : event) : Prop :=
  match e with Asked p => skipped pol p = false | _ => True end.
Lemma control_asks {A} (m : M session A) : logs (control_event pol) m → logs asks_allowed m.
Proof. intros H. eapply logs_weaken; [exact H|]. by intros []. Qed.
Lemma no_ask_asks {A} (m : M session A) : logs no_ask m → logs asks_allowed m.
Proof. intros H. eapply logs_weaken; [exact H|]. by intros []. Qed.

Lemma execute_asks command timeout allow token :
  pol = execution_policy allow token → logs asks_allowed (execute command timeout allow token).
Proof.
  intros Hp.
  assert (∀ tok t st p, logs asks_allowed (execution_body command tok t st allow token p)).
  { intros. unfold execution_body, clock_fuel. rewrite <- Hp.
    repeat (apply logs_bind; [first [apply _ | apply no_ask_asks, _ | apply control_asks, _]
                             |intros ?]). apply control_asks. footprint. }
  assert (∀ tok, logs asks_allowed (activate_command tok)).
  { intros tok s. exists []. unfold activate_command. unfold_prog. rewrite app_nil_r.
    by destruct (active_token s). }
  assert (∀ e, logs asks_allowed (fail_execution e)) by (intros; apply control_asks, _).
  unfold execute. footprint.
Qed.

End asked_prompts.

Lemma sudo_prompt_carries t p :
  skipped (execution_policy true (Some t)) p = false →
  kind p = SUDO_PASSWORD ∧ ∃ t', Some t = Some t' ∧ contains t' (prompt p) = true.
Proof.
  unfold skipped. cbn. intros [H1%negb_false_iff H2]%orb_false_iff.
  apply bool_decide_eq_true, list_elem_of_singleton in H1. split; [done|]. exists t.
  split; [done|]. rewrite H1 in H2. cbn in H2. by apply negb_false_iff in H2.
Qed.

(** ** Opening and closing *)
Section opening.
Context {U : UnicodeDB} (os_environ : dict str).

Abbreviation startup := [STARTING; FAILED; AUTHENTICATION_REQUIRED].

Lemma hoare_bootstrap n d c p t :
  hoare (at_ [STARTING] t) (bootstrap_loop n d c p) (fun _ => at_ [STARTING] t)
    (fun _ => at_ [STARTING] t).
Proof.
  revert p. induction n as [|n IH]; intros p; cbn [bootstrap_loop]; [done|].
  core_step. intros now. destruct (qlt now d); [|by apply hoare_raise].
  core_step. intros _. core_step. intros now'.
  eapply hoare_bind with (Q := fun _ => at_ [STARTING] t).
  { eapply hoare_conseq; [apply (hoare_read no_prompts None _ STARTING t)|weaken..]. set_solver. }
  intros [[data g] spent]. core_step. intros [[r|] p'].
  - core_step. intros alive. destruct (negb alive); [by apply hoare_raise|].
    destruct (negb _); [by apply hoare_raise|by apply hoare_ret].
  - core_step. intros alive. destruct (negb alive); [by apply hoare_raise|]. apply IH.
Qed.

Lemma hoare_initialize t timeout c :
  hoare (at_ [STARTING] t) (initialize_shell timeout c) (fun _ => at_ [STARTING] t)
    (fun _ => at_ [STARTING] t).
Proof.
  unfold initialize_shell. core_step. intros tok. apply hoare_get. intros s.
  core_step. intros p. core_step. intros w. core_step. intros _. core_step. intros now.
  core_step. intros n. apply hoare_bootstrap.
Qed.

Lemma hoare_open_loop n d c pol g t :
  hoare (at_ [STARTING] t) (open_loop n d c pol g) (fun _ => at_ [READY] t)
    (fun _ => at_ startup t).
Proof.
  revert g. induction n as [|n IH]; intros g; cbn [open_loop]; [done|].
  assert (Hfail : ∀ e : exn, hoare (at_ [STARTING] t) (move_to FAILED;; raise e)
    (fun _ : unit => at_ [READY] t) (fun _ => at_ startup t)).
  { intros e. eapply hoare_bind with (Q := fun _ => at_ [FAILED] t).
    - eapply hoare_conseq; [apply (hoare_move [STARTING] t FAILED)|weaken..]. allowed.
    - intros _. apply hoare_raise. weaken. }
  core_step. intros now. destruct (qlt now d); [|apply Hfail].
  core_step. intros _. core_step. intros now'.
  eapply hoare_bind with (Q := fun _ => at_ [STARTING] t).
  { eapply hoare_conseq; [apply (hoare_read pol g _ STARTING t); set_solver|weaken..|].
    intros e s Hs. apply (at_weaken _ _ _ _ Hs). unfold failures. case_match; set_solver. }
  intros [[data g'] spent]. apply hoare_get. intros s. destruct (ready (detector s)).
  - core_step. intros _. core_step. intros now2.
    eapply hoare_bind with (Q := fun _ => at_ [STARTING] t).
    { eapply hoare_conseq; [apply (hoare_initialize t)|weaken..]. }
    intros _. eapply hoare_conseq; [apply (hoare_move [STARTING] t READY)|weaken..]. allowed.
  - core_step. intros alive. destruct (negb alive); [apply Hfail|apply IH].
Qed.

(** A failure that is an ordinary exception has failed the session. *)
Definition opened_badly (t : option str) (e : exn) (s : session) : Prop :=
  is_exception e = true → at_ [FAILED] t s.

Lemma hoare_fail_open e t :
  hoare (at_ startup t) (fail_open e) (fun _ _ => False) (opened_badly t).
Proof.
  unfold fail_open. eapply hoare_bind; [apply running_no_raise, at_closed|]. intros alive.
  eapply hoare_bind with (Q := fun _ => at_ startup t).
  { destruct alive; [|by apply hoare_ret]. unfold suppress.
    eapply hoare_try with (R := fun _ => at_ startup t).
    - apply hoare_core; [unfold terminate; footprint|apply at_closed|done].
    - intros e'. destruct (is_exception e') eqn:Ee; [by apply hoare_ret|].
      apply hoare_raise. intros s _ H. congruence. }
  intros _. apply hoare_get_state. intros x Hx.
  eapply hoare_bind with (Q := fun _ => at_ [FAILED] t).
  - case_decide as Hd.
    + eapply hoare_conseq; [apply (hoare_move [x] t FAILED)|weaken..].
      intros y Hy. apply list_elem_of_singleton in Hy as ->. revert Hd. clear.
      intros Hd. destruct x; cbn; set_solver.
    + apply hoare_ret. intros s [Hs Ht]. split; [|done].
      apply list_elem_of_singleton in Hs. rewrite Hs. set_solver.
  - intros _. apply hoare_raise. by intros s Hs _.
Qed.

Lemma hoare_open args timeout allow token environment check t s0 :
  hoare (fun s => at_ [CREATED] t s ∧ log (world s) = log (world s0))
    (open os_environ args timeout allow token environment check)
    (fun _ => at_ [READY] t)
    (fun e s => at_ [CREATED] t s ∧ log (world s) = log (world s0) ∨ opened_badly t e s).
Proof.
  unfold open. eapply hoare_bind with (Q := fun _ s => at_ [CREATED] t s ∧ log (world s) = log (world s0)).
  { intros s [Hs Hl]. rewrite require_ok; [done|apply Hs]. }
  intros _. destruct (negb _); [apply hoare_raise; by left|].
  eapply hoare_bind with (Q := fun _ => at_ [STARTING] t).
  { eapply hoare_conseq; [apply (hoare_move [CREATED] t STARTING)|by intros ? []|weaken..].
    allowed. }
  intros _. eapply hoare_conseq with (P' := at_ [STARTING] t) (Q' := fun _ => at_ [READY] t)
    (R' := opened_badly t); [|done|done|by right].
  eapply hoare_try with (R := fun _ => at_ startup t);
    [|intros e; eapply hoare_conseq; [apply (hoare_fail_open e t)|done|by intros ? ? []|done]].
  unfold open_body. core_step. intros _. core_step. intros now. core_step. intros n.
  apply hoare_open_loop.
Qed.

End opening.

Lemma begin_close_cases s :
  (state_of s = CLOSED ∧ on_machine begin_close s = (Ret false, s)) ∨
  (state_of s ≠ CLOSED ∧
   (on_machine begin_close s = (Hang, s) ∨
    ∃ s1, on_machine begin_close s = (Ret true, s1) ∧ state_of s1 = CLOSING ∧
          log (world s1) = log (world s))).
Proof.
  destruct (decide (state_of s = CLOSED)) as [E|E]; [left|right]; (split; [done|]).
  - unfold on_machine. destruct s as [[c ? ? ? ? ? ? ? ?] m ? ? ? ? ?]. unfold state_of in E.
    cbn in *. assert (H : ∀ now, begin_close now m = (Ret false, m)).
    { intros now. unfold begin_close. unfold_prog. by rewrite bool_decide_true. }
    destruct c; rewrite H; by rewrite Z.eqb_refl.
  - unfold on_machine. destruct s as [[c ? ? ? ? ? ? ? ?] m ? ? ? ? ?]. unfold state_of in E.
    cbn in *. destruct c as [|now c].
    + destruct (begin_close_open (qz 0) m E) as (m' & -> & Hm). case_match; [right|by left].
      eexists. split; [done|]. done.
    + destruct (begin_close_open now m E) as (m' & -> & Hm). right.
      case_match; eexists; (split; [done|]); done.
Qed.

(** ** Properties *)

(** C3: a command is delivered at most once.  Executing it either
    writes nothing, or writes the beginning of the wrapper made for one fresh
    token, in order and in chunks of at most 512 characters; everything
    written after that is the interrupt byte, the recovery wrapper, or one
    line answering a prompt the policy allows.  A result means the whole
    wrapper was written. *)
Theorem command_delivered_once {U : UnicodeDB} command timeout allow token s :
  let r := execute command timeout allow token s in
  (log (world r.2) = log (world s) ∧ ¬ ∃ x, r.1 = Ret x) ∨
  ∃ tok, head (tokens (world s)) = Some tok ∧
         delivered command (execution_policy allow token) tok (shell_nonce s) s r.
Proof.
  cbn zeta. unfold execute. destruct (invalid_command command); [left; by split; [|intros [? ?]]|].
  destruct (negb _); [left; by split; [|intros [? ?]]|].
  rewrite bind_eq. destruct (decide (state_of s ∈ [READY])) as [Hr|Hr].
  2:{ destruct (require_refused _ _ Hr) as (e & -> & _). left; by split; [|intros [? ?]]. }
  rewrite require_ok by done. rewrite bind_eq.
  destruct (new_token_cases s) as [->|(tok & s1 & -> & H1 & Hh & _)];
    [left; by split; [|intros [? ?]]|].
  rewrite (bind_eq get). unfold get. rewrite (bind_eq (lift _)).
  destruct (new_parser tok (max_output s1) (Some (shell_nonce s1))) as [p|e] eqn:Hp; cbn [lift].
  2:{ left. split; [apply H1|by intros [? ?]]. }
  apply (parser_wrapper command) in Hp.
  rewrite (bind_eq (activate_command _)). pose proof (activate_silent tok s1) as H2.
  destruct (activate_command tok s1) as [[[]|e|] s2]; cbn [snd] in H2;
    try (left; split; [apply (silent_trans _ _ _ H1 H2)|by intros [? ?]]).
  rewrite (bind_eq (move_to _)). pose proof (move_to_silent EXECUTING s2) as H3.
  pose proof (silent_trans _ _ _ H1 H2) as H12.
  destruct (move_to EXECUTING s2) as [[[]|e|] s3]; cbn [snd] in H3;
    try (left; split; [apply (silent_trans _ _ _ H12 H3)|by intros [? ?]]).
  rewrite (bind_eq monotonic). pose proof (monotonic_silent s3) as H4.
  pose proof (silent_trans _ _ _ H12 H3) as H13.
  destruct (monotonic s3) as [[started|e|] s4]; cbn [snd] in H4;
    try (left; split; [apply (silent_trans _ _ _ H13 H4)|by intros [? ?]]).
  pose proof (silent_trans _ _ _ H13 H4) as [Hlog Hn]. right. exists tok. split; [done|].
  assert (Hn1 : shell_nonce s1 = shell_nonce s4) by (destruct H1 as [_ E1]; congruence).
  rewrite Hn1 in Hp. pose proof (guarded_delivery command tok timeout started allow token p s4 Hp) as Hg.
  unfold delivered in *. by rewrite Hlog, Hn in Hg.
Qed.

(** C7: a command asks for authentication at most once, and only
    when sudo prompts are allowed: every prompt handed to the coordinator is a
    sudo prompt that carries this operation's own token. *)
Theorem single_bound_authentication {U : UnicodeDB} command timeout allow token s :
  ∃ l, log (world (execute command timeout allow token s).2) = log (world s) ++ l ∧
       (length (asked l) ≤ 1)%nat ∧ (allow = false → asked l = []) ∧
       Forall (fun p => allow = true ∧ kind p = SUDO_PASSWORD ∧
                        ∃ t, token = Some t ∧ contains t (prompt p) = true) (asked l).
Proof.
  destruct (spends_execute command timeout allow token s) as (l & Hl & HQ). exists l.
  split; [done|].
  assert (Hn : (asks l ≤ budget (execution_gate allow))%nat)
    by (destruct (execute _ _ _ _ s).1; [destruct HQ as (k & ? & _); lia|lia..]).
  assert (Ha : (length (asked l) ≤ if allow then 1 else 0)%nat)
    by (unfold asks in Hn; by destruct allow).
  split_and!.
  - destruct allow; lia.
  - intros ->. destruct (asked l); [done|cbn in Ha; lia].
  - destruct (execute_asks _ command timeout allow token eq_refl s) as (l' & Hl' & HE).
    rewrite Hl in Hl'. apply app_inv_head in Hl' as <-.
    destruct (decide (allow = bool_decide (is_Some token))) as [Hg|Hg].
    + destruct allow; [|by destruct (asked l); [|cbn in Ha; lia]].
      symmetry in Hg. apply bool_decide_eq_true in Hg as [t ->].
      apply Forall_forall. intros p Hp. split; [done|].
      unfold asked in Hp. apply list_elem_of_omap in Hp as (e & He & Hpe).
      rewrite Forall_forall in HE. specialize (HE e He). destruct e; try done.
      injection Hpe as ->. by apply sudo_prompt_carries.
    + assert (l = []) as ->; [|done]. unfold execute in Hl.
      destruct (invalid_command command); [|destruct (eqb _ _) eqn:Eb];
        [|apply eqb_prop in Eb; done|]; cbn in Hl; rewrite <- (app_nil_r (log _)) in Hl at 1; by apply app_inv_head in Hl.
Qed.

(** Opening a session either reaches a shell whose bootstrap
    frame was verified and leaves the session ready, or raises: before anything
    was started, with the session as it was, or afterwards with the session
    failed, so that no half-open session is ever usable. *)
Theorem open_settles {U : UnicodeDB} os_environ args timeout allow token environment check s :
  state_of s = CREATED →
  match open os_environ args timeout allow token environment check s with
  | (Ret _, s') => state_of s' = READY
  | (Raise e, s') =>
      is_exception e = true →
      state_of s' = FAILED ∨ state_of s' = CREATED ∧ log (world s') = log (world s)
  | (Hang, _) => True
  end.
Proof.
  intros Hs.
  pose proof (hoare_open os_environ args timeout allow token environment check (active_token s) s s
    ltac:(split; [split; [rewrite Hs; set_solver|done]|done])) as H.
  destruct (open _ _ _ _ _ _ _ s) as [[x|e|] s']; [| |done].
  - destruct H as [H _]. by apply list_elem_of_singleton in H.
  - intros He. destruct H as [[[H _] ?]|H].
    + apply list_elem_of_singleton in H. auto.
    + destruct (H He) as [Hf _]. apply list_elem_of_singleton in Hf. auto.
Qed.

(** Closing always tears the terminal down: whatever fails on
    the way, the terminal's close is the last call made, and the session is
    closed afterwards unless that very call raised; closing a closed session
    does nothing. *)
Theorem close_settles s :
  match close s with
  | (Hang, _) => True
  | (r, s') =>
      if bool_decide (state_of s = CLOSED) then r = Ret tt ∧ s' = s
      else (∃ l, log (world s') = log (world s) ++ l ++ [TerminalClosed]) ∧
           (state_of s' = CLOSED ∨ state_of s' = CLOSING ∧ ∃ e, r = Raise e)
  end.
Proof.
  unfold close. rewrite bind_eq.
  destruct (begin_close_cases s) as [[Hs ->]|[Hs [->|(s1 & -> & H1 & Hl)]]]; [|done|].
  { cbn. by rewrite bool_decide_true. }
  rewrite bool_decide_false by done. cbn [negb]. unfold try_finally.
  set (m := running ≫= _).
  assert (Hc : core_safe m) by (unfold m, terminate; footprint).
  assert (Hm : logs (fun _ => True) m).
  { unfold m, write, terminate. assert (∀ e, logs (fun _ => True) (call e)) by (intros; by apply call_logs).
    footprint. }
  destruct (Hm s1) as (l & Hl1 & _). specialize (Hc s1). apply core_eq in Hc as [Hc _].
  destruct (m s1) as [r s2]. cbn [snd] in *.
  assert (Hcl :
    match (call TerminalClosed;; move_to CLOSED) s2 with
    | (Hang, _) => True
    | (r', s') => (∃ l, log (world s') = log (world s) ++ l ++ [TerminalClosed]) ∧
         (state_of s' = CLOSED ∨ state_of s' = CLOSING ∧ ∃ e, r' = Raise e)
    end).
  { assert (H2 : at_ [CLOSING] (active_token s2) s2)
      by (split; [unfold state_of in *; rewrite Hc, H1; set_solver|done]).
    rewrite bind_eq. pose proof (call_core TerminalClosed s2) as Hk. apply core_eq in Hk as [Hk Hka].
    assert (Hlog : log (world (call TerminalClosed s2).2) = log (world s2) ++ [TerminalClosed]).
    { unfold call, log_event. unfold_prog. by destruct s2 as [[? ? ? ? [|[] ?] ? ? ? ?] ? ? ? ? ? ?]. }
    destruct (call TerminalClosed s2) as [[[]|e|] s3]; cbn [snd] in *; [| |done].
    - pose proof (hoare_move [CLOSING] (active_token s2) CLOSED ltac:(allowed) s3) as Hmv.
      pose proof (move_to_silent CLOSED s3) as [Hsl _].
      destruct (move_to CLOSED s3) as [[[]|e|] s4]; [| |done].
      + cbn [snd] in Hsl. split; [exists l; by rewrite Hsl, Hlog, Hl1, Hl, app_assoc|].
        left. destruct Hmv as [Hmv _].
        { destruct H2 as [H2 ?]. split; [unfold state_of in *; by rewrite Hk|by rewrite Hka]. }
        by apply list_elem_of_singleton in Hmv.
      + destruct Hmv. destruct H2 as [H2 ?]. split; [unfold state_of in *; by rewrite Hk|by rewrite Hka].
    - split; [exists l; by rewrite Hlog, Hl1, Hl, app_assoc|]. right. split; [|eauto].
      unfold state_of in *. by rewrite Hk, Hc. }
  destruct r as [[]|e|]; [| |done];
    destruct ((call TerminalClosed;; move_to CLOSED) s2) as [[[]|e'|] s4]; try done;
    destruct Hcl as [Hl4 [?|[? [? ?]]]]; split; eauto; done.
Qed.

(** ** Concrete runs *)
Definition sample_detector : PromptDetector := Detector 65536 [] 0 (fun _ => 0).
Definition sample_frame : bytes :=
  transcript (u "T") (Some (u "N")) cr [] [] (u "hello") 0 (u "/root").
Definition ready_session (w : env) : session :=
  Session w (Machine READY 3 (qz 0) None) sample_detector 0 None (u "N") 4096.
Definition sample_env : env :=
  Env (map qz [0; 1; 2; 3; 4; 5]) [u "T"] [Ok (BRead sample_frame 100 false)] [true]
    [None; None; None; None] [] [] [] [].

Definition created_session : session :=
  Session (Env (map qz [0; 1; 2; 3; 4; 5; 6]) [u "T"] [Err (value_error (u "gone"))] [true; true]
             [None; Some (value_error (u "stuck"))] [] [] [] [])
    (new_machine (qz 0)) sample_detector 0 None (u "N") 4096.

Lemma open_settles_witness :
  state_of created_session = CREATED ∧
  state_of (open (U := ascii_db) [] [u "ssh"] (qz 20) false None None false created_session).2
    = FAILED.
Proof.
  split; [reflexivity|].
  pose proof (open_settles (U := ascii_db) [] [u "ssh"] (qz 20) false None None false
                created_session eq_refl) as H.
  remember (open (U := ascii_db) [] [u "ssh"] (qz 20) false None None false created_session) as r
    eqn:Hr.
  vm_compute in Hr. subst r. cbn in H. destruct (H eq_refl) as [Hf|[Hf _]]; [exact Hf|discriminate].
Defined.

(** When the terminal cannot be terminated after a failed sudo authentication,
    the session stays in AUTHENTICATION_REQUIRED: neither reusable nor marked
    failed or lost, although nothing is authenticating any more. *)
Definition sudo_text : bytes := u "[sudo] password for op: serverops-command-0a" ++ nl.
Example failed_termination_strands_session :
  let s := ready_session
    (Env (map qz [0; 1; 2; 3; 4; 5; 6; 7]) [u "T"] [Ok (BRead sudo_text 60 false)] [true; true]
       [None; None; None; None; Some (Builtin OSError (u "could not terminate"))] [] []
       [Coordination [] (Some (controlled AuthenticationCancelled (u "cancelled")))] []) in
  let r := execute (U := ascii_db) (u "sudo ls") (qz 60) true (Some (u "0a")) s in
  r.1 = Raise (Builtin OSError (u "could not terminate")) ∧
  state_of r.2 = AUTHENTICATION_REQUIRED.
Proof. vm_compute. split; reflexivity. Qed.
