(* ===== verification/SessionFrames.v ===== *)
(** * SessionFrames: what an execution reads

    Executing a command feeds its frame parser with what the terminal prints,
    chunk by chunk.  Here the Hoare rules of [SessionFacts] carry the parser
    along: a result is the frame that was read, and a session that is ready
    again after a timeout has read one too, and its process was running. *)
From S2P Require Import Prelude Errors Text TextFacts State RingBuffer Framing Prompts AuthWire Terminal Session SessionFacts.

(** ** What a run consumed *)
Definition chunk_of (r : res BufferRead) : list bytes :=
  match r with Ok b => match data b with [] => [] | d => [d] end | Err _ => [] end.
Definition chunks_of (l : list (res BufferRead)) : list bytes := concat (map chunk_of l).
Lemma chunks_of_app a b : chunks_of (a ++ b) = chunks_of a ++ chunks_of b.
Proof. unfold chunks_of. by rewrite map_app, concat_app. Qed.

(** Programs that read no data and only look whether the process runs *)
Class steady {A} (m : M session A) : Prop :=
  steady_spec s : reads (world (m s).2) = reads (world s) ∧ ∃ al, alive (world s) = al ++ alive (world (m s).2).
Section closure.
Context {A B : Type}.
Implicit Types (m : M session A) (f : A → M session B).
#[export] Instance steady_ret (a : A) : steady (mret a).
Proof. intros s. split; [done|by exists []]. Qed.
#[export] Instance steady_raise e : steady (raise (A := A) e).
Proof. intros s. split; [done|by exists []]. Qed.
#[export] Instance steady_hang : steady (hang (A := A)).
Proof. intros s. split; [done|by exists []]. Qed.
#[export] Instance steady_lift (r : res A) : steady (lift r).
Proof. intros s. destruct r; (split; [done|by exists []]). Qed.
#[export] Instance steady_gets (g : session → A) : steady (gets g).
Proof. intros s. split; [done|by exists []]. Qed.
Lemma steady_after s s1 s2 :
  reads (world s1) = reads (world s) ∧ (∃ al, alive (world s) = al ++ alive (world s1)) →
  reads (world s2) = reads (world s1) ∧ (∃ al, alive (world s1) = al ++ alive (world s2)) →
  reads (world s2) = reads (world s) ∧ ∃ al, alive (world s) = al ++ alive (world s2).
Proof. intros [-> [a ->]] [-> [b ->]]. split; [done|]. exists (a ++ b). by rewrite app_assoc. Qed.
#[export] Instance steady_bind m f : steady m → (∀ a, steady (f a)) → steady (m ≫= f).
Proof.
  intros Hm Hf s. rewrite bind_eq. pose proof (Hm s) as H.
  destruct (m s) as [[a|e|] s1]; [|exact H..]. eapply steady_after; [exact H|apply Hf].
Qed.
#[export] Instance steady_try m (h : exn → M session A) : steady m → (∀ e, steady (h e)) → steady (try_except m h).
Proof.
  intros Hm Hh s. unfold try_except. pose proof (Hm s) as H.
  destruct (m s) as [[a|e|] s1]; [exact H| |exact H]. eapply steady_after; [exact H|apply Hh].
Qed.
End closure.
#[export] Instance steady_suppress p (m : M session unit) : steady m → steady (suppress p m).
Proof. intros Hm. apply steady_try; [done|]. intros e. destruct (p e); apply _. Qed.

Ltac steady_prim :=
  intros s; unfold monotonic, new_token, running, coordinator_reply, call, log_event; unfold_prog;
  destruct s as [[] ? ? ? ? ? ?]; cbn;
  repeat (match goal with |- context [match ?r with _ => _ end] => is_var r; destruct r end; cbn);
  (split; [done|first [by exists [] | by eexists [_]]]).
#[export] Instance steady_get : steady (get (S := session)).
Proof. steady_prim. Qed.
#[export] Instance steady_log e : steady (log_event e).
Proof. steady_prim. Qed.
#[export] Instance steady_monotonic : steady monotonic.
Proof. steady_prim. Qed.
#[export] Instance steady_token : steady new_token.
Proof. steady_prim. Qed.
#[export] Instance steady_running : steady running.
Proof. steady_prim. Qed.
#[export] Instance steady_coordinator : steady coordinator_reply.
Proof. steady_prim. Qed.
#[export] Instance steady_call e : steady (call e).
Proof. steady_prim. Qed.
#[export] Instance steady_cursor c : steady (modify (set_cursor c)).
Proof. steady_prim. Qed.
#[export] Instance steady_detector d : steady (modify (set_detector d)).
Proof. steady_prim. Qed.
#[export] Instance steady_on_machine {A} (f : Q → M SessionStateMachine A) : steady (on_machine f).
Proof.
  intros s. unfold on_machine. destruct s as [[[|t c] ? ? ? ? ? ? ? ?] m ? ? ? ? ?]; cbn;
    destruct (f _ m) as [r m']; case_match; (split; [done|by exists []]).
Qed.
(** A program that branches is steady when every branch is. *)
Ltac steadies :=
  repeat first
    [ progress intros
    | match goal with |- context [match ?x with _ => _ end] => destruct x end
    | apply _
    | match goal with |- steady (_ ≫= _) => apply steady_bind
                    | |- steady (try_except _ _) => apply steady_try
                    | |- steady (suppress _ _) => apply steady_suppress end ].
#[export] Instance steady_move t : steady (move_to t).
Proof. unfold move_to. apply _. Qed.
#[export] Instance steady_write b : steady (write b) := _.
#[export] Instance steady_encode t : steady (encode_and_write t).
Proof. unfold encode_and_write. apply _. Qed.
#[export] Instance steady_chunk t : steady (write_command_chunk t).
Proof. unfold write_command_chunk, sleep. apply _. Qed.
#[export] Instance steady_long_line n a b : steady (write_long_line n a b).
Proof. revert a b. induction n as [|n IH]; intros a b; cbn [write_long_line]; steadies. Qed.
#[export] Instance steady_lines l a : steady (write_lines l a).
Proof. revert a. induction l as [|x l IH]; intros a; cbn [write_lines]; steadies. Qed.
#[export] Instance steady_command w : steady (write_command w).
Proof. unfold write_command. steadies. Qed.
#[export] Instance steady_submit used r : steady (submit used r).
Proof. unfold submit. steadies. Qed.
#[export] Instance steady_submit_all used rs : steady (submit_all used rs).
Proof. revert used. induction rs as [|r rs IH]; intros used; cbn [submit_all]; steadies. Qed.
#[export] Instance steady_respond p : steady (respond p).
Proof. unfold respond. steadies. Qed.
#[export] Instance steady_permit g : steady (permit g).
Proof. unfold permit. steadies. Qed.
#[export] Instance steady_allowed g : steady (is_prompt_allowed g).
Proof. unfold is_prompt_allowed. steadies. Qed.
#[export] Instance steady_authenticate {U : UnicodeDB} pol e : steady (authenticate pol e).
Proof. unfold authenticate, terminate. steadies. Qed.
#[export] Instance steady_events {U : UnicodeDB} pol es g q : steady (handle_events pol es g q).
Proof. revert g q. induction es as [|e es IH]; intros g q; cbn [handle_events]; steadies. Qed.
#[export] Instance steady_feed {U : UnicodeDB} d f p : steady (feed_parser d f p).
Proof. unfold feed_parser. destruct (Framing.feed d f p) as [[]]; apply _. Qed.
#[export] Instance steady_lose : steady lose_executing_session.
Proof. unfold lose_executing_session, terminate, get_state. steadies. Qed.
#[export] Instance steady_interrupt {U : UnicodeDB} tok : steady (send_interrupt tok).
Proof. unfold send_interrupt, sleep, outcome_unknown. steadies. Qed.

(** One read takes one reply of the terminal. *)
Lemma wait_consumes timeout s b s1 :
  wait_for_data timeout s = (Ret b, s1) →
  reads (world s) = Ok b :: reads (world s1) ∧ alive (world s) = alive (world s1).
Proof.
  unfold wait_for_data, read_reply, log_event. unfold_prog. destruct s as [[c tk rd al ca wa cu an lg] m d cu' ac no mx].
  cbn. destruct rd as [|[b'|e] rd]; [done| |done]. by intros [= <- <-].
Qed.
Lemma read_consumes {U : UnicodeDB} timeout pol g s x s' :
  read_and_handle_prompts timeout pol g s = (Ret x, s') →
  (∃ b, reads (world s) = Ok b :: reads (world s') ∧ x.1.1 = data b) ∧ ∃ al, alive (world s) = al ++ alive (world s').
Proof.
  unfold read_and_handle_prompts. rewrite bind_eq.
  destruct (wait_for_data (qmax (qz 0) timeout) s) as [[b|e|] s1] eqn:Ew; [|done..]. apply wait_consumes in Ew as [-> ->].
  match goal with |- ?m s1 = _ → _ => assert (steady m) as Hm by steadies; pose proof (Hm s1) as [Hr Ha] end.
  match goal with |- ?m s1 = _ → _ => assert (∀ x s', m s1 = (Ret x, s') → x.1.1 = data b) as Hd end.
  { intros x0 s0. rewrite bind_eq. cbn [modify]. destruct (data b) as [|y ys]; [by intros [= <- _]|].
    rewrite bind_eq. cbn [get]. destruct (Prompts.feed _ _) as [events d'].
    rewrite bind_eq. cbn [modify]. rewrite bind_eq. destruct (handle_events _ _ _ _ _) as [[[g' q]|e|] s2]; [|done..].
    by intros [= <- _]. }
  intros H. rewrite H in Hr, Ha. specialize (Hd _ _ H). cbn [snd] in Hr, Ha. split; [|exact Ha]. exists b. by rewrite Hr, Hd.
Qed.

(** ** The parser and the terminal side by side *)
Section tracking.
Context {U : UnicodeDB} (s0 : session) (p0 : CommandFrameParser).
(** Since [s0] the run took the replies [l] of the terminal. *)
Definition since (l : list (res BufferRead)) (s : session) : Prop :=
  reads (world s0) = l ++ reads (world s) ∧ ∃ al, alive (world s0) = al ++ alive (world s).
(** The data read so far brought the parser to [p], or completed a frame. *)
Definition parsing (p : CommandFrameParser) (s : session) : Prop :=
  ∃ l, since l s ∧ feed_chunks (chunks_of l) p0 = (Ret None, p).
Definition arrived (p : CommandFrameParser) (d : bytes) (s : session) : Prop :=
  ∃ l l', since (l ++ l') s ∧ feed_chunks (chunks_of l) p0 = (Ret None, p) ∧
          chunks_of l' = match d with [] => [] | _ => [d] end.
Definition framed (r : CommandResult) (s : session) : Prop :=
  ∃ l p, since l s ∧ feed_chunks (chunks_of l) p0 = (Ret (Some r), p).
(** The frame was read, and the last look found the process running. *)
Definition verified (r : CommandResult) (s : session) : Prop :=
  ∃ l p al, reads (world s0) = l ++ reads (world s) ∧ alive (world s0) = al ++ true :: alive (world s) ∧
            feed_chunks (chunks_of l) p0 = (Ret (Some r), p).

Definition steady_closed (G : session → Prop) : Prop :=
  ∀ s s', reads (world s') = reads (world s) → (∃ al, alive (world s) = al ++ alive (world s')) → G s → G s'.
Lemma since_closed l : steady_closed (since l).
Proof.
  intros s s' Hr [b Hb] [Hl [a Ha]]. split; [by rewrite Hr|]. exists (a ++ b). by rewrite Ha, Hb, app_assoc.
Qed.
Lemma parsing_closed p : steady_closed (parsing p).
Proof. intros s s' Hr Ha (l & Hl & Hf). exists l. split; [by eapply since_closed|done]. Qed.
Lemma framed_closed r : steady_closed (framed r).
Proof. intros s s' Hr Ha (l & p & Hl & Hf). exists l, p. split; [by eapply since_closed|done]. Qed.
(** A steady program keeps what is tracked beside what else is shown of it. *)
Lemma hoare_steady {A} (G : session → Prop) P (m : M session A) Q R :
  steady m → steady_closed G → hoare P m Q R →
  hoare (fun s => P s ∧ G s) m (fun a s => Q a s ∧ G s) (fun e s => R e s ∧ G s).
Proof.
  intros Hm HG H s [Hs Hg]. specialize (H s Hs). destruct (Hm s) as [Hr Ha].
  destruct (m s) as [[a|e|] s']; [..|done]; (split; [exact H|by apply (HG s)]).
Qed.

Lemma feed_chunks_app a b p :
  feed_chunks (a ++ b) p =
    match feed_chunks a p with (Ret None, p') => feed_chunks b p' | r => r end.
Proof.
  revert p. induction a as [|d a IH]; intros p; [done|]. cbn [app feed_chunks].
  unfold mbind, prog_mbind, prog_bind. destruct (Framing.feed d false p) as [[[r|]|e|] p1]; [done|apply IH|done..].
Qed.

(** *** Reading *)
Lemma hoare_read_arrived pol g timeout x t p :
  x ∈ [STARTING; EXECUTING] →
  hoare (fun s => at_ [x] t s ∧ parsing p s) (read_and_handle_prompts timeout pol g)
    (fun r s => at_ [x] t s ∧ arrived p r.1.1 s) (fun _ => at_ (x :: failures pol) t).
Proof.
  intros Hx s [Hs (l & [Hr [a Ha]] & Hf)]. pose proof (hoare_read pol g timeout x t Hx s Hs) as H.
  destruct (read_and_handle_prompts timeout pol g s) as [[r|e|] s'] eqn:E; [|done..]. split; [exact H|].
  apply read_consumes in E as [(b & Hb & Hd) [b' Hb']]. exists l, [Ok b].
  split; [split; [by rewrite Hr, Hb, <- app_assoc|exists (a ++ b'); by rewrite Ha, Hb', app_assoc]|].
  split; [done|]. rewrite Hd. unfold chunks_of. cbn. destruct (data b); done.
Qed.
Lemma arrived_nothing p s : arrived p [] s → parsing p s.
Proof.
  intros (l & l' & Hs & Hf & Hc). exists (l ++ l'). split; [done|]. by rewrite chunks_of_app, Hc, app_nil_r.
Qed.
Definition fed (rp : option CommandResult * CommandFrameParser) (s : session) : Prop :=
  match rp.1 with Some r => framed r s | None => parsing rp.2 s end.
Lemma hoare_feed_arrived d p l t :
  d ≠ [] →
  hoare (fun s => at_ l t s ∧ arrived p d s) (feed_parser d false p)
    (fun rp s => at_ l t s ∧ fed rp s) (fun _ => at_ l t).
Proof.
  intros Hd s [Hs (x & x' & Hx & Hf & Hc)]. unfold feed_parser. destruct d as [|c d]; [done|].
  assert (∀ o p', Framing.feed (c :: d) false p = (Ret o, p') → feed_chunks (chunks_of (x ++ x')) p0 = (Ret o, p')) as Ho.
  { intros o p' E. rewrite chunks_of_app, feed_chunks_app, Hf, Hc. cbn [feed_chunks].
    unfold mbind, prog_mbind, prog_bind. rewrite E. by destruct o. }
  destruct (Framing.feed (c :: d) false p) as [[o|e|] p'] eqn:E; [|done..].
  specialize (Ho o p' eq_refl). split; [done|]. unfold fed. cbn. destruct o as [r|]; [by exists (x ++ x'), p'|by exists (x ++ x')].
Qed.

(** *** Recovering *)
Lemma hoare_recovery_loop n d p t :
  hoare (fun s => at_ [EXECUTING] t s ∧ parsing p s) (recovery_loop n d p)
    (fun (b : bool) s => at_ [EXECUTING] t s ∧ (b = true → ∃ r, framed r s)) (fun _ => at_ [EXECUTING] t).
Proof.
  revert p. induction n as [|n IH]; intros p; cbn [recovery_loop]; [done|].
  assert (∀ A (m : M session A) Q, hoare (at_ [EXECUTING] t) m Q (fun _ => at_ [EXECUTING] t) → steady m →
    ∀ G, steady_closed G →
    hoare (fun s => at_ [EXECUTING] t s ∧ G s) m (fun a s => Q a s ∧ G s) (fun _ => at_ [EXECUTING] t)) as Hst.
  { intros A m Q Hm Hs G HG. eapply hoare_conseq; [apply (hoare_steady G), Hm; done|done|done|by intros e s [? _]]. }
  eapply hoare_bind; [apply Hst; [apply monotonic_no_raise, at_closed|apply _|apply parsing_closed]|]. intros now. cbv beta.
  destruct (qlt now d); [|by apply hoare_ret; intros s [? _]].
  eapply hoare_bind; [apply Hst; [apply monotonic_no_raise, at_closed|apply _|apply parsing_closed]|]. intros now'. cbv beta.
  eapply hoare_bind with (Q := fun r s => at_ [EXECUTING] t s ∧ arrived p r.1.1 s).
  { eapply hoare_conseq; [apply (hoare_read_arrived no_prompts None _ EXECUTING t p)|done|done|weaken]. set_solver. }
  intros [[data g] spent]. cbn [fst].
  eapply hoare_bind with (Q := fun rp s => at_ [EXECUTING] t s ∧ fed rp s).
  { destruct data as [|c data]; [|by apply hoare_feed_arrived].
    apply hoare_ret. intros s [Hs Ha]. split; [done|]. by apply arrived_nothing. }
  intros [[r|] p']; [apply hoare_ret; intros s [Hs Hr]; split; [done|by exists r]|]. unfold fed. cbn [fst snd].
  eapply hoare_bind; [apply Hst; [apply running_no_raise, at_closed|apply _|apply parsing_closed]|]. intros al. cbv beta.
  destruct (negb al); [by apply hoare_ret; intros s [? _]|apply IH].
Qed.

(** Frames of [hoare] triples with a tracked fact that an error may lose *)
Lemma hoare_beside {A} (G P : session → Prop) (m : M session A) Q R :
  steady m → steady_closed G → hoare P m Q R → hoare (fun s => P s ∧ G s) m (fun a s => Q a s ∧ G s) R.
Proof.
  intros Hm HG H. eapply hoare_conseq; [by apply (hoare_steady G P m Q R)|done|done|by intros e s [? _]].
Qed.
Lemma hoare_forget {A} (G P : session → Prop) (m : M session A) Q R :
  hoare P m Q R → hoare (fun s => P s ∧ G s) m Q R.
Proof. intros H s [Hs _]. by apply H. Qed.
(** A machine step and a clock reading take nothing from the terminal. *)
Lemma on_machine_takes {A} (f : Q → M SessionStateMachine A) s :
  reads (world (on_machine f s).2) = reads (world s) ∧ alive (world (on_machine f s).2) = alive (world s).
Proof.
  unfold on_machine. destruct s as [[[|t c] ? ? ? ? ? ? ? ?] m ? ? ? ? ?]; cbn; destruct (f _ m) as [r m']; by case_match.
Qed.
Lemma monotonic_takes s :
  reads (world (monotonic s).2) = reads (world s) ∧ alive (world (monotonic s).2) = alive (world s).
Proof. unfold monotonic. unfold_prog. by destruct s as [[[|t c] ? ? ? ? ? ? ? ?] m ? ? ? ? ?]. Qed.
Lemma verified_same r s s' :
  reads (world s') = reads (world s) → alive (world s') = alive (world s) → verified r s → verified r s'.
Proof. unfold verified. by intros -> ->. Qed.
Lemma hoare_move_verified l t target r :
  (∀ x, x ∈ l → target ∈ ALLOWED_TRANSITIONS x) →
  hoare (fun s => at_ l t s ∧ verified r s) (move_to target) (fun _ s => at_ [target] t s ∧ verified r s) (fun _ _ => False).
Proof.
  intros Hl s [Hs Hv]. pose proof (hoare_move l t target Hl s Hs) as H. unfold move_to in *. rewrite bind_eq in *.
  destruct (on_machine_takes (λ now : Q, transition now target) s) as [Hr Ha].
  destruct (on_machine _ s) as [[u|e|] s']; [|done..]. cbn in *. split; [exact H|by apply (verified_same r s)].
Qed.
Lemma hoare_running_verified l t r R :
  hoare (fun s => at_ l t s ∧ framed r s) running (fun (b : bool) s => at_ l t s ∧ (b = true → verified r s)) R.
Proof.
  intros s [Hs (x & p & [Hx [al Ha]] & Hf)]. pose proof (running_core s) as Hc. unfold running in *.
  unfold_prog in Hc. unfold_prog. destruct (alive (world s)) as [|b rest] eqn:E; [done|]. split; [by apply (at_closed l t s)|].
  intros ->. exists x, p, al. split; [exact Hx|]. split; [by rewrite Ha|done].
Qed.

(** What a timed-out command leaves: the session reusable, a frame read and the
    timeout reported, or the session lost. *)
Definition timed_out (e : exn) : bool := isinstance e CommandTimedOut.
Definition settled (l : list SessionState) (t : option str) (e : exn) (s : session) : Prop :=
  at_ l t s ∨ at_ [READY] t s ∧ timed_out e = true ∧ ∃ r, verified r s.
Lemma settled_weaken l l' t e s : settled l t e s → l ⊆ l' → settled l' t e s.
Proof. intros [H|H] Hl; [left; by eapply at_weaken|by right]. Qed.

Lemma hoare_finish_execution r started t :
  hoare (fun s => at_ [EXECUTING] t s ∧ framed r s) (finish_execution r started)
    (fun x s => at_ [READY] t s ∧ verified r s ∧
                ex_output x = output r ∧ ex_exit_code x = exit_code r ∧ ex_cwd x = cwd r ∧ ex_truncated x = truncated r)
    (fun _ => at_ [LOST] t).
Proof.
  unfold finish_execution. eapply hoare_bind; [apply hoare_running_verified|]. intros al. cbv beta. destruct al; cbn [negb].
  - eapply hoare_bind with (Q := fun _ s => at_ [READY] t s ∧ verified r s).
    { eapply hoare_conseq; [apply (hoare_move_verified [EXECUTING] t READY r)|intros s [Hs Hv]; split; [exact Hs|by apply Hv]|weaken..]. allowed. }
    intros _ s [Hs Hv]. pose proof (monotonic_takes s) as [Hr Ha]. rewrite bind_eq.
    pose proof (monotonic_no_raise (at_ [READY] t) (fun _ _ => False) (at_closed _ _) s Hs) as Hm.
    destruct (monotonic s) as [[now|e|] s']; [|done..]. cbn in *. split; [exact Hm|]. split; [by apply (verified_same r s)|done].
  - apply hoare_forget. apply hoare_lose_unknown; [set_solver|weaken].
Qed.

Lemma hoare_recover tok timeout p t :
  hoare (fun s => at_ [EXECUTING] t s ∧ parsing p s) (recover_timed_out tok timeout p) (fun _ _ => False)
    (settled [EXECUTING; LOST] t).
Proof.
  unfold recover_timed_out. eapply hoare_bind with (Q := fun _ s => at_ [EXECUTING] t s ∧ parsing p s).
  { apply hoare_beside; [apply _|apply parsing_closed|]. eapply hoare_conseq; [apply (hoare_send_interrupt tok t)|done|done|by left]. }
  intros _. eapply hoare_bind with (Q := fun (b : bool) s => at_ [EXECUTING] t s ∧ (b = true → ∃ r, framed r s)).
  { eapply hoare_try with (R := fun _ => at_ [EXECUTING] t).
    - unfold wait_for_recovery.
      eapply hoare_bind; [apply hoare_beside; [apply _|apply parsing_closed|apply monotonic_no_raise, at_closed]|]. intros now. cbv beta.
      eapply hoare_bind; [apply hoare_beside with (Q := fun _ => at_ [EXECUTING] t); [apply _|apply parsing_closed|by intros s Hs]|]. intros n. cbv beta.
      apply hoare_recovery_loop.
    - intros e. destruct (is_frame_error e).
      + apply hoare_lose_unknown; [set_solver|]. left. weaken.
      + apply hoare_raise. left. weaken. }
  intros recovered.
  eapply hoare_bind with (Q := fun (al : bool) s => at_ [EXECUTING] t s ∧ (al = true → ∃ r, verified r s)).
  { destruct recovered; [|by apply hoare_ret; intros s [Hs _]]. intros s [Hs Hr]. destruct (Hr eq_refl) as [r Hf].
    pose proof (hoare_running_verified [EXECUTING] t r (settled [EXECUTING; LOST] t) s (conj Hs Hf)) as H.
    destruct (running s) as [[al|e|] s']; [|done..]. destruct H as [Hs' Hv]. split; [exact Hs'|]. intros Ha. exists r. auto. }
  intros [].
  - assert (∀ r, hoare (fun s => at_ [EXECUTING] t s ∧ verified r s)
      (move_to READY;; raise (A := ExecutionResult) (controlled CommandTimedOut (u "command exceeded its " ++ show_fixed1 timeout ++ u "-second timeout")))
      (fun _ _ => False) (settled [EXECUTING; LOST] t)) as H.
    { intros r. eapply hoare_bind.
      - eapply hoare_conseq; [apply (hoare_move_verified [EXECUTING] t READY r)|done|intros a s H; exact H|weaken]. allowed.
      - intros ?. apply hoare_raise. intros s [Hs Hv]. right. split; [done|]. split; [done|]. by exists r. }
    intros s [Hs Hv]. destruct (Hv eq_refl) as [r Hr]. exact (H r s (conj Hs Hr)).
  - apply hoare_forget. apply hoare_lose_unknown; [set_solver|]. left. weaken.
Qed.

(** *** Executing *)
Definition answered (x : ExecutionResult) (s : session) : Prop :=
  ∃ r, verified r s ∧ ex_output x = output r ∧ ex_exit_code x = exit_code r ∧ ex_cwd x = cwd r ∧ ex_truncated x = truncated r.
Lemma hoare_execution_loop n d started pol g p t :
  hoare (fun s => at_ [EXECUTING] t s ∧ parsing p s) (execution_loop n d started pol g p)
    (fun r s => match r with inl x => at_ [READY] t s ∧ answered x s | inr p' => at_ [EXECUTING] t s ∧ parsing p' s end)
    (fun _ => at_ (EXECUTING :: LOST :: failures pol) t).
Proof.
  revert d g p. induction n as [|n IH]; intros d g p; cbn [execution_loop]; [done|].
  eapply hoare_bind; [apply hoare_beside; [apply _|apply parsing_closed|apply monotonic_no_raise, at_closed]|]. intros now. cbv beta.
  destruct (qlt now d); [|by apply hoare_ret].
  eapply hoare_bind; [apply hoare_beside; [apply _|apply parsing_closed|apply monotonic_no_raise, at_closed]|]. intros now'. cbv beta.
  eapply hoare_bind with (Q := fun r s => at_ [EXECUTING] t s ∧ arrived p r.1.1 s).
  { eapply hoare_conseq; [apply (hoare_read_arrived pol g _ EXECUTING t p)|done|done|weaken]. set_solver. }
  intros [[data g'] spent]. cbn [fst].
  eapply hoare_bind with (Q := fun rp s => at_ [EXECUTING] t s ∧ fed rp s).
  { destruct data as [|c data]; [apply hoare_ret; intros s [Hs Ha]; split; [done|by apply arrived_nothing]|].
    eapply hoare_try; [by apply hoare_feed_arrived|]. intros e. destruct (is_frame_error e).
    - apply hoare_lose_unknown; [set_solver|weaken].
    - apply hoare_raise. weaken. }
  intros [[r|] p']; unfold fed; cbn [fst snd].
  - eapply hoare_bind; [eapply hoare_conseq; [apply (hoare_finish_execution r started t)|done|intros a s H; exact H|weaken]|].
    intros x. apply hoare_ret. intros s (Hs & Hv & Hx). split; [done|]. by exists r.
  - eapply hoare_bind; [apply hoare_beside; [apply _|apply parsing_closed|apply running_no_raise, at_closed]|]. intros al. cbv beta.
    destruct (negb al); [|apply IH]. apply hoare_forget.
    eapply hoare_bind with (Q := fun _ => at_ [EXECUTING] t); [apply hoare_core; [footprint|apply at_closed|weaken]|].
    intros _. apply hoare_lose_unknown; [set_solver|weaken].
Qed.

Lemma hoare_execution_body command tok timeout started allow token t :
  hoare (fun s => at_ [EXECUTING] t s ∧ parsing p0 s) (execution_body command tok timeout started allow token p0)
    (fun x s => at_ [READY] t s ∧ answered x s)
    (settled (EXECUTING :: LOST :: failures (execution_policy allow token)) t).
Proof.
  assert (∀ A (m : M session A), core_safe m → steady m →
    hoare (fun s => at_ [EXECUTING] t s ∧ parsing p0 s) m (fun _ s => at_ [EXECUTING] t s ∧ parsing p0 s)
      (settled (EXECUTING :: LOST :: failures (execution_policy allow token)) t)) as Hcore.
  { intros A m Hm Hs. apply hoare_beside; [done|apply parsing_closed|]. apply hoare_core; [done|apply at_closed|].
    intros e s H. left. weaken. }
  unfold execution_body. apply hoare_get. intros s.
  eapply hoare_bind; [apply Hcore; apply _|]. intros w.
  eapply hoare_bind; [apply Hcore; apply _|]. cbv beta. intros _.
  eapply hoare_bind; [apply Hcore; [apply _|unfold clock_fuel; apply _]|]. intros n.
  eapply hoare_bind.
  { eapply hoare_conseq; [apply (hoare_execution_loop _ _ _ _ _ p0 t)|done|intros a s' H; exact H|].
    intros e s' H. left. weaken. }
  intros [x|p']; [by apply hoare_ret|].
  eapply hoare_conseq; [apply (hoare_recover tok timeout p' t)|auto|done|].
  intros e s' H. eapply settled_weaken; [exact H|set_solver].
Qed.

Lemma hoare_fail_execution e l t :
  hoare (settled (EXECUTING :: l) t e) (fail_execution e) (fun _ _ => False) (fun e' s => settled ([LOST; FAILED] ++ l) t e' s).
Proof.
  assert (hoare (at_ [EXECUTING] t) ((alive ← running; move_to (if alive : bool then FAILED else LOST));; raise (A := ExecutionResult) e)
      (fun _ _ => False) (settled ([LOST; FAILED] ++ l) t)) as Hfail.
  { eapply hoare_bind with (Q := fun _ => at_ [LOST; FAILED] t).
    + core_step. intros al. eapply hoare_conseq;
        [apply (hoare_move [EXECUTING] t (if al then FAILED else LOST))|auto| |done].
      * destruct al; allowed.
      * destruct al; weaken.
    + intros _. apply hoare_raise. intros s Hs. left. apply (at_weaken _ _ _ _ Hs). set_solver. }
  intros s Hs. unfold fail_execution. rewrite bind_eq. unfold get_state, gets.
  destruct (decide (state_of s = EXECUTING)) as [E|E].
  - apply Hfail. destruct Hs as [[Hs Ht]|[[Hs Ht] _]]; (split; [rewrite E; set_solver|done]).
  - rewrite bind_eq. cbn. destruct Hs as [[Hs Ht]|Hs]; [|by right]. left. split; [|done]. set_solver.
Qed.

(** The whole guarded part of [execute] *)
Lemma hoare_guarded command tok timeout started allow token :
  hoare (fun s => at_ [EXECUTING] (Some tok) s ∧ parsing p0 s)
    (try_finally
       (try_except (execution_body command tok timeout started allow token p0) fail_execution)
       (clear_command tok))
    (fun x s => at_ [READY] None s ∧ answered x s)
    (settled ([LOST; FAILED] ++ failures (execution_policy allow token)) None).
Proof.
  intros s Hs. unfold try_finally.
  set (l := LOST :: failures (execution_policy allow token)).
  pose proof (hoare_try _ _ fail_execution _ _ (settled ([LOST; FAILED] ++ l) (Some tok))
    (hoare_execution_body command tok timeout started allow token (Some tok)) (fun e => hoare_conseq _ _ _ _ _ _ _
      (hoare_fail_execution e l (Some tok)) (fun _ H => H) (fun _ _ H => False_ind _ H) (fun _ _ H => H)) s Hs) as Hb.
  assert (∀ l s1, at_ l (Some tok) s1 → clear_command tok s1 = (Ret tt, set_active None s1)) as Hclear.
  { intros l' s1 [_ Ht]. unfold clear_command. unfold_prog. by rewrite bool_decide_true. }
  destruct (try_except _ _ s) as [[x|e|] s1]; [| |done].
  - destruct Hb as [Hb Hx]. rewrite (Hclear _ _ Hb). destruct Hb as [Hst _]. split; [by split|]. exact Hx.
  - destruct Hb as [Hb|[Hb [Hto Hv]]]; rewrite (Hclear _ _ Hb); destruct Hb as [Hst _].
    + left. split; [|done]. unfold state_of, l in *. cbn in *. set_solver.
    + right. split; [by split|]. by split.
Qed.
End tracking.

(** ** Settling *)
(** Before delivery nothing has happened but the choice of a token. *)
Definition untouched (s0 s : session) : Prop :=
  at_ [READY] None s ∧ log (world s) = log (world s0) ∧ since s0 [] s ∧
  max_output s = max_output s0 ∧ shell_nonce s = shell_nonce s0.
(** The frame of this command, of the token drawn for it, and that the process
    ran after it *)
Definition command_frame {U : UnicodeDB} (s : session) (r : CommandResult) (s' : session) : Prop :=
  ∃ tok p, head (tokens (world s)) = Some tok ∧ new_parser tok (max_output s) (Some (shell_nonce s)) = Ok p ∧
           verified s p r s'.
Section settling.
Context {U : UnicodeDB}.
Lemma since_steady s0 {A} (m : M session A) s : steady m → since s0 [] s → since s0 [] (m s).2.
Proof. intros Hm Hs. destruct (Hm s) as [Hr Ha]. by eapply (since_closed s0). Qed.
Definition not_delivered (s0 : session) (s : session) : Prop := at_ [READY] None s ∧ log (world s) = log (world s0).
Lemma hoare_execute command timeout allow token s0 :
  hoare (fun s => s = s0 ∧ at_ [READY] None s) (execute command timeout allow token)
    (fun x s => at_ [READY] None s ∧ ∃ r, command_frame s0 r s ∧
       ex_output x = output r ∧ ex_exit_code x = exit_code r ∧ ex_cwd x = cwd r ∧ ex_truncated x = truncated r)
    (fun e s => not_delivered s0 s ∨
       at_ ([LOST; FAILED] ++ failures (execution_policy allow token)) None s ∨
       at_ [READY] None s ∧ timed_out e = true ∧ ∃ r, command_frame s0 r s).
Proof.
  intros s [-> Hs]. unfold execute. destruct (invalid_command command); [left; by split|].
  destruct (negb _); [left; by split|]. rewrite bind_eq, require_ok by apply Hs. rewrite bind_eq.
  pose proof (new_token_core s0) as Hc1. pose proof (since_steady s0 new_token s0 _ (conj eq_refl (ex_intro _ [] eq_refl))) as Hs1.
  destruct (new_token_cases s0) as [->|(tok & s1 & E1 & H1 & Hh & _)]; [done|].
  rewrite E1 in *. cbn [snd] in *. assert (at_ [READY] None s1) as Hat1 by (by eapply at_closed).
  rewrite (bind_eq get). unfold get. rewrite (bind_eq (lift _)).
  assert (max_output s1 = max_output s0 ∧ shell_nonce s1 = shell_nonce s0) as [Hmax Hnonce] by (unfold core in Hc1; by simplify_eq).
  destruct (new_parser tok (max_output s1) (Some (shell_nonce s1))) as [p|e] eqn:Hp; cbn [lift].
  2:{ left. split; [done|apply H1]. }
  assert (activate_command tok s1 = (Ret tt, set_active (Some tok) s1)) as Hact.
  { unfold activate_command. unfold_prog. by destruct Hat1 as [_ ->]. }
  rewrite (bind_eq (activate_command _)), Hact, (bind_eq (move_to _)). set (s2 := set_active (Some tok) s1).
  assert (at_ [READY] (Some tok) s2) as Hat2 by (by destruct Hat1).
  pose proof (hoare_move [READY] (Some tok) EXECUTING ltac:(allowed) s2 Hat2) as Hat3.
  pose proof (since_steady s0 (move_to EXECUTING) s2 _ Hs1) as Hs3.
  destruct (move_to EXECUTING s2) as [[[]|e|] s3]; [|done..]. cbn [snd] in Hs3. rewrite (bind_eq monotonic).
  pose proof (monotonic_no_raise _ (fun _ _ => False) (at_closed [EXECUTING] (Some tok)) s3 Hat3) as Hat4.
  pose proof (since_steady s0 monotonic s3 _ Hs3) as Hs4.
  destruct (monotonic s3) as [[started|e|] s4]; [|done..]. cbn [snd] in Hs4.
  assert (parsing s0 p p s4) as Hp4 by (by exists []).
  rewrite Hmax, Hnonce in Hp.
  pose proof (hoare_guarded s0 p command tok timeout started allow token s4 (conj Hat4 Hp4)) as H.
  destruct (try_finally _ _ s4) as [[x|e|] s5]; [|right|done].
  - destruct H as [Hat (r & Hv & Hx)]. split; [done|]. exists r. split; [|done]. by exists tok, p.
  - destruct H as [Hat|(Hat & Hto & r & Hv)]; [by left|right]. split; [done|]. split; [done|]. exists r. by exists tok, p.
Qed.
End settling.

(** ** Properties *)

(** C1: executing a command on a ready session always leaves it in
    a definite state, with no command active.  A result is the frame of this
    very command, read from the terminal by a session that found its process
    running afterwards and is ready again.  After an exception the session is
    ready only if nothing was sent, or if the command timed out and recovery
    was verified: a complete frame of the command's token was read and the
    process was found running after it.  Otherwise it is lost or failed; only
    when sudo prompts were allowed can it be left waiting for authentication. *)
Theorem execute_settles {U : UnicodeDB} command timeout allow token s :
  state_of s = READY → active_token s = None →
  match execute command timeout allow token s with
  | (Ret x, s') =>
      state_of s' = READY ∧ active_token s' = None ∧
      ∃ r, command_frame s r s' ∧ ex_output x = output r ∧ ex_exit_code x = exit_code r ∧
           ex_cwd x = cwd r ∧ ex_truncated x = truncated r
  | (Raise e, s') =>
      active_token s' = None ∧
      (state_of s' ∈ [LOST; FAILED] ∨
       allow = true ∧ state_of s' = AUTHENTICATION_REQUIRED ∨
       state_of s' = READY ∧
         (log (world s') = log (world s) ∨ isinstance e CommandTimedOut = true ∧ ∃ r, command_frame s r s'))
  | (Hang, _) => True
  end.
Proof.
  intros Hs Ha. assert (at_ [READY] None s) as H0 by (split; [rewrite Hs; set_solver|done]).
  pose proof (hoare_execute command timeout allow token s s (conj eq_refl H0)) as H.
  destruct (execute command timeout allow token s) as [[x|e|] s']; [| |done].
  - destruct H as [[Hst ?] Hx]. apply list_elem_of_singleton in Hst. done.
  - destruct H as [[[Hst ?] ?]|[[Hst ?]|[[Hst ?] ?]]]; (split; [done|]).
    + apply list_elem_of_singleton in Hst. auto.
    + unfold failures, execution_policy in Hst. destruct allow; cbn in Hst; set_solver.
    + apply list_elem_of_singleton in Hst. auto.
Qed.

(** ** Concrete runs *)
(** The command outlives its second; the frame that the interruption brings
    arrives in two pieces. *)
Definition slow_frame : bytes := transcript (u "T") (Some (u "N")) cr [] [] (u "^C") 130 (u "/root").
Definition slow_env : env :=
  Env (map qz [0; 1; 2; 2; 9; 9; 9; 9; 9; 9]) [u "T"]
    [Ok (BRead (take 40 slow_frame) 40 false); Ok (BRead (drop 40 slow_frame) 100 false)] [true; true]
    (replicate 8 None) [] [] [] [].
Lemma execute_settles_witness :
  let run := execute (U := ascii_db) (u "sleep 9") (qz 2) false None (ready_session slow_env) in
  run.1 = Raise (controlled CommandTimedOut (u "command exceeded its 2.0-second timeout")) ∧
  state_of run.2 = READY ∧ ∃ r, command_frame (U := ascii_db) (ready_session slow_env) r run.2.
Proof.
  cbv zeta. set (s := ready_session slow_env).
  pose proof (execute_settles (U := ascii_db) (u "sleep 9") (qz 2) false None s eq_refl eq_refl) as H.
  assert ((execute (U := ascii_db) (u "sleep 9") (qz 2) false None s).1 =
          Raise (controlled CommandTimedOut (u "command exceeded its 2.0-second timeout"))) as E by (vm_compute; reflexivity).
  assert (state_of (execute (U := ascii_db) (u "sleep 9") (qz 2) false None s).2 = READY) as Er by (vm_compute; reflexivity).
  assert (log (world (execute (U := ascii_db) (u "sleep 9") (qz 2) false None s).2) ≠ []) as El by (vm_compute; discriminate).
  destruct (execute (U := ascii_db) (u "sleep 9") (qz 2) false None s) as [o s']. cbn [fst snd] in *. subst o.
  split; [reflexivity|]. split; [exact Er|]. destruct H as [_ [H|[[H _]|[_ [H|[_ H]]]]]]; [|discriminate|by destruct El|exact H].
  rewrite Er in H. by apply (bool_decide_pack _) in H.
Defined.
