(* ===== verification/SessionTime.v ===== *)
(** * SessionTime: the operations of a session end in time

    Every loop of a session looks at the clock before it waits for the terminal
    again.  Here the readings of the clock that a program takes are counted:
    with a clock that moves, a loop stops soon after its deadline however much
    the terminal prints, and an operation that does not end is waiting for a
    call that never returned. *)
From Stdlib Require Import QArith Qround Lqa.
From S2P Require Import Prelude Errors Text TextFacts State RingBuffer Framing Prompts AuthWire Terminal Session SessionFacts.

(** ** Counting clock readings *)
(** A call that never returns *)
Definition unanswered (w : env) : Prop :=
  tokens w = [] ∨ reads w = [] ∨ alive w = [] ∨ calls w = [] ∨ waits w = [] ∨ cursors w = [] ∨ answers w = [].
Definition readings (s : session) : nat := length (clock (world s)).
(** From [s], [m] takes at most [k] readings; if there are as many and it does
    not end, a call does not return. *)
Definition within (k : nat) {A} (m : M session A) (s : session) : Prop :=
  (∃ used, clock (world s) = used ++ clock (world (m s).2) ∧ (length used ≤ k)%nat) ∧
  ((k ≤ readings s)%nat → (m s).1 = Hang → unanswered (world (m s).2)).
Class clocked (k : nat) {A} (m : M session A) : Prop := clocked_spec s : within k m s.

Section closure.
Context {A B : Type}.
Implicit Types (m : M session A) (f : A → M session B).
Lemma within_more k k' m s : within k m s → (k ≤ k')%nat → within k' m s.
Proof. intros [(l & Hl & Hk) H] Hle. split; [exists l; split; [done|lia]|]. intros Hr. apply H. lia. Qed.
Lemma within_bind k k' K m f s :
  within k m s → (∀ a s1, m s = (Ret a, s1) → within k' (f a) s1) → (k + k' ≤ K)%nat → within K (m ≫= f) s.
Proof.
  intros [(l & Hl & Hk) H] Hf HK. unfold within. rewrite bind_eq. destruct (m s) as [[a|e|] s1] eqn:E; cbn [fst snd] in *.
  - destruct (Hf a s1 eq_refl) as [(l' & Hl' & Hk') H']. split.
    + exists (l ++ l'). rewrite Hl, Hl', length_app. split; [by rewrite app_assoc|lia].
    + intros Hr. apply H'. unfold readings in *. rewrite Hl, length_app in Hr. lia.
  - split; [exists l; split; [done|lia]|done].
  - split; [exists l; split; [done|lia]|]. intros Hr _. apply H; [lia|done].
Qed.
Lemma within_try k k' K m (h : exn → M session A) s :
  within k m s → (∀ e s1, m s = (Raise e, s1) → within k' (h e) s1) → (k + k' ≤ K)%nat → within K (try_except m h) s.
Proof.
  intros [(l & Hl & Hk) H] Hf HK. unfold within, try_except. destruct (m s) as [[a|e|] s1] eqn:E; cbn [fst snd] in *.
  - split; [exists l; split; [done|lia]|done].
  - destruct (Hf e s1 eq_refl) as [(l' & Hl' & Hk') H']. split.
    + exists (l ++ l'). rewrite Hl, Hl', length_app. split; [by rewrite app_assoc|lia].
    + intros Hr. apply H'. unfold readings in *. rewrite Hl, length_app in Hr. lia.
  - split; [exists l; split; [done|lia]|]. intros Hr _. apply H; [lia|done].
Qed.
Lemma within_finally k k' K m (h : M session unit) s :
  within k m s → clocked k' h → (k + k' ≤ K)%nat → within K (try_finally m h) s.
Proof.
  intros [(l & Hl & Hk) H] Hf HK. unfold within, try_finally. destruct (m s) as [o s1] eqn:E; cbn [fst snd] in *.
  destruct (Hf s1) as [(l' & Hl' & Hk') H'].
  assert (clock (world s) = (l ++ l') ++ clock (world (h s1).2) ∧ (length (l ++ l') ≤ K)%nat) as Hu
    by (rewrite Hl, Hl', length_app; split; [by rewrite app_assoc|lia]).
  assert ((K ≤ readings s)%nat → (k' ≤ readings s1)%nat) as Hr
    by (unfold readings; intros Hr; rewrite Hl, length_app in Hr; lia).
  destruct o as [a|e|]; cbn [fst snd] in *.
  1,2: destruct (h s1) as [[u|e'|] s2] eqn:Eh; cbn [fst snd] in *; (split; [by exists (l ++ l')|]); intros HK'; first [done|auto].
  split; [exists l; split; [done|lia]|]. intros HK' _. apply H; [lia|done].
Qed.
Lemma clocked_bind k k' K m f : clocked k m → (∀ a, clocked k' (f a)) → (k + k' ≤ K)%nat → clocked K (m ≫= f).
Proof. intros Hm Hf HK s. eapply within_bind; [apply Hm|intros a s1 _; apply Hf|done]. Qed.
Lemma clocked_try k k' K m (h : exn → M session A) :
  clocked k m → (∀ e, clocked k' (h e)) → (k + k' ≤ K)%nat → clocked K (try_except m h).
Proof. intros Hm Hf HK s. eapply within_try; [apply Hm|intros a s1 _; apply Hf|done]. Qed.
Lemma clocked_finally k k' K m (h : M session unit) :
  clocked k m → clocked k' h → (k + k' ≤ K)%nat → clocked K (try_finally m h).
Proof. intros Hm Hf HK s. by eapply within_finally. Qed.
Lemma clocked_le k k' m : clocked k m → (k ≤ k')%nat → clocked k' m.
Proof. intros Hm HK s. by eapply within_more. Qed.
#[export] Instance clocked_ret k (a : A) : clocked k (mret a).
Proof. intros s. split; [exists []; split; [done|cbn; lia]|done]. Qed.
#[export] Instance clocked_raise k e : clocked k (raise (A := A) e).
Proof. intros s. split; [exists []; split; [done|cbn; lia]|done]. Qed.
#[export] Instance clocked_lift k (r : res A) : clocked k (lift r).
Proof. intros s. destruct r; (split; [exists []; split; [done|cbn; lia]|done]). Qed.
#[export] Instance clocked_gets k (g : session → A) : clocked k (gets g).
Proof. intros s. split; [exists []; split; [done|cbn; lia]|done]. Qed.
End closure.

(** *** The primitive calls *)
Ltac clock_prim :=
  intros s; unfold within, readings, unanswered, monotonic, new_token, read_reply, running, wait_exit, coordinator_reply,
    call, log_event; unfold_prog; destruct s as [[] ? ? ? ? ? ?]; cbn;
  repeat (match goal with |- context [match ?r with _ => _ end] => is_var r; destruct r end; cbn);
  (split; [first [by (exists []; split; [done|cbn; lia]) | by (eexists [_]; split; [done|cbn; lia])]|intros; first [done|tauto|lia]]).
#[export] Instance clocked_get k : clocked k (get (S := session)).
Proof. clock_prim. Qed.
#[export] Instance clocked_log k e : clocked k (log_event e).
Proof. clock_prim. Qed.
#[export] Instance clocked_monotonic k : clocked (S k) monotonic.
Proof. clock_prim. Qed.
#[export] Instance clocked_token k : clocked k new_token.
Proof. clock_prim. Qed.
#[export] Instance clocked_reply k : clocked k read_reply.
Proof. clock_prim. Qed.
#[export] Instance clocked_running k : clocked k running.
Proof. clock_prim. Qed.
#[export] Instance clocked_exit k : clocked k wait_exit.
Proof. clock_prim. Qed.
#[export] Instance clocked_coordinator k : clocked k coordinator_reply.
Proof. clock_prim. Qed.
#[export] Instance clocked_call k e : clocked k (call e).
Proof. clock_prim. Qed.
#[export] Instance clocked_cursor k c : clocked k (modify (set_cursor c)).
Proof. clock_prim. Qed.
#[export] Instance clocked_detector k d : clocked k (modify (set_detector d)).
Proof. clock_prim. Qed.
#[export] Instance clocked_clear k t : clocked k (clear_command t).
Proof.
  intros s. unfold within, clear_command. unfold_prog. case_match; (split; [exists []; split; [done|cbn; lia]|done]).
Qed.
#[export] Instance clocked_activate k t : clocked k (activate_command t).
Proof.
  intros s. unfold within, activate_command. unfold_prog. destruct (active_token s); (split; [exists []; split; [done|cbn; lia]|done]).
Qed.
(** An operation of the state machine takes a reading or none. *)
Lemma clocked_on_machine k {A} (f : Q → M SessionStateMachine A) :
  (∀ now m, (f now m).1 ≠ Hang) → clocked (S k) (on_machine f).
Proof.
  intros Hf s. unfold within, on_machine, readings, unanswered. destruct s as [[[|t c] ? ? ? ? ? ? ? ?] m ? ? ? ? ?]; cbn.
  - pose proof (Hf (qz 0) m). destruct (f (qz 0) m) as [r m']. case_match; cbn in *; (split; [exists []; split; [done|cbn; lia]|]); intros; first [done|lia].
  - pose proof (Hf t m). destruct (f t m) as [r m']. case_match; cbn in *;
      (split; [first [by (exists []; split; [done|cbn; lia]) | by (exists [t]; split; [done|cbn; lia])]|done]).
Qed.

(** A program that branches takes what its branches take at most: the goal is
    [clocked k] for a number [k], which every step lowers by what it takes. *)
Ltac clocked_step n := eapply (clocked_bind n); [solve [apply _] | cbv beta; intros | cbn [Nat.add]; lia].
Ltac clocks :=
  repeat first
    [ progress intros
    | match goal with |- context [match ?x with _ => _ end] => destruct x end
    | solve [apply _]
    | match goal with
      | |- clocked ?k (_ ≫= _) => first
          [ eapply (clocked_bind 0 k); [solve [apply _]|cbv beta; intros|lia]
          | match k with S ?k' => eapply (clocked_bind 1 k'); [solve [apply _]|cbv beta; intros|lia] end
          | eapply (clocked_bind 0 k); [|cbv beta; intros|lia] ]
      | |- clocked ?k (suppress _ _) => unfold suppress
      | |- clocked ?k (try_except _ _) => eapply (clocked_try 0 k); [|cbv beta; intros|lia]
      end ].
#[export] Instance clocked_move k t : clocked (S k) (move_to t).
Proof.
  unfold move_to. eapply (clocked_bind 1 0); [|apply _|lia]. apply clocked_on_machine. intros. apply transition_no_hang.
Qed.
#[export] Instance clocked_require k l : clocked (S k) (require_state l).
Proof. apply clocked_on_machine. intros now m. unfold require. unfold_prog. destruct (bool_decide _); cbn; congruence. Qed.
#[export] Instance clocked_state k : clocked k get_state.
Proof. unfold get_state. apply _. Qed.
#[export] Instance clocked_begin k : clocked (S k) (on_machine begin_authentication).
Proof.
  apply clocked_on_machine. intros now m. unfold begin_authentication, set_auth_return.
  unfold_prog. destruct (bool_decide _); cbn -[transition]; [|congruence].
  pose proof (transition_no_hang now AUTHENTICATION_REQUIRED
    (Machine (st_state m) (st_generation m) (st_changed_at m) (Some (st_state m)))).
  destruct (transition _ _ _) as [[]]; cbn in *; congruence.
Qed.
#[export] Instance clocked_finish k : clocked (S k) (on_machine finish_authentication).
Proof.
  apply clocked_on_machine. intros now m. unfold finish_authentication, set_auth_return.
  unfold_prog. destruct (bool_decide _); cbn -[transition]; [|congruence].
  destruct (st_auth_return m); cbn -[transition]; [|congruence].
  pose proof (transition_no_hang now s
    (Machine (st_state m) (st_generation m) (st_changed_at m) None)).
  destruct (transition _ _ _) as [[]]; cbn in *; congruence.
Qed.
#[export] Instance clocked_close k : clocked (S k) (on_machine begin_close).
Proof.
  apply clocked_on_machine. intros now m. unfold begin_close, set_auth_return. unfold_prog.
  destruct (bool_decide _); cbn -[transition]; [congruence|].
  destruct (bool_decide _); cbn -[transition]; [congruence|].
  pose proof (transition_no_hang now CLOSING
    (Machine (st_state m) (st_generation m) (st_changed_at m) None)).
  destruct (transition _ _ _) as [[]]; cbn in *; congruence.
Qed.

Section programs.
Context {U : UnicodeDB}.
#[export] Instance clocked_write k b : clocked k (write b) := _.
#[export] Instance clocked_sleep k q : clocked k (sleep q) := _.
#[export] Instance clocked_terminate k : clocked k terminate := _.
#[export] Instance clocked_encode k t : clocked k (encode_and_write t).
Proof. unfold encode_and_write. clocks. Qed.
#[export] Instance clocked_chunk k t : clocked k (write_command_chunk t).
Proof. unfold write_command_chunk. clocks. Qed.
#[export] Instance clocked_long_line k n a b : clocked k (write_long_line n a b).
Proof. revert a b. induction n as [|n IH]; intros a b; cbn [write_long_line]; clocks. Qed.
#[export] Instance clocked_lines k l a : clocked k (write_lines l a).
Proof. revert a. induction l as [|x l IH]; intros a; cbn [write_lines]; clocks. Qed.
#[export] Instance clocked_command k w : clocked k (write_command w).
Proof. unfold write_command. clocks. Qed.
#[export] Instance clocked_submit k used r : clocked k (submit used r).
Proof. unfold submit. clocks. Qed.
#[export] Instance clocked_submit_all k used rs : clocked k (submit_all used rs).
Proof. revert used. induction rs as [|r rs IH]; intros used; cbn [submit_all]; clocks. Qed.
#[export] Instance clocked_respond k p : clocked k (respond p).
Proof. unfold respond. clocks. Qed.
#[export] Instance clocked_permit k g : clocked k (permit g).
Proof. unfold permit. clocks. Qed.
#[export] Instance clocked_allowed k g : clocked k (is_prompt_allowed g).
Proof. unfold is_prompt_allowed. clocks. Qed.
#[export] Instance clocked_feed k d f p : clocked k (feed_parser d f p).
Proof.
  unfold feed_parser. pose proof (feed_no_hang d f p).
  destruct (Framing.feed d f p) as [[]]; cbn in *; [apply _..|done].
Qed.
#[export] Instance clocked_lose k : clocked (S k) lose_executing_session.
Proof.
  unfold lose_executing_session. eapply (clocked_bind 0 (S k)); [apply _|intros st|lia].
  eapply (clocked_bind 1 k); [|intros ?|lia]; clocks.
Qed.
#[export] Instance clocked_unknown {A} k m : clocked k (outcome_unknown (A := A) m).
Proof. unfold outcome_unknown. apply _. Qed.
#[export] Instance clocked_interrupt k t : clocked (S k) (send_interrupt t).
Proof. unfold send_interrupt. clocks. Qed.
#[export] Instance clocked_wait k q : clocked k (wait_for_data q).
Proof. unfold wait_for_data. clocks. Qed.
#[export] Instance clocked_check k b : clocked k (failure_check b).
Proof. unfold failure_check. clocks. Qed.
#[export] Instance clocked_fuel k : clocked k clock_fuel.
Proof. unfold clock_fuel. apply _. Qed.

(** *** Authentication *)
#[export] Instance clocked_authenticate pol e : clocked 5 (authenticate pol e).
Proof.
  unfold authenticate. eapply (clocked_bind 1 4); [apply _|intros _|lia]. eapply (clocked_bind 1 3); [apply _|intros started|lia].
  eapply (clocked_bind 1 2); [|intros _|lia].
  - eapply (clocked_try 0 1); [clocks|intros e'|lia]. clocks.
  - eapply (clocked_bind 1 1); [apply _|intros _|lia]. destruct (timed pol); clocks.
Qed.
End programs.

(** *** What authentication takes *)
Lemma clocked_suffix k {A} (m : M session A) s : clocked k m → ∃ used, clock (world s) = used ++ clock (world (m s).2).
Proof. intros H. destruct (H s) as [(l & Hl & _) _]. by exists l. Qed.
Lemma monotonic_head s t s1 : monotonic s = (Ret t, s1) → clock (world s) = t :: clock (world s1).
Proof. unfold monotonic. unfold_prog. destruct (clock (world s)) as [|t' c]; [done|]. by intros [= <- <-]. Qed.
Section prompts.
Context {U : UnicodeDB}.
(** The seconds between two readings, the second the last one taken *)
Definition lasted (s s' : session) (q : Q) : Prop :=
  ∃ a b t1 t2, clock (world s) = a ++ t1 :: b ++ t2 :: clock (world s') ∧ q = qsub t2 t1.
Lemma lasted_before s s1 s' used q : clock (world s) = used ++ clock (world s1) → lasted s1 s' q → lasted s s' q.
Proof. intros Hc (a & b & t1 & t2 & H & ->). exists (used ++ a), b, t1, t2. by rewrite Hc, H, app_assoc. Qed.
Lemma authenticate_time pol e s q s' :
  authenticate pol e s = (Ret q, s') → timed pol = true → lasted s s' q.
Proof.
  unfold authenticate. intros H Ht. rewrite bind_eq in H.
  destruct (clocked_suffix 1 (on_machine begin_authentication) s ltac:(apply _)) as [u1 H1].
  destruct (on_machine begin_authentication s) as [[[]|e1|] s1]; [|done..]. cbn [snd] in H1. rewrite bind_eq in H.
  destruct (monotonic s1) as [[t1|e1|] s2] eqn:E1; [|done..]. apply monotonic_head in E1. rewrite bind_eq in H.
  match type of H with context [try_except ?m ?h s2] =>
    assert (clocked 1 (try_except m h)) as Hm by (eapply (clocked_try 0 1); [clocks|intros e'|lia]; clocks);
    destruct (clocked_suffix 1 (try_except m h) s2 Hm) as [u2 H2]; destruct (try_except m h s2) as [[[]|e2|] s3] end; [|done..].
  cbn [snd] in H2. rewrite bind_eq in H.
  destruct (clocked_suffix 1 (on_machine finish_authentication) s3 ltac:(apply _)) as [u3 H3].
  destruct (on_machine finish_authentication s3) as [[[]|e3|] s4]; [|done..]. cbn [snd] in H3. rewrite Ht, bind_eq in H.
  destruct (monotonic s4) as [[t2|e4|] s5] eqn:E2; [|done..]. apply monotonic_head in E2. injection H as <- <-.
  exists u1, (u2 ++ u3), t1, t2. by rewrite H1, E1, H2, H3, E2, <- app_assoc.
Qed.
(** How the gate and the time paid moved *)
Definition paid (pol : prompt_policy) (s s' : session) (g g' : option gate) (q q' : Q) : Prop :=
  gated pol g' ∧
  (budget g' = budget g ∧ q' = q ∨
   budget g = 1%nat ∧ budget g' = 0%nat ∧ (timed pol = true → ∃ spent, lasted s s' spent ∧ q' = qadd q spent)).
Lemma handle_events_gated pol es g q s :
  within (5 * budget (Some g)) (handle_events pol es (Some g) q) s ∧
  ∀ g' q' s', handle_events pol es (Some g) q s = (Ret (g', q'), s') → paid pol s s' (Some g) g' q q'.
Proof.
  revert g q s. induction es as [|e es IH]; intros g q s; cbn [handle_events].
  { split; [apply clocked_ret|]. intros g' q' s' [= <- <- <-]. split; [by left|by left]. }
  destruct (skipped pol e); [apply IH|]. cbn [is_prompt_allowed]. unfold permit.
  destruct (authentication_started g) eqn:Eg; cbn [negb].
  - assert (∀ m : M session (bool * option gate), clocked 0 m →
      (∀ s r s1, m s = (Ret r, s1) → ∃ g1, r = (false, Some g1) ∧ authentication_started g1 = true) →
      within (5 * budget (Some g)) ('(ok, g0) ← m; if negb ok then handle_events pol es g0 q else seconds ← authenticate pol e; handle_events pol es g0 (qadd q seconds)) s ∧
      ∀ g' q' s', ('(ok, g0) ← m; if negb ok then handle_events pol es g0 q else seconds ← authenticate pol e; handle_events pol es g0 (qadd q seconds)) s = (Ret (g', q'), s') →
        paid pol s s' (Some g) g' q q') as Hno.
    { intros m Hm Hr. split.
      - eapply (within_bind 0 (5 * budget (Some g))); [apply Hm| |lia]. intros r s1 E. destruct (Hr _ _ _ E) as (g1 & -> & Eg1). cbn [negb].
        replace (budget (Some g)) with (budget (Some g1)) by (cbn; by rewrite Eg, Eg1). apply IH.
      - intros g' q' s'. rewrite bind_eq. destruct (clocked_suffix 0 m s Hm) as [used Hu].
        destruct (m s) as [[r|e'|] s1] eqn:E; [|done..]. destruct (Hr _ _ _ E) as (g1 & -> & Eg1). cbn [negb snd] in *.
        intros H. apply IH in H as [Hg Hp]. split; [done|]. left.
        assert (budget (Some g1) = 0%nat ∧ budget (Some g) = 0%nat) as [H1 H2] by (cbn; by rewrite Eg, Eg1).
        rewrite H1 in Hp. rewrite H2. destruct Hp as [Hp|[Hp _]]; [exact Hp|discriminate]. }
    apply Hno.
    + destruct (negb (repeated_prompt_interrupted g)); clocks.
    + intros s2 r s3. destruct (negb (repeated_prompt_interrupted g)).
      * rewrite bind_eq, bind_eq. destruct (write REMOTE_VINTR_BYTE s2) as [[[]|e'|] s4]; [|done..]. intros [= <- _]. by eexists.
      * intros [= <- _]. by eexists.
  - set (g1 := Gate true (repeated_prompt_interrupted g)). cbn [budget]. rewrite Eg.
    change ('(ok, g0) ← ('(ok, g2) ← mret (true, g1); mret (ok, Some g2)); if negb ok then handle_events pol es g0 q
      else seconds ← authenticate pol e; handle_events pol es g0 (qadd q seconds))
      with (seconds ← authenticate pol e; handle_events pol es (Some g1) (qadd q seconds)). split.
    + eapply (within_bind 5 0); [apply clocked_authenticate| |lia]. intros seconds s1 _. apply (IH g1).
    + intros g' q' s'. rewrite bind_eq. destruct (authenticate pol e s) as [[seconds|e'|] s1] eqn:E; [|done..]. intros H.
      destruct (IH g1 (qadd q seconds) s1) as [[(used & Hu & Hl) _] Hp]. rewrite H in Hu. cbn [snd budget g1 authentication_started] in *.
      apply Hp in H as [Hg Hp']. split; [done|]. right. cbn [budget g1 authentication_started] in Hp'.
      destruct Hp' as [[Hb Hq]|[? _]]; [|discriminate]. split; [cbn; by rewrite Eg|]. split; [done|]. intros Ht. exists seconds.
      split; [|done]. destruct used; [|cbn in Hl; lia]. cbn in Hu. destruct (authenticate_time _ _ _ _ _ E Ht) as (a & b & t1 & t2 & Hc & ->).
      exists a, b, t1, t2. by rewrite Hc, Hu.
Qed.
Lemma handle_events_time pol es g q s :
  gated pol g →
  within (5 * budget g) (handle_events pol es g q) s ∧
  ∀ g' q' s', handle_events pol es g q s = (Ret (g', q'), s') → paid pol s s' g g' q q'.
Proof.
  intros [Hg|Hk].
  - destruct g as [g|]; [apply handle_events_gated|done].
  - destruct pol as [ks tok tm]; cbn in Hk; subst ks. split.
    + split; rewrite handle_no_prompts; [exists []; split; [done|cbn; lia]|done].
    + intros g' q' s'. rewrite handle_no_prompts. intros [= <- <- <-]. split; [by right|by left].
Qed.
Lemma budget_le g : (budget g ≤ 1)%nat.
Proof. destruct g as [g|]; cbn; [destruct (authentication_started g)|]; lia. Qed.
Lemma read_time timeout pol g s :
  gated pol g →
  within 5 (read_and_handle_prompts timeout pol g) s ∧
  ∀ d g' q s', read_and_handle_prompts timeout pol g s = (Ret (d, g', q), s') → paid pol s s' g g' (qz 0) q.
Proof.
  intros Hg. unfold read_and_handle_prompts. pose proof (budget_le g) as Hb.
  split.
  - eapply (within_bind 0 5); [apply clocked_wait|intros b s1 _|lia]. eapply (within_bind 0 5); [apply clocked_cursor|intros ? s2 _|lia].
    destruct (data b); [apply clocked_ret|]. eapply (within_bind 0 5); [apply clocked_get|intros x s3 _|lia].
    destruct (Prompts.feed _ _) as [events d']. eapply (within_bind 0 5); [apply clocked_detector|intros ? s4 _|lia].
    eapply (within_bind (5 * budget g) 0); [by apply handle_events_time|intros [g' q] s5 _; apply clocked_ret|lia].
  - intros d g' q s'. rewrite bind_eq. destruct (clocked_suffix 0 (wait_for_data (qmax (qz 0) timeout)) s ltac:(apply _)) as [u1 H1].
    destruct (wait_for_data _ s) as [[b|e|] s1]; [|done..]. cbn [snd] in H1. rewrite bind_eq. cbn [modify].
    destruct (data b) as [|y ys]; [intros [= <- <- <- <-]; split; [done|by left]|].
    rewrite bind_eq. cbn [get]. destruct (Prompts.feed _ _) as [events d'].
    rewrite bind_eq. cbn [modify]. rewrite bind_eq. set (s4 := set_detector d' _).
    destruct (handle_events pol events g (qz 0) s4) as [[[g1 q1]|e|] s5] eqn:E; [|done..]. intros [= _ <- <- <-].
    destruct (handle_events_time pol events g (qz 0) s4 Hg) as [_ Hp]. specialize (Hp _ _ _ E) as [Hg' Hp]. split; [done|].
    destruct Hp as [Hp|(Hb1 & Hb2 & Hp)]; [by left|right]. split; [done|]. split; [done|]. intros Ht.
    destruct (Hp Ht) as (spent & Hl & Hq). exists spent. split; [|done]. by apply (lasted_before s s4 s5 u1).
Qed.
End prompts.

(** ** A clock that moves *)
(** The clock never goes back, and among [N] readings it gains a second. *)
Definition advancing (N : nat) (c : list Q) : Prop :=
  (∀ i j a b, (i ≤ j)%nat → c !! i = Some a → c !! j = Some b → (a <= b)%Q) ∧
  (∀ i a b, c !! i = Some a → c !! (i + N)%nat = Some b → (a + 1 <= b)%Q).
Lemma advancing_suffix N u c : advancing N (u ++ c) → advancing N c.
Proof.
  assert (∀ i, c !! i = (u ++ c) !! (length u + i)%nat) as Hl by (intros i; rewrite lookup_app_r by lia; f_equal; lia).
  intros [H1 H2]. split.
  - intros i j a b Hij. rewrite !Hl. apply H1. lia.
  - intros i a b. rewrite !Hl, Nat.add_assoc. apply H2.
Qed.
Lemma advancing_from N t c : advancing N (t :: c) → ∀ x, x ∈ t :: c → (t <= x)%Q.
Proof. intros [H _] x [i Hi]%list_elem_of_lookup. by apply (H 0%nat i); [lia| |]. Qed.
Lemma advancing_later N i k a b c :
  advancing N c → c !! i = Some a → c !! (i + N * k)%nat = Some b → (a + inject_Z (Z.of_nat k) <= b)%Q.
Proof.
  intros Hc Hi. revert b. induction k as [|k IH]; intros b Hb.
  - change (inject_Z (Z.of_nat 0)) with 0%Q. destruct Hc as [H _]. specialize (H i (i + N * 0)%nat a b ltac:(lia) Hi Hb). lra.
  - destruct (c !! (i + N * k)%nat) as [x|] eqn:Ex.
    + specialize (IH x eq_refl). destruct Hc as [_ H]. specialize (H (i + N * k)%nat x b Ex).
      replace (i + N * k + N)%nat with (i + N * S k)%nat in H by lia. specialize (H Hb).
      rewrite Nat2Z.inj_succ, <- Z.add_1_r, inject_Z_plus. change (inject_Z 1) with 1%Q. lra.
    + apply lookup_ge_None in Ex. apply lookup_lt_Some in Hb. nia.
Qed.

(** The readings before a deadline *)
Fixpoint early (d : Q) (c : list Q) : nat :=
  match c with t :: c => if qlt t d then S (early d c) else 0%nat | [] => 0%nat end.
Lemma early_lookup d c m : (m < early d c)%nat → ∃ x, c !! m = Some x ∧ (x < d)%Q.
Proof.
  revert m. induction c as [|t c IH]; intros m; cbn; [lia|]. destruct (qlt t d) eqn:E; [|lia]. apply qlt_spec in E.
  destruct m as [|m]; intros Hm; [by exists t|]. apply IH. lia.
Qed.
Lemma early_suffix N d t u c : advancing N (t :: u ++ c) → (early d c ≤ early d (t :: u ++ c) - 1)%nat ∨ qlt t d = false.
Proof.
  intros Hc. destruct (qlt t d) eqn:E; [left|by right]. cbn [early]. rewrite E. cbn [Nat.sub]. rewrite Nat.sub_0_r.
  clear E. apply (advancing_suffix N [t]) in Hc. revert Hc. induction u as [|x u IH]; intros Hc; [done|]. cbn.
  destruct (qlt x d) eqn:E; [specialize (IH (advancing_suffix N [x] _ Hc)); lia|].
  destruct c as [|y c]; [done|]. cbn. destruct (qlt y d) eqn:Ey; [|lia]. apply qlt_spec in Ey.
  assert (x <= y)%Q as Hxy by (apply (advancing_from N x (u ++ y :: c) Hc); set_solver).
  exfalso. enough (qlt x d = true) by congruence. apply qlt_spec. lra.
Qed.
Lemma early_bound N (K : nat) a d c :
  advancing N c → (∀ x, x ∈ c → (a <= x)%Q) → (d <= a + inject_Z (Z.of_nat K))%Q → (early d c ≤ N * K)%nat.
Proof.
  intros Hc Ha Hd. destruct (Nat.le_gt_cases (early d c) (N * K)) as [|H]; [done|].
  destruct (early_lookup _ _ _ H) as (x & Hx & Hlt). destruct c as [|t c]; [done|].
  pose proof (advancing_later N 0 K t x (t :: c) Hc eq_refl Hx) as Hl. specialize (Ha t ltac:(left)). lra.
Qed.

(** ** Loops *)
(** A round: the loop ends when its deadline has come, and what a round and the
    rounds after it take is known before. *)
Lemma within_round N d K {A} (body stop : M session A) s :
  advancing N (clock (world s)) → (10 * early d (clock (world s)) + 2 ≤ K)%nat →
  (∀ s1, within 1 stop s1) →
  (∀ t s1, clock (world s) = t :: clock (world s1) → (early d (clock (world s)) = S (early d (clock (world s1))))%nat →
           within (K - 1) body s1) →
  within K (now ← monotonic; if qlt now d then body else stop) s.
Proof.
  intros Hc HK Hstop Hbody. eapply (within_bind 1 (K - 1)); [apply clocked_monotonic| |lia].
  intros t s1 E%monotonic_head. destruct (qlt t d) eqn:Ed.
  - apply (Hbody t s1 E). rewrite E. cbn. by rewrite Ed.
  - eapply within_more; [apply Hstop|lia].
Qed.
Lemma early_after N d u c : advancing N (u ++ c) → (early d c ≤ early d (u ++ c))%nat.
Proof.
  destruct u as [|t u]; [done|]. intros Hc. change ((t :: u) ++ c) with (t :: u ++ c) in *.
  destruct (early_suffix N d t u _ Hc) as [H|H]; [lia|]. destruct c as [|x c]; [cbn; lia|]. cbn [early]. rewrite H.
  destruct (qlt x d) eqn:Ex; [|lia]. apply qlt_spec in Ex. apply qlt_spec_false in H.
  pose proof (advancing_from N t _ Hc x ltac:(set_solver)). lra.
Qed.
Lemma early_mono d d' c : (d' <= d)%Q → (early d' c ≤ early d c)%nat.
Proof.
  intros Hd. induction c as [|t c IH]; cbn; [lia|]. destruct (qlt t d') eqn:E; [|lia]. apply qlt_spec in E.
  assert (qlt t d = true) as -> by (apply qlt_spec; lra). lia.
Qed.
(** What a program leaves of the clock *)
Definition later (N : nat) (s s1 : session) : Prop :=
  advancing N (clock (world s1)) ∧ (∃ u, clock (world s) = u ++ clock (world s1)).
Lemma later_early N d s s1 : advancing N (clock (world s)) → later N s s1 → (early d (clock (world s1)) ≤ early d (clock (world s)))%nat.
Proof. intros Hc [_ [u Hu]]. rewrite Hu in *. by apply (early_after N). Qed.
Lemma later_readings N s s1 : later N s s1 → (readings s1 ≤ readings s)%nat.
Proof. unfold readings. intros [_ [u ->]]. rewrite length_app. lia. Qed.
Lemma later_in N s s1 : later N s s1 → ∀ x, x ∈ clock (world s1) → x ∈ clock (world s).
Proof. intros [_ [u ->]] x Hx. apply elem_of_app. by right. Qed.
Lemma later_clocked N k {A} (m : M session A) s o s1 :
  advancing N (clock (world s)) → clocked k m → m s = (o, s1) → later N s s1.
Proof.
  intros Hc Hm E. destruct (clocked_suffix k m s Hm) as [u Hu]. rewrite E in Hu. cbn in Hu. split; [|by exists u].
  rewrite Hu in Hc. by eapply advancing_suffix.
Qed.
(** One call, and what is known of the clock after it *)
Lemma within_step N d k K {A B} (m : M session A) (f : A → M session B) s :
  advancing N (clock (world s)) → clocked k m → (k ≤ K)%nat →
  (∀ a s1, m s = (Ret a, s1) → advancing N (clock (world s1)) → (readings s1 ≤ readings s)%nat →
           (early d (clock (world s1)) ≤ early d (clock (world s)))%nat → (∀ x, x ∈ clock (world s1) → x ∈ clock (world s)) →
           within (K - k) (f a) s1) →
  within K (m ≫= f) s.
Proof.
  intros Hc Hm Hk Hf. eapply (within_bind k (K - k)); [apply Hm| |lia]. intros a s1 E.
  pose proof (later_clocked N k m s _ s1 Hc Hm E) as Hl. apply Hf; [done|apply Hl|by apply (later_readings N)|by apply (later_early N)|by apply (later_in N)].
Qed.
Lemma within_then N k k' K {A B} (m : M session A) (f : A → M session B) s :
  advancing N (clock (world s)) → within k m s →
  (∀ a s1, m s = (Ret a, s1) → advancing N (clock (world s1)) → within k' (f a) s1) → (k + k' ≤ K)%nat → within K (m ≫= f) s.
Proof.
  intros Hc Hm Hf HK. eapply within_bind; [exact Hm| |done]. intros a s1 E. destruct Hm as [(u & Hu & _) _]. rewrite E in Hu.
  apply Hf; [done|]. cbn in Hu. rewrite Hu in Hc. by eapply advancing_suffix.
Qed.

Section loops.
Context {U : UnicodeDB} (N : nat).
Lemma no_prompts_gated : gated no_prompts None.
Proof. by right. Qed.
(** A read of a loop, and what is known after it *)
Lemma within_read d K timeout pol g {B} (f : bytes * option gate * Q → M session B) s :
  gated pol g → advancing N (clock (world s)) → (5 ≤ K)%nat →
  (∀ data g' q s1, paid pol s s1 g g' (qz 0) q → advancing N (clock (world s1)) → (readings s1 ≤ readings s)%nat →
     (early d (clock (world s1)) ≤ early d (clock (world s)))%nat → (∀ x, x ∈ clock (world s1) → x ∈ clock (world s)) →
     within (K - 5) (f (data, g', q)) s1) →
  within K (read_and_handle_prompts timeout pol g ≫= f) s.
Proof.
  intros Hg Hc HK Hf. destruct (read_time timeout pol g s Hg) as [Hw Hp].
  eapply (within_bind 5 (K - 5)); [exact Hw| |lia]. intros [[data g'] q] s1 E. destruct Hw as [(u & Hu & _) _]. rewrite E in Hu.
  cbn [snd] in Hu. assert (later N s s1) as Hl by (split; [rewrite Hu in Hc; by eapply advancing_suffix|by exists u]).
  apply Hf; [by eapply Hp|apply Hl|by apply (later_readings N)|by apply (later_early N)|by apply (later_in N)].
Qed.
Lemma recovery_loop_time n d p s :
  (readings s < n)%nat → advancing N (clock (world s)) →
  within (10 * early d (clock (world s)) + 2) (recovery_loop n d p) s.
Proof.
  revert p s. induction n as [|n IH]; intros p s Hn Hc; [lia|]. cbn [recovery_loop].
  apply (within_round N); [done|lia|intros; apply clocked_ret|]. intros t s1 E Hearly.
  assert (readings s = S (readings s1)) as Hr by (unfold readings; by rewrite E).
  rewrite E in Hc. apply (advancing_suffix N [t]) in Hc.
  apply (within_step N d 1); [done|apply _|lia|]. intros now s2 _ Hc2 Hr2 He2 _.
  apply within_read with d; [apply no_prompts_gated|done|lia|]. intros data g' q s3 _ Hc3 Hr3 He3 _.
  apply (within_step N d 0); [done|destruct data; clocks|lia|]. intros [r p'] s4 _ Hc4 Hr4 He4 _.
  destruct r; [apply clocked_ret|].
  apply (within_step N d 0); [done|apply _|lia|]. intros al s5 _ Hc5 Hr5 He5 _.
  destruct (negb al); [apply clocked_ret|]. eapply within_more; [apply IH; [lia|done]|lia].
Qed.
Lemma bootstrap_loop_time n d check p s :
  (readings s < n)%nat → advancing N (clock (world s)) →
  within (10 * early d (clock (world s)) + 2) (bootstrap_loop n d check p) s.
Proof.
  revert p s. induction n as [|n IH]; intros p s Hn Hc; [lia|]. cbn [bootstrap_loop].
  apply (within_round N); [done|lia|intros; apply clocked_raise|]. intros t s1 E Hearly.
  assert (readings s = S (readings s1)) as Hr by (unfold readings; by rewrite E).
  rewrite E in Hc. apply (advancing_suffix N [t]) in Hc.
  apply (within_step N d 0); [done|apply _|lia|]. intros [] s1' _ Hc1 Hr1 He1 _.
  apply (within_step N d 1); [done|apply _|lia|]. intros now s2 _ Hc2 Hr2 He2 _.
  apply within_read with d; [apply no_prompts_gated|done|lia|]. intros data g' q s3 _ Hc3 Hr3 He3 _.
  apply (within_step N d 0); [done|destruct data; clocks|lia|]. intros [r p'] s4 _ Hc4 Hr4 He4 _.
  destruct r as [r|].
  - apply (within_step N d 0); [done|apply _|lia|]. intros al s5 _ Hc5 Hr5 He5 _. destruct (negb al); [apply clocked_raise|].
    destruct (negb _); [apply clocked_raise|apply clocked_ret].
  - apply (within_step N d 0); [done|apply _|lia|]. intros al s5 _ Hc5 Hr5 He5 _.
    destruct (negb al); [apply clocked_raise|]. eapply within_more; [apply IH; [lia|done]|lia].
Qed.
(** A deadline not more than [T] seconds after a reading already taken is not
    more than [N * T] readings away. *)
Lemma early_ahead (T : nat) d t c :
  advancing N (t :: c) → (d <= t + inject_Z (Z.of_nat T))%Q → (early d c ≤ N * T)%nat.
Proof.
  intros Hc Hd. pose proof (advancing_suffix N [t] c Hc). apply (early_bound N T t); [done| |done].
  intros x Hx. apply (advancing_from N t c Hc). by right.
Qed.
(** A loop that starts now with a deadline [timeout] seconds ahead *)
Lemma within_deadline (T k : nat) timeout {A} (loop : Q → nat → M session A) s :
  advancing N (clock (world s)) → (timeout <= inject_Z (Z.of_nat T))%Q →
  (∀ d n s1, (readings s1 < n)%nat → advancing N (clock (world s1)) → within (10 * early d (clock (world s1)) + k) (loop d n) s1) →
  within (10 * (N * T) + k + 1) (now ← monotonic; fuel ← clock_fuel; loop (qadd now timeout) fuel) s.
Proof.
  intros Hc HT Hl. eapply (within_bind 1 (10 * (N * T) + k)); [apply clocked_monotonic| |lia]. intros now s1 E%monotonic_head. rewrite E in Hc.
  eapply (within_bind 0 (10 * (N * T) + k)); [apply clocked_fuel| |lia]. intros fuel s2 [= <- <-].
  eapply within_more; [apply Hl; [unfold readings; lia|by apply (advancing_suffix N [now])]|].
  enough (early (qadd now timeout) (clock (world s1)) ≤ N * T)%nat by lia. apply (early_ahead T (qadd now timeout) now); [done|].
  unfold qadd. lra.
Qed.

(** Authentication moves the deadline by the time it took, so that what was left
    of the timeout when it began is left when it ends. *)
Lemma deadline_moved (T : nat) pol g g' q started d s s1 :
  advancing N (clock (world s)) → timed pol = true → paid pol s s1 g g' (qz 0) q →
  (∀ x, x ∈ clock (world s) → (started <= x)%Q) → (budget g = 1%nat → (d <= started + inject_Z (Z.of_nat T))%Q) →
  (early d (clock (world s1)) ≤ early d (clock (world s)))%nat →
  (10 * early (qadd d q) (clock (world s1)) + 10 * (N * T) * budget g' ≤ 10 * early d (clock (world s)) + 10 * (N * T) * budget g)%nat ∧
  (budget g' = 1%nat → (qadd d q <= started + inject_Z (Z.of_nat T))%Q).
Proof.
  intros Hc Ht [_ [[Hb ->]|(Hb & Hb' & Hs)]] Hst Hd He.
  - rewrite Hb. pose proof (early_mono d (qadd d (qz 0)) (clock (world s1))) as Hm. unfold qadd, qz, frac in *.
    split; [assert (d + (0 # 1) <= d)%Q by lra; specialize (Hm ltac:(assumption)); lia|]. intros H. specialize (Hd H). lra.
  - specialize (Hd Hb). destruct (Hs Ht) as (spent & (a & b & t1 & t2 & Hl & ->) & ->). rewrite Hb, Hb'. split; [|done].
    assert (started <= t1)%Q as H1 by (apply Hst; rewrite Hl; set_solver). rewrite Hl in Hc. apply advancing_suffix in Hc.
    apply (advancing_suffix N (t1 :: b)) in Hc. enough (early (qadd d (qadd (qz 0) (qsub t2 t1))) (clock (world s1)) ≤ N * T)%nat by lia.
    apply (early_ahead T _ t2); [done|]. unfold qadd, qsub, qz, frac. lra.
Qed.
Lemma readings_after s s1 (P : Q → Prop) u :
  clock (world s) = u ++ clock (world s1) → (∀ x, x ∈ clock (world s) → P x) → ∀ x, x ∈ clock (world s1) → P x.
Proof. intros Hu H x Hx. apply H. rewrite Hu. set_solver. Qed.
#[local] Instance clocked_finish_execution k r started : clocked (S (S k)) (finish_execution r started).
Proof. unfold finish_execution. clocks. Qed.
#[local] Instance clocked_framed k data p (h : exn → M session (option CommandResult * CommandFrameParser)) :
  (∀ e, clocked (S k) (h e)) →
  clocked (S k) (match data with [] => mret (None, p) | _ => try_except (feed_parser data false p) h end).
Proof. intros Hh. destruct data; [apply _|]. eapply (clocked_try 0 (S k)); [apply _|done|lia]. Qed.
Lemma execution_loop_time (T : nat) n d started pol g p s :
  (readings s < n)%nat → advancing N (clock (world s)) → gated pol g → timed pol = true →
  (∀ x, x ∈ clock (world s) → (started <= x)%Q) → (budget g = 1%nat → (d <= started + inject_Z (Z.of_nat T))%Q) →
  within (10 * early d (clock (world s)) + 10 * (N * T) * budget g + 4) (execution_loop n d started pol g p) s.
Proof.
  revert d g p s. induction n as [|n IH]; intros d g p s Hn Hc Hg Ht Hst Hd; [lia|]. cbn [execution_loop].
  apply (within_round N); [done|lia|intros; apply clocked_ret|]. intros t s1 E Hearly.
  assert (readings s = S (readings s1)) as Hr by (unfold readings; by rewrite E).
  pose proof (readings_after s s1 _ [t] E Hst) as Hst1. rewrite E in Hc. apply (advancing_suffix N [t]) in Hc.
  apply (within_step N d 1); [done|apply _|lia|]. intros now s2 _ Hc2 Hr2 He2 Hi2.
  apply within_read with d; [done..|destruct g; cbn; lia|]. intros data g' q s3 Hp Hc3 Hr3 He3 Hi3.
  destruct (deadline_moved T pol g g' q started d s2 s3 Hc2 Ht Hp) as [Hm Hd']; [auto|done|done|].
  assert (∀ x, x ∈ clock (world s3) → (started <= x)%Q) as Hst3 by auto. destruct Hp as [Hg' _]. set (d' := qadd d q) in *.
  apply (within_step N d' 1); [done|apply clocked_framed; intros e; clocks|lia|]. intros [r p'] s4 _ Hc4 Hr4 He4 Hi4.
  destruct r as [r|].
  - apply (within_step N d' 2); [done|apply _|lia|]. intros. apply clocked_ret.
  - apply (within_step N d' 0); [done|apply _|lia|]. intros al s5 _ Hc5 Hr5 He5 Hi5. destruct (negb al).
    + apply (within_step N d' 0); [done|clocks|lia|]. intros [] s6 _ Hc6 Hr6 He6 _.
      apply (within_step N d' 1); [done|apply _|lia|]. intros. apply clocked_unknown.
    + eapply within_more; [apply (IH d' g' p' s5); [lia|done|done|done|auto|done]|lia].
Qed.
Lemma qmin_le_l a b c : (a <= c)%Q → (qmin a b <= c)%Q.
Proof.
  intros H. unfold qmin, qle. destruct (QArith_base.Qle_bool a b) eqn:E; [done|].
  assert (¬ (a <= b)%Q) as Hn by (rewrite <- QArith_base.Qle_bool_iff; congruence). apply QArith_base.Qnot_le_lt in Hn. lra.
Qed.
Lemma initialize_time timeout check s :
  advancing N (clock (world s)) → (timeout <= inject_Z (Z.of_nat 5))%Q →
  within (50 * N + 3) (initialize_shell timeout check) s.
Proof.
  intros Hc Ht. unfold initialize_shell.
  apply (within_step N timeout 0); [done|apply _|lia|]. intros tok s1 _ Hc1 _ _ _.
  apply (within_step N timeout 0); [done|apply _|lia|]. intros x s2 _ Hc2 _ _ _.
  apply (within_step N timeout 0); [done|apply _|lia|]. intros p s3 _ Hc3 _ _ _.
  apply (within_step N timeout 0); [done|apply _|lia|]. intros w s4 _ Hc4 _ _ _.
  apply (within_step N timeout 0); [done|apply _|lia|]. intros [] s5 _ Hc5 _ _ _.
  eapply within_more; [apply (within_deadline 5 2 timeout (fun d n => bootstrap_loop n d check p)); [done|done|]|lia].
  intros. by apply bootstrap_loop_time.
Qed.
Lemma open_loop_time n d check pol g s :
  (readings s < n)%nat → advancing N (clock (world s)) → gated pol g →
  within (10 * early d (clock (world s)) + 50 * N + 6) (open_loop n d check pol g) s.
Proof.
  revert g s. induction n as [|n IH]; intros g s Hn Hc Hg; [lia|]. cbn [open_loop].
  apply (within_round N); [done|lia| |].
  { intros s1. eapply (within_bind 1 0); [apply clocked_move|intros; apply clocked_raise|lia]. }
  intros t s1 E Hearly. assert (readings s = S (readings s1)) as Hr by (unfold readings; by rewrite E).
  rewrite E in Hc. apply (advancing_suffix N [t]) in Hc.
  apply (within_step N d 0); [done|apply _|lia|]. intros [] s1' _ Hc1 Hr1 He1 _.
  apply (within_step N d 1); [done|apply _|lia|]. intros now s2 _ Hc2 Hr2 He2 _.
  apply within_read with d; [done..|lia|]. intros data g' q s3 [Hg' _] Hc3 Hr3 He3 _.
  apply (within_step N d 0); [done|apply _|lia|]. intros x s4 _ Hc4 Hr4 He4 _. destruct (ready (detector x)).
  - apply (within_step N d 0); [done|apply _|lia|]. intros [] s5 _ Hc5 _ _ _.
    apply (within_step N d 1); [done|apply _|lia|]. intros now' s6 _ Hc6 _ _ _.
    eapply (within_bind (50 * N + 3) 1); [apply initialize_time; [done|]|intros; apply clocked_move|lia].
    apply qmin_le_l. by vm_compute.
  - apply (within_step N d 0); [done|apply _|lia|]. intros al s5 _ Hc5 Hr5 He5 _. destruct (negb al).
    + eapply (within_bind 1 0); [apply clocked_move|intros; apply clocked_raise|lia].
    + eapply within_more; [apply IH; [lia|done|done]|lia].
Qed.

(** ** The operations *)
Variable T : nat.
Lemma recover_time token timeout p s :
  advancing N (clock (world s)) → within (50 * N + 8) (recover_timed_out token timeout p) s.
Proof.
  intros Hc. unfold recover_timed_out. apply (within_step N timeout 1); [done|apply _|lia|]. intros [] s1 _ Hc1 _ _ _.
  eapply (within_bind (50 * N + 5) 2).
  - eapply (within_try (50 * N + 3) 2); [|intros e s2 _|lia].
    + unfold wait_for_recovery. eapply within_more; [apply (within_deadline 5 2 RECOVERY_TIMEOUT_SECONDS (fun d n => recovery_loop n d p)); [done| |]|lia].
      * by vm_compute.
      * intros. by apply recovery_loop_time.
    + assert (clocked 2 (if is_frame_error e then lose_executing_session;;
         outcome_unknown (A := bool) (u "The command timed out and recovery framing was invalid; the outcome " ++ u "is unknown.")
       else raise e)) as H by clocks. apply H.
  - intros b s2 _. assert (∀ b : bool, clocked 2 (al ← (if b then running else mret false);
      if al : bool then move_to READY;; raise (A := ExecutionResult) (controlled CommandTimedOut (u "command exceeded its " ++ show_fixed1 timeout ++ u "-second timeout"))
      else lose_executing_session;; outcome_unknown (u "The command timed out and shell recovery could not be verified; " ++ u "the outcome is unknown."))) as H by (intros []; clocks).
    apply H.
  - lia.
Qed.
Lemma execution_body_time command token timeout started allow tok p s :
  advancing N (clock (world s)) → (timeout <= inject_Z (Z.of_nat T))%Q → (∀ x, x ∈ clock (world s) → (started <= x)%Q) →
  (early (qadd started timeout) (clock (world s)) ≤ N * T)%nat →
  within (20 * (N * T) + 50 * N + 12) (execution_body command token timeout started allow tok p) s.
Proof.
  intros Hc HT Hst He. unfold execution_body. set (d := qadd started timeout) in *.
  apply (within_step N d 0); [done|apply _|lia|]. intros x s1 _ Hc1 _ He1 Hi1.
  apply (within_step N d 0); [done|apply _|lia|]. intros w s2 _ Hc2 _ He2 Hi2.
  apply (within_step N d 0); [done|apply _|lia|]. intros [] s3 _ Hc3 _ He3 Hi3.
  eapply (within_bind 0 (20 * (N * T) + 50 * N + 12)); [apply clocked_fuel| |lia]. intros n s4 [= <- <-].
  eapply (within_then N (20 * (N * T) + 4) (50 * N + 8)); [done| |intros [r|p'] s5 _ Hc5; [apply clocked_ret|by apply recover_time]|lia].
  pose proof (budget_le (execution_gate allow)) as Hb.
  eapply within_more; [apply (execution_loop_time T); [unfold readings; lia|done| |done|auto|]|nia].
  - unfold gated, execution_policy, execution_gate. destruct allow; [by left|by right].
  - intros _. unfold d, qadd. lra.
Qed.
#[local] Instance clocked_fail_execution k e : clocked (S k) (fail_execution e).
Proof.
  unfold fail_execution. eapply (clocked_bind 0 (S k)); [apply _|intros st|lia]. eapply (clocked_bind 1 k); [|intros ?|lia]; clocks.
Qed.
#[local] Instance clocked_fail_open k e : clocked (S k) (fail_open e).
Proof.
  unfold fail_open. eapply (clocked_bind 0 (S k)); [apply _|intros al|lia]. eapply (clocked_bind 0 (S k)); [clocks|intros _|lia].
  eapply (clocked_bind 0 (S k)); [apply _|intros st|lia]. eapply (clocked_bind 1 k); [|intros ?|lia]; clocks.
Qed.
(** The readings an operation takes at most, when its timeout is at most [T]
    seconds *)
Definition most : nat := (20 * (N * T) + 50 * N + 20)%nat.
Lemma execute_time command timeout allow tok s :
  advancing N (clock (world s)) → (timeout <= inject_Z (Z.of_nat T))%Q → within most (execute command timeout allow tok) s.
Proof.
  intros Hc HT. unfold execute, most. destruct (invalid_command command); [apply clocked_raise|].
  destruct (negb _); [apply clocked_raise|].
  apply (within_step N timeout 1); [done|apply _|lia|]. intros [] s1 _ Hc1 _ _ _.
  apply (within_step N timeout 0); [done|apply _|lia|]. intros token s2 _ Hc2 _ _ _.
  apply (within_step N timeout 0); [done|apply _|lia|]. intros x s3 _ Hc3 _ _ _.
  apply (within_step N timeout 0); [done|apply _|lia|]. intros p s4 _ Hc4 _ _ _.
  apply (within_step N timeout 0); [done|apply _|lia|]. intros [] s5 _ Hc5 _ _ _.
  apply (within_step N timeout 1); [done|apply _|lia|]. intros [] s6 _ Hc6 _ _ _.
  apply (within_step N timeout 1); [done|apply _|lia|]. intros started s7 E%monotonic_head Hc7 _ _ _. rewrite E in Hc6.
  eapply (within_finally (20 * (N * T) + 50 * N + 13) 0); [|apply _|lia].
  eapply (within_try (20 * (N * T) + 50 * N + 12) 1); [|intros; apply clocked_fail_execution|lia].
  apply execution_body_time; [done|done| |].
  - intros y Hy. apply (advancing_from N started _ Hc6). by right.
  - apply (early_ahead T _ started); [done|]. unfold qadd. lra.
Qed.
Lemma open_time env args timeout allow tok environment check s :
  advancing N (clock (world s)) → (timeout <= inject_Z (Z.of_nat T))%Q →
  within most (open env args timeout allow tok environment check) s.
Proof.
  intros Hc HT. unfold open, most. apply (within_step N timeout 1); [done|apply _|lia|]. intros [] s1 _ Hc1 _ _ _.
  destruct (negb _); [apply clocked_raise|].
  apply (within_step N timeout 1); [done|apply _|lia|]. intros [] s2 _ Hc2 _ _ _.
  eapply (within_try (10 * (N * T) + 50 * N + 7) 1); [|intros; apply clocked_fail_open|lia]. unfold open_body.
  apply (within_step N timeout 0); [done|apply _|lia|]. intros [] s3 _ Hc3 _ _ _. rewrite Nat.sub_0_r.
  set (pol := Policy _ _ _). set (g := execution_gate allow).
  eapply within_more; [apply (within_deadline T (50 * N + 6) timeout (fun d n => open_loop n d check pol g)); [done|done|]|lia].
  intros d n s4 Hn Hc4. eapply within_more; [apply open_loop_time; [done|done|]|lia].
  unfold gated, pol, g, execution_gate. destruct allow; [by left|by right].
Qed.
#[export] Instance clocked_interrupt_op k : clocked (S (S k)) interrupt.
Proof. unfold interrupt. clocks. Qed.
#[export] Instance clocked_close_op k : clocked (S (S k)) close.
Proof.
  unfold close. eapply (clocked_bind 1 (S k)); [apply _|intros b|lia]. destruct (negb b); [apply _|].
  eapply (clocked_finally 0 (S k)); [clocks|clocks|lia].
Qed.
End loops.

(** ** Properties *)

(** C38: with a clock that never goes back and gains a second among
    [N] readings, opening a session and executing a command with a timeout of at
    most [T] seconds, interrupting and closing end: the loops give up at their
    deadlines, so that an operation takes at most [most N T] readings of the
    clock however much the terminal prints meanwhile and even when a prompt
    pauses the deadline, and when it does not return although the clock was
    there to be read that often, it waits for an answer that never came. *)
Theorem session_operations_end {U : UnicodeDB} os_environ N T s :
  advancing N (clock (world s)) →
  (∀ command timeout allow token, (timeout <= inject_Z (Z.of_nat T))%Q →
     within (most N T) (execute command timeout allow token) s) ∧
  (∀ args timeout allow token environment check, (timeout <= inject_Z (Z.of_nat T))%Q →
     within (most N T) (open os_environ args timeout allow token environment check) s) ∧
  within 2 interrupt s ∧ within 2 close s.
Proof.
  intros Hc. split_and!; [intros; by apply execute_time|intros; by apply open_time| |].
  - apply (clocked_interrupt_op 0).
  - apply (clocked_close_op 0).
Qed.

(** ** A terminal that prints without end *)
Definition ticks (n : nat) : list Q := map (fun i => qz (Z.of_nat i)) (seq 0 n).
Definition endless_env : env :=
  Env (ticks 92) [u "T"] (replicate 200 (Ok (BRead (u "y" ++ nl) 2 false))) (replicate 200 true) (replicate 50 None) [] [] [] [].
Lemma ticks_advance n : advancing 1 (ticks n).
Proof.
  assert (∀ i x, ticks n !! i = Some x → x = qz (Z.of_nat i)) as Hl.
  { intros i x H. unfold ticks in H. rewrite list_lookup_fmap in H. destruct (seq 0 n !! i) as [j|] eqn:E; [|done].
    apply lookup_seq in E as [-> _]. by injection H as <-. }
  split.
  - intros i j a b Hij ->%Hl ->%Hl. unfold qz, frac, QArith_base.Qle. cbn. lia.
  - intros i a b ->%Hl ->%Hl. unfold qz, frac, QArith_base.Qle, QArith_base.Qplus. cbn. lia.
Qed.
Lemma session_operations_end_witness :
  let s := ready_session endless_env in
  let run := execute (U := ascii_db) (u "yes") (qz 1) false None s in
  most 1 1 = 90%nat ∧ (clock (world run.2) ≠ [] ∧ (∃ e, run.1 = Raise e ∧ isinstance e OutcomeUnknown = true)) ∧
  within 90 (execute (U := ascii_db) (u "yes") (qz 1) false None) s.
Proof.
  cbv zeta. split; [reflexivity|]. split.
  - split; [vm_compute; discriminate|]. eexists. split; vm_compute; reflexivity.
  - destruct (session_operations_end (U := ascii_db) [] 1 1 (ready_session endless_env) (ticks_advance 92)) as [H _].
    exact (H (u "yes") (qz 1) false None ltac:(by vm_compute)).
Defined.
