(* ===== verification/Interactive.v ===== *)
(** * Interactive: raw terminal control (worker/interactive.py)

    [InteractiveTerminalController] works on the session it was built from:
    the same terminal, state machine and prompt reader. *)
From S2P Require Import Prelude Errors Text TextFacts State RingBuffer Framing Prompts AuthWire Terminal Session SessionFacts.

Section interactive.
Context {U : UnicodeDB}.

Definition MAX_INTERACTIVE_WRITE_BYTES : Z := 65536.

Record InteractiveStatus := Status {
  is_state : SessionState; is_running : bool; is_output_cursor : Z }.
Record InteractiveRead := IRead {
  ir_output : str; ir_next_cursor : Z; ir_dropped : bool; ir_state : SessionState }.

Definition start (command : str) : M session InteractiveStatus :=
  if invalid_command command then
    raise (value_error (u "interactive command must be non-empty text without NUL"))
  else
    require_state [READY];;
    start_cursor ← output_cursor;
    move_to INTERACTIVE;;
    try_except (encode_and_write (command ++ cr ++ nl))
      (fun e =>
         alive ← running;
         move_to (if alive : bool then FAILED else LOST);;
         raise e);;
    st ← get_state;
    alive ← running;
    mret (Status st alive start_cursor).

Definition status : M session InteractiveStatus :=
  require_state [INTERACTIVE];;
  st ← get_state;
  alive ← running;
  c ← output_cursor;
  mret (Status st alive c).

Definition read (cursor : Z) (timeout : Q) : M session InteractiveRead :=
  require_state [INTERACTIVE];;
  read_and_handle_prompts (qmax (qz 0) timeout) no_prompts None;;
  result ← read_reply;
  alive ← running;
  if negb alive then
    move_to LOST;;
    raise (controlled SessionLost (u "the SSH terminal closed during interactive operation"))
  else
    st ← get_state;
    mret (IRead (utf8_replace (data result)) (next_cursor result)
            (dropped_before_cursor result) st).

Definition write (text : str) : M session InteractiveStatus :=
  require_state [INTERACTIVE];;
  data ← lift (utf8_encode text);
  if (len data =? 0) || (MAX_INTERACTIVE_WRITE_BYTES <? len data) then
    raise (value_error (u "interactive input must contain 1-65536 UTF-8 bytes"))
  else
    Terminal.write data;;
    status.

Definition interrupt : M session InteractiveStatus :=
  require_state [INTERACTIVE];;
  Terminal.write REMOTE_VINTR_BYTE;;
  status.

Definition resize (columns rows : Z) : M session InteractiveStatus :=
  require_state [INTERACTIVE];;
  call (Resized columns rows);;
  status.

Definition lose_session : M session unit :=
  st ← get_state;
  (if decide (st = INTERACTIVE) then move_to LOST else mret tt);;
  alive ← running;
  if alive : bool then suppress is_exception terminate else mret tt.

Definition lost {A} (message : str) : M session A := lose_session;; outcome_unknown message.

Fixpoint close_loop (fuel : nat) (deadline : Q) (p : CommandFrameParser) :
    M session InteractiveStatus :=
  match fuel with
  | O => hang
  | S fuel =>
      now ← monotonic;
      if qlt now deadline then
        now ← monotonic;
        '(data, _, _) ← read_and_handle_prompts (slice_wait deadline now) no_prompts None;
        '(r, p) ← match data with
                  | [] => mret (None, p)
                  | _ => try_except (feed_parser data false p)
                           (fun e =>
                              if is_frame_error e then
                                lost (u "Interactive shell recovery framing was invalid; "
                                      ++ u "the session was lost.")
                              else raise e)
                  end;
        match r with
        | Some _ =>
            alive ← running;
            if negb alive then
              lost (u "The shell ended during interactive recovery; the session was lost.")
            else
              move_to READY;;
              st ← get_state;
              c ← output_cursor;
              mret (Status st true c)
        | None =>
            alive ← running;
            if negb alive then
              lost (u "The SSH terminal closed before interactive recovery was verified.")
            else close_loop fuel deadline p
        end
      else
        lost (u "Interactive control did not return to the original Bash shell; "
              ++ u "the session was lost.")
  end.

Definition close (timeout : Q) : M session InteractiveStatus :=
  require_state [INTERACTIVE];;
  Terminal.write REMOTE_VINTR_BYTE;;
  sleep (frac 2 10);;
  token ← new_token;
  s ← get;
  p ← lift (new_parser token 4096 (Some (shell_nonce s)));
  wrapped ← lift (command_wrapper (u ":") token (Some (shell_nonce s)));
  encode_and_write wrapped;;
  now ← monotonic;
  fuel ← clock_fuel;
  close_loop fuel (qadd now timeout) p.

(** ** Lemmas *)

(** Reading while no prompt is allowed leaves the session object alone, in any
    state. *)
#[export] Instance read_no_prompts_core t g : core_safe (read_and_handle_prompts t no_prompts g).
Proof.
  unfold read_and_handle_prompts, wait_for_data.
  assert (∀ es g q, core_safe (handle_events no_prompts es g q)).
  { intros es g' q s. unfold no_prompts. by rewrite handle_no_prompts. }
  footprint.
Qed.
#[export] Instance status_core : core_safe status.
Proof.
  unfold status, require_state. apply core_bind; [|footprint].
  intros s. unfold on_machine, require. unfold_prog.
  destruct s as [[[|? ?] ? ? ? ? ? ? ? ?] m ? ? ? ? ?]; cbn;
    destruct (bool_decide _); cbn; by rewrite Z.eqb_refl.
Qed.

Lemma hoare_require l t :
  hoare (at_ l t) (require_state l) (fun _ => at_ l t) (fun _ _ => False).
Proof. intros s Hs. rewrite require_ok; [done|apply Hs]. Qed.

Lemma hoare_lost {A} message t (Q : A → session → Prop) :
  hoare (at_ [INTERACTIVE] t) (lost message) Q (fun _ => at_ [LOST] t).
Proof.
  unfold lost, lose_session. eapply hoare_bind with (Q := fun _ => at_ [LOST] t).
  - apply hoare_get_state. intros x Hx. apply list_elem_of_singleton in Hx as ->.
    rewrite decide_True by done. eapply hoare_bind with (Q := fun _ => at_ [LOST] t).
    + eapply hoare_conseq; [apply (hoare_move [INTERACTIVE] t LOST)|weaken..]. allowed.
    + intros _. core_step. intros alive. apply hoare_core; [|apply at_closed|done].
      unfold terminate. footprint.
  - intros _. apply hoare_raise. done.
Qed.

Lemma hoare_close_loop n d p t :
  hoare (at_ [INTERACTIVE] t) (close_loop n d p) (fun _ => at_ [READY] t)
    (fun _ => at_ [INTERACTIVE; LOST] t).
Proof.
  revert p. induction n as [|n IH]; intros p; cbn [close_loop]; [done|].
  assert (Hlost : ∀ A m (Q : A → session → Prop), hoare (at_ [INTERACTIVE] t) (lost m) Q
    (fun _ => at_ [INTERACTIVE; LOST] t)).
  { intros A m Q. eapply hoare_conseq; [apply (hoare_lost m t)|done|intros ? ? H; exact H|weaken]. }
  core_step. intros now. destruct (qlt now d); [|apply Hlost]. core_step. intros now'.
  core_step. intros [[data g] spent].
  eapply hoare_bind with (Q := fun _ => at_ [INTERACTIVE] t).
  { destruct data as [|c data]; [by apply hoare_ret|].
    eapply hoare_try; [apply hoare_feed|]. intros e. destruct (is_frame_error e); [apply Hlost|].
    apply hoare_raise. weaken. }
  intros [[r|] p']; core_step; intros alive; (destruct (negb alive); [apply Hlost|]); [|apply IH].
  eapply hoare_bind with (Q := fun _ => at_ [READY] t).
  { eapply hoare_conseq; [apply (hoare_move [INTERACTIVE] t READY)|weaken..]. allowed. }
  intros _. intros s Hs. rewrite bind_eq. cbn.
  assert (Hc : core_safe (c ← output_cursor; mret (Status (state_of s) true c))) by footprint.
  specialize (Hc s). rewrite bind_eq in *. unfold output_cursor in *. unfold_prog. unfold_prog in Hc.
  destruct (cursors (world s)); [done|]. by apply (at_closed _ _ s).
Qed.

End interactive.

(** ** Properties *)

(** Leaving interactive control returns the session to READY
    only after a complete frame came back from a running shell; otherwise it
    raises and the session is lost, or still interactive when the recovery
    command could not even be sent or read. *)
Theorem interactive_close_settles {U : UnicodeDB} timeout s :
  state_of s = INTERACTIVE →
  match Interactive.close timeout s with
  | (Ret _, s') => state_of s' = READY ∧ active_token s' = active_token s
  | (Raise _, s') => state_of s' ∈ [INTERACTIVE; LOST] ∧ active_token s' = active_token s
  | (Hang, _) => True
  end.
Proof.
  intros Hs. set (t := active_token s).
  assert (H : hoare (at_ [INTERACTIVE] t) (Interactive.close timeout) (fun _ => at_ [READY] t)
                (fun _ => at_ [INTERACTIVE; LOST] t)).
  { unfold close. eapply hoare_bind with (Q := fun _ => at_ [INTERACTIVE] t).
    { eapply hoare_conseq; [apply hoare_require|weaken..]. }
    intros _. core_step. intros _. core_step. intros _. core_step. intros tok.
    apply hoare_get. intros s0. core_step. intros p. core_step. intros w. core_step. intros _.
    core_step. intros now. core_step. intros n. apply hoare_close_loop. }
  specialize (H s). destruct (Interactive.close timeout s) as [[x|e|] s']; [| |done].
  - destruct H as [H ?]; [split; [rewrite Hs; set_solver|done]|].
    by apply list_elem_of_singleton in H.
  - apply H. split; [rewrite Hs; set_solver|done].
Qed.

Lemma interactive_close_settles_witness :
  let s := Session (Env [qz 0] [] [] [] [Some (value_error (u "gone"))] [] [] [] [])
             (Machine INTERACTIVE 4 (qz 0) None) sample_detector 0 None (u "N") 4096 in
  state_of s = INTERACTIVE ∧
  state_of (Interactive.close (U := ascii_db) (qz 5) s).2 ∈ [INTERACTIVE; LOST].
Proof.
  intros s. split; [reflexivity|].
  pose proof (interactive_close_settles (U := ascii_db) (qz 5) s eq_refl) as H.
  exact (proj1 H).
Defined.
