(* ===== verification/AuthModel.v ===== *)
(** * AuthModel: what an authentication window is told (auth/model.py)

    The target of a session and the prompt shown for it, with the checks of
    their constructors and the payload that carries a prompt. *)
From S2P Require Import Prelude Errors Text TextFacts Regex Value Json ConfigModel Prompts Ipc.

Definition AUTH_REQUEST_ID : re :=
  RSeqs [RBol; RLit (u "auth_"); RRepeat 32 (RChar (cls [(48, 57); (97, 102)])); REol].
Definition AUTH_PROMPT_FIELDS : list str :=
  [u "request_id"; u "profile_name"; u "display_name"; u "host"; u "port"; u "user"; u "prompt_kind";
   u "prompt"; u "expires_at"; u "worker_protocol_version"].

Definition visible_control (c : Z) : bool := (c <? 32) || (c =? 127).
Definition validate_text (v field_name : str) (maximum : Z) : res unit :=
  raise_if (str_eqb v [] || negb (str_eqb v (strip v)) || (maximum <? len v) || existsb visible_control v)
    (value_error (field_name ++ u " has an invalid value")).
Definition validate_prompt_text (v : str) : res unit :=
  raise_if (str_eqb v [] || negb (str_eqb v (strip v)) || (2048 <? len v)
            || existsb (fun c => visible_control c && negb (c =? 10)) v)
    (value_error (u "prompt has an invalid value")).

Record AuthTargetContext := AuthTarget {
  profile_name : str; at_display_name : str; at_host : str; at_port : Z; at_user : str }.
Definition auth_target_context (t : AuthTargetContext) : res AuthTargetContext :=
  validate_text (profile_name t) (u "profile_name") 64;;
  validate_text (at_display_name t) (u "display_name") 255;;
  validate_text (at_host t) (u "host") 255;;
  validate_text (at_user t) (u "user") 64;;
  raise_if (negb ((1 <=? at_port t) && (at_port t <=? 65535)))
    (value_error (u "port must be an integer from 1 through 65535"));;
  Ok t.

Record AuthPrompt := Prompt {
  request_id : str; target : AuthTargetContext; prompt_kind : PromptKind; prompt_text : str;
  expires_at : pyfloat }.
Definition is_finite (f : pyfloat) : bool := match f with Finite _ => true | _ => false end.

Section prompts.
Context {U : UnicodeDB}.
Definition auth_prompt (p : AuthPrompt) : res AuthPrompt :=
  raise_if (negb (fullmatch AUTH_REQUEST_ID (request_id p)))
    (value_error (u "authentication request ID has an invalid format"));;
  validate_prompt_text (prompt_text p);;
  raise_if (negb (is_finite (expires_at p)))
    (value_error (u "authentication expiry must be a finite timestamp"));;
  Ok p.
Definition from_event (id : str) (t : AuthTargetContext) (e : PromptEvent) (expiry : pyfloat) : res AuthPrompt :=
  auth_prompt (Prompt id t (kind e) (prompt e) expiry).

Definition kind_of (s : str) : res PromptKind :=
  match List.find (fun k => str_eqb (kind_value k) s) [HOST_KEY; PASSWORD; KEY_PASSPHRASE; SUDO_PASSWORD] with
  | Some k => Ok k
  | None => Err (value_error (py_repr s ++ u " is not a valid PromptKind"))
  end.
Definition text_of_field (v : value) : res str :=
  match v with VStr s => Ok s | _ => Err (value_error (u "authentication prompt text fields are invalid")) end.
Definition from_payload (d : dict value) : res AuthPrompt :=
  raise_if (negb (same_set (dkeys d) AUTH_PROMPT_FIELDS))
    (value_error (u "authentication prompt fields are invalid"));;
  id ← text_of_field (vget d (u "request_id"));
  name ← text_of_field (vget d (u "profile_name"));
  shown ← text_of_field (vget d (u "display_name"));
  h ← text_of_field (vget d (u "host"));
  n ← text_of_field (vget d (u "user"));
  k ← text_of_field (vget d (u "prompt_kind"));
  p ← text_of_field (vget d (u "prompt"));
  port ← (match vget d (u "port") with
          | VInt k => Ok k
          | _ => Err (value_error (u "authentication prompt port is invalid"))
          end);
  let expiry := vget d (u "expires_at") in
  raise_if (negb (is_number expiry)) (value_error (u "authentication prompt expiry is invalid"));;
  raise_if (negb (eq_int (vget d (u "worker_protocol_version")) WORKER_PROTOCOL_VERSION))
    (value_error (u "authentication worker protocol version is incompatible"));;
  t ← auth_target_context (AuthTarget name shown h port n);
  kind ← kind_of k;
  f ← float_of expiry;
  auth_prompt (Prompt id t kind p f).
Definition to_payload (p : AuthPrompt) : dict value :=
  [(u "request_id", VStr (request_id p)); (u "profile_name", VStr (profile_name (target p)));
   (u "display_name", VStr (at_display_name (target p))); (u "host", VStr (at_host (target p)));
   (u "port", VInt (at_port (target p))); (u "user", VStr (at_user (target p)));
   (u "prompt_kind", VStr (kind_value (prompt_kind p))); (u "prompt", VStr (prompt_text p));
   (u "expires_at", VFloat (expires_at p)); (u "worker_protocol_version", VInt WORKER_PROTOCOL_VERSION)].

(** Every constructed prompt survives the payload, and only its own fields do:
    what [from_payload] accepts is a constructed prompt. *)
Lemma kind_of_value k : kind_of (kind_value k) = Ok k.
Proof. by destruct k. Qed.
Lemma prompt_roundtrip p t q :
  auth_target_context (target p) = Ok t → auth_prompt p = Ok q →
  from_payload (to_payload p) = Ok p.
Proof.
  intros Ht Hp. assert (t = target p) as -> by (unfold auth_target_context in Ht; inv_ok Ht; by injection Ht).
  assert (q = p) as -> by (unfold auth_prompt in Hp; inv_ok Hp; by injection Hp).
  destruct p as [id [name shown h port n] k pt f]. unfold from_payload.
  set (d := to_payload _).
  assert (same_set (dkeys d) AUTH_PROMPT_FIELDS = true) as -> by reflexivity.
  cbn [vget get_or d to_payload dget].
  change (vget d (u "request_id")) with (VStr id). change (vget d (u "profile_name")) with (VStr name).
  change (vget d (u "display_name")) with (VStr shown). change (vget d (u "host")) with (VStr h).
  change (vget d (u "user")) with (VStr n). change (vget d (u "prompt_kind")) with (VStr (kind_value k)).
  change (vget d (u "prompt")) with (VStr pt). change (vget d (u "port")) with (VInt port).
  change (vget d (u "expires_at")) with (VFloat f).
  change (vget d (u "worker_protocol_version")) with (VInt WORKER_PROTOCOL_VERSION).
  cbn [text_of_field mbind result_mbind result_bind negb raise_if]. cbn in Ht.
  assert (eq_int (VInt WORKER_PROTOCOL_VERSION) WORKER_PROTOCOL_VERSION = true) as -> by reflexivity.
  change (is_number (VFloat f)) with true. cbn [negb raise_if mbind result_mbind result_bind].
  change (AuthTarget name shown h port n) with (target (Prompt id (AuthTarget name shown h port n) k pt f)).
  cbn [target]. rewrite Ht. cbn [mbind result_mbind result_bind]. rewrite kind_of_value. exact Hp.
Qed.
Lemma from_payload_wf d p : from_payload d = Ok p → auth_prompt p = Ok p ∧ auth_target_context (target p) = Ok (target p).
Proof.
  intros H. unfold from_payload in H. inv_ok H. pose proof H as Hp.
  unfold auth_prompt in Hp. inv_ok Hp. injection Hp as <-. split; [exact H|]. cbn [target].
  match goal with K : auth_target_context ?x = Ok ?t |- _ =>
    assert (t = x) as -> by (unfold auth_target_context in K; inv_ok K; by injection K); exact K end.
Qed.

(** What the constructors establish *)
Definition field_ok (v : str) (maximum : Z) : Prop :=
  v ≠ [] ∧ strip v = v ∧ len v <= maximum ∧ ∀ c, c ∈ v → 32 <= c ∧ c ≠ 127.
Record prompt_wf (p : AuthPrompt) : Prop := {
  wf_request : fullmatch AUTH_REQUEST_ID (request_id p) = true;
  wf_profile : field_ok (profile_name (target p)) 64;
  wf_display : field_ok (at_display_name (target p)) 255;
  wf_host : field_ok (at_host (target p)) 255;
  wf_user : field_ok (at_user (target p)) 64;
  wf_port : 1 <= at_port (target p) <= 65535;
  wf_prompt : prompt_text p ≠ [] ∧ strip (prompt_text p) = prompt_text p ∧ len (prompt_text p) <= 2048 ∧
              ∀ c, c ∈ prompt_text p → c = 10 ∨ 32 <= c ∧ c ≠ 127;
  wf_expiry : ∃ q, expires_at p = Finite q;
}.
Lemma existsb_elem (f : Z → bool) l c : existsb f l = false → c ∈ l → f c = false.
Proof.
  intros H Hc. destruct (f c) eqn:E; [|done]. assert (existsb f l = true); [|congruence].
  apply existsb_exists. exists c. split; [by apply list_elem_of_In|done].
Qed.
Lemma validate_text_Ok v field maximum x : validate_text v field maximum = Ok x → field_ok v maximum.
Proof.
  intros H%raise_if_Ok. unfold str_eqb in H. boolean. split_and!; try done. intros c Hc.
  eapply existsb_elem in Hc; [|eassumption]. unfold visible_control in Hc. boolean.
  match goal with K : (_ =? _) = false |- _ => apply Z.eqb_neq in K end. lia.
Qed.
Lemma prompt_wf_constructed p :
  auth_prompt p = Ok p → auth_target_context (target p) = Ok (target p) → prompt_wf p.
Proof.
  intros H Ht. unfold auth_prompt in H. inv_ok H. unfold auth_target_context in Ht. inv_ok Ht.
  repeat match goal with
         | K : validate_text _ _ _ = Ok _ |- _ => apply validate_text_Ok in K
         | K : validate_prompt_text _ = Ok _ |- _ => unfold validate_prompt_text in K
         | K : raise_if _ _ = Ok _ |- _ => apply raise_if_Ok in K
         end. unfold str_eqb in *. boolean. split; try done.
  - split_and!; try done. intros c Hc. eapply existsb_elem in Hc; [|eassumption]. unfold visible_control in Hc.
    apply andb_false_iff in Hc as [Hc|Hc]; boolean.
    + right. match goal with K : (_ =? _) = false |- _ => apply Z.eqb_neq in K end. lia.
    + left. by apply Z.eqb_eq.
  - destruct (expires_at p) as [q| |]; [by exists q|done..].
Qed.

(** C39: whatever document reaches it, an authentication window
    shows only a well-formed prompt: the fields are present, trimmed, bounded
    and free of control characters (a prompt may have line breaks), the port
    is a port and the expiry a finite time; and the accepted prompt is what
    its own document decodes to. *)
Theorem auth_prompt_typed d p : from_payload d = Ok p → prompt_wf p ∧ from_payload (to_payload p) = Ok p.
Proof.
  intros H. apply from_payload_wf in H as [Hp Ht]. split; [by apply prompt_wf_constructed|].
  by eapply prompt_roundtrip.
Qed.
End prompts.

Definition sample_prompt : AuthPrompt :=
  Prompt (u "auth_00112233445566778899aabbccddeeff") (AuthTarget (u "web") (u "Web server") (u "10.0.0.7") 22 (u "deploy"))
    PASSWORD (u "deploy@10.0.0.7's password:") (Finite (qz 1700000000)).
Lemma auth_prompt_typed_witness :
  from_payload (U := ascii_db) (to_payload sample_prompt) = Ok sample_prompt ∧
  len (prompt_text sample_prompt) <= 2048.
Proof.
  assert (from_payload (U := ascii_db) (to_payload sample_prompt) = Ok sample_prompt) as H by (vm_compute; reflexivity).
  split; [exact H|].
  exact (proj1 (proj2 (proj2 (wf_prompt _ (proj1 (auth_prompt_typed (U := ascii_db) _ _ H)))))).
Defined.
