(* ===== verification/AuthServer.v ===== *)
(** * AuthServer: collecting one authentication response (auth/server.py)

    A challenge waits on a pipe of its own for the authentication window,
    proves the window's token, shows it the prompt, takes one response frame
    and acknowledges it.  The clock, the pipe and the cancellation by another
    thread are a script of answers; a monitor says in which order they are
    used. *)
From S2P Require Import Prelude Errors Text TextFacts Value Prog ConfigModel Prompts Ipc AuthWire AuthModel.

Inductive challenge_call : Type :=
  | HClock                               (* time.monotonic() *)
  | HCancelled | HCancel                 (* _cancelled.is_set(), _cancelled.set() *)
  | HAccept (remaining : Q)              (* the accepting thread and thread.join(timeout=remaining) *)
  | HWake | HJoin                        (* _wake_accept(), thread.join(timeout=2) *)
  | HHandshake (token : str) (timeout : Q)
  | HNewId                               (* uuid.uuid4().hex *)
  | HSend (e : Envelope)
  | HReceive (timeout : Q)
  | HClose | HCloseListener.             (* leaving connection; listener.close() *)
Inductive challenge_reply : Type :=
  | HDone
  | HTime (now : Q)
  | HFlag (set : bool)
  | HConnection | HPending               (* accepted; the accepting thread still waits *)
  | HId (s : str)
  | HFrame (b : bytes).
(** _collect_started, _authenticated, _active_connection *)
Record challenge := Challenge { collect_started : bool; authenticated : bool; active : bool }.

Definition timed_out : exn := controlled AuthenticationTimedOut (u "authentication window timed out").
Definition cancelled_error : exn := controlled AuthenticationCancelled (u "authentication request was cancelled").
Definition replay (m : str) : exn := controlled AuthenticationReplayError m.
Definition between (lo hi : Q) (q : Q) : bool := qle lo q && qle q hi.
(** What the constructor checks before it listens *)
Definition challenge_prompt {U : UnicodeDB} (timeout : Q) (request_hex : str) (t : AuthTargetContext) (e : PromptEvent)
    (now : Q) : res AuthPrompt :=
  raise_if (negb (between (frac 1 10) (qz 300) timeout))
    (value_error (u "authentication timeout must be from 0.1 through 300 seconds"));;
  from_event (u "auth_" ++ request_hex) t e (Finite (qadd now timeout)).

Section server.
Context {U : UnicodeDB}.
Variables (token : str) (p : AuthPrompt) (deadline : Q).
Abbreviation P := (M (io challenge challenge_call challenge_reply)).
Definition call (c : challenge_call) : P unit := ask c;; mret tt.
Definition clock : P Q := r ← ask HClock; match r with HTime q => mret q | _ => hang end.
Definition is_cancelled : P bool := r ← ask HCancelled; match r with HFlag b => mret b | _ => hang end.
Definition left_of (now : Q) : Q := qmax (qz 0) (qsub deadline now).
Definition set_active (b : bool) : P unit := update (fun c => Challenge (collect_started c) (authenticated c) b).
Definition wake_accept : P unit := suppress (fun e => isinstance e IpcError) (call HWake).

Definition accept_before_deadline : P unit :=
  now ← clock;
  let remaining := qsub deadline now in
  lift (raise_if (qle remaining (qz 0)) timed_out);;
  r ← try_except (ask (HAccept remaining)) (fun e => raise (protocol_error (u "authentication pipe accept failed")));
  match r with
  | HConnection => mret tt
  | HPending =>
      wake_accept;;
      (* an item that is an exception is dropped *)
      j ← try_except (ask HJoin) (fun e => mret HDone);
      (match j with HConnection => call HClose | _ => mret tt end);;
      raise timed_out
  | _ => hang
  end.
Definition message (kind : str) (body : dict value) : P Envelope :=
  r ← ask HNewId; match r with HId fresh => lift (create fresh kind (Some body) None) | _ => hang end.
Definition receive_response : P AuthResponse :=
  challenge ← message (u "auth.challenge") (to_payload p);
  call (HSend challenge);;
  now ← clock;
  frame ← try_except (r ← ask (HReceive (left_of now)); match r with HFrame b => mret b | _ => hang end)
            (fun e => raise (if isinstance e IpcTimeout then timed_out
                             else if isinstance e IpcError
                             then protocol_error (u "authentication window disconnected without a response")
                             else e));
  response ← lift (decode_auth_response frame);
  acknowledgement ← message (u "auth.response.ack") [(u "status", VStr (status response))];
  call (HSend acknowledgement);;
  mret response.
Definition authenticate : P unit :=
  c ← state;
  lift (raise_if (authenticated c) (replay (u "authentication request was already authenticated")));;
  update (fun c => Challenge (collect_started c) true (active c)).
(** One connection: its response, or nothing when it is given up *)
Definition serve_window : P (option AuthResponse) :=
  stop ← is_cancelled;
  lift (raise_if stop cancelled_error);;
  set_active true;;
  try_finally
    (try_except
       (now ← clock;
        call (HHandshake token (left_of now));;
        authenticate;;
        r ← receive_response; mret (Some r))
       (fun e =>
          if isinstance e IpcTimeout then raise timed_out
          else if isinstance e IpcError then
            stop ← is_cancelled; lift (raise_if stop cancelled_error);; mret None
          else raise e))
    (set_active false).
Fixpoint collect_loop (fuel : nat) : P AuthResponse :=
  match fuel with
  | O => hang
  | Datatypes.S fuel =>
      now ← clock;
      if qlt now deadline then
        try_except accept_before_deadline
          (fun e => stop ← is_cancelled; lift (raise_if stop cancelled_error);; raise e);;
        r ← try_finally serve_window (call HClose);
        match r with Some response => mret response | None => collect_loop fuel end
      else raise timed_out
  end.
Definition collect : P AuthResponse :=
  c ← state;
  lift (raise_if (collect_started c) (replay (u "authentication request was already consumed")));;
  update (fun c => Challenge true (authenticated c) (active c));;
  s ← Prelude.get;
  try_finally (collect_loop (Datatypes.S (length (script s)))) (call HCloseListener).
(** [close] and [cancel], which other threads call; the active connection is
    closed under the thread that collects. *)
Definition close : P unit := call HCloseListener.
Definition cancel : P unit :=
  call HCancel;;
  c ← state;
  (if active c then call HClose else mret tt);;
  wake_accept;;
  call HCloseListener.
End server.

(** ** The order of its calls
    Where the collecting thread is, and whether the challenge was shown *)
Inductive place : Type :=
  | Idle | Overdue | Late                (* no connection; the accepting thread overslept; it got one after all *)
  | Accepted | Authentic | Challenged | Framed (frame : bytes) | Acknowledged (frame : bytes)
  | Spent                                (* only closing is left *)
  | Answered (frame : bytes) | Over (answer : option bytes).
Record phase := Ph { shown : bool; at_place : place }.
Section monitor.
Variables (token : str) (prompt_payload : dict value).
Definition shows (e : Envelope) : Prop := message_type e = u "auth.challenge" ∧ payload e = prompt_payload.
Definition acknowledges (frame : bytes) (e : Envelope) : Prop :=
  message_type e = u "auth.response.ack" ∧
  ∃ r, decode_auth_response frame = Ok r ∧ payload e = [(u "status", VStr (status r))].
Definition allowed (ph : phase) (c : challenge_call) : Prop :=
  match c, at_place ph with
  | HClock, _ | HCancelled, _ | HNewId, _ => True
  | HAccept _, Idle | HWake, Overdue | HJoin, Overdue => True
  | HHandshake t _, Accepted => t = token
  | HSend e, Authentic => shown ph = false ∧ shows e
  | HReceive _, Challenged => True
  | HSend e, Framed frame => acknowledges frame e
  | HClose, (Late | Accepted | Authentic | Challenged | Framed _ | Acknowledged _ | Spent) => True
  | HCloseListener, (Idle | Overdue | Answered _) => True
  | _, _ => False
  end.
Definition after (ph : phase) (c : challenge_call) (a : res challenge_reply) : phase :=
  let go x := Ph (shown ph) x in
  match c, at_place ph, a with
  | HClock, _, _ | HCancelled, _, _ | HNewId, _, _ | HWake, _, _ => ph
  | HAccept _, _, Ok HConnection => go Accepted
  | HAccept _, _, Ok HPending => go Overdue
  | HAccept _, _, _ => go Idle
  | HJoin, _, Ok HConnection => go Late
  | HJoin, _, _ => go Overdue
  | HHandshake _ _, _, Ok _ => go Authentic
  | HSend _, Authentic, Ok _ => Ph true Challenged
  | HSend _, Authentic, Err _ => Ph true Spent
  | HReceive _, _, Ok (HFrame frame) => go (Framed frame)
  | HSend _, Framed frame, Ok _ => go (Acknowledged frame)
  | HClose, Acknowledged frame, _ => go (Answered frame)
  | HClose, _, _ => go Idle
  | HCloseListener, Answered frame, _ => go (Over (Some frame))
  | HCloseListener, _, _ => go (Over None)
  | _, _, _ => go Spent
  end.
End monitor.

Section collecting.
Context {U : UnicodeDB}.
Variables (token : str) (p : AuthPrompt) (deadline : Q).
Context (tr : list challenge_call) (scr : list (res challenge_reply)).
Abbreviation IO := (io challenge challenge_call challenge_reply).
Abbreviation allowed' := (allowed token (to_payload p)).
Abbreviation start := (Ph false Idle).
Abbreviation stuck := (obeyed allowed' after tr scr start).

(** A challenge that was shown has been authenticated. *)
Definition at_ (x : place) (sh b : bool) (s : IO) : Prop :=
  at_phase allowed' after tr scr start (Ph sh x) s ∧ authenticated (st s) = b ∧ (sh = true → b = true) ∧
  collect_started (st s) = true.
Definition somewhere (x : place) (s : IO) : Prop := ∃ sh b, at_ x sh b s.
Definition connected (s : IO) : Prop :=
  ∃ x, somewhere x s ∧ match x with Late | Accepted | Authentic | Challenged | Framed _ | Spent => True | _ => False end.
Definition resting (s : IO) : Prop :=
  ∃ x, somewhere x s ∧ match x with Idle | Overdue | Answered _ => True | _ => False end.
Lemma connected_at x sh b s :
  at_ x sh b s → match x with Late | Accepted | Authentic | Challenged | Framed _ | Spent => True | _ => False end → connected s.
Proof. intros H Hx. exists x. split; [by exists sh, b|done]. Qed.
Lemma resting_at x sh b s :
  at_ x sh b s → match x with Idle | Overdue | Answered _ => True | _ => False end → resting s.
Proof. intros H Hx. exists x. split; [by exists sh, b|done]. Qed.
Lemma at_stuck x sh b s : at_ x sh b s → stuck s.
Proof. intros [H _]. by eapply at_phase_obeyed. Qed.

(** A call that shows nothing new *)
Lemma triple_ask_at c x sh b (Q : challenge_reply → IO → Prop) (R : exn → IO → Prop) :
  allowed' (Ph sh x) c → (∀ a, shown (after (Ph sh x) c a) = sh) →
  (∀ a s, at_ (at_place (after (Ph sh x) c (Ok a))) sh b s → Q a s) →
  (∀ e s, at_ (at_place (after (Ph sh x) c (Err e))) sh b s → R e s) →
  triple stuck (at_ x sh b) (ask c) Q R.
Proof.
  intros Hc Hsh HQ HR s (Hs & Hb & Himp & Hd).
  pose proof (triple_monitored allowed' after tr scr start (Ph sh x) c
    (fun a s' => at_phase allowed' after tr scr start (after (Ph sh x) c (Ok a)) s' )
    (fun e s' => at_phase allowed' after tr scr start (after (Ph sh x) c (Err e)) s') Hc ltac:(done) ltac:(done) s Hs) as H.
  assert (st (ask c s).2 = st s) as Hst by (unfold ask; by destruct (script s) as [|[]]).
  destruct (ask c s) as [[a|e|] s'] eqn:E; cbn [fst snd] in *; [apply HQ|apply HR|exact H];
    (split; [|by rewrite Hst]); [specialize (Hsh (Ok a))|specialize (Hsh (Err e))];
    destruct (after (Ph sh x) c _) as [sh' x'] eqn:Ea; cbn in Hsh |- *; by subst sh'.
Qed.
Lemma triple_call_at c x sh b (Q R : IO → Prop) :
  allowed' (Ph sh x) c → (∀ a, shown (after (Ph sh x) c a) = sh) →
  (∀ a s, at_ (at_place (after (Ph sh x) c (Ok a))) sh b s → Q s) →
  (∀ e s, at_ (at_place (after (Ph sh x) c (Err e))) sh b s → R s) →
  triple stuck (at_ x sh b) (call c) (fun _ => Q) (fun _ => R).
Proof.
  intros Hc Hsh HQ HR. unfold call. eapply triple_bind.
  - apply triple_ask_at with (Q := fun a => at_ (at_place (after (Ph sh x) c (Ok a))) sh b); [done|done|done|exact HR].
  - intros a. apply triple_ret. apply HQ.
Qed.
Lemma challenge_clock x sh b (R : exn → IO → Prop) :
  (∀ e s, at_ x sh b s → R e s) → triple stuck (at_ x sh b) clock (fun _ => at_ x sh b) R.
Proof.
  intros HR. eapply triple_bind.
  - apply triple_ask_at with (Q := fun _ => at_ x sh b); [by destruct x|done|done|exact HR].
  - intros [|now| | | |fresh|frame]; [|by apply triple_ret|..]; intros s Hs; by eapply at_stuck.
Qed.
Lemma triple_cancelled x sh b (R : exn → IO → Prop) :
  (∀ e s, at_ x sh b s → R e s) → triple stuck (at_ x sh b) is_cancelled (fun _ => at_ x sh b) R.
Proof.
  intros HR. eapply triple_bind.
  - apply triple_ask_at with (Q := fun _ => at_ x sh b); [by destruct x|done|done|exact HR].
  - intros [| |stop| | |fresh|frame]; [| |by apply triple_ret|..]; intros s Hs; by eapply at_stuck.
Qed.
Lemma triple_message kind body x sh b (R : exn → IO → Prop) :
  (∀ e s, at_ x sh b s → R e s) →
  triple stuck (at_ x sh b) (message kind body)
    (fun e s => (message_type e = kind ∧ payload e = body) ∧ at_ x sh b s) R.
Proof.
  intros HR. eapply triple_bind.
  - apply triple_ask_at with (Q := fun _ => at_ x sh b); [by destruct x|done|done|exact HR].
  - intros [|now|stop| | |fresh|frame]; [intros s Hs; by eapply at_stuck..| |intros s Hs; by eapply at_stuck].
    apply triple_lift; [|eauto]. intros e s He Hs. split; [|done].
    unfold create, envelope, match_text in He. inv_ok He. apply Ok_inj in He as <-.
    repeat match goal with K : _ ≫= _ = Ok _ |- _ => inv_ok K end.
    repeat match goal with K : Ok _ = Ok _ |- _ => apply Ok_inj in K end. by subst.
Qed.
(** A response that was decoded from the acknowledged frame *)
Definition responded (r : AuthResponse) (s : IO) : Prop :=
  ∃ frame, decode_auth_response frame = Ok r ∧ somewhere (Acknowledged frame) s.
Lemma triple_send_challenge e b :
  shows (to_payload p) e → b = true →
  triple stuck (at_ Authentic false b) (call (HSend e)) (fun _ => at_ Challenged true b) (fun _ => connected).
Proof.
  intros He Hb. unfold call. eapply (triple_bind _ _ _ _ (fun _ => at_ Challenged true b)); [|intros a; by apply triple_ret].
  intros s (Hs & Hst & _ & Hd).
  pose proof (triple_monitored allowed' after tr scr start (Ph false Authentic) (HSend e)
    (fun _ => at_phase allowed' after tr scr start (Ph true Challenged))
    (fun _ => at_phase allowed' after tr scr start (Ph true Spent)) ltac:(done) ltac:(done) ltac:(done) s Hs) as H.
  assert (st (ask (HSend e) s).2 = st s) as Hst' by (unfold ask; by destruct (script s) as [|[]]).
  destruct (ask (HSend e) s) as [[a|x|] s']; cbn [snd] in *; [| |done].
  - split; [done|]. by rewrite Hst'.
  - apply (connected_at Spent true b); [|done]. split; [done|]. by rewrite Hst'.
Qed.
Lemma triple_receive_response :
  triple stuck (at_ Authentic false true) (receive_response p deadline) responded (fun _ => connected).
Proof.
  unfold receive_response.
  eapply (triple_bind _ _ _ _ (fun e s => shows (to_payload p) e ∧ at_ Authentic false true s));
    [apply triple_message; intros e s Hs; by eapply connected_at|]. intros challenge.
  apply triple_pure. intros He.
  eapply (triple_bind _ _ _ _ (fun _ => at_ Challenged true true)); [by apply triple_send_challenge|]. intros _.
  eapply (triple_bind _ _ _ _ (fun _ => at_ Challenged true true));
    [apply challenge_clock; intros e s Hs; by eapply connected_at|]. intros now.
  eapply (triple_bind _ _ _ _ (fun frame => at_ (Framed frame) true true)).
  { apply (triple_try _ _ _ _ _ (fun _ => connected)); [|intros e; by apply triple_raise].
    eapply triple_bind.
    - apply triple_ask_at with (Q := fun a => at_ (at_place (after (Ph true Challenged) (HReceive (left_of deadline now)) (Ok a))) true true);
        [done|by intros [[]|]|done|]. intros e s Hs. by eapply connected_at.
    - intros [| | | | |fresh|frame]; [intros s Hs; by eapply at_stuck..|by apply triple_ret]. }
  intros frame. apply triple_lift_at; [|intros e s Hs; by eapply connected_at]. intros response Hr.
  eapply (triple_bind _ _ _ _ (fun e s => (message_type e = u "auth.response.ack" ∧ payload e = [(u "status", VStr (status response))])
                                         ∧ at_ (Framed frame) true true s));
    [apply triple_message; intros e s Hs; by eapply connected_at|]. intros ack.
  apply triple_pure. intros [Hk Hp].
  eapply (triple_bind _ _ _ _ (fun _ => at_ (Acknowledged frame) true true)).
  - apply triple_call_at; [split; [done|by exists response]|by intros [[]|]|done|].
    intros e s Hs. by eapply connected_at.
  - intros _. apply triple_ret. intros s Hs. exists frame. split; [done|]. by exists true, true.
Qed.
Lemma triple_authenticate sh b :
  triple stuck (at_ Authentic sh b) authenticate (fun _ => at_ Authentic false true) (fun _ => connected).
Proof.
  unfold authenticate. apply triple_state. intros c s [(Hs & Hb & Himp & Hd) Hc]. subst c.
  unfold_prog. cbn [raise_if]. destruct (authenticated (st s)) eqn:E; cbn.
  - apply (connected_at Authentic sh b); [|done]. by rewrite <- Hb.
  - subst b. destruct sh; [by specialize (Himp eq_refl)|]. split; [exact Hs|done].
Qed.
Lemma triple_set_active x sh b v : triple stuck (at_ x sh b) (set_active v) (fun _ => at_ x sh b) (fun _ => at_ x sh b).
Proof. apply triple_modify. intros s Hs. exact Hs. Qed.
Lemma triple_keep_active (P : IO → Prop) v :
  (∀ s c, P s → collect_started c = collect_started (st s) → authenticated c = authenticated (st s) →
          P (Io c (script s) (trace s))) →
  triple stuck P (set_active v) (fun _ => P) (fun _ => P).
Proof. intros H. apply triple_modify. intros s Hs. by apply H. Qed.
Lemma at_active x sh b s c :
  at_ x sh b s → collect_started c = collect_started (st s) → authenticated c = authenticated (st s) →
  at_ x sh b (Io c (script s) (trace s)).
Proof. intros (Hs & Hb & Hi & Hd) Hst Hc. split; [exact Hs|]. cbn. by rewrite Hst, Hc. Qed.
(** When giving up, is the challenge cancelled? *)
Lemma triple_unless_cancelled {A} (m : M IO A) Q :
  triple stuck connected m Q (fun _ => connected) →
  triple stuck connected (stop ← is_cancelled; lift (raise_if stop cancelled_error);; m) Q (fun _ => connected).
Proof.
  intros Hm. eapply (triple_bind _ _ _ _ (fun _ => connected)).
  - intros s (x & (sh & b & Hs) & Hx). revert s Hs.
    eapply triple_conseq; [apply (triple_cancelled x sh b (fun _ => connected))|done|..]; [|intros stop s Hs|done|done].
    + intros e s Hs. exact (connected_at x sh b s Hs Hx).
    + exact (connected_at x sh b s Hs Hx).
  - intros stop. apply triple_lift_at; [|done]. by intros [] _.
Qed.
Lemma triple_serve_window sh b :
  triple stuck (at_ Accepted sh b) (serve_window token p deadline)
    (fun r s => match r with Some r => responded r s | None => connected s end) (fun _ => connected).
Proof.
  unfold serve_window. eapply (triple_bind _ _ _ _ (fun _ => at_ Accepted sh b)); [apply triple_cancelled; intros e s Hs; by eapply connected_at|].
  intros stop. apply triple_lift_at; [|intros e s Hs; by eapply connected_at]. intros [] _.
  eapply (triple_bind _ _ _ _ (fun _ => at_ Accepted sh b)); [eapply triple_raising; [apply triple_set_active|]; intros e s Hs; eapply connected_at; [exact Hs|done]|]. intros _.
  assert (∀ s c, connected s → collect_started c = collect_started (st s) → authenticated c = authenticated (st s) →
          connected (Io c (script s) (trace s))) as Hkeep.
  { intros s c (x & (sh' & b' & Hs) & Hx) Hst Hc. eapply connected_at; [by eapply at_active|done]. }
  eapply triple_finally.
  - eapply (triple_try _ _ _ _ _ (fun _ => connected)).
    + eapply (triple_bind _ _ _ _ (fun _ => at_ Accepted sh b)); [apply challenge_clock; intros e s Hs; by eapply connected_at|]. intros now.
      eapply (triple_bind _ _ _ _ (fun _ => at_ Authentic sh b)).
      { apply triple_call_at; [done|by intros [[]|]|done|]. intros e s Hs. by eapply connected_at. }
      intros _. eapply (triple_bind _ _ _ _ (fun _ => at_ Authentic false true)); [apply triple_authenticate|]. intros _.
      eapply (triple_bind _ _ _ _ responded); [apply triple_receive_response|]. intros r. by apply triple_ret.
    + intros e. destruct (isinstance e IpcTimeout); [by apply triple_raise|].
      destruct (isinstance e IpcError); [|by apply triple_raise]. apply triple_unless_cancelled. by apply triple_ret.
  - intros [r|]; [|by apply triple_keep_active]. apply triple_modify.
    intros s (frame & Hf & sh' & b' & Hs). exists frame. split; [done|]. exists sh', b'. by apply at_active.
  - intros e. by apply triple_keep_active.
Qed.
(** Accepting leaves a connection, or the challenge ends. *)
Lemma triple_accept sh b :
  triple stuck (at_ Idle sh b) (accept_before_deadline deadline) (fun _ => at_ Accepted sh b) (fun _ => resting).
Proof.
  unfold accept_before_deadline. eapply (triple_bind _ _ _ _ (fun _ => at_ Idle sh b)).
  { apply challenge_clock. intros e s Hs. by eapply resting_at. }
  intros now. apply triple_lift_at; [|intros e s Hs; by eapply resting_at]. intros [] _.
  eapply (triple_bind _ _ _ _ (fun r => at_ (at_place (after (Ph sh Idle) (HAccept (qsub deadline now)) (Ok r))) sh b)).
  { apply (triple_try _ _ _ _ _ (fun _ => resting)); [|intros e; by apply triple_raise].
    apply triple_ask_at; [done|by intros [[]|]|done|]. intros e s Hs. by eapply resting_at. }
  intros [| | | | |fresh|frame]; try (intros s Hs; by eapply at_stuck); cbn [after at_place].
  - by apply triple_ret.
  - eapply (triple_bind _ _ _ _ (fun _ => at_ Overdue sh b)).
    { apply (triple_try _ _ _ _ _ (fun _ => at_ Overdue sh b)); [by apply triple_call_at|].
      intros e. destruct (isinstance e IpcError); [by apply triple_ret|apply triple_raise]. intros s Hs. by eapply resting_at. }
    intros _. eapply (triple_bind _ _ _ _ (fun r => at_ (at_place (after (Ph sh Overdue) HJoin (Ok r))) sh b)).
    { apply (triple_try _ _ _ _ _ (fun _ => at_ Overdue sh b)); [|intros e; by apply triple_ret].
      by apply triple_ask_at; [|intros [[]|]|..]. }
    intros r. eapply (triple_bind _ _ _ _ (fun _ => resting)); [|intros _; by apply triple_raise].
    destruct r as [| | | | |fresh|frame]; cbn [after at_place];
      try (apply triple_ret; intros s Hs; by eapply resting_at).
    apply triple_call_at; [done|by intros [[]|]|..]; intros ? s Hs; by eapply resting_at.
Qed.
Lemma idle_resting s : somewhere Idle s → resting s.
Proof. intros H. by exists Idle. Qed.
Lemma triple_hang_up :
  triple stuck connected (call HClose) (fun _ => somewhere Idle) (fun _ => resting).
Proof.
  intros s (x & (sh & b & Hs) & Hx). revert s Hs.
  apply triple_call_at; [by destruct x|by destruct x; intros [[]|]|..]; intros a s Hs; [|apply idle_resting];
    exists sh, b; by destruct x.
Qed.
Lemma triple_acknowledged r :
  triple stuck (responded r) (call HClose)
    (fun _ s => ∃ frame, decode_auth_response frame = Ok r ∧ somewhere (Answered frame) s) (fun _ => resting).
Proof.
  intros s (frame & Hf & sh & b & Hs). revert s Hs. apply triple_call_at; [done|by intros [[]|]|..]; intros a s Hs.
  - exists frame. split; [done|]. by exists sh, b.
  - by eapply resting_at.
Qed.
Definition settled (r : AuthResponse) (s : IO) : Prop :=
  ∃ frame, decode_auth_response frame = Ok r ∧ somewhere (Answered frame) s.
Lemma triple_collect_loop fuel sh b :
  triple stuck (at_ Idle sh b) (collect_loop token p deadline fuel) settled (fun _ => resting).
Proof.
  revert sh b. induction fuel as [|fuel IH]; intros sh b; [intros s Hs; by eapply at_stuck|]. cbn [collect_loop].
  eapply (triple_bind _ _ _ _ (fun _ => at_ Idle sh b)); [apply challenge_clock; intros e s Hs; by eapply resting_at|].
  intros now. destruct (qlt now deadline); [|apply triple_raise; intros s Hs; by eapply resting_at].
  eapply (triple_bind _ _ _ _ (fun _ => at_ Accepted sh b)).
  { apply (triple_try _ _ _ _ _ (fun _ => resting)); [apply triple_accept|]. intros e.
    eapply (triple_bind _ _ _ _ (fun _ => resting)); [|intros stop; apply triple_lift_at; [|done]; intros [] _; by apply triple_raise].
    intros s (x & (sh' & b' & Hs) & Hx). revert s Hs.
    eapply triple_conseq; [apply (triple_cancelled x sh' b' (fun _ => resting))|done|..]; [|intros stop s Hs|done|done].
    - intros e' s Hs. exact (resting_at x sh' b' s Hs Hx).
    - exact (resting_at x sh' b' s Hs Hx). }
  intros _. eapply (triple_bind _ _ _ _ (fun r s => match r with Some r => settled r s | None => somewhere Idle s end)).
  - eapply triple_cleanup; [apply triple_serve_window| |].
    + intros [r|]; [apply triple_acknowledged|apply triple_hang_up].
    + intros e. eapply triple_conseq; [apply triple_hang_up|done|intros ? s; apply idle_resting|done|done].
  - intros [r|]; [by apply triple_ret|]. intros s (sh' & b' & Hs). by apply (IH sh' b').
Qed.
Lemma triple_finish r :
  triple stuck (settled r) (call HCloseListener)
    (fun _ s => ∃ frame, decode_auth_response frame = Ok r ∧ somewhere (Over (Some frame)) s)
    (fun _ s => ∃ answer, somewhere (Over answer) s).
Proof.
  intros s (frame & Hf & sh & b & Hs). revert s Hs. apply triple_call_at; [done|by intros [[]|]|..]; intros a s Hs.
  - exists frame. split; [done|]. by exists sh, b.
  - exists (Some frame), sh, b. exact Hs.
Qed.
Lemma triple_give_up :
  triple stuck resting (call HCloseListener) (fun _ s => ∃ answer, somewhere (Over answer) s)
    (fun _ s => ∃ answer, somewhere (Over answer) s).
Proof.
  intros s (x & (sh & b & Hs) & Hx). revert s Hs.
  apply triple_call_at; [by destruct x|by destruct x; intros [[]|]|..];
    intros a s Hs; destruct x; try done; (eexists; exists sh, b; exact Hs).
Qed.
Lemma triple_collect :
  triple stuck (fun s => collect_started (st s) = false ∧ at_phase allowed' after tr scr start start s) (collect token p deadline)
    (fun r s => ∃ frame, decode_auth_response frame = Ok r ∧ somewhere (Over (Some frame)) s)
    (fun _ s => ∃ answer, somewhere (Over answer) s).
Proof.
  unfold collect. apply triple_state. intros c.
  apply (triple_before _ _ (fun s => collect_started c = false ∧ at_phase allowed' after tr scr start start s));
    [|intros s [[Hs Hc] Hst]; by rewrite <- Hst].
  apply triple_pure. intros ->.
  eapply (triple_bind _ _ _ _ (fun _ => at_phase allowed' after tr scr start start)); [by apply triple_ret|]. intros _.
  eapply (triple_bind _ _ _ _ (fun _ => somewhere Idle)).
  { apply triple_modify. intros s Hs. exists false, (authenticated (st s)). by split. }
  intros _. apply triple_get. intros s0 (sh & b & Hs0).
  eapply (triple_cleanup _ _ _ _ settled _ (fun _ => resting)); [|apply triple_finish|intros _; apply triple_give_up].
  intros s ->. by apply (triple_collect_loop _ sh b).
Qed.
End collecting.

(** Over any script, collecting shows its prompt at most once, to a window
    that proved the token on this very connection, and takes at most one frame
    after it, which it acknowledges with the status it decodes to.  It returns
    exactly the response that the acknowledged frame decodes to, and however it
    ends its listener is closed and it can never be used again. *)
Theorem response_collected_once {U : UnicodeDB} token p deadline (s : io challenge challenge_call challenge_reply) :
  let here := at_phase (allowed token (to_payload p)) after (trace s) (script s) (Ph false Idle) in
  let '(r, s') := collect token p deadline s in
  if collect_started (st s) then r = Raise (replay (u "authentication request was already consumed")) ∧ s' = s
  else match r with
       | Ret response => collect_started (st s') = true ∧ ∃ frame b, decode_auth_response frame = Ok response ∧
                                                                  here (Ph b (Over (Some frame))) s'
       | Raise _ => collect_started (st s') = true ∧ ∃ answer b, here (Ph b (Over answer)) s'
       | Hang => obeyed (allowed token (to_payload p)) after (trace s) (script s) (Ph false Idle) s'
       end.
Proof.
  cbv zeta. pose proof (triple_collect token p deadline (trace s) (script s) s) as H.
  destruct (collect_started (st s)) eqn:E.
  - unfold collect, state. unfold_prog. by rewrite E.
  - specialize (H (conj E (at_phase_start _ _ s _))). destruct (collect token p deadline s) as [[r|e|] s'].
    + destruct H as (frame & Hf & sh & b & Hs & _ & _ & Hd). split; [done|]. by exists frame, sh.
    + destruct H as (answer & sh & b & Hs & _ & _ & Hd). split; [done|]. by exists answer, sh.
    + exact H.
Qed.
