(* ===== verification/AuthClient.v ===== *)
(** * AuthClient: the window's side of an authentication (auth/client.py)

    The window connects once, proves itself, reads its prompt and sends one
    response frame, which the worker acknowledges.  The pipe and the clock are
    a script of answers. *)
From S2P Require Import Prelude Errors Text TextFacts Value Prog ConfigModel Prompts Ipc AuthWire AuthModel.

Inductive window_call : Type :=
  | WConnect (pipe : str) (timeout : Q)
  | WHandshake (token : str) (timeout : Q)
  | WReceive (timeout : Q)
  | WTime                                (* time.time() *)
  | WSend (frame : bytes)
  | WClose.
Inductive window_reply : Type :=
  | WDone
  | WMessage (e : Envelope)
  | WNow (now : Q).
(** connection, prompt, _finished *)
Record window := Window { is_open : bool; window_prompt : option AuthPrompt; finished : bool }.
Definition new_window : window := Window false None false.

Section client.
Context {U : UnicodeDB}.
Variables (pipe id token : str) (timeout : Q).
Abbreviation P := (M (io window window_call window_reply)).
Definition call (c : window_call) : P unit := ask c;; mret tt.
Definition receive : P Envelope := r ← ask (WReceive timeout); match r with WMessage e => mret e | _ => hang end.
Definition time_now : P Q := r ← ask WTime; match r with WNow q => mret q | _ => hang end.
Definition is_type_error (e : exn) : bool := match e with Builtin TypeError _ => true | _ => false end.
Definition expired (p : AuthPrompt) (now : Q) : bool :=
  match expires_at p with Finite q => qle q now | _ => false end.
(** The connection is closed before the error is raised. *)
Definition refuse {A} (e : exn) : P A := call WClose;; raise e.
Definition open : P AuthPrompt :=
  c ← state;
  lift (raise_if (is_open c || finished c) (protocol_error (u "authentication client is already used")));;
  let failed := protocol_error (u "authentication connection failed") in
  try_except (call (WConnect pipe timeout)) (fun e => raise (if isinstance e IpcError then failed else e));;
  challenge ← try_except (call (WHandshake token timeout);; receive)
                (fun e => if isinstance e IpcError then refuse failed else raise e);
  if negb (str_eqb (message_type challenge) (u "auth.challenge")) then
    refuse (protocol_error (u "authentication challenge type is invalid"))
  else
    match from_payload (payload challenge) with
    | Err e => if is_type_error e || is_value_error e
               then refuse (protocol_error (u "authentication challenge is invalid")) else raise e
    | Ok p =>
        if negb (str_eqb (request_id p) id) then
          refuse (protocol_error (u "authentication request ID does not match"))
        else
          now ← time_now;
          if expired p now then
            refuse (controlled AuthenticationTimedOut (u "authentication request already expired"))
          else
            update (fun c => Window true (Some p) (finished c));;
            mret p
    end.
Definition close : P unit :=
  c ← state;
  update (fun c => Window false (window_prompt c) (finished c));;
  if is_open c then call WClose else mret tt.
Definition acknowledgement_of (expected : str) (e : Envelope) : res str :=
  raise_if (negb (str_eqb (message_type e) (u "auth.response.ack")))
    (protocol_error (u "authentication acknowledgement type is invalid"));;
  raise_if (negb (bool_decide (dkeys (payload e) = [u "status"]) && eq_str (vget (payload e) (u "status")) expected))
    (protocol_error (u "authentication acknowledgement is invalid"));;
  Ok expected.
Definition finish (frame : bytes) (expected : str) : P str :=
  c ← state;
  lift (raise_if (finished c) (protocol_error (u "authentication response was already sent")));;
  lift (raise_if (negb (is_open c)) (protocol_error (u "authentication client is not connected")));;
  update (fun c => Window (is_open c) (window_prompt c) true);;
  acknowledgement ← try_finally
    (try_except (call (WSend frame);; receive)
       (fun e => raise (if isinstance e IpcError
                        then protocol_error (u "authentication response was not acknowledged") else e)))
    close;
  lift (acknowledgement_of expected acknowledgement).
(** The caller's secret and the frame are overwritten afterwards, which the
    caller sees and the model does not. *)
Definition submit_secret (secret : bytes) : P str :=
  frame ← lift (secret_response_frame secret);
  finish frame (u "submitted").
Definition decide_with (k : AuthResponseKind) (expected : str) : P str :=
  frame ← lift (decision_response_frame k);
  finish frame expected.
Definition confirm : P str := decide_with CONFIRM (u "confirmed").
Definition reject : P str := decide_with REJECT (u "rejected").
Definition cancel : P str := decide_with CANCEL (u "cancelled").
Definition report_timeout : P str := decide_with TIMEOUT (u "timed_out").
End client.

(** ** The answers of a window *)
Inductive answer : Type :=
  | Submit (secret : bytes)
  | Confirm | Reject | Cancel | ReportTimeout
  | Close.
Definition give {U : UnicodeDB} (timeout : Q) (a : answer) : M (io window window_call window_reply) str :=
  match a with
  | Submit secret => submit_secret timeout secret
  | Confirm => confirm timeout
  | Reject => reject timeout
  | Cancel => cancel timeout
  | ReportTimeout => report_timeout timeout
  | Close => close;; mret []
  end.
(** What the user's answer is, once decoded *)
Definition meaning (a : answer) : option AuthResponse :=
  match a with
  | Submit secret => Some (Response SECRET (Some secret))
  | Confirm => Some (Response CONFIRM None)
  | Reject => Some (Response REJECT None)
  | Cancel => Some (Response CANCEL None)
  | ReportTimeout => Some (Response TIMEOUT None)
  | Close => None
  end.
(** The frames a window sends *)
Definition frames (cs : list window_call) : list bytes :=
  omap (fun c => match c with WSend b => Some b | _ => None end) cs.

(** ** What a window sends *)
Section sending.
Context {U : UnicodeDB}.
Variable timeout : Q.
Abbreviation IO := (io window window_call window_reply).
Context (tr : list window_call).
(** Since the environment was at [tr], nothing was sent, or one frame that
    [given] accounts for and nothing more can be. *)
Definition sent_by (given : list answer) (s : IO) : Prop :=
  ∃ cs, trace s = tr ++ cs ∧
    (frames cs = [] ∨
     finished (st s) = true ∧ ∃ frame a r, frames cs = [frame] ∧ a ∈ given ∧ meaning a = Some r ∧
                                           decode_auth_response frame = Ok r).
Lemma frames_app a b : frames (a ++ b) = frames a ++ frames b.
Proof. apply omap_app. Qed.
Lemma sent_by_more given given' s : given ⊆ given' → sent_by given s → sent_by given' s.
Proof.
  intros Hg (cs & Ht & [H|(Hf & frame & a & r & H1 & H2 & H3)]); exists cs; (split; [done|]); [by left|right].
  split; [done|]. exists frame, a, r. auto.
Qed.
(** A call that sends nothing *)
Lemma spec_silent given c :
  frames [c] = [] → spec (sent_by given) (ask c) anything.
Proof.
  intros Hc s (cs & Ht & H).
  assert (∀ rest, sent_by given (Io (st s) rest (trace s ++ [c]))) as Hs.
  { intros rest. exists (cs ++ [c]). cbn. rewrite Ht, app_assoc, frames_app, Hc, app_nil_r. by split. }
  unfold ask. destruct (script s) as [|[a|e] rest]; [apply Hs|split; [done|apply Hs]|apply Hs].
Qed.
Lemma spec_call_silent given c : frames [c] = [] → spec (sent_by given) (call c) anything.
Proof. intros Hc. eapply spec_bind; [by apply spec_silent|]. intros r _. by apply spec_ret. Qed.
Lemma spec_receive given : spec (sent_by given) (receive timeout) anything.
Proof.
  eapply spec_bind; [by apply spec_silent|]. intros [|e|now] _; [by apply spec_hang|by apply spec_ret|by apply spec_hang].
Qed.
Lemma spec_update given (f : window → window) :
  (∀ c, finished c = true → finished (f c) = true) → spec (sent_by given) (update f) anything.
Proof.
  intros Hf. apply spec_modify. intros s (cs & Ht & [H|(Hd & H)]); exists cs; (split; [done|]); [by left|right].
  split; [by apply Hf|done].
Qed.
Lemma spec_close given : spec (sent_by given) close anything.
Proof.
  apply spec_bind with (Q := anything); [by apply spec_anything with (Q := fun a => ∃ s, sent_by given s ∧ a = st s), spec_gets|].
  intros c _. eapply spec_bind; [apply spec_update; done|]. intros _ _. destruct (is_open c); [by apply spec_call_silent|by apply spec_ret].
Qed.
Definition ready (s : IO) : Prop := ∃ cs, trace s = tr ++ cs ∧ frames cs = [] ∧ finished (st s) = true.
Lemma triple_send given frame a r :
  a ∈ given → meaning a = Some r → decode_auth_response frame = Ok r →
  triple (sent_by given) ready (call (WSend frame)) (fun _ => sent_by given) (fun _ => sent_by given).
Proof.
  intros Ha Hm Hd s (cs & Ht & Hc & Hf).
  assert (∀ rest, sent_by given (Io (st s) rest (trace s ++ [WSend frame]))) as Hs.
  { intros rest. exists (cs ++ [WSend frame]). cbn. rewrite Ht, app_assoc, frames_app, Hc. split; [done|right].
    split; [done|]. by exists frame, a, r. }
  unfold call, ask. unfold_prog. destruct (script s) as [|[x|e] rest]; apply Hs.
Qed.
Lemma acknowledged_status expected e s : acknowledgement_of expected e = Ok s → s = expected.
Proof. unfold acknowledgement_of. intros H. inv_ok H. by injection H. Qed.
(** Only the first frame of a window is sent. *)
Lemma spec_finish given frame expected a r :
  a ∈ given → meaning a = Some r → decode_auth_response frame = Ok r →
  spec (sent_by given) (finish timeout frame expected) (fun s => s = expected).
Proof.
  intros Ha Hm Hd. unfold finish. apply triple_state. intros c.
  apply triple_lift_at; [|by intros e s [Hs _]]. intros [] Hf%raise_if_Ok.
  apply triple_lift_at; [|by intros e s [Hs _]]. intros [] Ho.
  eapply (triple_bind _ _ _ _ (fun _ => ready)).
  { apply triple_modify. intros s [(cs & Ht & Hcs) Hst]. exists cs. split; [done|]. split; [|done].
    destruct Hcs as [H|[H _]]; [done|congruence]. }
  intros _. eapply (triple_bind _ _ _ _ (fun _ => sent_by given)).
  - eapply triple_finally with (R := fun _ => sent_by given).
    + apply (triple_try _ _ _ _ _ (fun _ => sent_by given)); [|intros e; by apply triple_raise].
      eapply (triple_bind _ _ _ _ (fun _ => sent_by given)); [by eapply triple_send|]. intros _.
      eapply triple_conseq; [apply (spec_receive given)|done|by intros e s [_ Hs]|done|done].
    + intros e. eapply triple_conseq; [apply (spec_close given)|done|by intros u s [_ Hs]|done|done].
    + intros e. eapply triple_conseq; [apply (spec_close given)|done|by intros u s [_ Hs]|done|done].
  - intros e. apply triple_lift; [|done]. intros x s H Hs. split; [by eapply acknowledged_status|done].
Qed.
(** The status a response is acknowledged with *)
Lemma spec_give given a :
  a ∈ given → spec (sent_by given) (give timeout a) (fun s => ∀ r, meaning a = Some r → s = status r).
Proof.
  intros Ha. assert (∀ k expected, meaning a = Some (Response k None) → k ≠ SECRET → expected = status (Response k None) →
    spec (sent_by given) (decide_with timeout k expected) (fun s => ∀ r, meaning a = Some r → s = status r)) as Hdecide.
  { intros k expected Hm Hk ->. unfold decide_with, decision_response_frame. case_decide; [done|].
    eapply spec_bind; [apply spec_lift|]. intros frame [= <-].
    eapply spec_conseq; [apply (spec_finish given _ _ a (Response k None)); [done|done|]|].
    - unfold decode_auth_response. rewrite kind_of_kind_byte. by case_decide.
    - intros s -> r Hr. rewrite Hm in Hr. by injection Hr as <-. }
  destruct a as [secret| | | | |]; cbn [give]; [|by apply Hdecide..|].
  - unfold submit_secret. eapply spec_bind; [apply spec_lift|]. intros frame Hframe.
    eapply spec_conseq; [apply (spec_finish given _ _ _ (Response SECRET (Some secret)) Ha); [done|]|].
    + unfold secret_response_frame in Hframe. destruct (invalid_secret_length secret) eqn:E1; [done|].
      destruct (has_line_ending secret) eqn:E2; [done|]. injection Hframe as <-. cbn. by rewrite E1, E2.
    + intros s -> r [= <-]. done.
  - eapply spec_bind; [apply spec_close|]. intros u _. by apply spec_ret.
Qed.
End sending.

(** The user answers one after the other; an answer may fail. *)
Fixpoint give_all {U : UnicodeDB} (timeout : Q) (answers : list answer) : M (io window window_call window_reply) unit :=
  match answers with
  | [] => mret tt
  | a :: answers => try_except (give timeout a;; mret tt) (fun e => mret tt);; give_all timeout answers
  end.
Lemma spec_give_all {U : UnicodeDB} timeout tr given answers :
  answers ⊆ given → spec (sent_by tr given) (give_all timeout answers) anything.
Proof.
  induction answers as [|a answers IH]; intros Hin; [by apply spec_ret|]. cbn [give_all].
  eapply (spec_bind _ _ anything); [|intros _ _; apply IH; set_solver].
  apply spec_try; [|intros e; by apply spec_ret]. eapply spec_bind; [apply spec_give; set_solver|].
  intros s _. by apply spec_ret.
Qed.

(** Whatever a window is told to answer, and however often, it sends at most
    one frame, which the worker decodes to one of the answers given: the secret
    byte for byte, or the decision; and an answer returns the status with which
    the worker acknowledges exactly that response. *)
Theorem window_answers_once {U : UnicodeDB} timeout answers a (s : io window window_call window_reply) :
  (∃ cs, trace (give_all timeout answers s).2 = trace s ++ cs ∧
         (frames cs = [] ∨ ∃ frame x r, frames cs = [frame] ∧ x ∈ answers ∧ meaning x = Some r ∧
                                        decode_auth_response frame = Ok r)) ∧
  (∀ text r, (give timeout a s).1 = Ret text → meaning a = Some r → text = status r).
Proof.
  assert (∀ given, sent_by (trace s) given s) as Hs by (intros given; exists []; rewrite app_nil_r; by split; [|left]).
  split.
  - pose proof (spec_give_all timeout (trace s) answers answers ltac:(done) s (Hs _)) as H.
    destruct (give_all timeout answers s) as [[u|e|] s']; [destruct H as [_ H]| |]; cbn [snd];
      destruct H as (cs & Ht & [H|(_ & frame & x & r & H)]); exists cs; (split; [done|]); [by left|right|by left|right|by left|right];
      by exists frame, x, r.
  - intros text r Hret Hm. pose proof (spec_give timeout (trace s) [a] a ltac:(by left) s (Hs _)) as H.
    destruct (give timeout a s) as [[x|e|] s']; cbn [fst] in Hret; [|discriminate..]. injection Hret as ->.
    by apply H.
Qed.

(** A window that submits a secret and then cancels *)
Definition sample_ack : Envelope := Env 3 (u "msg_0123456789abcdef") (u "auth.response.ack") [(u "status", VStr (u "submitted"))].
Definition sample_window : io window window_call window_reply :=
  Io (Window true None false) [Ok WDone; Ok (WMessage sample_ack); Ok WDone] [].
Lemma window_answers_once_witness :
  (give (U := ascii_db) (qz 5) (Submit (u "hunter2")) sample_window).1 = Ret (u "submitted") ∧
  u "submitted" = status (Response SECRET (Some (u "hunter2"))) ∧
  frames (trace (give_all (U := ascii_db) (qz 5) [Submit (u "hunter2"); Cancel] sample_window).2) = [1 :: u "hunter2"].
Proof.
  assert ((give (U := ascii_db) (qz 5) (Submit (u "hunter2")) sample_window).1 = Ret (u "submitted")) as H by (vm_compute; reflexivity).
  split; [exact H|]. split; [|vm_compute; reflexivity].
  exact (proj2 (window_answers_once (U := ascii_db) (qz 5) [] (Submit (u "hunter2")) sample_window) _ _ H eq_refl).
Defined.
