(* ===== verification/Askpass.v ===== *)
(** * Askpass: the program OpenSSH asks for a secret (auth/askpass.py)

    It passes the prompt of its command line to the worker that started it and
    prints the answer, and nothing else, on its standard output. *)
From S2P Require Import Prelude Errors Text TextFacts Value Prog Ipc AuthWire.

Definition ASKPASS_MODE_ENVIRONMENT : str := u "SERVEROPS_ASKPASS_MODE".
Definition ASKPASS_PIPE_ENVIRONMENT : str := u "SERVEROPS_ASKPASS_PIPE".
Definition ASKPASS_TOKEN_ENVIRONMENT : str := u "SERVEROPS_ASKPASS_TOKEN".
Definition ASKPASS_RESPONSE : Z := 1.
Definition ASKPASS_REJECTED : Z := 2.
Definition ASKPASS_CANCELLED : Z := 3.
Definition ASKPASS_TIMED_OUT : Z := 4.
Definition ASKPASS_FAILED : Z := 5.

Inductive askpass_call : Type :=
  | KConnect (pipe : str) | KHandshake (token : str) | KNewId
  | KSend (e : Envelope) | KReceive (max_bytes : Z)
  | KWrite (b : bytes) | KFlush          (* sys.stdout.buffer *)
  | KClose.
Inductive askpass_reply : Type :=
  | KDone
  | KId (s : str)
  | KFrame (b : bytes).

Definition is_askpass_invocation (environment : dict str) : bool :=
  bool_decide (dget environment ASKPASS_MODE_ENVIRONMENT = Some (u "1")).
(** The answer in a response of the worker, or the exit code that refuses it *)
Definition answer_of (response : bytes) : Z + bytes :=
  match response with
  | b :: secret =>
      if negb (b =? ASKPASS_RESPONSE) then inl 2
      else if invalid_secret_length secret || has_line_ending secret then inl 3
      else inr secret
  | [] => inl 2
  end.
Definition invalid_prompt (prompt : str) : bool := str_eqb prompt [] || mem_Z 0 prompt || (2048 <? len prompt).

Section askpass.
Context {U : UnicodeDB}.
(** The state says whether there is a connection. *)
Abbreviation P := (M (io bool askpass_call askpass_reply)).
Definition call (c : askpass_call) : P unit := ask c;; mret tt.
Definition print_answer (secret : bytes) : P Z :=
  call (KWrite secret);; call (KWrite [10]);; call KFlush;; mret 0.
Definition ask_worker (pipe token prompt : str) : P Z :=
  call (KConnect pipe);;
  update (fun _ => true);;
  call (KHandshake token);;
  fresh ← (r ← ask KNewId; match r with KId s => mret s | _ => hang end);
  e ← lift (create fresh (u "askpass.prompt") (Some [(u "prompt", VStr prompt)]) None);
  call (KSend e);;
  response ← (r ← ask (KReceive (MAX_AUTH_RESPONSE_BYTES + 1)); match r with KFrame b => mret b | _ => hang end);
  match answer_of response with
  | inl code => mret code
  | inr secret => print_answer secret
  end.
(** [environment] has been read and cleared of the three variables. *)
Definition run_askpass (arguments : list str) (environment : dict str) : P Z :=
  let pipe := default [] (dget environment ASKPASS_PIPE_ENVIRONMENT) in
  let token := default [] (dget environment ASKPASS_TOKEN_ENVIRONMENT) in
  match arguments with
  | [prompt] =>
      if str_eqb pipe [] || str_eqb token [] || invalid_prompt prompt then mret 3
      else
        try_finally
          (try_except (ask_worker pipe token prompt) (fun e => if is_exception e then mret 3 else raise e))
          (connected ← state; if connected : bool then call KClose else mret tt)
  | _ => mret 3
  end.
End askpass.

(** ** What is printed *)
Definition printed (cs : list askpass_call) : list bytes :=
  omap (fun c => match c with KWrite b => Some b | _ => None end) cs.
Section printing.
Context {U : UnicodeDB}.
Context (tr : list askpass_call) (scr : list (res askpass_reply)).
Abbreviation IO := (io bool askpass_call askpass_reply).
(** Since the environment was at [tr], [out] was printed. *)
Definition wrote (out : list bytes) (s : IO) : Prop :=
  (∃ cs, trace s = tr ++ cs ∧ printed cs = out) ∧ ∀ x, x ∈ script s → x ∈ scr.
(** A worker's answer, printed so far or completely *)
Definition answered (secret : bytes) : Prop :=
  Ok (KFrame (ASKPASS_RESPONSE :: secret)) ∈ scr ∧ invalid_secret_length secret = false ∧ has_line_ending secret = false.
Definition printing (s : IO) : Prop :=
  wrote [] s ∨ ∃ secret, answered secret ∧ (wrote [secret] s ∨ wrote [secret; [10]] s).
Definition exited (code : Z) (s : IO) : Prop :=
  if code =? 0 then ∃ secret, answered secret ∧ wrote [secret; [10]] s else (code = 2 ∨ code = 3) ∧ printing s.
Lemma triple_ask_wrote c out :
  triple (wrote (out ++ printed [c])) (wrote out) (ask c)
    (fun a s => Ok a ∈ scr ∧ wrote (out ++ printed [c]) s) (fun _ => wrote (out ++ printed [c])).
Proof.
  intros s ((cs & Ht & Hc) & Hs).
  assert (∀ rest, (∀ x, x ∈ rest → x ∈ scr) → wrote (out ++ printed [c]) (Io (st s) rest (trace s ++ [c]))) as Hw.
  { intros rest Hr. split; [|done]. exists (cs ++ [c]). cbn. rewrite Ht, app_assoc. split; [done|].
    unfold printed in *. by rewrite omap_app, Hc. }
  unfold ask. destruct (script s) as [|[a|e] rest]; [apply Hw; set_solver| |apply Hw; set_solver].
  split; [apply Hs; by left|]. apply Hw. set_solver.
Qed.
(** Before anything is printed, and after *)
Lemma triple_quiet c :
  printed [c] = [] → triple printing (wrote []) (ask c) (fun a s => Ok a ∈ scr ∧ wrote [] s) (fun _ => printing).
Proof.
  intros Hc. pose proof (triple_ask_wrote c []) as H. rewrite Hc in H. cbn in H.
  eapply triple_conseq; [exact H|done|done|intros e s Hs; by left|intros s Hs; by left].
Qed.
Lemma triple_quiet_call c :
  printed [c] = [] → triple printing (wrote []) (call c) (fun _ => wrote []) (fun _ => printing).
Proof.
  intros Hc. eapply triple_bind; [by apply triple_quiet|]. intros a. apply triple_ret. by intros s [_ Hs].
Qed.
Lemma triple_print secret :
  answered secret → triple printing (wrote []) (print_answer secret) exited (fun _ => printing).
Proof.
  intros Ha.
  assert (∀ s, wrote [secret] s → printing s) as H1 by (intros s Hs; right; exists secret; auto).
  assert (∀ s, wrote [secret; [10]] s → printing s) as H2 by (intros s Hs; right; exists secret; auto).
  assert (∀ c out out', out' = out ++ printed [c] → (∀ s, wrote out' s → printing s) →
    triple printing (wrote out) (call c) (fun _ => wrote out') (fun _ => printing)) as Hcall.
  { intros c out out' -> H. unfold call. eapply (triple_bind _ _ _ _ (fun _ => wrote (out ++ printed [c]))); [|intros a; by apply triple_ret].
    eapply triple_conseq; [apply triple_ask_wrote|done|by intros a s [_ Hs]|intros e s Hs; by apply H|exact H]. }
  unfold print_answer. eapply (triple_bind _ _ _ _ (fun _ => wrote [secret])); [by apply Hcall|]. intros _.
  eapply (triple_bind _ _ _ _ (fun _ => wrote [secret; [10]])); [by apply Hcall|]. intros _.
  eapply (triple_bind _ _ _ _ (fun _ => wrote [secret; [10]])); [by apply Hcall|]. intros _.
  apply triple_ret. intros s Hs. by exists secret.
Qed.
Lemma triple_ask_worker pipe token prompt :
  triple printing (wrote []) (ask_worker pipe token prompt) exited (fun _ => printing).
Proof.
  assert (∀ s, wrote [] s → printing s) as H0 by (intros s Hs; by left).
  unfold ask_worker. eapply (triple_bind _ _ _ _ (fun _ => wrote [])); [by apply triple_quiet_call|]. intros _.
  eapply (triple_bind _ _ _ _ (fun _ => wrote [])); [apply triple_modify; intros s Hs; exact Hs|]. intros _.
  eapply (triple_bind _ _ _ _ (fun _ => wrote [])); [by apply triple_quiet_call|]. intros _.
  eapply (triple_bind _ _ _ _ (fun _ => wrote [])).
  { eapply triple_bind; [by apply triple_quiet|]. intros [|fresh|frame]; [intros s [_ Hs]; by left| |intros s [_ Hs]; by left].
    apply triple_ret. by intros s [_ Hs]. }
  intros fresh. apply triple_lift_at; [|auto]. intros e _.
  eapply (triple_bind _ _ _ _ (fun _ => wrote [])); [by apply triple_quiet_call|]. intros _.
  eapply (triple_bind _ _ _ _ (fun response s => Ok (KFrame response) ∈ scr ∧ wrote [] s)).
  { eapply triple_bind; [by apply triple_quiet|]. intros [|id|frame]; [intros s [_ Hs]; by left..|].
    apply triple_ret. intros s Hs. exact Hs. }
  intros response. apply triple_pure. intros Hr. unfold answer_of.
  destruct response as [|b secret]; [apply triple_ret; intros s Hs; split; [by left|auto]|].
  destruct (b =? ASKPASS_RESPONSE) eqn:Hb; cbn [negb]; [|apply triple_ret; intros s Hs; split; [by left|auto]].
  apply Z.eqb_eq in Hb as ->.
  destruct (invalid_secret_length secret || has_line_ending secret) eqn:Hv.
  - apply triple_ret. intros s Hs. split; [by right|auto].
  - apply orb_false_iff in Hv as [H1 H2]. by apply triple_print.
Qed.
(** Disconnecting prints nothing. *)
Definition quiet (P : IO → Prop) : Prop :=
  ∀ s c rest, printed [c] = [] → (∀ x, x ∈ rest → x ∈ script s) → P s → P (Io (st s) rest (trace s ++ [c])).
Lemma quiet_wrote out : quiet (wrote out).
Proof.
  intros s c rest Hc Hr [(cs & Ht & Hout) Hs]. split; [|auto]. exists (cs ++ [c]). cbn. rewrite Ht, app_assoc.
  split; [done|]. unfold printed in *. by rewrite omap_app, Hc, Hout, app_nil_r.
Qed.
Lemma quiet_printing : quiet printing.
Proof.
  intros s c rest Hc Hr [H|(secret & Ha & [H|H])]; [left|right; exists secret..]; [|split; [done|left]|split; [done|right]];
    by apply quiet_wrote.
Qed.
Lemma quiet_exited code : quiet (exited code).
Proof.
  intros s c rest Hc Hr. unfold exited. destruct (code =? 0).
  - intros (secret & Ha & H). exists secret. split; [done|]. by apply quiet_wrote.
  - intros [Hcode H]. split; [done|]. by apply quiet_printing.
Qed.
Lemma exited_printing code s : exited code s → printing s.
Proof. unfold exited. destruct (code =? 0); [intros (secret & Ha & H); right; by exists secret; auto|by intros [_ H]]. Qed.
Lemma askpass_disconnect (P : IO → Prop) :
  quiet P → (∀ s, P s → printing s) →
  triple printing P (connected ← state; if connected : bool then call KClose else mret tt) (fun _ => P) (fun _ => printing).
Proof.
  intros Hq HP. apply triple_state. intros b s [Hs _]. destruct b; [|exact Hs].
  unfold call, ask. unfold_prog. destruct (script s) as [|[a|e] rest] eqn:E; [apply HP| |apply HP];
    (apply Hq; [done|rewrite E; set_solver|done]).
Qed.
End printing.

(** Whatever the worker sends, the askpass program prints nothing, or the
    secret of one response of the worker, within the length OpenSSH reads and on
    one line, followed by a line end; it exits with zero exactly when it printed
    the whole answer, and otherwise with the code of a refusal. *)
Theorem askpass_prints_the_answer {U : UnicodeDB} arguments environment (s : io bool askpass_call askpass_reply) :
  match run_askpass arguments environment s with
  | (Ret code, s') => exited (trace s) (script s) code s'
  | (_, s') => printing (trace s) (script s) s'
  end.
Proof.
  set (tr := trace s). set (scr := script s).
  assert (wrote tr scr [] s) as Hs by (split; [exists []; by rewrite app_nil_r|done]).
  assert (triple (printing tr scr) (wrote tr scr []) (run_askpass arguments environment) (exited tr scr) (fun _ => printing tr scr))
    as H; [|by specialize (H s Hs); destruct (run_askpass arguments environment s) as [[code|e|] s']].
  assert (triple (printing tr scr) (wrote tr scr []) (mret 3 : M (io bool askpass_call askpass_reply) Z) (exited tr scr) (fun _ => printing tr scr)) as H3.
  { apply triple_ret. intros s' Hs'. split; [by right|by left]. }
  unfold run_askpass. destruct arguments as [|prompt []]; [exact H3| |exact H3].
  destruct (_ || _ || _); [exact H3|].
  eapply triple_finally.
  - apply (triple_try _ _ _ _ _ (fun _ => printing tr scr)); [apply triple_ask_worker|].
    intros e. destruct (is_exception e); [|by apply triple_raise]. apply triple_ret. intros s' Hs'. split; [by right|done].
  - intros code. apply askpass_disconnect; [apply quiet_exited|apply exited_printing].
  - intros e. by apply askpass_disconnect; [apply quiet_printing|].
Qed.
