(* ===== verification/AskpassRelay.v ===== *)
(** * AskpassRelay: answering the prompts of one connection (worker/askpass.py)

    While OpenSSH connects, a thread of the worker serves the askpass programs
    it starts: each proves the relay's token, sends its prompt, and gets the
    secret of the authentication window when the connection's policy allows the
    prompt.  The pipe, the clock, the window and the stop flag are a script of
    answers; a monitor says what may be answered. *)
From S2P Require Import Prelude Errors Text TextFacts Regex Value Prog ConfigModel Prompts Ssh Ipc AuthWire AuthModel Askpass.

Inductive relay_call : Type :=
  | RStopping | RSetStop                 (* _stop.is_set(), _stop.set() *)
  | RClock
  | RAccept | RHandshake (token : str) (timeout : Q) | RReceive (timeout : Q)
  | RRespond (event : PromptEvent)       (* authenticator.respond(event, sink) *)
  | RSend (frame : bytes)
  | RDisconnect
  | RStartThread | RCancelActive | RWake | RJoin | RAlive | RStopListening.
Inductive relay_reply : Type :=
  | RDone
  | RFlag (set : bool)
  | RNow (now : Q)
  | RRequest (e : Envelope)
  | RSubmitted (secret : option bytes).  (* what the sink holds when the call returns *)
Record relay := Relay {
  r_policy : ConnectionPromptPolicy; r_failure : option exn; r_started : bool; r_token : str }.

(** [_RelaySecretSink.submit] on what the sink holds *)
Definition sink_submit (held : option bytes) (response : bytes) : res (option bytes) :=
  match held with
  | Some _ => Err (protocol_error (u "Askpass response was already supplied"))
  | None => Ok (Some response)
  end.

Section relay.
Context {U : UnicodeDB}.
Variables (executable pipe : str) (deadline : Q).
Abbreviation P := (M (io relay relay_call relay_reply)).
Definition tell (c : relay_call) : P unit := ask c;; mret tt.
Definition flag (c : relay_call) : P bool := r ← ask c; match r with RFlag b => mret b | _ => hang end.
Definition clock : P Q := r ← ask RClock; match r with RNow q => mret q | _ => hang end.
Definition patience (now : Q) : Q := qmin (qz 5) (qmax (qz 0) (qsub deadline now)).
Definition on_policy {A} (m : M ConnectionPromptPolicy A) : P A := fun s =>
  let '(r, p) := m (r_policy (st s)) in
  (r, Io (Relay p (r_failure (st s)) (r_started (st s)) (r_token (st s))) (script s) (trace s)).
Definition set_failure (e : exn) : P unit :=
  update (fun x => Relay (r_policy x) (match r_failure x with None => Some e | f => f end) (r_started x) (r_token x));;
  tell RSetStop.

Definition environment (token : str) : dict str :=
  [(u "DISPLAY", u "serverops-askpass"); (u "SSH_ASKPASS", executable); (u "SSH_ASKPASS_REQUIRE", u "force");
   (ASKPASS_MODE_ENVIRONMENT, u "1"); (ASKPASS_PIPE_ENVIRONMENT, pipe); (ASKPASS_TOKEN_ENVIRONMENT, token)].
Definition is_policy_error (e : exn) : bool := match e with Builtin PromptPolicyError _ => true | _ => false end.
Definition prompt_of (request : Envelope) : res str :=
  raise_if (negb (str_eqb (message_type request) (u "askpass.prompt")) || negb (same_set (dkeys (payload request)) [u "prompt"]))
    (protocol_error (u "Askpass request fields are invalid"));;
  match vget (payload request) (u "prompt") with
  | VStr prompt => Ok prompt
  | _ => Err (protocol_error (u "Askpass prompt is not text"))
  end.
Definition grant (prompt : str) : P PromptEvent :=
  try_except (e ← lift (classify_askpass_prompt prompt); on_policy (authorize e);; mret e)
    (fun e => if is_policy_error e then tell (RSend [ASKPASS_FAILED]);; raise (protocol_error (error_message e))
              else raise e).
(** The refusal that the askpass program is told *)
Definition refusal (e : exn) : option Z :=
  if isinstance e AuthenticationRejected then Some ASKPASS_REJECTED
  else if isinstance e AuthenticationCancelled then Some ASKPASS_CANCELLED
  else if isinstance e AuthenticationTimedOut then Some ASKPASS_TIMED_OUT
  else None.
Definition respond (event : PromptEvent) : P (option bytes) :=
  try_except (r ← ask (RRespond event); match r with RSubmitted secret => mret secret | _ => hang end)
    (fun e => (match refusal e with Some code => tell (RSend [code]) | None => mret tt end);; raise e).
Definition handle_request : P unit :=
  now ← clock;
  request ← (r ← ask (RReceive (patience now)); match r with RRequest e => mret e | _ => hang end);
  prompt ← lift (prompt_of request);
  event ← grant prompt;
  answer ← respond event;
  match answer with
  | None => raise (protocol_error (u "authentication window returned no Askpass response"))
  | Some secret => on_policy (record_answer (kind event));; tell (RSend (ASKPASS_RESPONSE :: secret))
  end.
(** One connection; the result says whether to accept another. *)
Definition serve_connection : P bool :=
  stop ← flag RStopping;
  if stop : bool then mret false
  else
    x ← state;
    trusted ← try_except (now ← clock; tell (RHandshake (r_token x) (patience now));; mret true)
                (fun e => if isinstance e IpcError then mret false else raise e);
    if trusted : bool then try_except (handle_request;; mret true) (fun e => set_failure e;; mret false)
    else mret true.
Fixpoint serve_loop (fuel : nat) : P unit :=
  match fuel with
  | O => hang
  | S fuel =>
      stop ← flag RStopping;
      if stop : bool then mret tt
      else
        now ← clock;
        if qlt now deadline then
          accepted ← try_except (tell RAccept;; mret true)
            (fun e => stop ← flag RStopping;
                      (if stop : bool then mret tt else set_failure (protocol_error (u "Askpass relay accept failed")));;
                      mret false);
          if accepted : bool then
            again ← try_finally serve_connection (tell RDisconnect);
            if again : bool then serve_loop fuel else mret tt
          else mret tt
        else mret tt
  end.
Definition serve : P unit := s ← get; serve_loop (S (length (script s))).
Definition start : P unit :=
  x ← state;
  lift (raise_if (r_started x) (Builtin RuntimeError (u "Askpass relay is already started")));;
  update (fun x => Relay (r_policy x) (r_failure x) true (r_token x));;
  tell RStartThread.
Definition check : P unit :=
  x ← state; match r_failure x with Some e => raise e | None => mret tt end.
Definition close : P unit :=
  tell RSetStop;;
  tell RCancelActive;;
  suppress (fun e => isinstance e IpcError) (tell RWake);;
  x ← state;
  (if r_started x then tell RJoin else mret tt);;
  try_finally (tell RStopListening) (update (fun x => Relay (r_policy x) (r_failure x) (r_started x) []));;
  if r_started x then
    alive ← flag RAlive;
    if alive : bool then
      let e := protocol_error (u "Askpass relay did not stop after authentication cancellation") in
      set_failure e;; raise e
    else mret tt
  else mret tt.
End relay.

(** ** What a relay answers *)
Inductive relay_place : Type :=
  | Waiting | Arrived | Trusted | Asked (request : Envelope) | Holding (event : PromptEvent) (secret : bytes) | Spent.
(** The kinds of the prompts answered so far, and where the thread is *)
Record relay_phase := RPh { answered : list PromptKind; at_place : relay_place }.
Section answering.
Context {U : UnicodeDB}.
Variables (kinds : list PromptKind) (token : str).
Definition is_credential (k : PromptKind) : Prop := k = PASSWORD ∨ k = KEY_PASSPHRASE.
(** A prompt may be answered: its kind belongs to the profile, no credential was
    given yet, and no second host-key decision. *)
Definition admitted (ks : list PromptKind) (request : Envelope) (event : PromptEvent) : Prop :=
  (∃ prompt, message_type request = u "askpass.prompt" ∧ vget (payload request) (u "prompt") = VStr prompt ∧
             classify_askpass_prompt prompt = Ok event) ∧
  kind event ∈ kinds ∧ Forall (fun k => ¬ is_credential k) ks ∧ (kind event = HOST_KEY → HOST_KEY ∉ ks).
Definition allowed (ph : relay_phase) (c : relay_call) : Prop :=
  match c, at_place ph with
  | (RStopping | RSetStop | RClock), _ => True
  | RAccept, Waiting | RReceive _, Trusted => True
  | RHandshake t _, Arrived => t = token
  | RRespond event, Asked request => admitted (answered ph) request event
  | RSend frame, Asked _ => frame = [ASKPASS_FAILED]
  | RSend frame, Holding event secret => frame = ASKPASS_RESPONSE :: secret
  | RSend frame, Spent => frame ∈ [[ASKPASS_REJECTED]; [ASKPASS_CANCELLED]; [ASKPASS_TIMED_OUT]]
  | RDisconnect, (Arrived | Trusted | Asked _ | Holding _ _ | Spent) => True
  | _, _ => False
  end.
Definition after (ph : relay_phase) (c : relay_call) (a : res relay_reply) : relay_phase :=
  let go x := RPh (answered ph) x in
  match c, at_place ph, a with
  | (RStopping | RSetStop | RClock), _, _ => ph
  | RAccept, _, Ok _ => go Arrived
  | RAccept, _, Err _ => go Waiting
  | RHandshake _ _, _, Ok _ => go Trusted
  | RReceive _, _, Ok (RRequest e) => go (Asked e)
  | RRespond event, _, Ok (RSubmitted (Some secret)) => go (Holding event secret)
  | RSend _, Holding event secret, _ => RPh (answered ph ++ [kind event]) Spent
  | RDisconnect, _, _ => go Waiting
  | _, _, _ => go Spent
  end.

Context (executable pipe : str) (deadline : Q) (tr : list relay_call) (scr : list (res relay_reply)).
Abbreviation IO := (io relay relay_call relay_reply).
Abbreviation opening := (RPh [] Waiting).
Abbreviation stuck := (obeyed allowed after tr scr opening).
(** The policy has counted the answers [ks]. *)
Definition counts (ks : list PromptKind) (x : relay) : Prop :=
  policy_kinds (r_policy x) = kinds ∧ r_token x = token ∧
  (host_key_answered (r_policy x) = false → HOST_KEY ∉ ks) ∧
  (credential_answered (r_policy x) = false → Forall (fun k => ¬ is_credential k) ks).
Abbreviation at_ := (tracked allowed after (fun ph => counts (answered ph)) tr scr opening).
Abbreviation in_ ks x := (at_ (RPh ks x)).
Definition serving (s : IO) : Prop :=
  ∃ ks x, in_ ks x s ∧ match x with Waiting => False | _ => True end.
Lemma serving_at ks x s : in_ ks x s → match x with Waiting => False | _ => True end → serving s.
Proof. intros H Hx. by exists ks, x. Qed.

Lemma triple_in c ks x (Q : relay_reply → IO → Prop) (R : exn → IO → Prop) :
  allowed (RPh ks x) c → (∀ a, answered (after (RPh ks x) c a) = ks) →
  (∀ a s, in_ ks (at_place (after (RPh ks x) c (Ok a))) s → Q a s) →
  (∀ e s, in_ ks (at_place (after (RPh ks x) c (Err e))) s → R e s) →
  triple stuck (in_ ks x) (ask c) Q R.
Proof.
  intros Hc Ha HQ HR. apply triple_tracked; [done|by intros a r; rewrite Ha|..]; intros a s Hs; [apply HQ|apply HR];
    match type of Hs with tracked _ _ _ _ _ _ ?ph _ => destruct ph as [ks' x'] eqn:E end;
    match type of E with after _ _ ?r = _ => specialize (Ha r) end; rewrite E in Ha; cbn in Ha |- *; by subst ks'.
Qed.
Lemma triple_tell_in c ks x (Q R : IO → Prop) :
  allowed (RPh ks x) c → (∀ a, answered (after (RPh ks x) c a) = ks) →
  (∀ a s, in_ ks (at_place (after (RPh ks x) c (Ok a))) s → Q s) →
  (∀ e s, in_ ks (at_place (after (RPh ks x) c (Err e))) s → R s) →
  triple stuck (in_ ks x) (tell c) (fun _ => Q) (fun _ => R).
Proof.
  intros Hc Ha HQ HR. unfold tell.
  eapply (triple_bind _ _ _ _ (fun a => in_ ks (at_place (after (RPh ks x) c (Ok a))))); [by apply triple_in|].
  intros a. apply triple_ret. apply HQ.
Qed.
(** Reading the stop flag or the clock changes nothing. *)
Lemma triple_flag ks x (R : exn → IO → Prop) :
  (∀ e s, in_ ks x s → R e s) → triple stuck (in_ ks x) (flag RStopping) (fun _ => in_ ks x) R.
Proof.
  intros HR. eapply (triple_bind _ _ _ _ (fun _ => in_ ks x)); [by apply triple_in; [destruct x|..]|].
  intros [|b| | |]; [|by apply triple_ret|..]; intros s Hs; by eapply tracked_obeyed.
Qed.
Lemma relay_clock ks x (R : exn → IO → Prop) :
  (∀ e s, in_ ks x s → R e s) → triple stuck (in_ ks x) clock (fun _ => in_ ks x) R.
Proof.
  intros HR. eapply (triple_bind _ _ _ _ (fun _ => in_ ks x)); [by apply triple_in; [destruct x|..]|].
  intros [| |now| |]; [| |by apply triple_ret|..]; intros s Hs; by eapply tracked_obeyed.
Qed.
Lemma triple_set_failure ks x e :
  triple stuck (in_ ks x) (set_failure e) (fun _ => in_ ks x) (fun _ => in_ ks x).
Proof.
  unfold set_failure. eapply (triple_bind _ _ _ _ (fun _ => in_ ks x)); [apply triple_modify; intros s Hs; exact Hs|].
  intros _. apply triple_tell_in; [by destruct x|done|done|done].
Qed.
Lemma authorize_grants ks x e r p :
  counts ks x → authorize e (r_policy x) = (r, p) →
  p = r_policy x ∧
  (r = Ret tt → kind e ∈ kinds ∧ Forall (fun k => ¬ is_credential k) ks ∧ (kind e = HOST_KEY → HOST_KEY ∉ ks)).
Proof.
  intros (Hk & _ & Hh & Hc). unfold authorize. unfold_prog.
  destruct (bool_decide (kind e ∈ policy_kinds (r_policy x))) eqn:E1; cbn [negb raise_if]; [|intros [= <- <-]; by split].
  destruct (credential_answered (r_policy x)) eqn:E2; cbn [raise_if]; [intros [= <- <-]; by split|].
  destruct (bool_decide (kind e = HOST_KEY) && host_key_answered (r_policy x)) eqn:E3; cbn [raise_if]; intros [= <- <-];
    (split; [done|]); [done|]. intros _. apply bool_decide_eq_true in E1. rewrite Hk in E1. split; [done|].
  split; [by apply Hc|]. intros Hkind. apply Hh. rewrite bool_decide_eq_true_2 in E3 by done. exact E3.
Qed.
Lemma triple_grant ks request prompt :
  prompt_of request = Ok prompt →
  triple stuck (in_ ks (Asked request)) (grant prompt)
    (fun event s => admitted ks request event ∧ in_ ks (Asked request) s) (fun _ => serving).
Proof.
  intros Hp. unfold grant. apply (triple_try _ _ _ _ _ (fun _ => in_ ks (Asked request))).
  - apply triple_lift_at; [|done]. intros event Hevent.
    eapply (triple_bind _ _ _ _ (fun _ s => admitted ks request event ∧ in_ ks (Asked request) s)); [|intros u; by apply triple_ret].
    intros s [Hs Hx]. unfold on_policy. destruct (authorize event (r_policy (st s))) as [r p] eqn:E.
    destruct (authorize_grants ks _ _ _ _ Hx E) as [-> Hgrant].
    assert (in_ ks (Asked request) (Io (Relay (r_policy (st s)) (r_failure (st s)) (r_started (st s)) (r_token (st s)))
              (script s) (trace s))) as Hs' by (split; [exact Hs|by destruct Hx]).
    destruct r as [[]|e|]; [split; [|done]|exact Hs'|by eapply tracked_obeyed]. split; [|by apply Hgrant].
    exists prompt. unfold prompt_of in Hp. inv_ok Hp. apply raise_if_Ok in Ha. unfold str_eqb in Ha. boolean.
    destruct (vget (payload request) (u "prompt")) eqn:Hv; try discriminate. injection Hp as ->. done.
  - intros e. destruct (is_policy_error e); [|apply triple_raise; intros s Hs; by eapply serving_at].
    eapply (triple_bind _ _ _ _ (fun _ => serving)); [|intros u; by apply triple_raise].
    apply triple_tell_in; [done|by intros [[]|]|..]; intros a s Hs; by eapply serving_at.
Qed.
Lemma relay_respond ks request event :
  admitted ks request event →
  triple stuck (in_ ks (Asked request)) (respond event)
    (fun answer s => match answer with Some secret => in_ ks (Holding event secret) s | None => serving s end)
    (fun _ => serving).
Proof.
  intros Hadm. unfold respond. apply (triple_try _ _ _ _ _ (fun _ => in_ ks Spent)).
  - eapply (triple_bind _ _ _ _ (fun r => in_ ks (at_place (after (RPh ks (Asked request)) (RRespond event) (Ok r))))).
    { apply triple_in; [done|by intros [[| | | |[]]|]|done|done]. }
    intros [| | | |[secret|]]; try (intros s Hs; by eapply tracked_obeyed); apply triple_ret; [done|].
    intros s Hs. by eapply serving_at.
  - intros e. eapply (triple_bind _ _ _ _ (fun _ => serving)); [|intros u; by apply triple_raise].
    destruct (refusal e) as [code|] eqn:Hcode; [|apply triple_ret; intros s Hs; by eapply serving_at].
    apply triple_tell_in; [|by intros [[]|]|..]; [|intros a s Hs; by eapply serving_at..].
    unfold refusal in Hcode. cbn. repeat case_match; try discriminate; injection Hcode as <-; set_solver.
Qed.
Lemma record_answer_counts ks x event p :
  counts ks x → kind event ∈ kinds → record_answer (kind event) (r_policy x) = (Ret tt, p) →
  counts (ks ++ [kind event]) (Relay p (r_failure x) (r_started x) (r_token x)).
Proof.
  intros (Hk & Ht & Hh & Hc) Hin. unfold record_answer. unfold_prog.
  case_bool_decide as Ek.
  - destruct (host_key_answered (r_policy x)); cbn [raise_if]; intros [= <-]. split_and!; [done|done|done|]. cbn.
    intros H. apply Forall_app. split; [by apply Hc|]. constructor; [|done]. rewrite Ek. by intros [|].
  - destruct (bool_decide (kind event ∈ _)); cbn [negb raise_if]; [|discriminate].
    destruct (credential_answered (r_policy x)); cbn [raise_if]; intros [= <-]. split_and!; [done|done| |done]. cbn.
    intros H. rewrite elem_of_app, list_elem_of_singleton. intros [H'|H']; [by apply Hh|congruence].
Qed.
Lemma record_answer_raises k p r p' : record_answer k p = (r, p') → r ≠ Ret tt → p' = p.
Proof.
  unfold record_answer. unfold_prog.
  destruct (bool_decide (k = HOST_KEY)); [destruct (host_key_answered p)|
    destruct (bool_decide (k ∈ _)); cbn [negb raise_if]; [destruct (credential_answered p)|]];
    cbn [raise_if]; intros [= <- <-] Hne; first [done | by destruct Hne].
Qed.
Lemma triple_deliver ks event secret :
  kind event ∈ kinds →
  triple stuck (in_ ks (Holding event secret))
    (on_policy (record_answer (kind event));; tell (RSend (ASKPASS_RESPONSE :: secret)))
    (fun _ => serving) (fun _ => serving).
Proof.
  intros Hin. set (counted := tracked allowed after (fun _ => counts (ks ++ [kind event])) tr scr opening (RPh ks (Holding event secret))).
  apply (triple_bind _ _ _ _ (fun _ => counted)).
  - intros s [Hs Hx]. unfold on_policy. destruct (record_answer (kind event) (r_policy (st s))) as [[[]|e|] p] eqn:E.
    + split; [exact Hs|]. by eapply record_answer_counts.
    + apply record_answer_raises in E; [|done]. subst p. apply (serving_at ks (Holding event secret)); [|done].
      split; [exact Hs|]. by destruct Hx.
    + by eapply at_phase_obeyed.
  - intros _. unfold tell. apply (triple_bind _ _ _ _ (fun _ => serving)); [|intros a; by apply triple_ret].
    apply triple_tracked; [done|done|..]; intros a s [Hs Hx]; (apply (serving_at (ks ++ [kind event]) Spent); [|done]); by split.
Qed.
Lemma triple_handle_request ks :
  triple stuck (in_ ks Trusted) (handle_request deadline) (fun _ => serving) (fun _ => serving).
Proof.
  unfold handle_request.
  eapply (triple_bind _ _ _ _ (fun _ => in_ ks Trusted)); [apply relay_clock; intros e s Hs; by eapply serving_at|]. intros now.
  eapply (triple_bind _ _ _ _ (fun request => in_ ks (Asked request))).
  { eapply (triple_bind _ _ _ _ (fun r => in_ ks (at_place (after (RPh ks Trusted) (RReceive (patience deadline now)) (Ok r))))).
    - apply triple_in; [done|by intros [[]|]|done|]. intros e s Hs. by eapply serving_at.
    - intros [| | |e|]; try (intros s Hs; by eapply tracked_obeyed). by apply triple_ret. }
  intros request. apply triple_lift_at; [|intros e s Hs; by eapply serving_at]. intros prompt Hp.
  eapply (triple_bind _ _ _ _ (fun event s => admitted ks request event ∧ in_ ks (Asked request) s)); [by apply triple_grant|].
  intros event. apply triple_pure. intros Hadm.
  eapply (triple_bind _ _ _ _ (fun answer s => match answer with Some secret => in_ ks (Holding event secret) s | None => serving s end));
    [by apply relay_respond|]. intros [secret|]; [|by apply triple_raise]. apply triple_deliver. apply Hadm.
Qed.
Definition waiting (s : IO) : Prop := ∃ ks, in_ ks Waiting s.
Lemma triple_serving_failure e :
  triple stuck serving (set_failure e) (fun _ => serving) (fun _ => serving).
Proof.
  intros s (ks & x & Hs & Hx). revert s Hs.
  eapply triple_conseq; [apply (triple_set_failure ks x e)|done|..]; [intros u s Hs|intros e' s Hs|done]; by exists ks, x.
Qed.
Lemma triple_serve_connection ks :
  triple stuck (in_ ks Arrived) (serve_connection deadline) (fun _ => serving) (fun _ => serving).
Proof.
  unfold serve_connection.
  eapply (triple_bind _ _ _ _ (fun _ => in_ ks Arrived)); [apply triple_flag; intros e s Hs; by eapply serving_at|].
  intros []; [apply triple_ret; intros s Hs; by eapply serving_at|]. apply triple_state. intros x.
  apply (triple_before _ _ (fun s => r_token x = token ∧ in_ ks Arrived s)).
  2: { intros s [[Hs (Hk & Ht & Hc)] Hst]. split; [by rewrite <- Hst|exact (conj Hs (conj Hk (conj Ht Hc)))]. }
  apply triple_pure. intros ->.
  eapply (triple_bind _ _ _ _ (fun ok : bool => if ok then in_ ks Trusted else serving)).
  - apply (triple_try _ _ _ _ _ (fun _ => serving)).
    + eapply (triple_bind _ _ _ _ (fun _ => in_ ks Arrived)); [apply relay_clock; intros e s Hs; by eapply serving_at|].
      intros now. eapply (triple_bind _ _ _ _ (fun _ => in_ ks Trusted)); [|intros u; by apply triple_ret].
      apply triple_tell_in; [done|by intros [[]|]|done|]. intros e s Hs. by eapply serving_at.
    + intros e. destruct (isinstance e IpcError); [by apply triple_ret|by apply triple_raise].
  - intros []; [|by apply triple_ret]. apply (triple_try _ _ _ _ _ (fun _ => serving)).
    + eapply (triple_bind _ _ _ _ (fun _ => serving)); [apply triple_handle_request|]. intros u. by apply triple_ret.
    + intros e. eapply (triple_bind _ _ _ _ (fun _ => serving)); [apply triple_serving_failure|]. intros u. by apply triple_ret.
Qed.
Lemma relay_disconnect :
  triple stuck serving (tell RDisconnect) (fun _ => waiting) (fun _ => waiting).
Proof.
  intros s (ks & x & Hs & Hx). revert s Hs.
  apply triple_tell_in; [by destruct x|by destruct x; intros [[]|]|..]; intros a s Hs; exists ks; by destruct x.
Qed.
Lemma triple_serve_loop fuel :
  triple stuck waiting (serve_loop deadline fuel) (fun _ => waiting) (fun _ => waiting).
Proof.
  induction fuel as [|fuel IH]; [intros s (ks & Hs); by eapply tracked_obeyed|]. cbn [serve_loop].
  apply triple_exists. intros ks.
  assert (∀ s, in_ ks Waiting s → waiting s) as Hw by (intros s Hs; by exists ks).
  eapply (triple_bind _ _ _ _ (fun _ => in_ ks Waiting)); [apply triple_flag; auto|]. intros []; [by apply triple_ret|].
  eapply (triple_bind _ _ _ _ (fun _ => in_ ks Waiting)); [apply relay_clock; auto|]. intros now.
  destruct (qlt now deadline); [|by apply triple_ret].
  eapply (triple_bind _ _ _ _ (fun ok : bool => if ok then in_ ks Arrived else waiting)).
  - apply (triple_try _ _ _ _ _ (fun _ => in_ ks Waiting)).
    + eapply (triple_bind _ _ _ _ (fun _ => in_ ks Arrived)); [by apply triple_tell_in; [|intros [[]|]|..]|].
      intros u. by apply triple_ret.
    + intros e. eapply (triple_bind _ _ _ _ (fun _ => in_ ks Waiting)); [apply triple_flag; auto|]. intros stop.
      eapply (triple_bind _ _ _ _ (fun _ => in_ ks Waiting)); [|intros u; by apply triple_ret].
      destruct stop; [by apply triple_ret|]. eapply triple_raising; [apply triple_set_failure|]. intros e' s. apply Hw.
  - intros []; [|by apply triple_ret].
    eapply (triple_bind _ _ _ _ (fun _ => waiting)).
    + eapply triple_cleanup; [apply triple_serve_connection| |]; intros ?; apply relay_disconnect.
    + intros []; [apply IH|by apply triple_ret].
Qed.
End answering.

(** *** The bound of the loop never decides *)
Section bounds.
Context {U : UnicodeDB}.
Lemma spec_on_policy_within {A} k (m : M ConnectionPromptPolicy A) : spec (within k) (on_policy m) anything.
Proof. intros s Hs. unfold on_policy. by destruct (m (r_policy (st s))) as [[a|e|] p]. Qed.
Lemma spec_update_within k (f : relay → relay) :
  spec (within k) (update f : M (io relay relay_call relay_reply) unit) anything.
Proof. by apply spec_modify. Qed.
Lemma spec_state_within {A} k (f : relay → M (io relay relay_call relay_reply) A) :
  (∀ x, spec (within k) (f x) anything) → spec (within k) (state ≫= f) anything.
Proof. intros H s Hs. by apply (H (st s)). Qed.
Ltac no_answers_made :=
  repeat match goal with
  | |- spec _ (if ?b then _ else _) _ => destruct b
  | |- spec _ (match ?x with _ => _ end) _ => destruct x
  | |- spec _ (state ≫= _) _ => apply spec_state_within; intros ?
  | |- spec _ (_ ≫= _) _ => apply spec_bind with (Q := anything); [|intros ? _]
  | |- spec _ (try_except _ _) _ => apply spec_try; [|intros ?]
  | |- spec _ (try_finally _ _) _ => apply spec_finally
  | |- spec _ (ask _) _ => apply spec_ask_within
  | |- spec _ (on_policy _) _ => apply spec_on_policy_within
  | |- spec _ (update _) _ => apply spec_update_within
  | |- spec _ (lift _) _ => eapply spec_anything, spec_lift
  | |- spec _ (mret _) _ => by apply spec_ret
  | |- spec _ (raise _) _ => apply spec_raise
  | |- spec _ hang _ => apply spec_hang
  end.
Lemma flag_within k c : spec (within k) (flag c) anything.
Proof. unfold flag. no_answers_made. Qed.
Lemma set_failure_within k e : spec (within k) (set_failure e) anything.
Proof. unfold set_failure, tell. no_answers_made. Qed.
Lemma serve_connection_within deadline k : spec (within k) (serve_connection deadline) anything.
Proof.
  unfold serve_connection, handle_request, grant, respond, set_failure, tell, flag, clock. no_answers_made.
Qed.
Lemma serve_loop_agree deadline k n m :
  (k < n)%nat → (k < m)%nat → agree k (serve_loop deadline n) (serve_loop deadline m).
Proof.
  revert k m. induction n as [|n IH]; intros k [|m] Hn Hm; [lia..|]. cbn [serve_loop].
  apply agree_consumed with (R := fun _ => fewer k).
  { eapply triple_bind; [apply triple_ask_fewer|]. intros [|b| | |]; [done| |done..]. by apply triple_ret. }
  intros stop k' Hk'. destruct stop; [apply agree_refl|].
  apply agree_bind; [apply agree_refl|unfold clock; no_answers_made|]. intros now. destruct (qlt now deadline); [|apply agree_refl].
  apply agree_bind; [apply agree_refl| |].
  { unfold tell. no_answers_made; [apply flag_within|apply set_failure_within]. }
  intros []; [|apply agree_refl].
  apply agree_bind; [apply agree_refl| |intros []; [apply IH; lia|apply agree_refl]].
  apply spec_finally; [apply serve_connection_within|]. unfold tell. no_answers_made.
Qed.
(** More than one round for each answer left changes nothing. *)
Lemma serve_bound_enough deadline n s :
  (length (script s) < n)%nat → serve_loop deadline n s = serve deadline s.
Proof. intros Hn. apply (serve_loop_agree deadline (length (script s))); [lia|lia|]. by red. Qed.
End bounds.
(** The state of a relay whose policy is the profile's and who answered nothing *)
Definition fresh_relay (p : ServerProfile) (token : str) : relay := Relay (Ssh.from_profile p) None true token.

(** C28: over any script, a relay sends a secret only to a peer that proved its
    token on this connection and sent a prompt whose classification the profile
    allows, only the secret that the authentication window returned for that
    very prompt, and during one connection of OpenSSH to the server at most one
    credential and one host-key decision; every connection it accepted is
    closed. *)
Theorem relay_answers_allowed_prompts {U : UnicodeDB} p token deadline scr tr :
  let order := at_phase (allowed (connection_prompt_kinds p) token) after tr scr (RPh [] Waiting) in
  match serve deadline (Io (fresh_relay p token) scr tr) with
  | (Hang, s') => obeyed (allowed (connection_prompt_kinds p) token) after tr scr (RPh [] Waiting) s'
  | (_, s') => ∃ ks, order (RPh ks Waiting) s'
  end.
Proof.
  set (s := Io (fresh_relay p token) scr tr).
  pose proof (triple_serve_loop (connection_prompt_kinds p) token deadline tr scr (S (length (script s))) s) as H.
  assert (waiting (connection_prompt_kinds p) token tr scr s) as Hs.
  { exists []. split; [apply (at_phase_start _ _ s)|]. repeat split; [by intros _ H'%elem_of_nil|constructor]. }
  specialize (H Hs). unfold serve. unfold_prog. cbv zeta.
  destruct (serve_loop deadline (S (length (script s))) s) as [[u|e|] s']; [| |exact H];
    destruct H as (ks & H & _); by exists ks.
Qed.
