(* ===== verification/VisibleAuth.v ===== *)
(** * VisibleAuth: asking the user in a window (worker/visible_auth.py, auth/launcher.py)

    For each prompt the worker opens a challenge, starts the window's process,
    takes one response, hands it to the sink of whoever asked and leaves
    neither the challenge nor the process behind.  The challenge, the process
    and the sink are a script of answers; a monitor says in which order they
    are used and what may be submitted. *)
From S2P Require Import Prelude Errors Text TextFacts Value Prog Prompts AuthWire Askpass AskpassRelay.

Inductive visible_call : Type :=
  | VListen                              (* AuthChallengeServer(target, event, timeout=...) *)
  | VLaunch                              (* launcher.launch(challenge.descriptor) *)
  | VCancelRequested | VRequestCancel    (* _cancel_requested, which another thread sets to True *)
  | VCancel                              (* challenge.cancel() *)
  | VCollect
  | VSubmit (secret : bytes)             (* sink.submit(...) *)
  | VClose                               (* challenge.close() *)
  | VWait (timeout : Q) | VTerminate | VKill.
Inductive visible_reply : Type :=
  | VDone
  | VFlag (set : bool)
  | VResponse (r : AuthResponse).
(** [_active_challenge is not None], and the local [process is not None] *)
Record coordinator := Coordinator { busy : bool; launched : bool }.

Definition auth_error (c : error_class) (m : str) : exn := controlled c m.
(** What [_apply_response] submits to the sink *)
Definition apply_response (k : PromptKind) (r : AuthResponse) : res bytes :=
  if decide (response_kind r = CANCEL) then
    Err (auth_error AuthenticationCancelled (u "authentication was cancelled in the local window"))
  else if decide (response_kind r = TIMEOUT) then
    Err (auth_error AuthenticationTimedOut (u "authentication window timed out"))
  else if decide (k = HOST_KEY) then
    if decide (response_kind r = REJECT) then
      Err (auth_error AuthenticationRejected (u "the host key was rejected in the local window"))
    else if decide (response_kind r = CONFIRM) then Ok (u "yes")
    else Err (protocol_error (u "host-key prompt requires a local decision"))
  else
    match response_kind r, secret r with
    | SECRET, Some s => Ok s
    | _, _ => Err (protocol_error (u "credential prompt requires local protected input"))
    end.
(** The command line of the window's process *)
Definition window_arguments (executable pipe request_id : str) : list str :=
  [executable; u "-m"; u "codex_serverops_mcp.auth.app"; u "--pipe"; pipe; u "--request-id"; request_id].

Abbreviation P := (M (io coordinator visible_call visible_reply)).
Definition tell (c : visible_call) : P unit := ask c;; mret tt.
Definition is_timeout (e : exn) : bool := match e with Builtin TimeoutExpired _ => true | _ => false end.
(** [try: process.wait(timeout=t) except subprocess.TimeoutExpired: late] *)
Definition wait_or (t : Q) (late : P unit) : P unit :=
  waited ← try_except (tell (VWait t);; mret true) (fun e => if is_timeout e then mret false else raise e);
  if waited : bool then mret tt else late.
Definition finish_process : P unit :=
  wait_or (qz 5) (tell VTerminate;; wait_or (qz 3) (tell VKill;; tell (VWait (qz 3)))).
Definition cancel_process : P unit :=
  tell VTerminate;; wait_or (frac 1 2) (tell VKill;; tell (VWait (qz 1))).
Definition cancel_requested : P bool := r ← ask VCancelRequested; match r with VFlag b => mret b | _ => hang end.
Definition collect : P AuthResponse := r ← ask VCollect; match r with VResponse r => mret r | _ => hang end.
Definition ask_window (k : PromptKind) : P unit :=
  tell VLaunch;;
  update (fun c => Coordinator (busy c) true);;
  stop ← cancel_requested;
  (if stop : bool then tell VCancel;; cancel_process else mret tt);;
  response ← collect;
  secret ← lift (apply_response k response);
  tell (VSubmit secret).
Definition respond (k : PromptKind) : P unit :=
  tell VListen;;
  c ← state;
  lift (raise_if (busy c) (protocol_error (u "another authentication window is already active")));;
  update (fun c => Coordinator true false);;
  try_finally (ask_window k)
    (c ← state;
     update (fun c => Coordinator false (launched c));;
     tell VClose;;
     if launched c then finish_process else mret tt).
(** [cancel_active], on another thread: it acts on the challenge and the process
    of the window that is active. *)
Definition cancel_active : P unit :=
  c ← state;
  if busy c then
    tell VRequestCancel;; tell VCancel;; (if launched c then cancel_process else mret tt)
  else mret tt.

(** ** The order of its calls *)
Inductive visible_place : Type :=
  | Fresh | Open | Unlaunched | Running | Answered (r : AuthResponse) | Used
  | Reaping | Late | Terminated | Stubborn | Killed
  | Gone.
Section order.
Variable k : PromptKind.
Definition allowed (x : visible_place) (c : visible_call) : Prop :=
  match c, x with
  | VListen, Fresh | VLaunch, Open => True
  | (VCancelRequested | VCancel | VTerminate | VWait _ | VKill | VCollect), Running => True
  | VSubmit s, Answered r => apply_response k r = Ok s
  | VClose, (Unlaunched | Running | Answered _ | Used) => True
  | VWait t, Reaping => t = qz 5
  | VWait t, (Terminated | Killed) => t = qz 3
  | VTerminate, Late | VKill, Stubborn => True
  | _, _ => False
  end.
Definition after (x : visible_place) (c : visible_call) (a : res visible_reply) : visible_place :=
  match c, x, a with
  | VListen, _, Ok _ => Open
  | VLaunch, _, Ok _ => Running
  | VLaunch, _, Err _ => Unlaunched
  | VCollect, _, Ok (VResponse r) => Answered r
  | VSubmit _, _, _ => Used
  | VClose, Unlaunched, Ok _ => Gone
  | VClose, _, Ok _ => Reaping
  | VWait _, Reaping, Err e => if is_timeout e then Late else Gone
  | VTerminate, Late, Ok _ => Terminated
  | VWait _, Terminated, Err e => if is_timeout e then Stubborn else Gone
  | VKill, Stubborn, Ok _ => Killed
  | (VCancelRequested | VCancel | VTerminate | VWait _ | VKill | VCollect), Running, _ => Running
  | _, _, _ => Gone
  end.
Definition started (x : visible_place) : bool := match x with Running | Answered _ | Used => true | _ => false end.
Definition knows (x : visible_place) (c : coordinator) : Prop :=
  match x with Unlaunched | Running | Answered _ | Used => launched c = started x | _ => True end.
Context (tr : list visible_call) (scr : list (res visible_reply)).
Abbreviation IO := (io coordinator visible_call visible_reply).
Abbreviation stuck := (obeyed allowed after tr scr Fresh).
Abbreviation in_ := (tracked allowed after knows tr scr Fresh).

Lemma triple_tell x c (Q R : IO → Prop) :
  allowed x c → (∀ a y, knows x y → knows (after x c a) y) →
  (∀ a s, in_ (after x c (Ok a)) s → Q s) → (∀ e s, in_ (after x c (Err e)) s → R s) →
  triple stuck (in_ x) (tell c) (fun _ => Q) (fun _ => R).
Proof.
  intros Hc Hk HQ HR. unfold tell. eapply (triple_bind _ _ _ _ (fun a => in_ (after x c (Ok a)))); [by apply triple_tracked|].
  intros a. apply triple_ret. apply HQ.
Qed.
Ltac told := apply triple_tell; [try done|try (by intros [[]|])|try done|try done].
(** Cancelling leaves the window running, for collecting to end it. *)
Lemma triple_running c :
  allowed Running c → (∀ a, after Running c a = Running) →
  triple stuck (in_ Running) (tell c) (fun _ => in_ Running) (fun _ => in_ Running).
Proof. intros Hc Ha. apply triple_tell; [done|intros a y; by rewrite Ha|intros a s; by rewrite Ha..]. Qed.
Lemma triple_cancel_process : triple stuck (in_ Running) cancel_process (fun _ => in_ Running) (fun _ => in_ Running).
Proof.
  unfold cancel_process, wait_or. eapply (triple_bind _ _ _ _ (fun _ => in_ Running)); [by apply triple_running|]. intros _.
  eapply (triple_bind _ _ _ _ (fun _ => in_ Running)).
  - apply (triple_try _ _ _ _ _ (fun _ => in_ Running)).
    + eapply (triple_bind _ _ _ _ (fun _ => in_ Running)); [by apply triple_running|]. intros _. by apply triple_ret.
    + intros e. destruct (is_timeout e); [by apply triple_ret|by apply triple_raise].
  - intros []; [by apply triple_ret|].
    eapply (triple_bind _ _ _ _ (fun _ => in_ Running)); [by apply triple_running|]. intros _. by apply triple_running.
Qed.
(** Waiting at [x]: the process is gone, or it is late. *)
Lemma triple_wait_or x y t late :
  allowed x (VWait t) → (∀ a, after x (VWait t) (Ok a) = Gone) →
  (∀ e, after x (VWait t) (Err e) = if is_timeout e then y else Gone) → (∀ c, knows y c) →
  triple stuck (in_ y) late (fun _ => in_ Gone) (fun _ => in_ Gone) →
  triple stuck (in_ x) (wait_or t late) (fun _ => in_ Gone) (fun _ => in_ Gone).
Proof.
  intros Hc Ho He Hy Hl. unfold wait_or.
  eapply (triple_bind _ _ _ _ (fun ok : bool => if ok then in_ Gone else in_ y)).
  - apply (triple_try _ _ _ _ _ (fun e => in_ (if is_timeout e then y else Gone))).
    + eapply (triple_bind _ _ _ _ (fun _ => in_ Gone)); [|intros _; by apply triple_ret].
      unfold tell. eapply (triple_bind _ _ _ _ (fun _ => in_ Gone)); [|intros a; by apply triple_ret].
      apply triple_tracked; [done| |intros a s; by rewrite Ho|intros e s; by rewrite He].
      intros [a|e] c _; [by rewrite Ho|rewrite He; by destruct (is_timeout e)].
    + intros e. destruct (is_timeout e); [by apply triple_ret|by apply triple_raise].
  - intros []; [by apply triple_ret|exact Hl].
Qed.
Lemma triple_finish_process : triple stuck (in_ Reaping) finish_process (fun _ => in_ Gone) (fun _ => in_ Gone).
Proof.
  apply (triple_wait_or Reaping Late); [done..|].
  eapply (triple_bind _ _ _ _ (fun _ => in_ Terminated)); [by told|]. intros _.
  apply (triple_wait_or Terminated Stubborn); [done..|].
  eapply (triple_bind _ _ _ _ (fun _ => in_ Killed)); [by told|]. intros _. told.
Qed.
(** The window is open or its process could not be started. *)
Definition ending (s : IO) : Prop :=
  ∃ x, in_ x s ∧ match x with Unlaunched | Running | Answered _ | Used => True | _ => False end.
Lemma ending_at x s : in_ x s → match x with Unlaunched | Running | Answered _ | Used => True | _ => False end → ending s.
Proof. intros H Hx. by exists x. Qed.
Lemma triple_ask_window :
  triple stuck (fun s => in_ Open s ∧ launched (st s) = false) (ask_window k) (fun _ => ending) (fun _ => ending).
Proof.
  unfold ask_window. eapply (triple_bind _ _ _ _ (fun _ => at_phase allowed after tr scr Fresh Running)).
  { intros s [[Hs _] Hl].
    pose proof (triple_monitored allowed after tr scr Fresh Open VLaunch
      (fun _ => at_phase allowed after tr scr Fresh Running) (fun _ => at_phase allowed after tr scr Fresh Unlaunched)
      ltac:(done) ltac:(done) ltac:(done) s Hs) as H.
    assert (st (ask VLaunch s).2 = st s) as Hst by (unfold ask; by destruct (script s) as [|[]]).
    unfold tell, mbind, prog_mbind, prog_bind. destruct (ask VLaunch s) as [[a|e|] s']; cbn [snd] in *; [exact H| |exact H].
    apply (ending_at Unlaunched); [|done]. split; [exact H|]. cbn. by rewrite Hst. }
  intros _. eapply (triple_bind _ _ _ _ (fun _ => in_ Running)); [apply triple_modify; intros s Hs; by split|]. intros _.
  assert (∀ s, in_ Running s → ending s) as He by (intros s Hs; by eapply ending_at).
  eapply (triple_bind _ _ _ _ (fun _ => in_ Running)).
  { eapply (triple_bind _ _ _ _ (fun _ => in_ Running)); [by apply triple_tracked; [|intros [[]|]|..]|].
    intros [|b|r]; [intros s Hs; by eapply tracked_obeyed|by apply triple_ret|intros s Hs; by eapply tracked_obeyed]. }
  intros stop. eapply (triple_bind _ _ _ _ (fun _ => in_ Running)).
  { destruct stop; [|by apply triple_ret].
    eapply (triple_bind _ _ _ _ (fun _ => in_ Running)); [eapply triple_raising; [by apply triple_running|auto]|].
    intros _. eapply triple_raising; [apply triple_cancel_process|auto]. }
  intros _. eapply (triple_bind _ _ _ _ (fun r => in_ (Answered r))).
  { eapply (triple_bind _ _ _ _ (fun r => in_ (after Running VCollect (Ok r)))); [apply triple_tracked; [done|by intros [[]|]|done|auto]|].
    intros [|b|r]; [intros s Hs; by eapply tracked_obeyed..|by apply triple_ret]. }
  intros r. apply triple_lift_at; [|intros e s Hs; by eapply ending_at]. intros secret Hsecret.
  told; intros a s Hs; by eapply ending_at.
Qed.
Lemma triple_leave :
  triple stuck ending
    (c ← state; update (fun c => Coordinator false (launched c));; tell VClose;; if launched c then finish_process else mret tt)
    (fun _ => in_ Gone) (fun _ => in_ Gone).
Proof.
  apply triple_state. intros c s [(x & [Hs Hk] & Hx) <-].
  assert (launched (st s) = started x) as Hl by (by destruct x). rewrite Hl.
  set (s' := Io (Coordinator false (launched (st s))) (script s) (trace s)).
  assert (in_ x s') as Hs' by (split; [exact Hs|by destruct x]).
  enough (triple stuck (in_ x) (tell VClose;; if started x then finish_process else mret tt) (fun _ => in_ Gone) (fun _ => in_ Gone))
    as H by exact (H s' Hs').
  eapply (triple_bind _ _ _ _ (fun _ => in_ (if started x then Reaping else Gone))).
  - apply triple_tell; [by destruct x|by destruct x; intros [[]|]|intros a s0; by destruct x|intros e s0; by destruct x].
  - intros _. destruct (started x); [apply triple_finish_process|by apply triple_ret].
Qed.
End order.

Lemma window_respond k tr scr b :
  triple (obeyed (allowed k) after tr scr Fresh) (fun s => tracked (allowed k) after knows tr scr Fresh Fresh s ∧ busy (st s) = b)
    (respond k) (fun _ => tracked (allowed k) after knows tr scr Fresh Gone)
    (fun _ s => tracked (allowed k) after knows tr scr Fresh Gone s ∨ b = true ∧ tracked (allowed k) after knows tr scr Fresh Open s).
Proof.
  set (in_ := tracked (allowed k) after knows tr scr Fresh). unfold respond.
  eapply (triple_bind _ _ _ _ (fun _ s => in_ Open s ∧ busy (st s) = b)).
  { intros s [[Hs _] Hb].
    pose proof (triple_monitored (allowed k) after tr scr Fresh Fresh VListen
      (fun _ => at_phase (allowed k) after tr scr Fresh Open) (fun _ => at_phase (allowed k) after tr scr Fresh Gone)
      ltac:(done) ltac:(done) ltac:(done) s Hs) as H.
    assert (st (ask VListen s).2 = st s) as Hst by (unfold ask; by destruct (script s) as [|[]]).
    unfold tell, mbind, prog_mbind, prog_bind. destruct (ask VListen s) as [[a|e|] s']; cbn [snd] in *; [|left; by split|exact H].
    unfold mret, prog_ret. split; [by split|]. by rewrite Hst. }
  intros _. apply triple_state. intros c.
  apply (triple_before _ _ (fun s => busy c = b ∧ in_ Open s)); [|intros s [[Hs Hb] Hc]; by rewrite <- Hc].
  apply triple_pure. intros Hb. destruct (busy c) eqn:E; cbn [raise_if].
  { intros s Hs. unfold_prog. by right. }
  eapply (triple_bind _ _ _ _ (fun _ => in_ Open)); [by apply triple_ret|]. intros _.
  eapply (triple_bind _ _ _ _ (fun _ s => in_ Open s ∧ launched (st s) = false)).
  { apply triple_modify. intros s [Hs _]. by split. }
  intros _. eapply (triple_cleanup _ _ _ _ (fun _ => ending k tr scr) _ (fun _ => ending k tr scr)).
  - apply triple_ask_window.
  - intros _. eapply triple_raising; [apply triple_leave|]. by left.
  - intros e. eapply triple_conseq; [apply triple_leave|done|..]; [by left|by left|done].
Qed.

(** Over any script, answering a prompt submits a secret at most once and
    only one that the window's response warrants: the typed secret for a
    credential, the word yes for a host key the user confirmed.  However it
    ends, the challenge is closed and a process that was started is waited for,
    terminated when it is late and killed when it stays; only a prompt that
    arrives while a window is open fails before it cleans up. *)
Theorem window_is_cleaned_up k (s : io coordinator visible_call visible_reply) :
  let here := at_phase (allowed k) after (trace s) (script s) Fresh in
  match respond k s with
  | (Ret _, s') => here Gone s'
  | (Raise _, s') => here Gone s' ∨ busy (st s) = true ∧ here Open s'
  | (Hang, s') => obeyed (allowed k) after (trace s) (script s) Fresh s'
  end.
Proof.
  cbv zeta. pose proof (window_respond k (trace s) (script s) (busy (st s)) s) as H.
  specialize (H (conj (conj (at_phase_start _ _ s _) I) eq_refl)).
  destruct (respond k s) as [[u|e|] s']; [by destruct H|destruct H as [[H _]|[Hb [H _]]]; [by left|by right]|exact H].
Qed.
(** That one leaves its challenge listening. *)
Lemma second_window_leaks k r rest tr :
  respond k (Io (Coordinator true false) (Ok r :: rest) tr) =
  (Raise (protocol_error (u "another authentication window is already active")), Io (Coordinator true false) rest (tr ++ [VListen])).
Proof. reflexivity. Qed.

(** ** From the window to OpenSSH
    A secret that the window could send comes out of the askpass program byte
    for byte, and a confirmed host key as the word yes. *)
Definition relayed (k : PromptKind) (frame : bytes) : res bytes :=
  r ← decode_auth_response frame;
  submitted ← apply_response k r;
  held ← sink_submit None submitted;
  match held with
  | Some secret => match answer_of (ASKPASS_RESPONSE :: secret) with
                   | inr printed => Ok printed
                   | inl _ => Err (protocol_error (u "refused"))
                   end
  | None => Err (protocol_error (u "authentication window returned no Askpass response"))
  end.
Lemma decoded_kind frame r :
  decode_auth_response frame = Ok r → response_kind r = CONFIRM → decision_response_frame CONFIRM = Ok frame.
Proof.
  unfold decode_auth_response. destruct frame as [|b rest]; [done|].
  destruct (kind_of_byte b) as [k|] eqn:Ek; [|done]. apply kind_of_byte_Some in Ek as ->.
  case_decide; [by repeat case_match; intros [= <-]; subst|]. destruct rest; [|done]. by intros [= <-] [= ->].
Qed.
Lemma decoded_secret frame s :
  decode_auth_response frame = Ok (Response SECRET (Some s)) → secret_response_frame s = Ok frame.
Proof.
  unfold decode_auth_response. destruct frame as [|b rest]; [done|].
  destruct (kind_of_byte b) as [k|] eqn:Ek; [|done]. apply kind_of_byte_Some in Ek as ->.
  case_decide; [|by destruct rest]. unfold secret_response_frame.
  destruct (invalid_secret_length rest) eqn:E1; [done|]. destruct (has_line_ending rest) eqn:E2; [done|].
  intros [= Hs <-]. rewrite E1, E2. by subst.
Qed.
Lemma decode_secret frame s :
  secret_response_frame s = Ok frame → decode_auth_response frame = Ok (Response SECRET (Some s)).
Proof.
  unfold secret_response_frame. destruct (invalid_secret_length s) eqn:E1; [done|].
  destruct (has_line_ending s) eqn:E2; [done|]. intros [= <-]. cbn. by rewrite E1, E2.
Qed.
(** C16: for every prompt and every frame the worker accepts, the askpass program
    prints what the user meant: exactly the secret that the window encoded, for
    a credential, and yes exactly for a confirmed host key; and the relay's
    response always fits the length the program reads. *)
Theorem secret_reaches_openssh k frame printed :
  relayed k frame = Ok printed ↔
  (k = HOST_KEY ∧ decision_response_frame CONFIRM = Ok frame ∧ printed = u "yes") ∨
  (k ≠ HOST_KEY ∧ secret_response_frame printed = Ok frame ∧
   len (ASKPASS_RESPONSE :: printed) <= MAX_AUTH_RESPONSE_BYTES + 1).
Proof.
  unfold relayed. split.
  - intros H. inv_ok H. apply Ok_inj in Ha1 as <-. unfold answer_of in H. cbn in H.
    destruct (invalid_secret_length a0 || has_line_ending a0) eqn:Hv; [discriminate|]. apply Ok_inj in H as <-.
    unfold apply_response in Ha0. repeat case_decide; try discriminate.
    + left. apply Ok_inj in Ha0 as <-. split; [done|]. split; [by eapply decoded_kind|done].
    + right. split; [done|]. destruct a as [[] [s|]]; try discriminate. apply Ok_inj in Ha0 as <-.
      split; [by apply decoded_secret|]. rewrite len_cons. apply orb_false_iff in Hv as [Hv _].
      unfold invalid_secret_length in Hv. boolean. lia.
  - intros [(-> & Hf & ->)|(Hk & Hf & _)].
    + injection Hf as <-. reflexivity.
    + rewrite (decode_secret _ _ Hf). cbn. unfold apply_response. cbn. repeat (case_decide; [done|]). cbn.
      unfold secret_response_frame in Hf. destruct (invalid_secret_length printed); [discriminate|].
      by destruct (has_line_ending printed).
Qed.
