(* ===== verification/Redaction.v ===== *)
(** * Redaction: what the audit log may show of a command (security/redaction.py)

    The patterns of credentials, their replacement, and the preview cut to a
    number of UTF-8 bytes. *)
From S2P Require Import Prelude Errors Text TextFacts Regex Json.
#[local] Ltac Zify.zify_post_hook ::= Z.to_euclidean_division_equations.

Definition DEFAULT_PREVIEW_BYTES : Z := 512.
Record RedactionResult := Redaction { preview : str; redacted : bool; truncated : bool }.

Section redaction.
Context {U : UnicodeDB}.
Definition spaces : re := RPlus (RChar is_space).
Definition quote_or (bare : re) : re :=
  RAlts [RSeqs [RChar (one 34); RStar true (RChar (cls_not (one 34))); RChar (one 34)];
         RSeqs [RChar (one 39); RStar true (RChar (cls_not (one 39))); RChar (one 39)];
         bare].
Definition key_line (word : str) : re :=
  RSeqs [RLit (u "-----" ++ word ++ u " "); RStar true (RChar (cls [(65, 90); (48, 57); (32, 32)]));
         RLit (u "PRIVATE KEY-----")].
Definition private_key : re :=
  RSeqs [key_line (u "BEGIN"); RStar false (RChar any_char); key_line (u "END")].
Definition bearer : re :=
  RSeqs [RWordB; RGroup 1 (RSeq (RLitI (u "Bearer")) spaces);
         RAtLeast 8 (RChar (ci (cls [(65, 90); (97, 122); (48, 57); (46, 47); (95, 95); (126, 126); (43, 43); (61, 61); (45, 45)])))].
Definition url_part (excluded : str) : re := RPlus (RChar (fun c => negb (is_space c || mem_Z c excluded))).
Definition url_user : re :=
  RSeqs [RWordB; RGroup 1 (RSeqs [RLitI (u "http"); ROpt (RChar (ci (one 115))); RLit (u "://")]);
         url_part (u "/@:"); RChar (one 58); url_part (u "/@"); RChar (one 64)].
Definition dashed (a b : str) : re := RSeqs [RLitI a; ROpt (RChar (cls [(95, 95); (45, 45)])); RLitI b].
Definition assignment : re :=
  RSeqs [RGroup 1 (RSeqs [RWordB;
                          RAlts [RLitI (u "password"); RLitI (u "passwd"); RLitI (u "pwd"); dashed (u "api") (u "key");
                                 dashed (u "access") (u "token"); RLitI (u "secret")];
                          RStar true (RChar is_space); RAlt (RChar (one 61)) (RChar (one 58)); RStar true (RChar is_space)]);
         quote_or (RPlus (RChar (fun c => negb (is_space c || mem_Z c (u ",;")))))].
Definition option_value : re :=
  RSeqs [RGroup 1 (RSeqs [RLit (u "--");
                          RAlts [RLitI (u "password"); RLitI (u "passwd"); RLitI (u "api-key"); RLitI (u "access-token");
                                 RLitI (u "secret")]; spaces]);
         quote_or (RPlus (RChar (fun c => negb (is_space c))))].
Definition alnum : list (Z * Z) := [(65, 90); (97, 122); (48, 57)].
Definition github_token : re :=
  RSeqs [RWordB; RLit (u "gh"); RChar (fun c => mem_Z c (u "pousr")); RChar (one 95); RAtLeast 20 (RChar (cls alnum)); RWordB].
Definition api_key : re :=
  RSeqs [RWordB; RAlts [RLit (u "sk"); RLit (u "pk"); RLit (u "rk")]; RChar (one 45); RAlt (RLit (u "live")) (RLit (u "test"));
         RChar (one 45); RAtLeast 12 (RChar (cls (alnum ++ [(95, 95); (45, 45)]))); RWordB].
Definition aws_key : re :=
  RSeqs [RWordB; RLit (u "AKIA"); RRepeat 16 (RChar (cls [(65, 90); (48, 57)])); RWordB].

(** A replacement: a literal after the first group, when there is one *)
Abbreviation replacement := (bool * str)%type.
Definition PATTERNS : list (re * replacement) :=
  [(private_key, (false, u "[REDACTED_PRIVATE_KEY]")); (bearer, (true, u "[REDACTED]"));
   (url_user, (true, u "[REDACTED]@")); (assignment, (true, u "[REDACTED]")); (option_value, (true, u "[REDACTED]"));
   (github_token, (false, u "[REDACTED_GITHUB_TOKEN]")); (api_key, (false, u "[REDACTED_API_KEY]"));
   (aws_key, (false, u "[REDACTED_AWS_ACCESS_KEY]"))].
Definition replace_match (r : replacement) (m : nat * mstate) : str :=
  (if r.1 then default [] (group 1 m.2) else []) ++ r.2.
Definition redact_step (acc : str * bool) (p : re * replacement) : str * bool :=
  let '(value, count) := subn p.1 (replace_match p.2) acc.1 in (value, acc.2 || (0 <? count)%nat).
Definition redact (text : str) : str * bool := fold_left redact_step PATTERNS (text, false).

(** ** Cutting to bytes *)
Definition suffix : str := [8230].      (* the ellipsis *)
(** A prefix that does not decode is cut where the error starts, so that as many
    rounds as it has bytes are enough. *)
Fixpoint cut_loop (fuel : nat) (prefix : bytes) : str :=
  match fuel, prefix with
  | O, _ | _, [] => suffix
  | S fuel, _ =>
      match utf8_decode prefix with
      | UText s => s ++ suffix
      | UBad start _ => cut_loop fuel (take start prefix)
      end
  end.
Definition truncate_utf8 (value : str) (byte_limit : Z) : res (str * bool) :=
  encoded ← utf8_encode value;
  if len encoded <=? byte_limit then Ok (value, false)
  else
    let prefix := take (Z.to_nat (byte_limit - len (utf8_bytes suffix))) encoded in
    Ok (cut_loop (S (length prefix)) prefix, true).
Definition redact_preview (text : str) (max_bytes : Z) : res RedactionResult :=
  raise_if (max_bytes <? 16) (value_error (u "max_bytes must be an integer of at least 16"));;
  let '(value, found) := redact text in
  p ← truncate_utf8 value max_bytes;
  Ok (Redaction p.1 found p.2).
End redaction.


(** ** The longest prefix that fits *)
Fixpoint fitting (budget : nat) (s : str) : str :=
  match s with
  | [] => []
  | c :: s => let n := length (utf8_encode_char c) in
              if (n <=? budget)%nat then c :: fitting (budget - n) s else []
  end.
Lemma utf8_next_short c m :
  code_point c = true → (0 < m < length (utf8_encode_char c))%nat →
  ∃ b0 tl, take m (utf8_encode_char c) = b0 :: tl ∧ utf8_next b0 tl = UShort.
Proof.
  intros Hc%code_point_bounds. unfold utf8_encode_char.
  destruct (Z.ltb_spec c 128); [cbn; lia|]. destruct (Z.ltb_spec c 2048); [|destruct (Z.ltb_spec c 65536)]; intros Hm; cbn in Hm.
  - destruct m as [|[|m]]; [lia| |lia]. eexists _, _. split; [reflexivity|]. unfold utf8_next. zcmp. done.
  - assert (second_ok (224 + c / 4096) (128 + (c / 64) mod 64) = true) as Hs
      by (unfold second_ok, cont; repeat case_match; zprop; lia).
    destruct m as [|[|[|m]]]; [lia| | |lia]; eexists _, _; (split; [reflexivity|]); unfold utf8_next; zcmp; [done|].
    by rewrite Hs.
  - assert (second_ok (240 + c / 262144) (128 + (c / 4096) mod 64) = true) as Hs
      by (unfold second_ok, cont; repeat case_match; zprop; lia).
    destruct m as [|[|[|[|m]]]]; [lia| | | |lia]; eexists _, _; (split; [reflexivity|]); unfold utf8_next; zcmp; [done|by rewrite Hs|].
    rewrite Hs. cbn [negb]. unfold cont. zcmp. done.
Qed.
(** Decoding a cut text finds the longest whole prefix, and where it ends. *)
Lemma decode_cut s budget fuel pos :
  text_ok s → (budget <= fuel)%nat →
  utf8_decode_fuel fuel pos (take budget (utf8_bytes s)) =
  if (length (utf8_bytes (fitting budget s)) =? Nat.min budget (length (utf8_bytes s)))%nat then UText (fitting budget s)
  else UBad (pos + length (utf8_bytes (fitting budget s))) true.
Proof.
  revert budget fuel pos. induction s as [|c s IH]; intros budget fuel pos.
  { intros _ _. cbn. rewrite take_nil, Nat.min_0_r. by destruct fuel. }
  cbn [forallb]. intros [Hc Hs]%andb_true_iff Hf. change (utf8_bytes (c :: s)) with (utf8_encode_char c ++ utf8_bytes s).
  pose proof (utf8_encode_char_length c) as Hn. cbn [fitting]. cbv zeta. rewrite length_app.
  destruct (Nat.leb_spec (length (utf8_encode_char c)) budget) as [Hle|Hlt].
  - rewrite take_app_ge by lia. destruct fuel as [|fuel]; [lia|].
    destruct (utf8_next_encode c (take (budget - length (utf8_encode_char c)) (utf8_bytes s)) Hc) as (b0 & tl & Heq & Hnext).
    pose proof (drop_prefix (utf8_encode_char c) (take (budget - length (utf8_encode_char c)) (utf8_bytes s))) as Hd.
    change (utf8_bytes (c :: fitting (budget - length (utf8_encode_char c)) s))
      with (utf8_encode_char c ++ utf8_bytes (fitting (budget - length (utf8_encode_char c)) s)). rewrite length_app.
    set (n := length (utf8_encode_char c)) in *. rewrite Heq in Hd |- *. cbn [app] in Hd |- *. cbn [utf8_decode_fuel].
    rewrite Hnext, Hd, IH by (done || lia).
    destruct (Nat.eqb_spec (length (utf8_bytes (fitting (budget - n) s))) (Nat.min (budget - n) (length (utf8_bytes s))));
      destruct (Nat.eqb_spec (n + length (utf8_bytes (fitting (budget - n) s))) (Nat.min budget (n + length (utf8_bytes s))));
      try lia; [done|]. f_equal. lia.
  - rewrite take_app_le by lia. cbn [utf8_bytes map concat length]. destruct budget as [|budget]; [by destruct fuel|].
    destruct fuel as [|fuel]; [lia|].
    destruct (utf8_next_short c (S budget) Hc ltac:(lia)) as (b0 & tl & Heq & Hnext). rewrite Heq. cbn [utf8_decode_fuel].
    rewrite Hnext. destruct (Nat.eqb_spec 0 (Nat.min (S budget) (length (utf8_encode_char c) + length (utf8_bytes s)))); [lia|].
    by rewrite Nat.add_0_r.
Qed.
Lemma fitting_length budget s : (length (utf8_bytes (fitting budget s)) <= budget)%nat.
Proof.
  revert budget. induction s as [|c s IH]; intros budget; cbn; [lia|].
  destruct (Nat.leb_spec (length (utf8_encode_char c)) budget); cbn; [|lia].
  change (concat (map utf8_encode_char ?x)) with (utf8_bytes x). rewrite length_app. specialize (IH (budget - length (utf8_encode_char c))%nat). lia.
Qed.
Lemma fitting_prefix budget s : ∃ rest, s = fitting budget s ++ rest ∧
  ∀ c rest', rest = c :: rest' → (budget < length (utf8_bytes (fitting budget s)) + length (utf8_encode_char c))%nat.
Proof.
  revert budget. induction s as [|c s IH]; intros budget; cbn; [by exists []|].
  destruct (Nat.leb_spec (length (utf8_encode_char c)) budget) as [Hle|Hlt].
  - destruct (IH (budget - length (utf8_encode_char c))%nat) as (rest & Hs & Hr). exists rest. split; [by rewrite Hs at 1|].
    intros c' rest' Hrest. specialize (Hr c' rest' Hrest). cbn.
    change (concat (map utf8_encode_char ?x)) with (utf8_bytes x). rewrite length_app. lia.
  - exists (c :: s). split; [done|]. intros c' rest' [= <- <-]. cbn. lia.
Qed.
Lemma fitting_ok budget s : text_ok s → text_ok (fitting budget s).
Proof.
  destruct (fitting_prefix budget s) as (rest & Hs & _). rewrite Hs at 1. rewrite forallb_app. by intros [H _]%andb_true_iff.
Qed.
Lemma utf8_bytes_nil s : text_ok s → utf8_bytes s = [] → s = [].
Proof.
  destruct s as [|c s]; [done|]. intros _ H. change (utf8_bytes (c :: s)) with (utf8_encode_char c ++ utf8_bytes s) in H.
  pose proof (utf8_encode_char_length c). apply app_eq_nil in H as [H _]. rewrite H in *. cbn in *. lia.
Qed.
(** The loop finds it in at most two rounds. *)
Lemma cut_loop_fitting s budget fuel :
  text_ok s → (budget < fuel)%nat → (budget <= length (utf8_bytes s))%nat →
  cut_loop fuel (take budget (utf8_bytes s)) = fitting budget s ++ suffix.
Proof.
  intros Hs Hf Hb. set (t := fitting budget s). pose proof (fitting_length budget s) as Ht. fold t in Ht.
  assert (text_ok t) as Hok by (by apply fitting_ok).
  assert (∀ fuel, (length (utf8_bytes t) < fuel)%nat → cut_loop fuel (utf8_bytes t) = t ++ suffix) as Hwhole.
  { intros [|n] Hn; [lia|]. cbn [cut_loop]. destruct (utf8_bytes t) as [|b rest] eqn:E.
    - by rewrite (utf8_bytes_nil t Hok E).
    - by rewrite <- E, utf8_decode_encode. }
  destruct fuel as [|fuel]; [lia|]. cbn [cut_loop].
  destruct (take budget (utf8_bytes s)) as [|b rest] eqn:E.
  { assert (budget = 0%nat ∨ length (utf8_bytes s) = 0%nat) as Hz
      by (apply (f_equal length) in E; rewrite length_take in E; cbn in E; lia).
    assert (t = []) as ->; [|done]. apply utf8_bytes_nil; [done|]. apply nil_length_inv. lia. }
  rewrite <- E. unfold utf8_decode. rewrite decode_cut by (done || (rewrite length_take; lia)). fold t.
  destruct (Nat.eqb_spec (length (utf8_bytes t)) (Nat.min budget (length (utf8_bytes s)))) as [He|He]; [done|].
  cbn [Nat.add]. rewrite take_take, Nat.min_l by lia.
  assert (take (length (utf8_bytes t)) (utf8_bytes s) = utf8_bytes t) as ->; [|apply Hwhole; lia].
  destruct (fitting_prefix budget s) as (rest' & Hs' & _). fold t in Hs'. rewrite Hs', utf8_bytes_app. apply take_app_length.
Qed.

(** ** Substituting keeps a text a text *)
Section substitution.
Context {U : UnicodeDB} (P : Z → Prop).
Lemma lang_whole r s t : lang r s t → whole t = whole s.
Proof.
  induction 1 as [p s t H|s|a b s t v H1 IH1 H2 IH2|a b s t H IH|a b s t H IH|g a s|g a s t v H1 IH1 Hl H2 IH2|n a s t H IH|s H|s H|s H];
    try done; [|by rewrite IH2|by rewrite IH2].
  unfold step_char in H. destruct (after s) as [|c rest] eqn:E; [done|]. destruct (p c); [|done]. injection H as <-.
  unfold whole. cbn. by rewrite E, <- app_assoc.
Qed.
Lemma search_whole r fuel s i t : search_fuel fuel r s = Some (i, t) → whole t = whole s.
Proof.
  revert s. induction fuel as [|fuel IH]; intros s; cbn [search_fuel]; destruct (rmatch r Some s) as [x|] eqn:E.
  - intros [= _ ->]. apply rmatch_sound in E as (s' & Hl & [= ->]). by eapply lang_whole.
  - done.
  - intros [= _ ->]. apply rmatch_sound in E as (s' & Hl & [= ->]). by eapply lang_whole.
  - destruct (after s) as [|c rest] eqn:Ea; [done|]. intros H. apply IH in H. rewrite H. unfold whole. cbn.
    by rewrite Ea, <- app_assoc.
Qed.
Lemma finditer_whole fuel r s : Forall (fun m => whole m.2 = whole s) (finditer_fuel fuel r s).
Proof.
  revert s. induction fuel as [|fuel IH]; intros s; cbn [finditer_fuel]; [constructor|].
  destruct (search_from r s) as [[i t]|] eqn:E; [|constructor]. apply search_whole in E. constructor; [exact E|].
  rewrite <- E. apply (IH (MState (before t) (after t) [])).
Qed.
Lemma slice_Forall s i j : Forall P s → Forall P (slice s i j).
Proof. intros H. by apply Forall_take, Forall_drop. Qed.
Lemma subst_matches_Forall f s pos ms :
  Forall P s → Forall (fun m => Forall P (f m)) ms → Forall P (subst_matches f s pos ms).
Proof.
  intros Hs. revert pos. induction ms as [|m ms IH]; intros pos Hf; cbn [subst_matches]; [by apply Forall_drop|].
  inversion Hf; subst. rewrite !Forall_app. split; [by apply slice_Forall|]. split; [done|]. by apply IH.
Qed.
Lemma subn_Forall r rep s : Forall P s → Forall P rep.2 → Forall P (subn r (replace_match rep) s).1.
Proof.
  intros Hs Hr. apply subst_matches_Forall; [done|]. eapply Forall_impl; [apply finditer_whole|].
  intros [i t] Hw. cbn [snd] in Hw. unfold replace_match. rewrite Forall_app. split; [|done].
  destruct rep.1; [|constructor]. cbn [snd]. unfold group. destruct (cap_of 1 t) as [[a b]|]; [|constructor]. cbn.
  apply slice_Forall. rewrite Hw. unfold whole, start_of. cbn. exact Hs.
Qed.
(** Without a match nothing changes. *)
Lemma subn_none r f s : (subn r f s).2 = 0%nat → (subn r f s).1 = s.
Proof. unfold subn. destruct (finditer r s) as [|m ms]; cbn [fst snd length]; [intros _; apply drop_0|intros H; discriminate]. Qed.
Lemma redact_unchanged text : (redact text).2 = false → (redact text).1 = text.
Proof.
  unfold redact. set (ps := PATTERNS). clearbody ps.
  assert (∀ ps acc, (fold_left redact_step ps acc).2 = false → acc.2 = false) as Hmono.
  { intros qs. induction qs as [|q qs IH]; intros acc; [done|]. cbn. intros H. apply IH in H. revert H.
    unfold redact_step. destruct (subn q.1 (replace_match q.2) acc.1). cbn. by intros [? ?]%orb_false_iff. }
  enough (∀ acc, (fold_left redact_step ps acc).2 = false → (fold_left redact_step ps acc).1 = acc.1) as H by apply (H (text, false)).
  induction ps as [|p ps IH]; intros acc; [done|]. cbn [fold_left]. intros H. rewrite IH by done. apply Hmono in H. revert H.
  unfold redact_step. pose proof (subn_none p.1 (replace_match p.2) acc.1) as Hn.
  destruct (subn p.1 _ acc.1) as [v n]. cbn in Hn |- *. intros [_ H]%orb_false_iff. apply Hn. destruct n; [done|discriminate].
Qed.
Lemma redact_Forall text : Forall P text → Forall (fun p => Forall P p.2.2) PATTERNS → Forall P (redact text).1.
Proof.
  unfold redact. generalize PATTERNS. intros ps Ht Hp.
  enough (∀ acc, Forall P acc.1 → Forall P (fold_left redact_step ps acc).1) as H by apply (H (text, false) Ht).
  induction Hp as [|p ps Hp Hps IH]; intros acc Ha; [done|]. cbn [fold_left]. apply IH. unfold redact_step.
  match goal with |- context [subn ?r ?f ?x] =>
    assert (Forall P (subn r f x).1) as H by (apply subn_Forall; [exact Ha|exact Hp]); by destruct (subn r f x) end.
Qed.
End substitution.

Lemma encodable s b : Forall char_ok s → utf8_encode s = Ok b → text_ok s ∧ b = utf8_bytes s.
Proof.
  intros Hs. unfold utf8_encode. destruct (existsb surrogate s) eqn:E; [discriminate|]. intros [= <-]. split; [|done].
  induction Hs as [|c s Hc Hs IH]; [done|]. cbn in E |- *. apply orb_false_iff in E as [E1 E2]. rewrite IH by done.
  unfold code_point, char_ok in *. rewrite E1. cbn. lia.
Qed.

(** C26: a preview never takes more bytes of UTF-8 than its limit.  It is the
    redacted text itself when that fits, and otherwise its longest prefix of
    whole characters that leaves room for the ellipsis; a preview that reports
    no redaction shows the text as it was; and only a text that cannot be
    encoded has no preview. *)
Theorem preview_bounded {U : UnicodeDB} text max_bytes (Htext : Forall char_ok text) (Hmax : 16 <= max_bytes) :
  let '(value, found) := redact text in
  (found = false → value = text) ∧
  match redact_preview text max_bytes with
  | Ok r => redacted r = found ∧ len (utf8_bytes (preview r)) <= max_bytes ∧
            if truncated r then preview r = fitting (Z.to_nat (max_bytes - 3)) value ++ suffix ∧ max_bytes < len (utf8_bytes value)
            else preview r = value
  | Err e => existsb surrogate value = true
  end.
Proof.
  pose proof (redact_unchanged text) as Hsame. pose proof (redact_Forall char_ok text Htext) as Hok.
  unfold redact_preview. replace (max_bytes <? 16) with false by (symmetry; apply Z.ltb_ge; lia). cbn [raise_if mbind result_mbind result_bind].
  destruct (redact text) as [value found]. cbn [fst snd] in Hsame, Hok. split; [exact Hsame|].
  specialize (Hok ltac:(repeat constructor; unfold char_ok; lia)). unfold truncate_utf8.
  destruct (utf8_encode value) as [b|e] eqn:E; cbn [mbind result_mbind result_bind].
  2: { unfold utf8_encode in E. by destruct (existsb surrogate value). }
  destruct (encodable value b Hok E) as [Hv ->].
  destruct (Z.leb_spec (len (utf8_bytes value)) max_bytes) as [Hle|Hgt]; cbn [mbind result_mbind result_bind fst snd preview redacted truncated].
  - by split_and!.
  - change (len (utf8_bytes suffix)) with 3. unfold len in *.
    rewrite cut_loop_fitting by (done || (rewrite ?length_take; lia)).
    split; [done|]. split; [|by split]. rewrite utf8_bytes_app, length_app. change (length (utf8_bytes suffix)) with 3%nat.
    pose proof (fitting_length (Z.to_nat (max_bytes - 3)) value). lia.
Qed.
Example redaction_sample :
  redact_preview (U := ascii_db) (u "curl -H 'Authorization: Bearer abcdefgh12345' https://bob:pw@host --password hunter2 && export API_KEY=zzz") 512
  = Ok (Redaction (u "curl -H 'Authorization: Bearer [REDACTED]' https://[REDACTED]@host --password [REDACTED] && export API_KEY=[REDACTED]")
          true false).
Proof. vm_compute. reflexivity. Qed.

(** A text of two-byte characters, cut in the middle of one *)
Lemma preview_bounded_witness :
  let text := replicate 20 233 in
  Forall char_ok text ∧ 16 <= 16 ∧
  redact_preview (U := ascii_db) text 16 = Ok (Redaction (replicate 6 233 ++ suffix) false true) ∧
  len (utf8_bytes (replicate 6 233 ++ suffix)) <= 16.
Proof.
  cbv zeta. assert (Forall char_ok (replicate 20 233)) as H by (repeat constructor; unfold char_ok; lia).
  assert (redact_preview (U := ascii_db) (replicate 20 233) 16 = Ok (Redaction (replicate 6 233 ++ suffix) false true)) as E
    by (vm_compute; reflexivity).
  split; [exact H|]. split; [lia|]. split; [exact E|].
  pose proof (preview_bounded (U := ascii_db) (replicate 20 233) 16 H ltac:(lia)) as Hp.
  rewrite E in Hp. destruct (redact (U := ascii_db) (replicate 20 233)) as [value found]. apply Hp.
Defined.
(** Whatever is shown can be encoded. *)
Lemma preview_chars {U : UnicodeDB} text max_bytes r :
  Forall char_ok text → 16 <= max_bytes → redact_preview text max_bytes = Ok r → text_ok (preview r).
Proof.
  intros Htext Hmax. pose proof (redact_Forall char_ok text Htext) as Hok.
  unfold redact_preview. replace (max_bytes <? 16) with false by (symmetry; apply Z.ltb_ge; lia). cbn [raise_if mbind result_mbind result_bind].
  destruct (redact text) as [value found]. specialize (Hok ltac:(repeat constructor; unfold char_ok; lia)). cbn [fst] in Hok.
  unfold truncate_utf8. destruct (utf8_encode value) as [b|] eqn:E; [|discriminate]. destruct (encodable value b Hok E) as [Hv ->].
  cbn [mbind result_mbind result_bind]. destruct (Z.leb_spec (len (utf8_bytes value)) max_bytes) as [Hle|Hgt];
    cbn [mbind result_mbind result_bind fst snd]; intros Hr%Ok_inj; subst r; cbn [preview]; [exact Hv|].
  change (len (utf8_bytes suffix)) with 3. unfold len in *. rewrite cut_loop_fitting by (done || (rewrite ?length_take; lia)).
  rewrite forallb_app. apply andb_true_iff. split; [by apply fitting_ok|done].
Qed.
