(* ===== verification/Worker.v ===== *)
(** * Worker: the service and protocol of one worker process
    (worker/service.py, worker/protocol.py)

    [WorkerSessionService] opens one session for a profile and routes commands,
    terminal control, file access and elevation to it; [WorkerProtocolHandler]
    checks the fields of every broker message before it reaches the service.
    The session is an interface with laws, which [StatefulSession] implements;
    configuration, OpenSSH and the askpass relay are the environment. *)
From S2P Require Import Prelude Errors Text TextFacts Regex Value Prog ConfigModel Patch FileWire FileShell FileService State RingBuffer Framing Prompts Ssh Elevation AuthModel Terminal Session SessionFacts Interactive.

(** ** What the service asks of a session *)
Class SessionOps (S : Type) := {
  s_state : S → SessionState;
  s_require : list SessionState → M S unit;
  s_open : list (option str) → Q → bool → option str → dict str → M S unit;
  s_execute : str → Q → bool → option str → M S ExecutionResult;
  s_start : str → M S InteractiveStatus;
  s_read : Z → Q → M S InteractiveRead;
  s_write : str → M S InteractiveStatus;
  s_interrupt : M S InteractiveStatus;
  s_resize : Z → Z → M S InteractiveStatus;
  s_status : M S InteractiveStatus;
  s_close_terminal : Q → M S InteractiveStatus;
  s_close : M S unit;
}.
(** [require] only looks, and raises unless the state is one of those given. *)
Class SessionLaws (S : Type) {O : SessionOps S} : Prop := {
  require_looks : ∀ states s,
    (s_require states s).2 = s ∧
    if bool_decide (s_state s ∈ states) then (s_require states s).1 = Ret tt
    else ∃ e, (s_require states s).1 = Raise e;
}.

(** The class of worker/session.py with its interactive controller.  A missing
    argument makes the start of the terminal fail. *)
Section stateful.
Context {U : UnicodeDB} (os_environ : dict str).
Definition complete_arguments (l : list (option str)) : option (list str) :=
  mapM id l.
Definition stateful_session : SessionOps session := {|
  s_state := state_of;
  s_require := require_state;
  s_open args timeout allow token environment :=
    match complete_arguments args with
    | Some l => Session.open os_environ l timeout allow token (Some environment) true
    | None => raise (Builtin TypeError (u "sequence item: expected str instance, NoneType found"))
    end;
  s_execute := Session.execute;
  s_start := Interactive.start;
  s_read := Interactive.read;
  s_write := Interactive.write;
  s_interrupt := Interactive.interrupt;
  s_resize := Interactive.resize;
  s_status := Interactive.status;
  s_close_terminal := Interactive.close;
  s_close := Session.close;
|}.
Lemma stateful_laws : @SessionLaws session stateful_session.
Proof.
  split. intros states s. cbn [s_require s_state stateful_session].
  assert (require states (machine s) =
            (if bool_decide (state_of s ∈ states) then Ret tt
             else Raise (invalid_state (u "operation requires state " ++ join (u ", ") (map state_value states)
                    ++ u "; current state is " ++ state_value (state_of s))), machine s)) as Hr.
  { unfold require. unfold_prog. unfold state_of. by destruct (bool_decide _). }
  assert (require_state states s =
            (if bool_decide (state_of s ∈ states) then Ret tt
             else Raise (invalid_state (u "operation requires state " ++ join (u ", ") (map state_value states)
                    ++ u "; current state is " ++ state_value (state_of s))), s)) as ->.
  { unfold require_state, on_machine. destruct (clock (world s)); rewrite Hr, Z.eqb_refl; f_equal; by destruct s. }
  cbn [fst snd]. split; [done|]. destruct (bool_decide _); eauto.
Qed.
End stateful.

(** ** What the service asks of its surroundings *)
Class WorkerEnv (E S : Type) := {
  e_load : M E ServerOpsConfig;                           (* repository.load().config *)
  e_find_ssh : M E str;                                   (* ssh_finder() *)
  e_resolve : ServerProfile → str → M E ResolvedSshTarget; (* target_resolver *)
  e_prepare_known_hosts : M E str;
  e_create_session : ServerProfile → AuthTargetContext → M E S;
  e_create_relay : M E unit;                              (* askpass_relay_factory *)
  e_relay_start : M E unit;
  e_relay_check : M E unit;
  e_relay_close : M E unit;
  e_relay_environment : E → dict str;
  e_token_hex : M E str;                                  (* secrets.token_hex(16) *)
}.

(** The service object: its surroundings and its attributes *)
Record service (E S : Type) := Service {
  surroundings : E;
  service_profile : option ServerProfile;
  service_target : option ResolvedSshTarget;
  service_session : option S;
  service_cwd : option str }.
Arguments Service {E S}.
Arguments surroundings {E S}.
Arguments service_profile {E S}.
Arguments service_target {E S}.
Arguments service_session {E S}.
Arguments service_cwd {E S}.

Definition SESSION_OPEN_TIMEOUT_SECONDS : Q := qz 180.
Definition session_error (m : str) : exn := controlled SessionError m.

Section worker.
Context {U : UnicodeDB} {E S : Type} `{Env : WorkerEnv E S} `{Ops : SessionOps S}.
Variable name : str.            (* self.profile_name *)
Variable root_session : bool.
Abbreviation W := (service E S).

Definition on_env {A} (m : M E A) : M W A := fun w =>
  let '(r, e) := m (surroundings w) in
  (r, Service e (service_profile w) (service_target w) (service_session w) (service_cwd w)).
Definition set_cwd (c : str) : M W unit :=
  modify (fun w => Service (surroundings w) (service_profile w) (service_target w) (service_session w) (Some c)).
(** A method call on [self.session] *)
Definition on_session {A} (m : M S A) : M W A := fun w =>
  match service_session w with
  | Some s => let '(r, s') := m s in
              (r, Service (surroundings w) (service_profile w) (service_target w) (Some s') (service_cwd w))
  | None => (Raise (session_error (u "worker session has not been opened")), w)
  end.

(** [_open_session]: the profile; the session is read again where it is used. *)
Definition open_session : M W ServerProfile :=
  w ← get;
  match service_session w, service_profile w with
  | Some _, Some p => mret p
  | _, _ => raise (session_error (u "worker session has not been opened"))
  end.

Definition status_of (w : W) : dict value :=
  [(u "profile_name", VStr name);
   (u "state", VStr (state_value (match service_session w with Some s => s_state s | None => CREATED end)));
   (u "cwd", match service_cwd w with Some c => VStr c | None => VNone end);
   (u "ssh_user", match service_target w with Some t => VStr (target_user t) | None => VNone end);
   (u "effective_user", match service_target w with
                        | Some t => VStr (if root_session then u "root" else target_user t)
                        | None => VNone
                        end);
   (u "elevated", VBool root_session); (u "root_session", VBool root_session);
   (u "environment", match service_profile w with Some p => VStr (environment p) | None => VNone end)].
Definition status : M W (dict value) := gets status_of.

(** ** Opening *)
Definition root_sudo_token (p : ServerProfile) : M W (option str) :=
  if root_session && bool_decide (elevation_mode p = ConfigModel.INTERACTIVE)
  then t ← on_env e_token_hex; mret (Some t) else mret None.
Definition root_sudo_prompt (token : option str) : res (option str) :=
  match token with
  | None => Ok None
  | Some t => p ← operation_sudo_prompt (u "root") t; Ok (Some p)
  end.
Definition verify_root (p : ServerProfile) : M W unit :=
  if root_session then
    verification ← on_session (s_execute (u "id -u") (qz (command_timeout_seconds p)) false None);
    lift (raise_if (negb (str_eqb (strip (ex_output verification)) (u "0")))
            (elevation_error (u "root_session_verification_failed")
               (u "the dedicated session did not reach effective user root")));;
    set_cwd (ex_cwd verification)
  else mret tt.
Definition connect (p : ServerProfile) (ssh_executable known_hosts : str) (token sudo_prompt : option str) :
    M W unit :=
  on_env e_relay_start;;
  try_finally
    (arguments ← lift (build_ssh_arguments p ssh_executable known_hosts root_session sudo_prompt);
     w ← get;
     on_session (s_open arguments SESSION_OPEN_TIMEOUT_SECONDS
                   (root_session && bool_decide (elevation_mode p = ConfigModel.INTERACTIVE)) token
                   (e_relay_environment (surroundings w)));;
     on_env e_relay_check)
    (on_env e_relay_close);;
  verify_root p.
Definition open : M W (dict value) :=
  w ← get;
  match service_session w with
  | Some _ => raise (session_error (u "worker session is already initialized"))
  | None =>
      config ← on_env e_load;
      p ← lift (match dget (profiles config) name with
                | Some p => Ok p
                | None => Err (config_error (u "profile does not exist: " ++ name))
                end);
      lift (raise_if (root_session && negb (allow_root_session p))
              (elevation_error (u "root_session_disabled")
                 (u "guided root sessions are disabled for this profile")));;
      ssh_executable ← on_env e_find_ssh;
      target ← on_env (e_resolve p ssh_executable);
      known_hosts ← on_env e_prepare_known_hosts;
      auth_target ← lift (auth_target_context
        (AuthTarget name (display_name p) (target_host target) (target_port target) (target_user target)));
      session ← on_env (e_create_session p auth_target);
      on_env e_create_relay;;
      token ← root_sudo_token p;
      sudo_prompt ← lift (root_sudo_prompt token);
      modify (fun w => Service (surroundings w) (Some p) (Some target) (Some session) (service_cwd w));;
      try_except (connect p ssh_executable known_hosts token sudo_prompt)
        (fun e => suppress is_exception (on_session s_close);; raise e);;
      status
  end.

(** ** Commands *)
Definition execution_payload (r : ExecutionResult) : dict value :=
  [(u "status", VStr (u "completed")); (u "exit_code", VInt (ex_exit_code r));
   (u "cwd", VStr (ex_cwd r)); (u "output", VStr (ex_output r));
   (u "truncated", VBool (ex_truncated r)); (u "duration_ms", VInt (ex_duration_ms r))].
Definition execute_internal (command : str) (timeout : option Q) (allow_sudo_prompt : bool)
    (sudo_prompt_token : option str) : M W (dict value) :=
  p ← open_session;
  on_session (s_require [READY]);;
  result ← on_session (s_execute command (default (qz (command_timeout_seconds p)) timeout)
                         allow_sudo_prompt sudo_prompt_token);
  set_cwd (ex_cwd result);;
  mret (execution_payload result).
Definition terminal_disabled (p : ServerProfile) : res unit :=
  raise_if (negb (allow_terminal p)) (session_error (u "terminal access is disabled for this profile")).
Definition execute (command : str) (timeout : option Q) : M W (dict value) :=
  p ← open_session;
  lift (terminal_disabled p);;
  execute_internal command timeout false None.

(** ** Files and elevation *)
Definition files (action : str) (payload : dict value) (write : bool) : M W (dict value) :=
  if root_session then
    raise (remote_file_error (u "root_session_file_access_disabled")
             (u "structured file tools are unavailable in root sessions"))
  else
    p ← open_session;
    on_session (s_require [READY]);;
    let runner command timeout := execute_internal command (Some (qz timeout)) false None in
    if write then edit p (on_env e_token_hex) runner action payload
    else FileService.read p (on_env e_token_hex) runner action payload.
Definition elevation (action : str) (payload : dict value) : M W (dict value) :=
  p ← open_session;
  on_session (s_require [READY]);;
  if root_session then
    raise (elevation_error (u "already_elevated")
             (u "guided sudo actions are unavailable inside a root session"))
  else
    w ← get;
    target ← lift (assert_some (service_target w));
    Elevation.handle p (target_user target) (on_env e_token_hex)
      (fun command timeout token => execute_internal command (Some timeout) (is_some token) token)
      action payload.

(** ** The interactive terminal *)
Definition field_text (payload : dict value) (field : str) : res str :=
  v ← getitem payload field;
  match v with VStr s => Ok s | _ => Err (value_error (field ++ u " must be a string")) end.
Definition field_integer (payload : dict value) (field : str) (minimum : Z) (maximum : option Z) : res Z :=
  v ← getitem payload field;
  match v with
  | VInt n =>
      raise_if ((n <? minimum) || match maximum with Some m => m <? n | None => false end)
        (value_error (field ++ u " is outside the supported range"));;
      Ok n
  | _ => Err (value_error (field ++ u " must be an integer"))
  end.
Definition field_number (payload : dict value) (field : str) (default_value : Z) (minimum maximum : Q) : res Q :=
  let v := get_or (VInt default_value) payload field in
  raise_if (negb (is_number v)) (value_error (field ++ u " must be a number"));;
  number_between minimum maximum v (value_error (field ++ u " is outside the supported range")).
Definition terminal_status (s : InteractiveStatus) : dict value :=
  [(u "status", VStr (if is_running s then u "running" else u "stopped"));
   (u "state", VStr (state_value (is_state s))); (u "running", VBool (is_running s));
   (u "output_cursor", VInt (is_output_cursor s))].
Definition controlled_terminal (m : M S InteractiveStatus) : M W (dict value) :=
  s ← on_session m; mret (terminal_status s).
Definition terminal (action : str) (payload : dict value) : M W (dict value) :=
  p ← open_session;
  lift (terminal_disabled p);;
  if str_eqb action (u "start") then
    command ← lift (field_text payload (u "command")); controlled_terminal (s_start command)
  else if str_eqb action (u "read") then
    cursor ← lift (field_integer payload (u "cursor") 0 None);
    timeout ← lift (field_number payload (u "timeout") 0 (qz 0) (qz 60));
    r ← on_session (s_read cursor timeout);
    mret [(u "status", VStr (u "running")); (u "state", VStr (state_value (ir_state r)));
          (u "output", VStr (ir_output r)); (u "next_cursor", VInt (ir_next_cursor r));
          (u "dropped_before_cursor", VBool (ir_dropped r))]
  else if str_eqb action (u "write") then
    text ← lift (field_text payload (u "text")); controlled_terminal (s_write text)
  else if str_eqb action (u "interrupt") then controlled_terminal s_interrupt
  else if str_eqb action (u "resize") then
    columns ← lift (field_integer payload (u "columns") 1 (Some 32767));
    rows ← lift (field_integer payload (u "rows") 1 (Some 32767));
    controlled_terminal (s_resize columns rows)
  else if str_eqb action (u "status") then controlled_terminal s_status
  else if str_eqb action (u "close") then
    timeout ← lift (field_number payload (u "timeout") 5 (frac 1 10) (qz 60));
    controlled_terminal (s_close_terminal timeout)
  else raise (value_error (u "unsupported terminal action: " ++ action)).

Definition close : M W unit :=
  w ← get; match service_session w with Some _ => on_session s_close | None => mret tt end.
End worker.

(** ** Recording what a session is asked
    Any session with the list of the calls made on it; a command carries the
    result it returned. *)
Inductive session_call : Type :=
  | COpen (arguments : list (option str)) (allow_sudo_prompt : bool) (token : option str)
  | CExecute (command : str) (timeout : Q) (allow_sudo_prompt : bool) (token : option str)
      (result : option ExecutionResult)
  | CStart (command : str)
  | CRead (cursor : Z) (timeout : Q)
  | CWrite (text : str)
  | CInterrupt
  | CResize (columns rows : Z)
  | CStatus
  | CCloseTerminal (timeout : Q)
  | CClose.
Definition returned {A} (o : outcome exn A) : option A := match o with Ret a => Some a | _ => None end.

Section recording.
Context {S : Type} `{Ops : SessionOps S}.
Abbreviation R := (S * list session_call)%type.
Definition record {A} (call : outcome exn A → session_call) (m : M S A) : M R A := fun s =>
  let '(r, s') := m s.1 in (r, (s', s.2 ++ [call r])).
Definition unrecorded {A} (m : M S A) : M R A := fun s => let '(r, s') := m s.1 in (r, (s', s.2)).
Definition recorded_session : SessionOps R := {|
  s_state s := s_state s.1;
  s_require states := unrecorded (s_require states);
  s_open args timeout allow token env := record (fun _ => COpen args allow token) (s_open args timeout allow token env);
  s_execute command timeout allow token :=
    record (fun r => CExecute command timeout allow token (returned r)) (s_execute command timeout allow token);
  s_start command := record (fun _ => CStart command) (s_start command);
  s_read cursor timeout := record (fun _ => CRead cursor timeout) (s_read cursor timeout);
  s_write text := record (fun _ => CWrite text) (s_write text);
  s_interrupt := record (fun _ => CInterrupt) s_interrupt;
  s_resize columns rows := record (fun _ => CResize columns rows) (s_resize columns rows);
  s_status := record (fun _ => CStatus) s_status;
  s_close_terminal timeout := record (fun _ => CCloseTerminal timeout) (s_close_terminal timeout);
  s_close := record (fun _ => CClose) s_close;
|}.
(** A new session has been asked nothing. *)
Definition recorded_env {E} `{Env : WorkerEnv E S} : WorkerEnv E R := {|
  e_load := e_load; e_find_ssh := e_find_ssh; e_resolve := e_resolve;
  e_prepare_known_hosts := e_prepare_known_hosts;
  e_create_session p t := s ← e_create_session p t; mret (s, []);
  e_create_relay := e_create_relay; e_relay_start := e_relay_start; e_relay_check := e_relay_check;
  e_relay_close := e_relay_close; e_relay_environment := e_relay_environment; e_token_hex := e_token_hex;
|}.
End recording.
#[export] Existing Instance recorded_session.
#[export] Existing Instance recorded_env.

(** ** Opening ends verified or closed *)
Section opening.
Context {U : UnicodeDB} {E S : Type} `{Env : WorkerEnv E S} `{Ops : SessionOps S}.
Variable name : str.
Variable root_session : bool.
Abbreviation W := (service E (S * list session_call)).

(** The session of [w] has been asked [calls], for profile [p]. *)
Definition asked (p : ServerProfile) (calls : list session_call) (w : W) : Prop :=
  service_profile w = Some p ∧ ∃ s, service_session w = Some (s, calls).
(** The first call opens OpenSSH for the profile, with a root shell and its own
    prompt token exactly when the worker serves a root session. *)
Definition open_call (p : ServerProfile) (call : session_call) : Prop :=
  ∃ ssh known_hosts token prompt arguments,
    root_sudo_prompt token = Ok prompt ∧
    build_ssh_arguments p ssh known_hosts root_session prompt = Ok arguments ∧
    (is_some token = (root_session && bool_decide (elevation_mode p = ConfigModel.INTERACTIVE))) ∧
    call = COpen arguments (is_some token) token.
Definition verify_call (p : ServerProfile) (r : option ExecutionResult) : session_call :=
  CExecute (u "id -u") (qz (command_timeout_seconds p)) false None r.
(** What an opened worker has asked: a root session answered that it is root. *)
Definition opened (p : ServerProfile) (calls : list session_call) : Prop :=
  ∃ call, open_call p call ∧
    if root_session then ∃ r, strip (ex_output r) = u "0" ∧ calls = [call; verify_call p (Some r)]
    else calls = [call].
Definition begun (p : ServerProfile) (calls : list session_call) : Prop :=
  calls = [] ∨ ∃ call, open_call p call ∧ (calls = [call] ∨ root_session = true ∧ ∃ r, calls = [call; verify_call p r]).

Lemma asked_env {A} (m : M E A) p calls I :
  (∀ w, asked p calls w → I w) →
  triple I (asked p calls) (on_env m) (fun _ => asked p calls) (fun _ => asked p calls).
Proof.
  intros HI w (Hp & s & Hs). unfold on_env. destruct (m (surroundings w)) as [r e].
  assert (∀ e', asked p calls (Service e' (service_profile w) (service_target w) (service_session w) (service_cwd w))).
  { intros e'. split; [done|]. by exists s. }
  destruct r; auto.
Qed.
Lemma asked_record {A} call (m : M S A) p calls :
  triple (fun _ => True) (asked p calls) (on_session (record call m))
    (fun a => asked p (calls ++ [call (Ret a)])) (fun e => asked p (calls ++ [call (Raise e)])).
Proof.
  intros w (Hp & s & Hs). unfold on_session, record. rewrite Hs. cbn [fst snd].
  destruct (m s) as [[a|e|] s']; [..|done]; (split; [done|by exists s']).
Qed.
Definition stops (w : W) : Prop := True.
Definition underway (p : ServerProfile) (w : W) : Prop := ∃ calls, begun p calls ∧ asked p calls w.

Lemma verify_opened p call :
  open_call p call →
  triple stops (asked p [call]) (verify_root root_session p)
    (fun _ w => ∃ calls, opened p calls ∧ asked p calls w) (fun _ => underway p).
Proof.
  intros Hc. unfold verify_root, opened. destruct root_session eqn:Hroot.
  2: { apply triple_ret. intros w Hw. exists [call]. split; [by exists call|done]. }
  eapply triple_bind.
  - eapply triple_conseq; [apply asked_record| | |..]; [done| |intros e w Hw|done].
    + intros a w Hw. exact Hw.
    + cbn. exists [call; verify_call p None]. split; [|done]. right. exists call. split; [done|]. eauto.
  - intros r. cbn [app returned]. apply triple_lift_at.
    + intros [] Hr. apply raise_if_Ok in Hr. boolean. apply triple_modify. intros w (Hp & s & Hs).
      exists [call; verify_call p (Some r)]. split; [|split; [done|by exists s]]. exists call. split; [done|].
      exists r. split; [|done]. match goal with K : str_eqb _ _ = true |- _ => by apply bool_decide_eq_true in K end.
    + intros e w Hw. exists [call; verify_call p (Some r)]. split; [|done]. right. exists call. eauto.
Qed.
Lemma connect_opened p ssh known_hosts token prompt :
  root_sudo_prompt token = Ok prompt →
  is_some token = root_session && bool_decide (elevation_mode p = ConfigModel.INTERACTIVE) →
  triple stops (asked p []) (connect root_session p ssh known_hosts token prompt)
    (fun _ w => ∃ calls, opened p calls ∧ asked p calls w) (fun _ => underway p).
Proof.
  intros Hprompt Htoken. unfold connect.
  assert (∀ w, asked p [] w → underway p w) as H0 by (intros w Hw; exists []; split; [by left|done]).
  assert (∀ call w, open_call p call → asked p [call] w → underway p w) as H1
    by (intros call w Hc Hw; exists [call]; split; [right; exists call; auto|done]).
  set (connected := fun w => ∃ call, open_call p call ∧ asked p [call] w).
  assert (∀ w, connected w → underway p w) as H2 by (intros w (call & ? & ?); by eapply H1).
  eapply (triple_bind _ _ _ _ (fun _ => asked p [])).
  { eapply triple_conseq; [by apply (asked_env e_relay_start p [] stops)|..]; try done; intros; by apply H0. }
  intros _. cbv beta. eapply (triple_bind _ _ _ _ (fun _ => connected)).
  2: { intros _. apply triple_exists. intros call. apply triple_pure. apply verify_opened. }
  apply triple_finally.
  - apply triple_lift_at; [|intros; by apply H0]. intros arguments Ha. apply triple_get. intros w0 Hw0.
    eapply (triple_bind _ _ _ _ (fun _ => connected)).
    + eapply triple_conseq; [apply (asked_record _ _ p [])|intros w ->; exact Hw0|..]; [| |done];
        intros ? w Hw; cbn [app] in Hw;
        (assert (open_call p (COpen arguments (root_session && bool_decide (elevation_mode p = ConfigModel.INTERACTIVE)) token))
          as Hc by (exists ssh, known_hosts, token, prompt, arguments; rewrite Htoken; auto));
        [by eexists|by eapply H1].
    + intros _. apply triple_exists. intros call. apply triple_pure. intros Hc.
      eapply triple_conseq; [by apply (asked_env e_relay_check p [call] stops)|done|..]; [| |done];
        intros ? w Hw; [by exists call|by eapply H1].
  - intros []. apply triple_exists. intros call. apply triple_pure. intros Hc.
    eapply triple_conseq; [by apply (asked_env e_relay_close p [call] stops)|done|..]; [| |done];
      intros ? w Hw; [by exists call|by eapply H1].
  - intros e. apply triple_exists. intros calls. apply triple_pure. intros Hc.
    eapply triple_conseq; [by apply (asked_env e_relay_close p calls stops)|done|..]; [| |done];
      intros ? w Hw; by exists calls.
Qed.

Definition fresh (w : W) : Prop := service_session w = None.
Lemma fresh_env {A} (m : M E A) : triple stops fresh (on_env m) (fun _ => fresh) (fun _ => fresh).
Proof. intros w Hw. unfold on_env. destruct (m (surroundings w)) as [[a|e|] e']; done. Qed.
Lemma fresh_session p t :
  triple stops fresh (on_env (e_create_session p t)) (fun s w => s.2 = [] ∧ fresh w) (fun _ => fresh).
Proof.
  intros w Hw. unfold on_env. cbn [e_create_session recorded_env]. unfold_prog.
  by destruct (e_create_session p t (surroundings w)) as [[a|e|] e'].
Qed.
Lemma fresh_token p :
  triple stops fresh (root_sudo_token root_session p)
    (fun token w => is_some token = root_session && bool_decide (elevation_mode p = ConfigModel.INTERACTIVE) ∧ fresh w)
    (fun _ => fresh).
Proof.
  unfold root_sudo_token. destruct (root_session && _); [|by apply triple_ret].
  eapply triple_bind; [apply fresh_env|]. intros t. by apply triple_ret.
Qed.
(** The ends of opening *)
Definition open_done (w : W) : Prop :=
  ∃ p calls, opened p calls ∧ asked p calls w ∧ (root_session = true → allow_root_session p = true).
Definition open_failed (w : W) : Prop :=
  fresh w ∨ ∃ p calls, begun p calls ∧ asked p (calls ++ [CClose]) w.
Lemma connected_done p ssh known_hosts token prompt :
  root_sudo_prompt token = Ok prompt →
  is_some token = root_session && bool_decide (elevation_mode p = ConfigModel.INTERACTIVE) →
  (root_session = true → allow_root_session p = true) →
  triple stops (asked p [])
    (try_except (connect root_session p ssh known_hosts token prompt)
       (fun e => suppress is_exception (on_session s_close);; raise e);; status name root_session)
    (fun _ => open_done) (fun _ => open_failed).
Proof.
  intros Hprompt Htoken Hallow. eapply (triple_bind _ _ _ _ (fun _ => open_done)).
  2: { intros _ w Hw. exact Hw. }
  eapply triple_try.
  - eapply triple_conseq; [by apply connect_opened|done| |by intros e w Hw; exact Hw|done].
    intros _ w (calls & Ho & Ha). by exists p, calls.
  - intros e. cbv beta. apply triple_exists. intros calls. apply triple_pure. intros Hb.
    eapply (triple_bind _ _ _ _ (fun _ => open_failed)); [|intros _; by apply triple_raise].
    assert (∀ w, asked p (calls ++ [CClose]) w → open_failed w) as Hf by (intros w Hw; right; by exists p, calls).
    apply triple_try with (R := fun _ => open_failed).
    + eapply triple_conseq; [apply (asked_record (fun _ => CClose) s_close)|done|..]; auto.
    + intros e'. destruct (is_exception e'); [by apply triple_ret|by apply triple_raise].
Qed.
Lemma open_ends : triple stops fresh (open name root_session) (fun _ => open_done) (fun _ => open_failed).
Proof.
  assert (∀ A (m : M E A), triple stops fresh (on_env m) (fun _ => fresh) (fun _ => open_failed)) as Henv.
  { intros A m. eapply triple_conseq; [apply fresh_env|done|done|by left|done]. }
  unfold open. apply triple_get. intros w0 Hw0. rewrite Hw0.
  match goal with |- triple _ _ ?m ?Q ?R => enough (triple stops fresh m Q R) as Hopen end.
  { intros w ->. by apply Hopen. }
  eapply triple_bind; [apply Henv|]. intros config. apply triple_lift_at; [|by left]. intros p _.
  apply triple_lift_at; [|by left]. intros [] Hroot%raise_if_Ok.
  eapply triple_bind; [apply Henv|]. intros ssh. eapply triple_bind; [apply Henv|]. intros target.
  eapply triple_bind; [apply Henv|]. intros known_hosts. apply triple_lift_at; [|by left]. intros t _.
  eapply triple_bind; [eapply triple_conseq; [apply fresh_session|..]; try done; by left|].
  intros session. apply triple_pure. intros Hs.
  eapply triple_bind; [apply Henv|]. intros [].
  eapply triple_bind; [eapply triple_conseq; [apply fresh_token|..]; try done; by left|].
  intros token. apply triple_pure. intros Htoken. apply triple_lift_at; [|by left]. intros prompt Hprompt.
  eapply triple_bind; [apply (triple_modify _ _ _ (fun _ => asked p []))|intros []; apply connected_done]; [|done..|].
  - intros w Hw. split; [done|]. exists session.1. by destruct session as [s calls]; cbn in *; subst.
  - intros Hr. rewrite Hr in Hroot. by destruct (allow_root_session p).
Qed.
End opening.

(** C15: opening a worker ends in one of three ways.  It returns, with a
    session that was asked to open OpenSSH for the profile and, for a root
    session, to tell its user id, which was 0; it raises before a session
    exists, so that it can be tried again; or it raises after having closed
    the session, whatever had failed and whether or not closing worked. *)
Theorem open_verified_or_closed {U : UnicodeDB} {E S : Type} `{Env : WorkerEnv E S} `{Ops : SessionOps S}
    name root_session (w : service E (S * list session_call)) :
  service_session w = None →
  match open name root_session w with
  | (Ret _, w') =>
      ∃ p calls, opened root_session p calls ∧ asked p calls w' ∧
                 (root_session = true → allow_root_session p = true)
  | (Raise _, w') =>
      service_session w' = None ∨
      ∃ p calls, begun root_session p calls ∧ asked p (calls ++ [CClose]) w'
  | (Hang, _) => True
  end.
Proof.
  intros Hw. pose proof (open_ends name root_session w Hw) as H.
  destruct (open name root_session w) as [[r|e|] w']; [exact H|exact H|done].
Qed.

(** A configuration, an OpenSSH and a remote shell that answers [id -u] with
    [uid] *)
Definition simple_env {S} (s : S) : WorkerEnv unit S := {|
  e_load := mret sample_config; e_find_ssh := mret (u "ssh.exe");
  e_resolve _ _ := mret (Target (u "10.0.0.7") 22 (u "deploy"));
  e_prepare_known_hosts := mret (u "known_hosts"); e_create_session _ _ := mret s;
  e_create_relay := mret tt; e_relay_start := mret tt; e_relay_check := mret tt; e_relay_close := mret tt;
  e_relay_environment _ := []; e_token_hex := mret (u "00112233445566778899aabbccddeeff");
|}.
Definition simple_session (uid : str) : SessionOps SessionState :=
  let running := mret (Status State.INTERACTIVE true 0) in {|
  s_state s := s; s_require _ := mret tt; s_open _ _ _ _ _ := put READY;
  s_execute _ _ _ _ := mret (Execution (uid ++ nl) 0 (u "/root") false 5);
  s_start _ := running; s_read _ _ := mret (IRead [] 0 false State.INTERACTIVE); s_write _ := running;
  s_interrupt := running; s_resize _ _ := running; s_status := running; s_close_terminal _ := running;
  s_close := put CLOSED;
|}.
Definition new_service {S} : service unit S := Service tt None None None None.

Lemma open_verified_or_closed_witness :
  ∃ p calls,
    opened (U := ascii_db) true p calls ∧ length calls = 2%nat ∧ allow_root_session p = true.
Proof.
  pose (Ops := simple_session (u "0")). pose (Env := simple_env CREATED).
  pose proof (open_verified_or_closed (U := ascii_db) (u "web") true new_service eq_refl) as H.
  destruct (open (U := ascii_db) (u "web") true new_service) as [r w'] eqn:E.
  vm_compute in E. injection E as <- <-. destruct H as (p & calls & Ho & [_ [s Ha]] & Hallow).
  exists p, calls. split; [exact Ho|]. split; [|by apply Hallow].
  destruct Ho as (call & _ & x & _ & Hcalls). rewrite Hcalls. reflexivity.
Defined.
