(* ===== verification/WorkerProtocol.v ===== *)
(** * WorkerProtocol: what a broker can make a worker do (worker/protocol.py)

    Every message is checked against the fields of its operation before the
    service sees it.  The theorems follow a message from the pipe to the calls
    it makes on the session: an open worker runs only what the message, the
    profile and the kind of session admit, and opening ends with a session
    that is verified or closed. *)
From S2P Require Import Prelude Errors Text TextFacts Regex Value Prog ConfigModel Patch FileWire FileShell FileService State RingBuffer Framing Prompts Ssh Elevation AuthModel Terminal Session SessionFacts Interactive Worker.

Record WorkerReply := Reply { reply_payload : dict value; stop : bool }.

(** ** The fields of each operation: required and optional *)
Definition operations : Type := list (str * (list str * list str)).
Definition terminal_operations : operations :=
  [(u "start", ([u "command"], [])); (u "read", ([u "cursor"], [u "timeout"])); (u "write", ([u "text"], []));
   (u "interrupt", ([], [])); (u "resize", ([u "columns"; u "rows"], [])); (u "status", ([], []));
   (u "close", ([], [u "timeout"]))].
Definition file_operations (write : bool) : operations :=
  if write then
    [(u "write_text", ([u "path"; u "content"], [u "expected_sha256"]));
     (u "apply_patch", ([u "path"; u "patch"], [u "expected_sha256"]));
     (u "mkdir", ([u "path"], [])); (u "rename", ([u "path"; u "destination_path"], []));
     (u "remove", ([u "path"], [u "recursive"; u "expected_sha256"]))]
  else
    [(u "list", ([u "path"], [u "max_results"])); (u "stat", ([u "path"], []));
     (u "read_text", ([u "path"], [u "byte_limit"; u "start_line"; u "end_line"]));
     (u "search_text", ([u "path"; u "query"], [u "max_results"])); (u "hash", ([u "path"], []))].
Definition elevation_operations : operations :=
  [(u "acquire", ([], [])); (u "status", ([], [])); (u "release", ([], []));
   (u "exec", ([u "command"], [u "timeout"]))].
Definition operation_fields (table : operations) (unsupported : str) (action : str) : res (list str * list str) :=
  match dget table action with
  | Some fields => Ok fields
  | None => Err (value_error (unsupported ++ action))
  end.
Definition terminal_fields : str → res (list str * list str) :=
  operation_fields terminal_operations (u "unsupported terminal action: ").
Definition file_fields (write : bool) : str → res (list str * list str) :=
  operation_fields (file_operations write)
    (u "unsupported file " ++ (if write then u "edit" else u "read") ++ u " action: ").
Definition elevation_fields : str → res (list str * list str) :=
  operation_fields elevation_operations (u "unsupported worker elevation action: ").
Definition fields (payload : dict value) (required optional : list str) : res unit :=
  raise_if (negb (fields_match payload required optional))
    (value_error (u "worker request fields do not match the operation")).

(** [action] of a payload, and the payload without it once the fields fit *)
Definition action_of (payload : dict value) (kind : str) : res str :=
  match vget payload (u "action") with
  | VStr a => Ok a
  | _ => Err (value_error (kind ++ u " action must be a string"))
  end.
Definition action_payload (payload : dict value) (kind : str) (table : str → res (list str * list str)) :
    res (str * dict value) :=
  action ← action_of payload kind;
  expected ← table action;
  fields payload (expected.1 ++ [u "action"]) expected.2;;
  Ok (action, ddel payload (u "action")).
Definition exec_arguments (payload : dict value) : res (str * option Q) :=
  fields payload [u "command"] [u "timeout"];;
  command ← getitem payload (u "command");
  match command with
  | VStr c =>
      match vget payload (u "timeout") with
      | VNone => Ok (c, None)
      | v => raise_if (negb (is_number v)) (value_error (u "timeout must be a number"));;
             t ← number_between (frac 1 10) (qz 3600) v (value_error (u "timeout is outside the supported range"));
             Ok (c, Some t)
      end
  | _ => Err (value_error (u "command must be a string"))
  end.

Section protocol.
Context {U : UnicodeDB} {E S : Type} `{Env : WorkerEnv E S} `{Ops : SessionOps S}.
Variable session_id profile_name : str.
Variable pid : Z.
Variable root_session : bool.
Abbreviation W := (service E S).

Definition identity (payload : dict value) : dict value :=
  dmerge [(u "session_id", VStr session_id); (u "profile_name", VStr profile_name); (u "pid", VInt pid)] payload.
Definition status_payload : M W (dict value) :=
  s ← status profile_name root_session; mret (identity s).
Definition answer (m : M W (dict value)) : M W WorkerReply := p ← m; mret (Reply p false).
Definition handle (message_type : str) (payload : dict value) : M W WorkerReply :=
  if str_eqb message_type (u "worker.ping") then lift (fields payload [] []);; answer status_payload
  else if str_eqb message_type (u "worker.status") then lift (fields payload [] []);; answer status_payload
  else if str_eqb message_type (u "worker.open") then
    lift (fields payload [] []);;
    answer (s ← open profile_name root_session; mret (identity s))
  else if str_eqb message_type (u "worker.exec") then
    a ← lift (exec_arguments payload); answer (execute a.1 a.2)
  else if str_eqb message_type (u "worker.terminal") then
    a ← lift (action_payload payload (u "terminal") terminal_fields); answer (terminal a.1 a.2)
  else if str_eqb message_type (u "worker.files") || str_eqb message_type (u "worker.file_edit") then
    let write := str_eqb message_type (u "worker.file_edit") in
    a ← lift (action_payload payload (u "file") (file_fields write)); answer (files root_session a.1 a.2 write)
  else if str_eqb message_type (u "worker.elevation") then
    a ← lift (action_payload payload (u "elevation") elevation_fields); answer (elevation root_session a.1 a.2)
  else if str_eqb message_type (u "worker.shutdown") then
    lift (fields payload [] []);; close;; mret (Reply [(u "status", VStr (u "closing"))] true)
  else raise (value_error (u "unknown worker message type: " ++ message_type)).

Definition error_payload (e : exn) : M W (dict value) :=
  s ← status profile_name root_session;
  mret [(u "code", VStr (error_code e (u "invalid_request"))); (u "message", VStr (error_message e));
        (u "state", vget s (u "state"))].
End protocol.

(** ** What a message admits
    The calls the session of an open worker may see while a message is handled,
    [p] being the profile it was opened with *)
Definition terminal_admits (action : str) (payload : dict value) (call : session_call) : Prop :=
  match call with
  | CStart c => action = u "start" ∧ dget payload (u "command") = Some (VStr c)
  | CRead c t => action = u "read" ∧ dget payload (u "cursor") = Some (VInt c) ∧ 0 <= c ∧
                 qle (qz 0) t = true ∧ qle t (qz 60) = true
  | CWrite t => action = u "write" ∧ dget payload (u "text") = Some (VStr t)
  | CInterrupt => action = u "interrupt"
  | CResize c r => action = u "resize" ∧ dget payload (u "columns") = Some (VInt c) ∧
                   dget payload (u "rows") = Some (VInt r) ∧ 1 <= c <= 32767 ∧ 1 <= r <= 32767
  | CStatus => action = u "status"
  | CCloseTerminal t => action = u "close" ∧ qle (frac 1 10) t = true ∧ qle t (qz 60) = true
  | _ => False
  end.
(** What the file service is told a command returned *)
Definition session_answer (v : dict value) : Prop := ∃ r, v = execution_payload r.
Definition file_admits {U : UnicodeDB} (p : ServerProfile) (write : bool) (action : str) (payload : dict value)
    (call : session_call) : Prop :=
  ∃ cmd t r, call = CExecute cmd (qz t) false None r ∧
    script_of p (if write then edit_admits p session_answer action payload else read_admits p payload) cmd t.
Definition elevation_admits {U : UnicodeDB} (p : ServerProfile) (action : str) (payload : dict value)
    (call : session_call) : Prop :=
  ∃ cmd t token r, call = CExecute cmd t (is_some token) token r ∧ sudo_command p action payload cmd t token.
Definition admitted {U : UnicodeDB} (p : ServerProfile) (root_session : bool) (message_type : str)
    (payload : dict value) (call : session_call) : Prop :=
  let rest := ddel payload (u "action") in
  (message_type = u "worker.exec" ∧ allow_terminal p = true ∧
   ∃ cmd t r, exec_arguments payload = Ok (cmd, t) ∧
              call = CExecute cmd (default (qz (command_timeout_seconds p)) t) false None r) ∨
  (message_type = u "worker.terminal" ∧ allow_terminal p = true ∧
   ∃ action, vget payload (u "action") = VStr action ∧ terminal_admits action rest call) ∨
  (message_type ∈ [u "worker.files"; u "worker.file_edit"] ∧ root_session = false ∧
   ∃ action, vget payload (u "action") = VStr action ∧
             file_admits p (str_eqb message_type (u "worker.file_edit")) action rest call) ∨
  (message_type = u "worker.elevation" ∧ root_session = false ∧
   ∃ action, vget payload (u "action") = VStr action ∧ elevation_admits p action rest call) ∨
  (message_type = u "worker.shutdown" ∧ call = CClose).

(** ** An open worker keeps to what is admitted *)
Section serving.
Context {U : UnicodeDB} {E S : Type} `{Env : WorkerEnv E (S * list session_call)} `{Ops : SessionOps S}.
Variable name session_id : str.
Variable pid : Z.
Variable root_session : bool.
Variables (p : ServerProfile) (start : list session_call).
Abbreviation W := (service E (S * list session_call)).

(** Open with profile [p]; the calls made since [start] all satisfy [φ]. *)
Definition serving (φ : session_call → Prop) (w : W) : Prop :=
  service_profile w = Some p ∧
  ∃ s new, service_session w = Some (s, start ++ new) ∧ Forall φ new.

Context {φ : session_call → Prop}.
Abbreviation kept := (spec (serving φ)).

Lemma spec_on_env {A} (m : M E A) : kept (on_env m) anything.
Proof.
  intros w Hw. unfold on_env. destruct (m (surroundings w)) as [r e].
  assert (serving φ (Service e (service_profile w) (service_target w) (service_session w) (service_cwd w))) by done.
  by destruct r.
Qed.
Lemma spec_set_cwd c : kept (set_cwd c) anything.
Proof. by apply spec_modify. Qed.
Lemma spec_unrecorded {A} (m : M S A) : kept (on_session (unrecorded m)) anything.
Proof.
  intros w (Hp & s & new & Hs & Hn). unfold on_session, unrecorded. rewrite Hs. cbn [fst snd].
  destruct (m s) as [r s']. assert (serving φ (Service (surroundings w) (service_profile w) (service_target w)
    (Some (s', start ++ new)) (service_cwd w))) by (split; [done|]; by exists s', new).
  by destruct r.
Qed.
Lemma spec_record {A} call (m : M S A) : (∀ r, φ (call r)) → kept (on_session (record call m)) anything.
Proof.
  intros Hc w (Hp & s & new & Hs & Hn). unfold on_session, record. rewrite Hs. cbn [fst snd].
  destruct (m s) as [r s']. assert (serving φ (Service (surroundings w) (service_profile w) (service_target w)
    (Some (s', (start ++ new) ++ [call r])) (service_cwd w))).
  { split; [done|]. exists s', (new ++ [call r]). rewrite app_assoc. split; [done|]. apply Forall_app. auto. }
  by destruct r.
Qed.
Lemma spec_open_session : kept open_session (fun q => q = p).
Proof.
  intros w Hw. pose proof Hw as (Hp & s & new & Hs & _). unfold open_session. unfold_prog.
  rewrite Hs, Hp. by split.
Qed.
Lemma spec_get_any {A} (f : W → M W A) Q : (∀ w, serving φ w → kept (f w) Q) → kept (get ≫= f) Q.
Proof. intros H w Hw. by apply H. Qed.

Lemma spec_execute_internal cmd t allow token :
  (∀ r, φ (CExecute cmd (default (qz (command_timeout_seconds p)) t) allow token r)) →
  kept (execute_internal cmd t allow token) session_answer.
Proof.
  intros Hc. unfold execute_internal. eapply spec_bind; [apply spec_open_session|]. intros q ->.
  eapply spec_bind; [apply spec_unrecorded|]. intros _ _.
  eapply spec_bind; [by apply spec_record|]. intros r _.
  eapply spec_bind; [apply spec_set_cwd|]. intros _ _. apply spec_ret. by exists r.
Qed.
Lemma spec_service_execute cmd t :
  (allow_terminal p = true → ∀ r, φ (CExecute cmd (default (qz (command_timeout_seconds p)) t) false None r)) →
  kept (execute cmd t) anything.
Proof.
  intros Hc. unfold execute. eapply spec_bind; [apply spec_open_session|]. intros q ->.
  apply spec_when. intros Ha%negb_false_iff. eapply spec_anything, spec_execute_internal. by apply Hc.
Qed.
Lemma spec_files action payload write :
  (root_session = false → ∀ call, file_admits p write action payload call → φ call) →
  kept (files root_session action payload write) anything.
Proof.
  intros Hc. unfold files. destruct root_session; [by spec_step|].
  eapply spec_bind; [apply spec_open_session|]. intros q ->.
  eapply spec_bind; [apply spec_unrecorded|]. intros _ _.
  assert (∀ cmd t, script_of p (if write then edit_admits p session_answer action payload else read_admits p payload)
                     cmd t → kept (execute_internal cmd (Some (qz t)) false None) session_answer) as Hrun.
  { intros cmd t Hs. apply spec_execute_internal. intros r. apply Hc; [done|]. by exists cmd, t, r. }
  destruct write.
  - eapply spec_edit; [apply spec_on_env|]. exact Hrun.
  - eapply spec_read; [apply spec_on_env|]. exact Hrun.
Qed.
Lemma spec_elevation action payload :
  (root_session = false → ∀ call, elevation_admits p action payload call → φ call) →
  kept (elevation root_session action payload) anything.
Proof.
  intros Hc. unfold elevation. eapply spec_bind; [apply spec_open_session|]. intros q ->.
  eapply spec_bind; [apply spec_unrecorded|]. intros _ _. destruct root_session; [by spec_step|].
  apply spec_get_any. intros w _. spec_step. apply spec_handle; [apply spec_on_env|].
  intros cmd t k Hk. eapply spec_anything, spec_execute_internal. intros r. apply Hc; [done|].
  by exists cmd, t, k, r.
Qed.
Lemma field_text_Ok d f v : field_text d f = Ok v → dget d f = Some (VStr v).
Proof.
  unfold field_text, getitem. destruct (dget d f) as [x|]; [|done]. cbn. destruct x; try done. by intros [= ->].
Qed.
Lemma field_integer_Ok d f lo hi v :
  field_integer d f lo hi = Ok v →
  dget d f = Some (VInt v) ∧ lo <= v ∧ match hi with Some m => v <= m | None => True end.
Proof.
  unfold field_integer, getitem. destruct (dget d f) as [x|]; [|done]. cbn [mbind result_mbind result_bind].
  destruct x; try done. destruct (_ || _) eqn:Hr; [done|]. cbn. intros [= ->]. boolean. split; [done|].
  split; [done|]. destruct hi; [|done]. boolean. lia.
Qed.
Lemma field_number_Ok d f def lo hi q :
  field_number d f def lo hi = Ok q → qle lo q = true ∧ qle q hi = true.
Proof. unfold field_number. destruct (negb _); [done|]. apply number_between_ok. Qed.
Lemma spec_controlled c m : φ c → kept (controlled_terminal (record (fun _ => c) m)) anything.
Proof. intros Hc. eapply spec_bind; [by apply spec_record|]. intros s _. by spec_step. Qed.
Lemma spec_terminal action payload :
  (allow_terminal p = true → ∀ call, terminal_admits action payload call → φ call) →
  kept (terminal action payload) anything.
Proof.
  intros Hc. unfold terminal. eapply spec_bind; [apply spec_open_session|]. intros q ->.
  apply spec_when. intros Ha%negb_false_iff. specialize (Hc Ha).
  repeat match goal with
         | |- spec _ (if str_eqb action ?s then _ else _) _ =>
             destruct (str_eqb action s) eqn:?;
               [repeat match goal with H : str_eqb _ _ = true |- _ => apply bool_decide_eq_true in H as -> end|]
         | H : field_text _ _ = Ok _ |- _ => apply field_text_Ok in H
         | H : field_integer _ _ _ _ = Ok _ |- _ => apply field_integer_Ok in H
         | H : field_number _ _ _ _ _ = Ok _ |- _ => apply field_number_Ok in H
         | |- spec _ (controlled_terminal _) _ => apply spec_controlled, Hc; cbn; naive_solver
         | _ => spec_step
         end.
  eapply spec_bind; [apply spec_record; intros _; apply Hc; cbn; naive_solver|]. intros r _. by spec_step.
Qed.
Lemma spec_close_service : φ CClose → kept close anything.
Proof.
  intros Hc. apply spec_get_any. intros w (_ & s & new & -> & _). by apply spec_record.
Qed.
Lemma spec_status : kept (status name root_session) anything.
Proof. intros w Hw. by split. Qed.
Lemma spec_open_again : kept (open name root_session) anything.
Proof. apply spec_get_any. intros w (_ & s & new & -> & _). by spec_step. Qed.

Lemma action_payload_Ok d k table r :
  action_payload d k table = Ok r → vget d (u "action") = VStr r.1 ∧ r.2 = ddel d (u "action").
Proof.
  intros H. unfold action_payload in H. inv_ok H. apply Ok_inj in H as <-. cbn. split; [|done].
  unfold action_of in Ha. destruct (vget d _); try done. by apply Ok_inj in Ha as ->.
Qed.
Lemma spec_answer m : kept m anything → kept (answer m) anything.
Proof. intros H. eapply spec_bind; [apply H|]. intros r _. by spec_step. Qed.
Lemma spec_handle_message message_type payload :
  (∀ call, admitted p root_session message_type payload call → φ call) →
  kept (handle session_id name pid root_session message_type payload) anything.
Proof.
  intros Hc. unfold handle, admitted in *.
  repeat match goal with
         | |- spec _ (if str_eqb message_type ?s then _ else _) _ =>
             destruct (str_eqb message_type s) eqn:?;
               [repeat match goal with H : str_eqb _ _ = true |- _ => apply bool_decide_eq_true in H as -> end|]
         | _ => spec_step
         end.
  - apply spec_answer. eapply spec_bind; [apply spec_status|]. intros s _. by spec_step.
  - apply spec_answer. eapply spec_bind; [apply spec_status|]. intros s _. by spec_step.
  - apply spec_answer. eapply spec_bind; [apply spec_open_again|]. intros s _. by spec_step.
  - apply spec_answer, spec_service_execute. intros Ht r. apply Hc. left. destruct a as [cmd t]. naive_solver.
  - apply spec_answer, spec_terminal. apply action_payload_Ok in H as [Ha Hr]. rewrite Hr.
    intros Ht call Hk. apply Hc. right; left. eauto.
  - apply spec_answer, spec_files. apply action_payload_Ok in H as [Ha Hr]. rewrite Hr.
    intros Ht call Hk. apply Hc. do 2 right; left. split; [|eauto].
    match goal with K : _ || _ = true |- _ => apply orb_true_iff in K as [->%bool_decide_eq_true| ->%bool_decide_eq_true] end;
      set_solver.
  - apply spec_answer, spec_elevation. apply action_payload_Ok in H as [Ha Hr]. rewrite Hr.
    intros Ht call Hk. apply Hc. do 3 right; left. eauto.
  - eapply spec_bind; [apply spec_close_service, Hc; by do 4 right|]. intros [] _. by spec_step.
Qed.
End serving.

(** C12: whatever message an open worker is sent and whatever its session and its
    surroundings answer, the calls the message makes on the session are the
    admitted ones: a command only when the profile allows the terminal, a file
    operation's script only in a session that is not root and under the file
    permissions, a sudo command only as the elevation mode allows, the close
    only for a shutdown; and the profile it was opened with stays. *)
Theorem open_worker_is_confined {U : UnicodeDB} {E S : Type} `{Env : WorkerEnv E (S * list session_call)}
    `{Ops : SessionOps S} name session_id pid root_session p message_type payload
    (w : service E (S * list session_call)) s calls :
  service_profile w = Some p → service_session w = Some (s, calls) →
  let w' := (handle session_id name pid root_session message_type payload w).2 in
  service_profile w' = Some p ∧
  ∃ s' new, service_session w' = Some (s', calls ++ new) ∧ Forall (admitted p root_session message_type payload) new.
Proof.
  intros Hp Hs w'.
  pose proof (spec_handle_message name session_id pid root_session p calls message_type payload (fun _ H => H) w) as H.
  assert (serving p calls (admitted p root_session message_type payload) w) as Hw.
  { split; [done|]. exists s, []. by rewrite app_nil_r. }
  specialize (H Hw). subst w'.
  destruct (handle session_id name pid root_session message_type payload w) as [[r|e|] w1];
    [destruct H as [_ H]| |]; destruct H as [H1 H2]; eauto.
Qed.

Lemma open_worker_is_confined_witness :
  let Ops := stateful_session (U := ascii_db) [] in
  let Env := simple_env (ready_session sample_env) in
  let w := Service tt (Some sample_profile) None (Some (ready_session sample_env, [])) None in
  ∃ s', service_session (handle (U := ascii_db) (u "sess-0") (u "web") 7 false (u "worker.exec")
                           [(u "command", VStr (u "ls"))] w).2 =
        Some (s', [CExecute (u "ls") (qz 60) false None (Some (Execution (u "hello") 0 (u "/root") false 4000))]) ∧
        admitted (U := ascii_db) sample_profile false (u "worker.exec") [(u "command", VStr (u "ls"))]
          (CExecute (u "ls") (qz 60) false None (Some (Execution (u "hello") 0 (u "/root") false 4000))).
Proof.
  intros Ops Env w.
  destruct (open_worker_is_confined (U := ascii_db) (Env := recorded_env (Env := Env)) (u "web") (u "sess-0") 7 false
    sample_profile (u "worker.exec")
    [(u "command", VStr (u "ls"))] w (ready_session sample_env) [] eq_refl eq_refl) as (_ & s' & new & H1 & H2).
  assert (service_session (handle (U := ascii_db) (Env := recorded_env (Env := Env)) (u "sess-0") (u "web") 7 false
     (u "worker.exec") [(u "command", VStr (u "ls"))] w).2 =
     Some ((Session.execute (U := ascii_db) (u "ls") (qz 60) false None (ready_session sample_env)).2,
           [CExecute (u "ls") (qz 60) false None (Some (Execution (u "hello") 0 (u "/root") false 4000))])) as Hrun
    by (vm_compute; reflexivity).
  pose proof H1 as Hnew. rewrite Hrun in Hnew.
  apply (f_equal (fun o => match o with Some x => x.2 | None => [] end)) in Hnew. cbn [snd app] in Hnew.
  subst new. apply Forall_cons in H2 as [H2 _]. exists s'. split; [exact H1|exact H2].
Defined.
