(* ===== verification/WorkerProcess.v ===== *)
(** * WorkerProcess: the life of one worker process (worker/process.py)

    A worker publishes its status, accepts one connection at a time, serves the
    broker that authenticates itself and removes its status when it ends.  The
    listener, the connections and the status file are a script of answers; a
    monitor says in which order they are used. *)
From S2P Require Import Prelude Errors Text TextFacts Regex Value Prog ConfigModel Ipc State RingBuffer Framing Prompts Ssh AuthModel Terminal Session SessionFacts Interactive Worker WorkerProtocol.

Inductive process_call : Type :=
  | PPrepare | PListen | PAccept | PHandshake | PReceive
  | PSend (e : Envelope)
  | PPublish (document : dict value)     (* runtime.write_json(status_path, ...) *)
  | PDisconnect | PUnlink | PStopListening.
Inductive process_reply : Type :=
  | PDone
  | PRequest (e : Envelope).

Section process.
Context {U : UnicodeDB} {E S : Type} `{Env : WorkerEnv E S} `{Ops : SessionOps S}.
Variables (session_id profile_name : str) (pid : Z) (pipe : str) (root_session : bool).
Abbreviation P := (M (io (service E S) process_call process_reply)).

Definition call (c : process_call) : P unit := ask c;; mret tt.
Definition receive : P Envelope :=
  r ← ask PReceive; match r with PRequest e => mret e | PDone => hang end.
(** What the handler does, it does on the service. *)
Definition on_service {A} (m : M (service E S) A) : P A := fun s =>
  let '(r, w) := m (st s) in (r, Io w (script s) (trace s)).

Definition status_document (state : value) : dict value :=
  [(u "session_id", VStr session_id); (u "profile_name", VStr profile_name); (u "pid", VInt pid);
   (u "pipe", VStr pipe); (u "protocol_version", VInt WORKER_PROTOCOL_VERSION); (u "state", state);
   (u "root_session", VBool root_session)].
Definition service_state : M (service E S) value :=
  s ← status profile_name root_session; mret (vget s (u "state")).

(** One request: the type and payload of its response, and whether to stop *)
Definition internal_error : M (service E S) (str * dict value * bool) :=
  suppress is_exception close;;
  state ← service_state;
  mret (u "error", [(u "code", VStr (u "worker_internal_error"));
                    (u "message", VStr (u "worker operation failed safely")); (u "state", state)], true).
Definition respond (request : Envelope) : M (service E S) (str * dict value * bool) :=
  try_except
    (reply ← handle session_id profile_name pid root_session (message_type request) (payload request);
     mret (message_type request ++ u ".result", reply_payload reply, stop reply))
    (fun e =>
       if isinstance e ServerOpsError || is_value_error e then
         p ← error_payload profile_name root_session e; mret (u "error", p, false)
       else if is_exception e then internal_error else raise e).

(** Serving an authenticated broker until a request stops the worker; each
    round receives, so [fuel] is enough when it exceeds the answers left. *)
Fixpoint serve (fuel : nat) : P unit :=
  match fuel with
  | O => hang
  | Datatypes.S fuel =>
      request ← receive;
      '(response_type, body, stopping) ← on_service (respond request);
      response ← lift (create [] response_type (Some body) (Some (message_id request)));
      call (PSend response);;
      if (stopping : bool) then mret tt
      else
        state ← on_service service_state;
        call (PPublish (status_document state));;
        serve fuel
  end.
(** One connection; the result says whether to accept another. *)
Definition session_loop (fuel : nat) : P bool :=
  try_except (call PHandshake;; mret true) (fun e => if isinstance e IpcError then mret false else raise e) ≫= fun authenticated =>
  if (authenticated : bool) then
    try_except (serve fuel) (fun e => if isinstance e IpcError then mret tt else raise e);; mret false
  else mret true.
Fixpoint accept_loop (fuel : nat) : P unit :=
  match fuel with
  | O => hang
  | Datatypes.S fuel =>
      accepted ← try_except (call PAccept;; mret true)
                   (fun e => if isinstance e IpcClosed then mret false else raise e);
      if accepted : bool then
        continue ← try_finally (session_loop fuel) (call PDisconnect);
        if continue : bool then accept_loop fuel else mret tt
      else mret tt
  end.
Definition run_worker (token : str) : P Z :=
  lift (validate_session_id session_id);;
  lift (validate_profile_name profile_name);;
  if str_eqb token [] then mret 2
  else
    call PPrepare;;                     (* runtime.prepare() *)
    call PListen;;
    try_finally
      (call (PPublish (status_document (VStr (u "created"))));;
       s ← get;
       try_finally (accept_loop (Datatypes.S (length (script s)))) (call PUnlink))
      (call PStopListening);;
    mret 0.
End process.

(** ** The order of a worker's calls *)
Inductive phase : Type :=
  | Starting | Prepared | Bound | Unpublished     (* listening, before a status is published *)
  | Idle | Connected | Serving
  | Owes (request : Envelope)                     (* received, not answered *)
  | Answered | Closing (again : bool)
  | Leaving | Unlinked | Over.
Definition allowed (ph : phase) (c : process_call) : Prop :=
  match ph, c with
  | Starting, PPrepare | Prepared, PListen | Bound, PPublish _ | Unpublished, PStopListening
  | Idle, PAccept | Connected, PHandshake | Serving, PReceive
  | Answered, (PPublish _ | PDisconnect) | Owes _, PDisconnect | Closing _, PDisconnect
  | Leaving, PUnlink | Unlinked, PStopListening => True
  | Owes request, PSend response => responds request response
  | _, _ => False
  end.
Definition is_ok {A} (a : res A) : bool := match a with Ok _ => true | Err _ => false end.
Definition after (ph : phase) (c : process_call) (a : res process_reply) : phase :=
  match c, a with
  | PPrepare, _ => if is_ok a then Prepared else Over
  | PListen, _ => if is_ok a then Bound else Over
  | PPublish _, Ok _ => match ph with Bound => Idle | _ => Serving end
  | PPublish _, Err _ => match ph with Bound => Unpublished | _ => Closing false end
  | PAccept, _ => if is_ok a then Connected else Leaving
  | PHandshake, Ok _ => Serving
  | PHandshake, Err e => Closing (isinstance e IpcError)
  | PReceive, Ok (PRequest request) => Owes request
  | PReceive, _ => Closing false
  | PSend _, _ => if is_ok a then Answered else Closing false
  | PDisconnect, _ => match ph with Closing true => if is_ok a then Idle else Leaving | _ => Leaving end
  | PUnlink, _ => Unlinked
  | PStopListening, _ => Over
  end.

Section lifetime.
Context {U : UnicodeDB} {E S : Type} `{Env : WorkerEnv E S} `{Ops : SessionOps S}.
Variables (session_id profile_name : str) (pid : Z) (pipe : str) (root_session : bool).
Context (tr : list process_call) (scr : list (res process_reply)).
Abbreviation IO := (io (service E S) process_call process_reply).
Abbreviation at_ph := (at_phase allowed after tr scr Starting).
Abbreviation stuck := (obeyed allowed after tr scr Starting).

Lemma triple_process_call ph c (Q : unit → IO → Prop) (R : exn → IO → Prop) :
  allowed ph c →
  (∀ a s, at_ph (after ph c (Ok a)) s → Q tt s) → (∀ e s, at_ph (after ph c (Err e)) s → R e s) →
  triple stuck (at_ph ph) (call c) Q R.
Proof.
  intros Hc HQ HR. unfold call.
  eapply (triple_bind _ _ _ _ (fun a => at_ph (after ph c (Ok a)))); [by apply triple_monitored|].
  intros a. apply triple_ret. eauto.
Qed.
Lemma triple_on_service {A} ph (m : M (service E S) A) Q R :
  spec (fun _ => True) m Q → (∀ e s, at_ph ph s → R e s) →
  triple stuck (at_ph ph) (on_service m) (fun a s => Q a ∧ at_ph ph s) R.
Proof.
  intros Hm HR s Hs. unfold on_service. specialize (Hm (st s) I). destruct (m (st s)) as [[a|e|] w].
  - destruct Hm as [Ha _]. by split.
  - by apply HR.
  - eapply at_phase_obeyed, (Hs : at_ph ph (Io w (script s) (trace s))).
Qed.
Lemma spec_true {A} (m : M (service E S) A) : spec (fun _ => True) m anything.
Proof. intros s _. by destruct (m s) as [[a|e|] s']. Qed.
Lemma respond_type request :
  spec (fun _ => True) (respond session_id profile_name pid root_session request)
    (fun r => r.1.1 = message_type request ++ u ".result" ∨ r.1.1 = u "error").
Proof.
  apply spec_try.
  - eapply spec_bind; [apply spec_true|]. intros r _. apply spec_ret. by left.
  - intros e. repeat spec_step; (eapply spec_bind; [apply spec_true|]); intros r _; [apply spec_ret; by right|].
    eapply spec_bind; [apply spec_true|]. intros v _. apply spec_ret. by right.
Qed.

(** Phases in which the connection is closed next *)
Definition hanging_up (s : IO) : Prop :=
  ∃ ph, at_ph ph s ∧ match ph with Answered | Owes _ | Closing false => True | _ => False end.
Lemma serve_order fuel :
  triple stuck (at_ph Serving) (serve session_id profile_name pid pipe root_session fuel)
    (fun _ => hanging_up) (fun _ => hanging_up).
Proof.
  assert (∀ ph s, at_ph ph s → match ph with Answered | Owes _ | Closing false => True | _ => False end → hanging_up s)
    as Hup by (intros ph s; exists ph; auto).
  induction fuel as [|fuel IH]; [intros s Hs; by eapply at_phase_obeyed|]. cbn [serve].
  eapply (triple_bind _ _ _ _ (fun request => at_ph (Owes request))).
  { unfold receive. eapply (triple_bind _ _ _ _ (fun r => at_ph (after Serving PReceive (Ok r)))).
    - apply triple_monitored; [done|done|]. intros e s Hs. by eapply Hup.
    - intros [|e]; [|by apply triple_ret]. intros s Hs. by eapply at_phase_obeyed. }
  intros request.
  eapply triple_bind; [apply triple_on_service; [apply respond_type|]; intros e s Hs; by eapply Hup|].
  intros [[kind body] stopping]. cbn [fst snd]. apply triple_pure. intros Hkind.
  apply triple_lift_at; [|intros e s Hs; by eapply Hup]. intros response [Hid Hty]%create_responds.
  eapply (triple_bind _ _ _ _ (fun _ => at_ph Answered)).
  { apply triple_process_call; [split; [done|by rewrite Hty]|done|]. intros e s Hs. by eapply Hup. }
  intros _. destruct stopping; [apply triple_ret; intros s Hs; by eapply Hup|].
  eapply triple_bind; [apply triple_on_service; [apply spec_true|]; intros e s Hs; by eapply Hup|].
  intros v. cbv beta. apply triple_pure. intros _.
  eapply (triple_bind _ _ _ _ (fun _ => at_ph Serving)); [|by intros _; apply IH].
  apply triple_process_call; [done|done|]. intros e s Hs. by eapply Hup.
Qed.
Lemma session_order fuel :
  triple stuck (at_ph Connected) (session_loop session_id profile_name pid pipe root_session fuel)
    (fun again s => if again : bool then at_ph (Closing true) s else hanging_up s)
    (fun _ => hanging_up).
Proof.
  unfold session_loop.
  eapply (triple_bind _ _ _ _ (fun ok s => if ok : bool then at_ph Serving s else at_ph (Closing true) s)).
  - apply (triple_try _ _ _ _ _ (fun e => at_ph (Closing (isinstance e IpcError)))).
    + eapply (triple_bind _ _ _ _ (fun _ => at_ph Serving)); [by apply triple_process_call|]. intros _. by apply triple_ret.
    + intros e. cbv beta. destruct (isinstance e IpcError); [by apply triple_ret|].
      apply triple_raise. intros s Hs. by exists (Closing false).
  - intros [].
    + eapply (triple_bind _ _ _ _ (fun _ => hanging_up)); [|intros _; by apply triple_ret].
      apply (triple_try _ _ _ _ _ (fun _ => hanging_up)); [apply serve_order|].
      intros e. destruct (isinstance e IpcError); [by apply triple_ret|by apply triple_raise].
    + by apply triple_ret.
Qed.
Lemma disconnect_leaves : triple stuck hanging_up (call PDisconnect) (fun _ => at_ph Leaving) (fun _ => at_ph Leaving).
Proof.
  intros s (ph & Hs & Hph). revert s Hs.
  by apply triple_process_call; destruct ph as [| | | | | | |request| |[]| | |].
Qed.
Lemma accept_order fuel :
  triple stuck (at_ph Idle) (accept_loop session_id profile_name pid pipe root_session fuel)
    (fun _ => at_ph Leaving) (fun _ => at_ph Leaving).
Proof.
  induction fuel as [|fuel IH]; [intros s Hs; by eapply at_phase_obeyed|]. cbn [accept_loop].
  eapply (triple_bind _ _ _ _ (fun ok s => if ok : bool then at_ph Connected s else at_ph Leaving s)).
  - apply (triple_try _ _ _ _ _ (fun _ => at_ph Leaving)).
    + eapply (triple_bind _ _ _ _ (fun _ => at_ph Connected)); [by apply triple_process_call|]. intros _. by apply triple_ret.
    + intros e. destruct (isinstance e IpcClosed); [by apply triple_ret|by apply triple_raise].
  - intros []; [|by apply triple_ret].
    eapply (triple_bind _ _ _ _ (fun again s => if again : bool then at_ph Idle s else at_ph Leaving s)).
    + eapply triple_cleanup; [apply session_order| |].
      * intros []; [by apply triple_process_call|apply disconnect_leaves].
      * intros e. apply disconnect_leaves.
    + intros []; [apply IH|by apply triple_ret].
Qed.
Lemma run_order token :
  triple stuck (at_ph Starting) (run_worker session_id profile_name pid pipe root_session token)
    (fun _ s => at_ph Over s ∨ at_ph Starting s) (fun _ s => at_ph Over s ∨ at_ph Starting s).
Proof.
  unfold run_worker. apply triple_lift_at; [|auto]. intros [] _. apply triple_lift_at; [|auto]. intros [] _.
  destruct (str_eqb token []); [apply triple_ret; auto|].
  eapply (triple_bind _ _ _ _ (fun _ => at_ph Prepared)); [apply triple_process_call; [done|auto..]|]. intros _.
  eapply (triple_bind _ _ _ _ (fun _ => at_ph Bound)); [apply triple_process_call; [done|auto..]|]. intros _.
  eapply (triple_bind _ _ _ _ (fun _ s => at_ph Over s ∨ at_ph Starting s)); [|intros _; by apply triple_ret].
  eapply (triple_cleanup _ _ _ _ (fun _ => at_ph Unlinked) _ (fun _ s => at_ph Unlinked s ∨ at_ph Unpublished s)).
  - eapply (triple_bind _ _ _ _ (fun _ => at_ph Idle)); [apply triple_process_call; [done|auto..]|]. intros _.
    apply triple_get. intros w Hw.
    eapply (triple_cleanup _ _ _ _ (fun _ => at_ph Leaving) _ (fun _ => at_ph Leaving)).
    + intros s ->. by apply accept_order.
    + intros _. apply triple_process_call; [done|auto..].
    + intros _. apply triple_process_call; [done|auto..].
  - intros _. apply triple_process_call; [done|auto..].
  - intros _ s [Hs|Hs]; revert s Hs; (apply triple_process_call; [done|auto..]).
Qed.
End lifetime.

(** ** The bounds of the loops never decide *)
Section bounds.
Context {U : UnicodeDB} {E S : Type} `{Env : WorkerEnv E S} `{Ops : SessionOps S}.
Variables (session_id profile_name : str) (pid : Z) (pipe : str) (root_session : bool).
Abbreviation serve' := (serve session_id profile_name pid pipe root_session).
Abbreviation accept' := (accept_loop session_id profile_name pid pipe root_session).

Lemma within_le k k' (s : io (service E S) process_call process_reply) : (k <= k')%nat → within k s → within k' s.
Proof. unfold within. lia. Qed.
Lemma spec_call_within k c : spec (within k) (call (E := E) (S := S) c) anything.
Proof. eapply spec_bind; [apply spec_ask_within|]. intros r _. by apply spec_ret. Qed.
Lemma spec_service_within {A} k (m : M (service E S) A) : spec (within k) (on_service m) anything.
Proof. intros s Hs. unfold on_service. by destruct (m (st s)) as [[a|e|] w]. Qed.
Lemma serve_within fuel k : spec (within k) (serve' fuel) anything.
Proof.
  induction fuel as [|fuel IH]; [by apply spec_hang|]. cbn [serve].
  eapply spec_bind; [|intros request _].
  { eapply spec_bind; [apply spec_ask_within|]. intros [|r] _; [by apply spec_hang|by apply (spec_ret _ anything)]. }
  eapply spec_bind; [apply spec_service_within|]. intros [[kind body] []] _; spec_step;
    (eapply spec_bind; [apply spec_call_within|]); intros _ _; [by apply spec_ret|].
  eapply spec_bind; [apply spec_service_within|]. intros v _.
  eapply spec_bind; [apply spec_call_within|]. intros _ _. apply IH.
Qed.
Lemma serve_agree k n m : (k < n)%nat → (k < m)%nat → agree k (serve' n) (serve' m).
Proof.
  revert k m. induction n as [|n IH]; intros k [|m] Hn Hm; [lia..|]. cbn [serve].
  apply agree_consumed with (R := fun _ => fewer k).
  { eapply triple_bind; [apply triple_ask_fewer|]. intros [|r] s Hs; [done|exact Hs]. }
  intros request k' Hk'.
  apply agree_bind; [apply agree_refl|apply spec_service_within|]. intros [[kind body] stopping].
  apply agree_bind; [apply agree_refl|by eapply spec_anything, spec_lift|]. intros response.
  apply agree_bind; [apply agree_refl|apply spec_call_within|]. intros _. destruct stopping; [apply agree_refl|].
  apply agree_bind; [apply agree_refl|apply spec_service_within|]. intros v.
  apply agree_bind; [apply agree_refl|apply spec_call_within|]. intros _. apply IH; lia.
Qed.
Lemma session_agree k n m : (k < n)%nat → (k < m)%nat →
  agree k (session_loop session_id profile_name pid pipe root_session n)
          (session_loop session_id profile_name pid pipe root_session m).
Proof.
  intros Hn Hm. unfold session_loop. apply agree_bind; [apply agree_refl| |].
  - apply spec_try.
    + eapply spec_bind; [apply spec_call_within|]. intros _ _. by apply spec_ret.
    + intros e. repeat spec_step; done.
  - intros []; [|apply agree_refl]. apply agree_bind; [by apply agree_try, serve_agree| |intros _; apply agree_refl].
    apply spec_try; [apply serve_within|]. intros e. repeat spec_step; done.
Qed.
Lemma session_within fuel k :
  spec (within k) (session_loop session_id profile_name pid pipe root_session fuel) anything.
Proof.
  eapply spec_bind.
  - apply spec_try with (Q := anything).
    + eapply spec_bind; [apply spec_call_within|]. intros _ _. by apply spec_ret.
    + intros e. repeat spec_step; done.
  - intros [] _; [|by spec_step].
    eapply spec_bind; [apply spec_try; [apply serve_within|]; intros e; repeat spec_step; done|].
    intros _ _. by spec_step.
Qed.
Lemma accept_agree k n m : (k < n)%nat → (k < m)%nat → agree k (accept' n) (accept' m).
Proof.
  revert k m. induction n as [|n IH]; intros k [|m] Hn Hm; [lia..|]. cbn [accept_loop].
  apply agree_consumed with (R := fun _ => fewer k).
  { apply triple_try with (R := fun _ => fewer k).
    - do 2 (eapply (triple_bind _ _ _ _ (fun _ => fewer k)); [|intros ?; by apply triple_ret]).
      apply triple_ask_fewer.
    - intros e. destruct (isinstance e IpcClosed); [by apply triple_ret|by apply triple_raise]. }
  intros [] k' Hk'; [|apply agree_refl].
  apply agree_bind; [apply agree_finally, session_agree; lia| |].
  - apply spec_finally; [apply session_within|apply spec_call_within].
  - intros []; [apply IH; lia|apply agree_refl].
Qed.
(** More than one round for each answer left changes nothing. *)
Lemma accept_bound_enough n s :
  (length (script s) < n)%nat → accept' n s = accept' (Datatypes.S (length (script s))) s.
Proof. intros Hn. apply (accept_agree (length (script s))); [lia|lia|]. by red. Qed.
End bounds.

(** Over any script, a worker process prepares, listens, publishes its status and
    accepts one connection at a time; it receives requests only after a
    handshake, answers each one once and under its own identifier before it
    publishes its state and receives the next; and whenever it ends after
    publishing, it has removed the status file and closed the listener. *)
Theorem worker_conversation {U : UnicodeDB} {E S : Type} `{Env : WorkerEnv E S} `{Ops : SessionOps S}
    session_id profile_name pid pipe root_session token (s : io (service E S) process_call process_reply) :
  match run_worker session_id profile_name pid pipe root_session token s with
  | (Hang, s') => obeyed allowed after (trace s) (script s) Starting s'
  | (_, s') => at_phase allowed after (trace s) (script s) Starting Over s' ∨
               at_phase allowed after (trace s) (script s) Starting Starting s'
  end.
Proof.
  pose proof (run_order session_id profile_name pid pipe root_session (trace s) (script s) token s (at_phase_start _ _ s _))
    as H.
  destruct (run_worker session_id profile_name pid pipe root_session token s) as [[n|e|] s']; exact H.
Qed.

(** A refused peer, then a broker that asks for an unknown operation and shuts
    the worker down *)
Definition sample_request (kind : str) : res process_reply := Ok (PRequest (Ipc.Env 3 (u "msg_00000001") kind [])).
Definition sample_answers : list (res process_reply) :=
  [Ok PDone; Ok PDone; Ok PDone; Ok PDone; Err (controlled IpcAuthenticationError (u "refused")); Ok PDone;
   Ok PDone; Ok PDone; sample_request (u "worker.reboot"); Ok PDone; Ok PDone;
   sample_request (u "worker.shutdown"); Ok PDone; Ok PDone; Ok PDone; Ok PDone].
Definition call_name (c : process_call) : str :=
  match c with
  | PPrepare => u "prepare" | PListen => u "listen" | PAccept => u "accept" | PHandshake => u "handshake"
  | PReceive => u "receive" | PSend e => message_type e | PPublish _ => u "publish"
  | PDisconnect => u "disconnect" | PUnlink => u "unlink" | PStopListening => u "stop"
  end.
Definition sample_run :=
  run_worker (U := ascii_db) (Env := simple_env CREATED) (Ops := simple_session (u "0"))
    (u "sess-0123456789abcdef") (u "web") 7 (u "pipe") false (u "token") (Io new_service sample_answers []).
Example sample_conversation :
  (sample_run.1, map call_name (trace sample_run.2)) =
  (Ret 0, [u "prepare"; u "listen"; u "publish"; u "accept"; u "handshake"; u "disconnect"; u "accept"; u "handshake";
           u "receive"; u "error"; u "publish"; u "receive"; u "worker.shutdown.result"; u "disconnect"; u "unlink";
           u "stop"]).
Proof. vm_compute. reflexivity. Qed.
