(* ===== verification/BrokerModel.v ===== *)
(** * BrokerModel: what the broker knows of its sessions
    (broker/model.py, broker/registry.py, broker/outcomes.py, broker/timeouts.py)

    The record of a session, the registry of records, the classification of
    requests whose effect is unknown once they were delivered, and how long a
    client waits for each request. *)
From S2P Require Import Prelude Errors Text TextFacts Value.

(** ** Records *)
Record SessionRecord := Rec {
  session_id : str; profile_name : str; worker_pid : Z; worker_pipe : str; record_state : str;
  created_at : Q; last_activity : Q; ssh_user : option str; effective_user : option str;
  root_session : bool; parent_session_id : option str }.
Definition with_state (r : SessionRecord) (state : str) (at_time : Q) : SessionRecord :=
  Rec (session_id r) (profile_name r) (worker_pid r) (worker_pipe r) state (created_at r) at_time
    (ssh_user r) (effective_user r) (root_session r) (parent_session_id r).
Definition with_open_status (r : SessionRecord) (ssh effective : str) (at_time : Q) : SessionRecord :=
  Rec (session_id r) (profile_name r) (worker_pid r) (worker_pipe r) (u "ready") (created_at r) at_time
    (Some ssh) (Some effective) (root_session r) (parent_session_id r).
Definition opt_str (o : option str) : value := match o with Some s => VStr s | None => VNone end.
Definition seconds (q : Q) : value := VFloat (Finite q).
Definition public_dict (r : SessionRecord) : dict value :=
  [(u "session_id", VStr (session_id r)); (u "profile_name", VStr (profile_name r));
   (u "worker_pid", VInt (worker_pid r)); (u "state", VStr (record_state r));
   (u "created_at", seconds (created_at r)); (u "last_activity", seconds (last_activity r));
   (u "ssh_user", opt_str (ssh_user r)); (u "effective_user", opt_str (effective_user r));
   (u "elevated", VBool (root_session r)); (u "root_session", VBool (root_session r));
   (u "parent_session_id", opt_str (parent_session_id r))].

(** ** The registry *)
Definition registry : Type := dict SessionRecord.
Definition broker_request_error (m : str) : exn := controlled BrokerRequestError m.
Definition session_not_found (id : str) : exn :=
  controlled SessionNotFound (u "session does not exist: " ++ id).
Definition add (g : registry) (r : SessionRecord) : res registry :=
  raise_if (dhas g (session_id r)) (broker_request_error (u "session already exists: " ++ session_id r));;
  Ok (dset g (session_id r) r).
Definition get (g : registry) (id : str) : res SessionRecord :=
  match dget g id with Some r => Ok r | None => Err (session_not_found id) end.
Definition replace (g : registry) (r : SessionRecord) : res registry :=
  raise_if (negb (dhas g (session_id r))) (session_not_found (session_id r));;
  Ok (dset g (session_id r) r).
Definition remove (g : registry) (id : str) : res (SessionRecord * registry) :=
  match dget g id with Some r => Ok (r, ddel g id) | None => Err (session_not_found id) end.
(** [sorted] is stable: a record goes before the later ones with its time. *)
Fixpoint insert_record (r : SessionRecord) (l : list SessionRecord) : list SessionRecord :=
  match l with
  | [] => [r]
  | x :: l => if qle (created_at r) (created_at x) then r :: x :: l else x :: insert_record r l
  end.
Definition sorted_records (l : list SessionRecord) : list SessionRecord := foldr insert_record [] l.
Definition list_records (g : registry) : list SessionRecord := sorted_records (map snd g).

(** ** Requests whose outcome can be unknown *)
Definition TERMINAL_MUTATIONS : list str := [u "start"; u "write"; u "interrupt"; u "resize"; u "close"].
Definition ELEVATION_MUTATIONS : list str :=
  [u "acquire"; u "release"; u "exec"; u "open_root_session"; u "close_root_session"].
Definition one_of (s : str) (l : list str) : bool := existsb (str_eqb s) l.
Definition when_mutating (payload : dict value) (mutations : list str) (code : str) : res (option str) :=
  mutating ← in_set (vget payload (u "action")) mutations;
  Ok (if mutating : bool then Some code else None).
Definition uncertain_outcome_code (message_type : str) (payload : option (dict value)) : res (option str) :=
  let body := default [] payload in
  if one_of message_type [u "session.exec"; u "worker.exec"] then Ok (Some (u "outcome_unknown"))
  else if one_of message_type [u "session.file_edit"; u "worker.file_edit"] then Ok (Some (u "file_outcome_unknown"))
  else if one_of message_type [u "session.elevation"; u "worker.elevation"] then
    when_mutating body ELEVATION_MUTATIONS (u "elevation_outcome_unknown")
  else if one_of message_type [u "session.terminal"; u "worker.terminal"] then
    when_mutating body TERMINAL_MUTATIONS (u "outcome_unknown")
  else if one_of message_type [u "session.create"; u "session.open"; u "session.close"; u "broker.shutdown";
                               u "worker.open"; u "worker.shutdown"] then Ok (Some (u "outcome_unknown"))
  else Ok None.

(** ** How long a client waits *)
Definition DEFAULT_BROKER_RESPONSE_TIMEOUT_SECONDS : Q := qz 15.
Definition SESSION_START_RESPONSE_TIMEOUT_SECONDS : Q := qz 210.
Definition TERMINAL_RESPONSE_TIMEOUT_SECONDS : Q := qz 80.
Definition WORKER_LONG_OPERATION_TIMEOUT_SECONDS : Q := qz 3726.
Definition LONG_OPERATION_RESPONSE_TIMEOUT_SECONDS : Q := qz 3728.
Definition broker_response_timeout (message_type : str) (payload : option (dict value)) : Q :=
  let body := default [] payload in
  if one_of message_type [u "session.exec"; u "session.files"; u "session.file_edit"]
  then LONG_OPERATION_RESPONSE_TIMEOUT_SECONDS
  else if str_eqb message_type (u "session.terminal") then TERMINAL_RESPONSE_TIMEOUT_SECONDS
  else if one_of message_type [u "session.create"; u "session.open"] then SESSION_START_RESPONSE_TIMEOUT_SECONDS
  else if str_eqb message_type (u "session.elevation") then
    let action := vget body (u "action") in
    if eq_str action (u "exec") then LONG_OPERATION_RESPONSE_TIMEOUT_SECONDS
    else if eq_str action (u "acquire") then LONG_OPERATION_RESPONSE_TIMEOUT_SECONDS
    else if eq_str action (u "open_root_session") then SESSION_START_RESPONSE_TIMEOUT_SECONDS
    else DEFAULT_BROKER_RESPONSE_TIMEOUT_SECONDS
  else DEFAULT_BROKER_RESPONSE_TIMEOUT_SECONDS.

(** ** Lemmas *)
Lemma insert_record_perm r l : insert_record r l ≡ₚ r :: l.
Proof.
  induction l as [|x l IH]; [done|]. cbn. destruct (qle _ _); [done|]. rewrite IH. apply Permutation_swap.
Qed.
Lemma sorted_records_perm l : sorted_records l ≡ₚ l.
Proof. induction l as [|r l IH]; [done|]. unfold sorted_records in *. cbn. by rewrite insert_record_perm, IH. Qed.
