(* ===== verification/Supervisor.v ===== *)
(** * Supervisor: the broker's worker processes (broker/supervisor.py)

    A handle is the process, the connection and the record of one worker; it is
    known here by a number, the process being its identity.  What a handle's
    process, connection and status file do, the clock and the random identifiers
    are the answers of a script. *)
From S2P Require Import Prelude Errors Text TextFacts Regex Value Prog ConfigModel Ipc BrokerModel.

(** ** State
    [workers] holds the record of every handle object, which a request that
    still runs can reach after the handle has left [handles]. *)
Record supervisor := Sup {
  sup_registry : registry; handles : dict Z; workers : gmap Z SessionRecord; next_worker : Z }.
Definition new_supervisor : supervisor := Sup [] [] ∅ 0.

Inductive sup_call : Type :=
  | SNewId | SToken                             (* new_session_id(), secrets.token_urlsafe(32) *)
  | SMessageId                                  (* uuid.uuid4().hex of Envelope.create *)
  | SUnlink (id : str)                          (* worker_status_path(id).unlink(missing_ok=True) *)
  | SReadStatus (id : str)                      (* read_json(worker_status_path(id)) *)
  | SSpawn (w : Z) (arguments : list str)
  | SPoll (w : Z) | STerminate (w : Z) | SKill (w : Z) | SWait (w : Z) (timeout : Q)
  | SConnect (w : Z) (pipe : str) (timeout : Q)
  | SHandshake (w : Z) (token : str) (timeout : Q)
  | SSend (w : Z) (e : Envelope) | SReceive (w : Z) (timeout : option Q) | SClose (w : Z)
  | STime | SMonotonic | SSleep.
Inductive sup_reply : Type :=
  | ADone
  | AText (s : str)
  | ATime (q : Q)
  | AExit (code : option Z)
  | ADocument (d : dict value)
  | AMessage (e : Envelope).
Definition a_text (r : sup_reply) : option str := match r with AText s => Some s | _ => None end.
Definition a_time (r : sup_reply) : option Q := match r with ATime q => Some q | _ => None end.
Definition a_exit (r : sup_reply) : option (option Z) := match r with AExit c => Some c | _ => None end.
Definition a_document (r : sup_reply) : option (dict value) := match r with ADocument d => Some d | _ => None end.
Definition a_message (r : sup_reply) : option Envelope := match r with AMessage e => Some e | _ => None end.

Abbreviation P := (M (io supervisor sup_call sup_reply)).
Definition call (c : sup_call) : P unit := ask c;; mret tt.
Definition expect {A} (f : sup_reply → option A) (c : sup_call) : P A :=
  r ← ask c; match f r with Some a => mret a | None => hang end.
(** A block that runs under the supervisor's lock *)
Definition locked {A} (f : supervisor → res A * supervisor) : P A := fun s =>
  let '(r, x) := f (st s) in (match r with Ok a => Ret a | Err e => Raise e end, Io x (script s) (trace s)).
Definition handle_record (w : Z) : P SessionRecord :=
  x ← state; match workers x !! w with Some r => mret r | None => hang end.
Definition set_record (w : Z) (r : SessionRecord) : P unit :=
  update (fun x => Sup (sup_registry x) (handles x) (<[w := r]> (workers x)) (next_worker x)).

(** ** The locked blocks *)
Definition register (id : str) (w : Z) (r : SessionRecord) (x : supervisor) : res unit * supervisor :=
  let h := dset (handles x) id w in
  match add (sup_registry x) r with
  | Ok g => (Ok tt, Sup g h (workers x) (next_worker x))
  | Err e => (Err e, Sup (sup_registry x) h (workers x) (next_worker x))
  end.
Definition is_handle (id : str) (w : Z) (x : supervisor) : bool := bool_decide (dget (handles x) id = Some w).
Definition store_record (w : Z) (r : SessionRecord) (x : supervisor) : res unit * supervisor :=
  let ws := <[w := r]> (workers x) in
  match replace (sup_registry x) r with
  | Ok g => (Ok tt, Sup g (handles x) ws (next_worker x))
  | Err e => (Err e, Sup (sup_registry x) (handles x) ws (next_worker x))
  end.
Definition commit_state (id : str) (w : Z) (updated : SessionRecord) (x : supervisor) : res unit * supervisor :=
  if is_handle id w x then store_record w updated x else (Ok tt, x).
Definition forget (id : str) (w : Z) (x : supervisor) : res unit * supervisor :=
  (Ok tt, if is_handle id w x then Sup (sup_registry x) (ddel (handles x) id) (workers x) (next_worker x) else x).
Definition find_handle (id : str) (x : supervisor) : res Z * supervisor :=
  (match dget (handles x) id with Some w => Ok w | None => Err (session_not_found id) end, x).
(** [shutdown] takes a handle away, or removes the record of a lost session. *)
Definition pop_handle (id : str) (x : supervisor) : res (Z + SessionRecord) * supervisor :=
  match dget (handles x) id with
  | Some w => (Ok (inl w), Sup (sup_registry x) (ddel (handles x) id) (workers x) (next_worker x))
  | None =>
      match get (sup_registry x) id with
      | Err e => (Err e, x)
      | Ok r => if str_eqb (record_state r) (u "lost")
                then (Ok (inr r), Sup (ddel (sup_registry x) id) (handles x) (workers x) (next_worker x))
                else (Err (session_not_found id), x)
      end
  end.
Definition remove_record (id : str) (x : supervisor) : res SessionRecord * supervisor :=
  match remove (sup_registry x) id with
  | Ok (r, g) => (Ok r, Sup g (handles x) (workers x) (next_worker x))
  | Err e => (Err e, x)
  end.

(** ** One request to a worker *)
Definition lost_message : str :=
  u "The worker connection became invalid after request delivery; the operation must not be retried automatically.".
Definition transport_error (message_type : str) (payload : option (dict value)) : res exn :=
  code ← uncertain_outcome_code message_type payload;
  Ok (worker_operation_error (default (u "worker_ipc_failed") code) lost_message (Some (u "lost"))).
Inductive verdict : Type :=
  | Accepted
  | Refused (e : exn)
  | Invalid.
(** What a response says: it belongs to the request and reports a result, it
    reports an error, or it breaks the protocol. *)
Definition judge (message_type request_id : str) (response : Envelope) : verdict :=
  if negb (str_eqb (message_id response) request_id) then Invalid
  else if str_eqb (Ipc.message_type response) (u "error") then
    match get_or (VStr (u "worker_error")) (payload response) (u "code"),
          get_or (VStr (u "worker operation failed")) (payload response) (u "message"),
          vget (payload response) (u "state") with
    | VStr code, VStr message, VNone => Refused (worker_operation_error code message None)
    | VStr code, VStr message, VStr s => Refused (worker_operation_error code message (Some s))
    | _, _, _ => Invalid
    end
  else if str_eqb (Ipc.message_type response) (message_type ++ u ".result") then Accepted
  else Invalid.
Section supervisor.
Context {U : UnicodeDB}.
Definition fail_transport (w : Z) (message_type : str) (payload : option (dict value)) : P Envelope :=
  call (SClose w);; e ← lift (transport_error message_type payload); raise e.
Definition handle_request (w : Z) (message_type : str) (payload : option (dict value)) (timeout : option Q) :
    P Envelope :=
  fresh ← expect a_text SMessageId;
  request ← lift (create fresh message_type payload None);
  answer ← try_except (call (SSend w request);; r ← expect a_message (SReceive w timeout); mret (Some r))
             (fun e => if isinstance e IpcError then mret None else raise e);
  match answer with
  | None => fail_transport w message_type payload
  | Some response =>
      match judge message_type (message_id request) response with
      | Accepted => mret response
      | Refused e => raise e
      | Invalid => fail_transport w message_type payload
      end
  end.

(** ** Processes *)
Definition terminate_process (w : Z) : P unit :=
  code ← expect a_exit (SPoll w);
  match code with
  | Some _ => mret tt
  | None =>
      call (STerminate w);;
      try_except (call (SWait w (qz 5)))
        (fun e => match e with
                  | Builtin TimeoutExpired _ => call (SKill w);; call (SWait w (qz 5))
                  | _ => raise e
                  end)
  end.
Fixpoint wait_loop (fuel : nat) (id : str) (w : Z) (deadline : Q) : P (dict value) :=
  match fuel with
  | O => hang
  | S fuel =>
      now ← expect a_time SMonotonic;
      if qlt now deadline then
        code ← expect a_exit (SPoll w);
        match code with
        | Some c => raise (broker_request_error (u "worker exited during startup with code " ++ show_int c))
        | None =>
            status ← try_except (d ← expect a_document (SReadStatus id); mret (Some d))
                       (fun e => match e with
                                 | Builtin FileNotFoundError _ => call SSleep;; mret None
                                 | _ => raise e
                                 end);
            match status with Some d => mret d | None => wait_loop fuel id w deadline end
        end
      else raise (broker_request_error (u "worker did not publish startup status"))
  end.
Definition wait_for_status (id : str) (w : Z) (timeout : Q) : P (dict value) :=
  now ← expect a_time SMonotonic;
  s ← Prelude.get; wait_loop (S (length (script s))) id w (qadd now timeout).
Definition STATUS_FIELDS : list str :=
  [u "session_id"; u "profile_name"; u "pid"; u "pipe"; u "protocol_version"; u "state"; u "root_session"].
(** The process number and the pipe of a status the worker may publish *)
Definition validate_status (d : dict value) (id name : str) (root : bool) : res (Z * str) :=
  raise_if (negb (same_set (dkeys d) STATUS_FIELDS)) (broker_request_error (u "worker status fields are invalid"));;
  raise_if (negb (eq_str (vget d (u "session_id")) id) || negb (eq_str (vget d (u "profile_name")) name)
            || negb (eq_int (vget d (u "protocol_version")) WORKER_PROTOCOL_VERSION)
            || negb (eq_str (vget d (u "state")) (u "created"))
            || match vget d (u "root_session") with VBool b => negb (Bool.eqb b root) | _ => true end)
    (broker_request_error (u "worker status identity is invalid"));;
  match vget d (u "pid"), vget d (u "pipe") with
  | VInt pid, VStr pipe =>
      raise_if (pid <? 1) (broker_request_error (u "worker process details are invalid"));; Ok (pid, pipe)
  | _, _ => Err (broker_request_error (u "worker process details are invalid"))
  end.

(** ** Starting a worker *)
Definition worker_arguments (executable runtime id name : str) (root : bool) : list str :=
  [executable; u "-m"; u "codex_serverops_mcp.worker.process"; u "--session-id"; id; u "--profile"; name;
   u "--runtime"; runtime] ++ (if root then [u "--root-session"] else []).
Definition check_parent (open_session root : bool) (parent : option str) : res unit :=
  if root then
    match parent with
    | Some p => raise_if (negb open_session) (value_error (u "a root worker requires an open parent session"));;
                validate_session_id p
    | None => Err (value_error (u "a root worker requires an open parent session"))
    end
  else raise_if (is_some parent) (value_error (u "a normal worker cannot have a parent session")).
(** [except BaseException]: undo what was started. *)
Definition abandon {A} (id : str) (w : Z) (connected handled : bool) (e : exn) : P A :=
  (if handled then
     suppress (fun e => isinstance e BrokerRequestError || isinstance e IpcError)
       (handle_request w (u "worker.shutdown") None (Some (qz 5));; mret tt)
   else mret tt);;
  (if connected then call (SClose w) else mret tt);;
  terminate_process w;;
  call (SUnlink id);;
  raise e.
Definition connect_worker (id name : str) (w : Z) (timeout : Q) (root : bool) : P (Z * str) :=
  status ← wait_for_status id w timeout;
  details ← lift (validate_status status id name root);
  call (SConnect w details.2 timeout);;
  mret details.
Definition text_or (v : value) (message : str) : res str :=
  match v with
  | VStr (c :: s) => Ok (c :: s)
  | _ => Err (broker_request_error message)
  end.
Definition open_worker (w : Z) (record : SessionRecord) : P SessionRecord :=
  opened ← handle_request w (u "worker.open") None (Some (qz 190));
  lift (raise_if (negb (eq_str (vget (payload opened) (u "state")) (u "ready")))
          (broker_request_error (u "worker did not reach the ready state")));;
  effective ← lift (text_or (vget (payload opened) (u "effective_user")) (u "worker returned no effective user"));
  ssh ← lift (text_or (vget (payload opened) (u "ssh_user")) (u "worker returned no SSH user"));
  now ← expect a_time STime;
  let record := with_open_status record ssh effective now in
  set_record w record;;
  mret record.
Definition bring_up (id : str) (w : Z) (record : SessionRecord) (open_session : bool) : P SessionRecord :=
  response ← handle_request w (u "worker.ping") None (Some (qz 5));
  lift (raise_if (negb (eq_int (vget (payload response) (u "pid")) (worker_pid record)))
          (broker_request_error (u "worker PID verification failed")));;
  record ← (if open_session : bool then open_worker w record else mret record);
  locked (register id w record);;
  mret record.
(** [executable] is [sys.executable] and [runtime] the runtime directory. *)
Definition start (executable runtime name : str) (timeout : Q) (open_session root : bool) (parent : option str) :
    P SessionRecord :=
  lift (validate_profile_name name);;
  lift (check_parent open_session root parent);;
  id ← expect a_text SNewId;
  token ← expect a_text SToken;
  lift (validate_session_id id);;
  call (SUnlink id);;
  x ← state;
  let w := next_worker x in
  update (fun x => Sup (sup_registry x) (handles x) (workers x) (next_worker x + 1));;
  call (SSpawn w (worker_arguments executable runtime id name root));;
  details ← try_except (connect_worker id name w timeout root) (abandon id w false false);
  record ← try_except
    (call (SHandshake w token timeout);;
     now ← expect a_time STime;
     mret (Rec id name details.1 details.2 (u "created") now now None None root parent))
    (abandon id w true false);
  try_except (set_record w record;; bring_up id w record open_session) (abandon id w true true).

(** ** Sessions *)
Definition update_record_state (id : str) (w : Z) (state : str) : P unit :=
  r ← handle_record w;
  now ← expect a_time STime;
  locked (commit_state id w (with_state r state now)).
Definition invalidate_handle (id : str) (w : Z) : P unit :=
  locked (forget id w);;
  suppress is_exception (call (SClose w));;
  suppress is_exception (terminate_process w);;
  suppress is_os_error (call (SUnlink id)).
Definition error_state (e : exn) : option str := match e with Controlled _ _ _ s => s | _ => None end.
Definition request_on (id : str) (w : Z) (message_type : str) (payload : option (dict value)) (timeout : option Q) :
    P (dict value) :=
  response ← try_except (handle_request w message_type payload timeout)
    (fun e =>
       if isinstance e WorkerOperationError then
         match error_state e with
         | Some s => update_record_state id w s;;
                     (if str_eqb s (u "lost") then invalidate_handle id w else mret tt)
         | None => mret tt
         end;;
         raise e
       else raise e);
  let result := Ipc.payload response in
  r ← handle_record w;
  match vget result (u "state") with
  | VStr s => if str_eqb s (record_state r) then mret tt else update_record_state id w s
  | _ => mret tt
  end;;
  mret result.
Definition request (id message_type : str) (payload : option (dict value)) (timeout : option Q) : P (dict value) :=
  w ← locked (find_handle id); request_on id w message_type payload timeout.
Definition shutdown (id : str) : P SessionRecord :=
  popped ← locked (pop_handle id);
  match popped with
  | inr r => mret r
  | inl w =>
      try_finally
        (try_except
           (code ← expect a_exit (SPoll w);
            match code with
            | None => handle_request w (u "worker.shutdown") None (Some (qz 5));; mret tt
            | Some _ => mret tt
            end)
           (fun e => if isinstance e BrokerRequestError || isinstance e IpcError then mret tt else raise e))
        (call (SClose w);;
         try_except (call (SWait w (qz 5)))
           (fun e => match e with Builtin TimeoutExpired _ => terminate_process w | _ => raise e end);;
         call (SUnlink id));;
      locked (remove_record id)
  end.
Definition close_all : P unit :=
  x ← state;
  for_each (dkeys (handles x)) (fun id =>
    suppress (fun e => isinstance e SessionNotFound) (shutdown id;; mret tt)).
Definition refresh_dead_workers : P unit :=
  x ← state;
  for_each (handles x) (fun entry =>
    code ← expect a_exit (SPoll entry.2);
    r ← handle_record entry.2;
    match code with
    | Some _ => if str_eqb (record_state r) (u "lost") then mret tt
                else now ← expect a_time STime; locked (store_record entry.2 (with_state r (u "lost") now))
    | None => mret tt
    end).
Definition list_sessions : P (list SessionRecord) :=
  refresh_dead_workers;; x ← state; mret (list_records (sup_registry x)).
Definition get_session (id : str) : P SessionRecord :=
  refresh_dead_workers;; x ← state; lift (get (sup_registry x) id).
End supervisor.

(** ** What one request does *)
Section requests.
Context {U : UnicodeDB}.
Abbreviation IO := (io supervisor sup_call sup_reply).
(** [x] comes after [s] by the calls [cs]; the supervisor did not change. *)
Definition after (s : IO) (cs : list sup_call) (x : IO) : Prop :=
  trace x = trace s ++ cs ∧ st x = st s ∧ ∃ used, script s = used ++ script x.
(** The last call since [s] was [c], and raised [e]. *)
Definition broke_off (s : IO) (c : sup_call) (e : exn) (x : IO) : Prop :=
  ∃ cs used, trace x = trace s ++ cs ++ [c] ∧ script s = used ++ [Err e] ++ script x.
Definition raised (s : IO) (cs : list sup_call) (c : sup_call) (e : exn) (x : IO) : Prop :=
  after s (cs ++ [c]) x ∧ broke_off s c e x.
Lemma broke_off_script s c e x : broke_off s c e x → Err e ∈ script s.
Proof. intros (cs & used & _ & ->). set_solver. Qed.
Lemma after_nil s : after s [] s.
Proof. split; [by rewrite app_nil_r|]. split; [done|]. by exists []. Qed.
Lemma triple_ask_after s cs c :
  triple (after s (cs ++ [c])) (after s cs) (ask c) (fun _ => after s (cs ++ [c])) (raised s cs c).
Proof.
  intros x (Ht & Hs & used & Hu). unfold ask.
  assert (∀ rest a, script x = a :: rest → after s (cs ++ [c]) (Io (st x) rest (trace x ++ [c]))) as Hnext.
  { intros rest a E. split; [cbn; by rewrite Ht, app_assoc|]. split; [done|]. exists (used ++ [a]). cbn.
    by rewrite Hu, E, <- app_assoc. }
  destruct (script x) as [|[a|e] rest] eqn:E.
  - split; [cbn; by rewrite Ht, app_assoc|]. split; [done|]. exists used. by rewrite Hu.
  - by eapply Hnext.
  - split; [by eapply Hnext|]. exists cs, used. cbn. split; [by rewrite Ht, app_assoc|]. by rewrite Hu.
Qed.
Lemma triple_call_after s cs c (I : IO → Prop) (R : exn → IO → Prop) :
  (∀ x, after s (cs ++ [c]) x → I x) → (∀ e x, raised s cs c e x → R e x) →
  triple I (after s cs) (call c) (fun _ => after s (cs ++ [c])) R.
Proof.
  intros HI HR. eapply (triple_bind _ _ _ _ (fun _ => after s (cs ++ [c]))); [|intros a; by apply triple_ret].
  eapply triple_conseq; [apply triple_ask_after|done|done|exact HR|exact HI].
Qed.
Lemma triple_expect_after {A} (f : sup_reply → option A) s cs c (I : IO → Prop) (R : exn → IO → Prop) :
  (∀ x, after s (cs ++ [c]) x → I x) → (∀ e x, raised s cs c e x → R e x) →
  triple I (after s cs) (expect f c) (fun _ => after s (cs ++ [c])) R.
Proof.
  intros HI HR. eapply (triple_bind _ _ _ _ (fun _ => after s (cs ++ [c]))).
  - eapply triple_conseq; [apply triple_ask_after|done|done|exact HR|exact HI].
  - intros a. destruct (f a); [by apply triple_ret|]. exact HI.
Qed.

(** What is sent, and where: a request is delivered at most once, as it is. *)
Definition deliveries (cs : list sup_call) : list (Z * Envelope) :=
  omap (fun c => match c with SSend w e => Some (w, e) | _ => None end) cs.
Definition at_most_once (w : Z) (message_type : str) (payload : option (dict value)) (cs : list sup_call) : Prop :=
  deliveries cs = [] ∨
  ∃ request, deliveries cs = [(w, request)] ∧ Ipc.message_type request = message_type ∧
             Ipc.payload request = default [] payload.
Definition delivered_once (w : Z) (message_type : str) (payload : option (dict value)) (s x : IO) : Prop :=
  ∃ cs, after s cs x ∧ at_most_once w message_type payload cs.
(** The error is the worker's own, for this request; or the connection was
    closed and the error is the classification of the request. *)
Definition explained (w : Z) (message_type : str) (payload : option (dict value)) (timeout : option Q)
    (cs : list sup_call) (e : exn) : Prop :=
  (∃ request response,
     cs = [SMessageId; SSend w request; SReceive w timeout] ∧
     judge message_type (message_id request) response = Refused e) ∨
  (∃ cs', cs = cs' ++ [SClose w] ∧ transport_error message_type payload = Ok e).
(** Any other error than the worker's ends the request with the call that raised
    it, or comes from building the request or from classifying it. *)
Definition request_call (w : Z) (c : sup_call) : Prop :=
  match c with SMessageId => True | SSend v _ | SReceive v _ | SClose v => v = w | _ => False end.
Definition request_error (w : Z) (message_type : str) (payload : option (dict value)) (timeout : option Q)
    (s : IO) (e : exn) (x : IO) : Prop :=
  ∃ cs, after s cs x ∧ at_most_once w message_type payload cs ∧
    (explained w message_type payload timeout cs e ∨ (∃ c, request_call w c ∧ broke_off s c e x) ∨
     transport_error message_type payload = Err e ∨ ∃ fresh, create fresh message_type payload None = Err e).
Definition request_result (w : Z) (message_type : str) (payload : option (dict value)) (timeout : option Q) (s : IO) (response : Envelope) (x : IO) : Prop :=
  ∃ request, Ipc.message_type request = message_type ∧ Ipc.payload request = default [] payload ∧
             judge message_type (message_id request) response = Accepted ∧
             after s [SMessageId; SSend w request; SReceive w timeout] x.

Lemma fail_transport_error w message_type payload timeout s cs :
  at_most_once w message_type payload cs →
  triple (delivered_once w message_type payload s) (after s cs) (fail_transport w message_type payload) (fun _ _ => False)
    (request_error w message_type payload timeout s).
Proof.
  intros Hc. assert (at_most_once w message_type payload (cs ++ [SClose w])) as Hc'.
  { unfold at_most_once, deliveries in *. by rewrite omap_app, app_nil_r. }
  unfold fail_transport. eapply (triple_bind _ _ _ _ (fun _ => after s (cs ++ [SClose w]))).
  - apply triple_call_after; [intros x Hx; by exists (cs ++ [SClose w])|].
    intros e x [Hx He]. exists (cs ++ [SClose w]). split; [done|]. split; [done|]. right; left. by exists (SClose w).
  - intros _ x Hx. destruct (transport_error message_type payload) as [e|e] eqn:E; cbn.
    + exists (cs ++ [SClose w]). split; [done|]. split; [done|]. left. right. by exists cs.
    + exists (cs ++ [SClose w]). auto 8.
Qed.
Lemma create_Ok fresh kind body id e :
  create fresh kind body id = Ok e → Ipc.message_type e = kind ∧ Ipc.payload e = default [] body.
Proof.
  intros H. unfold create, envelope, match_text in H. inv_ok H. apply Ok_inj in H as <-.
  inv_ok Ha0. inv_ok Ha1. apply Ok_inj in Ha0, Ha1. by subst.
Qed.
Lemma handle_request_ends w message_type payload timeout s :
  triple (delivered_once w message_type payload s) (after s []) (handle_request w message_type payload timeout)
    (request_result w message_type payload timeout s) (request_error w message_type payload timeout s).
Proof.
  assert (∀ cs x, after s cs x → at_most_once w message_type payload cs → delivered_once w message_type payload s x)
    as Hd by (intros cs x; by exists cs).
  assert (∀ cs c e x, raised s cs c e x → request_call w c → at_most_once w message_type payload (cs ++ [c]) →
            request_error w message_type payload timeout s e x) as Hr.
  { intros cs c e x [Hx He] Hq Hc. exists (cs ++ [c]). split; [done|]. split; [done|]. right; left. by exists c. }
  unfold handle_request. eapply (triple_bind _ _ _ _ (fun _ => after s [SMessageId])).
  { apply (triple_expect_after _ s []); [intros x Hx; eapply Hd; [exact Hx|by left]|].
    intros e x Hx. eapply Hr; [exact Hx|done|by left]. }
  intros fresh. destruct (create fresh message_type payload None) as [request|e] eqn:Hcreate.
  2: { apply triple_raise. intros x Hx. exists [SMessageId]. split; [done|]. split; [by left|]. eauto 8. }
  apply create_Ok in Hcreate as Hbody.
  change (lift (Ok request) ≫= ?f) with (f request). cbv beta.
  set (cs := [SMessageId; SSend w request]).
  assert (at_most_once w message_type payload cs) as Hcs by (right; by exists request).
  assert (at_most_once w message_type payload (cs ++ [SReceive w timeout])) as Hcs' by (right; by exists request).
  eapply (triple_bind _ _ _ _ (fun answer x =>
    match answer with
    | Some r => after s (cs ++ [SReceive w timeout]) x
    | None => after s cs x ∨ after s (cs ++ [SReceive w timeout]) x
    end)).
  - apply (triple_try _ _ _ _ _ (fun e x => raised s [SMessageId] (SSend w request) e x ∨ raised s cs (SReceive w timeout) e x)).
    + eapply (triple_bind _ _ _ _ (fun _ => after s cs)).
      { apply (triple_call_after s [SMessageId]); [intros x Hx; by eapply Hd|by left]. }
      intros _. eapply (triple_bind _ _ _ _ (fun _ => after s (cs ++ [SReceive w timeout]))).
      { apply triple_expect_after; [intros x Hx; by eapply Hd|by right]. }
      intros r. by apply triple_ret.
    + intros e. destruct (isinstance e IpcError).
      * apply triple_ret. intros x [[Hx _]|[Hx _]]; auto.
      * apply triple_raise. intros x [Hx|Hx]; by eapply Hr.
  - assert (∀ Q cs', cs' = cs ∨ cs' = cs ++ [SReceive w timeout] →
      triple (delivered_once w message_type payload s) (after s cs') (fail_transport w message_type payload) Q
        (request_error w message_type payload timeout s)) as Hfail.
    { intros Q cs' Hcs''. eapply triple_conseq; [apply (fail_transport_error w message_type payload timeout s cs')|..];
        try done. by destruct Hcs'' as [->| ->]. }
    intros [response|].
    + destruct (judge message_type (message_id request) response) as [|e|] eqn:Hj.
      * apply triple_ret. intros x Hx. destruct Hbody. by exists request.
      * apply triple_raise. intros x Hx. exists (cs ++ [SReceive w timeout]). split; [done|]. split; [done|].
        left. left. by exists request, response.
      * apply Hfail. by right.
    + intros x [Hx|Hx]; (eapply Hfail; [|exact Hx]); auto.
Qed.

(** Programs that send nothing *)
Definition sent (s : IO) (D : list (Z * Envelope)) (x : IO) : Prop :=
  ∃ cs, trace x = trace s ++ cs ∧ deliveries cs = D.
Lemma sent_call s D c : (∀ w e, c ≠ SSend w e) → spec (sent s D) (ask c) anything.
Proof.
  intros Hc x (cs & Ht & Hd). unfold ask.
  assert (∀ y, trace y = trace x ++ [c] → sent s D y) as Hnext.
  { intros y Hy. exists (cs ++ [c]). split; [by rewrite Hy, Ht, app_assoc|]. unfold deliveries in *.
    rewrite omap_app, Hd. cbn. destruct c; try (by rewrite app_nil_r). by edestruct Hc. }
  destruct (script x) as [|[a|e] rest]; [|split; [done|]|]; by apply Hnext.
Qed.
End requests.

(** ** A well-formed supervisor
    Every handle has a record of its own, and the registry knows its session. *)
Record supervisor_wf (x : supervisor) : Prop := {
  wf_handles : dwf (handles x);
  wf_registry : dwf (sup_registry x);
  wf_ids : ∀ id r, dget (sup_registry x) id = Some r → session_id r = id;
  wf_live : ∀ id w, dget (handles x) id = Some w →
    is_Some (dget (sup_registry x) id) ∧ w < next_worker x ∧ ∃ r, workers x !! w = Some r ∧ session_id r = id;
  wf_own : ∀ id id' w, dget (handles x) id = Some w → dget (handles x) id' = Some w → id = id';
}.
Lemma new_supervisor_wf : supervisor_wf new_supervisor.
Proof. split; [constructor|constructor|done..]. Qed.
Lemma dget_ddel_Some {A} (d : dict A) k k' v : dwf d → dget (ddel d k) k' = Some v → k' ≠ k ∧ dget d k' = Some v.
Proof.
  intros Hd H. destruct (decide (k = k')) as [->|Hk]; [by rewrite dget_ddel_eq in H|].
  by rewrite dget_ddel_ne in H.
Qed.
Lemma dget_dset_Some {A} (d : dict A) k v k' v' :
  dget (dset d k v) k' = Some v' → k' = k ∧ v' = v ∨ k' ≠ k ∧ dget d k' = Some v'.
Proof.
  destruct (decide (k = k')) as [->|Hk]; [rewrite dget_dset_eq|rewrite dget_dset_ne by done]; [|naive_solver].
  intros [= ->]. auto.
Qed.
Lemma forget_wf id w x : supervisor_wf x → supervisor_wf (forget id w x).2.
Proof.
  intros Hx. cbn. destruct (is_handle id w x); [|done]. destruct Hx as [H1 H2 H3 H4 H5].
  split; cbn; [by apply dwf_ddel|done|done|..].
  - intros id' w' [_ H]%dget_ddel_Some; [|done]. by apply H4.
  - intros i i' w' [_ Hi]%dget_ddel_Some [_ Hi']%dget_ddel_Some; [|done..]. by eapply H5.
Qed.
Lemma pop_handle_wf id x : supervisor_wf x → supervisor_wf (pop_handle id x).2.
Proof.
  intros Hx. unfold pop_handle. destruct (dget (handles x) id) as [w|] eqn:E.
  - destruct Hx as [H1 H2 H3 H4 H5]. split; cbn; [by apply dwf_ddel|done|done|..].
    + intros id' w' [_ H]%dget_ddel_Some; [|done]. by apply H4.
    + intros i i' w' [_ Hi]%dget_ddel_Some [_ Hi']%dget_ddel_Some; [|done..]. by eapply H5.
  - destruct (get _ id) as [r|e]; [|done]. destruct (str_eqb _ _); [|done]. destruct Hx as [H1 H2 H3 H4 H5].
    split; cbn; [done|by apply dwf_ddel| |..|done].
    + intros id' r' [_ H]%dget_ddel_Some; [|done]. by apply H3.
    + intros id' w' H. destruct (H4 _ _ H) as [Hr ?]. split; [|done]. rewrite dget_ddel_ne; [done|]. congruence.
Qed.
Lemma store_record_wf w r x :
  supervisor_wf x → (∀ id, dget (handles x) id = Some w → session_id r = id) → supervisor_wf (store_record w r x).2.
Proof.
  intros [H1 H2 H3 H4 H5] Hr. unfold store_record, replace.
  assert (∀ g, (∀ id, is_Some (dget (sup_registry x) id) → is_Some (dget g id)) → dwf g →
    (∀ id r, dget g id = Some r → session_id r = id) →
    supervisor_wf (Sup g (handles x) (<[w:=r]> (workers x)) (next_worker x))) as Hg.
  { intros g Hg Hd Hi. split; cbn; [done..| |done]. intros id w' H. destruct (H4 _ _ H) as (Hs & Hn & r' & Hw & Hid).
    split; [by apply Hg|]. split; [done|]. destruct (decide (w' = w)) as [->|Hne].
    - exists r. rewrite lookup_insert_eq. split; [done|]. by apply Hr.
    - exists r'. by rewrite lookup_insert_ne. }
  destruct (negb _); cbn; [by apply Hg|]. apply Hg; [|by apply dwf_dset|].
  - intros id Hs. destruct (decide (session_id r = id)) as [->|]; [by rewrite dget_dset_eq|by rewrite dget_dset_ne].
  - intros id r' [[-> ->]|[_ H]]%dget_dset_Some; [done|by apply H3].
Qed.
Lemma commit_state_wf id w r x :
  supervisor_wf x → session_id r = id → supervisor_wf (commit_state id w r x).2.
Proof.
  intros Hx Hr. unfold commit_state, is_handle. case_bool_decide as E; [|done]. apply store_record_wf; [done|].
  intros id' H. rewrite Hr. by eapply (wf_own _ Hx).
Qed.
Lemma remove_record_wf id x :
  supervisor_wf x → dget (handles x) id = None → supervisor_wf (remove_record id x).2.
Proof.
  intros Hx Hn. unfold remove_record, remove. destruct (dget (sup_registry x) id) as [r|] eqn:E; [|done].
  destruct Hx as [H1 H2 H3 H4 H5]. split; cbn; [done|by apply dwf_ddel| |..|done].
  - intros id' r' [_ H]%dget_ddel_Some; [|done]. by apply H3.
  - intros id' w' H. destruct (H4 _ _ H) as [Hr ?]. split; [|done]. rewrite dget_ddel_ne; [done|]. congruence.
Qed.
Lemma register_wf id w r x :
  supervisor_wf x → session_id r = id → w < next_worker x → workers x !! w = Some r →
  (∀ i, dget (handles x) i ≠ Some w) → supervisor_wf (register id w r x).2.
Proof.
  intros [H1 H2 H3 H4 H5] Hr Hn Hw Hfree. unfold register, add.
  assert (∀ g, (∀ i, is_Some (dget (sup_registry x) i) → is_Some (dget g i)) → is_Some (dget g id) → dwf g →
    (∀ i r, dget g i = Some r → session_id r = i) →
    supervisor_wf (Sup g (dset (handles x) id w) (workers x) (next_worker x))) as Hg.
  { intros g Hg Hid Hd Hi. split; cbn; [by apply dwf_dset|done|done|..].
    - intros i w' [[-> ->]|[_ H]]%dget_dset_Some; [eauto|]. destruct (H4 _ _ H) as (? & ? & ?). auto.
    - intros i i' w' [[-> ->]|[? Hi1]]%dget_dset_Some [[-> Hw']|[? Hi2]]%dget_dset_Some; subst; try done.
      + by destruct (Hfree i').
      + by destruct (Hfree i).
      + by eapply H5. }
  destruct (dhas (sup_registry x) (session_id r)) eqn:E; cbn.
  - apply Hg; [done| |done..]. unfold dhas in E. apply bool_decide_eq_true in E. rewrite Hr in E.
    destruct (dget (sup_registry x) id) eqn:D; [done|]. by apply dget_None in D.
  - apply Hg; [|by rewrite Hr, dget_dset_eq|by apply dwf_dset|].
    + intros i Hs. destruct (decide (session_id r = i)) as [->|]; [by rewrite dget_dset_eq|by rewrite dget_dset_ne].
    + intros i r' [[-> ->]|[_ H]]%dget_dset_Some; [done|by apply H3].
Qed.
