(* ===== verification/Supervision.v ===== *)
(** * Supervision: what the supervisor guarantees

    A request reaches a worker at most once and a worker whose connection broke
    is forgotten; starting ends with a registered worker or nothing left; and,
    however the requests of several clients interleave, handles and records stay
    consistent and a session that lost its handle never gets one back. *)
From S2P Require Import Prelude Errors Text TextFacts Regex Value Prog ConfigModel Ipc BrokerModel Supervisor.

(** ** One request *)
Section request.
Context {U : UnicodeDB}.
Abbreviation IO := (io supervisor sup_call sup_reply).
(** [D] says what has been sent since [s]. *)
Context (s : IO) (w : Z) (D : list (Z * Envelope) → Prop).

Definition since (x : IO) : Prop :=
  (∃ cs, trace x = trace s ++ cs ∧ D (deliveries cs)) ∧ ∃ used, script s = used ++ script x.
(** A worker's error that the script did not contain is not raised. *)
Definition harmless (e : exn) : Prop := isinstance e WorkerOperationError = true → Err e ∈ script s.
(** [m] sends nothing and keeps the handles [h]. *)
Definition quiet {A} (h : dict Z) (m : M IO A) : Prop :=
  let K := fun x => since x ∧ handles (st x) = h in
  triple since K m (fun _ => K) (fun e x => K x ∧ harmless e).

Lemma after_since cs x : after s cs x → D (deliveries cs) → since x.
Proof. intros (Ht & _ & Hu) Hc. split; [by exists cs|done]. Qed.
Lemma quiet_ask h c : (∀ w e, c ≠ SSend w e) → quiet h (ask c).
Proof.
  intros Hc x [[(cs & Ht & Hm) (used & Hu)] Hh]. unfold ask.
  assert (∀ y used', trace y = trace x ++ [c] → script s = used' ++ script y → since y) as Hnext.
  { intros y used' Hy Hs. split; [|by exists used']. exists (cs ++ [c]). rewrite Hy, Ht, app_assoc. split; [done|].
    unfold deliveries in *. rewrite omap_app. cbn. destruct c; try (by rewrite app_nil_r). by edestruct Hc. }
  destruct (script x) as [|a rest] eqn:E; [by eapply Hnext|].
  assert (since (Io (st x) rest (trace x ++ [c]))) as Hx.
  { apply (Hnext _ (used ++ [a])); [done|]. cbn. by rewrite Hu, <- app_assoc. }
  destruct a as [a|e]; [done|]. split; [done|]. intros _. rewrite Hu. set_solver.
Qed.
Lemma quiet_bind {A B} h (m : M IO A) (f : A → M IO B) :
  quiet h m → (∀ a, quiet h (f a)) → quiet h (m ≫= f).
Proof. intros Hm Hf. eapply triple_bind; [exact Hm|exact Hf]. Qed.
Lemma quiet_ret {A} h (a : A) : quiet h (mret a).
Proof. by apply triple_ret. Qed.
Lemma quiet_raise {A} h e : isinstance e WorkerOperationError = false → quiet h (raise (A := A) e).
Proof. intros He. apply triple_raise. intros x Hx. split; [done|]. unfold harmless. by rewrite He. Qed.
Lemma quiet_hang {A} h : quiet h (hang (A := A)).
Proof. by intros x [Hx _]. Qed.
Lemma quiet_call h c : (∀ w e, c ≠ SSend w e) → quiet h (call c).
Proof. intros Hc. apply quiet_bind; [by apply quiet_ask|]. intros _. apply quiet_ret. Qed.
Lemma quiet_expect {A} h (f : sup_reply → option A) c : (∀ w e, c ≠ SSend w e) → quiet h (expect f c).
Proof.
  intros Hc. apply quiet_bind; [by apply quiet_ask|]. intros a. destruct (f a); [apply quiet_ret|apply quiet_hang].
Qed.
Lemma quiet_try {A} h (m : M IO A) k :
  quiet h m → (∀ e, harmless e → quiet h (k e)) → quiet h (try_except m k).
Proof.
  intros Hm Hk. eapply triple_try; [exact Hm|]. intros e x [Hx He]. by apply (Hk e He).
Qed.
Lemma quiet_reraise {A} h e : harmless e → quiet h (raise (A := A) e).
Proof. intros He. by apply triple_raise. Qed.
Lemma quiet_suppress h p (m : M IO unit) : quiet h m → quiet h (suppress p m).
Proof.
  intros Hm. apply quiet_try; [done|]. intros e He. destruct (p e); [apply quiet_ret|by apply quiet_reraise].
Qed.
Lemma quiet_record h : quiet h (handle_record w).
Proof.
  intros x Hx. unfold handle_record. unfold_prog. cbn. destruct (workers (Prog.st x) !! w); [exact Hx|exact (proj1 Hx)].
Qed.
Lemma commit_handles id r y : handles (commit_state id w r y).2 = handles y.
Proof.
  unfold commit_state, store_record. destruct (is_handle id w y); [|done].
  by destruct (replace (sup_registry y) r).
Qed.
Lemma commit_error id r y e : (commit_state id w r y).1 = Err e → isinstance e WorkerOperationError = false.
Proof.
  unfold commit_state, store_record. destruct (is_handle id w y); [|done].
  unfold replace. destruct (negb _); cbn; [|done]. by intros [= <-].
Qed.
Lemma quiet_commit h id r : quiet h (locked (commit_state id w r)).
Proof.
  intros x [Hx Hh]. unfold locked. pose proof (commit_handles id r (st x)) as Hc. pose proof (commit_error id r (st x)) as He.
  destruct (commit_state id w r (st x)) as [[a|e] y]; cbn [fst snd] in *.
  - split; [exact Hx|]. cbn [st]. congruence.
  - split; [split; [exact Hx|cbn [st]; congruence]|]. unfold harmless. by rewrite (He e).
Qed.
Lemma quiet_update_state h id state : quiet h (update_record_state id w state).
Proof.
  apply quiet_bind; [apply quiet_record|]. intros r. apply quiet_bind; [by apply quiet_expect|]. intros now. apply quiet_commit.
Qed.
Lemma quiet_terminate h : quiet h (terminate_process w).
Proof.
  apply quiet_bind; [by apply quiet_expect|]. intros [c|]; [apply quiet_ret|].
  apply quiet_bind; [by apply quiet_call|]. intros _. apply quiet_try; [by apply quiet_call|]. intros e He.
  destruct e as [[] m|]; try (by apply quiet_reraise).
  apply quiet_bind; [by apply quiet_call|]. intros _. by apply quiet_call.
Qed.
(** A worker that is given up is forgotten, whatever the clean-up meets. *)
Lemma invalidate_forgets id h :
  dwf h → dget h id = Some w →
  let K := fun x => since x ∧ handles (st x) = ddel h id in
  triple since (fun x => since x ∧ handles (st x) = h) (invalidate_handle id w) (fun _ => K)
    (fun e x => K x ∧ harmless e).
Proof.
  intros Hd Hh K. unfold invalidate_handle. eapply (triple_bind _ _ _ _ (fun _ => K)).
  - intros x [Hx He]. cbn. unfold is_handle. split; [exact Hx|]. cbn. rewrite He, bool_decide_eq_true_2 by done. done.
  - intros _.
    apply (quiet_bind (ddel h id)); [by apply quiet_suppress, quiet_call|]. intros _.
    apply quiet_bind; [apply quiet_suppress, quiet_terminate|]. intros _. by apply quiet_suppress, quiet_call.
Qed.
End request.

Definition delivered (w : Z) (message_type : str) (payload : option (dict value)) (D : list (Z * Envelope)) : Prop :=
  D = [] ∨ ∃ request, D = [(w, request)] ∧ Ipc.message_type request = message_type ∧ Ipc.payload request = default [] payload.
Section requests.
Context {U : UnicodeDB}.
Abbreviation IO := (io supervisor sup_call sup_reply).
Context (id message_type : str) (payload : option (dict value)) (timeout : option Q) (s : IO).
(** The worker's connection delivered [response] when the answer to [request],
    made for the identifier [fresh], was awaited: the three calls are the first
    of the request, and this is what they were answered. *)
Definition exchanged (w : Z) (fresh : str) (request response : Envelope) (x : IO) : Prop :=
  ∃ sent, script s = Ok (AText fresh) :: Ok sent :: Ok (AMessage response) :: script x ∧
    trace x = trace s ++ [SMessageId; SSend w request; SReceive w timeout] ∧ st x = st s.
Definition accepted (w : Z) (response : Envelope) (x : IO) : Prop :=
  ∃ fresh request, create fresh message_type payload None = Ok request ∧
    judge message_type (message_id request) response = Accepted ∧ exchanged w fresh request response x.
Lemma handle_request_accepts w response x :
  handle_request w message_type payload timeout s = (Ret response, x) → accepted w response x.
Proof.
  assert (∀ y (r : Envelope), fail_transport w message_type payload y ≠ (Ret r, x)) as Hf.
  { intros y r. unfold fail_transport, call, mbind, prog_mbind, prog_bind, ask. destruct (script y) as [|[a|e] rest]; [done| |done].
    cbn. by destruct (transport_error message_type payload). }
  destruct s as [sup scr tr] eqn:Es. unfold handle_request, expect, call, mbind, prog_mbind, prog_bind, ask. cbn -[create judge].
  destruct scr as [|[a|e] scr]; [done| |done]. destruct a as [|fresh|?|?|?|?]; cbn -[create judge]; try done.
  destruct (create fresh message_type payload None) as [request|e] eqn:Ec; cbn -[create judge]; [|done].
  unfold try_except. cbn. destruct scr as [|[a|e] scr]; cbn -[create judge]; [done| |].
  2: { destruct (isinstance e IpcError); cbn -[create judge]; [|done]. intros H. by apply Hf in H. }
  destruct scr as [|[b|e] scr]; cbn -[create judge]; [done| |].
  2: { destruct (isinstance e IpcError); cbn -[create judge]; [|done]. intros H. by apply Hf in H. }
  destruct b as [|?|?|?|?|r]; cbn -[create judge]; try done. destruct (judge message_type (message_id request) r) as [|e|] eqn:Ej; cbn -[create judge]; [|done|].
  2: { intros H. by apply Hf in H. }
  intros [= <- <-]. exists fresh, request. split; [done|]. split; [done|]. exists a. rewrite Es. cbn. by rewrite <- !app_assoc.
Qed.
Lemma judge_accepted mt request_id response :
  judge mt request_id response = Accepted →
  message_id response = request_id ∧ Ipc.message_type response = mt ++ u ".result".
Proof.
  unfold judge, str_eqb. case_bool_decide as E1; cbn; [|done]. case_bool_decide as E2.
  - destruct (get_or _ _ _); try done. destruct (get_or _ _ _); try done. by destruct (vget _ _).
  - by case_bool_decide as E3.
Qed.
(** How a request on the handle [w] of [s] ends: the dictionary is the payload of
    the envelope the worker's connection delivered for this request, under the
    identifier drawn for it, and nothing else was sent. *)
Definition answered (w : Z) (d : dict value) (x : IO) : Prop :=
  ∃ fresh req sent response rest later,
    create fresh message_type payload None = Ok req ∧
    script s = Ok (AText fresh) :: Ok sent :: Ok (AMessage response) :: rest ∧
    trace x = trace s ++ [SMessageId; SSend w req; SReceive w timeout] ++ later ∧ deliveries later = [] ∧
    message_id response = message_id req ∧ Ipc.message_type response = message_type ++ u ".result" ∧
    d = Ipc.payload response.
Definition failed (w : Z) (e : exn) (x : IO) : Prop :=
  since s (delivered w message_type payload) x ∧
  (isinstance e WorkerOperationError = true → error_state e = Some (u "lost") →
   Err e ∈ script s ∨ dget (handles (st x)) id = None).

Lemma error_since w e x :
  request_error w message_type payload timeout s e x →
  since s (delivered w message_type payload) x ∧ handles (st x) = handles (st s).
Proof. intros (cs & Hx & Hc & _). split; [by eapply after_since|]. by destruct Hx as (_ & -> & _). Qed.
Lemma handle_request_accepted w :
  triple (since s (delivered w message_type payload)) (fun x => x = s) (handle_request w message_type payload timeout)
    (accepted w) (fun _ x => since s (delivered w message_type payload) x ∧ handles (st x) = handles (st s)).
Proof.
  intros x ->. pose proof (handle_request_ends w message_type payload timeout s s (after_nil s)) as H.
  pose proof (handle_request_accepts w) as Ha.
  destruct (handle_request w message_type payload timeout s) as [[r|e|] x]; [by apply Ha|exact (error_since _ _ _ H)|].
  destruct H as (cs & Hx & Hc). by eapply after_since.
Qed.
Lemma request_on_handle w :
  supervisor_wf (st s) → dget (handles (st s)) id = Some w →
  triple (since s (delivered w message_type payload)) (fun x => x = s)
    (request_on id w message_type payload timeout) (answered w) (failed w).
Proof.
  intros Hwf Hh. set (h := handles (st s)). unfold request_on.
  eapply (triple_bind _ _ _ _ (accepted w)).
  - eapply (triple_try _ _ _ _ _ (fun _ x => since s (delivered w message_type payload) x ∧ handles (st x) = h)).
    + apply handle_request_accepted.
    + intros e. destruct (isinstance e WorkerOperationError) eqn:He.
      2: { apply triple_raise. intros x [Hx Hk]. split; [exact Hx|]. by rewrite He. }
      set (K := fun h x => since s (delivered w message_type payload) x ∧ handles (st x) = h).
      apply (triple_bind _ _ _ _ (fun _ x => K (if bool_decide (error_state e = Some (u "lost")) then ddel h id else h) x)).
      * destruct (error_state e) as [state|]; [|by apply triple_ret].
        eapply (triple_bind _ _ _ _ (fun _ => K h)).
        -- eapply triple_conseq; [apply (quiet_update_state s w (delivered w message_type payload) h)|done|done| |by intros x Hx].
           intros e' x [[Hx Hk] He']. split; [done|]. intros Hw _. left. by apply He'.
        -- intros _. unfold str_eqb. case_bool_decide as E.
           ++ subst state. rewrite bool_decide_eq_true_2 by done.
              eapply triple_conseq; [apply (invalidate_forgets s w (delivered w message_type payload) id h)|done|done| |done].
              ** apply (wf_handles _ Hwf).
              ** exact Hh.
              ** intros e' x [[Hx Hk] He']. split; [done|]. intros Hw _. left. by apply He'.
           ++ rewrite bool_decide_eq_false_2 by congruence. by apply triple_ret.
      * intros _. apply triple_raise. intros x [Hx Hk]. split; [exact Hx|]. intros _ Hlost. right.
        rewrite bool_decide_eq_true_2 in Hk by done. rewrite Hk. apply dget_ddel_eq, (wf_handles _ Hwf).
  - intros response x (fresh & req & Hreq & Hj & sent & Hscr & Htr & Hst). cbv zeta.
    assert (∀ y, since x (eq []) y → since s (delivered w message_type payload) y) as Hweak.
    { intros y [(cs & Ht & Hc) [used Hu]]. split.
      - exists ([SMessageId; SSend w req; SReceive w timeout] ++ cs). rewrite Ht, Htr, app_assoc. split; [done|].
        right. exists req. unfold deliveries in *. cbn. rewrite <- Hc. split; [done|]. by apply create_Ok in Hreq.
      - exists ([Ok (AText fresh); Ok sent; Ok (AMessage response)] ++ used). by rewrite Hscr, Hu. }
    set (K := fun y => since x (eq []) y ∧ handles (st y) = handles (st x)).
    assert (∀ e y, K y ∧ harmless x e → failed w e y) as Hfail.
    { intros e y [[Hy _] He]. split; [by apply Hweak|]. intros Hw _. left. rewrite Hscr. specialize (He Hw). set_solver. }
    revert x Hscr Htr Hst Hweak K Hfail. intros x Hscr Htr Hst Hweak K Hfail.
    refine (triple_bind _ K _ _ (fun _ => K) _ _ _ _ x _).
    + eapply triple_conseq; [apply (quiet_record x w (eq []) (handles (st x)))|done|done|exact Hfail|exact Hweak].
    + intros r. eapply (triple_bind _ _ _ _ (fun _ => K)).
      * assert (quiet x (eq []) (handles (st x))
                  (match vget (Ipc.payload response) (u "state") with
                   | VStr s0 => if str_eqb s0 (record_state r) then mret tt else update_record_state id w s0
                   | _ => mret tt
                   end)) as Hq.
        { destruct (vget _ _); try apply quiet_ret. destruct (str_eqb _ _); [apply quiet_ret|apply quiet_update_state]. }
        eapply triple_conseq; [exact Hq|done|done|exact Hfail|exact Hweak].
      * intros []. apply triple_ret. intros y [[(cs & Ht & Hc) _] _]. exists fresh, req, sent, response, (script x), cs.
        apply judge_accepted in Hj as [Hj1 Hj2]. rewrite Ht, Htr, <- app_assoc. by split_and!.
    + split; [|done]. split; [by exists []; rewrite app_nil_r|by exists []].
Qed.
End requests.


(** ** Starting a worker *)
Section starting.
Context {U : UnicodeDB}.
Abbreviation IO := (io supervisor sup_call sup_reply).
Context (s : IO).
(** [x] comes after [s] by the calls [cs], with the supervisor [X]. *)
Definition ran (X : supervisor) (cs : list sup_call) (x : IO) : Prop :=
  trace x = trace s ++ cs ∧ st x = X ∧ ∃ used, script s = used ++ script x.
Definition running (X : supervisor) (x : IO) : Prop := ∃ cs, ran X cs x.
Lemma ran_ask X cs c : 
  triple (running X) (ran X cs) (ask c) (fun _ => ran X (cs ++ [c])) (fun e x => ran X (cs ++ [c]) x ∧ broke_off s c e x).
Proof.
  intros x (Ht & Hx & used & Hu). unfold ask. destruct (script x) as [|a rest] eqn:E.
  - exists (cs ++ [c]). split; [cbn; by rewrite Ht, app_assoc|]. split; [done|]. exists used. by rewrite Hu.
  - assert (ran X (cs ++ [c]) (Io (st x) rest (trace x ++ [c]))) as H.
    { split; [cbn; by rewrite Ht, app_assoc|]. split; [done|]. exists (used ++ [a]). cbn. by rewrite Hu, <- app_assoc. }
    destruct a as [a|e]; [exact H|]. split; [exact H|]. exists cs, used. cbn. split; [by rewrite Ht, app_assoc|].
    by rewrite Hu.
Qed.
Lemma running_ask X c : spec (running X) (ask c) anything.
Proof.
  intros x (cs & Hx). pose proof (ran_ask X cs c x Hx) as H.
  destruct (ask c x) as [[a|e|] y]; [split; [done|]; by eexists|exists (cs ++ [c]); apply H|exact H].
Qed.
Lemma running_call X c : spec (running X) (call c) anything.
Proof. eapply spec_bind; [apply running_ask|]. intros a _. by apply spec_ret. Qed.
Lemma running_expect {A} X (f : sup_reply → option A) c : spec (running X) (expect f c) anything.
Proof.
  eapply spec_bind; [apply running_ask|]. intros a _. destruct (f a); [by apply spec_ret|by apply spec_hang].
Qed.
Lemma running_after X x cs y : running X x → after x cs y → running X y.
Proof.
  intros (cs0 & Ht & Hx & used & Hu) (Ht' & Hy & used' & Hu'). exists (cs0 ++ cs).
  split; [by rewrite Ht', Ht, app_assoc|]. split; [congruence|]. exists (used ++ used').
  by rewrite Hu, Hu', app_assoc.
Qed.
Lemma running_handle_request X w message_type payload timeout :
  spec (running X) (handle_request w message_type payload timeout) anything.
Proof.
  intros x Hx. pose proof (handle_request_ends w message_type payload timeout x x (after_nil x)) as H.
  destruct (handle_request w message_type payload timeout x) as [[r|e|] y].
  - destruct H as (req & _ & _ & _ & Hy). split; [done|]. by eapply running_after.
  - destruct H as (cs & Hy & _). by eapply running_after.
  - destruct H as (cs & Hy & _). by eapply running_after.
Qed.

(** The clean-up of a failed start: it asks the process to end, waits for it
    and removes its status, unless one of its own calls fails. *)
Definition cleaned (id : str) (w : Z) (X : supervisor) (e : exn) (x : IO) : Prop :=
  (∃ cs, ran X (cs ++ [SUnlink id]) x ∧ SPoll w ∈ cs) ∨
  ∃ c, running X x ∧ broke_off s c e x ∧
       match c with
       | SClose v | SPoll v | STerminate v | SWait v _ | SKill v | SSend v _ | SReceive v _ => v = w
       | SUnlink i => i = id
       | SMessageId => True
       | _ => False
       end.
Definition polled (w : Z) (X : supervisor) (x : IO) : Prop := ∃ cs, ran X cs x ∧ SPoll w ∈ cs.
Lemma polled_running w X x : polled w X x → running X x.
Proof. intros (cs & H & _). by exists cs. Qed.
Lemma clean_call id w X (P : IO → Prop) c :
  (∀ x, P x → ∃ cs, ran X cs x ∧ ∀ y, ran X (cs ++ [c]) y → P y) →
  match c with
  | SClose v | SPoll v | STerminate v | SWait v _ | SKill v => v = w
  | SUnlink i => i = id
  | _ => False
  end →
  triple (running X) P (call c) (fun _ => P) (fun e x => P x ∧ cleaned id w X e x).
Proof.
  intros HP Hc. eapply (triple_bind _ _ _ _ (fun _ => P)); [|intros _; by apply triple_ret].
  intros x Hx. destruct (HP x Hx) as (cs & Hcs & Hn). pose proof (ran_ask X cs c x Hcs) as H.
  destruct (ask c x) as [[a|e|] y]; [by apply Hn| |exact H].
  destruct H as [Hy Hb]. split; [by apply Hn|]. right. exists c. split; [by eexists|]. split; [done|]. by destruct c.
Qed.
Lemma clean_polled id w X c :
  match c with
  | SClose v | SPoll v | STerminate v | SWait v _ | SKill v => v = w
  | SUnlink i => i = id
  | _ => False
  end →
  triple (running X) (polled w X) (call c) (fun _ => polled w X) (fun e x => polled w X x ∧ cleaned id w X e x).
Proof.
  intros Hc. apply clean_call; [|done]. intros x (cs & Hx & Hp). exists cs. split; [done|]. intros y Hy.
  exists (cs ++ [c]). split; [done|]. set_solver.
Qed.
Lemma clean_poll id w X :
  triple (running X) (running X) (expect a_exit (SPoll w)) (fun _ => polled w X) (fun e x => cleaned id w X e x).
Proof.
  eapply (triple_bind _ _ _ _ (fun _ => polled w X)).
  - intros x (cs & Hx). pose proof (ran_ask X cs (SPoll w) x Hx) as H.
    destruct (ask (SPoll w) x) as [[a|e|] y]; [exists (cs ++ [SPoll w]); split; [done|set_solver]| |exact H].
    right. exists (SPoll w). destruct H. split; [by eexists|done].
  - intros a. destruct (a_exit a); [by apply triple_ret|]. intros x Hx. by eapply polled_running.
Qed.
Lemma clean_terminate id w X :
  triple (running X) (running X) (terminate_process w) (fun _ => polled w X) (fun e x => cleaned id w X e x).
Proof.
  unfold terminate_process. eapply triple_bind; [apply (clean_poll id)|]. intros [code|]; [by apply triple_ret|].
  eapply (triple_bind _ _ _ _ (fun _ => polled w X)).
  { eapply triple_raising; [by apply (clean_polled id w X (STerminate w))|by intros e x [_ H]]. }
  intros _. eapply triple_try; [by apply (clean_polled id w X (SWait w (qz 5)))|]. intros e.
  destruct e as [[] m|]; try (apply triple_raise; by intros x [_ H]).
  eapply triple_before; [|by intros x [H _]; exact H].
  eapply (triple_bind _ _ _ _ (fun _ => polled w X)).
  { eapply triple_raising; [by apply (clean_polled id w X (SKill w))|by intros e x [_ H]]. }
  intros _. eapply triple_raising; [by apply (clean_polled id w X (SWait w (qz 5)))|by intros e x [_ H]].
Qed.
(** Asking the worker to shut down fails with an error that is suppressed, or
    with one of its calls. *)
Lemma shutdown_request_cleans id w X :
  triple (running X) (running X) (handle_request w (u "worker.shutdown") None (Some (qz 5)))
    (fun _ => running X)
    (fun e x => running X x ∧ (isinstance e BrokerRequestError || isinstance e IpcError = false → cleaned id w X e x)).
Proof.
  intros x Hx. pose proof (handle_request_ends w (u "worker.shutdown") None (Some (qz 5)) x x (after_nil x)) as H.
  destruct (handle_request w (u "worker.shutdown") None (Some (qz 5)) x) as [[r|e|] y].
  - destruct H as (req & _ & _ & _ & Hy). by eapply running_after.
  - destruct H as (cs & Hy & _ & Herr). assert (running X y) as Hry by (by eapply running_after).
    split; [exact Hry|]. intros Hne. right.
    destruct Herr as [[(req & resp & _ & Hj)|(cs' & _ & Ht)]|[(c & Hc & Hb)|[Ht|(fresh & Ht)]]].
    + exfalso. unfold judge in Hj. repeat case_match; try done; injection Hj as <-; done.
    + injection Ht as <-. done.
    + exists c. split; [exact Hry|]. split; [|by destruct c].
      destruct Hx as (cs0 & Ht0 & _ & used0 & Hu0), Hb as (cs1 & used1 & Ht1 & Hu1).
      exists (cs0 ++ cs1), (used0 ++ used1). split; [by rewrite Ht1, Ht0, <- !app_assoc|].
      by rewrite Hu0, Hu1, <- !app_assoc.
    + done.
    + exfalso. unfold create, envelope, match_text in Ht. cbn [mbind result_mbind result_bind] in Ht.
      repeat (unfold raise_if in Ht; case_match; cbn [mbind result_mbind result_bind] in Ht; try (injection Ht as <-; done)).
      discriminate Ht.
  - destruct H as (cs & Hy & _). by eapply running_after.
Qed.
Lemma abandon_cleans {A} id w X connected handled e :
  triple (running X) (running X) (abandon (A := A) id w connected handled e) (fun _ _ => False) (fun e => cleaned id w X e).
Proof.
  unfold abandon. eapply (triple_bind _ _ _ _ (fun _ => running X)).
  { destruct handled; [|by apply triple_ret].
    eapply triple_try.
    - eapply (triple_bind _ _ _ _ (fun _ => running X)); [apply (shutdown_request_cleans id)|].
      intros r. by apply triple_ret.
    - intros e'. cbv beta. destruct (isinstance e' _ || isinstance e' _); [by apply triple_ret; intros x [H _]|].
      apply triple_raise. intros x [_ H]. by apply H. }
  intros _. eapply (triple_bind _ _ _ _ (fun _ => running X)).
  { destruct connected; [|by apply triple_ret].
    eapply triple_raising; [apply (clean_call id w X (running X)); [|done]|by intros e' x [_ H]].
    intros x (cs & Hx). exists cs. split; [done|]. intros y Hy. by eexists. }
  intros _. eapply (triple_bind _ _ _ _ (fun _ => polled w X)); [apply clean_terminate|].
  intros _. eapply (triple_bind _ _ _ _ (fun _ x => ∃ cs, ran X (cs ++ [SUnlink id]) x ∧ SPoll w ∈ cs)).
  - eapply (triple_bind _ _ _ _ (fun _ x => ∃ cs, ran X (cs ++ [SUnlink id]) x ∧ SPoll w ∈ cs)); [|intros _; by apply triple_ret].
    intros x (cs & Hx & Hp). pose proof (ran_ask X cs (SUnlink id) x Hx) as H.
    destruct (ask (SUnlink id) x) as [[a|e'|] y]; [by exists cs| |exact H].
    destruct H as [Hy Hb]. right. exists (SUnlink id). split; [by eexists|done].
  - intros _. apply triple_raise. intros x H. by left.
Qed.

(** ** The stages of a start *)
Lemma stage id w X connected handled {A} (m : M IO A) Q :
  spec (running X) m Q →
  triple (running X) (running X) (try_except m (abandon id w connected handled))
    (fun a x => Q a ∧ running X x) (fun e x => cleaned id w X e x).
Proof.
  intros Hm. eapply triple_try; [exact Hm|]. intros e.
  eapply triple_conseq; [apply (abandon_cleans id w X)|done|by intros ? ? []|done|done].
Qed.
Lemma running_wait_loop X fuel id w deadline : spec (running X) (wait_loop fuel id w deadline) anything.
Proof.
  induction fuel as [|fuel IH]; [by apply spec_hang|]. cbn [wait_loop].
  eapply spec_bind; [apply running_expect|]. intros now _. destruct (qlt now deadline); [|by spec_step].
  eapply spec_bind; [apply running_expect|]. intros [c|] _; [by spec_step|].
  eapply (spec_bind _ _ anything).
  - apply spec_try.
    + eapply spec_bind; [apply running_expect|]. intros d _. by apply spec_ret.
    + intros e. destruct e as [[] m|]; try (by apply spec_raise).
      eapply spec_bind; [apply running_call|]. intros _ _. by apply spec_ret.
  - intros [d|] _; [by apply spec_ret|apply IH].
Qed.
Lemma running_connect X id name w timeout root :
  spec (running X) (connect_worker id name w timeout root) anything.
Proof.
  eapply spec_bind.
  { eapply spec_bind; [apply running_expect|]. intros now _ x Hx. apply (running_wait_loop X _ id w _ x Hx). }
  intros status _. spec_step. eapply spec_bind; [apply running_call|]. intros _ _. by apply spec_ret.
Qed.

Context (id : str) (w : Z) (reg0 : registry) (h0 : dict Z).
(** Before the registration: the handle's record is [r], nothing else changed. *)
Definition working (r : SessionRecord) (x : IO) : Prop :=
  ∃ X, (sup_registry X = reg0 ∧ handles X = h0 ∧ workers X !! w = Some r) ∧ running X x.
Definition unregistered (X : supervisor) : Prop :=
  sup_registry X = reg0 ∧ (handles X = h0 ∨ is_Some (dget reg0 id) ∧ handles X = dset h0 id w).
Definition undone (x : IO) : Prop := ∃ X, unregistered X ∧ running X x.
Lemma working_undone r x : working r x → undone x.
Proof. intros (X & (H1 & H2 & _) & H3). exists X. split; [|done]. split; [done|by left]. Qed.
Lemma working_spec {A} r (m : M IO A) Q : (∀ X, spec (running X) m Q) → spec (working r) m Q.
Proof.
  intros Hm x (X & HX & Hx). specialize (Hm X x Hx). destruct (m x) as [[a|e|] y]; [|by exists X|by exists X].
  destruct Hm as [Ha Hy]. split; [done|]. by exists X.
Qed.
Lemma working_set r r' : triple undone (working r) (set_record w r') (fun _ => working r') (fun _ => undone).
Proof.
  apply triple_modify. intros x (X & (H1 & H2 & H3) & (cs & Ht & Hx & Hu)). subst X.
  exists (Sup (sup_registry (st x)) (handles (st x)) (<[w:=r']> (workers (st x))) (next_worker (st x))). cbn.
  rewrite lookup_insert_eq. split; [done|]. by exists cs.
Qed.
Definition registered (r : SessionRecord) (x : IO) : Prop :=
  dget reg0 id = None ∧ sup_registry (st x) = dset reg0 id r ∧ handles (st x) = dset h0 id w ∧
  workers (st x) !! w = Some r.
Lemma working_register r :
  session_id r = id →
  triple undone (working r) (locked (register id w r)) (fun _ => registered r) (fun _ => undone).
Proof.
  intros Hid x (X & (H1 & H2 & H3) & (cs & Ht & Hx & Hu)). subst X.
  unfold locked, register, add. rewrite Hid, H1, H2. destruct (dhas reg0 id) eqn:E.
  - cbn. exists (Sup reg0 (dset h0 id w) (workers (st x)) (next_worker (st x))).
    split; [|by exists cs]. split; [done|]. right. split; [|done].
    unfold dhas in E. apply bool_decide_eq_true in E. destruct (dget reg0 id) eqn:D; [done|]. by apply dget_None in D.
  - cbn. split; [|done]. unfold dhas in E. apply bool_decide_eq_false in E. by apply dget_None.
Qed.
(** What the worker reported of itself *)
Definition described (open_session : bool) (r r' : SessionRecord) : Prop :=
  if open_session then ∃ ssh effective now, r' = with_open_status r ssh effective now ∧ ssh ≠ [] ∧ effective ≠ []
  else r' = r.
Lemma text_or_Ok v m t : text_or v m = Ok t → t ≠ [].
Proof. unfold text_or. destruct v as [| | | |[|c s']| | |]; try done. by intros [= <-]. Qed.
Lemma working_open r :
  triple undone (working r) (open_worker w r)
    (fun r' x => described true r r' ∧ working r' x) (fun _ => undone).
Proof.
  assert (∀ A (m : M IO A) Q, spec (working r) m Q → triple undone (working r) m (fun a x => Q a ∧ working r x) (fun _ => undone))
    as Hs by (intros A m Q H; eapply triple_conseq; [exact H|done|done|by intros e x; apply working_undone
                                                    |by intros x; apply working_undone]).
  unfold open_worker. eapply triple_bind; [apply Hs, working_spec; intros X; apply running_handle_request|].
  intros opened. cbv beta. apply triple_pure. intros _.
  apply triple_lift_at; [|intros e x; apply working_undone]. intros [] _.
  apply triple_lift_at; [|intros e x; apply working_undone]. intros effective He%text_or_Ok.
  apply triple_lift_at; [|intros e x; apply working_undone]. intros ssh Hssh%text_or_Ok.
  eapply triple_bind; [apply Hs, working_spec; intros X; apply running_expect|].
  intros now. cbv beta. apply triple_pure. intros _.
  eapply (triple_bind _ _ _ _ (fun _ => working (with_open_status r ssh effective now))); [apply working_set|].
  intros _. apply triple_ret. intros x Hx. split; [|done]. by exists ssh, effective, now.
Qed.
Lemma working_bring_up r open_session :
  session_id r = id →
  triple undone (working r) (bring_up id w r open_session)
    (fun r' x => described open_session r r' ∧ registered r' x) (fun _ => undone).
Proof.
  intros Hid. unfold bring_up.
  eapply (triple_bind _ _ _ _ (fun _ => working r)).
  { eapply triple_conseq; [apply (working_spec r _ anything); intros X; apply running_handle_request|done|by intros a x [_ H]
      |by intros e x; apply working_undone|by intros x; apply working_undone]. }
  intros response. apply triple_lift_at; [|intros e x; apply working_undone]. intros [] _.
  eapply (triple_bind _ _ _ _ (fun r' x => described open_session r r' ∧ working r' x)).
  { destruct open_session; [apply working_open|by apply triple_ret]. }
  intros r'. apply triple_pure. intros Hd.
  eapply (triple_bind _ _ _ _ (fun _ => registered r')).
  - apply working_register. unfold described in Hd. destruct open_session; [|by subst r']. by destruct Hd as (ssh & eff & now & -> & _).
  - intros _. by apply triple_ret.
Qed.
End starting.

Section start.
Context {U : UnicodeDB}.
Abbreviation IO := (io supervisor sup_call sup_reply).
Context (s : IO).
Definition untouched (x : IO) : Prop := sup_registry (st x) = sup_registry (st s).
Definition spawned_nothing (e : exn) (x : IO) : Prop :=
  ∃ cs, trace x = trace s ++ cs ∧ ∀ v args, SSpawn v args ∈ cs → broke_off s (SSpawn v args) e x.
Definition start_error (e : exn) (x : IO) : Prop :=
  untouched x ∧ (spawned_nothing e x ∨ ∃ id, cleaned s id (next_worker (st s)) (st x) e x).
Definition before_spawn (x : IO) : Prop :=
  ∃ cs, ran s (st s) cs x ∧ ∀ v args, SSpawn v args ∉ cs.
Lemma before_untouched x : before_spawn x → untouched x.
Proof. intros (cs & (_ & H & _) & _). unfold untouched. by rewrite H. Qed.
Lemma before_error e x : before_spawn x → start_error e x.
Proof.
  intros Hx. split; [by apply before_untouched|]. left. destruct Hx as (cs & (Ht & _) & Hn). exists cs.
  split; [done|]. intros v args H. by destruct (Hn v args).
Qed.
Lemma before_call c : (∀ v args, c ≠ SSpawn v args) →
  triple untouched before_spawn (ask c) (fun _ => before_spawn) start_error.
Proof.
  intros Hc x (cs & Hx & Hn). pose proof (ran_ask s (st s) cs c x Hx) as H.
  assert (∀ y, ran s (st s) (cs ++ [c]) y → before_spawn y) as Hb.
  { intros y Hy. exists (cs ++ [c]). split; [done|]. intros v args [H1|H1%list_elem_of_singleton]%elem_of_app; [by eapply Hn|].
    by eapply Hc. }
  destruct (ask c x) as [[a|e|] y]; [by apply Hb|apply before_error, Hb, H|].
  destruct H as (cs' & _ & H & _). unfold untouched. by rewrite H.
Qed.
Lemma before_expect {A} (f : sup_reply → option A) c : (∀ v args, c ≠ SSpawn v args) →
  triple untouched before_spawn (expect f c) (fun _ => before_spawn) start_error.
Proof.
  intros Hc. eapply triple_bind; [by apply before_call|]. intros a. destruct (f a); [by apply triple_ret|].
  intros x Hx. by apply before_untouched.
Qed.
Abbreviation w := (next_worker (st s)).
Abbreviation X1 := (Sup (sup_registry (st s)) (handles (st s)) (workers (st s)) (next_worker (st s) + 1)).
Lemma spawn_runs args :
  triple untouched (fun x => ∃ cs, ran s X1 cs x ∧ ∀ v args, SSpawn v args ∉ cs) (call (SSpawn w args))
    (fun _ => running s X1) start_error.
Proof.
  eapply (triple_bind _ _ _ _ (fun _ => running s X1)); [|intros _; by apply triple_ret].
  { intros x (cs & Hx & Hn). pose proof (ran_ask s X1 cs (SSpawn w args) x Hx) as H.
    destruct (ask (SSpawn w args) x) as [[a|e|] y]; [by exists (cs ++ [SSpawn w args])| |].
    - destruct H as [Hy Hb]. split; [destruct Hy as (_ & Hy & _); unfold untouched; by rewrite Hy|]. left.
      exists (cs ++ [SSpawn w args]). split; [by destruct Hy|].
      intros v args' [H|H%list_elem_of_singleton]%elem_of_app; [by destruct (Hn v args')|]. by injection H as -> ->.
    - destruct H as (cs' & _ & H & _). unfold untouched. by rewrite H. }
Qed.
Lemma cleaned_error id X e x :
  sup_registry X = sup_registry (st s) → cleaned s id w X e x → start_error e x.
Proof.
  intros HX H. assert (st x = X) as Hx.
  { destruct H as [(cs & (_ & H & _) & _)|(c & (cs & _ & H & _) & _)]; exact H. }
  split; [unfold untouched; by rewrite Hx|]. right. exists id. by rewrite Hx.
Qed.
Lemma running_untouched X x : sup_registry X = sup_registry (st s) → running s X x → untouched x.
Proof. intros HX (cs & _ & H & _). unfold untouched. by rewrite H. Qed.

Lemma start_ends executable runtime name timeout open_session root parent :
  triple untouched before_spawn (start executable runtime name timeout open_session root parent)
    (fun r x => registered (session_id r) w (sup_registry (st s)) (handles (st s)) r x ∧
       ∃ id now details, described open_session (Rec id name details.1 details.2 (u "created") now now None None root parent) r)
    start_error.
Proof.
  unfold start. apply triple_lift_at; [|intros e x; apply before_error]. intros [] _.
  apply triple_lift_at; [|intros e x; apply before_error]. intros [] _.
  eapply triple_bind; [by apply before_expect|]. intros id.
  eapply (triple_bind _ _ _ _ (fun _ => before_spawn)); [by apply before_expect|]. intros token.
  apply triple_lift_at; [|intros e x; apply before_error]. intros [] _.
  eapply (triple_bind _ _ _ _ (fun _ => before_spawn)).
  { eapply (triple_bind _ _ _ _ (fun _ => before_spawn)); [by apply before_call|]. intros a. by apply triple_ret. }
  intros _. eapply (triple_bind _ _ _ _ (fun X x => X = st s ∧ before_spawn x)).
  { intros x Hx. cbn. split; [|done]. by destruct Hx as (cs & (_ & H & _) & _). }
  intros X. apply triple_pure. intros ->. cbv zeta.
  eapply (triple_bind _ _ _ _ (fun _ x => ∃ cs, ran s X1 cs x ∧ ∀ v args, SSpawn v args ∉ cs)).
  { apply triple_modify. intros x (cs & (Ht & Hx & Hu) & Hn). exists cs. split; [|done]. split; [done|].
    split; [cbn; by rewrite Hx|done]. }
  intros _. eapply (triple_bind _ _ _ _ (fun _ => running s X1)); [apply spawn_runs|]. intros _.
  assert (∀ e x, cleaned s id w X1 e x → start_error e x) as Herr1 by (intros e x; by apply cleaned_error).
  assert (∀ x, running s X1 x → untouched x) as Hun1 by (intros x; by apply running_untouched).
  eapply (triple_bind _ _ _ _ (fun _ => running s X1)).
  { eapply triple_conseq; [apply (stage s id w X1 false false _ anything), running_connect|done|by intros a x [_ H]|exact Herr1|exact Hun1]. }
  intros details. eapply (triple_bind _ _ _ _ (fun r x => (∃ now, r = Rec id name details.1 details.2 (u "created") now now None None root parent) ∧ running s X1 x)).
  { eapply triple_conseq; [eapply (stage s id w X1 true false)|done|by intros a x H; exact H|exact Herr1|exact Hun1].
    eapply spec_bind; [apply running_call|]. intros _ _. eapply spec_bind; [apply running_expect|]. intros now _.
    apply spec_ret. by exists now. }
  intros record. apply triple_pure. intros [now Hrecord].
  set (und := undone s id w (sup_registry (st s)) (handles (st s))).
  assert (∀ x, und x → untouched x) as Hund by (intros x (X & [HX _] & Hx); by eapply running_untouched).
  eapply triple_try with (R := fun _ => und).
  - eapply (triple_bind _ _ _ _ (fun _ => working s w (sup_registry (st s)) (handles (st s)) record)).
    + apply triple_modify. intros x (cs & Ht & Hx & Hu). unfold working. eexists. split; [|exists cs; split; [exact Ht|split; [reflexivity|exact Hu]]].
      cbn. rewrite Hx. cbn. by rewrite lookup_insert_eq.
    + intros _. eapply triple_conseq; [apply (working_bring_up s id w (sup_registry (st s)) (handles (st s)) record open_session)
                                      |done| |done|exact Hund]; [by rewrite Hrecord|].
      intros r x [Hd Hx]. assert (session_id r = id) as ->.
      { unfold described in Hd. destruct open_session; [|by rewrite Hd, Hrecord].
        destruct Hd as (ssh & eff & n & -> & _). by rewrite Hrecord. }
      split; [exact Hx|]. exists id, now, details. by rewrite <- Hrecord.
  - intros e. apply triple_exists. intros X. apply triple_pure. intros [HX _].
    eapply triple_conseq; [apply (abandon_cleans s id w X)|done|by intros ? ? []| |by intros x; apply running_untouched].
    intros e' x. by apply cleaned_error.
Qed.
End start.

(** A start that returns has a worker whose process was checked, registered
    under a fresh identifier with the profile, the kind and the parent it was
    asked for, and, when it was to open its session, ready with the users it
    reported.  A start that raises leaves the registry as it was, and the
    process it spawned was asked whether it runs, was ended if so, and its
    status was removed last, unless one of these clean-up calls itself failed. *)
Theorem start_registers_or_cleans_up {U : UnicodeDB} executable runtime name timeout open_session root parent
    (s : io supervisor sup_call sup_reply) :
  let w := next_worker (st s) in
  match start executable runtime name timeout open_session root parent s with
  | (Ret r, s') =>
      registered (session_id r) w (sup_registry (st s)) (handles (st s)) r s' ∧
      profile_name r = name ∧ root_session r = root ∧ parent_session_id r = parent ∧
      record_state r = (if open_session then u "ready" else u "created") ∧
      (open_session = true → ∃ ssh effective, ssh_user r = Some ssh ∧ effective_user r = Some effective ∧
                                              ssh ≠ [] ∧ effective ≠ [])
  | (Raise e, s') =>
      sup_registry (st s') = sup_registry (st s) ∧
      ((∃ cs, trace s' = trace s ++ cs ∧ ∀ v args, SSpawn v args ∈ cs → broke_off s (SSpawn v args) e s') ∨
       ∃ id, cleaned s id w (st s') e s')
  | (Hang, s') => sup_registry (st s') = sup_registry (st s)
  end.
Proof.
  intros w. pose proof (start_ends s executable runtime name timeout open_session root parent s) as H.
  assert (before_spawn s s) as Hs.
  { exists []. split; [split; [by rewrite app_nil_r|split; [done|by exists []]]|]. intros v args Hn. by apply elem_of_nil in Hn. }
  specialize (H Hs). destruct (start executable runtime name timeout open_session root parent s) as [[r|e|] x].
  - destruct H as [Hr (id & now & details & Hd)]. split; [exact Hr|]. unfold described in Hd.
    destruct open_session; [|by subst r]. destruct Hd as (ssh & eff & n & -> & Hssh & Heff). cbn.
    split_and!; try done. intros _. by exists ssh, eff.
  - exact H.
  - exact H.
Qed.

(** A session whose worker answers one command *)
Definition served_record : SessionRecord :=
  Rec (u "sess-0123456789abcdef") (u "web") 7 (u "pipe") (u "ready") (qz 1) (qz 1) (Some (u "deploy")) (Some (u "deploy"))
    false None.
Definition served : supervisor :=
  (register (u "sess-0123456789abcdef") 0 served_record (Sup [] [] {[0 := served_record]} 1)).2.
Lemma served_wf : supervisor_wf served.
Proof.
  apply register_wf; [|done..]. split; [constructor|constructor|done..].
Qed.
Definition worker_answer (id : str) : Envelope :=
  Env BROKER_PROTOCOL_VERSION (u "msg_" ++ id) (u "worker.exec.result") [(u "output", VStr (u "hello"))].
