(* ===== verification/SupervisorSteps.v ===== *)
(** * SupervisorSteps: requests of several clients at once

    The broker serves each client in a thread of its own; the supervisor takes
    its lock for short blocks and releases it while a worker answers.  Here the
    blocks of [Supervisor] are the steps of a transition system, in any order
    the threads allow; identifiers of sessions are drawn without repetition. *)
From stdpp Require Import relations.
From S2P Require Import Prelude Errors Text TextFacts Regex Value Prog ConfigModel Ipc BrokerModel Supervisor.

(** Where a thread is between two blocks *)
Inductive thread : Type :=
  | TStarting (id : str) (w : Z)                           (* spawned, not registered *)
  | TRequesting (id : str) (w : Z)                         (* holds the handle *)
  | TUpdating (id : str) (w : Z) (updated : SessionRecord) (* about to store a record *)
  | TClosing (id : str).                                   (* took the handle away *)
Record config := Cfg { sup : supervisor; drawn : list str; threads : list thread }.
Definition initial : config := Cfg new_supervisor [] [].
Definition with_worker (w : Z) (r : SessionRecord) (X : supervisor) : supervisor :=
  Sup (sup_registry X) (handles X) (<[w := r]> (workers X)) (next_worker X).

Inductive step : config → config → Prop :=
  (* start: a new process and handle for a fresh identifier *)
  | step_spawn X D T id r :
      id ∉ D → session_id r = id →
      step (Cfg X D T)
        (Cfg (Sup (sup_registry X) (handles X) (<[next_worker X := r]> (workers X)) (next_worker X + 1))
           (id :: D) (TStarting id (next_worker X) :: T))
  (* start: the worker answered; its record may have changed by opening *)
  | step_register X D T T' id w r :
      T ≡ₚ TStarting id w :: T' → session_id r = id →
      step (Cfg X D T) (Cfg (register id w r (with_worker w r X)).2 D T')
  (* request: the handle of a session *)
  | step_find X D T id w :
      (find_handle id X).1 = Ok w → step (Cfg X D T) (Cfg X D (TRequesting id w :: T))
  (* _update_record_state: the record is read before the lock is taken *)
  | step_read X D T T' id w r state now :
      T ≡ₚ TRequesting id w :: T' → workers X !! w = Some r →
      step (Cfg X D T) (Cfg X D (TUpdating id w (with_state r state now) :: T'))
  | step_commit X D T T' id w r :
      T ≡ₚ TUpdating id w r :: T' →
      step (Cfg X D T) (Cfg (commit_state id w r X).2 D (TRequesting id w :: T'))
  | step_forget X D T T' id w :
      T ≡ₚ TRequesting id w :: T' →
      step (Cfg X D T) (Cfg (forget id w X).2 D T)
  (* shutdown *)
  | step_pop X D T id w :
      (pop_handle id X).1 = Ok (inl w) → step (Cfg X D T) (Cfg (pop_handle id X).2 D (TClosing id :: T))
  | step_drop_lost X D T id r :
      (pop_handle id X).1 = Ok (inr r) → step (Cfg X D T) (Cfg (pop_handle id X).2 D T)
  | step_remove X D T T' id :
      T ≡ₚ TClosing id :: T' →
      step (Cfg X D T) (Cfg (remove_record id X).2 D T')
  (* _refresh_dead_workers, one handle *)
  | step_dead X D T id w r now :
      dget (handles X) id = Some w → workers X !! w = Some r →
      step (Cfg X D T) (Cfg (store_record w (with_state r (u "lost") now) X).2 D T)
  (* a thread returns, fails or is lost *)
  | step_end X D T T' t : T ≡ₚ t :: T' → step (Cfg X D T) (Cfg X D T').
Definition reachable (c : config) : Prop := rtc step initial c.

(** ** The invariant *)
Definition owns (X : supervisor) (id : str) (w : Z) : Prop :=
  w < next_worker X ∧ ∃ r, workers X !! w = Some r ∧ session_id r = id.
Definition starting (t : thread) : option (str * Z) := match t with TStarting id w => Some (id, w) | _ => None end.
Definition thread_ok (c : config) (t : thread) : Prop :=
  match t with
  | TStarting id w => owns (sup c) id w ∧ id ∈ drawn c ∧ dget (sup_registry (sup c)) id = None ∧
                      ∀ id', dget (handles (sup c)) id' ≠ Some w
  | TRequesting id w => owns (sup c) id w
  | TUpdating id w r => owns (sup c) id w ∧ session_id r = id
  | TClosing id => id ∈ drawn c ∧ dget (handles (sup c)) id = None ∧ ∀ w, TStarting id w ∉ threads c
  end.
Record inv (c : config) : Prop := {
  i_wf : supervisor_wf (sup c);
  i_coherent : ∀ id w, dget (handles (sup c)) id = Some w → dget (sup_registry (sup c)) id = workers (sup c) !! w;
  i_drawn : ∀ id, is_Some (dget (sup_registry (sup c)) id) → id ∈ drawn c;
  i_fresh : ∀ w, is_Some (workers (sup c) !! w) → w < next_worker (sup c);
  i_threads : ∀ t, t ∈ threads c → thread_ok c t;
  i_distinct : NoDup (omap starting (threads c)).*1;
}.
Lemma inv_initial : inv initial.
Proof. split; cbn; [apply new_supervisor_wf|done|by intros id []|by intros w []|by intros t H%elem_of_nil|constructor]. Qed.

(** ** Every step keeps it *)
Lemma owns_insert X id id' w w' r g h :
  owns X id w → session_id r = id → owns X id' w' →
  owns (Sup g h (<[w := r]> (workers X)) (next_worker X)) id' w'.
Proof.
  intros [Hn (r0 & Hw & Hid)] Hr [Hn' (r' & Hw' & Hid')]. split; [done|]. cbn.
  destruct (decide (w' = w)) as [->|Hne].
  - exists r. rewrite lookup_insert_eq. split; [done|]. congruence.
  - exists r'. by rewrite lookup_insert_ne.
Qed.
Lemma fresh_insert X id w w' r :
  owns X id w → (∀ v, is_Some (workers X !! v) → v < next_worker X) →
  is_Some (<[w := r]> (workers X) !! w') → w' < next_worker X.
Proof.
  intros [Hn _] Hf H. destruct (decide (w' = w)) as [->|Hne]; [done|]. rewrite lookup_insert_ne in H by done. auto.
Qed.
Lemma handle_owns X id w : supervisor_wf X → dget (handles X) id = Some w → owns X id w.
Proof. intros Hx H. destruct (wf_live _ Hx _ _ H) as (_ & Hn & r & Hw & Hid). split; [done|]. by exists r. Qed.
Lemma store_known X id w r :
  supervisor_wf X → dget (handles X) id = Some w → session_id r = id →
  store_record w r X =
    (Ok tt, Sup (dset (sup_registry X) id r) (handles X) (<[w := r]> (workers X)) (next_worker X)).
Proof.
  intros Hx Hh Hr. destruct (wf_live _ Hx _ _ Hh) as ([r0 Hs] & _). unfold store_record, replace.
  unfold dhas. rewrite bool_decide_eq_true_2; [by rewrite Hr|]. rewrite Hr. by eapply dget_Some_key.
Qed.
Lemma inv_store X D T id w r :
  inv (Cfg X D T) → dget (handles X) id = Some w → session_id r = id → inv (Cfg (store_record w r X).2 D T).
Proof.
  intros [Hwf Hc Hd Hf Ht Hn] Hh Hr. cbn in *. pose proof (handle_owns X id w Hwf Hh) as Ho.
  assert (supervisor_wf (store_record w r X).2) as Hwf'.
  { apply store_record_wf; [done|]. intros id' H'. rewrite Hr. by eapply (wf_own _ Hwf). }
  destruct (wf_live _ Hwf _ _ Hh) as ([r0 Hs] & _).
  rewrite (store_known X id w r Hwf Hh Hr) in *. split; cbn in *; [done|..].
  - intros i v Hi. destruct (decide (i = id)) as [->|Hne].
    + rewrite dget_dset_eq. assert (v = w) as -> by congruence. by rewrite lookup_insert_eq.
    + rewrite dget_dset_ne by done. rewrite lookup_insert_ne; [by apply Hc|]. intros <-. by destruct Hne, (wf_own _ Hwf i id w).
  - intros i Hi. apply Hd. destruct (decide (i = id)) as [->|Hne]; [by rewrite Hs|by rewrite dget_dset_ne in Hi].
  - intros v. by apply fresh_insert with (id := id).
  - intros t Hin. specialize (Ht t Hin). destruct t as [i v|i v|i v r'|i]; cbn in *.
    + destruct Ht as (H1 & H2 & H3 & H4). split; [by eapply owns_insert|]. split; [done|]. split; [|done].
      rewrite dget_dset_ne; [done|]. intros <-. congruence.
    + by eapply owns_insert.
    + destruct Ht. split; [by eapply owns_insert|done].
    + done.
  - done.
Qed.
(** Removing a handle, or the record of a session without one *)
Lemma inv_forget X D T id : inv (Cfg X D T) →
  supervisor_wf (Sup (sup_registry X) (ddel (handles X) id) (workers X) (next_worker X)) →
  inv (Cfg (Sup (sup_registry X) (ddel (handles X) id) (workers X) (next_worker X)) D T).
Proof.
  intros [Hwf Hc Hd Hf Ht Hn] Hwf'. cbn in *. assert (dwf (handles X)) as Hdw by apply (wf_handles _ Hwf).
  split; cbn; [done| |done|done| |done].
  - intros i v [_ Hi]%dget_ddel_Some; [by apply Hc|done].
  - intros t Hin. specialize (Ht t Hin). destruct t as [i v|i v|i v r'|i]; cbn in *; [|done|done|].
    + destruct Ht as (H1 & H2 & H3 & H4). split_and!; try done.
      intros i' Hi'. apply dget_ddel_Some in Hi' as [_ Hi']; [|done]. by apply (H4 i').
    + destruct Ht as (H1 & H2 & H3). split_and!; try done.
      destruct (dget (ddel (handles X) id) i) as [v|] eqn:E; [|done]. apply dget_ddel_Some in E as [_ E]; [|done]. congruence.
Qed.
Lemma inv_remove X D T id : inv (Cfg X D T) → dget (handles X) id = None →
  inv (Cfg (Sup (ddel (sup_registry X) id) (handles X) (workers X) (next_worker X)) D T).
Proof.
  intros [Hwf Hc Hd Hf Ht Hn] Hno. cbn in *.
  assert (∀ i, i ≠ id → dget (ddel (sup_registry X) id) i = dget (sup_registry X) i) as Hne
    by (intros i Hi; by rewrite dget_ddel_ne).
  assert (supervisor_wf (Sup (ddel (sup_registry X) id) (handles X) (workers X) (next_worker X))) as Hwf'.
  { destruct Hwf as [H1 H2 H3 H4 H5]. split; cbn; [done|by apply dwf_ddel| |..|done].
    - intros i r [_ H]%dget_ddel_Some; [by apply H3|done].
    - intros i v Hi. rewrite Hne by congruence. by apply H4. }
  split; cbn; [done| | |done| |done].
  - intros i v Hi. rewrite Hne by congruence. by apply Hc.
  - intros i [r [_ Hi]%dget_ddel_Some]; [apply Hd; by rewrite Hi|by apply (wf_registry _ Hwf)].
  - intros t Hin. specialize (Ht t Hin). destruct t as [i v|i v|i v r'|i]; cbn in *; try done.
    destruct Ht as (H1 & H2 & H3 & H4). split_and!; try done.
    destruct (dget (ddel _ _) i) as [r|] eqn:E; [|done]. apply dget_ddel_Some in E as [_ E]; [congruence|by apply (wf_registry _ Hwf)].
Qed.
(** Dropping or exchanging threads *)
Lemma inv_threads X D T T' :
  inv (Cfg X D T) → (∀ t, t ∈ T' → t ∈ T ∨ match t with TStarting _ _ | TClosing _ => False | _ => thread_ok (Cfg X D T) t end) →
  NoDup (omap starting T').*1 → inv (Cfg X D T').
Proof.
  intros [Hwf Hc Hd Hf Ht Hn] Hsub Hn'. split; try done. intros t Hin. cbn in *.
  destruct (Hsub t Hin) as [Hold|Hnew].
  - specialize (Ht t Hold). destruct t as [i v|i v|i v r'|i]; try done. destruct Ht as (H1 & H2 & H3). split_and!; try done.
    intros v Hv. destruct (Hsub _ Hv) as [H|[]]. by apply (H3 v).
  - by destruct t.
Qed.
Lemma distinct_perm T t T' :
  T ≡ₚ t :: T' → NoDup (omap starting T).*1 →
  NoDup (omap starting T').*1 ∧ ∀ id w, t = TStarting id w → ∀ v, TStarting id v ∉ T'.
Proof.
  intros Hp Hn. assert (NoDup (omap starting (t :: T')).*1) as H.
  { revert Hn. apply NoDup_Permutation_proper, fmap_Permutation, omap_Permutation. by symmetry. }
  change (omap starting (t :: T')) with (match starting t with Some y => y :: omap starting T' | None => omap starting T' end) in H.
  destruct (starting t) as [[i v]|] eqn:E.
  - cbn in H. apply NoDup_cons in H as [Hni H]. split; [done|]. intros id w -> v' Hin. injection E as <- <-.
    apply Hni. apply list_elem_of_fmap. exists (id, v'). split; [done|]. apply list_elem_of_omap. by exists (TStarting id v').
  - split; [done|]. by intros id w ->.
Qed.
Lemma distinct_same T t t' T' :
  T ≡ₚ t :: T' → starting t = None → starting t' = None → NoDup (omap starting T).*1 → NoDup (omap starting (t' :: T')).*1.
Proof.
  intros Hp Ht Ht' Hn. apply (distinct_perm _ _ _ Hp) in Hn as [Hn _].
  change (omap starting (t' :: T')) with (match starting t' with Some y => y :: omap starting T' | None => omap starting T' end).
  by rewrite Ht'.
Qed.
Lemma inv_spawn X D T id r :
  inv (Cfg X D T) → id ∉ D → session_id r = id →
  inv (Cfg (Sup (sup_registry X) (handles X) (<[next_worker X := r]> (workers X)) (next_worker X + 1))
         (id :: D) (TStarting id (next_worker X) :: T)).
Proof.
  intros [Hwf Hc Hd Hf Ht Hn] Hid Hr. cbn in *.
  assert (∀ i v, owns X i v → owns (Sup (sup_registry X) (handles X) (<[next_worker X := r]> (workers X)) (next_worker X + 1)) i v) as Ho.
  { intros i v [Hv (r' & Hw & Hi)]. split; cbn; [lia|]. exists r'. rewrite lookup_insert_ne by lia. done. }
  assert (∀ i v, dget (handles X) i = Some v → v < next_worker X) as Hlt
    by (intros i v Hi; apply (wf_live _ Hwf _ _ Hi)).
  split; cbn.
  - destruct Hwf as [H1 H2 H3 H4 H5]. split; cbn; try done. intros i v Hi.
    destruct (H4 _ _ Hi) as (Hs & Hv & Hw). split; [done|]. apply (Ho i v). by split.
  - intros i v Hi. specialize (Hlt _ _ Hi). rewrite lookup_insert_ne by lia. by apply Hc.
  - intros i Hi. right. by apply Hd.
  - intros v Hv. destruct (decide (v = next_worker X)) as [->|Hne]; [lia|]. rewrite lookup_insert_ne in Hv by done.
    specialize (Hf v Hv). lia.
  - intros t [->|Hin]%elem_of_cons.
    + cbn. split.
      { split; cbn; [lia|]. exists r. by rewrite lookup_insert_eq. }
      split; [set_solver|]. split.
      * destruct (dget (sup_registry X) id) eqn:E; [|done]. destruct Hid. apply Hd. by rewrite E.
      * intros i Hi. specialize (Hlt _ _ Hi). lia.
    + specialize (Ht t Hin). destruct t as [i v|i v|i v r'|i]; cbn in *.
      * destruct Ht as (H1 & H2 & H3 & H4). split_and!; try done; [by apply Ho|set_solver].
      * by apply Ho.
      * destruct Ht. split; [by apply Ho|done].
      * destruct Ht as (H1 & H2 & H3). split_and!; [set_solver|done|]. intros v [[= -> ->]|Hv]%elem_of_cons; [done|].
        by apply (H3 v).
  - apply NoDup_cons. split; [|done]. intros Hin. apply list_elem_of_fmap in Hin as ([i v] & Hi & Hin). cbn in Hi. subst i.
    apply list_elem_of_omap in Hin as (t & Hin & Hs). specialize (Ht t Hin). destruct t; try done. injection Hs as -> ->.
    by destruct Ht as (_ & Hdr & _).
Qed.
Lemma inv_register X D T T' id w r :
  inv (Cfg X D T) → T ≡ₚ TStarting id w :: T' → session_id r = id →
  inv (Cfg (register id w r (with_worker w r X)).2 D T').
Proof.
  intros Hinv Hp Hr. pose proof Hinv as [Hwf Hc Hd Hf Ht Hn]. cbn in *.
  destruct (Ht (TStarting id w)) as (Ho & Hdr & Hnone & Hfree); [rewrite Hp; by left|]. cbn in *.
  destruct (distinct_perm _ _ _ Hp Hn) as [Hn' Hother].
  assert (dhas (sup_registry X) (session_id r) = false) as Hnew.
  { unfold dhas. apply bool_decide_eq_false_2. rewrite Hr. by apply dget_None. }
  assert (supervisor_wf (with_worker w r X)) as Hwf1.
  { destruct Hwf as [H1 H2 H3 H4 H5]. split; cbn; [done..| |done]. intros i v Hi. destruct (H4 _ _ Hi) as (Hs & Hv).
    split; [done|]. apply (owns_insert X id i w v r (sup_registry X) (handles X) Ho Hr). exact Hv. }
  assert (supervisor_wf (register id w r (with_worker w r X)).2) as Hwf2.
  { apply register_wf; [done|done|apply Ho|apply lookup_insert_eq|done]. }
  unfold register, add, with_worker in *. cbn in *. rewrite Hnew in *. cbn in *. split; cbn; [done|..].
  - intros i v [[-> ->]|[Hne Hi]]%dget_dset_Some; [by rewrite Hr, dget_dset_eq, lookup_insert_eq|].
    rewrite Hr, dget_dset_ne by done. rewrite lookup_insert_ne; [by apply Hc|]. intros <-. by apply (Hfree i).
  - intros i Hi. destruct (decide (i = id)) as [->|Hne]; [done|]. rewrite Hr, dget_dset_ne in Hi by done. by apply Hd.
  - intros v. by apply fresh_insert with (id := id).
  - intros t Hin. assert (t ∈ T) as HinT by (rewrite Hp; by right). specialize (Ht t HinT).
    destruct t as [i v|i v|i v r'|i]; cbn in *.
    + destruct Ht as (H1 & H2 & H3 & H4). assert (i ≠ id) as Hi by (intros ->; by apply (Hother id w eq_refl v)).
      assert (v ≠ w) as Hv.
      { intros ->. destruct H1 as [_ (r1 & E1 & I1)], Ho as [_ (r2 & E2 & I2)]. congruence. }
      split; [by apply (owns_insert X id)|]. split; [done|]. split; [by rewrite Hr, dget_dset_ne|].
      intros i' [[-> ->]|[_ Hi']]%dget_dset_Some; [done|]. by apply (H4 i').
    + by apply (owns_insert X id).
    + destruct Ht. split; [by apply (owns_insert X id)|done].
    + destruct Ht as (H1 & H2 & H3). assert (i ≠ id) as Hi by (intros ->; apply (H3 w); rewrite Hp; by left).
      split_and!; [done|by rewrite dget_dset_ne|]. intros v Hv. apply (H3 v). rewrite Hp. by right.
  - done.
Qed.
Lemma inv_step c c' : inv c → step c c' → inv c'.
Proof.
  intros Hinv Hstep. destruct Hstep as [X D T id r Hid Hr|X D T T' id w r Hp Hr|X D T id w Hf|X D T T' id w r state now Hp Hw
    |X D T T' id w r Hp|X D T T' id w Hp|X D T id w Hpop|X D T id r Hpop|X D T T' id Hp|X D T id w r now Hh Hw|X D T T' t Hp].
  - by apply inv_spawn.
  - by eapply inv_register.
  - assert (dget (handles X) id = Some w) as Hh.
    { cbn in Hf. destruct (dget (handles X) id); [by injection Hf as ->|done]. }
    apply (inv_threads X D T); [done| |apply (i_distinct _ Hinv)].
    intros t [->|Hin]%elem_of_cons; [right|by left]. apply (handle_owns X id w); [apply (i_wf _ Hinv)|done].
  - assert (thread_ok (Cfg X D T) (TRequesting id w)) as Ho by (apply (i_threads _ Hinv); cbn; rewrite Hp; by left).
    apply (inv_threads X D T); [done| |by apply (distinct_same T (TRequesting id w) _ T' Hp); [..|apply (i_distinct _ Hinv)]].
    intros t [->|Hin]%elem_of_cons; [right|left; rewrite Hp; by right]. split; [exact Ho|].
    destruct Ho as [_ (r0 & Hr0 & Hi)]. cbn in *. by assert (r = r0) as -> by congruence.
  - assert (thread_ok (Cfg X D T) (TUpdating id w r)) as [Ho Hr] by (apply (i_threads _ Hinv); cbn; rewrite Hp; by left).
    assert (inv (Cfg (commit_state id w r X).2 D T)) as Hc.
    { unfold commit_state, is_handle. case_bool_decide as E; [|done]. by apply (inv_store X D T id). }
    apply (inv_threads _ D T); [done| |by apply (distinct_same T (TUpdating id w r) _ T' Hp); [..|apply (i_distinct _ Hinv)]].
    intros t [->|Hin]%elem_of_cons; [right|left; rewrite Hp; by right]. cbn.
    assert (thread_ok (Cfg (commit_state id w r X).2 D T) (TUpdating id w r)) as [Ho' _]; [|exact Ho'].
    apply (i_threads _ Hc). cbn. rewrite Hp. by left.
  - pose proof (forget_wf id w X (i_wf _ Hinv)) as H. unfold forget in *. cbn [snd] in *.
    destruct (is_handle id w X); [by apply inv_forget|done].
  - pose proof (pop_handle_wf id X (i_wf _ Hinv)) as Hwf. unfold pop_handle in *.
    destruct (dget (handles X) id) as [w'|] eqn:Hh.
    2: { destruct (get (sup_registry X) id) as [r|e]; cbn in Hpop; [|done]. by destruct (str_eqb _ _). }
    cbn [snd fst] in *. pose proof (inv_forget X D T id Hinv Hwf) as H. split; try apply H. cbn.
    intros t [->|Hin]%elem_of_cons.
    + destruct (wf_live _ (i_wf _ Hinv) _ _ Hh) as (Hs & _). cbn. split; [by apply (i_drawn _ Hinv)|].
      split; [apply dget_ddel_eq, (wf_handles _ (i_wf _ Hinv))|]. intros v [?|Hv]%elem_of_cons; [done|].
      destruct (i_threads _ Hinv _ Hv) as (_ & _ & Hn & _). cbn in *. destruct Hs. congruence.
    + pose proof (i_threads _ H t Hin) as Ht. destruct t; try done. destruct Ht as (H1 & H2 & H3). split_and!; try done.
      intros v [?|Hv]%elem_of_cons; [done|]. by apply (H3 v).
  - unfold pop_handle in *. destruct (dget (handles X) id) as [w'|] eqn:Hh; [done|].
    destruct (get (sup_registry X) id) as [r'|e]; [|done]. destruct (str_eqb _ _); [|done]. by apply inv_remove.
  - assert (thread_ok (Cfg X D T) (TClosing id)) as (_ & Hno & _) by (apply (i_threads _ Hinv); cbn; rewrite Hp; by left).
    assert (inv (Cfg (remove_record id X).2 D T)) as H.
    { unfold remove_record, remove. destruct (dget (sup_registry X) id); [by apply inv_remove|done]. }
    apply (inv_threads _ D T); [done|intros t Hin; left; rewrite Hp; by right|].
    by apply (distinct_perm _ _ _ Hp), (i_distinct _ H).
  - apply (inv_store X D T id); [done..|]. destruct (handle_owns X id w (i_wf _ Hinv) Hh) as [_ (r0 & Hr0 & Hi)].
    cbn. by assert (r = r0) as -> by congruence.
  - apply (inv_threads _ D T); [done|intros t' Hin; left; rewrite Hp; by right|].
    by apply (distinct_perm _ _ _ Hp), (i_distinct _ Hinv).
Qed.
Lemma inv_reachable c : reachable c → inv c.
Proof.
  intros H. unfold reachable in H. remember initial as c0 eqn:E. assert (inv c0) as H0 by (subst; apply inv_initial).
  clear E. induction H as [c|c c1 c2 Hs _ IH]; [done|]. apply IH. by eapply inv_step.
Qed.

(** C6: however the requests of the clients interleave, every handle
    belongs to one session whose registered record is the handle's own; a
    thread that stores a record or registers a worker never meets a registry
    error; and a close removes only the record of a session without a handle. *)
Theorem supervisor_consistent c :
  reachable c →
  supervisor_wf (sup c) ∧
  (∀ id w, dget (handles (sup c)) id = Some w → dget (sup_registry (sup c)) id = workers (sup c) !! w) ∧
  (∀ id w r, TUpdating id w r ∈ threads c → (commit_state id w r (sup c)).1 = Ok tt) ∧
  (∀ id w r, TStarting id w ∈ threads c → session_id r = id → (register id w r (sup c)).1 = Ok tt) ∧
  (∀ id, TClosing id ∈ threads c → dget (handles (sup c)) id = None).
Proof.
  intros H%inv_reachable. split; [apply (i_wf _ H)|]. split; [apply (i_coherent _ H)|]. split; [|split].
  - intros id w r Hin. destruct (i_threads _ H _ Hin) as [_ Hr]. unfold commit_state, is_handle.
    case_bool_decide as Hh; [|done]. by rewrite (store_known _ id w r (i_wf _ H) Hh Hr).
  - intros id w r Hin Hr. destruct (i_threads _ H _ Hin) as (_ & _ & Hn & _). unfold register, add, dhas.
    rewrite bool_decide_eq_false_2; [done|]. rewrite Hr. by apply dget_None.
  - intros id Hin. by destruct (i_threads _ H _ Hin) as (_ & Hn & _).
Qed.

(** A session that was drawn, is not being started and has no handle *)
Definition settled (c : config) (id : str) : Prop :=
  id ∈ drawn c ∧ dget (handles (sup c)) id = None ∧ ∀ w, TStarting id w ∉ threads c.
Lemma dget_ddel_None {A} (d : dict A) k k' : dget d k' = None → dget (ddel d k) k' = None.
Proof. rewrite !dget_None. intros H Hin. apply dkeys_ddel in Hin. by apply H. Qed.
Lemma dget_ddel_same {A} (d : dict A) k k' : dwf d → dget (ddel d k) k' = dget d k' ∨ dget (ddel d k) k' = None.
Proof.
  intros Hd. destruct (decide (k = k')) as [->|Hne]; [right; by apply dget_ddel_eq|left; by apply dget_ddel_ne].
Qed.
Lemma step_settled c c' id : inv c → step c c' → settled c id →
  settled c' id ∧ (dget (sup_registry (sup c')) id = dget (sup_registry (sup c)) id ∨ dget (sup_registry (sup c')) id = None).
Proof.
  intros Hinv Hstep (Hdr & Hno & Hst).
  assert (∀ X D T w r, c = Cfg X D T → ∀ i, dget (handles X) i = Some w → session_id r = i →
    handles (store_record w r X).2 = handles X ∧
    dget (sup_registry (store_record w r X).2) id = dget (sup_registry X) id) as Hstore.
  { intros X D T w r -> i Hi Hr. rewrite (store_known X i w r (i_wf _ Hinv) Hi Hr). cbn. split; [done|].
    rewrite dget_dset_ne; [done|]. intros ->. cbn in Hno. congruence. }
  destruct Hstep as [X D T i r Hi Hr|X D T T' i w r Hp Hr|X D T i w Hf|X D T T' i w r state now Hp Hw
    |X D T T' i w r Hp|X D T T' i w Hp|X D T i w Hpop|X D T i r Hpop|X D T T' i Hp|X D T i w r now Hh Hw|X D T T' t Hp];
    cbn in *; unfold settled; cbn.
  1: { split; [|by left]. split_and!; [set_solver|done|]. intros w [[= -> ->]|Hin]%elem_of_cons; [done|by eapply Hst]. }
  all: try (assert (∀ v, TStarting id v ∉ T') as HT' by (intros v Hv; apply (Hst v); rewrite Hp; by right)).
  - assert (i ≠ id) as Hne by (intros ->; apply (Hst w); rewrite Hp; by left).
    unfold register, add. destruct (raise_if _ _); cbn; (split; [|left]); try (split_and!; [done|by rewrite dget_dset_ne|done]);
      [|done]. by rewrite dget_dset_ne by congruence.
  - split; [|by left]. split_and!; [done|done|]. intros v [?|Hv]%elem_of_cons; [done|by eapply Hst].
  - split; [|by left]. split_and!; [done|done|]. intros v [?|Hv]%elem_of_cons; [done|by eapply HT'].
  - assert (∀ v, TStarting id v ∉ TRequesting i w :: T') as HT'' by (intros v [?|Hv]%elem_of_cons; [done|by eapply HT']).
    unfold commit_state, is_handle. case_bool_decide as Hh; [|cbn; auto].
    destruct (i_threads _ Hinv (TUpdating i w r)) as [_ Hr]; [cbn; rewrite Hp; by left|].
    destruct (Hstore X D T w r eq_refl i Hh Hr) as [-> ->]. auto.
  - split; [|left; by destruct (is_handle i w X)]. split_and!; [done| |done]. destruct (is_handle i w X); [|done].
    by apply dget_ddel_None.
  - assert (∀ v, TStarting id v ∉ TClosing i :: T) as HT'' by (intros v [?|Hv]%elem_of_cons; [done|by eapply Hst]).
    unfold pop_handle in *. destruct (dget (handles X) i); cbn.
    + split; [|by left]. split_and!; [done|by apply dget_ddel_None|done].
    + destruct (get _ _); [|done]. by destruct (str_eqb _ _).
  - unfold pop_handle in *. destruct (dget (handles X) i); [done|].
    destruct (get _ _); [|done]. destruct (str_eqb _ _); [|done]. cbn. split; [done|].
    apply dget_ddel_same, (wf_registry _ (i_wf _ Hinv)).
  - unfold remove_record, remove. destruct (dget (sup_registry X) i); cbn; [|auto]. split; [done|].
    apply dget_ddel_same, (wf_registry _ (i_wf _ Hinv)).
  - assert (session_id (with_state r (u "lost") now) = i) as Hr.
    { destruct (handle_owns X i w (i_wf _ Hinv) Hh) as [_ (r0 & Hr0 & Hi)]. cbn. by assert (r = r0) as -> by congruence. }
    destruct (Hstore X D T w _ eq_refl i Hh Hr) as [-> ->]. auto.
  - auto.
Qed.

(** A session that lost its handle, by a close or by a broken
    connection, never gets one again whatever the clients do, and its record
    stays as it was until it is removed. *)
Theorem lost_session_is_final c c' id :
  reachable c → rtc step c c' → settled c id →
  settled c' id ∧ (dget (sup_registry (sup c')) id = dget (sup_registry (sup c)) id ∨ dget (sup_registry (sup c')) id = None).
Proof.
  intros H%inv_reachable Hsteps. revert H.
  induction Hsteps as [c|c c1 c2 Hstep _ IH]; intros Hinv Hset; [auto|].
  destruct (step_settled _ _ _ Hinv Hstep Hset) as [Hset1 Hrec].
  destruct (IH (inv_step _ _ Hinv Hstep) Hset1) as [Hset2 [Hrec2|Hrec2]]; (split; [done|]); [|by right].
  rewrite Hrec2. exact Hrec.
Qed.

(** ** The operations move by these steps
    From any configuration of other threads [T], a request, a close or a look
    for dead workers takes the supervisor where steps of one more thread take
    it, at every point where it may be interrupted. *)
Section refinement.
Context {U : UnicodeDB}.
Abbreviation IO := (io supervisor sup_call sup_reply).
Context (c0 : config) (D : list str) (T : list thread).
Definition moved (mine : list thread) (x : IO) : Prop := rtc step c0 (Cfg (st x) D (mine ++ T)).
Definition stopped (x : IO) : Prop := ∃ mine, moved mine x.
(** [m] takes the thread from [mine] to [mine'], or is left somewhere on the way. *)
Definition moves {A} (mine mine' : list thread) (m : M IO A) : Prop :=
  triple stopped (moved mine) m (fun _ => moved mine') (fun _ => moved mine).

Lemma moved_step mine mine' X x y :
  moved mine x → step (Cfg (st x) D (mine ++ T)) (Cfg X D (mine' ++ T)) → st y = X → moved mine' y.
Proof. intros Hx Hs <-. unfold moved. by eapply rtc_r. Qed.
Lemma moved_end t x : moved [t] x → moved [] x.
Proof. intros Hx. eapply moved_step; [exact Hx| |reflexivity]. by apply (step_end _ _ _ T t). Qed.
(** Programs that leave the supervisor alone *)
Definition still {A} (m : M IO A) : Prop := ∀ x, st (m x).2 = st x.
Lemma still_spec {A} mine (m : M IO A) : still m → spec (moved mine) m anything.
Proof.
  intros Hm x Hx. specialize (Hm x). unfold moved in *.
  destruct (m x) as [[a|e|] y]; cbn in Hm; [split; [done|]|..]; by rewrite Hm.
Qed.
Lemma still_ask c : still (ask c).
Proof. intros x. unfold ask. by destruct (script x) as [|[a|e] rest]. Qed.
Lemma still_bind {A B} (m : M IO A) (f : A → M IO B) : still m → (∀ a, still (f a)) → still (m ≫= f).
Proof.
  intros Hm Hf x. specialize (Hm x). unfold mbind, prog_mbind, prog_bind.
  destruct (m x) as [[a|e|] y]; cbn in *; [by rewrite Hf|done..].
Qed.
Lemma still_try {A} (m : M IO A) h : still m → (∀ e, still (h e)) → still (try_except m h).
Proof.
  intros Hm Hh x. specialize (Hm x). unfold try_except. destruct (m x) as [[a|e|] y]; cbn in *; [done|by rewrite Hh|done].
Qed.
Lemma still_ret {A} (a : A) : still (mret a).
Proof. done. Qed.
Lemma still_raise {A} e : still (raise (A := A) e).
Proof. done. Qed.
Lemma still_call c : still (call c).
Proof. apply still_bind; [apply still_ask|]. intros a. apply still_ret. Qed.
Lemma still_expect {A} (f : sup_reply → option A) c : still (expect f c).
Proof. apply still_bind; [apply still_ask|]. intros a. by destruct (f a). Qed.
Lemma still_record w : still (handle_record w).
Proof. intros x. unfold handle_record. unfold_prog. cbn. by destruct (workers (st x) !! w). Qed.
Lemma still_handle_request w message_type payload timeout : still (handle_request w message_type payload timeout).
Proof.
  intros x. pose proof (handle_request_ends w message_type payload timeout x x (after_nil x)) as H.
  destruct (handle_request w message_type payload timeout x) as [[r|e|] y]; cbn.
  - by destruct H as (req & _ & _ & _ & _ & -> & _).
  - by destruct H as (cs & (_ & -> & _) & _).
  - by destruct H as (cs & (_ & -> & _) & _).
Qed.
Lemma still_terminate w : still (terminate_process w).
Proof.
  apply still_bind; [apply still_expect|]. intros [c|]; [done|]. apply still_bind; [apply still_call|]. intros _.
  apply still_try; [apply still_call|]. intros [[] m|]; try done.
  apply still_bind; [apply still_call|]. intros _. apply still_call.
Qed.
Lemma still_suppress p (m : M IO unit) : still m → still (suppress p m).
Proof. intros Hm. apply still_try; [done|]. intros e. by destruct (p e). Qed.

Lemma moves_update id w state : moves [TRequesting id w] [TRequesting id w] (update_record_state id w state).
Proof.
  unfold moves, update_record_state.
  eapply (triple_bind _ _ _ _ (fun r x => workers (st x) !! w = Some r ∧ moved [TRequesting id w] x)).
  { intros x Hx. unfold handle_record. unfold_prog. cbn.
    destruct (workers (st x) !! w) as [r|] eqn:E; [split; [exact E|exact Hx]|]. by exists [TRequesting id w]. }
  intros r. eapply (triple_bind _ _ _ _ (fun _ x => workers (st x) !! w = Some r ∧ moved [TRequesting id w] x)).
  { intros x [Hr Hx]. pose proof (still_expect a_time STime x) as Hs.
    assert (∀ y, st y = st x → moved [TRequesting id w] y) as Hm by (intros y Hy; unfold moved; by rewrite Hy).
    destruct (expect a_time STime x) as [[a|e|] y]; cbn in Hs; [split; [by rewrite Hs|by apply Hm]|by apply Hm|].
    exists [TRequesting id w]. by apply Hm. }
  intros now x [Hr Hx]. set (r' := with_state r state now).
  assert (moved [TUpdating id w r'] x) as Hx'.
  { eapply moved_step; [exact Hx| |reflexivity]. by eapply (step_read _ _ _ T). }
  unfold locked. destruct (commit_state id w r' (st x)) as [a X] eqn:E.
  assert (moved [TRequesting id w] (Io X (script x) (trace x))) as Hy.
  { eapply moved_step; [exact Hx'| |reflexivity]. replace X with (commit_state id w r' (st x)).2 by by rewrite E.
    by apply (step_commit _ _ _ T). }
  by destruct a.
Qed.
Lemma moves_still {A} mine (m : M IO A) : still m → moves mine mine m.
Proof.
  intros Hm x Hx. pose proof (still_spec mine m Hm x Hx) as H.
  destruct (m x) as [[a|e|] y]; [exact (proj2 H)|exact H|by exists mine].
Qed.
Lemma moves_invalidate id w : moves [TRequesting id w] [TRequesting id w] (invalidate_handle id w).
Proof.
  unfold moves, invalidate_handle. eapply (triple_bind _ _ _ _ (fun _ => moved [TRequesting id w])).
  - intros x Hx. cbn. eapply moved_step; [exact Hx|by apply (step_forget _ _ _ T id w)|reflexivity].
  - intros _. apply moves_still.
    apply still_bind; [apply still_suppress, still_call|]. intros _.
    apply still_bind; [apply still_suppress, still_terminate|]. intros _. apply still_suppress, still_call.
Qed.
Lemma moves_request_on id w message_type payload timeout :
  moves [TRequesting id w] [TRequesting id w] (request_on id w message_type payload timeout).
Proof.
  unfold moves, request_on. eapply (triple_bind _ _ _ _ (fun _ => moved [TRequesting id w])).
  - eapply triple_try; [apply moves_still, still_handle_request|]. intros e. cbv beta.
    destruct (isinstance e WorkerOperationError); [|by apply triple_raise].
    eapply (triple_bind _ _ _ _ (fun _ => moved [TRequesting id w])); [|intros _; by apply triple_raise].
    destruct (error_state e) as [state|]; [|by apply triple_ret].
    eapply (triple_bind _ _ _ _ (fun _ => moved [TRequesting id w])); [apply moves_update|].
    intros _. destruct (str_eqb state _); [apply moves_invalidate|by apply triple_ret].
  - intros response. cbv zeta.
    eapply (triple_bind _ _ _ _ (fun _ => moved [TRequesting id w])); [apply moves_still, still_record|].
    intros r. eapply (triple_bind _ _ _ _ (fun _ => moved [TRequesting id w])); [|intros _; by apply triple_ret].
    destruct (vget _ _); try (by apply triple_ret). destruct (str_eqb _ _); [by apply triple_ret|apply moves_update].
Qed.
(** One of the operations, by a client whose thread then ends *)
Definition refines {A} (m : M IO A) : Prop :=
  triple stopped (moved []) m (fun _ => moved []) (fun _ => moved []).
Lemma refines_request id message_type payload timeout : refines (request id message_type payload timeout).
Proof.
  intros x Hx. unfold request, mbind, prog_mbind, prog_bind, locked.
  destruct (find_handle id (st x)) as [[w|e] X] eqn:E; [|by injection E as _ <-].
  injection E as Hw <-. destruct (dget (handles (st x)) id) as [w'|] eqn:Hh; [|done]. injection Hw as ->.
  assert (moved [TRequesting id w] (Io (st x) (script x) (trace x))) as Hx'.
  { eapply moved_step; [exact Hx|apply (step_find _ _ _ id w)|reflexivity]. cbn. by rewrite Hh. }
  pose proof (moves_request_on id w message_type payload timeout _ Hx') as H.
  destruct (request_on id w message_type payload timeout _) as [[r|e|] y]; [by eapply moved_end|by eapply moved_end|done].
Qed.
Lemma refines_shutdown id : refines (shutdown id).
Proof.
  intros x Hx. unfold shutdown, mbind at 1, prog_mbind, prog_bind, locked at 1.
  destruct (pop_handle id (st x)) as [[[w|r]|e] X] eqn:E.
  - assert (moved [TClosing id] (Io X (script x) (trace x))) as Hx'.
    { eapply moved_step; [exact Hx| |reflexivity]. replace X with (pop_handle id (st x)).2 by by rewrite E.
      apply (step_pop _ _ _ id w). by rewrite E. }
    assert (triple stopped (moved [TClosing id])
      (try_finally
        (try_except
           (code ← expect a_exit (SPoll w);
            match code with
            | None => handle_request w (u "worker.shutdown") None (Some (qz 5));; mret tt
            | Some _ => mret tt
            end)
           (fun e => if isinstance e BrokerRequestError || isinstance e IpcError then mret tt else raise e))
        (call (SClose w);;
         try_except (call (SWait w (qz 5)))
           (fun e => match e with Builtin TimeoutExpired _ => terminate_process w | _ => raise e end);;
         call (SUnlink id));;
      locked (remove_record id)) (fun _ => moved []) (fun _ => moved [])) as H; [|exact (H _ Hx')].
    clear x Hx E X Hx'.
    apply (triple_bind _ _ _ _ (fun _ => moved [TClosing id])).
    + eapply triple_raising; [apply triple_finally with (R := fun _ => moved [TClosing id])|intros e; apply moved_end].
      * apply moves_still, still_try.
        -- apply still_bind; [apply still_expect|]. intros [c|]; [done|].
           apply still_bind; [apply still_handle_request|done].
        -- intros e. by destruct (_ || _).
      * intros _. apply moves_still. apply still_bind; [apply still_call|]. intros _.
        apply still_bind; [apply still_try; [apply still_call|]|intros _; apply still_call].
        intros [[] m|]; try done. apply still_terminate.
      * intros _. apply moves_still. apply still_bind; [apply still_call|]. intros _.
        apply still_bind; [apply still_try; [apply still_call|]|intros _; apply still_call].
        intros [[] m|]; try done. apply still_terminate.
    + intros _ x Hx. unfold locked. destruct (remove_record id (st x)) as [a X] eqn:E.
      assert (moved [] (Io X (script x) (trace x))) as Hy.
      { eapply moved_step; [exact Hx| |reflexivity]. replace X with (remove_record id (st x)).2 by by rewrite E.
        by apply (step_remove _ _ _ T). }
      by destruct a.
  - eapply moved_step; [exact Hx| |reflexivity]. cbn [st]. replace X with (pop_handle id (st x)).2 by by rewrite E.
    apply (step_drop_lost _ _ _ id r). by rewrite E.
  - assert (X = st x) as ->; [|exact Hx]. unfold pop_handle in E. destruct (dget _ _); [done|].
    destruct (get _ _); [|by injection E]. destruct (str_eqb _ _); [done|by injection E].
Qed.
End refinement.

(** ** What the operations do to the supervisor *)
Definition recorded (id : str) (w : Z) (r : SessionRecord) (X : supervisor) : supervisor :=
  Sup (dset (sup_registry X) id r) (handles X) (<[w := r]> (workers X)) (next_worker X).
Definition unhandled (id : str) (X : supervisor) : supervisor :=
  Sup (sup_registry X) (ddel (handles X) id) (workers X) (next_worker X).
Section effects.
Context {U : UnicodeDB}.
Abbreviation IO := (io supervisor sup_call sup_reply).
Context (X : supervisor) (id : str) (w : Z) (r : SessionRecord).
Definition is_at (Y : supervisor) (x : IO) : Prop := st x = Y.
Lemma still_at {A} (m : M IO A) Y (I : IO → Prop) (R : exn → IO → Prop) :
  still m → (∀ x, is_at Y x → I x) → (∀ e x, is_at Y x → R e x) → triple I (is_at Y) m (fun _ => is_at Y) R.
Proof.
  intros Hm HI HR x Hx. specialize (Hm x). unfold is_at in *.
  destruct (m x) as [[a|e|] y]; cbn in Hm; [congruence|apply HR; congruence|apply HI; congruence].
Qed.
(** The session of [id] is the handle [w] with the record [r], and lives. *)
Hypothesis (Hwf : supervisor_wf X) (Hhandle : dget (handles X) id = Some w) (Hrecord : workers X !! w = Some r).
Lemma record_id : session_id r = id.
Proof. destruct (wf_live _ Hwf _ _ Hhandle) as (_ & _ & r' & Hw & Hid). congruence. Qed.
Lemma record_at (I : IO → Prop) (R : exn → IO → Prop) :
  triple I (is_at X) (handle_record w) (fun r' x => r' = r ∧ is_at X x) R.
Proof. intros x Hx. unfold handle_record. unfold_prog. cbn. unfold is_at in Hx. by rewrite Hx, Hrecord. Qed.
Lemma update_effect state (I : IO → Prop) (R : exn → IO → Prop) :
  (∀ x, is_at X x → I x) → (∀ e x, is_at X x → R e x) →
  triple I (is_at X) (update_record_state id w state)
    (fun _ x => ∃ now, is_at (recorded id w (with_state r state now) X) x) R.
Proof.
  intros HI HR. unfold update_record_state. eapply triple_bind; [apply record_at|]. intros r'. cbv beta.
  apply triple_pure. intros ->. eapply triple_bind; [apply still_at; [apply still_expect|done|done]|].
  intros now x Hx. unfold locked, commit_state, is_handle. unfold is_at in Hx. rewrite Hx, bool_decide_eq_true_2 by done.
  rewrite (store_known X id w _ Hwf Hhandle) by apply record_id. by exists now.
Qed.
(** A request that fails may have stored the state the worker's error reported,
    and only when that state is lost has it dropped the handle. *)
Definition after_error (Y : supervisor) : Prop :=
  Y = X ∨ (∃ state now, Y = recorded id w (with_state r state now) X) ∨
  ∃ now, Y = unhandled id (recorded id w (with_state r (u "lost") now) X).
(** A request that returns has stored the state the result reports, when it
    reports another than the record's, and nothing else. *)
Definition after_result (d : dict value) (Y : supervisor) : Prop :=
  Y = X ∧ (∀ state, vget d (u "state") = VStr state → state = record_state r) ∨
  ∃ state now, vget d (u "state") = VStr state ∧ state ≠ record_state r ∧
               Y = recorded id w (with_state r state now) X.
Definition erred (x : IO) : Prop := after_error (st x).
Lemma invalidate_effect now :
  let Y := unhandled id (recorded id w (with_state r (u "lost") now) X) in
  triple erred (is_at (recorded id w (with_state r (u "lost") now) X)) (invalidate_handle id w)
    (fun _ => is_at Y) (fun _ => erred).
Proof.
  intros Y. assert (∀ x, is_at Y x → erred x) as HY by (intros x Hx; right; right; by exists now).
  unfold invalidate_handle. eapply (triple_bind _ _ _ _ (fun _ => is_at Y)).
  - intros x Hx. unfold is_at in *. cbn. unfold is_handle. rewrite Hx. cbn. by rewrite bool_decide_eq_true_2.
  - intros _. apply still_at; [|done|done].
    apply still_bind; [apply still_suppress, still_call|]. intros _.
    apply still_bind; [apply still_suppress, still_terminate|]. intros _. apply still_suppress, still_call.
Qed.
Lemma request_effect message_type payload timeout :
  triple erred (is_at X) (request_on id w message_type payload timeout) (fun d x => after_result d (st x)) (fun _ => erred).
Proof.
  assert (∀ x, is_at X x → erred x) as HX by (intros x Hx; by left). unfold request_on.
  eapply (triple_bind _ _ _ _ (fun _ => is_at X)).
  - eapply triple_try; [apply still_at; [apply still_handle_request|done|intros e x Hx; exact Hx]|]. intros e. cbv beta.
    destruct (isinstance e WorkerOperationError); [|by apply triple_raise].
    eapply (triple_bind _ _ _ _ (fun _ => erred)); [|intros _; by apply triple_raise].
    destruct (error_state e) as [state|]; [|by apply triple_ret].
    eapply triple_bind; [apply update_effect; done|]. intros []. cbv beta. apply triple_exists. intros now.
    unfold str_eqb. case_bool_decide as E.
    + subst state. eapply triple_conseq; [apply (invalidate_effect now)|done| |done|done].
      intros [] x Hx. right; right. by exists now.
    + apply triple_ret. intros x Hx. right; left. by exists state, now.
  - intros response. cbv zeta. eapply triple_bind; [apply record_at|]. intros r'. cbv beta. apply triple_pure. intros ->.
    assert (∀ state, vget (Ipc.payload response) (u "state") = VStr state → state ≠ record_state r →
      triple erred (is_at X) (update_record_state id w state;; mret (Ipc.payload response))
        (fun d x => after_result d (st x)) (fun _ => erred)) as Hup.
    { intros state Hs Hne. eapply triple_bind; [apply update_effect; done|]. intros []. cbv beta. apply triple_exists. intros now.
      apply triple_ret. intros x Hx. right. by exists state, now. }
    assert ((∀ state, vget (Ipc.payload response) (u "state") = VStr state → state = record_state r) →
      triple erred (is_at X) ((mret tt;; mret (Ipc.payload response)) : M IO (dict value)) (fun d x => after_result d (st x)) (fun _ => erred)) as Hno.
    { intros H x Hx. by left. }
    destruct (vget _ _) as [| | | |state| | |]; try (by apply Hno). unfold str_eqb. case_bool_decide as E; [|by apply Hup].
    apply Hno. by intros ? [= <-].
Qed.
End effects.

Section shutdown.
Context {U : UnicodeDB}.
Abbreviation IO := (io supervisor sup_call sup_reply).
Definition removed (id : str) (X : supervisor) : supervisor :=
  Sup (ddel (sup_registry X) id) (ddel (handles X) id) (workers X) (next_worker X).
Lemma still_close_down id w : still (call (SClose w);;
         try_except (call (SWait w (qz 5)))
           (fun e => match e with Builtin TimeoutExpired _ => terminate_process w | _ => raise e end);;
         call (SUnlink id)).
Proof.
  apply still_bind; [apply still_call|]. intros _. apply still_bind; [|intros _; apply still_call].
  apply still_try; [apply still_call|]. intros [[] m|]; try done. apply still_terminate.
Qed.
Lemma ddel_absent {A} (d : dict A) k : dget d k = None → ddel d k = d.
Proof.
  rewrite dget_None. induction d as [|[i v] d IH]; [done|]. cbn. intros Hn.
  case_decide; [subst; set_solver|]. f_equal. apply IH. set_solver.
Qed.
(** A close that returns gives back the session's record, which is gone with its
    handle; when there was no handle the session was lost.  One that raises has
    taken the handle away and left the record, or found no such session. *)
Definition shut (id : str) (X : supervisor) (o : outcome exn SessionRecord) (Y : supervisor) : Prop :=
  match o with
  | Ret r => dget (sup_registry X) id = Some r ∧ Y = removed id X ∧
             (dget (handles X) id = None → record_state r = u "lost")
  | Raise e => dget (handles X) id = None ∧ e = session_not_found id ∧ Y = X ∨
               is_Some (dget (handles X) id) ∧ Y = unhandled id X
  | Hang => is_Some (dget (handles X) id) ∧ Y = unhandled id X
  end.
Lemma shutdown_effect id (s : IO) :
  supervisor_wf (st s) → match shutdown id s with (o, s') => shut id (st s) o (st s') end.
Proof.
  intros Hwf. set (X := st s). unfold shutdown, mbind at 1, prog_mbind, prog_bind, locked at 1, pop_handle.
  fold X. destruct (dget (handles X) id) as [w|] eqn:Hh.
  2: { unfold get. destruct (dget (sup_registry X) id) as [r|] eqn:Hr; cbn; [|by left].
    unfold str_eqb. case_bool_decide as E; cbn; [|by left]. unfold removed. rewrite (ddel_absent _ _ Hh). by split_and!. }
  destruct (wf_live _ Hwf _ _ Hh) as ([r Hr] & _). fold X in Hr.
  match goal with |- match ?m ?y with _ => _ end => set (y0 := y); assert (triple (is_at (unhandled id X)) (is_at (unhandled id X)) m
    (fun r' x => r' = r ∧ is_at (removed id X) x) (fun _ => is_at (unhandled id X))) as H end.
  { apply (triple_bind _ _ _ _ (fun _ => is_at (unhandled id X))).
    - assert (∀ A (m : M IO A), still m → triple (is_at (unhandled id X)) (is_at (unhandled id X)) m
        (fun _ => is_at (unhandled id X)) (fun _ => is_at (unhandled id X))) as Hst by (intros A m Hm; by apply still_at).
      apply triple_finally.
      + apply Hst, still_try.
        * apply still_bind; [apply still_expect|]. intros [c|]; [done|]. apply still_bind; [apply still_handle_request|done].
        * intros e. by destruct (_ || _).
      + intros _. apply Hst, still_close_down.
      + intros _. apply Hst, still_close_down.
    - intros _ x Hx. unfold locked, remove_record, remove. unfold is_at in Hx. rewrite Hx. cbn. rewrite Hr. by split. }
  specialize (H y0 eq_refl). match goal with |- match ?m y0 with _ => _ end => destruct (m y0) as [[r'|e|] y] end; cbn.
  - destruct H as [-> H]. split; [exact Hr|]. split; [exact H|]. by rewrite Hh.
  - right. split; [rewrite Hh; by eexists|exact H].
  - split; [rewrite Hh; by eexists|exact H].
Qed.
Definition requested (id : str) (X : supervisor) (o : outcome exn (dict value)) (Y : supervisor) : Prop :=
  let live (P : Z → SessionRecord → Prop) :=
    ∃ w r, dget (handles X) id = Some w ∧ dget (sup_registry X) id = Some r ∧ workers X !! w = Some r ∧ P w r in
  match o with
  | Ret d => live (fun w r => after_result X id w r d Y)
  | Raise e => dget (handles X) id = None ∧ e = session_not_found id ∧ Y = X ∨ live (fun w r => after_error X id w r Y)
  | Hang => live (fun w r => after_error X id w r Y)
  end.
Lemma request_ends id message_type payload timeout (s : IO) D T :
  inv (Cfg (st s) D T) →
  match request id message_type payload timeout s with (o, s') => requested id (st s) o (st s') end.
Proof.
  intros Hinv. pose proof (i_wf _ Hinv) as Hwf. cbn in Hwf. unfold request, mbind, prog_mbind, prog_bind, locked, find_handle.
  destruct (dget (handles (st s)) id) as [w|] eqn:Hh; [|by left].
  destruct (wf_live _ Hwf _ _ Hh) as (_ & _ & r & Hw & _). pose proof (i_coherent _ Hinv _ _ Hh) as Hr. cbn in Hr. rewrite Hw in Hr.
  pose proof (request_effect (st s) id w r Hwf Hh Hw message_type payload timeout (Io (st s) (script s) (trace s)) eq_refl) as H.
  destruct (request_on id w message_type payload timeout _) as [[d|e|] y]; cbn; [|right|]; exists w, r; by split_and!.
Qed.
(** One more thread took the supervisor from [s] to [s'] beside the threads [T],
    which did not move; when the operation ended so did the thread. *)
Definition by_steps {A} (D : list str) (T : list thread) (s : IO) (r : outcome exn A * IO) : Prop :=
  ∃ mine, (r.1 ≠ Hang → mine = []) ∧ rtc step (Cfg (st s) D T) (Cfg (st r.2) D (mine ++ T)).
Lemma refines_by_steps {A} D T (s : IO) (m : M IO A) : refines (Cfg (st s) D T) D T m → by_steps D T s (m s).
Proof.
  intros H. specialize (H s (rtc_refl _ _)). unfold by_steps. destruct (m s) as [[a|e|] y]; cbn.
  - exists []. split; [done|exact H].
  - exists []. split; [done|exact H].
  - destruct H as [mine H]. by exists mine.
Qed.
End shutdown.


(** One worker started, found by a request and forgotten *)
Definition sample_record : SessionRecord :=
  Rec (u "sess-0123456789abcdef") (u "web") 7 (u "pipe") (u "created") (qz 1) (qz 1) None None false None.
Definition live_config : config :=
  Cfg (Sup [(u "sess-0123456789abcdef", sample_record)] [(u "sess-0123456789abcdef", 0)]
         (<[0 := sample_record]> (<[0 := sample_record]> ∅)) 1) [u "sess-0123456789abcdef"] [].
Lemma live_reachable : reachable live_config.
Proof.
  eapply rtc_l; [apply (step_spawn _ _ _ (u "sess-0123456789abcdef") sample_record); [set_solver|done]|].
  eapply rtc_l; [apply (step_register _ _ _ [] (u "sess-0123456789abcdef") 0 sample_record); [done|done]|].
  apply rtc_refl.
Qed.
Lemma supervisor_consistent_witness :
  reachable live_config ∧
  dget (sup_registry (sup live_config)) (u "sess-0123456789abcdef") = workers (sup live_config) !! 0.
Proof.
  split; [exact live_reachable|].
  exact (proj1 (proj2 (supervisor_consistent live_config live_reachable)) (u "sess-0123456789abcdef") 0 eq_refl).
Defined.
Definition closing_config : config :=
  Cfg (Sup [(u "sess-0123456789abcdef", sample_record)] []
         (<[0 := sample_record]> (<[0 := sample_record]> ∅)) 1) [u "sess-0123456789abcdef"] [TClosing (u "sess-0123456789abcdef")].
Definition closed_config : config :=
  Cfg (Sup [] [] (<[0 := sample_record]> (<[0 := sample_record]> ∅)) 1) [u "sess-0123456789abcdef"] [].
Lemma closing_reachable : reachable closing_config.
Proof.
  unfold reachable. eapply rtc_r; [apply live_reachable|].
  by apply (step_pop (sup live_config) (drawn live_config) [] (u "sess-0123456789abcdef") 0).
Qed.
Lemma lost_session_is_final_witness :
  settled closed_config (u "sess-0123456789abcdef") ∧
  dget (sup_registry (sup closed_config)) (u "sess-0123456789abcdef") = None.
Proof.
  assert (rtc step closing_config closed_config) as Hsteps.
  { eapply rtc_l; [by apply (step_remove (sup closing_config) (drawn closing_config) (threads closing_config) [] (u "sess-0123456789abcdef"))|apply rtc_refl]. }
  assert (settled closing_config (u "sess-0123456789abcdef")) as Hset.
  { split; [set_solver|]. split; [done|]. intros w Hin. apply list_elem_of_singleton in Hin. discriminate. }
  split; [|reflexivity].
  exact (proj1 (lost_session_is_final _ _ _ closing_reachable Hsteps Hset)).
Defined.
(** The worker ended already, and its session is closed. *)
Definition closing_io : io supervisor sup_call sup_reply :=
  Io (sup live_config) [Ok (AExit (Some 0)); Ok ADone; Ok ADone; Ok ADone] [].
