(* ===== verification/BrokerServer.v ===== *)
(** * BrokerServer: what a client can ask of the broker (broker/server.py)

    Requests are checked, handed to the supervisor and answered; a request
    never stops the thread that serves it.  The supervisor is an interface,
    which [Supervisor] implements; recording the calls made on it, the theorems
    say what each message can cause. *)
From S2P Require Import Prelude Errors Text TextFacts Regex Value Prog ConfigModel Ipc BrokerModel Supervisor.

Class SupervisorOps (S : Type) := {
  sv_start : str → bool → bool → option str → M S SessionRecord;
  sv_list : M S (list SessionRecord);
  sv_get : str → M S SessionRecord;
  sv_request : str → str → option (dict value) → Q → M S (dict value);
  sv_shutdown : str → M S SessionRecord;
  sv_stop : M S unit;                    (* BrokerServer.stop *)
}.
(** [_stop.set()] and waking the listener are the call [wake]. *)
Definition supervisor_ops {U : UnicodeDB} (executable runtime : str)
    (wake : M (io supervisor sup_call sup_reply) unit) : SupervisorOps (io supervisor sup_call sup_reply) := {|
  sv_start name open_session root parent := start executable runtime name (qz 10) open_session root parent;
  sv_list := list_sessions;
  sv_get := get_session;
  sv_request id kind payload timeout := request id kind payload (Some timeout);
  sv_shutdown := shutdown;
  sv_stop := wake;
|}.

(** ** Fields *)
Section fields.
Context {U : UnicodeDB}.
Definition require_fields (payload : dict value) (required optional : list str) : res unit :=
  raise_if (negb (fields_match payload required optional))
    (value_error (u "request payload fields do not match the operation")).
Definition profile_name_value (payload : dict value) : res str :=
  v ← getitem payload (u "profile_name");
  match v with
  | VStr name => validate_profile_name name;; Ok name
  | _ => Err (value_error (u "profile_name must be a string"))
  end.
Definition session_id_value (payload : dict value) : res str :=
  v ← getitem payload (u "session_id");
  match v with
  | VStr id => validate_session_id id;; Ok id
  | _ => Err (value_error (u "session_id must be a string"))
  end.
Definition elevation_operations : list (str * (list str * list str)) :=
  [(u "acquire", ([], [])); (u "status", ([], [])); (u "release", ([], []));
   (u "exec", ([u "command"], [u "timeout"])); (u "open_root_session", ([], [])); (u "close_root_session", ([], []))].
Definition elevation_fields (action : str) : res (list str * list str) :=
  match dget elevation_operations action with
  | Some f => Ok f
  | None => Err (value_error (u "unsupported elevation action: " ++ action))
  end.
Definition session_metadata (r : SessionRecord) (result : dict value) : dict value :=
  dmerge [(u "session_id", VStr (session_id r)); (u "profile_name", VStr (profile_name r));
          (u "ssh_user", opt_str (ssh_user r)); (u "effective_user", opt_str (effective_user r));
          (u "elevated", VBool (root_session r)); (u "root_session", VBool (root_session r))] result.
(** The payload of a command, which is rebuilt rather than passed on *)
Definition exec_payload (payload : dict value) : res (str * dict value) :=
  require_fields payload [u "session_id"; u "command"] [u "timeout"];;
  id ← session_id_value payload;
  command ← getitem payload (u "command");
  match command with
  | VStr c =>
      match vget payload (u "timeout") with
      | VNone => Ok (id, [(u "command", VStr c)])
      | t => raise_if (negb (is_number t)) (value_error (u "timeout must be a number"));;
             Ok (id, [(u "command", VStr c); (u "timeout", t)])
      end
  | _ => Err (value_error (u "command must be a string"))
  end.
Definition session_payload (payload : dict value) : res (str * dict value) :=
  raise_if (negb (dhas payload (u "session_id"))) (value_error (u "session_id is required"));;
  id ← session_id_value payload;
  Ok (id, ddel payload (u "session_id")).

End fields.

Section server.
Context {U : UnicodeDB} {S : Type} `{Ops : SupervisorOps S}.
Variable pid : Z.
Variable current_user_only : bool.     (* ipc_security_report.current_user_only *)

Definition request_session (id kind : str) (payload : option (dict value)) (timeout : Q) : M S (dict value) :=
  r ← sv_get id;
  result ← sv_request id kind payload timeout;
  mret (session_metadata r result).
Definition handle_elevation (payload : dict value) : M S (dict value) :=
  match vget payload (u "action") with
  | VStr action =>
      f ← lift (elevation_fields action);
      lift (require_fields payload (f.1 ++ [u "action"; u "session_id"]) f.2);;
      id ← lift (session_id_value payload);
      r ← sv_get id;
      if str_eqb action (u "open_root_session") then
        lift (raise_if (root_session r) (broker_request_error (u "a root session cannot open another root session")));;
        opened ← sv_start (profile_name r) true true (Some id);
        mret (dmerge (public_dict opened) [(u "status", VStr (u "opened"))])
      else if str_eqb action (u "close_root_session") then
        lift (raise_if (negb (root_session r)) (broker_request_error (u "close_root_session requires a root session ID")));;
        closed ← sv_shutdown id;
        mret (session_metadata closed
                [(u "status", VStr (u "closed")); (u "root_session", VBool true); (u "elevated", VBool true)])
      else
        lift (raise_if (root_session r) (broker_request_error (u "sudo cache actions require a normal session ID")));;
        request_session id (u "worker.elevation") (Some (ddel payload (u "session_id"))) WORKER_LONG_OPERATION_TIMEOUT_SECONDS
  | _ => raise (value_error (u "elevation action must be a string"))
  end.
Definition rediscovered (result : dict value) : dict value :=
  dmerge result [(u "rediscovered", VBool true); (u "command_retried", VBool false)].
Definition rediscover (id : str) : M S (dict value) :=
  r ← sv_get id;
  if str_eqb (record_state r) (u "lost") then
    mret (rediscovered (session_metadata r [(u "pid", VInt (worker_pid r)); (u "state", VStr (u "lost"))]))
  else
    result ← request_session id (u "worker.status") None (qz 5);
    mret (rediscovered result).
Definition handle_request (message_type : str) (payload : dict value) : M S (dict value) :=
  if str_eqb message_type (u "broker.ping") then
    lift (require_fields payload [] []);;
    mret [(u "pid", VInt pid); (u "protocol_version", VInt BROKER_PROTOCOL_VERSION);
          (u "ipc_current_user_only", VBool current_user_only)]
  else if str_eqb message_type (u "session.create") then
    lift (require_fields payload [u "profile_name"] []);;
    name ← lift (profile_name_value payload);
    r ← sv_start name false false None; mret (public_dict r)
  else if str_eqb message_type (u "session.open") then
    lift (require_fields payload [u "profile_name"] []);;
    name ← lift (profile_name_value payload);
    r ← sv_start name true false None; mret (public_dict r)
  else if str_eqb message_type (u "session.list") then
    lift (require_fields payload [] []);;
    l ← sv_list; mret [(u "sessions", VList (map (fun r => VDict (public_dict r)) l))]
  else if str_eqb message_type (u "session.status") then
    lift (require_fields payload [u "session_id"] []);;
    id ← lift (session_id_value payload); request_session id (u "worker.status") None (qz 5)
  else if str_eqb message_type (u "session.rediscover") then
    lift (require_fields payload [u "session_id"] []);;
    id ← lift (session_id_value payload); rediscover id
  else if str_eqb message_type (u "session.exec") then
    a ← lift (exec_payload payload);
    request_session a.1 (u "worker.exec") (Some a.2) WORKER_LONG_OPERATION_TIMEOUT_SECONDS
  else if str_eqb message_type (u "session.terminal") then
    a ← lift (session_payload payload); request_session a.1 (u "worker.terminal") (Some a.2) (qz 70)
  else if str_eqb message_type (u "session.files") || str_eqb message_type (u "session.file_edit") then
    a ← lift (session_payload payload);
    request_session a.1 (if str_eqb message_type (u "session.files") then u "worker.files" else u "worker.file_edit")
      (Some a.2) WORKER_LONG_OPERATION_TIMEOUT_SECONDS
  else if str_eqb message_type (u "session.elevation") then handle_elevation payload
  else if str_eqb message_type (u "session.close") then
    lift (require_fields payload [u "session_id"] []);;
    id ← lift (session_id_value payload);
    r ← sv_shutdown id; mret (session_metadata r [(u "status", VStr (u "closed"))])
  else if str_eqb message_type (u "broker.shutdown") then
    lift (require_fields payload [] []);;
    sv_stop;; mret [(u "status", VStr (u "closing"))]
  else raise (broker_request_error (u "unknown broker message type: " ++ message_type)).

(** ** Answering *)
Definition answer (message_type : str) (payload : dict value) : M S (str * dict value) :=
  try_except
    (r ← handle_request message_type payload; mret (message_type ++ u ".result", r))
    (fun e =>
       if isinstance e ServerOpsError || is_value_error e then
         mret (u "error", [(u "code", VStr (error_code e (u "invalid_request"))); (u "message", VStr (error_message e))])
       else if is_exception e then
         mret (u "error", [(u "code", VStr (u "broker_internal_error")); (u "message", VStr (u "broker request failed safely"))])
       else raise e).
Definition dispatch (request : Envelope) : M S Envelope :=
  a ← answer (message_type request) (payload request);
  lift (create [] a.1 (Some a.2) (Some (message_id request))).
End server.

(** ** Recording what the supervisor is asked *)
Inductive sv_call : Type :=
  | VStart (name : str) (open_session root : bool) (parent : option str)
  | VList
  | VGet (id : str) (found : option SessionRecord)
  | VRequest (id kind : str) (payload : option (dict value)) (timeout : Q)
  | VShutdown (id : str)
  | VStop.
Section recording.
Context {S : Type} `{Ops : SupervisorOps S}.
Abbreviation R := (S * list sv_call)%type.
Definition record {A} (call : option A → sv_call) (m : M S A) : M R A := fun s =>
  let '(r, s') := m s.1 in (r, (s', s.2 ++ [call (match r with Ret a => Some a | _ => None end)])).
Definition recorded_supervisor : SupervisorOps R := {|
  sv_start name open_session root parent :=
    record (fun _ => VStart name open_session root parent) (sv_start name open_session root parent);
  sv_list := record (fun _ => VList) sv_list;
  sv_get id := record (VGet id) (sv_get id);
  sv_request id kind payload timeout := record (fun _ => VRequest id kind payload timeout) (sv_request id kind payload timeout);
  sv_shutdown id := record (fun _ => VShutdown id) (sv_shutdown id);
  sv_stop := record (fun _ => VStop) sv_stop;
|}.
End recording.
#[export] Existing Instance recorded_supervisor.

(** ** What a message can cause *)
Section admission.
Context {U : UnicodeDB}.
Variables (message_type : str) (payload : dict value).
Definition names_session (id : str) : Prop := dget payload (u "session_id") = Some (VStr id).
Definition action_is (a : str) : Prop := vget payload (u "action") = VStr a.
(** The message a worker gets: commands are rebuilt from their checked fields,
    other payloads are passed on without the session's identifier. *)
Definition forwarded (log : list sv_call) (id kind : str) (body : option (dict value)) : Prop :=
  (message_type ∈ [u "session.status"; u "session.rediscover"] ∧ kind = u "worker.status" ∧ body = None) ∨
  (message_type = u "session.exec" ∧ kind = u "worker.exec" ∧ ∃ b, exec_payload payload = Ok (id, b) ∧ body = Some b) ∨
  ((message_type, kind) ∈ [(u "session.terminal", u "worker.terminal"); (u "session.files", u "worker.files");
                           (u "session.file_edit", u "worker.file_edit")] ∧
   body = Some (ddel payload (u "session_id"))) ∨
  (message_type = u "session.elevation" ∧ kind = u "worker.elevation" ∧ body = Some (ddel payload (u "session_id")) ∧
   (∃ a, action_is a ∧ a ∉ [u "open_root_session"; u "close_root_session"]) ∧
   ∃ r, VGet id (Some r) ∈ log ∧ root_session r = false).
(** The client waits longer than the broker, but for short sudo requests. *)
Definition outlasts (timeout : Q) : Prop :=
  qlt timeout (broker_response_timeout message_type (Some payload)) = true ∨
  message_type = u "session.elevation" ∧ (action_is (u "status") ∨ action_is (u "release")).
Definition admits (log : list sv_call) (call : sv_call) : Prop :=
  match call with
  | VList => message_type = u "session.list"
  | VGet id _ => names_session id
  | VRequest id kind body timeout =>
      names_session id ∧ (∃ r, VGet id (Some r) ∈ log) ∧ forwarded log id kind body ∧ outlasts timeout
  | VStart name open_session false parent =>
      dget payload (u "profile_name") = Some (VStr name) ∧ parent = None ∧
      message_type = (if open_session then u "session.open" else u "session.create")
  | VStart name open_session true parent =>
      message_type = u "session.elevation" ∧ action_is (u "open_root_session") ∧ open_session = true ∧
      ∃ id r, names_session id ∧ parent = Some id ∧ VGet id (Some r) ∈ log ∧ root_session r = false ∧ name = profile_name r
  | VShutdown id =>
      names_session id ∧
      (message_type = u "session.close" ∨
       message_type = u "session.elevation" ∧ action_is (u "close_root_session") ∧
       ∃ r, VGet id (Some r) ∈ log ∧ root_session r = true)
  | VStop => message_type = u "broker.shutdown"
  end.
(** Calls that change something, on a worker or on the broker *)
Definition changes (call : sv_call) : bool := match call with VList | VGet _ _ => false | _ => true end.
Definition confined (log : list sv_call) : Prop :=
  Forall (admits log) log ∧ (length (List.filter changes log) <= 1)%nat.
End admission.

Section handling.
Context {U : UnicodeDB} {S : Type} `{Ops : SupervisorOps S}.
Variable start : list sv_call.
Variables (message_type : str) (payload : dict value).
Abbreviation R := (S * list sv_call)%type.
Definition asked (log : list sv_call) (s : R) : Prop := s.2 = start ++ log.
Definition ended (s : R) : Prop := ∃ log, asked log s ∧ confined message_type payload log.
(** After the calls [log], [m] ends with confined calls. *)
Definition safe {A} (log : list sv_call) (m : M R A) : Prop :=
  triple ended (asked log) m (fun _ => ended) (fun _ => ended).

Lemma safe_ret {A} log (a : A) : confined message_type payload log → safe log (mret a).
Proof. intros H. apply triple_ret. intros s Hs. by exists log. Qed.
Lemma safe_lift {A B} log (r : res A) (f : A → M R B) :
  confined message_type payload log → (∀ a, r = Ok a → safe log (f a)) → safe log (lift r ≫= f).
Proof. intros Hc Hf. apply triple_lift_at; [exact Hf|]. intros e s Hs. by exists log. Qed.
Lemma safe_record {A B} log (call : option A → sv_call) (m : M S A) (f : A → M R B) :
  (∀ r, confined message_type payload (log ++ [call r])) → (∀ a, safe (log ++ [call (Some a)]) (f a)) →
  safe log (record call m ≫= f).
Proof.
  intros Hc Hf s Hs. unfold record, mbind, prog_mbind, prog_bind. destruct (m s.1) as [r x].
  assert (asked (log ++ [call (match r with Ret a => Some a | _ => None end)])
            (x, s.2 ++ [call (match r with Ret a => Some a | _ => None end)])) as Hx.
  { unfold asked in *. cbn. by rewrite Hs, app_assoc. }
  destruct r as [a|e|]; [by apply Hf|by eexists|by eexists].
Qed.
Lemma safe_then {A B} log (m : M R A) (f : A → B) : safe log m → safe log (m ≫= fun a => mret (f a)).
Proof. intros H. eapply triple_bind; [exact H|]. intros a. by apply triple_ret. Qed.

(** *** Logs that grow *)
Lemma admits_more log log' call : (∀ x, x ∈ log → x ∈ log') → admits message_type payload log call → admits message_type payload log' call.
Proof.
  intros Hl. destruct call as [name open [] parent| |id found|id kind body t|id|]; cbn; [|done..| | |done].
  - intros (? & ? & ? & i & r & ? & ? & ? & ? & ?). repeat split; [done..|]. exists i, r. auto.
  - unfold forwarded. naive_solver.
  - naive_solver.
Qed.
Lemma confined_nil : confined message_type payload [].
Proof. split; [constructor|cbn; lia]. Qed.
Lemma confined_snoc log call :
  confined message_type payload log → admits message_type payload (log ++ [call]) call →
  (changes call = true → List.filter changes log = []) → confined message_type payload (log ++ [call]).
Proof.
  intros [Ha Hl] Hc Hch. split.
  - apply Forall_app. split; [|by constructor]. eapply Forall_impl; [exact Ha|]. intros x.
    apply admits_more. set_solver.
  - rewrite List.filter_app, length_app. cbn. destruct (changes call); cbn; [rewrite Hch by done; cbn; lia|lia].
Qed.

(** *** Fields *)
Lemma session_id_named id : session_id_value payload = Ok id → names_session payload id.
Proof.
  unfold session_id_value, getitem, names_session. destruct (dget _ _) as [[]|]; cbn; try discriminate.
  destruct (validate_session_id _); cbn; [by intros [= ->]|discriminate].
Qed.
Lemma profile_name_given name : profile_name_value payload = Ok name → dget payload (u "profile_name") = Some (VStr name).
Proof.
  unfold profile_name_value, getitem. destruct (dget _ _) as [[]|]; cbn; try discriminate.
  destruct (validate_profile_name _); cbn; [by intros [= ->]|discriminate].
Qed.
Lemma session_payload_named a :
  session_payload payload = Ok a → names_session payload a.1 ∧ a.2 = ddel payload (u "session_id").
Proof.
  unfold session_payload. intros H. inv_ok H. injection H as <-. split; [by apply session_id_named|done].
Qed.
Lemma exec_payload_named a : exec_payload payload = Ok a → names_session payload a.1.
Proof.
  unfold exec_payload. intros H. inv_ok H. destruct a2; try discriminate.
  assert (a.1 = a1) as ->; [|by apply session_id_named].
  destruct (vget payload (u "timeout")); inv_ok H; by injection H as <-.
Qed.

(** *** Each kind of request *)
Abbreviation reads log := (List.filter changes log = []).
(** One call, and nothing after it that calls *)
Lemma safe_call {A B} log (call : option A → sv_call) (m : M S A) (f : A → B) :
  confined message_type payload log → reads log →
  (∀ r, admits message_type payload (log ++ [call r]) (call r)) →
  safe log (record call m ≫= fun a => mret (f a)).
Proof.
  intros Hc Hr Ha. apply safe_record; [intros r; apply confined_snoc; auto|].
  intros a. apply safe_ret, confined_snoc; auto.
Qed.
Lemma safe_get {B} log id (f : SessionRecord → M R B) :
  confined message_type payload log → names_session payload id →
  (∀ r, confined message_type payload (log ++ [VGet id (Some r)]) → safe (log ++ [VGet id (Some r)]) (f r)) →
  safe log (record (VGet id) (sv_get id) ≫= f).
Proof.
  intros Hc Hn Hf. assert (∀ r, confined message_type payload (log ++ [VGet id r])) as H.
  { intros r. by apply confined_snoc. }
  apply safe_record; [exact H|]. intros r. by apply Hf.
Qed.
Lemma reads_snoc log id r : reads log → reads (log ++ [VGet id r]).
Proof. intros H. by rewrite List.filter_app, H. Qed.
Lemma safe_request_session log id kind body t :
  confined message_type payload log → reads log → names_session payload id →
  (∀ r, forwarded message_type payload (log ++ [VGet id (Some r)]) id kind body) → outlasts message_type payload t →
  safe log (request_session id kind body t).
Proof.
  intros Hc Hr Hn Hf Ht. apply safe_get; [done..|]. intros r Hc'.
  apply safe_call; [done|by apply reads_snoc|]. intros _. cbn. split; [done|].
  split; [exists r; set_solver|]. split; [|done].
  eapply (admits_more (log ++ [VGet id (Some r)]) _ (VRequest id kind body t)); [set_solver|]. cbn.
  split; [done|]. split; [exists r; set_solver|]. by split.
Qed.
Lemma safe_rediscover id :
  message_type = u "session.rediscover" → names_session payload id → safe [] (rediscover id).
Proof.
  intros Hty Hn. apply safe_get; [apply confined_nil|done|]. intros r Hc.
  destruct (str_eqb _ _); [by apply safe_ret|]. apply safe_then, safe_request_session; [done..| |].
  - intros r'. left. rewrite Hty. split; [by right; left|done].
  - left. by rewrite Hty.
Qed.
Lemma elevation_action action f :
  elevation_fields action = Ok f →
  action ∈ [u "acquire"; u "status"; u "release"; u "exec"; u "open_root_session"; u "close_root_session"].
Proof.
  unfold elevation_fields. destruct (dget _ _) eqn:E; [|discriminate]. intros _.
  by apply dget_Some_key in E.
Qed.
Lemma elevation_outlasts action :
  message_type = u "session.elevation" → action_is payload action →
  action ∈ [u "acquire"; u "status"; u "release"; u "exec"] → outlasts message_type payload WORKER_LONG_OPERATION_TIMEOUT_SECONDS.
Proof.
  unfold outlasts, broker_response_timeout, action_is. intros -> Ha Hin. change (default [] (Some payload)) with payload. cbv zeta. rewrite !Ha.
  rewrite !elem_of_cons, elem_of_nil in Hin. destruct Hin as [->|[->|[->|[->|[]]]]];
    [by left|right; split; [done|by left]|right; split; [done|by right]|by left].
Qed.
Lemma safe_elevation : message_type = u "session.elevation" → safe [] (handle_elevation payload).
Proof.
  intros Hty. unfold handle_elevation. destruct (vget payload _) as [| | | |action| | |] eqn:Ha;
    try (apply triple_raise; intros s Hs; exists []; split; [exact Hs|apply confined_nil]).
  apply safe_lift; [apply confined_nil|]. intros f Hf%elevation_action.
  apply safe_lift; [apply confined_nil|]. intros _ _.
  apply safe_lift; [apply confined_nil|]. intros id Hid%session_id_named.
  apply safe_get; [apply confined_nil|done|]. intros r Hc.
  destruct (str_eqb action (u "open_root_session")) eqn:Eo.
  - apply bool_decide_eq_true in Eo as ->. apply safe_lift; [done|]. intros [] Hr.
    apply safe_call; [done..|]. intros _. cbn. repeat (split; [done|]). exists id, r.
    repeat (split; [done|]). split; [by left|]. split; [|done]. by destruct (root_session r).
  - destruct (str_eqb action (u "close_root_session")) eqn:Ec.
    + apply bool_decide_eq_true in Ec as ->. apply safe_lift; [done|]. intros [] Hr.
      apply safe_call; [done..|]. intros _. cbn. split; [done|]. right. repeat (split; [done|]). exists r.
      split; [by left|]. by destruct (root_session r).
    + apply bool_decide_eq_false in Eo, Ec. apply safe_lift; [done|]. intros [] Hr.
      apply safe_request_session; [done..| |].
      * intros r'. right; right; right. repeat (split; [done|]). split; [exists action; set_solver|].
        exists r. split; [set_solver|]. by destruct (root_session r).
      * apply (elevation_outlasts action); [done..|]. set_solver.
Qed.

(** Once the type is known: what the request may do *)
Ltac known H := unfold str_eqb in H; boolean.
Lemma safe_checked {A} required (f : M (S * list sv_call) A) :
  safe [] f → safe [] (lift (require_fields payload required []);; f).
Proof. intros H. by apply safe_lift; [apply confined_nil|]. Qed.
Lemma safe_on_session {A} required (f : str → M R A) :
  (∀ id, names_session payload id → safe [] (f id)) →
  safe [] (lift (require_fields payload required []);; id ← lift (session_id_value payload); f id).
Proof. intros H. apply safe_checked, safe_lift; [apply confined_nil|]. intros id Hn%session_id_named. by apply H. Qed.
Lemma safe_on_profile (open_session : bool) :
  message_type = (if open_session then u "session.open" else u "session.create") →
  safe [] (lift (require_fields payload [u "profile_name"] []);; name ← lift (profile_name_value payload);
           r ← sv_start name open_session false None; mret (public_dict r)).
Proof.
  intros H. apply safe_checked, safe_lift; [apply confined_nil|]. intros name Hn%profile_name_given.
  by apply safe_call; [apply confined_nil|..].
Qed.
Lemma safe_passed_on kind t :
  (message_type, kind) ∈ [(u "session.terminal", u "worker.terminal"); (u "session.files", u "worker.files");
                          (u "session.file_edit", u "worker.file_edit")] → outlasts message_type payload t →
  safe [] (a ← lift (session_payload payload); request_session a.1 kind (Some a.2) t).
Proof.
  intros Hk Ht. apply safe_lift; [apply confined_nil|]. intros a [Hn Hb]%session_payload_named.
  apply safe_request_session; [apply confined_nil|done..| |done]. intros r. right; right; left. by rewrite Hb.
Qed.
Lemma safe_exec :
  message_type = u "session.exec" →
  safe [] (a ← lift (exec_payload payload);
           request_session a.1 (u "worker.exec") (Some a.2) WORKER_LONG_OPERATION_TIMEOUT_SECONDS).
Proof.
  intros Hty. apply safe_lift; [apply confined_nil|]. intros [id b] Ha. pose proof (exec_payload_named _ Ha) as Hn.
  apply safe_request_session; [apply confined_nil|done|done| |left; by rewrite Hty].
  intros r. right; left. repeat (split; [done|]). by exists b.
Qed.
Lemma safe_status id :
  message_type = u "session.status" → names_session payload id →
  safe [] (request_session id (u "worker.status") None (qz 5)).
Proof.
  intros Hty Hn. apply safe_request_session; [apply confined_nil|done|done| |left; by rewrite Hty].
  intros r. left. split; [rewrite Hty; by left|done].
Qed.
Lemma safe_handle_request pid current_user_only :
  safe [] (handle_request pid current_user_only message_type payload).
Proof.
  unfold handle_request.
  destruct (str_eqb message_type (u "broker.ping")) eqn:E0; [apply safe_checked, safe_ret, confined_nil|].
  destruct (str_eqb message_type (u "session.create")) eqn:E1; [known E1; by apply (safe_on_profile false)|].
  destruct (str_eqb message_type (u "session.open")) eqn:E2; [known E2; by apply (safe_on_profile true)|].
  destruct (str_eqb message_type (u "session.list")) eqn:E3.
  { known E3. by apply safe_checked, safe_call; [apply confined_nil|..]. }
  destruct (str_eqb message_type (u "session.status")) eqn:E4.
  { known E4. apply safe_on_session. intros id. by apply safe_status. }
  destruct (str_eqb message_type (u "session.rediscover")) eqn:E5.
  { known E5. apply safe_on_session. intros id. by apply safe_rediscover. }
  destruct (str_eqb message_type (u "session.exec")) eqn:E6; [known E6; by apply safe_exec|].
  destruct (str_eqb message_type (u "session.terminal")) eqn:E7.
  { known E7. apply safe_passed_on; [rewrite E7; by left|left; by rewrite E7]. }
  destruct (str_eqb message_type (u "session.files")) eqn:E8; cbn [orb].
  { known E8. apply safe_passed_on; [rewrite E8; by right; left|left; by rewrite E8]. }
  destruct (str_eqb message_type (u "session.file_edit")) eqn:E9.
  { known E9. apply safe_passed_on; [rewrite E9; by right; right; left|left; by rewrite E9]. }
  destruct (str_eqb message_type (u "session.elevation")) eqn:E10; [known E10; by apply safe_elevation|].
  destruct (str_eqb message_type (u "session.close")) eqn:E11.
  { known E11. apply safe_on_session. intros id Hn. apply safe_call; [apply confined_nil|done|]. intros _.
    split; [done|by left]. }
  destruct (str_eqb message_type (u "broker.shutdown")) eqn:E12.
  { known E12. apply safe_checked. by apply (safe_call [] _ _ (fun _ : unit => _)); [apply confined_nil|..]. }
  apply triple_raise. intros s Hs. exists []. split; [exact Hs|apply confined_nil].
Qed.
End handling.

(** ** Recording changes nothing *)
Section mirroring.
Context {U : UnicodeDB} {S : Type} `{Ops : SupervisorOps S}.
Abbreviation R := (S * list sv_call)%type.
Definition mirrors {A} (m : M R A) (m' : M S A) : Prop :=
  ∀ s, let '(r, x) := m s in m' s.1 = (r, x.1).
Lemma mirrors_bind {A B} (m : M R A) m' (f : A → M R B) f' :
  mirrors m m' → (∀ a, mirrors (f a) (f' a)) → mirrors (m ≫= f) (m' ≫= f').
Proof.
  intros Hm Hf s. specialize (Hm s). unfold mbind, prog_mbind, prog_bind. destruct (m s) as [[a|e|] x];
    rewrite Hm; [|done..]. apply Hf.
Qed.
Lemma mirrors_ret {A} (a : A) : mirrors (mret a) (mret a).
Proof. done. Qed.
Lemma mirrors_raise {A} e : mirrors (A := A) (raise e) (raise e).
Proof. done. Qed.
Lemma mirrors_lift {A} (r : res A) : mirrors (lift r) (lift r).
Proof. by intros s; destruct r. Qed.
Lemma mirrors_record {A} (call : option A → sv_call) (m : M S A) : mirrors (record call m) m.
Proof. intros s. unfold record. by destruct (m s.1). Qed.
Ltac mirrored :=
  repeat first [ apply mirrors_record | apply mirrors_ret | apply mirrors_raise | apply mirrors_lift
               | (apply mirrors_bind; [|intros ?])
               | match goal with |- mirrors (if ?b then _ else _) _ => destruct b end
               | match goal with |- mirrors (match ?v with _ => _ end) _ => destruct v end ].
Lemma mirrors_handle_request pid current_user_only message_type payload :
  mirrors (handle_request (S := R) pid current_user_only message_type payload)
          (handle_request (S := S) pid current_user_only message_type payload).
Proof. unfold handle_request, handle_elevation, rediscover, request_session. mirrored. Qed.
End mirroring.

(** C10: whatever a client sends, handling it makes at most one call
    that changes anything; the calls are on the session or the profile that the
    message names, in the operation its type selects, with the payload rebuilt
    or stripped of the session's identifier, and a root session is opened or
    closed only from a session of the right kind.  The broker waits for a worker
    a shorter time than the client waits for the broker, except when a sudo
    status is asked or released.  Recording the calls changes nothing. *)
Theorem broker_confined {U : UnicodeDB} {S : Type} {Ops : SupervisorOps S} pid current_user_only message_type payload
    (s : S) (log : list sv_call) :
  let '(r, x) := handle_request (S := S * list sv_call) pid current_user_only message_type payload (s, log) in
  handle_request (S := S) pid current_user_only message_type payload s = (r, x.1) ∧
  ∃ calls, x.2 = log ++ calls ∧ confined message_type payload calls.
Proof.
  pose proof (safe_handle_request log message_type payload pid current_user_only (s, log)) as H.
  pose proof (mirrors_handle_request pid current_user_only message_type payload (s, log)) as Hm.
  destruct (handle_request _ _ _ _ (s, log)) as [r x]. split; [done|].
  assert (asked log [] (s, log)) as H0 by (by unfold asked; rewrite app_nil_r).
  destruct r; exact (H H0).
Qed.
