(* ===== verification/BrokerProcess.v ===== *)
(** * BrokerProcess: the life of the broker (broker/server.py)

    The broker publishes its status, accepts clients until it is told to stop,
    serves each of them on a thread, and on the way out closes every worker and
    removes the status it wrote.  Its listener, its threads and the status file
    are a script of answers; monitors say in which order they are used. *)
From S2P Require Import Prelude Errors Text TextFacts Value Prog Ipc BrokerModel BrokerServer.

(** ** Serving one client *)
Inductive client_call : Type :=
  | CHandshake | CStopping | CReceive
  | CSend (e : Envelope)
  | CDisconnect | CForget.               (* leaving connection; _client_threads.discard(...) *)
Inductive client_reply : Type :=
  | CDone
  | CFlag (set : bool)
  | CRequest (e : Envelope).
Section client.
Context {U : UnicodeDB} {S : Type} `{Ops : SupervisorOps S}.
Variables (pid : Z) (current_user_only : bool).
Abbreviation P := (M (io S client_call client_reply)).

Definition call (c : client_call) : P unit := ask c;; mret tt.
Definition receive : P Envelope := r ← ask CReceive; match r with CRequest e => mret e | _ => hang end.
Definition stopping : P bool := r ← ask CStopping; match r with CFlag b => mret b | _ => hang end.
Definition on_server {A} (m : M S A) : P A := fun s =>
  let '(r, x) := m (st s) in (r, Io x (script s) (trace s)).
(** Each round asks whether to stop, so [fuel] is enough when it exceeds the
    answers left. *)
Fixpoint serve_requests (fuel : nat) : P unit :=
  match fuel with
  | O => hang
  | Datatypes.S fuel =>
      stop ← stopping;
      if stop : bool then mret tt
      else
        request ← receive;
        response ← on_server (dispatch pid current_user_only request);
        call (CSend response);;
        serve_requests fuel
  end.
Definition serve_client : P unit :=
  s ← Prelude.get;
  try_finally
    (try_except
       (try_finally (call CHandshake;; serve_requests (Datatypes.S (length (script s)))) (call CDisconnect))
       (fun e => if isinstance e IpcError then mret tt else raise e))
    (call CForget).
End client.

(** *** The order of its calls *)
Inductive client_phase : Type :=
  | New | Ready | Asking | Owes (request : Envelope) | Hanging | Disconnected | Gone.
Definition client_allowed (ph : client_phase) (c : client_call) : Prop :=
  match ph, c with
  | New, CHandshake | Ready, CStopping | Asking, CReceive | Disconnected, CForget => True
  | Hanging, CDisconnect | Owes _, CDisconnect => True
  | Owes request, CSend response => responds request response
  | _, _ => False
  end.
Definition client_after (ph : client_phase) (c : client_call) (a : res client_reply) : client_phase :=
  match c, a with
  | CHandshake, Ok _ | CSend _, Ok _ => Ready
  | CStopping, Ok (CFlag false) => Asking
  | CReceive, Ok (CRequest request) => Owes request
  | CDisconnect, _ => Disconnected
  | CForget, _ => Gone
  | _, _ => Hanging
  end.

Section client_lifetime.
Context {U : UnicodeDB} {S : Type} `{Ops : SupervisorOps S}.
Variables (pid : Z) (current_user_only : bool).
Context (tr : list client_call) (scr : list (res client_reply)).
Abbreviation IO := (io S client_call client_reply).
Abbreviation at_ph := (at_phase client_allowed client_after tr scr New).
Abbreviation stuck := (obeyed client_allowed client_after tr scr New).

Lemma triple_client_call ph c (Q : unit → IO → Prop) (R : exn → IO → Prop) :
  client_allowed ph c →
  (∀ a s, at_ph (client_after ph c (Ok a)) s → Q tt s) → (∀ e s, at_ph (client_after ph c (Err e)) s → R e s) →
  triple stuck (at_ph ph) (call c) Q R.
Proof.
  intros Hc HQ HR. unfold call.
  eapply (triple_bind _ _ _ _ (fun a => at_ph (client_after ph c (Ok a)))); [by apply triple_monitored|].
  intros a. apply triple_ret. eauto.
Qed.
(** What dispatching returns answers the request. *)
Lemma dispatch_responds request :
  spec (fun _ : S => True) (dispatch pid current_user_only request) (responds request).
Proof.
  unfold dispatch, answer. eapply (spec_bind _ _ (fun a => a.1 = message_type request ++ u ".result" ∨ a.1 = u "error")).
  - apply spec_try.
    + eapply (spec_bind _ _ anything); [intros s _; by destruct (handle_request _ _ _ _ s) as [[]]|].
      intros r _. apply spec_ret. by left.
    + intros e. repeat spec_step; by right.
  - intros [kind body] Hk. eapply spec_conseq; [apply spec_lift|]. intros response [Hid Hty]%create_responds.
    split; [done|by rewrite Hty].
Qed.
(** Phases in which the connection is closed next *)
Definition hanging_up (s : IO) : Prop :=
  ∃ ph, at_ph ph s ∧ match ph with Hanging | Owes _ => True | _ => False end.
Lemma hanging s : at_ph Hanging s → hanging_up s.
Proof. by exists Hanging. Qed.
Lemma owing request s : at_ph (Owes request) s → hanging_up s.
Proof. by exists (Owes request). Qed.
Lemma serve_requests_order fuel :
  triple stuck (at_ph Ready) (serve_requests pid current_user_only fuel) (fun _ => hanging_up) (fun _ => hanging_up).
Proof.
  induction fuel as [|fuel IH]; [intros s Hs; by eapply at_phase_obeyed|]. cbn [serve_requests].
  eapply (triple_bind _ _ _ _ (fun b : bool => if b then at_ph Hanging else at_ph Asking)).
  { eapply (triple_bind _ _ _ _ (fun r => at_ph (client_after Ready CStopping (Ok r)))).
    - apply triple_monitored; [done|done|]. intros e s. apply hanging.
    - intros [|[]|e]; [|by apply triple_ret|by apply triple_ret|]; intros s Hs; by eapply at_phase_obeyed. }
  intros []; [apply triple_ret, hanging|].
  eapply (triple_bind _ _ _ _ (fun request => at_ph (Owes request))).
  { eapply (triple_bind _ _ _ _ (fun r => at_ph (client_after Asking CReceive (Ok r)))).
    - apply triple_monitored; [done|done|]. intros e s. apply hanging.
    - intros [|b|e]; [| |by apply triple_ret]; intros s Hs; by eapply at_phase_obeyed. }
  intros request. eapply (triple_bind _ _ _ _ (fun response s => responds request response ∧ at_ph (Owes request) s)).
  { intros s Hs. unfold on_server. pose proof (dispatch_responds request (st s) I) as Hr.
    destruct (dispatch _ _ _ (st s)) as [[response|e|] x]; [by destruct Hr|by eapply owing|].
    eapply at_phase_obeyed, (Hs : at_ph (Owes request) (Io x (script s) (trace s))). }
  intros response. apply triple_pure. intros Hr.
  eapply (triple_bind _ _ _ _ (fun _ => at_ph Ready)); [|by intros _; apply IH].
  apply triple_client_call; [done|done|]. intros e s. apply hanging.
Qed.
Lemma serve_client_order :
  triple stuck (at_ph New) (serve_client pid current_user_only) (fun _ => at_ph Gone) (fun _ => at_ph Gone).
Proof.
  unfold serve_client. apply triple_get. intros s0 Hs0.
  match goal with |- triple _ _ ?m ?Q ?R => enough (triple stuck (at_ph New) m Q R) as Hm end.
  { intros s ->. by apply Hm. }
  eapply (triple_cleanup _ _ _ _ (fun _ => at_ph Disconnected) _ (fun _ => at_ph Disconnected)).
  - apply (triple_try _ _ _ _ _ (fun _ => at_ph Disconnected)).
    + eapply (triple_cleanup _ _ _ _ (fun _ => hanging_up) _ (fun _ => hanging_up)).
      * eapply (triple_bind _ _ _ _ (fun _ => at_ph Ready)); [|intros _; apply serve_requests_order].
        apply triple_client_call; [done|done|]. intros e s. apply hanging.
      * intros _ s (ph & Hs & Hph). revert s Hs. by apply triple_client_call; destruct ph.
      * intros _ s (ph & Hs & Hph). revert s Hs. by apply triple_client_call; destruct ph.
    + intros e. destruct (isinstance e IpcError); [by apply triple_ret|by apply triple_raise].
  - intros _. by apply triple_client_call.
  - intros _. by apply triple_client_call.
Qed.
End client_lifetime.

(** ** Accepting clients *)
Inductive server_call : Type :=
  | SPublish (document : dict value)     (* runtime.write_json(broker_status_path, ...) *)
  | SStopping | SAccept | SRefuse        (* _stop.is_set(), listener.accept(), connection.close() *)
  | SSpawn                               (* starting the thread of [serve_client], in _client_threads *)
  | SStop | SStopListening               (* _stop.set(), listener.close() *)
  | SThreads                             (* tuple(_client_threads) *)
  | SJoin (thread : Z)                   (* thread.join(timeout=2) *)
  | SCloseAll                            (* supervisor.close_all() *)
  | SReadStatus | SUnlink.
Inductive server_reply : Type :=
  | SDone
  | SFlag (set : bool)
  | SClients (threads : list Z)
  | SStatus (document : dict value).
Section server.
Variables (pid : Z) (pipe instance_token : str) (started_at : Q) (current_thread : Z).
Abbreviation P := (M (io unit server_call server_reply)).

Definition tell (c : server_call) : P unit := ask c;; mret tt.
Definition stop_set : P bool := r ← ask SStopping; match r with SFlag b => mret b | _ => hang end.
Definition broker_status : dict value :=
  [(u "pid", VInt pid); (u "pipe", VStr pipe); (u "protocol_version", VInt BROKER_PROTOCOL_VERSION);
   (u "instance_token", VStr instance_token); (u "started_at", seconds started_at)].
(** [except BaseException:] whatever accepting raises is swallowed when the
    broker is stopping, and raised again otherwise. *)
Fixpoint accept_clients (fuel : nat) : P unit :=
  match fuel with
  | O => hang
  | Datatypes.S fuel =>
      stop ← stop_set;
      if stop : bool then mret tt
      else
        accepted ← try_except (tell SAccept;; mret true)
                     (fun e => stop ← stop_set; if stop : bool then mret false else raise e);
        if accepted : bool then
          stop ← stop_set;
          if stop : bool then tell SRefuse else tell SSpawn;; accept_clients fuel
        else mret tt
  end.
Fixpoint join_all (threads : list Z) : P unit :=
  match threads with
  | [] => mret tt
  | t :: threads => (if t =? current_thread then mret tt else tell (SJoin t));; join_all threads
  end.
Definition join_clients : P unit :=
  r ← ask SThreads; match r with SClients threads => join_all threads | _ => hang end.
Definition unreadable (e : exn) : bool :=
  is_value_error e || match e with Builtin FileNotFoundError _ => true | _ => false end.
Definition owns_status (document : dict value) : bool := eq_str (vget document (u "instance_token")) instance_token.
Definition remove_own_status : P unit :=
  status ← try_except (r ← ask SReadStatus; match r with SStatus d => mret (Some d) | _ => hang end)
             (fun e => if unreadable e then mret None else raise e);
  match status with
  | Some d => if owns_status d then tell SUnlink else mret tt
  | None => mret tt
  end.
Definition serve_forever : P unit :=
  tell (SPublish broker_status);;
  s ← Prelude.get;
  try_finally (accept_clients (Datatypes.S (length (script s))))
    (tell SStop;; tell SStopListening;; join_clients;; tell SCloseAll;; remove_own_status).
End server.

(** *** The order of its calls *)
Inductive server_phase : Type :=
  | Unpublished
  | Running | MayAccept                  (* _stop is to be read; it was unset *)
  | Accepted | MayServe                  (* a client waits; _stop was unset *)
  | MustRefuse
  | Failing                              (* accepting raised *)
  | Ended                                (* the loop is over *)
  | Stopped | Closed | Joining (threads : list Z) | Emptied | Identified (own : bool) | Done.
Definition server_allowed (ph : server_phase) (c : server_call) : Prop :=
  match ph, c with
  | Unpublished, SPublish _ | (Running | Accepted | Failing), SStopping | MayAccept, SAccept
  | MayServe, SSpawn | MustRefuse, SRefuse | Ended, SStop | Stopped, SStopListening | Closed, SThreads
  | Joining [], SCloseAll | Emptied, SReadStatus | Identified true, SUnlink => True
  | Joining (t :: _), SJoin t' => t' = t
  | _, _ => False
  end.
Section server_lifetime.
Variables (pid : Z) (pipe instance_token : str) (started_at : Q) (current_thread : Z).
Definition others (threads : list Z) : list Z := List.filter (fun t => negb (t =? current_thread)) threads.
Definition server_after (ph : server_phase) (c : server_call) (a : res server_reply) : server_phase :=
  match c, a with
  | SPublish _, Ok _ | SSpawn, Ok _ => Running
  | SStopping, Ok (SFlag stop) =>
      match ph with
      | Running => if stop then Ended else MayAccept
      | Accepted => if stop then MustRefuse else MayServe
      | _ => Ended
      end
  | SAccept, Ok _ => Accepted
  | SAccept, Err _ => Failing
  | SStopping, _ | SSpawn, _ | SRefuse, _ => Ended
  | SStop, Ok _ => Stopped
  | SStopListening, Ok _ => Closed
  | SThreads, Ok (SClients threads) => Joining (others threads)
  | SJoin _, Ok _ => match ph with Joining (_ :: threads) => Joining threads | _ => Done end
  | SCloseAll, Ok _ => Emptied
  | SReadStatus, Ok (SStatus document) => Identified (owns_status instance_token document)
  | SReadStatus, Err e => if unreadable e then Identified false else Done
  | _, _ => Done
  end.
Context (tr : list server_call) (scr : list (res server_reply)).
Abbreviation IO := (io unit server_call server_reply).
Abbreviation at_ph := (at_phase server_allowed server_after tr scr Unpublished).
Abbreviation stuck := (obeyed server_allowed server_after tr scr Unpublished).

Lemma broker_tell ph c (Q : unit → IO → Prop) (R : exn → IO → Prop) :
  server_allowed ph c →
  (∀ a s, at_ph (server_after ph c (Ok a)) s → Q tt s) → (∀ e s, at_ph (server_after ph c (Err e)) s → R e s) →
  triple stuck (at_ph ph) (tell c) Q R.
Proof.
  intros Hc HQ HR. unfold tell.
  eapply (triple_bind _ _ _ _ (fun a => at_ph (server_after ph c (Ok a)))); [by apply triple_monitored|].
  intros a. apply triple_ret. eauto.
Qed.
Lemma triple_stop_set ph :
  ph = Running ∨ ph = Accepted ∨ ph = Failing →
  triple stuck (at_ph ph) stop_set (fun stop => at_ph (server_after ph SStopping (Ok (SFlag stop)))) (fun _ => at_ph Ended).
Proof.
  intros Hph. eapply (triple_bind _ _ _ _ (fun r => at_ph (server_after ph SStopping (Ok r)))).
  - apply triple_monitored; [by destruct Hph as [->|[->| ->]]|done|done].
  - intros [|b| |]; [|by apply triple_ret|..]; intros s Hs; by eapply at_phase_obeyed.
Qed.
Lemma accept_clients_order fuel :
  triple stuck (at_ph Running) (accept_clients fuel) (fun _ => at_ph Ended) (fun _ => at_ph Ended).
Proof.
  induction fuel as [|fuel IH]; [intros s Hs; by eapply at_phase_obeyed|]. cbn [accept_clients].
  eapply triple_bind; [by apply triple_stop_set; left|]. intros []; [by apply triple_ret|].
  eapply (triple_bind _ _ _ _ (fun ok => at_ph (if ok : bool then Accepted else Ended))).
  - apply (triple_try _ _ _ _ _ (fun _ => at_ph Failing)).
    + eapply (triple_bind _ _ _ _ (fun _ => at_ph Accepted)); [by apply broker_tell|]. intros _. by apply triple_ret.
    + intros e. eapply triple_bind; [by apply triple_stop_set; right; right|].
      intros []; [by apply triple_ret|by apply triple_raise].
  - intros []; [|by apply triple_ret].
    eapply triple_bind; [by apply triple_stop_set; right; left|]. intros []; [by apply broker_tell|].
    eapply (triple_bind _ _ _ _ (fun _ => at_ph Running)); [by apply broker_tell|]. intros _. apply IH.
Qed.
Lemma join_all_order threads :
  triple stuck (at_ph (Joining (others threads))) (join_all current_thread threads)
    (fun _ => at_ph (Joining [])) (fun _ => at_ph Done).
Proof.
  induction threads as [|t threads IH]; [by apply triple_ret|]. cbn [join_all others List.filter].
  destruct (t =? current_thread); cbn [negb].
  - eapply (triple_bind _ _ _ _ (fun _ => at_ph (Joining (others threads)))); [by apply triple_ret|]. intros _. apply IH.
  - eapply (triple_bind _ _ _ _ (fun _ => at_ph (Joining (others threads)))); [by apply broker_tell|]. intros _. apply IH.
Qed.
(** The clean-up, complete when it returns *)
Definition cleaned (s : IO) : Prop := at_ph Done s ∨ at_ph (Identified false) s.
Lemma remove_own_status_order :
  triple stuck (at_ph Emptied) (remove_own_status instance_token) (fun _ => cleaned) (fun _ => at_ph Done).
Proof.
  unfold remove_own_status.
  eapply (triple_bind _ _ _ _ (fun d => at_ph (Identified (match d with Some d => owns_status instance_token d | _ => false end)))).
  - apply (triple_try _ _ _ _ _ (fun e => at_ph (server_after Emptied SReadStatus (Err e)))).
    + eapply (triple_bind _ _ _ _ (fun r => at_ph (server_after Emptied SReadStatus (Ok r)))); [by apply triple_monitored|].
      intros [| | |d]; [intros s Hs; by eapply at_phase_obeyed..|by apply triple_ret].
    + intros e. cbn [server_after]. destruct (unreadable e); [by apply triple_ret|by apply triple_raise].
  - intros [d|]; [|apply triple_ret; by right]. destruct (owns_status _ _); [|apply triple_ret; by right].
    apply broker_tell; [done|by left|done].
Qed.
Lemma cleanup_order :
  triple stuck (at_ph Ended)
    (tell SStop;; tell SStopListening;; join_clients current_thread;; tell SCloseAll;; remove_own_status instance_token)
    (fun _ => cleaned) (fun _ => at_ph Done).
Proof.
  eapply (triple_bind _ _ _ _ (fun _ => at_ph Stopped)); [by apply broker_tell|]. intros _.
  eapply (triple_bind _ _ _ _ (fun _ => at_ph Closed)); [by apply broker_tell|]. intros _.
  eapply (triple_bind _ _ _ _ (fun _ => at_ph (Joining []))).
  { eapply (triple_bind _ _ _ _ (fun r => at_ph (server_after Closed SThreads (Ok r)))); [by apply triple_monitored|].
    intros [| |threads|]; [| |apply join_all_order|]; intros s Hs; by eapply at_phase_obeyed. }
  intros _. eapply (triple_bind _ _ _ _ (fun _ => at_ph Emptied)); [by apply broker_tell|]. intros _.
  apply remove_own_status_order.
Qed.
Lemma serve_forever_order :
  triple stuck (at_ph Unpublished) (serve_forever pid pipe instance_token started_at current_thread)
    (fun _ => cleaned) (fun _ => cleaned).
Proof.
  unfold serve_forever. eapply (triple_bind _ _ _ _ (fun _ => at_ph Running)).
  { apply broker_tell; [done|done|by left]. }
  intros _. apply triple_get. intros s0 Hs0.
  eapply (triple_cleanup _ _ _ _ (fun _ => at_ph Ended) _ (fun _ => at_ph Ended)).
  - intros s ->. by apply accept_clients_order.
  - intros _. eapply triple_raising; [apply cleanup_order|]. by left.
  - intros _. eapply triple_raising; [apply cleanup_order|]. by left.
Qed.
End server_lifetime.

(** ** The bounds of the loops never decide *)
Section bounds.
Context {U : UnicodeDB} {S : Type} `{Ops : SupervisorOps S}.
Lemma spec_told_within k c : spec (within k) (tell c) anything.
Proof. eapply spec_bind; [apply spec_ask_within|]. intros r _. by apply spec_ret. Qed.
Lemma stop_set_fewer k : triple (fun _ => True) (within k) stop_set (fun _ => fewer k) (fun _ => fewer k).
Proof.
  eapply triple_bind; [apply triple_ask_fewer|]. intros [|b| |]; [done| |done|done]. by apply triple_ret.
Qed.
Lemma stop_set_within k : spec (within k) stop_set anything.
Proof.
  eapply spec_bind; [apply spec_ask_within|]. intros [|b| |] _; [by apply spec_hang|by apply spec_ret|by apply spec_hang..].
Qed.
Lemma accept_clients_agree k n m : (k < n)%nat → (k < m)%nat → agree k (accept_clients n) (accept_clients m).
Proof.
  revert k m. induction n as [|n IH]; intros k [|m] Hn Hm; [lia..|]. cbn [accept_clients].
  eapply agree_consumed; [apply stop_set_fewer|]. intros stop k' Hk'. destruct stop; [apply agree_refl|].
  apply agree_bind; [apply agree_refl| |].
  { apply spec_try; [eapply spec_bind; [apply spec_told_within|]; intros _ _; by apply spec_ret|].
    intros e. eapply spec_bind; [apply stop_set_within|]. intros [] _; by spec_step. }
  intros []; [|apply agree_refl].
  apply agree_bind; [apply agree_refl|apply stop_set_within|]. intros []; [apply agree_refl|].
  apply agree_bind; [apply agree_refl|apply spec_told_within|]. intros _. apply IH; lia.
Qed.
Lemma serve_requests_agree pid current_user_only k n m :
  (k < n)%nat → (k < m)%nat →
  agree k (serve_requests (S := S) pid current_user_only n) (serve_requests (S := S) pid current_user_only m).
Proof.
  revert k m. induction n as [|n IH]; intros k [|m] Hn Hm; [lia..|]. cbn [serve_requests].
  apply agree_consumed with (R := fun _ => fewer k).
  { eapply triple_bind; [apply triple_ask_fewer|]. intros [|b|]; [done| |done]. by apply triple_ret. }
  intros stop k' Hk'. destruct stop; [apply agree_refl|].
  apply agree_bind; [apply agree_refl| |].
  { eapply spec_bind; [apply spec_ask_within|]. intros [] _; [by apply spec_hang..|by apply (spec_ret _ anything)]. }
  intros request. apply agree_bind; [apply agree_refl| |].
  { intros s Hs. unfold on_server. by destruct (dispatch _ _ _ (st s)) as [[]]. }
  intros response. apply agree_bind; [apply agree_refl| |intros _; apply IH; lia].
  eapply spec_bind; [apply spec_ask_within|]. intros r _. by apply spec_ret.
Qed.
(** More than one round for each answer left changes nothing. *)
Lemma accept_clients_enough n s :
  (length (script s) < n)%nat → accept_clients n s = accept_clients (Datatypes.S (length (script s))) s.
Proof. intros Hn. apply (accept_clients_agree (length (script s))); [lia|lia|]. by red. Qed.
Lemma serve_requests_enough pid current_user_only n (s : io S client_call client_reply) :
  (length (script s) < n)%nat →
  serve_requests pid current_user_only n s = serve_requests pid current_user_only (Datatypes.S (length (script s))) s.
Proof. intros Hn. apply (serve_requests_agree _ _ (length (script s))); [lia|lia|]. by red. Qed.
End bounds.

(** ** Properties *)

(** Over any script, the thread of a client reads a request only after the
    handshake and after it saw that the broker is not stopping, answers each
    request once, under its own identifier and with its own type or an error,
    before it reads the next, and whenever it ends it has disconnected and left
    the broker's set of threads. *)
Theorem client_conversation {U : UnicodeDB} {S : Type} `{Ops : SupervisorOps S} pid current_user_only
    (s : io S client_call client_reply) :
  match serve_client pid current_user_only s with
  | (Hang, s') => obeyed client_allowed client_after (trace s) (script s) New s'
  | (_, s') => at_phase client_allowed client_after (trace s) (script s) New Gone s'
  end.
Proof.
  pose proof (serve_client_order pid current_user_only (trace s) (script s) s (at_phase_start _ _ s _)) as H.
  destruct (serve_client pid current_user_only s) as [[n|e|] s']; exact H.
Qed.

(** Over any script, the broker accepts a client only after it read that it
    is not stopping, refuses the one that arrives while it stops, and however
    accepting ends it marks itself as stopping, closes its listener, joins the
    threads of the other clients and closes every worker, in this order, before
    it removes the status file, which it does only when the file still carries
    its own token. *)
Theorem broker_lifetime pid pipe instance_token started_at current_thread (s : io unit server_call server_reply) :
  let order := server_after instance_token current_thread in
  match serve_forever pid pipe instance_token started_at current_thread s with
  | (Hang, s') => obeyed server_allowed order (trace s) (script s) Unpublished s'
  | (_, s') => at_phase server_allowed order (trace s) (script s) Unpublished Done s' ∨
               at_phase server_allowed order (trace s) (script s) Unpublished (Identified false) s'
  end.
Proof.
  pose proof (serve_forever_order pid pipe instance_token started_at current_thread (trace s) (script s) s
                (at_phase_start _ _ s _)) as H.
  cbv zeta. destruct (serve_forever _ _ _ _ _ s) as [[n|e|] s']; exact H.
Qed.

(** One client is served, the next is refused, and the status file has another
    broker's token. *)
Definition server_call_name (c : server_call) : str :=
  match c with
  | SPublish _ => u "publish" | SStopping => u "stopping?" | SAccept => u "accept" | SRefuse => u "refuse"
  | SSpawn => u "spawn" | SStop => u "stop" | SStopListening => u "stop listening" | SThreads => u "threads"
  | SJoin t => u "join" | SCloseAll => u "close all" | SReadStatus => u "read" | SUnlink => u "unlink"
  end.
Example sample_broker :
  let flag b := Ok (SFlag b) in
  let run := serve_forever 7 (u "pipe") (u "token") (qz 0) 1
    (Io tt [Ok SDone; flag false; Ok SDone; flag false; Ok SDone; flag false; Ok SDone; flag true; Ok SDone;
            Ok SDone; Ok SDone; Ok (SClients [1; 2]); Ok SDone; Ok SDone;
            Ok (SStatus [(u "instance_token", VStr (u "other"))])] []) in
  (run.1, map server_call_name (trace run.2)) =
  (Ret tt, [u "publish"; u "stopping?"; u "accept"; u "stopping?"; u "spawn"; u "stopping?"; u "accept"; u "stopping?";
            u "refuse"; u "stop"; u "stop listening"; u "threads"; u "join"; u "close all"; u "read"]).
Proof. vm_compute. reflexivity. Qed.
