(* ===== verification/BrokerClient.v ===== *)
(** * BrokerClient: asking the broker (broker/client.py)

    One connection, requests answered in turn, and what is known of a request
    whose connection failed.  The runtime directory and the pipe are a script
    of answers. *)
From S2P Require Import Prelude Errors Text TextFacts Value Prog Ipc BrokerModel Supervisor BrokerServer.

Inductive broker_call : Type :=
  | KReadStatus                          (* runtime.read_json(broker_status_path) *)
  | KConnect (pipe : str) (timeout : Q)
  | KHandshake (token : str) (timeout : Q)
  | KSend (request : Envelope)
  | KReceive (timeout : Q)
  | KClose.
Inductive broker_reply : Type :=
  | KDone
  | KStatus (document : dict value)
  | KResponse (response : Envelope).

Definition broker_unavailable (m : str) : exn := controlled BrokerUnavailable m.
Definition delivered_message : str :=
  u "The broker connection failed after request delivery; the operation must not be retried automatically.".
(** What [_raise_transport_failure] raises *)
Definition transport_failure (message_type : str) (payload : option (dict value)) : exn :=
  match uncertain_outcome_code message_type payload with
  | Ok (Some code) => coded BrokerOutcomeUnknown code delivered_message
  | Ok None => broker_unavailable (u "broker connection failed during request")
  | Err e => e
  end.
Definition STATUS_FIELDS : list str :=
  [u "pid"; u "pipe"; u "protocol_version"; u "instance_token"; u "started_at"].
Definition short_text (v : value) (n : Z) : bool := match v with VStr s => len s <? n | _ => true end.
Definition small_int (v : value) (n : Z) : bool := match v with VInt m => m <? n | _ => true end.
Definition is_text (v : value) : bool := match v with VStr _ => true | _ => false end.
Definition validate_status (status : dict value) : res unit :=
  raise_if (negb (same_set (dkeys status) STATUS_FIELDS)) (broker_unavailable (u "broker status fields are invalid"));;
  version ← getitem status (u "protocol_version");
  raise_if (negb (eq_int version BROKER_PROTOCOL_VERSION)) (broker_unavailable (u "broker protocol version is incompatible"));;
  pid ← getitem status (u "pid");
  pipe ← getitem status (u "pipe");
  token ← getitem status (u "instance_token");
  raise_if (small_int pid 1 || negb (is_text pipe) || short_text token 32)
    (broker_unavailable (u "broker connection details are invalid")).
Definition text_of (v : value) : str := match v with VStr s => s | _ => [] end.

Section client.
Context {U : UnicodeDB}.
(** The state says whether there is a connection. *)
Abbreviation P := (M (io bool broker_call broker_reply)).
Definition perform (c : broker_call) : P unit := ask c;; mret tt.
Definition set_connected (b : bool) : P unit := update (fun _ => b).
Definition unreadable_status (e : exn) : bool := is_os_error e || is_value_error e.
(** [BrokerClient(runtime_path, timeout=...)]; once validated, the pipe and the
    token are text, which [str(...)] leaves alone. *)
Definition connect (timeout : Q) : P unit :=
  status ← try_except (r ← ask KReadStatus; match r with KStatus d => mret d | _ => hang end)
             (fun e => raise (if unreadable_status e then broker_unavailable (u "broker status is unavailable") else e));
  lift (validate_status status);;
  let failed := broker_unavailable (u "broker connection failed") in
  try_except (perform (KConnect (text_of (vget status (u "pipe"))) timeout))
    (fun e => raise (if isinstance e IpcError then failed else e));;
  try_except (perform (KHandshake (text_of (vget status (u "instance_token"))) timeout))
    (fun e => if isinstance e IpcError then perform KClose;; raise failed else raise e);;
  set_connected true.
Definition close : P unit :=
  connected ← state;
  set_connected false;;
  if connected : bool then perform KClose else mret tt.
Definition fail {A} (message_type : str) (payload : option (dict value)) : P A :=
  close;; raise (transport_failure message_type payload).
Definition exchange (request : Envelope) (message_type : str) (payload : option (dict value)) : P Envelope :=
  connected ← state;
  lift (raise_if (negb connected) (broker_unavailable (u "broker client is closed")));;
  perform (KSend request);;
  r ← ask (KReceive (broker_response_timeout message_type payload));
  match r with KResponse response => mret response | _ => hang end.
Definition request (fresh message_type : str) (payload : option (dict value)) : P (dict value) :=
  q ← lift (create fresh message_type payload None);
  response ← try_except (exchange q message_type payload)
               (fun e => if isinstance e IpcError then fail message_type payload else raise e);
  if negb (str_eqb (message_id response) (message_id q)) then fail message_type payload
  else if str_eqb (Ipc.message_type response) (u "error") then
    match get_or (VStr (u "broker_request_failed")) (Ipc.payload response) (u "code"),
          get_or (VStr (u "broker request failed")) (Ipc.payload response) (u "message") with
    | VStr code, VStr message => raise (coded BrokerRemoteError code message)
    | _, _ => fail message_type payload
    end
  else if negb (str_eqb (Ipc.message_type response) (message_type ++ u ".result")) then fail message_type payload
  else mret (Ipc.payload response).
End client.

(** ** One request *)
Definition sends (cs : list broker_call) : list Envelope :=
  omap (fun c => match c with KSend e => Some e | _ => None end) cs.
Section requesting.
Context {U : UnicodeDB}.
Context (tr : list broker_call) (scr : list (res broker_reply)).
Variables (q : Envelope) (kind : str) (body : option (dict value)).
Abbreviation IO := (io bool broker_call broker_reply).
(** Since the environment was at [tr]: [q] was sent [n] times. *)
Definition sent (n : nat) (s : IO) : Prop :=
  (∃ new, trace s = tr ++ new ∧ sends new = repeat q n) ∧ ∀ x, x ∈ script s → x ∈ scr.
Definition sent_in (connected : bool) (n : nat) (s : IO) : Prop := st s = connected ∧ sent n s.
Definition asked_once (s : IO) : Prop := ∃ n, (n <= 1)%nat ∧ sent n s.
(** The broker's answer to [q] *)
Definition answered (response : Envelope) : Prop :=
  Ok (KResponse response) ∈ scr ∧ message_id response = message_id q.
(** How a request fails: the broker refused it over a connection that stays
    open, or the connection is closed and the outcome classified; what the
    connection raises that is no IPC error is passed on. *)
Definition refused (e : exn) (s : IO) : Prop :=
  sent_in true 1 s ∧ ∃ response code message, answered response ∧ Ipc.message_type response = u "error" ∧
    get_or (VStr (u "broker_request_failed")) (Ipc.payload response) (u "code") = VStr code ∧
    get_or (VStr (u "broker request failed")) (Ipc.payload response) (u "message") = VStr message ∧
    e = coded BrokerRemoteError code message.
Definition broken (e : exn) (s : IO) : Prop :=
  sent_in false 1 s ∧ (e = transport_failure kind body ∨ Err e ∈ scr).
Definition passed_on (e : exn) (s : IO) : Prop :=
  sent_in true 1 s ∧ Err e ∈ scr ∧ isinstance e IpcError = false.
Definition failed (e : exn) (s : IO) : Prop := refused e s ∨ broken e s ∨ passed_on e s.
Definition returned (p : dict value) (s : IO) : Prop :=
  sent_in true 1 s ∧ ∃ response, answered response ∧ Ipc.message_type response = kind ++ u ".result" ∧ p = Ipc.payload response.

Lemma sends_app a b : sends (a ++ b) = sends a ++ sends b.
Proof. apply omap_app. Qed.
(** A call that sends [m] envelopes *)
Lemma triple_perform b n c m :
  sends [c] = repeat q m → (n + m <= 1)%nat →
  triple asked_once (sent_in b n) (ask c) (fun a s => Ok a ∈ scr ∧ sent_in b (n + m) s)
    (fun e s => Err e ∈ scr ∧ sent_in b (n + m) s).
Proof.
  intros Hc Hm s (Hb & (new & Ht & Hn) & Hs).
  assert (∀ rest, (∀ x, x ∈ rest → x ∈ scr) → sent (n + m) (Io (st s) rest (trace s ++ [c]))) as Hsent.
  { intros rest Hr. split; [|done]. exists (new ++ [c]). cbn. rewrite Ht, app_assoc. split; [done|].
    rewrite sends_app, Hn, Hc. symmetry. apply repeat_app. }
  unfold ask. destruct (script s) as [|[a|e] rest].
  - exists (n + m)%nat. split; [lia|]. by apply Hsent.
  - split; [apply Hs; by left|]. split; [done|]. apply Hsent. intros x Hx. apply Hs. by right.
  - split; [apply Hs; by left|]. split; [done|]. apply Hsent. intros x Hx. apply Hs. by right.
Qed.
Lemma triple_fail {A} :
  triple asked_once (sent_in true 1) (fail (A := A) kind body) (fun _ _ => False) broken.
Proof.
  unfold fail, close. eapply (triple_bind _ _ _ _ (fun _ => sent_in false 1)).
  - apply triple_state. intros b. eapply (triple_bind _ _ _ _ (fun _ s => sent_in false 1 s ∧ b = true)).
    { apply triple_modify. intros s [[Hb Hs] Hst]. split; [split; [done|exact Hs]|by rewrite <- Hst]. }
    intros _. intros s [Hs ->]. revert s Hs. unfold perform.
    eapply triple_bind; [eapply triple_raising; [by apply (triple_perform false 1 KClose 0)|]|].
    + intros e s [He Hs]. split; [exact Hs|by right].
    + intros a. apply triple_ret. by intros s [_ Hs].
  - intros _. apply triple_raise. intros s Hs. split; [done|by left].
Qed.
Lemma triple_exchange :
  triple asked_once (sent_in true 0) (exchange q kind body)
    (fun response s => Ok (KResponse response) ∈ scr ∧ sent_in true 1 s) (fun e s => Err e ∈ scr ∧ sent_in true 1 s).
Proof.
  unfold exchange. apply triple_state. intros b. intros s [Hs Hb]. revert s Hs Hb.
  enough (b = true → triple asked_once (sent_in true 0)
            (lift (raise_if (negb b) (broker_unavailable (u "broker client is closed")));; perform (KSend q);;
             r ← ask (KReceive (broker_response_timeout kind body));
             match r with KResponse response => mret response | _ => hang end)
            (fun response s => Ok (KResponse response) ∈ scr ∧ sent_in true 1 s) (fun e s => Err e ∈ scr ∧ sent_in true 1 s)) as H.
  { intros s Hs Hb. apply H; [|done]. rewrite <- Hb. apply Hs. }
  intros ->. eapply (triple_bind _ _ _ _ (fun _ => sent_in true 0)); [by apply triple_ret|]. intros _.
  eapply (triple_bind _ _ _ _ (fun _ => sent_in true 1)).
  { unfold perform. eapply triple_bind; [by apply (triple_perform true 0 (KSend q) 1)|].
    intros a. apply triple_ret. by intros s [_ Hs]. }
  intros _. eapply triple_bind; [by apply (triple_perform true 1 (KReceive _) 0)|].
  intros [| |response]; [intros s [_ [_ Hs]]; by exists 1%nat..|by apply triple_ret].
Qed.
Lemma triple_request fresh :
  create fresh kind body None = Ok q →
  triple asked_once (sent_in true 0) (request fresh kind body) returned failed.
Proof.
  intros Hq. unfold request. rewrite Hq. eapply (triple_bind _ _ _ _ (fun x s => x = q ∧ sent_in true 0 s)).
  { by apply triple_ret. }
  intros x. apply triple_pure. intros ->.
  assert (∀ e s, broken e s → failed e s) as Hbroken by (intros e s H; right; by left).
  assert (∀ A, triple asked_once (sent_in true 1) (fail (A := A) kind body) (fun _ _ => False) failed) as Hfail.
  { intros A. eapply triple_raising; [apply triple_fail|exact Hbroken]. }
  eapply (triple_bind _ _ _ _ (fun response s => Ok (KResponse response) ∈ scr ∧ sent_in true 1 s)).
  - eapply triple_try; [apply triple_exchange|]. intros e. cbv beta. apply triple_pure. intros He.
    destruct (isinstance e IpcError) eqn:Ee.
    + eapply triple_conseq; [apply Hfail|done|done|done|done].
    + apply triple_raise. intros s Hs. right; right. done.
  - intros response. apply triple_pure. intros Hr.
    assert (∀ A (Q : A → _), triple asked_once (sent_in true 1) (fail (A := A) kind body) Q failed) as Hf.
    { intros A Q. eapply triple_conseq; [apply Hfail|done|done|done|done]. }
    destruct (str_eqb _ _) eqn:Hid; cbn [negb]; [|apply Hf]. apply bool_decide_eq_true in Hid.
    destruct (str_eqb (Ipc.message_type response) (u "error")) eqn:Hty.
    + apply bool_decide_eq_true in Hty.
      destruct (get_or _ _ (u "code")) as [| | | |code| | |] eqn:Hcode; try apply Hf.
      destruct (get_or _ _ (u "message")) as [| | | |message| | |] eqn:Hm; try apply Hf.
      apply triple_raise. intros s Hs. left. split; [done|]. by exists response, code, message.
    + destruct (str_eqb (Ipc.message_type response) (kind ++ u ".result")) eqn:Hres; cbn [negb]; [|apply Hf].
      apply bool_decide_eq_true in Hres. apply triple_ret. intros s Hs. split; [done|]. by exists response.
Qed.
End requesting.

(** A connected client sends a request exactly once, whatever the connection
    answers.  It returns a payload only from a response with the request's
    identifier and type, raises the broker's error only from such a response,
    and otherwise closes the connection and reports the outcome as unknown when
    the request could have had an effect. *)
Theorem client_request {U : UnicodeDB} fresh kind body q (s : io bool broker_call broker_reply)
    (Hq : create fresh kind body None = Ok q) (Hs : st s = true) :
  let '(r, s') := request fresh kind body s in
  match r with
  | Ret p => returned (trace s) (script s) q kind p s'
  | Raise e => failed (trace s) (script s) q kind body e s'
  | Hang => asked_once (trace s) (script s) q s'
  end.
Proof.
  assert (sent_in (trace s) (script s) q true 0 s) as H0.
  { split; [done|]. split; [|done]. exists []. by rewrite app_nil_r. }
  pose proof (triple_request (trace s) (script s) q kind body fresh Hq s H0) as H.
  by destruct (request fresh kind body s) as [[p|e|] s'].
Qed.

(** ** Requests whose failure is reported as an unavailable broker *)
Definition harmless (call : sv_call) : Prop :=
  match call with
  | VList | VGet _ _ => True
  | VRequest _ kind body _ => uncertain_outcome_code kind body = Ok None
  | VStart _ _ _ _ | VShutdown _ | VStop => False
  end.
(** The action of a payload stays when the session's identifier is dropped. *)
Lemma action_passed_on payload : vget (ddel payload (u "session_id")) (u "action") = vget payload (u "action").
Proof.
  unfold vget, get_or. rewrite dget_ddel_ne; [done|]. vm_compute. discriminate.
Qed.
Lemma mutating_action payload mutations code a :
  vget payload (u "action") = VStr a → one_of a mutations = true → when_mutating payload mutations code = Ok (Some code).
Proof.
  intros Ha Hin. unfold when_mutating. rewrite Ha. unfold in_set. cbn [unhashable is_list is_dict orb].
  change (existsb (eq_str (VStr a)) mutations) with (one_of a mutations). by rewrite Hin.
Qed.
Section harm.
Context {U : UnicodeDB}.
Variables (kind : str) (payload : dict value).
Hypothesis Hknown : uncertain_outcome_code kind (Some payload) = Ok None.
Lemma forwarded_harmless log id wkind body :
  forwarded kind payload log id wkind body → uncertain_outcome_code wkind body = Ok None.
Proof.
  intros [(_ & -> & ->)|[(Hk & _)|[(Hin & ->)|(Hk & -> & -> & _)]]].
  - reflexivity.
  - by rewrite Hk in Hknown.
  - rewrite !elem_of_cons, elem_of_nil in Hin. destruct Hin as [[= -> ->]|[[= -> ->]|[[= -> ->]|[]]]]; [|reflexivity|done].
    change (when_mutating (ddel payload (u "session_id")) TERMINAL_MUTATIONS (u "outcome_unknown") = Ok None).
    unfold when_mutating. rewrite action_passed_on. exact Hknown.
  - rewrite Hk in Hknown.
    change (when_mutating (ddel payload (u "session_id")) ELEVATION_MUTATIONS (u "elevation_outcome_unknown") = Ok None).
    unfold when_mutating. rewrite action_passed_on. exact Hknown.
Qed.
Lemma not_mutating a :
  kind = u "session.elevation" → action_is payload a → one_of a ELEVATION_MUTATIONS = true → False.
Proof.
  intros -> Ha Hin. pose proof (mutating_action _ _ (u "elevation_outcome_unknown") _ Ha Hin) as H.
  change (when_mutating payload ELEVATION_MUTATIONS (u "elevation_outcome_unknown") = Ok None) in Hknown. congruence.
Qed.
Lemma admitted_harmless log call : admits kind payload log call → harmless call.
Proof.
  destruct call as [name open [] parent| |id found|id wkind body t|id|]; cbn [admits harmless]; [..|done|done| | |].
  - intros (Hk & Ha & _). by eapply not_mutating.
  - intros (_ & _ & Hk). rewrite Hk in Hknown. by destruct open.
  - intros (_ & _ & Hf & _). by eapply forwarded_harmless.
  - intros (_ & [Hk|(Hk & Ha & _)]); [by rewrite Hk in Hknown|by eapply not_mutating].
  - intros Hk. by rewrite Hk in Hknown.
Qed.
End harm.

(** When a client reports a failed request as an unavailable broker rather
    than as an unknown outcome, the broker cannot have changed anything for it:
    whatever the request's payload, handling it starts, stops and closes nothing,
    and asks a worker only for what the broker in turn counts as without effect. *)
Theorem unavailable_is_harmless {U : UnicodeDB} {S : Type} {Ops : SupervisorOps S} pid current_user_only kind payload
    (s : S) (log : list sv_call) (Hkind : uncertain_outcome_code kind payload = Ok None) :
  ∃ calls, (handle_request (S := S * list sv_call) pid current_user_only kind (default [] payload) (s, log)).2.2 =
           log ++ calls ∧ Forall harmless calls.
Proof.
  pose proof (safe_handle_request log kind (default [] payload) pid current_user_only (s, log)) as H.
  assert (asked log [] (s, log)) as H0 by (by unfold asked; rewrite app_nil_r).
  assert (ended log kind (default [] payload)
            (handle_request pid current_user_only kind (default [] payload) (s, log)).2) as (calls & Hc & Ha & _).
  { destruct (handle_request _ _ _ _ (s, log)) as [[p|e|] x]; exact (H H0). }
  exists calls. split; [exact Hc|]. eapply Forall_impl; [exact Ha|]. intros call.
  apply admitted_harmless. by destruct payload.
Qed.

(** ** At concrete inputs *)
Definition sample_id : str := u "sess-0123456789abcdef".
Definition polled : supervisor :=
  Sup [(sample_id, Rec sample_id (u "web") 7 (u "pipe") (u "ready") (qz 1) (qz 1) None None false None)] [] ∅ 0.
Definition read_terminal : dict value := [(u "session_id", VStr sample_id); (u "action", VStr (u "read")); (u "cursor", VInt 0)].
Lemma unavailable_is_harmless_witness :
  uncertain_outcome_code (u "session.terminal") (Some read_terminal) = Ok None ∧
  let Ops := supervisor_ops (U := ascii_db) (u "python") (u "runtime") (mret tt) in
  ∃ calls, (handle_request (U := ascii_db) (Ops := recorded_supervisor (Ops := Ops)) 7 true (u "session.terminal") read_terminal
              (Io polled [] [], [])).2.2 = calls ∧ Forall harmless calls.
Proof.
  split; [vm_compute; reflexivity|]. cbv zeta.
  apply (unavailable_is_harmless (U := ascii_db) (Ops := supervisor_ops (u "python") (u "runtime") (mret tt)) 7 true
           (u "session.terminal") (Some read_terminal) (Io polled [] []) []).
  vm_compute. reflexivity.
Defined.
(** What the broker asks there: the record twice and one read of the terminal *)
Example polled_calls :
  map (fun c => match c with VGet _ (Some _) => 1 | VRequest _ kind _ _ => len kind | _ => 0 end)
    (handle_request (U := ascii_db) (Ops := recorded_supervisor (Ops := supervisor_ops (U := ascii_db) (u "python") (u "runtime") (mret tt)))
       7 true (u "session.terminal") read_terminal (Io polled [] [], [])).2.2 = [1; 15].
Proof. vm_compute. reflexivity. Qed.

Definition sample_fresh : str := u "0123456789abcdef".
Definition sample_response : Envelope := Env 3 (u "msg_0123456789abcdef") (u "broker.ping.result") [(u "pid", VInt 7)].
Lemma client_request_witness :
  let s := Io true [Ok KDone; Ok (KResponse sample_response)] [] in
  st s = true ∧
  let '(r, s') := request (U := ascii_db) sample_fresh (u "broker.ping") None s in
  r = Ret [(u "pid", VInt 7)] ∧
  returned (trace s) (script s) (Env 3 (u "msg_0123456789abcdef") (u "broker.ping") []) (u "broker.ping") [(u "pid", VInt 7)] s'.
Proof.
  cbv zeta. split; [reflexivity|].
  pose proof (client_request (U := ascii_db) sample_fresh (u "broker.ping") None
    (Env 3 (u "msg_0123456789abcdef") (u "broker.ping") []) (Io true [Ok KDone; Ok (KResponse sample_response)] [])) as H.
  specialize (H ltac:(vm_compute; reflexivity) eq_refl).
  assert (request (U := ascii_db) sample_fresh (u "broker.ping") None (Io true [Ok KDone; Ok (KResponse sample_response)] []) =
          (Ret [(u "pid", VInt 7)], Io true [] [KSend (Env 3 (u "msg_0123456789abcdef") (u "broker.ping") []); KReceive (qz 15)])) as E.
  { vm_compute. reflexivity. }
  rewrite E in H |- *. split; [reflexivity|exact H].
Defined.
(** A response that never comes leaves the effect of a command unknown. *)
Example sample_failure :
  (request (U := ascii_db) sample_fresh (u "session.exec") (Some [])
     (Io true [Ok KDone; Err (controlled IpcTimeout (u "receive timed out")); Ok KDone] [])).1 =
  Raise (coded BrokerOutcomeUnknown (u "outcome_unknown") delivered_message).
Proof. vm_compute. reflexivity. Qed.
