(* ===== verification/AuditLog.v ===== *)
(** * AuditLog: the log of what was done (security/audit.py, security/locking.py)

    Every audited operation appends one line of JSON to the file of its day.
    The clock and the file system are a script of answers. *)
From S2P Require Import Prelude Errors Text TextFacts Regex Sha256 Value Prog Json Ipc BrokerModel Redaction.

Definition AUDIT_SCHEMA_VERSION : Z := 1.
Record AuditWriteResult := AuditWritten { logged : bool; command_redacted : bool; command_preview_truncated : bool }.
(** The arguments of [AuditLogger.record] *)
Record audit_entry := Entry {
  tool : str; action : str; result : option (dict value); duration_ms : Z; error_status : option str;
  profile : option str; entry_session : option str; entry_ssh_user : option str; entry_effective_user : option str;
  command : option str }.

Inductive audit_call : Type :=
  | LNow                                 (* now().astimezone(UTC): its isoformat and its date *)
  | LMkdir (path : str) | LSecure (path : str) (directory : bool)
  | LOpenLock | LLockEmpty | LFillLock   (* path.open("a+b"), seek(0, SEEK_END) == 0, write and flush *)
  | LClock | LTryLock | LSleep | LUnlock | LCloseLock
  | LOpenLog (path : str) | LWrite (line : bytes) | LCloseLog.
Inductive audit_reply : Type :=
  | LDone
  | LStamp (iso day : str)
  | LFlag (set : bool)
  | LTime (now : Q).

(** ** Events *)
Definition text_of (v : value) : option str := match v with VStr (c :: s) => Some (c :: s) | _ => None end.
Definition integer_of (v : value) : value := match v with VInt n => VInt n | _ => VNone end.
Definition boolean_of (v : value) : value := match v with VBool b => VBool b | _ => VNone end.
Definition is_true (v : value) : bool := match v with VBool b => b | _ => false end.
(** [a or b] on an optional text *)
Definition or_else (a b : option str) : option str := match a with Some (_ :: _) => a | _ => b end.
Definition TEXT_FIELDS : list str := [u "connection_type"; u "authentication"; u "environment"; u "elevation_mode"].
Definition BOOL_FIELDS : list str :=
  [u "terminal_enabled"; u "file_read_enabled"; u "file_write_enabled"; u "root_session_enabled"].
Definition profile_event_fields (response : dict value) : dict value :=
  if dhas response (u "profile_name") || existsb (dhas response) (TEXT_FIELDS ++ BOOL_FIELDS) then
    (u "profile_name", opt_str (text_of (vget response (u "profile_name"))))
      :: map (fun name => (name, opt_str (text_of (vget response name)))) TEXT_FIELDS
      ++ map (fun name => (name, boolean_of (vget response name))) BOOL_FIELDS
  else [].
Definition utc_suffix : str := u "+00:00".

Section events.
Context {U : UnicodeDB}.
Definition command_preview (e : audit_entry) : res (option RedactionResult) :=
  match command e with
  | Some c => p ← redact_preview c DEFAULT_PREVIEW_BYTES; Ok (Some p)
  | None => Ok None
  end.
Definition flag_of (f : RedactionResult → bool) (p : option RedactionResult) : bool :=
  match p with Some p => f p | None => false end.
Definition own_fields (e : audit_entry) (iso : str) (p : option RedactionResult) (digest : option str) : dict value :=
  let response := default [] (result e) in
  [(u "schema_version", VInt AUDIT_SCHEMA_VERSION);
   (u "timestamp", VStr (replace_all utc_suffix (u "Z") iso));
   (u "profile", opt_str (or_else (text_of (vget response (u "profile_name"))) (profile e)));
   (u "session_id", opt_str (or_else (text_of (vget response (u "session_id"))) (entry_session e)));
   (u "ssh_user", opt_str (or_else (text_of (vget response (u "ssh_user"))) (entry_ssh_user e)));
   (u "effective_user", opt_str (or_else (text_of (vget response (u "effective_user"))) (entry_effective_user e)));
   (u "tool", VStr (tool e)); (u "action", VStr (action e));
   (u "result_status", opt_str (or_else (error_status e) (or_else (text_of (vget response (u "status"))) (Some (u "completed")))));
   (u "exit_code", integer_of (vget response (u "exit_code"))); (u "duration_ms", VInt (Z.max 0 (duration_ms e)));
   (u "output_truncated", VBool (is_true (vget response (u "truncated"))));
   (u "elevated", VBool (is_true (vget response (u "elevated"))));
   (u "command_preview", opt_str (preview <$> p)); (u "command_sha256", opt_str digest);
   (u "command_redacted", VBool (flag_of redacted p));
   (u "command_preview_truncated", VBool (flag_of truncated p))].
Definition event (e : audit_entry) (iso : str) (p : option RedactionResult) (digest : option str) : dict value :=
  dmerge (own_fields e iso p digest) (profile_event_fields (default [] (result e))).
Definition command_digest (e : audit_entry) : res (option str) :=
  match command e with Some c => b ← utf8_encode c; Ok (Some (sha256_hex b)) | None => Ok None end.
End events.

(** ** Appending *)
Section logger.
Context {U : UnicodeDB} {F : FloatIO}.
Variable root : str.
Abbreviation P := (M (io unit audit_call audit_reply)).
Definition tell (c : audit_call) : P unit := ask c;; mret tt.
Definition clock : P Q := r ← ask LClock; match r with LTime q => mret q | _ => hang end.
Definition now : P (str * str) := r ← ask LNow; match r with LStamp iso day => mret (iso, day) | _ => hang end.
Definition in_root (name : str) : str := root ++ u "\" ++ name.
Definition lock_path : str := in_root (u ".audit.lock").
Definition lock_timeout_error : exn := Builtin OSError (u "timed out waiting for the audit log lock").
(** [AuditFileLock.__enter__]: each round asks the clock when the lock is taken *)
Fixpoint lock_loop (fuel : nat) (deadline : Q) : P unit :=
  match fuel with
  | O => hang
  | S fuel =>
      locked ← try_except (tell LTryLock;; mret true)
        (fun e => if is_os_error e then
                    t ← clock;
                    if qle deadline t then tell LCloseLock;; raise lock_timeout_error else tell LSleep;; mret false
                  else raise e);
      if locked : bool then mret tt else lock_loop fuel deadline
  end.
Definition acquire : P unit :=
  tell (LMkdir root);;
  tell (LSecure root true);;
  tell LOpenLock;;
  empty ← (r ← ask LLockEmpty; match r with LFlag b => mret b | _ => hang end);
  (if empty : bool then tell LFillLock else mret tt);;
  tell (LSecure lock_path false);;
  t ← clock;
  s ← Prelude.get;
  lock_loop (S (length (script s))) (qadd t (qz 5)).
Definition release : P unit := try_finally (tell LUnlock) (tell LCloseLock).
(** One line, written through a text stream *)
Definition write_line (path : str) (line : str) : P unit :=
  tell (LOpenLog path);;
  try_finally (b ← lift (utf8_encode line); tell (LWrite b)) (tell LCloseLog).
Definition append (day : str) (e : dict value) : P unit :=
  tell (LMkdir root);;
  tell (LSecure root true);;
  let path := in_root (day ++ u ".jsonl") in
  t ← lift (json_dumps (VDict e));
  acquire;;
  try_finally (write_line path (t ++ [10]);; tell (LSecure path false)) release.
Definition record (e : audit_entry) : P AuditWriteResult :=
  stamp ← now;
  p ← lift (command_preview e);
  digest ← lift (command_digest e);
  append stamp.2 (event e stamp.1 p digest);;
  mret (AuditWritten true (flag_of redacted p) (flag_of truncated p)).
End logger.

(** ** Lines *)
Definition visible (c : Z) : Prop := 32 <= c.
Lemma hex_fixed_visible w n : Forall visible (hex_fixed w n).
Proof.
  revert n. induction w as [|w IH]; intros n; [constructor|]. cbn [hex_fixed]. apply Forall_app. split; [done|].
  constructor; [|constructor]. unfold hex_digit, visible. pose proof (Z.mod_pos_bound n 16).
  destruct (Z.ltb_spec (n mod 16) 10); lia.
Qed.
Lemma json_string_visible s : Forall visible (json_string s).
Proof.
  unfold json_string. rewrite !Forall_app. split; [by repeat constructor|]. split; [|by repeat constructor].
  apply Forall_concat, Forall_map, Forall_forall. intros c _. unfold json_escape_char.
  repeat match goal with
         | |- context [if ?b then _ else _] => destruct b eqn:?
         end; try (by vm_compute; repeat constructor).
  - apply Forall_app. split; [by repeat constructor|apply hex_fixed_visible].
  - constructor; [|constructor]. unfold visible. boolean. lia.
Qed.
Section lines.
Context {F : FloatIO}.
(** A value that is not composed, as in an event *)
Definition scalar (v : value) : Prop := match v with VNone | VBool _ | VInt _ | VStr _ => True | _ => False end.
Lemma scalar_visible v t : scalar v → json_dumps v = Ok t → Forall visible t.
Proof.
  destruct v as [|b|n|f|s|l|d|o]; try done; intros _ H; apply Ok_inj in H as <-.
  - by repeat constructor.
  - by destruct b; repeat constructor.
  - destruct (show_int_shape n) as (sign & ds & -> & Hs & _ & Hd). rewrite Forall_app. split.
    + destruct Hs as [-> | ->]; by repeat constructor.
    + rewrite forallb_forall in Hd. apply Forall_forall. intros c Hc. apply list_elem_of_In in Hc. specialize (Hd c Hc).
      unfold ascii_digit, visible in *. boolean. lia.
  - apply json_string_visible.
Qed.
Lemma members_visible d ts :
  Forall (fun kv => scalar kv.2) d → json_dumps_members d = Ok ts → Forall (Forall visible) ts.
Proof.
  intros Hd. revert ts. induction Hd as [|[k v] d Hv Hd IH]; intros ts H.
  - cbn in H. apply Ok_inj in H as <-. constructor.
  - cbn in H. apply result_bind_Ok in H as (t & Ht & H). apply result_bind_Ok in H as (ts' & Hts & H).
    apply Ok_inj in H as <-. constructor; [|by apply IH]. rewrite !Forall_app. split; [apply json_string_visible|].
    split; [by repeat constructor|]. by eapply scalar_visible.
Qed.
Lemma join_visible sep l : Forall visible sep → Forall (Forall visible) l → Forall visible (join sep l).
Proof.
  intros Hs. induction 1 as [|x l Hx Hl IH]; [constructor|]. destruct l as [|y l]; [done|].
  change (join sep (x :: y :: l)) with (x ++ sep ++ join sep (y :: l)). rewrite !Forall_app. auto.
Qed.
Lemma flat_line d t : Forall (fun kv => scalar kv.2) d → json_dumps (VDict d) = Ok t → Forall visible t.
Proof.
  intros Hd H. change (json_dumps (VDict d)) with (items ← json_dumps_members d; Ok (u "{" ++ join (u ",") items ++ u "}")) in H.
  apply result_bind_Ok in H as (ts & Hts & H). apply Ok_inj in H as <-. rewrite !Forall_app.
  split; [by repeat constructor|]. split; [|by repeat constructor]. apply join_visible; [by repeat constructor|].
  by eapply members_visible.
Qed.
End lines.

(** ** What an event says *)
Definition opt_ok (o : option str) : Prop := match o with Some s => Forall char_ok s | None => True end.
Definition short_int (n : Z) : Prop := (Z.to_nat (Z.log2 (Z.abs n)) < 4300)%nat.
(** The arguments are Python strings, and integers of a size Python prints *)
Record entry_ok (e : audit_entry) : Prop := EntryOk {
  ok_tool : Forall char_ok (tool e); ok_action : Forall char_ok (action e);
  ok_result : ∀ k v, dget (default [] (result e)) k = Some v →
    match v with VStr s => Forall char_ok s | VInt n => short_int n | _ => True end;
  ok_duration : short_int (duration_ms e);
  ok_texts : Forall opt_ok [error_status e; profile e; entry_session e; entry_ssh_user e; entry_effective_user e; command e] }.
Lemma dmerge_disjoint {A} (a b : dict A) :
  NoDup (dkeys b) → (∀ k, k ∈ dkeys b → k ∉ dkeys a) → dmerge a b = a ++ b.
Proof.
  revert a. induction b as [|[k v] b IH]; intros a Hb Hd; [by rewrite app_nil_r|]. inversion Hb; subst.
  change (dmerge a ((k, v) :: b)) with (dmerge (dset a k v) b).
  assert (dset a k v = a ++ [(k, v)]) as ->.
  { assert (k ∉ dkeys a) as Hk by (apply Hd; by left). clear -Hk. induction a as [|[k' v'] a IH]; [done|].
    cbn in Hk |- *. rewrite decide_False by set_solver. rewrite IH by set_solver. done. }
  rewrite IH; [by rewrite <- app_assoc|done|]. intros k' Hk'. unfold dkeys. rewrite map_app.
  cbn. specialize (Hd k'). set_solver.
Qed.
Section events_ok.
Context {U : UnicodeDB} {F : FloatIO}.
Variables (e : audit_entry) (iso : str) (p : option RedactionResult) (digest : option str).
Let response : dict value := default [] (result e).
Lemma event_members : event e iso p digest = own_fields e iso p digest ++ profile_event_fields response.
Proof.
  unfold event. fold response. apply dmerge_disjoint; unfold profile_event_fields; destruct (_ || _).
  - apply (bool_decide_unpack _). vm_compute. exact I.
  - constructor.
  - apply Forall_forall, (bool_decide_unpack _). vm_compute. exact I.
  - intros k Hk. by apply elem_of_nil in Hk.
Qed.
Lemma ascii_keys {A} (d : dict A) : forallb (forallb is_ascii) (dkeys d) = true → Forall (fun kv => Forall char_ok kv.1) d.
Proof.
  unfold dkeys. induction d as [|[k v] d IH]; [constructor|]. cbn. intros [Hk Hd]%andb_true_iff.
  constructor; [by apply ascii_chars|by apply IH].
Qed.
Lemma event_dwf : dwf (event e iso p digest) ∧ Forall (fun kv => Forall char_ok kv.1) (event e iso p digest).
Proof.
  rewrite event_members. unfold profile_event_fields. destruct (_ || _).
  - split; [apply (bool_decide_unpack _); vm_compute; exact I|].
    apply ascii_keys. vm_compute. reflexivity.
  - split; [apply (bool_decide_unpack _); vm_compute; exact I|].
    apply ascii_keys. vm_compute. reflexivity.
Qed.
Lemma event_Forall (P : value → Prop) :
  P VNone → (∀ b, P (VBool b)) →
  P (VInt AUDIT_SCHEMA_VERSION) → P (VInt (Z.max 0 (duration_ms e))) →
  (∀ n, vget response (u "exit_code") = VInt n → P (VInt n)) →
  (∀ k s, vget response k = VStr s → P (VStr s)) →
  (∀ o s, o ∈ [error_status e; profile e; entry_session e; entry_ssh_user e; entry_effective_user e] → o = Some s → P (VStr s)) →
  P (VStr (u "completed")) → P (VStr (replace_all utc_suffix (u "Z") iso)) → P (VStr (tool e)) → P (VStr (action e)) →
  P (opt_str (preview <$> p)) → P (opt_str digest) →
  Forall (fun kv => P kv.2) (event e iso p digest).
Proof.
  intros Hnone Hbool Hv Hd Hexit Htext Hopt Hc Hts Ht Ha Hp Hg.
  assert (∀ k, P (opt_str (text_of (vget response k)))) as Hfield
    by (intros k; destruct (vget response k) as [| | | |[|c s]| | |] eqn:E; try exact Hnone; by apply (Htext k)).
  assert (∀ k o, o ∈ [error_status e; profile e; entry_session e; entry_ssh_user e; entry_effective_user e] →
                 P (opt_str (or_else (text_of (vget response k)) o))) as Helse.
  { intros k o Ho. specialize (Hfield k). destruct (text_of _) as [[|c s]|]; [|exact Hfield|];
      (destruct o as [s'|] eqn:E; [by apply (Hopt (Some s') s')|exact Hnone]). }
  assert (∀ k, P (boolean_of (vget response k))) as Hflag by (intros k; destruct (vget response k); [apply Hnone|apply Hbool|apply Hnone..]).
  rewrite event_members. apply Forall_app. split.
  - repeat (constructor; cbn [snd]); try done; try (apply Helse; set_solver).
    + destruct (error_status e) as [[|c s]|] eqn:E; [|by eapply Hopt; [left|done]|];
        (specialize (Hfield (u "status")); destruct (text_of _) as [[|c s]|]; done).
    + fold response. destruct (vget response (u "exit_code")) as [| |n| | | | |] eqn:E; try exact Hnone. by apply Hexit.
  - unfold profile_event_fields. destruct (_ || _); [|constructor].
    constructor; [apply Hfield|]. apply Forall_app. split; apply Forall_map, Forall_forall; intros k _; [apply Hfield|apply Hflag].
Qed.
Lemma event_flat : Forall (fun kv => scalar kv.2) (event e iso p digest).
Proof. apply event_Forall; intros; try exact I; by destruct p, digest. Qed.
Lemma event_json_ok :
  entry_ok e → Forall char_ok (replace_all utc_suffix (u "Z") iso) → opt_ok (preview <$> p) → opt_ok digest →
  json_ok (VDict (event e iso p digest)).
Proof.
  intros He Hiso Hp Hg. destruct event_dwf as [Hwf Hkeys]. constructor; [exact Hwf|exact Hkeys|].
  assert (∀ k v, vget response k = v → v ≠ VNone → dget response k = Some v) as Hget
    by (intros k v; unfold vget, get_or; destruct (dget response k); naive_solver).
  apply event_Forall; try (by constructor); try (intros; by constructor).
  - constructor. change (0 < 4300)%nat. lia.
  - constructor. pose proof (ok_duration e He) as H. unfold short_int in H.
    destruct (Z.max_spec 0 (duration_ms e)) as [[_ ->]|[_ ->]]; [exact H|change (0 < 4300)%nat; lia].
  - intros n Hn%Hget; [|done]. constructor. by apply (ok_result e He _ _ Hn).
  - intros k s Hs%Hget; [|done]. constructor. by apply (ok_result e He _ _ Hs).
  - intros o s Ho ->. constructor. pose proof (ok_texts e He) as H. rewrite Forall_forall in H. apply (H (Some s)). set_solver.
  - constructor. by apply ascii_chars.
  - constructor. apply ok_tool, He.
  - constructor. apply ok_action, He.
  - destruct p; constructor. exact Hp.
  - destruct digest; constructor. exact Hg.
Qed.
End events_ok.

(** ** What reaches the log *)
Inductive lock_place : Type := Free | LockFile | Locked | Log | Released.
Inductive progress : Type := Nothing | Partly | Whole.
Record audit_phase := APh { at_lock : lock_place; wrote : progress }.
(** [json.loads] without a hook: a repeated key takes its last value *)
Definition as_dict (pairs : list (str * value)) : res value := Ok (VDict (dmerge [] pairs)).
Lemma as_dict_same d : dwf d → as_dict d = Ok (VDict d).
Proof. intros Hd. unfold as_dict. by rewrite (dmerge_disjoint [] d Hd) by (intros k _; apply not_elem_of_nil). Qed.

Section recording.
Context {U : UnicodeDB} {F : FloatIO}.
Variables (root : str) (e : audit_entry).
(** The line of an event: it reads back as the event, and its line feed is the
    last character; the event shows the preview and the digest it was given, and
    is the same for any other command. *)
Definition with_command (c : option str) : audit_entry :=
  Entry (tool e) (action e) (result e) (duration_ms e) (error_status e) (profile e) (entry_session e) (entry_ssh_user e)
    (entry_effective_user e) c.
Definition line_of (line : bytes) : Prop :=
  ∃ iso p digest t,
    command_preview e = Ok p ∧ command_digest e = Ok digest ∧
    vget (event e iso p digest) (u "command_preview") = opt_str (preview <$> p) ∧
    vget (event e iso p digest) (u "command_sha256") = opt_str digest ∧
    (∀ c, event (with_command c) iso p digest = event e iso p digest) ∧
    json_dumps (VDict (event e iso p digest)) = Ok t ∧ utf8_encode (t ++ [10]) = Ok line ∧ 10 ∉ t ∧
    (Forall char_ok (replace_all utc_suffix (u "Z") iso) → json_loads as_dict t = Ok (VDict (event e iso p digest))).
Lemma line_of_event iso p digest t line :
  entry_ok e → command_preview e = Ok p → command_digest e = Ok digest →
  json_dumps (VDict (event e iso p digest)) = Ok t → utf8_encode (t ++ [10]) = Ok line → line_of line.
Proof.
  intros He Hp Hd Ht Hl. exists iso, p, digest, t.
  split_and!; [done..|by rewrite event_members|by rewrite event_members|done|done|done| |].
  - intros H10. pose proof (flat_line _ _ (event_flat e iso p digest) Ht) as H. rewrite Forall_forall in H.
    specialize (H 10 H10). unfold visible in H. lia.
  - intros Hiso. apply json_loads_dumps; [apply as_dict_same| |exact Ht]. apply event_json_ok; [done|done|..].
    + unfold command_preview in Hp. pose proof (ok_texts e He) as Hok. do 5 apply Forall_inv_tail in Hok. apply Forall_inv in Hok.
      destruct (command e) as [c|]; [|by injection Hp as <-]. inv_ok Hp. injection Hp as <-.
      assert (text_ok (preview a)) as H by (eapply preview_chars; [exact Hok| |done]; done).
      revert H. cbn. intros H. apply Forall_forall. intros x Hx. rewrite forallb_forall in H.
      apply list_elem_of_In in Hx. specialize (H x Hx). unfold code_point, char_ok in *. boolean. lia.
    + unfold command_digest in Hd. destruct (command e) as [c|]; [|by injection Hd as <-]. inv_ok Hd. injection Hd as <-.
      cbn. apply ascii_chars. destruct (sha256_hex_shape a) as [_ H]. rewrite forallb_forall in *. intros x Hx. specialize (H x Hx).
      unfold hex_char, is_ascii in *. boolean. lia.
Qed.

Definition allowed (ph : audit_phase) (c : audit_call) : Prop :=
  match at_lock ph, c with
  | Free, (LNow | LMkdir _ | LSecure _ _ | LOpenLock)
  | LockFile, (LLockEmpty | LFillLock | LSecure _ _ | LClock | LTryLock | LSleep | LCloseLock)
  | Locked, (LSecure _ _ | LUnlock) | Log, LCloseLog | Released, LCloseLock => True
  | Locked, LOpenLog path => ∃ day, path = in_root root (day ++ u ".jsonl")
  | Log, LWrite line => wrote ph = Nothing ∧ line_of line
  | _, _ => False
  end.
Definition after (ph : audit_phase) (c : audit_call) (a : res audit_reply) : audit_phase :=
  match c, a with
  | LOpenLock, Ok _ => APh LockFile (wrote ph)
  | LTryLock, Ok _ => APh Locked (wrote ph)
  | LOpenLog _, Ok _ => APh Log (wrote ph)
  | LWrite _, Ok _ => APh (at_lock ph) Whole
  | LWrite _, Err _ => APh (at_lock ph) Partly
  | LCloseLog, _ => APh Locked (wrote ph)
  | LUnlock, _ => APh Released (wrote ph)
  | LCloseLock, _ => APh Free (wrote ph)
  | _, _ => ph
  end.
Context (tr : list audit_call) (scr : list (res audit_reply)).
Abbreviation IO := (io unit audit_call audit_reply).
Abbreviation opening := (APh Free Nothing).
Abbreviation stuck := (obeyed allowed after tr scr opening).
Abbreviation in_ x w := (at_phase allowed after tr scr opening (APh x w)).
Lemma audit_tell x w c (Q R : IO → Prop) :
  allowed (APh x w) c →
  (∀ a s, at_phase allowed after tr scr opening (after (APh x w) c (Ok a)) s → Q s) →
  (∀ err s, at_phase allowed after tr scr opening (after (APh x w) c (Err err)) s → R s) →
  triple stuck (in_ x w) (tell c) (fun _ => Q) (fun _ => R).
Proof.
  intros Hc HQ HR. unfold tell.
  eapply (triple_bind _ _ _ _ (fun a => at_phase allowed after tr scr opening (after (APh x w) c (Ok a))));
    [by apply triple_monitored|]. intros a. apply triple_ret. apply HQ.
Qed.
(** The lock is not held, and the log is closed. *)
Definition idle (s : IO) : Prop := ∃ x w, (x = Free ∨ x = LockFile) ∧ in_ x w s.
Lemma idle_at x w s : (x = Free ∨ x = LockFile) → in_ x w s → idle s.
Proof. intros Hx Hs. by exists x, w. Qed.
(** A call that stays in its phase *)
Lemma triple_stay x w c (R : IO → Prop) :
  allowed (APh x w) c → (∀ a, after (APh x w) c a = APh x w) → (∀ s, in_ x w s → R s) →
  triple stuck (in_ x w) (tell c) (fun _ => in_ x w) (fun _ => R).
Proof. intros Hc Ha HR. apply audit_tell; [done|by intros a s; rewrite Ha|by intros a s; rewrite Ha; apply HR]. Qed.
Lemma triple_answer {A} x w c (pick : audit_reply → M IO A) (R : IO → Prop) :
  allowed (APh x w) c → (∀ a, after (APh x w) c a = APh x w) → (∀ s, in_ x w s → R s) →
  (∀ r, pick r = hang ∨ ∃ a, pick r = mret a) →
  triple stuck (in_ x w) (r ← ask c; pick r) (fun _ => in_ x w) (fun _ => R).
Proof.
  intros Hc Ha HR Hpick. eapply (triple_bind _ _ _ _ (fun _ => in_ x w)).
  { apply triple_monitored; [done|by intros a s; rewrite Ha|by intros a s; rewrite Ha; apply HR]. }
  intros r. destruct (Hpick r) as [-> | (a & ->)]; [intros s Hs; by eapply at_phase_obeyed|by apply triple_ret].
Qed.
Lemma audit_clock (R : IO → Prop) :
  (∀ s, in_ LockFile Nothing s → R s) →
  triple stuck (in_ LockFile Nothing) clock (fun _ => in_ LockFile Nothing) (fun _ => R).
Proof. intros HR. unfold clock. apply triple_answer; [done|done|exact HR|]. intros [| | |now]; eauto. Qed.
Lemma triple_lock_loop fuel deadline :
  triple stuck (in_ LockFile Nothing) (lock_loop fuel deadline) (fun _ => in_ Locked Nothing) (fun _ => idle).
Proof.
  assert (∀ s, in_ LockFile Nothing s → idle s) as Hidle by (intros s; apply idle_at; auto).
  induction fuel as [|fuel IH]; [intros s Hs; by eapply at_phase_obeyed|]. cbn [lock_loop].
  eapply (triple_bind _ _ _ _ (fun b : bool => in_ (if b then Locked else LockFile) Nothing)).
  - apply (triple_try _ _ _ _ _ (fun _ => in_ LockFile Nothing)).
    + eapply (triple_bind _ _ _ _ (fun _ => in_ Locked Nothing)); [by apply audit_tell|]. intros u. by apply triple_ret.
    + intros err. destruct (is_os_error err); [|by apply triple_raise].
      eapply (triple_bind _ _ _ _ (fun _ => in_ LockFile Nothing)); [by apply audit_clock|]. intros t.
      destruct (qle deadline t).
      * eapply (triple_bind _ _ _ _ (fun _ => idle)); [|intros u; by apply triple_raise].
        apply audit_tell; [done|..]; intros a s Hs; eapply idle_at; [|exact Hs| |exact Hs]; by left.
      * eapply (triple_bind _ _ _ _ (fun _ => in_ LockFile Nothing)); [by apply triple_stay|]. intros u. by apply triple_ret.
  - intros [|]; [by apply triple_ret|apply IH].
Qed.
Lemma triple_acquire :
  triple stuck (in_ Free Nothing) (acquire root) (fun _ => in_ Locked Nothing) (fun _ => idle).
Proof.
  assert (∀ x s, (x = Free ∨ x = LockFile) → in_ x Nothing s → idle s) as Hidle by (intros x s; apply idle_at).
  unfold acquire. do 2 (eapply (triple_bind _ _ _ _ (fun _ => in_ Free Nothing)); [apply triple_stay; [done|done|eauto]|]; intros ?).
  eapply (triple_bind _ _ _ _ (fun _ => in_ LockFile Nothing)); [apply audit_tell; [done|done|eauto]|]. intros u1.
  eapply (triple_bind _ _ _ _ (fun _ => in_ LockFile Nothing)).
  { apply triple_answer; [done|done|eauto|]. intros []; eauto. }
  intros empty. eapply (triple_bind _ _ _ _ (fun _ => in_ LockFile Nothing)).
  { destruct empty; [apply triple_stay; [done|done|eauto]|by apply triple_ret]. }
  intros u2. eapply (triple_bind _ _ _ _ (fun _ => in_ LockFile Nothing)); [apply triple_stay; [done|done|eauto]|]. intros u3.
  eapply (triple_bind _ _ _ _ (fun _ => in_ LockFile Nothing)); [apply audit_clock; eauto|]. intros t.
  apply triple_get. intros x Hx. eapply triple_before; [apply triple_lock_loop|]. by intros s ->.
Qed.
Lemma triple_release w (P : IO → Prop) :
  (∀ s, in_ Free w s → P s) → triple stuck (in_ Locked w) release (fun _ => P) (fun _ => P).
Proof.
  intros HP. unfold release. apply (triple_cleanup _ _ _ _ (fun _ => in_ Released w) _ (fun _ => in_ Released w)).
  - by apply audit_tell.
  - intros u. apply audit_tell; [done|..]; intros a s; apply HP.
  - intros err. apply audit_tell; [done|..]; intros a s; apply HP.
Qed.
(** The lock is held, and the log is closed. *)
Definition held (s : IO) : Prop := ∃ w, in_ Locked w s.
Lemma triple_write_line day line :
  (∀ b, utf8_encode line = Ok b → line_of b) →
  triple stuck (in_ Locked Nothing) (write_line (in_root root (day ++ u ".jsonl")) line)
    (fun _ => in_ Locked Whole) (fun _ => held).
Proof.
  intros Hline. unfold write_line. eapply (triple_bind _ _ _ _ (fun _ => in_ Log Nothing)).
  { apply audit_tell; [by exists day|done|]. intros err s Hs. by exists Nothing. }
  intros u1. apply (triple_cleanup _ _ _ _ (fun _ => in_ Log Whole) _ (fun _ s => ∃ w, in_ Log w s)).
  - apply triple_lift_at; [|intros err s Hs; by exists Nothing]. intros b Hb.
    apply audit_tell; [split; [done|by apply Hline]|done|]. intros err s Hs. by exists Partly.
  - intros u2. apply audit_tell; [done|done|]. intros err s Hs. by exists Whole.
  - intros err. apply triple_exists. intros w. apply audit_tell; [done|..]; intros a s Hs; by exists w.
Qed.
Lemma triple_append day d :
  (∀ t b, json_dumps (VDict d) = Ok t → utf8_encode (t ++ [10]) = Ok b → line_of b) →
  triple stuck (in_ Free Nothing) (append root day d) (fun _ => in_ Free Whole) (fun _ => idle).
Proof.
  intros Hline. assert (∀ s, in_ Free Nothing s → idle s) as Hidle by (intros s; apply idle_at; auto).
  assert (∀ w s, in_ Free w s → idle s) as Hfree by (intros w s; apply idle_at; auto).
  unfold append. eapply (triple_bind _ _ _ _ (fun _ => in_ Free Nothing)); [by apply triple_stay|]. intros u1.
  eapply (triple_bind _ _ _ _ (fun _ => in_ Free Nothing)); [by apply triple_stay|]. intros u2.
  apply triple_lift_at; [|auto]. intros t Ht.
  eapply (triple_bind _ _ _ _ (fun _ => in_ Locked Nothing)); [apply triple_acquire|]. intros u3.
  apply (triple_cleanup _ _ _ _ (fun _ => in_ Locked Whole) _ (fun _ => held)).
  - eapply (triple_bind _ _ _ _ (fun _ => in_ Locked Whole)); [apply triple_write_line; intros b; by apply Hline|]. intros u4.
    apply triple_stay; [done|done|]. intros s Hs. by exists Whole.
  - intros u5. eapply triple_conseq; [apply (triple_release Whole (in_ Free Whole)); done|done|done|exact (fun _ => Hfree Whole)|done].
  - intros err. apply triple_exists. intros w. apply triple_release. apply Hfree.
Qed.
Lemma triple_record :
  entry_ok e →
  triple stuck (in_ Free Nothing) (record root e)
    (fun r s => logged r = true ∧
                (∃ p, command_preview e = Ok p ∧ command_redacted r = flag_of redacted p ∧
                      command_preview_truncated r = flag_of truncated p) ∧
                in_ Free Whole s)
    (fun _ => idle).
Proof.
  intros He. assert (∀ s, in_ Free Nothing s → idle s) as Hidle by (intros s; apply idle_at; auto).
  unfold record. eapply (triple_bind _ _ _ _ (fun _ => in_ Free Nothing)).
  { apply triple_answer; [done|done|exact Hidle|]. intros [|iso day| |]; eauto. }
  intros [iso day]. cbn [fst snd]. apply triple_lift_at; [|auto]. intros p Hp. apply triple_lift_at; [|auto]. intros digest Hd.
  eapply (triple_bind _ _ _ _ (fun _ => in_ Free Whole)).
  { apply triple_append. intros t b Ht Hb. by eapply line_of_event. }
  intros u1. apply triple_ret. intros s Hs. split; [done|]. split; [by exists p|exact Hs].
Qed.
End recording.

(** C25: whatever the file system answers, recording an operation writes to
    the log only while it holds the lock file, and at most once; what it writes
    is one line that JSON reads back as the event, in which the command is only
    its redacted preview and its digest; a returned record was written whole and
    released the lock, and after an error the log is closed and the lock free. *)
Theorem audit_line_recorded {U : UnicodeDB} {F : FloatIO} root e (s : io unit audit_call audit_reply) (He : entry_ok e) :
  let at_ := at_phase (allowed root e) after (trace s) (script s) (APh Free Nothing) in
  match record root e s with
  | (Ret r, s') => logged r = true ∧ at_ (APh Free Whole) s'
  | (Raise _, s') => ∃ x w, (x = Free ∨ x = LockFile) ∧ at_ (APh x w) s'
  | (Hang, s') => obeyed (allowed root e) after (trace s) (script s) (APh Free Nothing) s'
  end.
Proof.
  pose proof (triple_record root e (trace s) (script s) He s (at_phase_start _ _ s _)) as H.
  destruct (record root e s) as [[r|err|] s']; [|exact H..]. by destruct H as (H1 & _ & H2).
Qed.
(** A command with a password, recorded at the first try for the lock *)
Definition sample_entry : audit_entry :=
  Entry (u "server_exec") (u "exec") (Some [(u "status", VStr (u "completed")); (u "exit_code", VInt 0)]) 12 None
    (Some (u "prod")) (Some (u "s-1")) None None (Some (u "mysql --password hunter2")).
Definition sample_answers : list (res audit_reply) :=
  [Ok (LStamp (u "2026-01-02T03:04:05+00:00") (u "2026-01-02")); Ok LDone; Ok LDone; Ok LDone; Ok LDone; Ok LDone;
   Ok (LFlag false); Ok LDone; Ok (LTime (qz 0)); Ok LDone; Ok LDone; Ok LDone; Ok LDone; Ok LDone; Ok LDone; Ok LDone].
Lemma audit_line_recorded_witness :
  let s := Io tt sample_answers [] in
  entry_ok sample_entry ∧
  match record (U := ascii_db) (F := half_float) (u "C:\audit") sample_entry s with
  | (Ret r, s') => command_redacted r = true ∧ logged r = true ∧
      at_phase (allowed (U := ascii_db) (F := half_float) (u "C:\audit") sample_entry) after [] sample_answers
        (APh Free Nothing) (APh Free Whole) s'
  | _ => False
  end.
Proof.
  cbv zeta. assert (entry_ok sample_entry) as He.
  { split; try (apply ascii_chars; reflexivity).
    - intros k v H. cbn in H. repeat case_decide; injection H as <- || discriminate; [by apply ascii_chars|].
      change (0 < 4300)%nat. lia.
    - change (3 < 4300)%nat. lia.
    - assert (∀ t, forallb is_ascii t = true → opt_ok (Some t)) as Hs by (intros t; apply ascii_chars).
      do 5 (constructor; [by try apply Hs|]). constructor; [by apply Hs|constructor]. }
  split; [exact He|].
  pose proof (audit_line_recorded (U := ascii_db) (F := half_float) (u "C:\audit") sample_entry (Io tt sample_answers []) He) as H.
  cbv zeta in H. assert (command_redacted <$> match (record (U := ascii_db) (F := half_float) (u "C:\audit") sample_entry (Io tt sample_answers [])).1 with
    Ret r => Some r | _ => None end = Some true) as E by (vm_compute; reflexivity).
  destruct (record _ _ _) as [[r|err|] s']; [|discriminate..]. injection E as E. split; [exact E|exact H].
Defined.
