(* ===== verification/AuditedCalls.v ===== *)
(** * AuditedCalls: operations and the log (security/integration.py, security/profile_audit.py)

    An audited operation runs once, is recorded, and its outcome is passed on;
    the log is any recorder over the state of the operation. *)
From S2P Require Import Prelude Errors Text TextFacts Regex Value Prog Json ConfigModel Redaction AuditLog.

Class Recorder (S : Type) := {
  rc_record : audit_entry → M S AuditWriteResult;
  rc_clock : M S Q;                             (* time.monotonic() *)
}.

(** ** Operations *)
Section calls.
Context {U : UnicodeDB} {S : Type} {logger : option (Recorder S)}.
Definition elapsed_ms (started now : Q) : Z := Z.max 0 (qround (qmul (qsub now started) (qz 1000))).
(** What a failed record still reports *)
Definition unlogged (c : option str) : res AuditWriteResult :=
  match c with
  | Some c => p ← redact_preview c DEFAULT_PREVIEW_BYTES; Ok (AuditWritten false (redacted p) (truncated p))
  | None => Ok (AuditWritten false false false)
  end.
Definition safe_record (l : Recorder S) (e : audit_entry) : M S AuditWriteResult :=
  try_except (rc_record e) (fun err => if is_exception err then lift (unlogged (command e)) else raise err).
Definition audit_member (w : AuditWriteResult) : dict value :=
  [(u "audit", VDict [(u "logged", VBool (logged w)); (u "command_redacted", VBool (command_redacted w));
                      (u "command_preview_truncated", VBool (command_preview_truncated w))])].
Definition call (tool action : str) (operation : M S (dict value)) (profile session_id command : option str) : M S (dict value) :=
  match logger with
  | None => operation
  | Some l =>
      let entry result ms error_status := Entry tool action result ms error_status profile session_id None None command in
      started ← rc_clock;
      result ← try_except operation
        (fun e => if is_exception e then
                    now ← rc_clock;
                    safe_record l (entry None (elapsed_ms started now) (Some (error_code e (u "error"))));;
                    raise e
                  else raise e);
      now ← rc_clock;
      written ← safe_record l (entry (Some result) (elapsed_ms started now) None);
      mret (dmerge result (audit_member written))
  end.
End calls.

(** ** Profile changes *)
Definition AUDIT_ENVIRONMENTS : list str := [u "unspecified"; u "test"; u "development"; u "staging"; u "production"].
Definition safe_profile_capabilities (p : ServerProfile) : dict value :=
  [(u "connection_type", VStr (connection_type_value (connection_type p)));
   (u "authentication", VStr (authentication_value (authentication p)));
   (u "environment", VStr (if bool_decide (environment p ∈ AUDIT_ENVIRONMENTS) then environment p else u "custom"));
   (u "terminal_enabled", VBool (allow_terminal p)); (u "file_read_enabled", VBool (allow_file_read p));
   (u "file_write_enabled", VBool (allow_file_write p));
   (u "elevation_mode", VStr (elevation_mode_value (elevation_mode p)));
   (u "root_session_enabled", VBool (allow_root_session p))].
(** A [SetupAuditStatus] is whether the record was logged. *)
Definition from_result (result : dict value) : bool :=
  match vget result (u "audit") with VDict audit => is_true (vget audit (u "logged")) | _ => false end.
Definition combine (statuses : list bool) : bool := negb (bool_decide (statuses = [])) && forallb id statuses.
Definition attach (status : bool) (result : dict value) : dict value :=
  let previous := match vget result (u "audit") with VDict audit => is_true (vget audit (u "logged")) | _ => true end in
  dmerge result [(u "audit", VDict [(u "logged", VBool (status && previous))])].
Definition profile_entry (action name : str) (profile : option ServerProfile) (result_status : str) : audit_entry :=
  Entry (u "server_profile_setup") action
    (Some (dmerge [(u "profile_name", VStr name); (u "status", VStr result_status)]
             (match profile with Some p => safe_profile_capabilities p | None => [] end)))
    0 None (Some name) None None None None.
Definition record_profile {S} (logger : option (Recorder S)) (action name : str) (profile : option ServerProfile)
    (result_status : str) : M S bool :=
  match logger with
  | None => mret false
  | Some l =>
      try_except (w ← rc_record (profile_entry action name profile result_status); mret (logged w))
        (fun e => if is_exception e then mret false else raise e)
  end.

(** ** The log does not change what operations do *)
Section transparency.
Context {U : UnicodeDB} {S X : Type} (l : Recorder S) (view : S → X).
(** The recorder leaves what [view] shows alone, its clock works, and it fails
    with exceptions only. *)
Class Separate := {
  record_apart : ∀ e s, view (rc_record e s).2 = view s;
  record_fails : ∀ e s err, (rc_record e s).1 = Raise err → is_exception err = true;
  clock_works : ∀ s, ∃ now s', rc_clock s = (Ret now, s') ∧ view s' = view s;
}.
Context `{Hl : Separate}.
Definition showable (c : option str) : Prop := match c with Some c => ∃ p, redact_preview c DEFAULT_PREVIEW_BYTES = Ok p | None => True end.
Lemma unlogged_showable c : showable c → ∃ w, unlogged c = Ok w ∧ logged w = false.
Proof. destruct c as [c|]; [|by eexists]. intros [p Hp]. unfold unlogged. rewrite Hp. by eexists. Qed.
(** A record that ends returns. *)
Lemma safe_record_spec e s :
  showable (command e) →
  view (safe_record l e s).2 = view s ∧
  ((safe_record l e s).1 = Hang ∧ (rc_record e s).1 = Hang ∨
   ∃ w, (safe_record l e s).1 = Ret w ∧ (logged w = true → (rc_record e s).1 = Ret w)).
Proof.
  intros Hc. pose proof (record_apart e s) as Hv. pose proof (record_fails e s) as Hf. unfold safe_record, try_except.
  destruct (rc_record e s) as [[w|err|] s'] eqn:E; cbn [fst snd] in *; [split; [done|]; right; by exists w| |by auto].
  rewrite (Hf err eq_refl). destruct (unlogged_showable _ Hc) as (w & -> & Hw). split; [done|]. right. exists w.
  split; [done|]. by rewrite Hw.
Qed.
End transparency.
Arguments Separate {S X} l view.

(** With an audit log, an operation runs exactly once, from where the
    caller stood, and its outcome is the caller's: its result with the one extra
    member [audit], or its own error; a log that fails changes neither, and the
    answer says that nothing was logged.  Only a log that never answers stops
    the caller. *)
Theorem audit_is_transparent {U : UnicodeDB} {S X} (l : Recorder S) (view : S → X) (Hl : Separate l view)
    tool action (operation : M S (dict value)) profile session_id command s (Hshow : showable command)
    (Hlocal : ∀ s1 s2, view s1 = view s2 → (operation s1).1 = (operation s2).1 ∧ view (operation s1).2 = view (operation s2).2) :
  let '(r, s') := call (logger := Some l) tool action operation profile session_id command s in
  view s' = view (operation s).2 ∧
  match (operation s).1, r with
  | Ret result, Ret answer => ∃ w, answer = dmerge result (audit_member w) ∧
      (logged w = true → ∃ e s1, (rc_record e s1).1 = Ret w)
  | Raise err, Raise err' => err' = err
  | Hang, Hang => True
  | (Ret _ | Raise _), Hang => ∃ e s1, (rc_record e s1).1 = Hang
  | _, _ => False
  end.
Proof.
  destruct (clock_works l view s) as (started & s0 & Hclock & Hv0). unfold call.
  destruct (Hlocal s0 s Hv0) as [Hr Hv]. rewrite <- Hr, <- Hv. clear Hr Hv. unfold_prog. rewrite Hclock.
  destruct (operation s0) as [[result|err|] s1]; [| |by split].
  - destruct (clock_works l view s1) as (now & s2 & -> & Hv2).
    match goal with |- context [safe_record l ?e s2] => destruct (safe_record_spec l view e s2 Hshow) as [Hv3 H];
      destruct (safe_record l e s2) as [r s3] eqn:E end.
    cbn [fst snd] in *. destruct H as [[-> Hh]|(w & -> & Hw)].
    + split; [congruence|]. by eexists _, _.
    + split; [congruence|]. exists w. split; [done|]. intros H. eexists _, _. by apply Hw.
  - destruct (is_exception err); [|by split]. destruct (clock_works l view s1) as (now & s2 & -> & Hv2).
    match goal with |- context [safe_record l ?e s2] => destruct (safe_record_spec l view e s2 Hshow) as [Hv3 H];
      destruct (safe_record l e s2) as [r s3] eqn:E end.
    cbn [fst snd] in *. destruct H as [[-> Hh]|(w & -> & Hw)].
    + split; [congruence|]. by eexists _, _.
    + split; [congruence|done].
Qed.
(** A log that keeps its entries beside a counter, and a command with a password *)
Definition keeping : Recorder (nat * list audit_entry) := {|
  rc_record e := fun s => (Ret (AuditWritten true true false), (s.1, s.2 ++ [e]));
  rc_clock := mret (qz 0);
|}.
Lemma keeping_separate : Separate keeping fst.
Proof. split; [done|done|]. intros s. by exists (qz 0), s. Qed.
Definition counted : M (nat * list audit_entry) (dict value) :=
  modify (fun s => (S s.1, s.2));; mret [(u "status", VStr (u "completed"))].
Lemma audit_is_transparent_witness :
  showable (U := ascii_db) (Some (u "mysql --password hunter2")) ∧
  match call (U := ascii_db) (logger := Some keeping) (u "server_exec") (u "exec") counted None None
          (Some (u "mysql --password hunter2")) (0%nat, []) with
  | (Ret answer, (n, entries)) => n = 1%nat ∧ length entries = 1%nat ∧
      ∃ w, answer = dmerge [(u "status", VStr (u "completed"))] (audit_member w)
  | _ => False
  end.
Proof.
  assert (showable (U := ascii_db) (Some (u "mysql --password hunter2"))) as Hs by (eexists; vm_compute; reflexivity).
  split; [exact Hs|].
  pose proof (audit_is_transparent (U := ascii_db) keeping fst keeping_separate (u "server_exec") (u "exec") counted None None
    (Some (u "mysql --password hunter2")) (0%nat, []) Hs) as H.
  assert (∀ s1 s2 : nat * list audit_entry, s1.1 = s2.1 → (counted s1).1 = (counted s2).1 ∧ (counted s1).2.1 = (counted s2).2.1) as Hl
    by (intros [n1 e1] [n2 e2] [= ->]; by split).
  specialize (H Hl). assert (length (call (U := ascii_db) (logger := Some keeping) (u "server_exec") (u "exec") counted None None
          (Some (u "mysql --password hunter2")) (0%nat, [])).2.2 = 1%nat) as Hn by (vm_compute; reflexivity).
  destruct (call _ _ _ _ _ _ _) as [[answer|err|] [n entries]]; [|by destruct H|by destruct H as [_ (? & ? & H)]].
  destruct H as [Hv (w & Hw & _)]. split; [exact Hv|]. split; [exact Hn|]. by exists w.
Defined.

(** ** Recording a profile change never fails *)
Lemma record_profile_never_raises {S} (l : Recorder S) action name profile status s :
  (∀ e s err, (rc_record e s).1 = Raise err → is_exception err = true) →
  (record_profile (Some l) action name profile status s).1 = Hang ∨
  ∃ b, (record_profile (Some l) action name profile status s).1 = Ret b.
Proof.
  intros Hf. unfold record_profile. unfold_prog. specialize (Hf (profile_entry action name profile status) s).
  destruct (rc_record _ s) as [[w|err|] s']; [right; by eexists| |by left]. rewrite (Hf err eq_refl). right. by eexists.
Qed.
(** A status of several is logged when there is one, and all were. *)
Lemma combine_logged statuses : combine statuses = true ↔ statuses ≠ [] ∧ Forall (fun b => b = true) statuses.
Proof.
  unfold combine. rewrite andb_true_iff, negb_true_iff, bool_decide_eq_false, forallb_forall, Forall_forall.
  setoid_rewrite list_elem_of_In. done.
Qed.
Lemma attach_logged status result :
  from_result (attach status result) = status && (match vget result (u "audit") with VDict audit => is_true (vget audit (u "logged")) | _ => true end).
Proof.
  unfold attach, from_result, vget, get_or. change (dmerge result [?kv]) with (dset result kv.1 kv.2). cbn [fst snd].
  rewrite dget_dset_eq. by destruct (status && _).
Qed.
