(* ===== verification/Application.v ===== *)
(** * Application: the operations of the tools (application.py)

    Arguments are checked, turned into one request to the broker, and the
    request is recorded in the audit log.  The profiles, the broker, the setup
    coordinator and the log are interfaces. *)
From S2P Require Import Prelude Errors Text TextFacts Regex Prog ConfigModel BrokerModel Supervisor BrokerServer WorkerProtocol Redaction AuditLog AuditedCalls Value.

(** ** What the services use *)
Class BrokerProvider (S : Type) := {
  bp_connect : M S unit;                                        (* BrokerManager.connect *)
  bp_request : str → option (dict value) → M S (dict value);    (* BrokerClient.request *)
  bp_close : M S unit;                                          (* BrokerClient.__exit__ *)
}.
Class SetupOps (S : Type) := {
  su_start : str → option str → option str → option str → M S (dict value);
  su_status : str → M S (dict value);
  su_wait : str → value → M S (dict value);
}.
Class Profiles (S : Type) := { pf_load : M S ServerOpsConfig }.  (* TomlProfileRepository.load *)

(** ** Arguments *)
Definition forbid (given : bool) (field_name action : str) : res unit :=
  raise_if given (value_error (field_name ++ u " is not valid for " ++ action)).
Definition given (v : value) : bool := match v with VNone => false | _ => true end.
Definition optional_text (v : value) : option str := match v with VStr (c :: s) => Some (c :: s) | _ => None end.
Definition profile_name_of {U : UnicodeDB} (v : option str) : res str :=
  match v with
  | None => Err (value_error (u "profile_name is required"))
  | Some name => validate_profile_name name;; Ok name
  end.
Definition session_id_of {U : UnicodeDB} (v : option str) : res str :=
  match v with
  | None => Err (value_error (u "session_id is required"))
  | Some id => validate_session_id id;; Ok id
  end.
(** [isinstance(command, str) and command and "\0" not in command] *)
Definition command_text (v : value) (message : str) : res str :=
  match v with
  | VStr (c :: s) => raise_if (bool_decide (0 ∈ c :: s)) (value_error message);; Ok (c :: s)
  | _ => Err (value_error message)
  end.
(** [float(timeout)] of a number from 0.1 through 3600 *)
Definition timeout_field (v : value) : res (dict value) :=
  let e := value_error (u "timeout must be from 0.1 through 3600 seconds") in
  let number q := raise_if (negb (qle (frac 1 10) q && qle q (qz 3600))) e;; Ok [(u "timeout", VFloat (Finite q))] in
  match v with
  | VNone => Ok []
  | VInt n => number (qz n)
  | VFloat (Finite q) => number q
  | _ => Err e
  end.
Definition present (parameters : dict value) : dict value := List.filter (fun kv => given kv.2) parameters.

Definition audit_tools : dict str :=
  [(u "session.open", u "server_connection"); (u "session.list", u "server_connection");
   (u "session.status", u "server_connection"); (u "session.rediscover", u "server_connection");
   (u "session.close", u "server_connection"); (u "session.exec", u "server_exec");
   (u "session.terminal", u "server_terminal"); (u "session.files", u "server_files");
   (u "session.file_edit", u "server_file_edit"); (u "session.elevation", u "server_elevation")].
(** [text.rsplit(".", 1)[-1]] *)
Fixpoint last_part (text : str) : str :=
  match text with
  | [] => []
  | c :: rest => if bool_decide (46 ∈ rest) then last_part rest else if c =? 46 then rest else c :: rest
  end.
Definition audit_operation (message_type : str) (payload : dict value) : res (str * str) :=
  match dget audit_tools message_type with
  | None => Err (value_error (u "broker operation has no audit mapping: " ++ message_type))
  | Some tool =>
      Ok (tool, match vget payload (u "action") with
                | VStr a => a
                | _ => if str_eqb message_type (u "session.exec") then u "exec" else last_part message_type
                end)
  end.
Definition audited_command (tool action : str) (payload : dict value) : option str :=
  if str_eqb tool (u "server_exec") || str_eqb tool (u "server_elevation") ||
     (str_eqb tool (u "server_terminal") && str_eqb action (u "start"))
  then optional_text (vget payload (u "command")) else None.

(** ** Operations *)
Section services.
Context {U : UnicodeDB} {S : Type} `{Profiles S} `{BrokerProvider S} {setup : option (SetupOps S)}
  {logger : option (Recorder S)}.

Definition ask_broker (message_type : str) (payload : option (dict value)) : M S (dict value) :=
  bp_connect;; try_finally (bp_request message_type payload) bp_close.
Definition broker_request (message_type : str) (payload : option (dict value)) : M S (dict value) :=
  let body := default [] payload in
  op ← lift (audit_operation message_type body);
  call (logger := logger) op.1 op.2 (ask_broker message_type payload)
    (optional_text (vget body (u "profile_name"))) (optional_text (vget body (u "session_id")))
    (audited_command op.1 op.2 body).

Definition server_profile_setup (action : str) (profile_name suggested_host suggested_user request_id : option str)
    (wait_timeout : value) : M S (dict value) :=
  match setup with
  | None => raise (Builtin RuntimeError (u "setup coordinator is unavailable"))
  | Some ops =>
      if bool_decide (action ∈ [u "add"; u "edit"; u "remove"; u "test"]) then
        lift (forbid (is_some request_id) (u "request_id") action);;
        lift (forbid (given wait_timeout) (u "wait_timeout") action);;
        su_start action profile_name suggested_host suggested_user
      else if bool_decide (action ∈ [u "status"; u "wait"]) then
        lift (forbid (is_some profile_name) (u "profile_name") action);;
        lift (forbid (is_some suggested_host) (u "suggested_host") action);;
        lift (forbid (is_some suggested_user) (u "suggested_user") action);;
        match request_id with
        | None => raise (value_error (u "request_id is required"))
        | Some id =>
            if str_eqb action (u "status") then
              lift (forbid (given wait_timeout) (u "wait_timeout") action);; su_status id
            else su_wait id (if given wait_timeout then wait_timeout else VInt 5)
        end
      else raise (value_error (u "unsupported server_profile_setup action: " ++ action))
  end.
Definition server_profiles (action : str) (profile_name : option str) : M S (dict value) :=
  config ← pf_load;
  if str_eqb action (u "list") then
    lift (raise_if (is_some profile_name) (value_error (u "profile_name is not valid for list")));;
    mret [(u "profiles", VList (map (fun np => VDict (profile_summary np.1 np.2)) (sort_by fst (profiles config))))]
  else if str_eqb action (u "inspect") then
    name ← lift (profile_name_of profile_name);
    match dget (profiles config) name with
    | Some p => mret [(u "profile", VDict (profile_details name p))]
    | None => raise (config_error (u "profile does not exist: " ++ name))
    end
  else raise (value_error (u "unsupported server_profiles action: " ++ action)).
Definition server_connection (action : str) (profile_name session_id : option str) : M S (dict value) :=
  if str_eqb action (u "open") then
    lift (forbid (is_some session_id) (u "session_id") action);;
    name ← lift (profile_name_of profile_name);
    broker_request (u "session.open") (Some [(u "profile_name", VStr name)])
  else if str_eqb action (u "list") then
    lift (forbid (is_some profile_name) (u "profile_name") action);;
    lift (forbid (is_some session_id) (u "session_id") action);;
    broker_request (u "session.list") None
  else if bool_decide (action ∈ [u "status"; u "rediscover"; u "close"]) then
    lift (forbid (is_some profile_name) (u "profile_name") action);;
    id ← lift (session_id_of session_id);
    broker_request (u "session." ++ action) (Some [(u "session_id", VStr id)])
  else raise (value_error (u "unsupported server_connection action: " ++ action)).
Definition server_exec (session_id : str) (command timeout : value) : M S (dict value) :=
  c ← lift (command_text command (u "command must be non-empty text without NUL"));
  id ← lift (session_id_of (Some session_id));
  limit ← lift (timeout_field timeout);
  broker_request (u "session.exec") (Some ([(u "session_id", VStr id); (u "command", VStr c)] ++ limit)).
(** [server_terminal], [server_files] and [server_file_edit] *)
Definition session_request (message_type action session_id : str) (parameters : dict value) : M S (dict value) :=
  id ← lift (session_id_of (Some session_id));
  broker_request message_type
    (Some (dmerge [(u "session_id", VStr id); (u "action", VStr action)] (present parameters))).
Definition server_terminal : str → str → dict value → M S (dict value) := session_request (u "session.terminal").
Definition server_files : str → str → dict value → M S (dict value) := session_request (u "session.files").
Definition server_file_edit : str → str → dict value → M S (dict value) := session_request (u "session.file_edit").
Definition server_elevation (action session_id : str) (command timeout : value) : M S (dict value) :=
  id ← lift (session_id_of (Some session_id));
  let payload := [(u "session_id", VStr id); (u "action", VStr action)] in
  if str_eqb action (u "exec") then
    c ← lift (command_text command (u "command is required for elevation exec"));
    limit ← lift (timeout_field timeout);
    broker_request (u "session.elevation") (Some (payload ++ [(u "command", VStr c)] ++ limit))
  else
    lift (forbid (given command) (u "command") action);;
    lift (forbid (given timeout) (u "timeout") action);;
    broker_request (u "session.elevation") (Some payload).
End services.

(** ** What the broker is asked *)
Inductive app_call : Type :=
  | AConnect | ARequest (message_type : str) (payload : option (dict value)) | AClose.
Inductive app_reply : Type := ADone | AResult (result : dict value).
#[export] Instance recorded_broker {L} : BrokerProvider (io L app_call app_reply) := {|
  bp_connect := ask AConnect;; mret tt;
  bp_request kind payload := r ← ask (ARequest kind payload); match r with AResult d => mret d | _ => hang end;
  bp_close := ask AClose;; mret tt;
|}.

(** The operations that go to the broker *)
Inductive operation : Type :=
  | OpConnection (action : str) (profile_name session_id : option str)
  | OpExec (session_id : str) (command timeout : value)
  | OpTerminal (action session_id : str) (parameters : dict value)
  | OpFiles (action session_id : str) (parameters : dict value)
  | OpFileEdit (action session_id : str) (parameters : dict value)
  | OpElevation (action session_id : str) (command timeout : value).
Definition run {U : UnicodeDB} {S} `{BrokerProvider S} {logger : option (Recorder S)} (o : operation) : M S (dict value) :=
  match o with
  | OpConnection action profile session => server_connection (logger := logger) action profile session
  | OpExec session command timeout => server_exec (logger := logger) session command timeout
  | OpTerminal action session parameters => server_terminal (logger := logger) action session parameters
  | OpFiles action session parameters => server_files (logger := logger) action session parameters
  | OpFileEdit action session parameters => server_file_edit (logger := logger) action session parameters
  | OpElevation action session command timeout => server_elevation (logger := logger) action session command timeout
  end.
(** Keyword arguments beside [action] and [session_id] *)
Definition keywords (parameters : dict value) : Prop :=
  dwf parameters ∧ u "session_id" ∉ dkeys parameters ∧ u "action" ∉ dkeys parameters.
Definition callable (o : operation) : Prop :=
  match o with OpTerminal _ _ ps | OpFiles _ _ ps | OpFileEdit _ _ ps => keywords ps | _ => True end.

(** What the broker and the worker read out of a request *)
Definition number_of (v : value) : option Q :=
  match v with VInt n => Some (qz n) | VFloat (Finite q) => Some q | _ => None end.
Section meaning.
Context {U : UnicodeDB}.
Definition session_meaning (action session_id : str) (parameters body : dict value) : Prop :=
  ∃ q, session_payload body = Ok (session_id, q) ∧ vget q (u "action") = VStr action ∧
       ∀ k, k ≠ u "action" → dget q k = dget (present parameters) k.
Definition means (o : operation) (kind : str) (payload : option (dict value)) : Prop :=
  let body := default [] payload in
  match o with
  | OpConnection action profile session =>
      kind = u "session." ++ action ∧
      ((∃ name, action = u "open" ∧ profile = Some name ∧
                require_fields body [u "profile_name"] [] = Ok tt ∧ profile_name_value body = Ok name) ∨
       (action = u "list" ∧ require_fields body [] [] = Ok tt) ∨
       (∃ id, action ∈ [u "status"; u "rediscover"; u "close"] ∧ session = Some id ∧
              require_fields body [u "session_id"] [] = Ok tt ∧ session_id_value body = Ok id))
  | OpExec session command timeout =>
      kind = u "session.exec" ∧
      ∃ c q, command = VStr c ∧ exec_payload body = Ok (session, q) ∧ exec_arguments q = Ok (c, number_of timeout)
  | OpTerminal action session parameters => kind = u "session.terminal" ∧ session_meaning action session parameters body
  | OpFiles action session parameters => kind = u "session.files" ∧ session_meaning action session parameters body
  | OpFileEdit action session parameters => kind = u "session.file_edit" ∧ session_meaning action session parameters body
  | OpElevation action session command timeout =>
      kind = u "session.elevation" ∧ session_id_value body = Ok session ∧ vget body (u "action") = VStr action ∧
      (∀ f, BrokerServer.elevation_fields action = Ok f →
            require_fields body (f.1 ++ [u "action"; u "session_id"]) f.2 = Ok tt) ∧
      (action = u "exec" → ∃ c, command = VStr c ∧
         exec_arguments (ddel (ddel body (u "session_id")) (u "action")) = Ok (c, number_of timeout))
  end.
End meaning.

Section asking.
Context {U : UnicodeDB} {L : Type} {logger : option (Recorder (io L app_call app_reply))}.
Abbreviation IO := (io L app_call app_reply).
(** The log is elsewhere: it asks the broker nothing. *)
Definition same_calls (s s' : IO) : Prop := trace s' = trace s ∧ script s' = script s.
Definition elsewhere : Prop :=
  match logger with
  | Some l => (∀ e s, same_calls s (rc_record e s).2) ∧ ∀ s, same_calls s (rc_clock s).2
  | None => True
  end.
(** A request that was sent is [Answered] also by an error, and after a
    connection that could not be made ([Failed]) there is no other. *)
Inductive app_phase : Type := Unconnected | Failed | Connected | Answered | Closed.
Variable o : operation.
Definition allowed (ph : app_phase) (c : app_call) : Prop :=
  match ph, c with
  | Unconnected, AConnect | (Connected | Answered), AClose => True
  | Connected, ARequest kind payload => means o kind payload
  | _, _ => False
  end.
Definition after (_ : app_phase) (c : app_call) (a : res app_reply) : app_phase :=
  match c, a with
  | AConnect, Ok _ => Connected
  | AConnect, Err _ => Failed
  | ARequest _ _, _ => Answered
  | AClose, _ => Closed
  end.
Context (tr : list app_call) (scr : list (res app_reply)) (Hlog : elsewhere).
Abbreviation at_ := (at_phase (State := L) allowed after tr scr Unconnected).
Abbreviation stuck := (obeyed (State := L) allowed after tr scr Unconnected).
Definition ended (s : IO) : Prop := at_ Unconnected s ∨ at_ Failed s ∨ at_ Closed s.
Lemma same_at ph s s' : same_calls s s' → at_ ph s → at_ ph s'.
Proof. intros [Ht Hs]. unfold at_phase. by rewrite Ht, Hs. Qed.
Lemma same_ended s s' : same_calls s s' → ended s → ended s'.
Proof. intros Hs [H|[H|H]]; [left|right; left|right; right]; by eapply same_at. Qed.
(** Recording and reading the clock keep where the calls are. *)
Definition local (P : IO → Prop) : Prop := (∀ s s', same_calls s s' → P s → P s') ∧ ∀ s, P s → ended s.
Lemma local_at ph : (ph = Unconnected ∨ ph = Closed) → local (at_ ph).
Proof. intros Hph. split; [intros s s'; apply same_at|]. intros s Hs. destruct Hph as [-> | ->]; [by left|by right; right]. Qed.
Lemma local_ended : local ended.
Proof. split; [exact same_ended|done]. Qed.
Lemma ended_stuck s : ended s → stuck s.
Proof. intros [H|[H|H]]; by eapply at_phase_obeyed. Qed.
Lemma triple_aside {A} P (m : M IO A) :
  local P → (∀ s, same_calls s (m s).2) → triple stuck P m (fun _ => P) (fun _ => ended).
Proof.
  intros [HP He] Hm s Hs. specialize (Hm s). destruct (m s) as [[a|err|] s']; cbn in Hm;
    [by eapply HP|by eapply He, HP|by eapply ended_stuck, He, HP].
Qed.
Lemma triple_safe_record P l e :
  local P → (∀ e s, same_calls s (rc_record e s).2) → triple stuck P (safe_record l e) (fun _ => P) (fun _ => ended).
Proof.
  intros HP Hr. apply triple_aside; [exact HP|]. intros s. unfold safe_record, try_except. specialize (Hr e s).
  destruct (rc_record e s) as [[w|err|] s']; cbn in Hr |- *; try exact Hr.
  destruct (is_exception err); [|exact Hr]. unfold lift. by destruct (unlogged (command e)).
Qed.
(** The log follows the operation. *)
Lemma triple_audited_call tool action (m : M IO (dict value)) profile session command :
  triple stuck (at_ Unconnected) m (fun _ => at_ Closed) (fun _ => ended) →
  triple stuck (at_ Unconnected) (call (logger := logger) tool action m profile session command)
    (fun _ => at_ Closed) (fun _ => ended).
Proof.
  intros Hm. unfold call. unfold elsewhere in Hlog. destruct logger as [l|]; [|exact Hm]. destruct Hlog as [Hr Hc].
  eapply (triple_bind _ _ _ _ (fun _ => at_ Unconnected)); [apply triple_aside; [apply local_at; by left|exact Hc]|]. intros started.
  eapply (triple_bind _ _ _ _ (fun _ => at_ Closed)).
  - apply (triple_try _ _ _ _ _ (fun _ => ended)); [exact Hm|]. intros e.
    destruct (is_exception e); [|by apply triple_raise].
    eapply (triple_bind _ _ _ _ (fun _ => ended)); [apply triple_aside; [apply local_ended|exact Hc]|]. intros now.
    eapply (triple_bind _ _ _ _ (fun _ => ended)); [by apply triple_safe_record; [apply local_ended|]|]. intros w. by apply triple_raise.
  - intros d. eapply (triple_bind _ _ _ _ (fun _ => at_ Closed)); [apply triple_aside; [apply local_at; by right|exact Hc]|]. intros now.
    eapply (triple_bind _ _ _ _ (fun _ => at_ Closed)); [apply triple_safe_record; [apply local_at; by right|exact Hr]|].
    intros w. by apply triple_ret.
Qed.
Lemma triple_ask_broker kind payload :
  means o kind payload →
  triple stuck (at_ Unconnected) (ask_broker kind payload) (fun _ => at_ Closed) (fun _ => ended).
Proof.
  intros Hm. unfold ask_broker. cbn [bp_connect bp_request bp_close recorded_broker].
  assert (∀ ph, (ph = Connected ∨ ph = Answered) → triple stuck (at_ ph) (ask AClose;; mret tt) (fun _ => at_ Closed) (fun _ => at_ Closed)) as Hclose.
  { intros ph Hph. eapply (triple_bind _ _ _ _ (fun _ => at_ Closed)); [|intros u; by apply triple_ret].
    apply triple_monitored; [by destruct Hph as [-> | ->]|done|done]. }
  eapply (triple_bind _ _ _ _ (fun _ => at_ Connected)).
  { eapply (triple_bind _ _ _ _ (fun _ => at_ Connected)); [|intros u; by apply triple_ret].
    apply triple_monitored; [done|done|]. intros e s Hs. right. by left. }
  intros u1. eapply triple_conseq; [|done|exact (fun _ s Hs => Hs)|exact (fun _ s Hs => or_intror (or_intror Hs))|done].
  apply (triple_cleanup _ _ _ _ (fun _ => at_ Answered) _ (fun _ => at_ Answered)).
  - eapply (triple_bind _ _ _ _ (fun _ => at_ Answered)); [by apply triple_monitored|].
    intros [|d]; [intros s Hs; by eapply at_phase_obeyed|by apply triple_ret].
  - intros d. apply Hclose. by right.
  - intros e. apply Hclose. by right.
Qed.
Lemma triple_broker_request kind payload :
  means o kind payload →
  triple stuck (at_ Unconnected) (broker_request (logger := logger) kind payload) (fun _ => at_ Closed) (fun _ => ended).
Proof.
  intros Hm. unfold broker_request. apply triple_lift_at; [|intros e s Hs; by left]. intros op _.
  by apply triple_audited_call, triple_ask_broker.
Qed.
End asking.

(** ** Each request means what was asked *)
Section meanings.
Context {U : UnicodeDB}.
Lemma command_text_Ok v message c : command_text v message = Ok c → v = VStr c.
Proof. unfold command_text. destruct v as [| | | |[|x s]| | |]; try discriminate. intros H. by apply then_Ok in H as [_ [= <-]]. Qed.
Lemma timeout_field_Ok v limit :
  timeout_field v = Ok limit →
  (v = VNone ∧ limit = []) ∨
  ∃ q, number_of v = Some q ∧ limit = [(u "timeout", VFloat (Finite q))] ∧ qle (frac 1 10) q && qle q (qz 3600) = true.
Proof.
  unfold timeout_field.
  destruct v as [|b|n|[q|sg|]|s|l|d|x]; try discriminate; [intros [= <-]; by left| |];
    intros H; apply then_Ok in H as [Hr [= <-]]; right; eexists; (split; [reflexivity|split; [done|]]);
    apply raise_if_Ok in Hr; by apply negb_false_iff in Hr.
Qed.
(** The command and the timeout, after the session or the action was taken off *)
Lemma exec_arguments_read c v limit :
  timeout_field v = Ok limit → exec_arguments ((u "command", VStr c) :: limit) = Ok (c, number_of v).
Proof.
  intros [[-> ->]|(q & Hv & -> & Hq)]%timeout_field_Ok; [reflexivity|]. rewrite Hv. unfold exec_arguments.
  unfold fields. change (fields_match _ _ _) with true.
  change (vget _ (u "timeout")) with (VFloat (Finite q)). change (getitem _ (u "command")) with (Ok (E := exn) (VStr c)).
  unfold number_between. cbn [negb raise_if is_number is_float is_plain_int orb mbind result_mbind result_bind].
  change (float_of _) with (Ok (E := exn) (Finite q)). cbn [mbind result_mbind result_bind]. by rewrite Hq.
Qed.
Lemma session_head session rest :
  validate_session_id session = Ok tt → session_id_value ((u "session_id", VStr session) :: rest) = Ok session.
Proof.
  intros Hs. unfold session_id_value. change (getitem _ _) with (Ok (E := exn) (VStr session)).
  cbn [mbind result_mbind result_bind]. by rewrite Hs.
Qed.
Lemma means_exec session command timeout c limit :
  command_text command (u "command must be non-empty text without NUL") = Ok c →
  validate_session_id session = Ok tt → timeout_field timeout = Ok limit →
  means (OpExec session command timeout) (u "session.exec")
    (Some ([(u "session_id", VStr session); (u "command", VStr c)] ++ limit)).
Proof.
  intros Hc Hs Ht. split; [done|]. exists c, ((u "command", VStr c) :: limit). cbn [default from_option id].
  split; [by eapply command_text_Ok|]. split; [|by apply exec_arguments_read].
  apply timeout_field_Ok in Ht as [[-> ->]|(q & Hv & -> & Hq)]; unfold exec_payload, require_fields;
    (change (fields_match _ _ _) with true); cbn [negb raise_if app mbind result_mbind result_bind];
    (rewrite session_head by exact Hs); reflexivity.
Qed.
Lemma means_elevation action session command timeout payload limit c :
  validate_session_id session = Ok tt →
  (action = u "exec" ∧ command_text command (u "command is required for elevation exec") = Ok c ∧
   timeout_field timeout = Ok limit ∧ payload = [(u "command", VStr c)] ++ limit) ∨ (action ≠ u "exec" ∧ payload = []) →
  means (OpElevation action session command timeout) (u "session.elevation")
    (Some ([(u "session_id", VStr session); (u "action", VStr action)] ++ payload)).
Proof.
  intros Hs Hcase. cbn [means default from_option id].
  assert (session_id_value ([(u "session_id", VStr session); (u "action", VStr action)] ++ payload) = Ok session) as Hid
    by (by apply (session_head session)).
  split; [done|]. split; [exact Hid|]. split; [done|].
  destruct Hcase as [(-> & Hc & Ht & ->)|[Hne ->]].
  - split; [|intros _; exists c; split; [by eapply command_text_Ok|exact (exec_arguments_read c timeout limit Ht)]].
    intros f Hf. change (BrokerServer.elevation_fields (u "exec")) with (Ok (E := exn) ([u "command"], [u "timeout"])) in Hf.
    apply Ok_inj in Hf as <-. apply timeout_field_Ok in Ht as [[-> ->]|(q & Hv & -> & Hq)]; reflexivity.
  - split; [|done]. intros f. unfold BrokerServer.elevation_fields.
    destruct (dget BrokerServer.elevation_operations action) as [f'|] eqn:E; [|discriminate]. intros [= ->].
    unfold BrokerServer.elevation_operations in E. cbn [dget] in E. repeat case_decide; injection E as <- || discriminate; try reflexivity.
    subst action. by destruct Hne.
Qed.
Lemma present_dkeys parameters k : k ∈ dkeys (present parameters) → k ∈ dkeys parameters.
Proof.
  unfold dkeys, present. induction parameters as [|[k' v] ps IH]; cbn; [done|]. destruct (given v); cbn; set_solver.
Qed.
Lemma present_dwf parameters : dwf parameters → dwf (present parameters).
Proof.
  unfold dwf, present. induction parameters as [|[k' v] ps IH]; cbn; [done|]. intros H. inversion H; subst.
  destruct (given v); cbn; [|auto]. constructor; [|auto]. intros Hk. by apply (present_dkeys ps) in Hk.
Qed.
Lemma means_session action session parameters :
  validate_session_id session = Ok tt → keywords parameters →
  session_meaning action session parameters
    (dmerge [(u "session_id", VStr session); (u "action", VStr action)] (present parameters)).
Proof.
  intros Hs (Hwf & H1 & H2). rewrite dmerge_disjoint.
  - cbn [app]. exists ((u "action", VStr action) :: present parameters). split; [|split; [done|]].
    + unfold session_payload. rewrite session_head by exact Hs. reflexivity.
    + intros k Hk. cbn [dget]. by rewrite decide_False by congruence.
  - by apply present_dwf.
  - intros k Hk%present_dkeys. cbn. rewrite !elem_of_cons, elem_of_nil. intros [-> | [-> | []]]; done.
Qed.
Lemma means_open name :
  validate_profile_name name = Ok tt →
  means (OpConnection (u "open") (Some name) None) (u "session.open") (Some [(u "profile_name", VStr name)]).
Proof.
  intros Hn. split; [reflexivity|]. left. exists name. do 3 (split; [reflexivity|]).
  unfold profile_name_value. cbn [default from_option id]. change (getitem _ _) with (Ok (E := exn) (VStr name)).
  cbn [mbind result_mbind result_bind]. by rewrite Hn.
Qed.
Lemma means_on action id :
  validate_session_id id = Ok tt → action ∈ [u "status"; u "rediscover"; u "close"] →
  means (OpConnection action None (Some id)) (u "session." ++ action) (Some [(u "session_id", VStr id)]).
Proof.
  intros Hs Ha. split; [reflexivity|]. right. right. exists id. split; [done|]. split; [done|]. split; [reflexivity|].
  by apply (session_head id []).
Qed.
End meanings.

(** Checks before the request *)
Section running.
Context {U : UnicodeDB} {L : Type} {logger : option (Recorder (io L app_call app_reply))}.
Variables (o : operation) (tr : list app_call) (scr : list (res app_reply)) (Hlog : elsewhere (logger := logger)).
Abbreviation at_ := (at_phase (State := L) (allowed o) after tr scr Unconnected).
Abbreviation stuck := (obeyed (State := L) (allowed o) after tr scr Unconnected).
Abbreviation once m := (triple (E := exn) (A := dict value) stuck (at_ Unconnected) m (fun _ => at_ Closed) (fun _ => ended (L := L) o tr scr)).
Lemma once_lift {A} (r : res A) (m : A → M (io L app_call app_reply) (dict value)) :
  (∀ a, r = Ok a → once (m a)) → once (lift r ≫= m).
Proof. intros H. apply triple_lift_at; [exact H|]. intros e s Hs. by left. Qed.
Lemma once_raise e : once (raise e).
Proof. apply triple_raise. intros s Hs. by left. Qed.
Lemma once_request kind payload : means o kind payload → once (broker_request (logger := logger) kind payload).
Proof. by apply triple_broker_request. Qed.
End running.
Lemma given_false v : given v = false → v = VNone.
Proof. by destruct v. Qed.
Ltac forbidden H := apply raise_if_Ok in H; first [apply is_some_false in H | apply given_false in H]; subst.
Section running_each.
Context {U : UnicodeDB} {L : Type} {logger : option (Recorder (io L app_call app_reply))}.
Context (tr : list app_call) (scr : list (res app_reply)) (Hlog : elsewhere (logger := logger)).
Abbreviation once o m := (triple (E := exn) (A := dict value) (obeyed (State := L) (allowed o) after tr scr Unconnected)
  (at_phase (State := L) (allowed o) after tr scr Unconnected Unconnected) m
  (fun _ => at_phase (State := L) (allowed o) after tr scr Unconnected Closed) (fun _ => ended (L := L) o tr scr)).
Lemma once_connection action profile session :
  once (OpConnection action profile session) (server_connection (logger := logger) action profile session).
Proof.
  unfold server_connection, str_eqb. case_bool_decide as H1; [|case_bool_decide as H2; [|case_bool_decide as H3]].
  - subst action. apply once_lift. intros [] Hf. forbidden Hf. apply once_lift. intros name Hn.
    destruct profile as [p|]; [|discriminate]. apply then_Ok in Hn as [Hn [= <-]]. apply once_request; [done|]. by apply means_open.
  - subst action. apply once_lift. intros [] Hf. forbidden Hf. apply once_lift. intros [] Hf. forbidden Hf.
    apply once_request; [done|]. split; [reflexivity|]. right. by left.
  - apply once_lift. intros [] Hf. forbidden Hf. apply once_lift. intros id Hid.
    destruct session as [i|]; [|discriminate]. apply then_Ok in Hid as [Hid [= <-]]. apply once_request; [done|]. by apply means_on.
  - apply once_raise.
Qed.
Lemma once_exec session command timeout :
  once (OpExec session command timeout) (server_exec (logger := logger) session command timeout).
Proof.
  unfold server_exec. apply once_lift. intros c Hc. apply once_lift. intros id Hid. apply then_Ok in Hid as [Hid [= <-]].
  apply once_lift. intros limit Ht. apply once_request; [done|]. by eapply means_exec.
Qed.
Lemma once_elevation action session command timeout :
  once (OpElevation action session command timeout) (server_elevation (logger := logger) action session command timeout).
Proof.
  unfold server_elevation, str_eqb. apply once_lift. intros id Hid. apply then_Ok in Hid as [Hid [= <-]].
  case_bool_decide as Ha.
  - apply once_lift. intros c Hc. apply once_lift. intros limit Ht. apply once_request; [done|].
    eapply means_elevation; [done|]. left. by split_and!.
  - apply once_lift. intros [] Hf. forbidden Hf. apply once_lift. intros [] Hf. forbidden Hf.
    apply once_request; [done|]. apply (means_elevation action session VNone VNone [] [] []); auto.
Qed.
Lemma once_session o kind action session parameters :
  (session_meaning action session parameters
     (dmerge [(u "session_id", VStr session); (u "action", VStr action)] (present parameters)) →
   means o kind (Some (dmerge [(u "session_id", VStr session); (u "action", VStr action)] (present parameters)))) →
  keywords parameters → once o (session_request (logger := logger) kind action session parameters).
Proof.
  intros Hm Hk. unfold session_request. apply once_lift. intros id Hid. apply then_Ok in Hid as [Hid [= <-]].
  apply once_request; [done|]. by apply Hm, means_session.
Qed.
End running_each.

(** C17: whatever its arguments, an operation asks the broker at most once,
    over the one connection it makes and closes however the request ended, never
    again after a connection or a request that failed, and the log asks the
    broker nothing.  The request is one the broker's checks
    accept, and the broker and the worker read out of it exactly the session,
    the action, the command and the timeout the caller gave. *)
Theorem application_asks_what_was_meant {U : UnicodeDB} {L} (logger : option (Recorder (io L app_call app_reply)))
    (o : operation) (s : io L app_call app_reply) (Hlog : elsewhere (logger := logger)) (Ho : callable o) :
  let at_ := at_phase (State := L) (allowed o) after (trace s) (script s) Unconnected in
  match run (logger := logger) o s with
  | (Ret _, s') => at_ Closed s'
  | (Raise _, s') => at_ Unconnected s' ∨ at_ Failed s' ∨ at_ Closed s'
  | (Hang, s') => obeyed (allowed o) after (trace s) (script s) Unconnected s'
  end.
Proof.
  assert (triple (obeyed (State := L) (allowed o) after (trace s) (script s) Unconnected)
    (at_phase (State := L) (allowed o) after (trace s) (script s) Unconnected Unconnected) (run (logger := logger) o)
    (fun _ => at_phase (State := L) (allowed o) after (trace s) (script s) Unconnected Closed)
    (fun _ => ended (L := L) o (trace s) (script s))) as H.
  { destruct o as [action profile session|session command timeout|action session ps|action session ps|action session ps|action session command timeout];
      cbn [run callable] in *.
    - by apply once_connection.
    - by apply once_exec.
    - by apply once_session.
    - by apply once_session.
    - by apply once_session.
    - by apply once_elevation. }
  specialize (H s (at_phase_start _ _ s _)). by destruct (run o s) as [[d|e|] s'].
Qed.
Lemma application_asks_what_was_meant_witness :
  let o := OpFiles (u "stat") (u "sess-0123456789abcdef") [(u "path", VStr (u "/srv")); (u "max_results", VNone)] in
  let answers := [Ok ADone; Ok (AResult [(u "status", VStr (u "completed"))]); Ok ADone] in
  let s := Io tt answers [] in
  elsewhere (L := unit) (logger := None) ∧ callable o ∧
  match run (U := ascii_db) (logger := None) o s with
  | (Ret d, s') => d = [(u "status", VStr (u "completed"))] ∧
      at_phase (State := unit) (allowed (U := ascii_db) o) after [] answers Unconnected Closed s'
  | _ => False
  end.
Proof.
  cbv zeta. set (o := OpFiles _ _ _). set (answers := [_; _; _]).
  assert (elsewhere (L := unit) (logger := None)) as Hl by exact I.
  assert (callable o) as Ho by (split_and!; apply (bool_decide_unpack _); vm_compute; exact I).
  split; [exact Hl|]. split; [exact Ho|].
  pose proof (application_asks_what_was_meant (U := ascii_db) None o (Io tt answers []) Hl Ho) as H. cbv zeta in H.
  assert ((run (U := ascii_db) (logger := None) o (Io tt answers [])).1 = Ret [(u "status", VStr (u "completed"))]) as E
    by (vm_compute; reflexivity).
  destruct (run o (Io tt answers [])) as [[d|e|] s']; [|discriminate..]. injection E as ->. split; [reflexivity|exact H].
Defined.

(** Every request has a tool to be recorded under. *)
Lemma request_is_audited {U : UnicodeDB} o kind payload : means o kind payload → ∃ op, audit_operation kind (default [] payload) = Ok op.
Proof.
  intros Hm. unfold audit_operation.
  assert (is_some (dget audit_tools kind) = true) as H.
  { destruct o; cbn [means] in Hm; destruct Hm as [-> Hm]; try reflexivity.
    destruct Hm as [(name & -> & _)|[(-> & _)|(id & Ha & _)]]; [reflexivity..|].
    rewrite !elem_of_cons, elem_of_nil in Ha. destruct Ha as [-> |[-> |[-> |[]]]]; reflexivity. }
  destruct (dget audit_tools kind); [by eexists|discriminate].
Qed.
