(* ===== verification/SetupModel.v ===== *)
(** * SetupModel: requests to the local setup window (setup/model.py)

    A request and the record of how far it got, with the checks of their
    constructors, their JSON documents, and the result a tool is given. *)
From S2P Require Import Prelude Errors Text TextFacts Regex Value Json ConfigModel.

Definition SETUP_REQUEST_ID : re :=
  RSeqs [RBol; RLit (u "setup-"); RRepeat 24 (RChar (cls [(48, 57); (97, 102)])); REol].
Definition SETUP_REQUEST_LIFETIME_SECONDS : Z := 30 * 60.
Definition SECRET_RESULT_FIELDS : list str :=
  [u "password"; u "sudo_password"; u "key_passphrase"; u "passphrase"; u "private_key_content"].

Inductive SetupAction : Type := ADD | EDIT | REMOVE | TEST.
Inductive SetupStatus : Type :=
  | PENDING | RUNNING | CREATED | UPDATED | REMOVED | TESTED | CANCELLED | FAILED | EXPIRED.
#[export] Instance SetupAction_eq_dec : EqDecision SetupAction.
Proof. solve_decision. Defined.
#[export] Instance SetupStatus_eq_dec : EqDecision SetupStatus.
Proof. solve_decision. Defined.
Definition action_value (a : SetupAction) : str :=
  match a with ADD => u "add" | EDIT => u "edit" | REMOVE => u "remove" | TEST => u "test" end.
Definition status_value (s : SetupStatus) : str :=
  match s with
  | PENDING => u "user_interaction_required" | RUNNING => u "running" | CREATED => u "created" | UPDATED => u "updated"
  | REMOVED => u "removed" | TESTED => u "tested" | CANCELLED => u "cancelled" | FAILED => u "failed" | EXPIRED => u "expired"
  end.
Definition terminal (s : SetupStatus) : bool := match s with PENDING | RUNNING => false | _ => true end.
Definition all_statuses : list SetupStatus :=
  [PENDING; RUNNING; CREATED; UPDATED; REMOVED; TESTED; CANCELLED; FAILED; EXPIRED].
(** [SetupAction(text)] and [SetupStatus(text)] *)
Definition setup_action {U : UnicodeDB} (text : str) : res SetupAction :=
  match List.find (fun a => str_eqb (action_value a) text) [ADD; EDIT; REMOVE; TEST] with
  | Some a => Ok a
  | None => Err (value_error (py_repr text ++ u " is not a valid SetupAction"))
  end.
Definition setup_status {U : UnicodeDB} (text : str) : res SetupStatus :=
  match List.find (fun s => str_eqb (status_value s) text) all_statuses with
  | Some s => Ok s
  | None => Err (value_error (py_repr text ++ u " is not a valid SetupStatus"))
  end.

Record SetupRequest := Request {
  request_id : str; action : SetupAction; created_at : pyfloat; expires_at : pyfloat;
  profile_name : option str; suggested_host : option str; suggested_user : option str }.
Record SetupRecord := Setup {
  request : SetupRequest; status : SetupStatus; updated_at : pyfloat;
  result : option (dict value); message : option str }.
(** [a < b] on floats *)
Definition flt (a b : pyfloat) : bool :=
  match a, b with NaN, _ | _, NaN => false | _, _ => negb (fle b a) end.

Section model.
Context {U : UnicodeDB}.
(** [f"setup-{secrets.token_hex(12)}"] *)
Definition new_setup_request_id (token_hex : str) : str := u "setup-" ++ token_hex.
Definition validate_setup_request_id (id : str) : res unit :=
  raise_if (negb (fullmatch SETUP_REQUEST_ID id)) (value_error (u "request_id has an invalid format")).
Definition optional_suggestion (v : option str) (field_name : str) : res unit :=
  match v with
  | None => Ok tt
  | Some t =>
      raise_if (str_eqb t [] || negb (str_eqb t (strip t)) || (255 <? len t) || bool_decide (0 ∈ t))
        (value_error (field_name ++ u " must be trimmed text with at most 255 characters"));;
      raise_if (has_control t) (value_error (field_name ++ u " contains a control character"))
  end.
Definition setup_request (r : SetupRequest) : res SetupRequest :=
  validate_setup_request_id (request_id r);;
  raise_if (fle (expires_at r) (created_at r)) (value_error (u "setup request expiry must follow creation"));;
  (match profile_name r with Some name => validate_profile_name name | None => Ok tt end);;
  optional_suggestion (suggested_host r) (u "suggested_host");;
  optional_suggestion (suggested_user r) (u "suggested_user");;
  raise_if (negb (bool_decide (action r = ADD)) && is_None (profile_name r))
    (value_error (u "profile_name is required for " ++ action_value (action r)));;
  raise_if (negb (bool_decide (action r = ADD)) && (is_some (suggested_host r) || is_some (suggested_user r)))
    (value_error (u "suggestions are valid only when adding a profile"));;
  Ok r.
(** [SetupRequest.create]: the clock and the fresh identifier are arguments *)
Definition create_request (token_hex : str) (now : Q) (a : SetupAction) (name host user : option str) : res SetupRequest :=
  setup_request (Request (new_setup_request_id token_hex) a (Finite now)
                   (Finite (qadd now (qz SETUP_REQUEST_LIFETIME_SECONDS))) name host user).

(** [value.lower()] of a key *)
Definition key_lower (s : str) : str := concat (map uc_lower s).
Fixpoint ensure_non_secret_result (v : value) : res unit :=
  match v with
  | VDict d =>
      (fix go d : res unit :=
         match d with
         | [] => Ok tt
         | (key, item) :: d =>
             raise_if (bool_decide (key_lower key ∈ SECRET_RESULT_FIELDS))
               (value_error (u "setup result contains forbidden field: " ++ key));;
             ensure_non_secret_result item;; go d
         end) d
  | VList l =>
      (fix go l : res unit :=
         match l with [] => Ok tt | item :: l => ensure_non_secret_result item;; go l end) l
  | VOther _ => Err (value_error (u "setup result contains an unsupported value"))
  | _ => Ok tt
  end.
Definition setup_record (r : SetupRecord) : res SetupRecord :=
  raise_if (flt (updated_at r) (created_at (request r))) (value_error (u "setup status predates its request"));;
  (match result r with Some d => ensure_non_secret_result (VDict d) | None => Ok tt end);;
  optional_suggestion (message r) (u "message");;
  Ok r.

(** ** Documents *)
Definition request_dict (r : SetupRequest) : dict value :=
  [(u "request_id", VStr (request_id r)); (u "action", VStr (action_value (action r)));
   (u "created_at", VFloat (created_at r)); (u "expires_at", VFloat (expires_at r));
   (u "profile_name", opt_str (profile_name r)); (u "suggested_host", opt_str (suggested_host r));
   (u "suggested_user", opt_str (suggested_user r))].
Definition REQUEST_FIELDS : list str :=
  [u "request_id"; u "action"; u "created_at"; u "expires_at"; u "profile_name"; u "suggested_host"; u "suggested_user"].
(** [isinstance(v, int | float)], which a truth value passes *)
Definition is_time (v : value) : bool := is_int v || is_float v.
Definition opt_text (v : value) : res (option str) :=
  match v with
  | VNone => Ok None
  | VStr s => Ok (Some s)
  | _ => Err (value_error (u "setup request suggestions are invalid"))
  end.
Definition request_of (raw : dict value) : res SetupRequest :=
  raise_if (negb (same_set (dkeys raw) REQUEST_FIELDS)) (value_error (u "setup request fields are invalid"));;
  match vget raw (u "request_id"), vget raw (u "action") with
  | VStr id, VStr a =>
      let created := vget raw (u "created_at") in
      let expires := vget raw (u "expires_at") in
      raise_if (negb (is_time created) || negb (is_time expires)) (value_error (u "setup request timestamps are invalid"));;
      name ← opt_text (vget raw (u "profile_name"));
      host ← opt_text (vget raw (u "suggested_host"));
      user ← opt_text (vget raw (u "suggested_user"));
      act ← setup_action a;
      c ← float_of created;
      x ← float_of expires;
      setup_request (Request id act c x name host user)
  | _, _ => Err (value_error (u "setup request identifiers are invalid"))
  end.
Definition record_dict (r : SetupRecord) : dict value :=
  [(u "request", VDict (request_dict (request r))); (u "status", VStr (status_value (status r)));
   (u "updated_at", VFloat (updated_at r));
   (u "result", match result r with Some d => VDict d | None => VNone end); (u "message", opt_str (message r))].
Definition RECORD_FIELDS : list str := [u "request"; u "status"; u "updated_at"; u "result"; u "message"].
Definition record_of (raw : dict value) : res SetupRecord :=
  raise_if (negb (same_set (dkeys raw) RECORD_FIELDS)) (value_error (u "setup record fields are invalid"));;
  match vget raw (u "request"), vget raw (u "status") with
  | VDict req, VStr st =>
      let updated := vget raw (u "updated_at") in
      raise_if (negb (is_time updated)) (value_error (u "setup record timestamp is invalid"));;
      res ← (match vget raw (u "result") with
             | VNone => Ok None | VDict d => Ok (Some d)
             | _ => Err (value_error (u "setup result must be an object")) end);
      msg ← (match vget raw (u "message") with
             | VNone => Ok None | VStr m => Ok (Some m)
             | _ => Err (value_error (u "setup message must be text")) end);
      r ← request_of req;
      s ← setup_status st;
      t ← float_of updated;
      setup_record (Setup r s t res msg)
  | _, _ => Err (value_error (u "setup record request or status is invalid"))
  end.
(** What a tool is told *)
Definition public_result (r : SetupRecord) : dict value :=
  let base := [(u "status", VStr (status_value (status r))); (u "request_id", VStr (request_id (request r)));
               (u "action", VStr (action_value (action (request r))))]
              ++ (match profile_name (request r) with Some name => [(u "profile_name", VStr name)] | None => [] end) in
  let all := match result r with Some d => dmerge base d | None => base end in
  match message r with Some m => dset all (u "message") (VStr m) | None => all end.
End model.

(** ** Round trips *)
Section roundtrip.
Context {U : UnicodeDB}.
Lemma setup_action_value a : setup_action (action_value a) = Ok a.
Proof. by destruct a. Qed.
Lemma setup_status_value s : setup_status (status_value s) = Ok s.
Proof. by destruct s. Qed.
Lemma opt_text_str o : opt_text (opt_str o) = Ok o.
Proof. by destruct o. Qed.
Lemma float_of_float f : float_of (VFloat f) = Ok f.
Proof. done. Qed.
Lemma setup_request_same r r' : setup_request r = Ok r' → r' = r.
Proof. unfold setup_request. intros H. inv_ok H. by injection H. Qed.
Lemma setup_record_same r r' : setup_record r = Ok r' → r' = r.
Proof. unfold setup_record. intros H. inv_ok H. by injection H. Qed.
Lemma request_roundtrip r : setup_request r = Ok r → request_of (request_dict r) = Ok r.
Proof.
  intros Hr. unfold request_of. change (same_set (dkeys (request_dict r)) REQUEST_FIELDS) with true.
  change (vget (request_dict r) (u "request_id")) with (VStr (request_id r)).
  change (vget (request_dict r) (u "action")) with (VStr (action_value (action r))).
  change (vget (request_dict r) (u "profile_name")) with (opt_str (profile_name r)).
  change (vget (request_dict r) (u "suggested_host")) with (opt_str (suggested_host r)).
  change (vget (request_dict r) (u "suggested_user")) with (opt_str (suggested_user r)).
  cbn [negb raise_if mbind result_mbind result_bind]. change (negb (is_time _) || negb (is_time _)) with false.
  cbn [raise_if mbind result_mbind result_bind]. rewrite !opt_text_str. cbn [mbind result_mbind result_bind].
  rewrite setup_action_value. cbn [mbind result_mbind result_bind].
  change (float_of (vget (request_dict r) (u "created_at"))) with (Ok (E := exn) (created_at r)).
  change (float_of (vget (request_dict r) (u "expires_at"))) with (Ok (E := exn) (expires_at r)).
  cbn [mbind result_mbind result_bind]. by destruct r.
Qed.
Lemma record_roundtrip r :
  setup_request (request r) = Ok (request r) → setup_record r = Ok r → record_of (record_dict r) = Ok r.
Proof.
  intros Hq Hr. unfold record_of. change (same_set (dkeys (record_dict r)) RECORD_FIELDS) with true.
  change (vget (record_dict r) (u "request")) with (VDict (request_dict (request r))).
  change (vget (record_dict r) (u "status")) with (VStr (status_value (status r))).
  change (vget (record_dict r) (u "result")) with (match result r with Some d => VDict d | None => VNone end).
  change (vget (record_dict r) (u "message")) with (opt_str (message r)).
  cbn [negb raise_if mbind result_mbind result_bind]. change (is_time _) with true. cbn [negb raise_if mbind result_mbind result_bind].
  assert (∀ o : option (dict value), (match (match o with Some d => VDict d | None => VNone end) with
     | VNone => Ok None | VDict d => Ok (Some d) | _ => Err (value_error (u "setup result must be an object")) end : res _) = Ok o) as Hres by (by intros [d|]).
  assert (∀ o, (match opt_str o with VNone => Ok None | VStr m => Ok (Some m)
     | _ => Err (value_error (u "setup message must be text")) end : res _) = Ok o) as Hmsg by (by intros [m|]).
  rewrite Hres, Hmsg. cbn [mbind result_mbind result_bind]. rewrite request_roundtrip by exact Hq. cbn [mbind result_mbind result_bind].
  rewrite setup_status_value. cbn [mbind result_mbind result_bind].
  change (float_of (vget (record_dict r) (u "updated_at"))) with (Ok (E := exn) (updated_at r)).
  cbn [mbind result_mbind result_bind]. by destruct r.
Qed.
(** A record that was read is valid. *)
Lemma request_of_valid raw r : request_of raw = Ok r → setup_request r = Ok r.
Proof.
  unfold request_of. intros H. apply result_bind_Ok in H as (? & _ & H).
  destruct (vget raw (u "request_id")); try discriminate. destruct (vget raw (u "action")); try discriminate.
  inv_ok H. pose proof (setup_request_same _ _ H) as Hr. rewrite <- Hr in H. exact H.
Qed.
Lemma record_of_valid raw r : record_of raw = Ok r → setup_request (request r) = Ok (request r) ∧ setup_record r = Ok r.
Proof.
  unfold record_of. intros H. apply result_bind_Ok in H as (? & _ & H).
  destruct (vget raw (u "request")); try discriminate. destruct (vget raw (u "status")); try discriminate.
  inv_ok H. match goal with Hq : request_of _ = Ok _ |- _ => apply request_of_valid in Hq end.
  pose proof (setup_record_same _ _ H) as Hr. rewrite <- Hr in H. split; [by subst r|exact H].
Qed.

(** No key at any depth of a result names a secret. *)
Inductive no_secret : value → Prop :=
  | no_secret_dict d : Forall (fun kv => key_lower kv.1 ∉ SECRET_RESULT_FIELDS) d → Forall (fun kv => no_secret kv.2) d → no_secret (VDict d)
  | no_secret_list l : Forall no_secret l → no_secret (VList l)
  | no_secret_scalar v : match v with VNone | VBool _ | VInt _ | VFloat _ | VStr _ => True | _ => False end → no_secret v.
Lemma ensured_no_secret v : ensure_non_secret_result v = Ok tt → no_secret v.
Proof.
  induction v as [|b|n|f|s|l IH|d IH|t] using value_ind'; intros H; try (by apply no_secret_scalar).
  - apply no_secret_list. induction IH as [|v l Hv Hl IH]; [constructor|]. apply then_Ok in H as [H1 H2].
    constructor; [by apply Hv|by apply IH].
  - assert (Forall (fun kv => key_lower kv.1 ∉ SECRET_RESULT_FIELDS ∧ no_secret kv.2) d) as Hd.
    { induction IH as [|[k v] d Hv Hd IH]; [constructor|]. apply then_Ok in H as [H1 H]. apply then_Ok in H as [H2 H3].
      apply raise_if_Ok, bool_decide_eq_false in H1. constructor; [split; [exact H1|by apply Hv]|by apply IH]. }
    apply no_secret_dict; (eapply Forall_impl; [exact Hd|]); by intros kv [? ?].
Qed.
(** What a tool is told of a setup names no secret, unless the request did. *)
Lemma record_no_secret r d : setup_record r = Ok r → result r = Some d → no_secret (VDict d).
Proof.
  unfold setup_record. intros H Hd. rewrite Hd in H. apply then_Ok in H as [_ H]. apply then_Ok in H as [H _].
  by apply ensured_no_secret.
Qed.
End roundtrip.
