(* ===== verification/Runtime.v ===== *)
(** * Runtime: the status files of the processes (runtime.py)

    Documents are written through a temporary file and read back with their
    checks; a starting broker removes the records of workers that are gone.
    The disk is that of [Repository]. *)
From S2P Require Import Prelude Errors Text TextFacts Regex Prog Json ConfigModel Ipc Repository Value.

Definition MAX_RUNTIME_JSON_BYTES : Z := 65536.
Record StaleRuntimeCleanup := Cleanup {
  broker_status_removed : bool; dead_worker_statuses_removed : list str;
  live_worker_statuses_preserved : list str; unreadable_worker_statuses_preserved : list str }.

(** The directories of a runtime path, and the files in them *)
Definition workers_path (root : str) : str := root ++ u "\workers".
Definition broker_status_path (root : str) : path := (root, u "broker.json").
Definition worker_status_path {U : UnicodeDB} (root id : str) : res path :=
  validate_session_id id;; Ok (workers_path root, id ++ u ".json").
(** [path.glob("sess-*.json")] matches names without regard to case on Windows;
    the program writes lower-case names only. *)
Definition is_worker_file (name : str) : bool :=
  starts_with (u "sess-") name && ends_with (u ".json") name && (10 <=? len name).

Section documents.
Context {U : UnicodeDB} {F : FloatIO}.
Definition document_content (document : dict value) : res bytes :=
  t ← json_dumps (VDict document);
  content ← utf8_encode t;
  raise_if (MAX_RUNTIME_JSON_BYTES <? len content) (value_error (u "runtime status exceeds its size limit"));;
  Ok content.
Definition reject_duplicate_keys (pairs : list (str * value)) : res value :=
  VDict <$> unique_pairs (fun k => value_error (u "duplicate runtime status field: " ++ k)) pairs [].
Definition document_of (content : bytes) : res (dict value) :=
  raise_if ((len content =? 0) || (MAX_RUNTIME_JSON_BYTES <? len content)) (value_error (u "runtime status has an invalid size"));;
  match utf8_decode content with
  | UBad _ _ => Err (Builtin UnicodeDecodeError (u "invalid utf-8"))
  | UText t =>
      match json_loads reject_duplicate_keys t with
      | Ok (VDict d) => Ok d
      | Ok _ => Err (value_error (u "runtime status must be an object"))
      | Err JsonDecodeError => Err (value_error (u "invalid JSON"))
      | Err (JsonRaised e) => Err e
      end
  end.
(** What survives the round trip *)
Lemma reject_duplicates_same d : dwf d → reject_duplicate_keys d = Ok (VDict d).
Proof. intros H. unfold reject_duplicate_keys. by rewrite unique_pairs_ok. Qed.
Lemma document_roundtrip d content :
  json_ok (VDict d) → document_content d = Ok content → document_of content = Ok d.
Proof.
  intros Hd H. unfold document_content in H. inv_ok H. apply raise_if_Ok in Ha1. apply Ok_inj in H as <-.
  unfold document_of. assert (len a0 =? 0 = false) as ->.
  { apply result_bind_Ok in Ha as (ts & _ & Ha). apply Ok_inj in Ha as <-. unfold utf8_encode in Ha0.
    destruct (existsb surrogate _); [discriminate|]. apply Ok_inj in Ha0 as <-. done. }
  rewrite Ha1. cbn [orb raise_if mbind result_mbind result_bind].
  rewrite (encode_text a a0 Ha0 (json_dumps_chars _ Hd _ Ha)).
  by rewrite (json_loads_dumps _ reject_duplicates_same _ _ Hd Ha).
Qed.
End documents.

(** ** The directory *)
Section directory.
Context {U : UnicodeDB} {F : FloatIO}.
Variable root : str.
(** The file with the naming of its temporaries *)
Definition place (p : path) : TomlProfileRepository := Repository p.1 p.2 (qz 0) true.
Definition prepare : M disk_io unit :=
  call (MakeDirectory root);; call (SecurePath root None);;
  call (MakeDirectory (workers_path root));; call (SecurePath (workers_path root) None).
Definition write_json (p : path) (document : dict value) : M disk_io unit :=
  content ← lift (document_content document);
  hex ← fresh_name;
  let temporary := temporary_path (place p) hex in
  open_exclusive temporary;;
  try_finally
    (write_content temporary content;;
     call (SecurePath p.1 (Some temporary.2));;
     replace_file temporary p;;
     call (SecurePath p.1 (Some p.2)))
    (unlink temporary).
Definition read_json (p : path) : M disk_io (dict value) :=
  content ← read_bytes p; lift (document_of content).

Definition worker_pid (document : dict value) : res Z :=
  v ← getitem document (u "pid");
  match v with
  | VInt pid => raise_if (pid <? 1) (value_error (u "worker status has an invalid PID"));; Ok pid
  | _ => Err (value_error (u "worker status has an invalid PID"))
  end.
Definition is_unreadable (e : exn) : bool :=
  is_os_error e || is_value_error e || (match e with Builtin KeyError _ => true | _ => false end).
Definition worker_files (d : disk) : list str :=
  sort_strs (List.filter is_worker_file (omap (fun p : path => if str_eqb p.1 (workers_path root) then Some p.2 else None)
                                      (map fst (map_to_list (files d))))).
(** The three lists of [clean_stale_statuses] *)
Record sorted_files := Sorted { dead : list str; live : list str; unreadable : list str }.
Fixpoint clean_files (process_is_alive : Z → bool) (names : list str) (f : sorted_files) : M disk_io sorted_files :=
  match names with
  | [] => mret f
  | name :: names =>
      let p := (workers_path root, name) in
      pid ← try_except (document ← read_json p; pid ← lift (worker_pid document); mret (Some pid))
              (fun e => if is_unreadable e then mret None else raise e);
      match pid with
      | None => clean_files process_is_alive names (Sorted (dead f) (live f) (unreadable f ++ [name]))
      | Some pid =>
          if process_is_alive pid then clean_files process_is_alive names (Sorted (dead f) (live f ++ [name]) (unreadable f))
          else unlink p;; clean_files process_is_alive names (Sorted (dead f ++ [name]) (live f) (unreadable f))
      end
  end.
Definition clean_stale_statuses (process_is_alive : Z → bool) : M disk_io StaleRuntimeCleanup :=
  removed ← exists_file (broker_status_path root);
  unlink (broker_status_path root);;
  d ← state;
  f ← clean_files process_is_alive (worker_files d) (Sorted [] [] []);
  mret (Cleanup removed (dead f) (live f) (unreadable f)).
End directory.

(** ** Writing replaces *)
Section writing.
Context {U : UnicodeDB} {F : FloatIO}.
Lemma path_of_place p : path_of (place p) = p.
Proof. by destruct p. Qed.
(** The file holds its old content or the new document, and the document when
    the write returns. *)
Lemma triple_write_json p f b doc content :
  document_content doc = Ok content →
  triple (either (place p) f content b) (holds (place p) f b) (write_json p doc)
    (fun _ => holds (place p) (Some content) b) (fun e s => either (place p) f content b s ∧ is_os_error e = true).
Proof.
  intros Hdoc. set (r := place p).
  assert (∀ A (m : M disk_io A), triple (holds r f b) (holds r f b) m (fun _ => holds r f b) (fun e s => holds r f b s ∧ is_os_error e = true) →
          triple (either r f content b) (holds r f b) m (fun _ => holds r f b) (fun e s => either r f content b s ∧ is_os_error e = true)) as Hold.
  { intros A m Hm. eapply triple_conseq; [exact Hm|done|done| |by left]. intros e s [? ?]. split; [by left|done]. }
  unfold write_json. rewrite Hdoc. eapply (triple_bind _ _ _ _ (fun c s => c = content ∧ holds r f b s)); [by apply triple_ret|].
  intros c. apply triple_pure. intros ->. eapply (triple_bind _ _ _ _ (fun _ => holds r f b)).
  { apply Hold. unfold fresh_name. eapply triple_bind; [apply triple_syscall, safe_holds|].
    intros [| | |]; try (by intros s [Hs _]). }
  intros hex. eapply triple_bind; [apply Hold, triple_open_exclusive|]. intros u1. apply triple_finally.
  - eapply (triple_bind _ _ _ _ (fun _ => staged r f b hex content)).
    { eapply triple_conseq; [apply triple_write_content|done|done| |by left]. intros e s [? ?]. split; [by left|done]. }
    intros u2. eapply (triple_bind _ _ _ _ (fun _ => staged r f b hex content)).
    { eapply triple_conseq; [apply triple_call, (safe_staged r f b hex content)|done|done| |].
      - intros e s [[? _] ?]. split; [by left|done].
      - intros s [? _]. by left. }
    intros u3. eapply (triple_bind _ _ _ _ (fun _ => holds r (Some content) b)).
    { pose proof (triple_replace r f b hex content) as H. rewrite (path_of_place p : path_of r = p) in H. exact H. }
    intros u4. eapply triple_conseq; [apply triple_call, (safe_holds r (Some content) b)|done|done| |by right].
    intros e s [? ?]. split; [by right|done].
  - intros u2. eapply triple_conseq; [apply triple_unlink; [apply (safe_holds r (Some content) b)|intros s; apply holds_drop_temporary]|done|done| |by right].
    intros e s [? ?]. split; [by right|done].
  - intros e s [Hs He]. pose proof (triple_unlink r (either r f content b) hex (safe_either r f content b)) as Hu.
    specialize (Hu ltac:(intros s' [H|H]; [left|right]; by apply holds_drop_temporary) s Hs).
    destruct (unlink _ s) as [[[]|e'|] s']; [by split|done|done].
Qed.
End writing.

(** ** Cleaning removes what is dead *)
Section cleaning.
Context {U : UnicodeDB} {F : FloatIO}.
Variables (root : str) (process_is_alive : Z → bool) (m : gmap path bytes).
(** The record of a worker whose process has this answer *)
Definition worker_record (alive : bool) (name : str) : Prop :=
  ∃ content d pid, m !! (workers_path root, name) = Some content ∧ document_of content = Ok d ∧
    worker_pid d = Ok pid ∧ process_is_alive pid = alive.
(** The files when the records [gone] were removed *)
Definition without (gone : list str) (s : disk_io) : Prop :=
  ∀ q, files (st s) !! q =
       if bool_decide (q = broker_status_path root ∨ (q.1 = workers_path root ∧ q.2 ∈ gone)) then None else m !! q.
Definition cut_short (s : disk_io) : Prop := ∃ gone, Forall (worker_record false) gone ∧ without gone s.
Lemma triple_read gone name :
  Forall (worker_record false) gone → name ∉ gone →
  triple cut_short (without gone)
    (try_except (document ← read_json (workers_path root, name); pid ← lift (worker_pid document); mret (Some pid))
       (fun e => if is_unreadable e then mret None else raise e))
    (fun o s => without gone s ∧ match o with Some pid => ∀ b, process_is_alive pid = b → worker_record b name | None => True end)
    (fun _ => cut_short).
Proof.
  intros Hgone Hname. assert (∀ s, without gone s → cut_short s) as Hcut by (intros s Hs; by exists gone).
  apply (triple_try _ _ _ _ _ (fun _ => without gone)).
  - unfold read_json, read_bytes.
    eapply (triple_bind _ _ _ _ (fun d s => without gone s ∧ ∃ content, m !! (workers_path root, name) = Some content ∧ document_of content = Ok d)).
    + eapply (triple_bind _ _ _ _ (fun content s => without gone s ∧ m !! (workers_path root, name) = Some content)).
      * unfold call. eapply (triple_bind _ _ _ _ (fun _ => without gone)).
        { eapply (triple_bind _ _ _ _ (fun _ => without gone)); [|intros r; by apply triple_ret].
          eapply triple_conseq; [apply (triple_ask (without gone) _ (fun _ => without gone)); [intros s r Hs; exact Hs|done]|done|done|done|exact Hcut]. }
        intros u1. apply triple_state. intros d. destruct (files d !! (workers_path root, name)) as [content|] eqn:E;
          [|apply triple_raise; by intros s [Hs _]]. apply triple_ret. intros s [Hs <-]. split; [exact Hs|].
        specialize (Hs (workers_path root, name)). rewrite E in Hs. case_bool_decide as H; [discriminate|done].
      * intros content. apply triple_lift; [|by intros e s _ [Hs _]]. intros d s Hd [Hs Hm]. split; [exact Hs|]. by exists content.
    + intros d. apply triple_lift_at; [|by intros e s [Hs _]]. intros pid Hpid. apply triple_ret.
      intros s [Hs (content & Hm & Hd)]. split; [exact Hs|]. intros b Hb. by exists content, d, pid.
  - intros e. destruct (is_unreadable e); [by apply triple_ret|apply triple_raise; exact Hcut].
Qed.
Lemma triple_remove gone name :
  Forall (worker_record false) gone → worker_record false name →
  triple cut_short (without gone) (unlink (workers_path root, name)) (fun _ => without (gone ++ [name])) (fun _ => cut_short).
Proof.
  intros Hgone Hname. assert (∀ s, without gone s → cut_short s) as Hcut by (intros s Hs; by exists gone).
  unfold unlink, call. eapply (triple_bind _ _ _ _ (fun _ => without gone)).
  { eapply (triple_bind _ _ _ _ (fun _ => without gone)); [|intros r; by apply triple_ret].
    eapply triple_conseq; [apply (triple_ask (without gone) _ (fun _ => without gone)); [intros s r Hs; exact Hs|done]|done|done|intros e; exact Hcut|exact Hcut]. }
  intros u1. apply triple_modify. intros s Hs q. cbn [st files]. specialize (Hs q).
  destruct (decide (q = (workers_path root, name))) as [->|Hq].
  - rewrite lookup_delete_eq, bool_decide_eq_true_2; [done|]. right. split; [done|]. apply elem_of_app. right. by left.
  - rewrite lookup_delete_ne by done. rewrite Hs.
    assert (q.1 = workers_path root → q.2 = name → False) as Hne by (intros H1 H2; apply Hq; destruct q; cbn in *; congruence).
    rewrite (bool_decide_ext (q = broker_status_path root ∨ q.1 = workers_path root ∧ q.2 ∈ gone)
      (q = broker_status_path root ∨ q.1 = workers_path root ∧ q.2 ∈ gone ++ [name])); [done|].
    rewrite elem_of_app, list_elem_of_singleton. naive_solver.
Qed.
Lemma triple_clean names f :
  NoDup (dead f ++ names) → Forall (worker_record false) (dead f) → Forall (worker_record true) (live f) →
  triple cut_short (without (dead f)) (clean_files root process_is_alive names f)
    (fun g s => without (dead g) s ∧ Forall (worker_record false) (dead g) ∧ Forall (worker_record true) (live g) ∧
                dead g ++ live g ++ unreadable g ≡ₚ dead f ++ live f ++ unreadable f ++ names)
    (fun _ => cut_short).
Proof.
  revert f. induction names as [|name names IH]; intros f Hnd Hdead Hlive; cbn [clean_files].
  { apply triple_ret. intros s Hs. by rewrite app_nil_r. }
  assert (name ∉ dead f ∧ NoDup (dead f ++ names) ∧ NoDup ((dead f ++ [name]) ++ names)) as (Hname & Hnd1 & Hnd2).
  { split_and!; [|by apply NoDup_app in Hnd as (? & ? & [? ?]%NoDup_cons); apply NoDup_app; set_solver|by rewrite <- app_assoc].
    apply NoDup_app in Hnd as (_ & H & _). intros Hin. specialize (H name Hin). set_solver. }
  eapply triple_bind; [by apply triple_read|]. intros [pid|].
  - assert (∀ s, without (dead f) s → cut_short s) as Hcut by (intros s Hs; by exists (dead f)).
    intros s [Hs Hpid]. revert s Hs. destruct (process_is_alive pid) eqn:Ha.
    + specialize (IH (Sorted (dead f) (live f ++ [name]) (unreadable f)) Hnd1 Hdead).
      eapply triple_conseq; [apply IH; apply Forall_app; auto|done| |done|done].
      intros g s (H1 & H2 & H3 & H4). split_and!; [done..|]. rewrite H4. cbn [dead live unreadable]. solve_Permutation.
    + eapply triple_bind; [apply triple_remove; [done|by apply Hpid]|]. intros u1.
      specialize (IH (Sorted (dead f ++ [name]) (live f) (unreadable f)) Hnd2).
      eapply triple_conseq; [apply IH; [apply Forall_app; auto|done]|done| |done|done].
      intros g s (H1 & H2 & H3 & H4). split_and!; [done..|]. rewrite H4. cbn [dead live unreadable]. solve_Permutation.
  - eapply triple_before; [|intros s [Hs _]; exact Hs].
    specialize (IH (Sorted (dead f) (live f) (unreadable f ++ [name])) Hnd1 Hdead Hlive).
    eapply triple_conseq; [apply IH|done| |done|done].
    intros g s (H1 & H2 & H3 & H4). split_and!; [done..|]. rewrite H4. cbn [dead live unreadable]. solve_Permutation.
Qed.
End cleaning.

Lemma omap_nodup {A B} (f : A → option B) l :
  NoDup l → (∀ x y z, f x = Some z → f y = Some z → x = y) → NoDup (omap f l).
Proof.
  intros Hl Hf. induction Hl as [|x l Hx Hl IH]; cbn; [constructor|]. destruct (f x) as [z|] eqn:E; [|exact IH].
  constructor; [|exact IH]. rewrite list_elem_of_omap. intros (y & Hy & Hz). by rewrite (Hf x y z E Hz) in Hx.
Qed.
Lemma worker_files_nodup root d : NoDup (worker_files root d).
Proof.
  unfold worker_files, sort_strs. rewrite sort_by_perm. apply NoDup_ListNoDup, List.NoDup_filter, NoDup_ListNoDup, omap_nodup.
  - apply NoDup_fst_map_to_list.
  - intros [d1 n1] [d2 n2] z. cbn. unfold str_eqb. do 2 case_bool_decide; try discriminate. congruence.
Qed.

(** A broker that starts removes the old broker status and, of the
    records of workers, exactly those it could read and whose process it found
    gone; every record of a live process and every record it could not read is
    still there, as is every other file, also when it is cut short. *)
Theorem stale_records_removed {U : UnicodeDB} {F : FloatIO} root process_is_alive (s : disk_io) :
  let m := files (st s) in
  let found := worker_files root (Disk (delete (broker_status_path root) m) (locked (st s))) in
  match clean_stale_statuses root process_is_alive s with
  | (Ret c, s') =>
      without root m (dead_worker_statuses_removed c) s' ∧
      Forall (worker_record root process_is_alive m false) (dead_worker_statuses_removed c) ∧
      Forall (worker_record root process_is_alive m true) (live_worker_statuses_preserved c) ∧
      dead_worker_statuses_removed c ++ live_worker_statuses_preserved c ++ unreadable_worker_statuses_preserved c ≡ₚ found
  | (_, s') => files (st s') = m ∨ cut_short root process_is_alive m s'
  end.
Proof.
  cbv zeta. set (m := files (st s)). set (d := Disk (delete (broker_status_path root) m) (locked (st s))).
  set (I := fun s' : disk_io => files (st s') = m ∨ cut_short root process_is_alive m s').
  set (Q := fun (c : StaleRuntimeCleanup) (s' : disk_io) => without root m (dead_worker_statuses_removed c) s' ∧
      Forall (worker_record root process_is_alive m false) (dead_worker_statuses_removed c) ∧
      Forall (worker_record root process_is_alive m true) (live_worker_statuses_preserved c) ∧
      dead_worker_statuses_removed c ++ live_worker_statuses_preserved c ++ unreadable_worker_statuses_preserved c ≡ₚ worker_files root d).
  assert (triple I (fun s' => st s' = st s) (clean_stale_statuses root process_is_alive) Q (fun _ => I)) as H;
    [|specialize (H s eq_refl); by destruct (clean_stale_statuses root process_is_alive s) as [[c|e|] s']].
  unfold clean_stale_statuses. assert (∀ s' : disk_io, st s' = st s → I s') as HI by (intros s' Hs; left; by rewrite Hs).
  eapply (triple_bind _ _ _ _ (fun _ s' => st s' = st s)).
  { apply triple_state. intros d0. apply triple_ret. by intros s' [? _]. }
  intros removed. eapply (triple_bind _ _ _ _ (fun _ s' => st s' = d)).
  { unfold unlink, call. eapply (triple_bind _ _ _ _ (fun _ s' => st s' = st s)).
    - eapply (triple_bind _ _ _ _ (fun _ s' => st s' = st s)); [|intros r; by apply triple_ret].
      eapply triple_conseq; [apply (triple_ask (fun s' : disk_io => st s' = st s) _ (fun _ s' => st s' = st s));
        [intros s' r Hs; exact Hs|done]|done|done|intros e; exact HI|exact HI].
    - intros u1. apply triple_modify. intros s' Hs. cbn. by rewrite Hs. }
  intros u1. apply triple_state. intros d'.
  eapply triple_before with (P' := fun s' => d' = d ∧ without root m [] s'); [apply triple_pure; intros ->|].
  - eapply triple_bind.
    + eapply triple_conseq; [apply (triple_clean root process_is_alive m (worker_files root d) (Sorted [] [] []))|done| | |];
        [apply worker_files_nodup|constructor|constructor|exact (fun _ _ H => H)|intros e s' Hs; by right|intros s' Hs; by right].
    + intros f. apply triple_ret. intros s' Hs. exact Hs.
  - intros s' [Hs <-]. split; [exact Hs|]. intros q. rewrite Hs. unfold d. cbn [files].
    case_bool_decide as Hq.
    + destruct Hq as [->|[_ Hq]]; [apply lookup_delete_eq|by apply elem_of_nil in Hq].
    + apply lookup_delete_ne. intros <-. apply Hq. by left.
Qed.
