(* ===== verification/SetupStore.v ===== *)
(** * SetupStore: the setup requests on disk (setup/store.py, setup/service.py)

    Each request is a file of the runtime directory; the setup window and the
    tool server both read and replace it.  The coordinator starts the window and
    waits for the request to end. *)
From S2P Require Import Prelude Errors Text TextFacts Regex Prog Json ConfigModel Repository Runtime SetupModel Value.

Section store.
Context {U : UnicodeDB} {F : FloatIO}.
Variable root : str.
Definition setup_path : str := root ++ u "\setup".
Definition request_path (id : str) : res path := validate_setup_request_id id;; Ok (setup_path, id ++ u ".json").
Definition prepare_store : M disk_io unit :=
  prepare root;; call (MakeDirectory setup_path);; call (SecurePath setup_path None).
(** The empty file reserves the name. *)
Definition write_new (p : path) (r : SetupRecord) : M disk_io unit :=
  open_exclusive p;;
  call (SecurePath p.1 (Some p.2));;
  try_except (write_json p (record_dict r)) (fun e => unlink p;; raise e).
Definition create (q : SetupRequest) : M disk_io SetupRecord :=
  prepare_store;;
  p ← lift (request_path (request_id q));
  present ← exists_file p;
  lift (raise_if present (Builtin FileExistsError (u "setup request already exists")));;
  r ← lift (setup_record (Setup q PENDING (created_at q) None None));
  write_new p r;;
  mret r.
Definition load (id : str) : M disk_io SetupRecord :=
  p ← lift (request_path id);
  present ← exists_file p;
  lift (raise_if (negb present) (Builtin FileNotFoundError (u "setup request does not exist: " ++ id)));;
  d ← read_json p;
  lift (record_of d).
(** [update] reads the record and writes the next one; no lock is held between
    the two, and another process may replace the file there. *)
Definition update_read (id : str) (status' : SetupStatus) (result' : option (dict value)) (message' : option str) (now : option Q) :
    M disk_io SetupRecord :=
  current ← load id;
  lift (raise_if (terminal (status current)) (value_error (u "completed setup requests cannot be changed")));;
  t ← (match now with Some t => mret t | None => clock end);
  lift (setup_record (Setup (request current) status' (Finite t) result' message')).
Definition update_write (id : str) (r : SetupRecord) : M disk_io SetupRecord :=
  p ← lift (request_path id);
  write_json p (record_dict r);;
  mret r.
Definition update (id : str) (status' : SetupStatus) (result' : option (dict value)) (message' : option str) (now : option Q) :
    M disk_io SetupRecord :=
  r ← update_read id status' result' message' now; update_write id r.
Definition expire_if_needed (id : str) (now : option Q) : M disk_io SetupRecord :=
  r ← load id;
  t ← (match now with Some t => mret t | None => clock end);
  if negb (terminal (status r)) && fle (expires_at (request r)) (Finite t)
  then update id EXPIRED None (Some (u "The local setup request expired before completion.")) (Some t)
  else mret r.

(** ** The coordinator *)
Context (launch : str → M disk_io unit).    (* SetupLauncher.launch *)
Definition start (token_hex : str) (action_name : str) (name host user : option str) : M disk_io (dict value) :=
  a ← lift (match setup_action action_name with
            | Ok a => Ok a
            | Err e => Err (if is_value_error e then value_error (u "unsupported setup action: " ++ action_name) else e)
            end);
  now ← clock;
  q ← lift (create_request token_hex now a name host user);
  r ← create q;
  try_except (launch (request_id q))
    (fun e => if is_exception e then
                update (request_id q) FAILED None (Some (u "The local setup window could not be started.")) None;;
                raise (Builtin RuntimeError (u "the local setup window could not be started"))
              else raise e);;
  mret (public_result r).
Definition status_of (id : str) : M disk_io (dict value) :=
  r ← expire_if_needed id None; mret (public_result r).
(** Every round reads the request and the clock; it sleeps in between. *)
Fixpoint wait_rounds (fuel : nat) (id : str) (deadline : Q) : M disk_io (dict value) :=
  match fuel with
  | O => hang
  | S fuel =>
      r ← expire_if_needed id None;
      if terminal (status r) then mret (public_result r)
      else
        now ← clock;
        if qle deadline now then mret (public_result r)
        else clock;; wait_rounds fuel id deadline
  end.
Definition wait (id : str) (timeout : value) : M disk_io (dict value) :=
  lift (raise_if (negb (is_number timeout)) (value_error (u "wait_timeout must be a number")));;
  lift (raise_if (negb (fle (Finite (frac 1 10)) (to_float timeout) && fle (to_float timeout) (Finite (qz 30))))
          (value_error (u "wait_timeout must be from 0.1 through 30 seconds")));;
  now ← clock;
  s ← get;
  wait_rounds (S (length (script s))) id (qadd now (match to_float timeout with Finite q => q | _ => qz 0 end)).
End store.

(** ** A request settles once *)
Section settling.
Context {U : UnicodeDB} {F : FloatIO}.
Variables (root : str) (p : path) (f : option bytes) (b : gmap path bytes).
Abbreviation held g := (holds (place p) g b).
(** The record in the file *)
Definition stored (content : option bytes) (r : SetupRecord) : Prop :=
  ∃ c d, content = Some c ∧ document_of c = Ok d ∧ record_of d = Ok r.
(** The file was replaced by a record of the same request, which had not ended. *)
Definition replaced (r : SetupRecord) (content : bytes) : Prop :=
  ∃ old, stored f old ∧ terminal (status old) = false ∧ request r = request old ∧ setup_record r = Ok r ∧
         document_content (record_dict r) = Ok content.
Definition settled (s : disk_io) : Prop := held f s ∨ ∃ r content, replaced r content ∧ held (Some content) s.
Lemma settled_old s : held f s → settled s.
Proof. by left. Qed.
Variables (id : str) (Hp : request_path root id = Ok p).
Abbreviation keeps_held m Q := (triple (held f) (held f) m Q (fun _ => held f)).
Lemma held_call c : triple (held f) (held f) (ask c) (fun a s => held f s ∧ reply_ok (Ok a)) (fun _ => held f).
Proof. eapply triple_conseq; [apply triple_syscall, (safe_holds (place p) f b)|done|done|by intros e s [? _]|done]. Qed.
Lemma held_clock : keeps_held clock (fun _ => held f).
Proof. unfold clock. eapply triple_bind; [apply held_call|]. by intros [| | |] s [? _]. Qed.
Lemma held_now now : keeps_held (match now with Some t => mret t | None => clock end) (fun _ => held f).
Proof. destruct now; [by apply triple_ret|apply held_clock]. Qed.
Lemma held_load : keeps_held (load root id) (fun r s => held f s ∧ stored f r).
Proof.
  unfold load. rewrite Hp. eapply (triple_bind _ _ _ _ (fun q s => q = p ∧ held f s)); [by apply triple_ret|].
  intros q. apply triple_pure. intros ->. eapply (triple_bind _ _ _ _ (fun _ => held f)).
  { unfold exists_file. apply triple_state. intros d. apply triple_ret. by intros s [? _]. }
  intros present. apply triple_lift_at; [|done]. intros u1 _.
  eapply (triple_bind _ _ _ _ (fun d s => held f s ∧ ∃ c, f = Some c ∧ document_of c = Ok d)).
  - unfold read_json. eapply (triple_bind _ _ _ _ (fun c s => held f s ∧ f = Some c)).
    + pose proof (triple_read_bytes (place p) f b) as H. rewrite path_of_place in H. exact H.
    + intros c. apply triple_lift; [|by intros e s _ [? _]]. intros d s Hd [Hs Hc]. split; [exact Hs|]. by exists c.
  - intros d. apply triple_lift; [|by intros e s _ [? _]]. intros r s Hr [Hs (c & Hc & Hd)]. split; [exact Hs|]. by exists c, d.
Qed.
(** From [held] into the outcomes of a replacement *)
Lemma settling {A} (m : M disk_io A) Q : keeps_held m Q → triple settled (held f) m Q (fun _ => settled).
Proof. intros Hm. eapply triple_conseq; [exact Hm|done|done|intros e; exact settled_old|exact settled_old]. Qed.
Definition now_holds (st' : SetupStatus) (r : SetupRecord) (s : disk_io) : Prop :=
  ∃ content, replaced r content ∧ status r = st' ∧ held (Some content) s.
Lemma now_holds_settled st' r s : now_holds st' r s → settled s.
Proof. intros (content & Hr & _ & Hs). right. by exists r, content. Qed.
(** What an update that read the file may write *)
Definition next_record (st' : SetupStatus) (r : SetupRecord) : Prop :=
  ∃ old, stored f old ∧ terminal (status old) = false ∧ request r = request old ∧ setup_record r = Ok r ∧ status r = st'.
Lemma held_update_read st' result' message' now :
  keeps_held (update_read root id st' result' message' now) (fun r s => next_record st' r ∧ held f s).
Proof.
  unfold update_read. eapply triple_bind; [apply held_load|]. intros current.
  apply triple_lift_at; [|by intros e s [? _]]. intros u1 Hopen. apply raise_if_Ok in Hopen.
  eapply triple_before with (P' := fun s => stored f current ∧ held f s); [apply triple_pure; intros Hcur|by intros s [? ?]].
  eapply triple_bind; [apply held_now|]. intros t. apply triple_lift; [|done]. intros r s Hr Hs. split; [|exact Hs].
  exists current. pose proof (setup_record_same _ _ Hr) as E. split_and!; [done|done|by rewrite E|by rewrite E in Hr |- *|by rewrite E].
Qed.
Lemma triple_update_write r :
  triple (fun s => held f s ∨ ∃ content, document_content (record_dict r) = Ok content ∧ held (Some content) s)
    (held f) (update_write root id r)
    (fun r' s => r' = r ∧ ∃ content, document_content (record_dict r) = Ok content ∧ held (Some content) s)
    (fun _ s => held f s ∨ ∃ content, document_content (record_dict r) = Ok content ∧ held (Some content) s).
Proof.
  unfold update_write. rewrite Hp. eapply (triple_bind _ _ _ _ (fun q s => q = p ∧ held f s)); [by apply triple_ret|].
  intros q. apply triple_pure. intros ->. destruct (document_content (record_dict r)) as [content|e] eqn:Hc.
  2: { intros s Hs. unfold write_json. rewrite Hc. by left. }
  assert (∀ s, either (place p) f content b s → held f s ∨ ∃ c, @Ok exn _ content = Ok c ∧ held (Some c) s) as Heither
    by (intros s [Hs|Hs]; [by left|right; by exists content]).
  eapply (triple_bind _ _ _ _ (fun _ => held (Some content))).
  - eapply triple_conseq; [by apply (triple_write_json p f b _ content)|done|done|by intros e s [? _]; apply Heither|exact Heither].
  - intros u2. apply triple_ret. intros s Hs. split; [done|]. by exists content.
Qed.
Lemma triple_replace_record st' result' message' now :
  triple settled (held f) (update root id st' result' message' now) (now_holds st') (fun _ => settled).
Proof.
  unfold update. eapply triple_bind; [apply settling, held_update_read|]. intros r. apply triple_pure.
  intros (old & Hold & Hopen & Hq & Hr & Hst).
  assert (∀ content, document_content (record_dict r) = Ok content → replaced r content) as Hrep by (intros content Hc; by exists old).
  eapply triple_conseq; [apply (triple_update_write r)|done| | |].
  - intros r' s [-> (content & Hc & Hs)]. exists content. by split_and!; [apply Hrep| |].
  - intros e s [Hs|(content & Hc & Hs)]; [by left|right; exists r, content; by split; [apply Hrep|]].
  - intros s [Hs|(content & Hc & Hs)]; [by left|right; exists r, content; by split; [apply Hrep|]].
Qed.
Lemma triple_expire now :
  triple settled (held f) (expire_if_needed root id now)
    (fun r s => held f s ∧ stored f r ∨ now_holds EXPIRED r s) (fun _ => settled).
Proof.
  unfold expire_if_needed. eapply triple_bind; [apply settling, held_load|]. intros r.
  eapply triple_before with (P' := fun s => stored f r ∧ held f s); [apply triple_pure; intros Hr|by intros s [? ?]].
  eapply triple_bind; [apply settling, held_now|]. intros t. destruct (_ && _).
  - eapply triple_conseq; [apply triple_replace_record|done|intros x s Hs; by right|done|done].
  - apply triple_ret. intros s Hs. by left.
Qed.
End settling.

(** ** Two processes and one file
    The window and the tool server update the same file without a lock: what one
    of them read may have been replaced when it writes.  The file, and the records
    the updates under way are about to write, of which each took the place of one
    its update had read. *)
Section racing.
Context {U : UnicodeDB} {F : FloatIO}.
Record race := Race { r_file : option bytes; in_flight : list SetupRecord }.
Inductive race_step : race → race → Prop :=
  (* an update reads a record that has not ended *)
  | race_read f W old r :
      stored f old → terminal (status old) = false → request r = request old → setup_record r = Ok r →
      json_ok (VDict (record_dict r)) → race_step (Race f W) (Race f (r :: W))
  (* an update replaces the file, whatever it holds by now *)
  | race_write f W W' r content :
      W ≡ₚ r :: W' → document_content (record_dict r) = Ok content → race_step (Race f W) (Race (Some content) W')
  (* an update fails before the file is replaced *)
  | race_drop f W W' r : W ≡ₚ r :: W' → race_step (Race f W) (Race f W').

(** Every record in the file or on its way is one of the request's. *)
Definition of_request (q : SetupRequest) (c : race) : Prop :=
  (∃ r, stored (r_file c) r ∧ request r = q) ∧
  ∀ r, r ∈ in_flight c → request r = q ∧ setup_record r = Ok r ∧ json_ok (VDict (record_dict r)).
Lemma stored_same f r r' : stored f r → stored f r' → r = r'.
Proof. intros (c & d & -> & Hd & Hr) (c' & d' & [= <-] & Hd' & Hr'). congruence. Qed.
Lemma stored_record r content :
  setup_request (request r) = Ok (request r) → setup_record r = Ok r → json_ok (VDict (record_dict r)) →
  document_content (record_dict r) = Ok content → stored (Some content) r.
Proof.
  intros Hq Hr Hok Hc. exists content, (record_dict r). split; [done|]. split; [by apply document_roundtrip|].
  by apply record_roundtrip.
Qed.
Lemma race_keeps_request q c c' :
  setup_request q = Ok q → race_step c c' → of_request q c → of_request q c'.
Proof.
  intros Hq Hstep [(r0 & Hr0 & Hq0) HW]. destruct Hstep as [f W old r Hold Hopen Hreq Hr Hok|f W W' r content HP Hc|f W W' r HP]; cbn in *.
  - split; [by exists r0|]. intros x [->|Hx]%elem_of_cons; [|by apply HW]. pose proof (stored_same _ _ _ Hold Hr0) as ->. by rewrite Hreq.
  - destruct (HW r) as (Hreq & Hr & Hok); [rewrite HP; by left|]. split.
    + exists r. split; [|done]. apply stored_record; [by rewrite Hreq|done..].
    + intros x Hx. apply HW. rewrite HP. by right.
  - split; [by exists r0|]. intros x Hx. apply HW. rewrite HP. by right.
Qed.
Lemma races_keep_request q c c' :
  setup_request q = Ok q → rtc race_step c c' → of_request q c → of_request q c'.
Proof. intros Hq Hs. induction Hs as [c|c c1 c2 H1 _ IH]; [done|]. intros H. by eapply IH, race_keeps_request. Qed.
(** Nothing is under way and the record has ended: nothing can begin. *)
Lemma race_is_over c c' r :
  rtc race_step c c' → in_flight c = [] → stored (r_file c) r → terminal (status r) = true → c' = c.
Proof.
  intros Hs HW Hr Ht. destruct Hs as [c|c c1 c2 H1 _]; [done|]. exfalso.
  destruct H1 as [f W old r' Hold Hopen _ _ _|f W W' r' content HP _|f W W' r' HP]; cbn in *; subst.
  - pose proof (stored_same _ _ _ Hold Hr) as ->. congruence.
  - by apply Permutation_nil_cons in HP.
  - by apply Permutation_nil_cons in HP.
Qed.
End racing.

(** C27: a setup request's file always reads back as a valid record of
    that request, and a record that has ended is final once no update is under
    way.  An update that runs by itself replaces a record that has not ended, as a
    whole, or leaves the file as it was; an expiry is such an update.  Its two
    halves, which no lock joins, are a read that begins an update only of a record
    that has not ended, and a write that replaces what the file holds by then: so
    the updates of the window and of the server, however they interleave, keep
    the request and the format, while the end that one of them stored lasts only
    if no other had read the file before. *)
Theorem setup_request_settles_once {U : UnicodeDB} {F : FloatIO} root id p (s : disk_io) status' result' message' now
    (Hp : request_path root id = Ok p) (Hs : script_ok s) :
  let f := file_at p s in
  let b := files (st s) in
  (match update root id status' result' message' now s with
   | (Ret r, s') => now_holds p f b status' r s'
   | (_, s') => settled p f b s'
   end) ∧
  (match expire_if_needed root id now s with
   | (Ret r, s') => (holds (place p) f b s' ∧ stored f r) ∨ now_holds p f b EXPIRED r s'
   | (_, s') => settled p f b s'
   end) ∧
  (match update_read root id status' result' message' now s with
   | (Ret r, s') => file_at p s' = f ∧ status r = status' ∧
       (json_ok (VDict (record_dict r)) → ∀ W, race_step (Race f W) (Race (file_at p s') (r :: W)))
   | (_, s') => file_at p s' = f
   end) ∧
  (∀ r W, match update_write root id r s with
          | (o, s') => race_step (Race f (r :: W)) (Race (file_at p s') W) ∧
                       (∀ r', o = Ret r' → r' = r ∧ ∃ content, document_content (record_dict r) = Ok content ∧ file_at p s' = Some content)
          end) ∧
  (∀ r0 c, stored f r0 → rtc race_step (Race f []) c →
     (∃ r, stored (r_file c) r ∧ request r = request r0) ∧ (terminal (status r0) = true → r_file c = f)).
Proof.
  cbv zeta. set (f := file_at p s). set (b := files (st s)).
  assert (holds (place p) f b s) as Hh by (split; [done|]; rewrite path_of_place; split_and!; [done|done|by left]).
  assert (∀ g s', holds (place p) g b s' → file_at p s' = g) as Hat by (intros g s' (_ & H & _); by rewrite path_of_place in H).
  split_and!.
  - pose proof (triple_replace_record root p _ _ id Hp status' result' message' now s Hh) as H.
    by destruct (update _ _ _ _ _ _ s) as [[r|e|] s'].
  - pose proof (triple_expire root p _ _ id Hp now s Hh) as H. by destruct (expire_if_needed _ _ _ s) as [[r|e|] s'].
  - pose proof (held_update_read root p _ _ id Hp status' result' message' now s Hh) as H.
    destruct (update_read _ _ _ _ _ _ s) as [[r|e|] s']; [|by apply Hat..].
    destruct H as [(old & Hold & Hopen & Hq & Hr & Hst) H]. apply Hat in H. rewrite H. split; [done|]. split; [done|].
    intros Hok W. by eapply race_read.
  - intros r W. pose proof (triple_update_write root p _ _ id Hp r s Hh) as H.
    assert (∀ s', holds (place p) f b s' ∨ (∃ content, document_content (record_dict r) = Ok content ∧ holds (place p) (Some content) b s') →
              race_step (Race f (r :: W)) (Race (file_at p s') W)) as Hstep.
    { intros s' [->%Hat|(content & Hc & ->%Hat)]; [by eapply race_drop|by eapply race_write]. }
    destruct (update_write _ _ _ s) as [[r'|e|] s'].
    + destruct H as [-> H]. split; [apply Hstep; by right|]. intros r' [= <-]. split; [done|]. destruct H as (content & Hc & ->%Hat). by exists content.
    + split; [by apply Hstep|done].
    + split; [by apply Hstep|done].
  - intros r0 c Hr0 Hrace. split.
    + pose proof Hr0 as (c0 & d0 & _ & _ & [Hq _]%record_of_valid).
      destruct (races_keep_request (request r0) _ _ Hq Hrace) as [H _]; [|exact H]. split; [by exists r0|]. intros x Hx. by apply elem_of_nil in Hx.
    + intros Ht. by rewrite (race_is_over _ _ r0 Hrace eq_refl Hr0 Ht).
Qed.

(** ** Concrete runs *)
(** An interpreter whose floats are whole seconds *)
Definition whole_seconds : FloatIO :=
  {| float_repr f := match f with Finite q => show_int (qround q) ++ u ".0" | _ => [] end;
     float_parse t := match parse_int (take (length t - 2) t) with Some n => Finite (qz n) | None => NaN end |}.
Lemma seconds_ok n : 0 <= n < 2000 → float_ok (F := whole_seconds) (Finite (qz n)).
Proof.
  intros Hn. assert (qround (qz n) = n) as Hq.
  { unfold qround, qz, frac. cbn. rewrite Z.div_1_r, Z.mod_1_r. done. }
  assert (float_repr (FloatIO := whole_seconds) (Finite (qz n)) = show_int n ++ u ".0") as Hr by (cbn [float_repr whole_seconds]; by rewrite Hq).
  split; [by eexists|]. split.
  - rewrite Hr. cbn [float_parse whole_seconds]. rewrite length_app. change (length (u ".0")) with 2%nat.
    rewrite Nat.add_sub, take_app_length, parse_show_int; [done|].
    pose proof (Z.log2_le_mono (Z.abs n) 2000 ltac:(lia)) as Hl. change (Z.log2 2000) with 10 in Hl. pose proof (Z.log2_nonneg (Z.abs n)).
    lia.
  - exists [], n, (u ".0"), []. rewrite Hr. unfold show_int. destruct (Z.ltb_spec n 0); [lia|]. split_and!; [by rewrite app_nil_r|by left|lia| |by left|done].
    right. by exists (u "0").
Qed.
(** A running request whose window is about to store the end *)
Definition sample_request_id : str := u "setup-0123456789abcdef01234567".
Definition sample_request : SetupRequest :=
  Request sample_request_id ADD (Finite (qz 1)) (Finite (qz 1801)) None None None.
Definition sample_record : SetupRecord := Setup sample_request RUNNING (Finite (qz 1)) None None.
Definition sample_content : bytes :=
  match document_content (F := whole_seconds) (record_dict sample_record) with Ok c => c | Err _ => [] end.
Definition sample_path : path := (u "C:\run\setup", sample_request_id ++ u ".json").
Definition sample_disk (answers : list (res disk_reply)) : disk_io :=
  Io (Disk {[ sample_path := sample_content ]} false) answers [].
Definition read_answers : list (res disk_reply) := [Ok Done].
Definition write_answers (hex : str) : list (res disk_reply) := [Ok (Token hex)] ++ replicate 7 (Ok Done).
Lemma sample_json_ok st' n : 0 <= n < 2000 → json_ok (F := whole_seconds) (VDict (record_dict (Setup sample_request st' (Finite (qz n)) None None))).
Proof.
  intros Hn. assert (∀ d, bool_decide (dwf d) = true → bool_decide (Forall (fun kv : str * value => Forall char_ok kv.1) d) = true →
    Forall (fun kv => json_ok (F := whole_seconds) kv.2) d → json_ok (F := whole_seconds) (VDict d)) as Hdict
    by (intros d H1%bool_decide_eq_true H2%bool_decide_eq_true H3; by constructor).
  apply Hdict; [reflexivity..|]. repeat (apply Forall_cons_2; [cbn [snd]|]); [..|apply Forall_nil_2].
  - apply Hdict; [reflexivity..|]. repeat (apply Forall_cons_2; [cbn [snd]|]); [..|apply Forall_nil_2]; try constructor;
      try (by apply seconds_ok); apply (bool_decide_unpack _); vm_compute; exact I.
  - constructor. destruct st'; apply (bool_decide_unpack _); vm_compute; exact I.
  - constructor. by apply seconds_ok.
  - constructor.
  - constructor.
Qed.
Definition created_record : SetupRecord := Setup sample_request CREATED (Finite (qz 2)) None None.
(** One update by itself ends the request for good. *)
Lemma setup_request_settles_once_witness :
  let s := sample_disk (read_answers ++ write_answers (u "00")) in
  let s1 := (update_read (U := ascii_db) (F := whole_seconds) (u "C:\run") sample_request_id CREATED None None (Some (qz 2)) s).2 in
  let s2 := (update_write (U := ascii_db) (F := whole_seconds) (u "C:\run") sample_request_id created_record s1).2 in
  let reached c := rtc (race_step (U := ascii_db) (F := whole_seconds)) (Race (file_at sample_path s) []) c in
  stored (U := ascii_db) (F := whole_seconds) (file_at sample_path s) sample_record ∧
  reached (Race (file_at sample_path s2) []) ∧
  (∃ r, stored (U := ascii_db) (F := whole_seconds) (file_at sample_path s2) r ∧ request r = sample_request) ∧
  file_at sample_path s2 ≠ file_at sample_path s.
Proof.
  cbv zeta. set (s := sample_disk _).
  assert (request_path (U := ascii_db) (u "C:\run") sample_request_id = Ok sample_path) as Hp by (vm_compute; reflexivity).
  assert (script_ok s) as Hs by (repeat constructor).
  assert (stored (U := ascii_db) (F := whole_seconds) (file_at sample_path s) sample_record) as H0.
  { exists sample_content, (record_dict sample_record). split_and!; vm_compute; reflexivity. }
  destruct (setup_request_settles_once (U := ascii_db) (F := whole_seconds) (u "C:\run") sample_request_id sample_path s CREATED None None
    (Some (qz 2)) Hp Hs) as (_ & _ & Hread & _ & Hraces).
  assert ((update_read (U := ascii_db) (F := whole_seconds) (u "C:\run") sample_request_id CREATED None None (Some (qz 2)) s).1 = Ret created_record)
    as E by (vm_compute; reflexivity).
  assert (script_ok (update_read (U := ascii_db) (F := whole_seconds) (u "C:\run") sample_request_id CREATED None None (Some (qz 2)) s).2) as Hs1
    by (unfold script_ok; vm_compute; repeat constructor).
  assert (file_at sample_path (update_write (U := ascii_db) (F := whole_seconds) (u "C:\run") sample_request_id created_record
    (update_read (U := ascii_db) (F := whole_seconds) (u "C:\run") sample_request_id CREATED None None (Some (qz 2)) s).2).2 ≠ file_at sample_path s) as Hne
    by (vm_compute; discriminate).
  destruct (update_read _ _ _ _ _ _ s) as [o s1]. cbn [fst snd] in *. subst o. destruct Hread as (Hf & _ & Hstep).
  specialize (Hstep (sample_json_ok CREATED 2 ltac:(lia)) []).
  destruct (setup_request_settles_once (U := ascii_db) (F := whole_seconds) (u "C:\run") sample_request_id sample_path s1 CREATED None None
    (Some (qz 2)) Hp Hs1) as (_ & _ & _ & Hwrite & _).
  specialize (Hwrite created_record []). destruct (update_write _ _ _ s1) as [o s2]. destruct Hwrite as [Hstep2 _]. cbn [fst snd] in *.
  assert (rtc (race_step (U := ascii_db) (F := whole_seconds)) (Race (file_at sample_path s) []) (Race (file_at sample_path s2) [])) as Hreach
    by (eapply rtc_l; [exact Hstep|]; eapply rtc_l; [exact Hstep2|apply rtc_refl]).
  split; [exact H0|]. split; [exact Hreach|]. split; [|exact Hne]. exact (proj1 (Hraces _ _ H0 Hreach)).
Defined.
(** The server found the request expired before the window stored that the
    profile was created, and writes after it: the stored end is overwritten. *)
Definition crossing_updates : M disk_io (SetupStatus * SetupStatus) :=
  let read st' := update_read (U := ascii_db) (F := whole_seconds) (u "C:\run") sample_request_id st' None None (Some (qz 1900)) in
  let write := update_write (U := ascii_db) (F := whole_seconds) (u "C:\run") sample_request_id in
  let look := load (U := ascii_db) (F := whole_seconds) (u "C:\run") sample_request_id in
  mine ← read CREATED; theirs ← read EXPIRED;
  write mine;; between ← look; write theirs;; after ← look;
  mret (status between, status after).
Example crossing_update_overwrites_the_end :
  (crossing_updates (sample_disk (read_answers ++ read_answers ++ write_answers (u "00") ++ read_answers ++ write_answers (u "01") ++ read_answers))).1
  = Ret (CREATED, EXPIRED).
Proof. vm_compute. reflexivity. Qed.
