(* ===== verification/PublicKey.v ===== *)
(** * PublicKey: installing a public key on a server (setup/public_key_transition.py, setup/keys.py)

    The check of a public key line, the script that installs it, and the
    reading of what the script printed. *)
From S2P Require Import Prelude Errors Text TextFacts Regex Json ConfigModel FileWire FileShell Redaction.

(** ** Public keys *)
Definition KEY_TYPES : list str := [u "ssh-ed25519"; u "ssh-rsa"; u "ecdsa-sha2-nistp256"].
(** [int.from_bytes(b, "big")] *)
Definition big_endian (b : bytes) : Z := fold_left (fun n x => n * 256 + x) b 0.
(** [base64.b64decode(text.encode("ascii"), validate=True)] *)
Definition key_blob (text : str) : res bytes :=
  let e := value_error (u "the OpenSSH public key payload is not valid base64") in
  if forallb is_ascii text then match b64_decode text with Some b => Ok b | None => Err e end else Err e.
Definition validate_public_key_line (text : str) : res str :=
  raise_if (str_eqb text [] || (16384 <? len text) || negb (str_eqb text (strip text)))
    (value_error (u "the public SSH key must be one trimmed line"));;
  raise_if (has_control text) (value_error (u "the public SSH key contains a control character"));;
  match words text with
  | kind :: payload :: _ =>
      raise_if (negb (bool_decide (kind ∈ KEY_TYPES)))
        (value_error (u "the selected file is not a supported OpenSSH public key"));;
      blob ← key_blob payload;
      raise_if ((len blob <? 8) || (8192 <? len blob)) (value_error (u "the OpenSSH public key payload has an invalid size"));;
      raise_if (negb (str_eqb (take (Z.to_nat (big_endian (take 4 blob))) (drop 4 blob)) kind))
        (value_error (u "the OpenSSH public key type does not match its payload"));;
      Ok text
  | _ => Err (value_error (u "the selected file is not a supported OpenSSH public key"))
  end.
(** The content of a public key file *)
Definition public_key_of (content : bytes) : res str :=
  raise_if (str_eqb content [] || (16384 <? len content)) (value_error (u "the public SSH key has an invalid size"));;
  match utf8_decode content with
  | UText t => validate_public_key_line (strip t)
  | UBad _ _ => Err (value_error (u "the public SSH key must be UTF-8 text"))
  end.

(** ** The installation *)
Inductive LocalRollbackStatus : Type := ROLLED_BACK | SKIPPED_CONCURRENT_CHANGE | ROLLBACK_FAILED.
Record PublicKeyInstallPlan := Plan { command : str; marker_prefix : str; key_identity : str }.
Definition REMOTE_KEY_WARNING : str :=
  u "The public key may already be present in the remote authorized_keys file." ++ nl
  ++ u "Review the remote account before retrying or removing the key.".
Definition ROLLED_BACK_WARNING : str := u "The local profile switch was rolled back." ++ nl ++ nl ++ REMOTE_KEY_WARNING.
Definition transition_warning (s : LocalRollbackStatus) : str :=
  match s with
  | ROLLED_BACK => ROLLED_BACK_WARNING
  | SKIPPED_CONCURRENT_CHANGE =>
      u "The local profile switch was not rolled back because the local configuration changed concurrently."
      ++ nl ++ nl ++ REMOTE_KEY_WARNING
  | ROLLBACK_FAILED => u "The local profile switch rollback could not be completed." ++ nl ++ nl ++ REMOTE_KEY_WARNING
  end.
Definition TOKEN : re := RSeqs [RBol; RRepeat 32 (RChar (cls [(48, 57); (97, 102)])); REol].
Definition marker_of (correlation : str) : str := u "__SERVEROPS_PUBLIC_KEY_" ++ correlation ++ u "__:".
Definition install_script (encoded_line encoded_algorithm encoded_blob marker : str) : str :=
  join nl
    [sh "set -eu"; sh "builtin umask 077";
     sh "command mkdir -p -- `$HOME/.ssh`"; sh "command chmod 700 -- `$HOME/.ssh`";
     sh "command touch -- `$HOME/.ssh/authorized_keys`"; sh "command chmod 600 -- `$HOME/.ssh/authorized_keys`";
     sh "_serverops_key=$(builtin printf '%s' '" ++ encoded_line ++ sh "' | command base64 -d)";
     sh "_serverops_alg=$(builtin printf '%s' '" ++ encoded_algorithm ++ sh "' | command base64 -d)";
     sh "_serverops_blob=$(builtin printf '%s' '" ++ encoded_blob ++ sh "' | command base64 -d)";
     sh "if command awk -v alg=`$_serverops_alg` -v blob=`$_serverops_blob` '{ for (i = 1; i < NF; i++) if ($i == alg && $(i + 1) == blob) found = 1 } END { exit(found ? 0 : 1) }' `$HOME/.ssh/authorized_keys`; then";
     sh "  builtin printf '%s\n' '" ++ marker ++ sh "key_already_present'";
     sh "else";
     sh "  if [ -s `$HOME/.ssh/authorized_keys` ] &&      [ `$(command tail -c 1 `$HOME/.ssh/authorized_keys` | command wc -l)` -eq 0 ]; then";
     sh "    builtin printf '\n' >> `$HOME/.ssh/authorized_keys`";
     sh "  fi";
     sh "  builtin printf '%s\n' `$_serverops_key` >> `$HOME/.ssh/authorized_keys`";
     sh "  command sync `$HOME/.ssh/authorized_keys` 2>/dev/null || true";
     sh "  builtin printf '%s\n' '" ++ marker ++ sh "key_added'";
     sh "fi";
     sh "builtin unset _serverops_key _serverops_alg _serverops_blob"].
Definition encoded (v : str) : res str := b ← utf8_encode v; Ok (b64_encode b).
Definition build_public_key_install_plan {U : UnicodeDB} (public_key correlation : str) : res PublicKeyInstallPlan :=
  line ← validate_public_key_line public_key;
  let algorithm := nth 0 (words line) [] in
  let blob := nth 1 (words line) [] in
  raise_if (negb (fullmatch TOKEN correlation)) (value_error (u "public-key install token is invalid"));;
  encoded_line ← encoded line;
  encoded_algorithm ← encoded algorithm;
  encoded_blob ← encoded blob;
  Ok (Plan (install_script encoded_line encoded_algorithm encoded_blob (marker_of correlation)) (marker_of correlation)
        (algorithm ++ u " " ++ blob)).

(** ** What the script printed *)
Definition markers (prefix output : str) : list str :=
  List.filter (starts_with prefix) (map strip (splitlines output)).
(** Whether the key was new; [None] when that is not known *)
Definition parse (plan : PublicKeyInstallPlan) (output : option str) : option bool :=
  match output with
  | None => None
  | Some text =>
      match markers (marker_prefix plan) text with
      | [m] => if str_eqb m (marker_prefix plan ++ u "key_added") then Some true
               else if str_eqb m (marker_prefix plan ++ u "key_already_present") then Some false
               else None
      | _ => None
      end
  end.

(** ** A key cannot change the script *)
Lemma install_script_shape l1 l2 a1 a2 b1 b2 m :
  inert l1 → inert l2 → inert a1 → inert a2 → inert b1 → inert b2 →
  skeleton (install_script l1 a1 b1 m) = skeleton (install_script l2 a2 b2 m).
Proof.
  intros. unfold install_script. rewrite !skeleton_join. cbn [map].
  rewrite !skeleton_app, !(skeleton_inert l1), !(skeleton_inert l2), !(skeleton_inert a1), !(skeleton_inert a2),
    !(skeleton_inert b1), !(skeleton_inert b2) by done. reflexivity.
Qed.
Lemma words_Forall (P : Z → Prop) s word : Forall P s → Forall P word → Forall (Forall P) (split_words s word).
Proof.
  revert word. induction s as [|c s IH]; intros word Hs Hw; cbn [split_words].
  - destruct (str_eqb word []); repeat constructor. by apply Forall_rev.
  - inversion Hs; subst. destruct (is_space c).
    + destruct (str_eqb word []); [by apply IH|]. constructor; [by apply Forall_rev|by apply IH].
    + apply IH; [done|by constructor].
Qed.
Lemma encoded_inert v e : Forall char_ok v → encoded v = Ok e → inert e ∧ b64_decode e = Some (utf8_bytes v).
Proof.
  intros Hv H. unfold encoded in H. inv_ok H. apply Ok_inj in H as <-. destruct (encodable v a Hv Ha) as [Hok ->].
  split; [by apply b64_encode_alphabet, utf8_bytes_range|]. apply b64_decode_encode. by apply utf8_bytes_range.
Qed.
Lemma nth_char_ok i l : Forall (Forall char_ok) l → Forall char_ok (nth i l []).
Proof. intros H. revert i. induction H as [|x l Hx Hl IH]; intros [|i]; cbn; auto. Qed.
(** Whatever the key, the script is the same but for base64 text in three
    places, and what it appends is the key. *)
Lemma key_cannot_change_script {U : UnicodeDB} k1 k2 token p1 p2 :
  Forall char_ok k1 → Forall char_ok k2 →
  build_public_key_install_plan k1 token = Ok p1 → build_public_key_install_plan k2 token = Ok p2 →
  skeleton (command p1) = skeleton (command p2) ∧
  ∃ line algorithm blob, command p1 = install_script line algorithm blob (marker_of token) ∧ b64_decode line = Some (utf8_bytes k1).
Proof.
  intros Hk1 Hk2 H1 H2. unfold build_public_key_install_plan in H1, H2. inv_ok H1. inv_ok H2.
  apply Ok_inj in H1 as <-. apply Ok_inj in H2 as <-. cbn [command].
  assert (∀ k a, validate_public_key_line k = Ok a → a = k) as Hsame.
  { intros k x H. unfold validate_public_key_line in H. inv_ok H. destruct (words k) as [|? [|? ?]]; try discriminate.
    inv_ok H. by injection H. }
  repeat match goal with H : validate_public_key_line _ = Ok _ |- _ => apply Hsame in H; subst end.
  pose proof (words_Forall char_ok k1 [] Hk1 ltac:(constructor)) as Hw1.
  pose proof (words_Forall char_ok k2 [] Hk2 ltac:(constructor)) as Hw2.
  repeat match goal with
         | H : encoded ?v = Ok _ |- _ => apply encoded_inert in H; [destruct H|first [exact Hk1|exact Hk2|apply (nth_char_ok _ _ Hw1)|apply (nth_char_ok _ _ Hw2)]]
         end.
  split; [by apply install_script_shape|]. by eexists _, _, _.
Qed.
