(* ===== verification/ProfileSetup.v ===== *)
(** * ProfileSetup: changing profiles (setup/operations.py)

    Adding, editing, removing and testing a profile, generating a key, and
    switching a profile from a password to a key that is installed on the
    server first.  The configuration store, the broker, the key generator and
    the audit log answer from a script. *)
From S2P Require Import Prelude Errors Text TextFacts Regex Prog ConfigModel BrokerModel AuditedCalls PublicKey Repository Value.

Record GeneratedKey := Key { private_key_path : str; public_key_path : str; public_key : str }.
(** One call of each collaborator; a request opens a connection to the broker
    for itself and closes it. *)
Inductive setup_call : Type :=
  | GLoad                                                                    (* repository.load() *)
  | GSave (c : ServerOpsConfig) (expected : option str)                      (* repository.save *)
  | GUpdate (operation : ServerOpsConfig → res ServerOpsConfig)              (* repository.update *)
  | GRemove (name : str) (expected : option str)                             (* repository.remove_profile *)
  | GRequest (message_type : str) (payload : dict value)
  | GRecord (action name : str) (profile : option ServerProfile) (status : str)  (* AuditLogger.record *)
  | GToken                                                                   (* secrets.token_hex(16) *)
  | GGenerate (name : str).                                                  (* generator.generate *)
Inductive setup_reply : Type :=
  | GDone | GSnapshot (s : ConfigSnapshot) | GResult (d : dict value) | GLogged (b : bool) | GHex (t : str) | GKey (k : GeneratedKey).

(** What an operation raises: the two errors of the key transition carry what
    is known of the server and of the local profile. *)
Inductive failure : Type :=
  | Raised (e : exn)
  | InstallUnknown (rollback : option LocalRollbackStatus) (detail : str)
  | TransitionFailed (rollback : LocalRollbackStatus) (public_key_was_new : bool).
Definition failure_code (e : failure) : option str :=
  match e with
  | Raised (Builtin _ _) => None
  | Raised (Controlled _ code _ _) => Some code
  | InstallUnknown _ _ => Some (u "outcome_unknown")
  | TransitionFailed _ _ => Some (u "public_key_transition_failed")
  end.
Definition is_outcome_unknown (code : option str) : bool :=
  match code with Some c => ends_with (u "outcome_unknown") c | None => false end.
(** [except Exception] *)
Definition is_ordinary (e : failure) : bool := match e with Raised e => is_exception e | _ => true end.
Definition install_unknown (message : str) (rollback : option LocalRollbackStatus) : failure :=
  InstallUnknown rollback (match rollback with Some s => message ++ nl ++ nl ++ transition_warning s | None => message end).

Section operations.
Context {U : UnicodeDB}.
Abbreviation IO := (io unit setup_call setup_reply).
Abbreviation P := (prog failure IO).
Definition raised {A} (m : M IO A) : P A := fun s =>
  match m s with (Ret a, s') => (Ret a, s') | (Raise e, s') => (Raise (Raised e), s') | (Hang, s') => (Hang, s') end.
Definition checked {A} (r : res A) : P A := raised (lift r).
Definition ask_snapshot (c : setup_call) : P ConfigSnapshot :=
  r ← raised (ask c); match r with GSnapshot s => mret s | _ => hang end.
Definition request (message_type : str) (payload : dict value) : P (dict value) :=
  r ← raised (ask (GRequest message_type payload)); match r with GResult d => mret d | _ => hang end.
(** [ProfileAudit.record]: a log that fails is a record that was not logged *)
Definition record (action name : str) (profile : option ServerProfile) (status : str) : P bool :=
  try_except (r ← raised (ask (GRecord action name profile status)); match r with GLogged b => mret b | _ => hang end)
    (fun e => if is_ordinary e then mret false else raise e).
Definition completed : str := u "completed".

Definition missing_profile (name : str) : exn := config_error (u "profile does not exist: " ++ name).
Definition profile_result (snapshot : ConfigSnapshot) (name : str) : res (dict value) :=
  match dget (profiles (config snapshot)) name with
  | Some p => Ok [(u "profile", VDict (profile_details name p))]
  | None => Err (Builtin KeyError name)
  end.
Definition add_only (name : str) (p : ServerProfile) (c : ServerOpsConfig) : res ServerOpsConfig :=
  raise_if (dhas (profiles c) name) (config_error (u "profile already exists: " ++ name));; with_profile c name p.
Definition replace_only (name : str) (p : ServerProfile) (c : ServerOpsConfig) : res ServerOpsConfig :=
  raise_if (negb (dhas (profiles c) name)) (missing_profile name);; with_profile c name p.
Definition store_profile (change : ServerOpsConfig → res ServerOpsConfig) (action name : str) (p : ServerProfile) : P (dict value) :=
  checked (validate_profile_name name);;
  snapshot ← ask_snapshot (GUpdate change);
  status ← record action name (Some p) completed;
  d ← checked (profile_result snapshot name);
  mret (attach status d).
Definition add (name : str) (p : ServerProfile) : P (dict value) := store_profile (add_only name p) (u "profile_created") name p.
Definition edit (name : str) (p : ServerProfile) : P (dict value) := store_profile (replace_only name p) (u "profile_updated") name p.
Definition require_profile (name : str) (c : ServerOpsConfig) : res ServerProfile :=
  match dget (profiles c) name with Some p => Ok p | None => Err (missing_profile name) end.
Definition remove (name : str) : P (dict value) :=
  checked (validate_profile_name name);;
  original ← ask_snapshot GLoad;
  p ← checked (require_profile name (config original));
  raised (ask (GRemove name (Some (content_hash original))));;
  status ← record (u "profile_removed") name (Some p) completed;
  mret (attach status [(u "profile_name", VStr name)]).

(** [with suppress(Exception)] *)
Definition close_session (id : str) : P unit :=
  try_except (request (u "session.close") [(u "session_id", VStr id)];; mret tt)
    (fun e => if is_ordinary e then mret tt else raise e).
Definition opened_session (message : str) (opened : dict value) : res str :=
  match vget opened (u "session_id") with
  | VStr id => validate_session_id id;; Ok id
  | _ => Err (Builtin RuntimeError message)
  end.
Definition test (name : str) : P (dict value) :=
  checked (validate_profile_name name);;
  snapshot ← ask_snapshot GLoad;
  p ← checked (require_profile name (config snapshot));
  started ← record (u "profile_test_started") name (Some p) (u "started");
  session ← try_except
    (opened ← request (u "session.open") [(u "profile_name", VStr name)];
     id ← checked (opened_session (u "broker returned no valid setup test session") opened);
     mret (id, [(u "profile_name", VStr name); (u "connection", VStr (u "ready"));
                (u "effective_user", vget opened (u "effective_user"))]))
    (fun e => record (u "profile_test_failed") name (Some p) (u "failed");; raise e);
  close_session session.1;;
  done ← record (u "profile_test_completed") name (Some p) completed;
  mret (attach (combine [started; done]) session.2).
Definition generate_key (name : str) : P (GeneratedKey * bool) :=
  checked (validate_profile_name name);;
  started ← record (u "key_generation_started") name None (u "started");
  k ← try_except (r ← raised (ask (GGenerate name)); match r with GKey k => mret k | _ => hang end)
        (fun e => record (u "key_generation_failed") name None (u "failed");; raise e);
  done ← record (u "key_generation_completed") name None completed;
  mret (k, combine [started; done]).

(** ** Installing a key *)
Definition run_install (id : str) (plan : PublicKeyInstallPlan) : P bool :=
  installed ← try_except
    (request (u "session.exec")
       [(u "session_id", VStr id); (u "command", VStr (command plan)); (u "timeout", VFloat (Finite (qz 30)))])
    (fun e => if is_outcome_unknown (failure_code e)
              then raise (install_unknown (u "the connection ended before the key-install marker was received") None)
              else raise e);
  if negb (eq_str (vget installed (u "status")) completed) || negb (eq_int (vget installed (u "exit_code")) 0)
  then raise (install_unknown (u "the key-install command ended without a successful result marker") None)
  else match parse plan (as_str (vget installed (u "output"))) with
       | Some was_new => mret was_new
       | None => raise (install_unknown
                          (match as_str (vget installed (u "output")) with
                           | Some _ => u "the remote key-install result was missing or ambiguous"
                           | None => u "the remote key-install command returned no verifiable marker"
                           end) None)
       end.
(** The handler of both parts, and the session closed after the second *)
Definition noted {A} (name : str) (p : ServerProfile) (m : P A) : P A :=
  try_except m
    (fun e =>
       (if is_outcome_unknown (failure_code e)
        then record (u "public_key_install_outcome_unknown") name (Some p) (u "outcome_unknown")
        else record (u "public_key_install_failed") name (Some p) (u "failed"));;
       raise e).
Definition install_public_key (name : str) (p : ServerProfile) (key : str) : P (bool * bool) :=
  checked (validate_public_key_line key);;
  correlation ← (r ← raised (ask GToken); match r with GHex t => mret t | _ => hang end);
  plan ← checked (build_public_key_install_plan key correlation);
  started ← record (u "public_key_install_started") name (Some p) (u "started");
  id ← noted name p
    (opened ← request (u "session.open") [(u "profile_name", VStr name)];
     checked (opened_session (u "broker returned no valid setup session") opened));
  was_new ← try_finally (noted name p (run_install id plan)) (close_session id);
  done ← record (u "public_key_install_completed") name (Some p) completed;
  mret (was_new, combine [started; done]).

Definition validate_key_transition (password_profile key_profile : ServerProfile) : res unit :=
  raise_if (negb (bool_decide (authentication password_profile = INTERACTIVE_PASSWORD)))
    (value_error (u "public-key installation requires an interactive password profile"));;
  raise_if (negb (bool_decide (authentication key_profile = OPENSSH)))
    (value_error (u "the resulting profile must use OpenSSH authentication"));;
  raise_if (is_None (identity_file key_profile)) (value_error (u "the resulting profile must select a private key file"));;
  raise_if (negb (bool_decide (connection_type password_profile = connection_type key_profile ∧
                               ssh_host password_profile = ssh_host key_profile ∧
                               ConfigModel.host password_profile = ConfigModel.host key_profile ∧
                               port password_profile = port key_profile ∧ user password_profile = user key_profile)))
    (value_error (u "password and key profiles must refer to the same SSH target")).
Definition rollback_local_profile (original : ServerOpsConfig) (owned : str) : P LocalRollbackStatus :=
  try_except
    (current ← ask_snapshot GLoad;
     if negb (str_eqb (content_hash current) owned) then mret SKIPPED_CONCURRENT_CHANGE
     else ask_snapshot (GSave original (Some owned));; mret ROLLED_BACK)
    (fun e => if is_ordinary e then mret ROLLBACK_FAILED else raise e).
(** The handlers of the transition: [owned] is the hash of its last write, and
    [was_new] what is known of the installed key. *)
Definition guarded {A} (original : ServerOpsConfig) (owned : str) (was_new : option bool) (m : P A) : P A :=
  try_except m
    (fun e =>
       rollback ← rollback_local_profile original owned;
       match e, was_new with
       | InstallUnknown _ _, _ => raise (install_unknown (u "The public key installation outcome is unknown.") (Some rollback))
       | _, Some b => raise (TransitionFailed rollback b)
       | _, None => raise e
       end).
Definition conflict (m : str) : exn := controlled ConfigConflictError m.
Definition install_public_key_and_switch (name : str) (password_profile key_profile : ServerProfile) (key : str)
    (replace_existing : bool) : P (dict value) :=
  checked (validate_key_transition password_profile key_profile);;
  original ← ask_snapshot GLoad;
  checked (raise_if (negb (Bool.eqb replace_existing (dhas (profiles (config original)) name)))
             (conflict (u "profile was expected to " ++ (if replace_existing then u "exist" else u "not exist") ++ u ": " ++ name)));;
  staged ← checked (with_profile (config original) name password_profile);
  staging ← ask_snapshot (GSave staged (Some (content_hash original)));
  let guard A := guarded (A := A) (config original) in
  installed ← guard _ (content_hash staging) None (install_public_key name password_profile key);
  switched ← guard _ (content_hash staging) (Some installed.1)
    (c ← checked (with_profile (config staging) name key_profile);
     ask_snapshot (GSave c (Some (content_hash staging))));
  guard _ (content_hash switched) (Some installed.1)
    (tested ← test name;
     current ← ask_snapshot GLoad;
     checked (raise_if (negb (str_eqb (content_hash current) (content_hash switched)))
                (conflict (u "configuration changed while the fresh key login was being tested")));;
     mutation ← record (if replace_existing then u "profile_updated" else u "profile_created") name (Some key_profile) completed;
     mret (attach (combine [installed.2; from_result tested; mutation])
             [(u "profile", VDict (profile_details name key_profile)); (u "public_key_installed", VBool true);
              (u "public_key_was_new", VBool installed.1); (u "key_login_tested", VBool true)])).
End operations.
