(* ===== verification/KeySwitch.v ===== *)
(** * KeySwitch: what a key transition does to the configuration (setup/operations.py)

    [install_public_key_and_switch] writes the configuration up to three times
    while others may write it too.  The theorem follows its calls: every write
    names the content it replaces, and the error it ends with says truly what
    became of the profile and of the key. *)
From S2P Require Import Prelude Errors Text TextFacts Regex Prog ConfigModel BrokerModel AuditedCalls PublicKey Repository ProfileSetup Value.

Section switching.
Context {U : UnicodeDB}.
Variables (name : str) (password_profile key_profile : ServerProfile) (key : str).
Abbreviation IO := (io unit setup_call setup_reply).

(** What was loaded first; the last write and what the store made of it; the
    hash of the last load; the token; and what the server said of the key *)
Record switch_phase := Ph {
  origin : option ConfigSnapshot; written : option (ServerOpsConfig * ConfigSnapshot); seen : option str;
  token : option str; key_was_new : option bool }.
Definition owned (ph : switch_phase) : option str := content_hash ∘ snd <$> written ph.
(** The answer of a successful installation under this token *)
Definition installed_by (correlation : option str) (d : dict value) : option bool :=
  match correlation with
  | Some t =>
      if eq_str (vget d (u "status")) completed && eq_int (vget d (u "exit_code")) 0
      then parse (Plan [] (marker_of t) []) (as_str (vget d (u "output"))) else None
  | None => None
  end.
(** A write is the staged profile over what was loaded first, the key profile
    over what was staged and once the key is installed, or what was loaded
    first over the last write and once that was seen to be in place. *)
Definition save_allowed (ph : switch_phase) (c : ServerOpsConfig) (expected : option str) : Prop :=
  ∃ o, origin ph = Some o ∧
    ((written ph = None ∧ expected = Some (content_hash o) ∧ with_profile (config o) name password_profile = Ok c) ∨
     (∃ w b, written ph = Some w ∧ expected = Some (content_hash w.2) ∧ key_was_new ph = Some b ∧
             with_profile (config w.2) name key_profile = Ok c) ∨
     (∃ w, written ph = Some w ∧ expected = Some (content_hash w.2) ∧ seen ph = expected ∧ c = config o)).
Definition allowed (ph : switch_phase) (c : setup_call) : Prop :=
  match c with
  | GLoad | GRecord _ _ _ _ | GToken => True
  | GSave c expected => save_allowed ph c expected
  | GRequest kind payload =>
      kind = u "session.open" ∨ kind = u "session.close" ∨
      (kind = u "session.exec" ∧ is_some (written ph) = true ∧
       ∃ t plan, token ph = Some t ∧ build_public_key_install_plan key t = Ok plan ∧
                 vget payload (u "command") = VStr (command plan))
  | GUpdate _ | GRemove _ _ | GGenerate _ => False
  end.
Definition after (ph : switch_phase) (c : setup_call) (a : res setup_reply) : switch_phase :=
  match c, a with
  | GLoad, Ok (GSnapshot s) =>
      Ph (match origin ph with None => Some s | o => o end) (written ph) (Some (content_hash s)) (token ph) (key_was_new ph)
  | GSave c _, Ok (GSnapshot s) => Ph (origin ph) (Some (c, s)) (seen ph) (token ph) (key_was_new ph)
  | GToken, Ok (GHex t) => Ph (origin ph) (written ph) (seen ph) (Some t) (key_was_new ph)
  | GRequest kind _, Ok (GResult d) =>
      if str_eqb kind (u "session.exec") then Ph (origin ph) (written ph) (seen ph) (token ph) (installed_by (token ph) d) else ph
  | _, _ => ph
  end.

Context (tr : list setup_call) (scr : list (res setup_reply)).
Abbreviation opening := (Ph None None None None None).
Abbreviation stuck := (obeyed (State := unit) allowed after tr scr opening).
(** The phase the calls are in satisfies [φ]. *)
Definition in_phase (φ : switch_phase → Prop) (s : IO) : Prop := ∃ ph, at_phase (State := unit) allowed after tr scr opening ph s ∧ φ ph.
Definition is_raised (f : failure) : Prop := match f with Raised _ => True | _ => False end.
Lemma in_phase_stuck φ s : in_phase φ s → stuck s.
Proof. intros (ph & H & _). by eapply at_phase_obeyed. Qed.
Lemma in_phase_impl φ ψ s : in_phase φ s → (∀ ph, φ ph → ψ ph) → in_phase ψ s.
Proof. intros (ph & H & Hφ) Hi. exists ph. auto. Qed.
(** A call *)
Lemma triple_phase (φ : switch_phase → Prop) c ψ :
  (∀ ph, φ ph → allowed ph c) → (∀ ph e, φ ph → after ph c (Err e) = ph) →
  (∀ ph a, φ ph → ψ a (after ph c (Ok a))) →
  triple stuck (in_phase φ) (raised (ask c)) (fun a => in_phase (ψ a)) (fun f s => in_phase φ s ∧ is_raised f).
Proof.
  intros Hc He Hψ s (ph & Hs & Hφ).
  pose proof (triple_monitored (State := unit) allowed after tr scr opening ph c
    (fun a => at_phase allowed after tr scr opening (after ph c (Ok a)))
    (fun e => at_phase allowed after tr scr opening (after ph c (Err e))) (Hc ph Hφ) ltac:(done) ltac:(done) s Hs) as H.
  unfold raised. destruct (ask c s) as [[a|e|] s']; [|rewrite (He ph e Hφ) in H; split; [by exists ph|done]|exact H].
  exists (after ph c (Ok a)). auto.
Qed.
Lemma triple_pure_right {A} (φ : Prop) pre (m : prog failure IO A) Q R :
  (φ → triple stuck pre m Q R) → triple stuck (fun s => pre s ∧ φ) m Q R.
Proof. intros H s [Hs Hφ]. by apply H. Qed.
(** A check *)
Lemma triple_checked {A B} (r : res A) (m : A → prog failure IO B) φ Q R :
  (∀ a, r = Ok a → triple stuck (in_phase φ) (m a) Q R) → (∀ f s, in_phase φ s ∧ is_raised f → R f s) →
  triple stuck (in_phase φ) (checked r ≫= m) Q R.
Proof. intros Hm HR s Hs. destruct r as [a|e]; [by apply Hm|by apply (HR (Raised e) s)]. Qed.
Abbreviation steady φ m := (triple stuck (in_phase φ) m (fun _ => in_phase φ) (fun f s => in_phase φ s ∧ is_raised f)).
(** Only what is not an exception gets out of the log and of closing. *)
Definition is_fatal (f : failure) : Prop := match f with Raised e => is_exception e = false | _ => False end.
Abbreviation calm φ m := (triple stuck (in_phase φ) m (fun _ => in_phase φ) (fun f s => in_phase φ s ∧ is_fatal f)).
Lemma only_fatal {A} φ (a : A) f s :
  in_phase φ s ∧ is_raised f →
  match (if is_ordinary f then mret a else raise f : prog failure IO A) s with
  | (Ret _, s') => in_phase φ s' | (Raise e, s') => in_phase φ s' ∧ is_fatal e | (Hang, s') => stuck s'
  end.
Proof. intros [Hs Hf]. destruct f as [e| |]; try done. cbn. destruct (is_exception e) eqn:E; [exact Hs|by split]. Qed.
Lemma calm_record φ action n p status : calm φ (record action n p status).
Proof.
  unfold record. apply (triple_try _ _ _ _ _ (fun f s => in_phase φ s ∧ is_raised f)).
  - eapply (triple_bind _ _ _ _ (fun _ => in_phase φ)).
    + by apply (triple_phase φ _ (fun _ => φ)).
    + intros [|sn|d|b|t|k] s Hs; first [exact Hs | by eapply in_phase_stuck].
  - intros f s Hs. by apply only_fatal.
Qed.
Lemma steady_request φ kind payload :
  kind = u "session.open" ∨ kind = u "session.close" → steady φ (request kind payload).
Proof.
  intros Hk. unfold request. eapply (triple_bind _ _ _ _ (fun _ => in_phase φ)).
  - apply (triple_phase φ _ (fun _ => φ)); [|done|].
    + intros ph _. cbn. destruct Hk as [-> | ->]; auto.
    + intros ph a Hφ. destruct Hk as [-> | ->]; by destruct a.
  - intros [|sn|d|b|t|k] s Hs; first [exact Hs | by eapply in_phase_stuck].
Qed.
Lemma calm_close φ id : calm φ (close_session id).
Proof.
  unfold close_session. apply (triple_try _ _ _ _ _ (fun f s => in_phase φ s ∧ is_raised f)).
  - eapply (triple_bind _ _ _ _ (fun _ => in_phase φ)); [apply steady_request; by right|]. intros d. by apply triple_ret.
  - intros f s Hs. by apply only_fatal.
Qed.
Lemma switch_load φ ψ :
  (∀ ph s, φ ph → ψ s (after ph GLoad (Ok (GSnapshot s)))) →
  triple stuck (in_phase φ) (ask_snapshot GLoad) (fun s => in_phase (ψ s)) (fun f s => in_phase φ s ∧ is_raised f).
Proof.
  intros Hψ. unfold ask_snapshot.
  eapply (triple_bind _ _ _ _ (fun a => in_phase (fun ph => ∃ ph0, φ ph0 ∧ ph = after ph0 GLoad (Ok a)))).
  - apply (triple_phase φ GLoad); [done|done|]. intros ph a Hφ. by exists ph.
  - intros [|sn|d|b|t|k] s Hs; try by eapply in_phase_stuck. eapply in_phase_impl; [exact Hs|]. intros ph (ph0 & H0 & ->). by apply Hψ.
Qed.
Lemma triple_save φ c expected ψ :
  (∀ ph, φ ph → save_allowed ph c expected) →
  (∀ ph s, φ ph → ψ s (Ph (origin ph) (Some (c, s)) (seen ph) (token ph) (key_was_new ph))) →
  triple stuck (in_phase φ) (ask_snapshot (GSave c expected)) (fun s => in_phase (ψ s)) (fun f s => in_phase φ s ∧ is_raised f).
Proof.
  intros Hc Hψ. unfold ask_snapshot.
  eapply (triple_bind _ _ _ _ (fun a => in_phase (fun ph => ∃ ph0, φ ph0 ∧ ph = after ph0 (GSave c expected) (Ok a)))).
  - apply (triple_phase φ (GSave c expected)); [exact Hc|done|]. intros ph a Hφ. by exists ph.
  - intros [|sn|d|b|t|k] s Hs; try by eapply in_phase_stuck. eapply in_phase_impl; [exact Hs|]. intros ph (ph0 & H0 & ->). by apply Hψ.
Qed.

(** ** Conditions *)
(** [w] was written last over the loaded [o]. *)
Definition wrote (o : ConfigSnapshot) (w : ServerOpsConfig * ConfigSnapshot) (b : option bool) (ph : switch_phase) : Prop :=
  origin ph = Some o ∧ written ph = Some w ∧ key_was_new ph = b.
(** What a reported rollback says of the configuration *)
Definition truth (r : LocalRollbackStatus) (ph : switch_phase) : Prop :=
  match r with
  | ROLLED_BACK => ∃ o w, origin ph = Some o ∧ written ph = Some w ∧ w.1 = config o
  | SKIPPED_CONCURRENT_CHANGE => ∃ w h, written ph = Some w ∧ seen ph = Some h ∧ h ≠ content_hash w.2
  | ROLLBACK_FAILED => True
  end.
(** What an error says of the key and of the configuration *)
Definition verdict (f : failure) (ph : switch_phase) : Prop :=
  match f with
  | Raised e => is_exception e = true → key_was_new ph = None
  | InstallUnknown rollback _ => key_was_new ph = None ∧ ∃ r, rollback = Some r ∧ truth r ph
  | TransitionFailed rollback b => key_was_new ph = Some b ∧ truth rollback ph
  end.
Lemma fatal_verdict f ph : is_fatal f → verdict f ph.
Proof. destruct f as [e| |]; cbn; [by intros ->|done|done]. Qed.
Lemma triple_rollback o w b :
  triple stuck (in_phase (wrote o w b)) (rollback_local_profile (config o) (content_hash w.2))
    (fun r => in_phase (fun ph => key_was_new ph = b ∧ truth r ph))
    (fun f s => in_phase (fun _ => True) s ∧ is_fatal f).
Proof.
  unfold rollback_local_profile.
  apply (triple_try _ _ _ _ _ (fun f s => in_phase (fun ph => key_was_new ph = b) s ∧ is_raised f)).
  - eapply (triple_bind _ _ _ _ (fun s => in_phase (fun ph => wrote o w b ph ∧ seen ph = Some (content_hash s)))).
    { eapply triple_raising; [apply switch_load|].
      - intros ph s (H1 & H2 & H3). cbn. rewrite H1. by repeat split.
      - intros f s [Hs Hf]. split; [|exact Hf]. eapply in_phase_impl; [exact Hs|]. by intros ph (_ & _ & ?). }
    intros current. unfold str_eqb. case_bool_decide as Eh; cbn [negb].
    + eapply (triple_bind _ _ _ _ (fun s => in_phase (fun ph => key_was_new ph = b ∧ truth ROLLED_BACK ph))).
      * eapply triple_raising; [apply triple_save|].
        -- intros ph ((H1 & H2 & H3) & Hseen). exists o. split; [exact H1|]. right. right. exists w.
           split_and!; [done|done|by rewrite Hseen, Eh|done].
        -- intros ph s ((H1 & H2 & H3) & _). split; [exact H3|]. by exists o, (config o, s).
        -- intros f s [Hs Hf]. split; [|exact Hf]. eapply in_phase_impl; [exact Hs|]. by intros ph ((_ & _ & ?) & _).
      * intros sn s Hs. exact Hs.
    + intros s Hs. eapply in_phase_impl; [exact Hs|]. intros ph ((H1 & H2 & H3) & Hseen). split; [exact H3|].
      by exists w, (content_hash current).
  - intros f s [Hs Hf]. destruct f as [e| |]; try done. cbn. destruct (is_exception e) eqn:E.
    + eapply in_phase_impl; [exact Hs|]. by intros ph ?.
    + split; [|exact E]. eapply in_phase_impl; [exact Hs|done].
Qed.

(** *** Handlers *)
(** How the body of a guard fails: with what is known of the key *)
Definition fails (o : ConfigSnapshot) (w : ServerOpsConfig * ConfigSnapshot) (was_new : option bool) (f : failure) (ph : switch_phase) : Prop :=
  origin ph = Some o ∧ written ph = Some w ∧
  match was_new with
  | Some b => key_was_new ph = Some b ∧ is_raised f
  | None => match f with
            | Raised e => is_exception e = true → key_was_new ph = None
            | InstallUnknown _ _ => key_was_new ph = None
            | TransitionFailed _ _ => False
            end
  end.
Lemma wrote_fails o w b f ph : wrote o w b ph → is_raised f → fails o w b f ph.
Proof. intros (H1 & H2 & H3) Hf. split; [exact H1|]. split; [exact H2|]. destruct b; [done|]. by destruct f. Qed.
Lemma fatal_fails o w b f ph : wrote o w b ph → is_fatal f → ∀ was_new, was_new = None ∨ was_new = b → fails o w was_new f ph.
Proof.
  intros (H1 & H2 & H3) Hf wn Hwn. split; [exact H1|]. split; [exact H2|]. destruct f as [e| |]; try done.
  destruct wn as [c|]; [|cbn in Hf; by rewrite Hf]. destruct Hwn as [|Hwn]; [done|]. split; [congruence|done].
Qed.
Lemma triple_guarded {A} o w was_new (m : prog failure IO A) pre Q :
  triple stuck pre m Q (fun f => in_phase (fails o w was_new f)) →
  triple stuck pre (guarded (config o) (content_hash w.2) was_new m) Q (fun f => in_phase (verdict f)).
Proof.
  intros Hm. unfold guarded. apply (triple_try _ _ _ _ _ (fun f => in_phase (fails o w was_new f))); [exact Hm|].
  intros f s (ph & Hs & Ho & Hw & Hkey).
  assert (in_phase (wrote o w (key_was_new ph)) s) as Hwrote by (by exists ph).
  pose proof (triple_rollback o w (key_was_new ph) s Hwrote) as H. unfold mbind, prog_mbind, prog_bind.
  destruct (rollback_local_profile _ _ s) as [[r|e|] s']; [|destruct H as [H Hf]; eapply in_phase_impl; [exact H|]; intros ph' _; by apply fatal_verdict|exact H].
  destruct f as [e|rb detail|rb b]; destruct was_new as [wn|]; try (by destruct Hkey);
    (eapply in_phase_impl; [exact H|]); intros ph' [Hk Ht]; cbn.
  - destruct Hkey as [Hkey _]. split; [congruence|done].
  - intros He. rewrite Hk. by apply Hkey.
  - split; [congruence|]. by exists r.
Qed.

(** *** Installing and testing *)
Lemma plan_marker t plan : build_public_key_install_plan key t = Ok plan → marker_prefix plan = marker_of t.
Proof. unfold build_public_key_install_plan. intros H. inv_ok H. by apply Ok_inj in H as <-. Qed.
Definition tokened o w t (ph : switch_phase) : Prop := wrote o w None ph ∧ token ph = Some t.
Lemma triple_run_install o w t id plan :
  build_public_key_install_plan key t = Ok plan →
  triple stuck (in_phase (tokened o w t)) (run_install id plan)
    (fun b => in_phase (wrote o w (Some b))) (fun f => in_phase (fails o w None f)).
Proof.
  intros Hplan. unfold run_install.
  assert (∀ m : str, ∀ ph, wrote o w None ph → fails o w None (install_unknown m None) ph) as Hun
    by (intros m ph (H1 & H2 & H3); split_and!; done).
  eapply (triple_bind _ _ _ _ (fun d => in_phase (wrote o w (installed_by (Some t) d)))).
  - apply (triple_try _ _ _ _ _ (fun f s => in_phase (tokened o w t) s ∧ is_raised f)).
    + unfold request. eapply (triple_bind _ _ _ _ (fun a => in_phase (fun ph => ∀ d, a = GResult d → wrote o w (installed_by (Some t) d) ph))).
      * apply (triple_phase (tokened o w t) _); [|done|].
        -- intros ph ((H1 & H2 & H3) & Ht). right. right. split; [done|]. split; [by rewrite H2|]. by exists t, plan.
        -- intros ph a ((H1 & H2 & H3) & Ht) d ->. cbn. by rewrite Ht.
      * intros [|sn|d|b|h|k] s Hs; try by eapply in_phase_stuck. eapply in_phase_impl; [exact Hs|]. auto.
    + intros f s [Hs Hf]. destruct (is_outcome_unknown (failure_code f));
        (eapply in_phase_impl; [exact Hs|]); intros ph [H _]; [by apply Hun|by eapply wrote_fails].
  - intros d. unfold installed_by. destruct (eq_str _ _) eqn:E1; destruct (eq_int _ _) eqn:E2; cbn [negb orb andb];
      try (apply triple_raise; intros s Hs; eapply in_phase_impl; [exact Hs|]; intros ph H; by apply Hun).
    assert (∀ out, parse plan out = parse (Plan [] (marker_of t) []) out) as Hparse
      by (intros out; unfold parse; by rewrite (plan_marker t plan Hplan)).
    rewrite Hparse. destruct (parse _ _) as [b|]; [by apply triple_ret|].
    apply triple_raise. intros s Hs. eapply in_phase_impl; [exact Hs|]. intros ph H. by apply Hun.
Qed.
Lemma triple_noted {A} o w p (m : prog failure IO A) pre Q :
  triple stuck pre m Q (fun f => in_phase (fails o w None f)) →
  triple stuck pre (noted name p m) Q (fun f => in_phase (fails o w None f)).
Proof.
  intros Hm. unfold noted. apply (triple_try _ _ _ _ _ (fun f => in_phase (fails o w None f))); [exact Hm|].
  intros f. assert (∀ m' : prog failure IO bool, calm (fails o w None f) m' →
    triple stuck (in_phase (fails o w None f)) (m';; raise f : prog failure IO A) Q (fun f' => in_phase (fails o w None f'))) as Hgo.
  { intros m' Hm'. eapply (triple_bind _ _ _ _ (fun _ => in_phase (fails o w None f))); [|intros u; by apply triple_raise].
    eapply triple_raising; [exact Hm'|]. intros e s [Hs He]. eapply in_phase_impl; [exact Hs|].
    intros ph (H1 & H2 & _). split; [exact H1|]. split; [exact H2|]. destruct e as [e| |]; try done. cbn in He |- *. by rewrite He. }
  destruct (is_outcome_unknown _); apply Hgo, calm_record.
Qed.
Lemma triple_install o w p :
  triple stuck (in_phase (wrote o w None)) (install_public_key name p key)
    (fun r => in_phase (wrote o w (Some r.1))) (fun f => in_phase (fails o w None f)).
Proof.
  assert (∀ φ, (∀ ph, φ ph → wrote o w None ph) → ∀ f s, in_phase φ s ∧ is_raised f → in_phase (fails o w None f) s) as Hraised.
  { intros φ Hφ f s [Hs Hf]. eapply in_phase_impl; [exact Hs|]. intros ph H. by eapply wrote_fails, Hf; apply Hφ. }
  assert (∀ φ (b : bool) f s, (∀ ph, φ ph → wrote o w (Some b) ph ∨ wrote o w None ph) → in_phase φ s ∧ is_fatal f → in_phase (fails o w None f) s) as Hfatal.
  { intros φ b f s Hφ [Hs Hf]. eapply in_phase_impl; [exact Hs|]. intros ph H.
    destruct (Hφ ph H) as [H'|H']; (eapply fatal_fails; [exact H'|exact Hf|by left]). }
  unfold install_public_key. apply triple_checked; [|exact (Hraised _ (fun _ H => H))]. intros line _.
  eapply (triple_bind _ _ _ _ (fun t => in_phase (tokened o w t))).
  { eapply (triple_bind _ _ _ _ (fun a => in_phase (fun ph => ∀ t, a = GHex t → tokened o w t ph))).
    - eapply triple_raising; [apply (triple_phase (wrote o w None) GToken); [done|done|]|exact (Hraised _ (fun _ H => H))].
      intros ph a (H1 & H2 & H3) t ->. by repeat split.
    - intros [|sn|d|b|h|k] s Hs; try by eapply in_phase_stuck. eapply in_phase_impl; [exact Hs|]. auto. }
  intros t. assert (∀ ph, tokened o w t ph → wrote o w None ph) as Htok by (by intros ph [? _]).
  apply triple_checked; [|exact (Hraised _ Htok)]. intros plan Hplan.
  eapply (triple_bind _ _ _ _ (fun _ => in_phase (tokened o w t))).
  { eapply triple_raising; [apply calm_record|]. intros f s. apply (Hfatal _ true). auto. }
  intros started. eapply (triple_bind _ _ _ _ (fun _ => in_phase (tokened o w t))).
  { apply triple_noted. eapply (triple_bind _ _ _ _ (fun _ => in_phase (tokened o w t))).
    - eapply triple_raising; [apply steady_request; by left|exact (Hraised _ Htok)].
    - intros d s Hs. unfold checked, raised, lift. destruct (opened_session _ d) as [i|e]; [exact Hs|by apply (Hraised (tokened o w t) Htok (Raised e))]. }
  intros id. eapply (triple_bind _ _ _ _ (fun b => in_phase (wrote o w (Some b)))).
  { apply triple_finally; [by apply triple_noted, triple_run_install| |].
    - intros b. eapply triple_raising; [apply calm_close|]. intros f s. apply (Hfatal _ b). auto.
    - intros f. eapply triple_raising; [apply calm_close|]. intros e s [Hs He]. eapply in_phase_impl; [exact Hs|].
      intros ph (H1 & H2 & _). split; [exact H1|]. split; [exact H2|]. destruct e as [e| |]; try done. cbn in He |- *. by rewrite He. }
  intros b. eapply (triple_bind _ _ _ _ (fun _ => in_phase (wrote o w (Some b)))).
  { eapply triple_raising; [apply calm_record|]. intros f s. apply (Hfatal _ b). auto. }
  intros done. apply triple_ret. auto.
Qed.
Lemma steady_fatal φ {A} (m : prog failure IO A) : calm φ m → steady φ m.
Proof.
  intros Hm. eapply triple_raising; [exact Hm|]. intros f s [Hs Hf]. split; [exact Hs|]. by destruct f.
Qed.
Lemma steady_checked φ {A B} (r : res A) (m : A → prog failure IO B) :
  (∀ a, r = Ok a → steady φ (m a)) → steady φ (checked r ≫= m).
Proof. intros Hm. by apply triple_checked. Qed.
Lemma steady_test o w b : steady (wrote o w b) (test name).
Proof.
  unfold test. apply steady_checked. intros [] _. eapply (triple_bind _ _ _ _ (fun _ => in_phase (wrote o w b))).
  { apply switch_load. intros ph s (H1 & H2 & H3). cbn. rewrite H1. by repeat split. }
  intros sn. apply steady_checked. intros p _.
  eapply (triple_bind _ _ _ _ (fun _ => in_phase (wrote o w b))); [apply steady_fatal, calm_record|]. intros started.
  eapply (triple_bind _ _ _ _ (fun _ => in_phase (wrote o w b))).
  { apply (triple_try _ _ _ _ _ (fun f s => in_phase (wrote o w b) s ∧ is_raised f)).
    - eapply (triple_bind _ _ _ _ (fun _ => in_phase (wrote o w b))); [apply steady_request; by left|]. intros d.
      apply steady_checked. intros id _. by apply triple_ret.
    - intros f. apply triple_pure_right. intros Hf.
      eapply (triple_bind _ _ _ _ (fun _ => in_phase (wrote o w b))); [apply steady_fatal, calm_record|]. intros u. by apply triple_raise. }
  intros session. eapply (triple_bind _ _ _ _ (fun _ => in_phase (wrote o w b))); [apply steady_fatal, calm_close|]. intros u.
  eapply (triple_bind _ _ _ _ (fun _ => in_phase (wrote o w b))); [apply steady_fatal, calm_record|]. intros done. by apply triple_ret.
Qed.
End switching.

Section transition.
Context {U : UnicodeDB}.
Variables (name : str) (password_profile key_profile : ServerProfile) (key : str) (replace_existing : bool).
Context (tr : list setup_call) (scr : list (res setup_reply)).
Abbreviation IO := (io unit setup_call setup_reply).
Abbreviation in_ φ := (in_phase name password_profile key_profile key tr scr φ).
Abbreviation opening := (Ph None None None None None).
Abbreviation stuck := (obeyed (State := unit) (allowed name password_profile key_profile key) after tr scr opening).
(** The key profile is in place, and was so after its login was tested. *)
Definition switched (d : dict value) (ph : switch_phase) : Prop :=
  ∃ w b base, written ph = Some w ∧ seen ph = Some (content_hash w.2) ∧ key_was_new ph = Some b ∧
    with_profile base name key_profile = Ok w.1 ∧ vget d (u "public_key_was_new") = VBool b.
Lemma early_verdict φ f s : (∀ ph, φ ph → key_was_new ph = None) → in_ φ s ∧ is_raised f → in_ (verdict f) s.
Proof. intros Hφ [Hs Hf]. eapply in_phase_impl; [exact Hs|]. intros ph H. destruct f as [e| |]; try done. intros _. by apply Hφ. Qed.
Lemma triple_switch :
  triple stuck (in_ (fun ph => ph = opening))
    (install_public_key_and_switch name password_profile key_profile key replace_existing)
    (fun d => in_ (switched d)) (fun f => in_ (verdict f)).
Proof.
  unfold install_public_key_and_switch.
  assert (∀ f s, in_ (fun ph => ph = opening) s ∧ is_raised f → in_ (verdict f) s) as H0 by (intros f s; apply early_verdict; by intros ph ->).
  apply triple_checked; [|exact H0]. intros [] _.
  eapply (triple_bind _ _ _ _ (fun o => in_ (fun ph => ph = Ph (Some o) None (Some (content_hash o)) None None))).
  { eapply triple_raising; [apply switch_load|exact H0]. by intros ph s ->. }
  intros o. set (loaded := fun ph => ph = _).
  assert (∀ f s, in_ loaded s ∧ is_raised f → in_ (verdict f) s) as H1 by (intros f s; apply early_verdict; by intros ph ->).
  apply triple_checked; [|exact H1]. intros [] _. apply triple_checked; [|exact H1]. intros staged Hstaged.
  eapply (triple_bind _ _ _ _ (fun staging => in_ (wrote o (staged, staging) None))).
  { eapply triple_raising; [apply triple_save|exact H1].
    - intros ph ->. exists o. split; [done|]. by left.
    - intros ph s ->. by repeat split. }
  intros staging. eapply triple_bind.
  { apply (triple_guarded _ _ _ _ _ _ o (staged, staging) None). apply triple_install. }
  intros [b audit]. cbn [fst snd].
  eapply (triple_bind _ _ _ _ (fun sw => in_ (fun ph => ∃ c, with_profile (config staging) name key_profile = Ok c ∧ wrote o (c, sw) (Some b) ph))).
  { apply (triple_guarded _ _ _ _ _ _ o (staged, staging) (Some b)).
    assert (∀ f s, in_ (wrote o (staged, staging) (Some b)) s ∧ is_raised f → in_ (fails o (staged, staging) (Some b) f) s) as H2.
    { intros f s [Hs Hf]. eapply in_phase_impl; [exact Hs|]. intros ph H. by apply wrote_fails. }
    apply triple_checked; [|exact H2]. intros c Hc. eapply triple_raising; [apply triple_save|exact H2].
    - intros ph (Ho & Hw & Hk). exists o. split; [exact Ho|]. right. left. by exists (staged, staging), b.
    - intros ph s (Ho & Hw & Hk). exists c. split; [exact Hc|]. by repeat split. }
  intros sw s (ph & Hs & c & Hc & Hw). revert s Hs.
  enough (triple stuck (in_ (wrote o (c, sw) (Some b)))
    (guarded (config o) (content_hash sw) (Some b)
       (tested ← test name; current ← ask_snapshot GLoad;
        checked (raise_if (negb (str_eqb (content_hash current) (content_hash sw)))
                   (conflict (u "configuration changed while the fresh key login was being tested")));;
        mutation ← record (if replace_existing then u "profile_updated" else u "profile_created") name (Some key_profile) completed;
        mret (attach (combine [audit; from_result tested; mutation])
                [(u "profile", VDict (profile_details name key_profile)); (u "public_key_installed", VBool true);
                 (u "public_key_was_new", VBool b); (u "key_login_tested", VBool true)])))
    (fun d => in_ (switched d)) (fun f => in_ (verdict f))) as H by (intros s Hs; apply (H s); by exists ph).
  apply (triple_guarded _ _ _ _ _ _ o (c, sw) (Some b)).
  assert (∀ φ f s, (∀ ph, φ ph → wrote o (c, sw) (Some b) ph) → in_ φ s ∧ is_raised f → in_ (fails o (c, sw) (Some b) f) s) as H3.
  { intros φ f s Hφ [Hs Hf]. eapply in_phase_impl; [exact Hs|]. intros ph' H. apply wrote_fails; [by apply Hφ|exact Hf]. }
  eapply (triple_bind _ _ _ _ (fun _ => in_ (wrote o (c, sw) (Some b)))).
  { eapply triple_raising; [apply steady_test|]. intros f s. by apply H3. }
  intros tested. eapply (triple_bind _ _ _ _ (fun cur => in_ (fun ph => wrote o (c, sw) (Some b) ph ∧ seen ph = Some (content_hash cur)))).
  { eapply triple_raising; [apply switch_load|intros f s; by apply H3].
    intros ph' s (H1' & H2' & H3'). cbn. rewrite H1'. by repeat split. }
  intros current. apply triple_checked; [|intros f s; apply H3; by intros ph' [? _]].
  intros [] Heq. apply raise_if_Ok, negb_false_iff in Heq. unfold str_eqb in Heq. apply bool_decide_eq_true in Heq.
  eapply (triple_bind _ _ _ _ (fun _ => in_ (fun ph => wrote o (c, sw) (Some b) ph ∧ seen ph = Some (content_hash current)))).
  { eapply triple_raising; [apply steady_fatal, calm_record|intros f s; apply H3; by intros ph' [? _]]. }
  intros mutation. apply triple_ret. intros s Hs. eapply in_phase_impl; [exact Hs|].
  intros ph' [(H1' & H2' & H3') Hseen]. exists (c, sw), b, (config staging).
  split_and!; [done|by rewrite Hseen, Heq|done|done|reflexivity].
Qed.
End transition.


(** The connection breaks after the command was sent: the profile is rolled back
    and the error says that the installation is unknown. *)
Definition sample_key : str :=
  u "ssh-ed25519 " ++ b64_encode ([0; 0; 0; 11] ++ u "ssh-ed25519" ++ [0; 0; 0; 32] ++ repeat 7 32).
Definition sample_password_profile : ServerProfile :=
  Profile (u "Web") DIRECT INTERACTIVE_PASSWORD None (Some (u "web.example")) (Some 22) (Some (u "deploy")) None []
    true false false DISABLED false (u "test") 60 65536.
Definition sample_key_profile : ServerProfile :=
  Profile (u "Web") DIRECT OPENSSH None (Some (u "web.example")) (Some 22) (Some (u "deploy")) (Some (u "C:\key")) []
    true false false DISABLED false (u "test") 60 65536.
Definition sample_snapshot (h : str) : ConfigSnapshot := Snapshot (Config [] CONFIG_SCHEMA_VERSION) h.
Example broken_install_rolls_back :
  (install_public_key_and_switch (U := ascii_db) (u "web") sample_password_profile sample_key_profile sample_key false
     (Io tt [Ok (GSnapshot (sample_snapshot (u "h0"))); Ok (GSnapshot (sample_snapshot (u "h1")));
             Ok (GHex (u "00112233445566778899aabbccddeeff")); Ok (GLogged true);
             Ok (GResult [(u "session_id", VStr (u "sess-0123456789abcdef"))]);
             Err (coded BrokerOutcomeUnknown (u "outcome_unknown") []); Ok (GLogged true); Ok (GResult []);
             Ok (GSnapshot (sample_snapshot (u "h1"))); Ok (GSnapshot (sample_snapshot (u "h0")))] [])).1
  = Raise (install_unknown (u "The public key installation outcome is unknown.") (Some ROLLED_BACK)).
Proof. vm_compute. reflexivity. Qed.
