(* ===== verification/ManagedBlock.v ===== *)
(** * ManagedBlock: text between two markers (setup/ssh_alias.py, installer/codex_config.py)

    The OpenSSH configuration and the Codex configuration each carry one block
    of their own between two comment lines.  Both programs look for it in the
    same way and replace the file in the same way; this file has the search, the
    write, and the facts about them that the two plans share. *)
From S2P Require Import Prelude Errors Text TextFacts Prog Repository.

(** ** Occurrences *)
(** How often [p] starts at some position of [s] *)
Fixpoint occurrences (p s : str) : nat :=
  match s with
  | [] => 0
  | c :: s' => (if starts_with p s then 1 else 0) + occurrences p s'
  end.
(** A marker starts with a number sign and has no other. *)
Definition marker (p : str) : Prop := ∃ q, p = 35 :: q ∧ lacks 35 q = true.
Definition at_mark (s : str) : Prop := s = [] ∨ ∃ t, s = 35 :: t.

Lemma at_mark_nil : at_mark [].
Proof. by left. Qed.
Lemma at_mark_marker p s : marker p → at_mark (p ++ s).
Proof. intros (q & -> & _). right. by exists (q ++ s). Qed.
#[export] Hint Resolve at_mark_nil at_mark_marker : core.

Lemma starts_with_nomark p c s : marker p → c ≠ 35 → starts_with p (c :: s) = false.
Proof. intros (q & -> & _) Hc. cbn [starts_with]. by rewrite (proj2 (Z.eqb_neq _ _)) by congruence. Qed.
Lemma lacks_cons c x s : lacks c (x :: s) = negb (x =? c) && lacks c s.
Proof. reflexivity. Qed.
Lemma lacks_append c a b : lacks c (a ++ b) = lacks c a && lacks c b.
Proof. apply forallb_app. Qed.
Lemma occurrences_lacks p w s : marker p → lacks 35 w = true → occurrences p (w ++ s) = occurrences p s.
Proof.
  intros Hp. induction w as [|c w IH]; intros Hw; [done|]. rewrite lacks_cons in Hw.
  apply andb_true_iff in Hw as [Hc Hw]. apply negb_true_iff, Z.eqb_neq in Hc.
  cbn [app occurrences]. rewrite starts_with_nomark by done. by apply IH.
Qed.
Lemma lacks_none p w : marker p → lacks 35 w = true → occurrences p w = 0%nat.
Proof. intros Hp Hw. rewrite <- (app_nil_r w). by rewrite occurrences_lacks. Qed.

(** [s] starts with no character in the middle of [p]: an occurrence of [p] that
    starts before [s] then ends before it too. *)
Definition fits (p s : str) : Prop := match s with [] => True | c :: _ => c ∉ tail p end.
Lemma fits_mark p s : marker p → at_mark s → fits p s.
Proof.
  intros (q & -> & Hq) [->|[t ->]]; [done|]. cbn. intros Hin%list_elem_of_In. unfold lacks in Hq. rewrite forallb_forall in Hq.
  by specialize (Hq 35 Hin).
Qed.
#[export] Hint Resolve fits_mark : core.
Lemma starts_with_within p c w s : fits p s → starts_with p ((c :: w) ++ s) = starts_with p (c :: w).
Proof.
  intros Hs. apply eq_true_iff_eq. rewrite !starts_with_spec. split.
  - intros [t Ht]. apply app_eq_app in Ht as [k [[Hx Hy]|[Hx Hy]]]; [by exists k|]. subst p.
    destruct k as [|x k]; [exists []; by rewrite !app_nil_r|]. subst s. cbn in Hs. destruct Hs. apply elem_of_app. right. by left.
  - intros [t ->]. exists (t ++ s). by rewrite <- app_assoc.
Qed.
Lemma occurrences_app p w s : fits p s → occurrences p (w ++ s) = (occurrences p w + occurrences p s)%nat.
Proof.
  intros Hs. induction w as [|c w IH]; [done|]. cbn [app occurrences]. rewrite IH.
  change (starts_with p (c :: w ++ s)) with (starts_with p ((c :: w) ++ s)). rewrite starts_with_within by done. lia.
Qed.
Lemma occurrences_self p s : marker p → occurrences p (p ++ s) = S (occurrences p s).
Proof.
  intros Hp. pose proof Hp as (q & -> & Hl). pose proof (starts_with_app (35 :: q) s) as Hs.
  cbn [app occurrences] in *. rewrite Hs. by rewrite occurrences_lacks.
Qed.
(** Another marker in front is no occurrence. *)
Definition apart (p q : str) : Prop := ∀ s, starts_with p (q ++ s) = false.
Lemma occurrences_other p q s : marker p → marker q → apart p q → occurrences p (q ++ s) = occurrences p s.
Proof.
  intros Hp (q' & -> & Hq) Hpq. specialize (Hpq s). cbn [app occurrences] in *. rewrite Hpq. by apply occurrences_lacks.
Qed.

(** [s.count(p)] counts the occurrences, which do not overlap. *)
Lemma count_occurrences p s : marker p → count p s = Z.of_nat (occurrences p s).
Proof.
  intros Hp. enough (∀ fuel acc, (length s < fuel)%nat → len (split_fuel fuel p s acc) = 1 + Z.of_nat (occurrences p s)) as H.
  { unfold count, split. rewrite H by lia. lia. }
  intros fuel. revert s. induction fuel as [|fuel IH]; intros s acc Hf; [lia|].
  destruct s as [|c s]; [done|]. rewrite split_fuel_step. cbn [length] in Hf.
  destruct (starts_with p (c :: s)) eqn:E.
  - apply starts_with_spec in E as [t E]. rewrite E, drop_prefix, len_cons, occurrences_self by done.
    rewrite IH; [lia|]. apply (f_equal length) in E. rewrite length_app in E. cbn [length] in E.
    destruct Hp as (? & -> & _). cbn [length] in E. lia.
  - cbn [occurrences]. rewrite E. rewrite IH by lia. lia.
Qed.
Lemma find_marker p w s : marker p → occurrences p w = 0%nat → find p (w ++ p ++ s) = Some (length w).
Proof.
  intros Hp. induction w as [|c w IH]; intros Hw.
  - cbn [app]. destruct Hp as (q & Hq & _). rewrite Hq at 2. cbn [app find]. change (35 :: q ++ s) with ((35 :: q) ++ s).
    rewrite <- Hq, starts_with_app. done.
  - cbn [app find]. cbn [occurrences] in Hw.
    change (c :: w ++ p ++ s) with ((c :: w) ++ p ++ s). rewrite starts_with_within by auto.
    destruct (starts_with p (c :: w)); [lia|]. rewrite IH by lia. done.
Qed.
Lemma find_split p s i : marker p → find p s = Some i →
  ∃ w t, s = w ++ p ++ t ∧ length w = i ∧ occurrences p w = 0%nat.
Proof.
  intros Hp. revert i. induction s as [|c s IH]; intros i H.
  - cbn [find] in H. destruct Hp as (q & -> & _). discriminate.
  - cbn [find] in H. destruct (starts_with p (c :: s)) eqn:E.
    + injection H as <-. apply starts_with_spec in E as [t E]. by exists [], t.
    + destruct (find p s) as [k|]; [|discriminate]. injection H as <-.
      destruct (IH k eq_refl) as (w & t & -> & Hk & Hw). exists (c :: w), t. split_and!; [done|cbn; lia|].
      cbn [occurrences]. rewrite Hw. change (c :: w ++ p ++ t) with ((c :: w) ++ p ++ t) in E.
      rewrite starts_with_within in E by auto. by rewrite E.
Qed.
Lemma find_once p s : marker p → occurrences p s = 1%nat → is_Some (find p s).
Proof.
  intros Hp. induction s as [|c s IH]; intros H; [discriminate|]. cbn [find]. cbn [occurrences] in H.
  destruct (starts_with p (c :: s)); [by eexists|]. destruct IH as [k ->]; [exact H|]. by eexists.
Qed.

(** Replacing one character *)
Lemma replace_one_cons a r c s : replace_all [a] r (c :: s) = (if a =? c then r else [c]) ++ replace_all [a] r s.
Proof. rewrite replace_all_cons by done. cbn [starts_with]. rewrite andb_true_r. by destruct (a =? c). Qed.
Lemma replace_one_app a r x y : replace_all [a] r (x ++ y) = replace_all [a] r x ++ replace_all [a] r y.
Proof. induction x as [|c x IH]; [done|]. cbn [app]. by rewrite !replace_one_cons, IH, app_assoc. Qed.
Lemma replace_one_lacks a r s : lacks a s = true → replace_all [a] r s = s.
Proof.
  induction s as [|c s IH]; intros H; [done|]. rewrite lacks_cons in H. apply andb_true_iff in H as [H1 H2].
  rewrite replace_one_cons, IH by done. apply negb_true_iff in H1. by rewrite Z.eqb_sym, H1.
Qed.
Lemma replace_one_Forall (P : Z → Prop) a r s : Forall P s → Forall P r → Forall P (replace_all [a] r s).
Proof.
  intros Hs Hr. induction Hs as [|c s Hc Hs IH]; [constructor|]. rewrite replace_one_cons. apply Forall_app. split; [|exact IH].
  destruct (a =? c); [exact Hr|by constructor].
Qed.
Lemma lacks_Forall c s : Forall (fun x => x ≠ c) s → lacks c s = true.
Proof. induction 1 as [|x s Hx Hs IH]; [done|]. by rewrite lacks_cons, IH, (proj2 (Z.eqb_neq _ _) Hx). Qed.
Lemma replace_join r l : Forall (fun w => lacks 10 w = true) l → replace_all [10] r (join [10] l) = join r l.
Proof.
  induction 1 as [|w l Hw Hl IH]; [done|]. destruct l as [|v l]; [by apply replace_one_lacks|].
  change (join [10] (w :: v :: l)) with (w ++ [10] ++ join [10] (v :: l)).
  change (join r (w :: v :: l)) with (w ++ r ++ join r (v :: l)). rewrite !replace_one_app, IH, (replace_one_lacks _ _ w) by done.
  by rewrite replace_one_cons, Z.eqb_refl, replace_all_nil, app_nil_r.
Qed.

(** The line ends of a text *)
Abbreviation has_crlf := (contains (cr ++ nl)).
Lemma contains_cons p c s : contains p (c :: s) = starts_with p (c :: s) || contains p s.
Proof.
  unfold contains. cbn [find]. destruct (starts_with p (c :: s)); [done|]. cbn [orb].
  apply bool_decide_ext. by rewrite fmap_is_Some.
Qed.
Lemma has_crlf_app w s : match s with 10 :: _ => False | _ => True end → has_crlf (w ++ s) = has_crlf w || has_crlf s.
Proof.
  intros Hs. induction w as [|c w IH]; [done|]. cbn [app]. rewrite !contains_cons, IH, orb_assoc. do 2 f_equal.
  destruct w as [|d w]; [|done]. cbn [starts_with cr nl app]. destruct (13 =? c); [|done]. cbn [andb].
  destruct s as [|d s]; [done|]. destruct (Z.eqb_spec 10 d) as [<-|]; [by destruct Hs|done].
Qed.
Lemma has_crlf_without s : Forall (fun x => x ≠ 13) s → has_crlf s = false.
Proof.
  induction 1 as [|x s Hx Hs IH]; [done|]. rewrite contains_cons, IH, orb_false_r. cbn [starts_with cr nl app].
  by rewrite (proj2 (Z.eqb_neq _ _)) by congruence.
Qed.

Lemma has_crlf_skip w s : Forall (fun x => x ≠ 13) w → has_crlf (w ++ s) = has_crlf s.
Proof.
  induction 1 as [|x w Hx Hw IH]; [done|]. cbn [app]. rewrite contains_cons, IH. cbn [starts_with cr nl app].
  by rewrite (proj2 (Z.eqb_neq _ _)) by congruence.
Qed.
Lemma has_crlf_later w s : has_crlf s = true → has_crlf (w ++ s) = true.
Proof. intros Hs. induction w as [|a w IH]; [done|]. cbn [app]. by rewrite contains_cons, IH, orb_true_r. Qed.
Lemma has_crlf_earlier w s : has_crlf w = true → has_crlf (w ++ s) = true.
Proof.
  induction w as [|a w IH]; [done|]. cbn [app]. rewrite !contains_cons. intros [H|H]%orb_true_iff; [|by rewrite IH, orb_true_r].
  apply starts_with_spec in H as [t H]. change (a :: w ++ s) with ((a :: w) ++ s). by rewrite H, <- app_assoc, starts_with_app.
Qed.

(** ** The block of a text *)
Section span.
(** The markers *)
Variables begin_marker end_marker : str.
(** [_managed_span]: where the block begins and ends *)
Definition managed_span (ambiguous : exn) (content : str) : res (option (nat * nat)) :=
  let begin_count := count begin_marker content in
  let end_count := count end_marker content in
  if (begin_count =? 0) && (end_count =? 0) then Ok None
  else if negb (begin_count =? 1) || negb (end_count =? 1) then Err ambiguous
  else match find begin_marker content with
       | None => Err (value_error (u "substring not found"))
       | Some b =>
           match find end_marker (drop b content) with
           | None => Err (value_error (u "substring not found"))
           | Some e => Ok (Some (b, (b + e + length end_marker)%nat))
           end
       end.

Hypothesis Hb : marker begin_marker.
Hypothesis He : marker end_marker.
Hypothesis Hbe : apart begin_marker end_marker.
Hypothesis Heb : apart end_marker begin_marker.
Variable ambiguous : exn.

(** No marker in [s] *)
Definition unmarked (s : str) : Prop := occurrences begin_marker s = 0%nat ∧ occurrences end_marker s = 0%nat.
Definition managed (pre mid post : str) : str := pre ++ begin_marker ++ mid ++ end_marker ++ post.
Lemma span_none content : managed_span ambiguous content = Ok None ↔ unmarked content.
Proof.
  unfold managed_span, unmarked. rewrite !count_occurrences by done. split.
  - destruct (_ && _) eqn:E; [|destruct (_ || _); [done|destruct (find _ _); [destruct (find _ _)|]; done]].
    boolean. zcmp. lia.
  - intros [-> ->]. done.
Qed.
Lemma span_found pre mid post : unmarked pre → unmarked mid → unmarked post →
  managed_span ambiguous (managed pre mid post) =
  Ok (Some (length pre, (length pre + length (begin_marker ++ mid ++ end_marker))%nat)).
Proof.
  intros [H1 H2] [H3 H4] [H5 H6]. unfold managed_span, managed. rewrite !count_occurrences by done.
  rewrite !(occurrences_app _ pre), !occurrences_self by auto.
  rewrite (occurrences_other end_marker begin_marker) by done.
  rewrite !(occurrences_app _ mid), !occurrences_self, (occurrences_other begin_marker end_marker) by auto.
  rewrite H1, H2, H3, H4, H5, H6. cbn [Nat.add Z.of_nat Pos.of_succ_nat Z.eqb Pos.eqb andb orb negb].
  rewrite find_marker by done. rewrite drop_app_length.
  rewrite (app_assoc begin_marker), find_marker; [|done|].
  - do 3 f_equal. rewrite !length_app. lia.
  - rewrite <- (app_nil_r mid). rewrite occurrences_other by done. by rewrite app_nil_r.
Qed.
(** What a block is *)
Lemma span_some content b e : managed_span ambiguous content = Ok (Some (b, e)) →
  ∃ pre mid post, content = managed pre mid post ∧ unmarked pre ∧ unmarked mid ∧ unmarked post ∧
    b = length pre ∧ e = (length pre + length (begin_marker ++ mid ++ end_marker))%nat.
Proof.
  unfold managed_span. rewrite !count_occurrences by done. destruct (_ && _); [done|].
  destruct (_ || _) eqn:E; [done|]. apply orb_false_iff in E as [E1 E2].
  apply negb_false_iff, Z.eqb_eq in E1. apply negb_false_iff, Z.eqb_eq in E2.
  destruct (find begin_marker content) as [i|] eqn:Hi; [|done].
  destruct (find_split _ _ _ Hb Hi) as (pre & t & -> & Hlen & Hpre).
  rewrite <- Hlen, drop_app_length. destruct (find end_marker (begin_marker ++ t)) as [k|] eqn:Hk; [|done].
  intros [= <- <-]. destruct (find_split _ _ _ He Hk) as (w & post & Hw & Hkl & Hwe).
  assert (∃ mid, w = begin_marker ++ mid ∧ t = mid ++ end_marker ++ post) as (mid & -> & ->).
  { apply app_eq_app in Hw as [l [[Hx Hy]|[Hx Hy]]]; [|by exists l].
    destruct l as [|x l]; [exists []; rewrite app_nil_r in *; by subst|]. exfalso. destruct w as [|c w].
    - cbn [app] in Hx. pose proof (Heb t) as Hf. rewrite Hx, <- Hy in Hf. by rewrite starts_with_app in Hf.
    - destruct Hb as (q & Hq & Hql). rewrite Hq in Hx. injection Hx as <- ->. rewrite lacks_append in Hql.
      apply andb_true_iff in Hql as [_ Hql]. destruct He as (r & Hr & _). rewrite Hr in Hy. cbn [app] in Hy.
      injection Hy as <- _. discriminate. }
  rewrite !(occurrences_app _ pre), occurrences_self in E1 by auto.
  rewrite !(occurrences_app _ mid), occurrences_other in E1 by auto.
  rewrite (occurrences_app _ pre), (app_assoc begin_marker), (occurrences_app _ (begin_marker ++ mid)), occurrences_self in E2 by auto.
  assert (occurrences end_marker mid = 0%nat) by (by rewrite occurrences_other in Hwe).
  exists pre, mid, post. unfold unmarked. rewrite !length_app in *. split_and!; auto; lia.
Qed.
End span.

(** ** The file *)
(** [path.open("wb")]: the file is created, or emptied. *)
Definition open_write (p : path) : M disk_io unit := call (OpenWrite p);; set_file p [].
(** [_write_fsynced] *)
Definition write_fsynced (p : path) (data : bytes) : M disk_io unit := open_write p;; write_content p data.
(** [path.unlink()] *)
Definition unlink_present (p : path) : M disk_io unit :=
  call (RemoveFile p);;
  present ← exists_file p;
  if present : bool then drop_file p else raise (Builtin FileNotFoundError []).

(** What some files hold *)
Abbreviation contents := (list (path * option bytes)).
Definition known (l : contents) (s : disk_io) : Prop :=
  script_ok s ∧ Forall (fun pc => file_at pc.1 s = pc.2) l.
Definition absent_from (p : path) (l : contents) : Prop := p ∉ l.*1.
(** A call that fails leaves the files as they are. *)
Definition unharmed (l : contents) (e : exn) (s : disk_io) : Prop := known l s ∧ is_os_error e = true.

Lemma safe_known l : safe (known l).
Proof. split; [|by intros s [? _]]. intros s sc c b [_ Hs] Hsc. done. Qed.
Lemma known_tail pc l s : known (pc :: l) s → known l s.
Proof. intros [H Hl]. inversion Hl; subst. done. Qed.
Lemma known_head p c l s : known ((p, c) :: l) s → file_at p s = c.
Proof. intros [_ Hl]. by inversion Hl. Qed.
Lemma known_swap a b l s : known (a :: b :: l) s → known (b :: a :: l) s.
Proof. intros [H Hl]. split; [done|]. inversion_clear Hl. inversion_clear H1. by repeat constructor. Qed.
Lemma known_files_eq l d s : script_ok s → Forall (fun pc : path * option bytes => d !! pc.1 = pc.2) l →
  known l (Io (Disk d (locked (st s))) (script s) (trace s)).
Proof. done. Qed.
Lemma absent_cons p pc l : absent_from p (pc :: l) ↔ p ≠ pc.1 ∧ absent_from p l.
Proof. unfold absent_from. rewrite fmap_cons, not_elem_of_cons. done. Qed.
Lemma known_insert p c l s : absent_from p l → known l s →
  known ((p, Some c) :: l) (Io (Disk (<[p := c]> (files (st s))) (locked (st s))) (script s) (trace s)).
Proof.
  intros Hp [Hok Hl]. split; [done|]. constructor; [apply lookup_insert_eq|].
  induction l as [|pc l IH]; [constructor|]. apply absent_cons in Hp as [Hne Hp]. inversion_clear Hl.
  constructor; [|by apply IH]. unfold file_at in *. cbn. by rewrite lookup_insert_ne.
Qed.
Lemma known_delete p l s : absent_from p l → known l s →
  known ((p, None) :: l) (Io (Disk (delete p (files (st s))) (locked (st s))) (script s) (trace s)).
Proof.
  intros Hp [Hok Hl]. split; [done|]. constructor; [apply lookup_delete_eq|].
  induction l as [|pc l IH]; [constructor|]. apply absent_cons in Hp as [Hne Hp]. inversion_clear Hl.
  constructor; [|by apply IH]. unfold file_at in *. cbn. by rewrite lookup_delete_ne.
Qed.

Lemma triple_known_call l c : triple (known l) (known l) (call c) (fun _ => known l) (unharmed l).
Proof. apply triple_call, safe_known. Qed.
Lemma triple_known_clock l : triple (known l) (known l) clock (fun _ => known l) (unharmed l).
Proof.
  eapply triple_bind; [apply triple_syscall, safe_known|]. by intros [| | |]; intros s [Hs _].
Qed.
Lemma triple_known_name l : triple (known l) (known l) fresh_name (fun _ => known l) (unharmed l).
Proof.
  eapply triple_bind; [apply triple_syscall, safe_known|]. by intros [| | |]; intros s [Hs _].
Qed.
Lemma triple_known_exists l p c :
  triple (known ((p, c) :: l)) (known ((p, c) :: l)) (exists_file p)
    (fun b s => b = bool_decide (is_Some c) ∧ known ((p, c) :: l) s) (unharmed ((p, c) :: l)).
Proof. apply triple_state. intros d. apply triple_ret. intros s [Hs <-]. split; [|done]. by apply known_head in Hs as <-. Qed.
Lemma triple_known_exists_any l p :
  triple (known l) (known l) (exists_file p) (fun _ => known l) (unharmed l).
Proof. apply triple_state. intros d. apply triple_ret. by intros s [? _]. Qed.
Lemma triple_known_read l p c :
  triple (known ((p, c) :: l)) (known ((p, c) :: l)) (read_bytes p)
    (fun b s => c = Some b ∧ known ((p, c) :: l) s) (unharmed ((p, c) :: l)).
Proof.
  eapply triple_bind; [apply triple_known_call|]. intros []. apply triple_state. intros d s [Hs <-].
  pose proof (known_head _ _ _ _ Hs) as H. unfold file_at in H. by destruct c as [b|]; rewrite H.
Qed.
Lemma triple_write_fsynced l p data : absent_from p l →
  triple (known l) (known l) (write_fsynced p data) (fun _ => known ((p, Some data) :: l)) (unharmed l).
Proof.
  intros Hp. eapply triple_bind with (Q := fun _ => known l).
  { eapply triple_bind; [apply triple_known_call|]. intros []. apply triple_modify. intros s Hs.
    by eapply known_tail, known_insert. }
  intros []. eapply triple_bind; [apply triple_syscall, safe_known|]. intros a.
  assert (∀ a, triple (known l) (fun s => known l s ∧ reply_ok (Ok a)) (set_file p data;; call (FlushFile p))
    (fun _ => known ((p, Some data) :: l)) (unharmed l)) as Hok.
  { intros a'. eapply triple_bind with (Q := fun _ => known ((p, Some data) :: l)).
    - apply triple_modify. intros s [Hs _]. by apply known_insert.
    - intros ?. eapply triple_conseq; [apply triple_known_call|done|done| |apply known_tail].
      intros e s [Hs ?]. split; [by eapply known_tail|done]. }
  destruct a; try apply Hok. eapply triple_bind with (Q := fun _ => unharmed l e).
  - apply triple_modify. intros s [Hs He]. split; [|exact He]. eapply known_tail. by apply known_insert.
  - intros []. by apply triple_raise.
Qed.
Lemma triple_known_replace l q p c f : absent_from q l → absent_from p l → q ≠ p →
  triple (known ((p, f) :: l)) (known ((q, Some c) :: (p, f) :: l)) (replace_file q p)
    (fun _ => known ((p, Some c) :: l)) (unharmed ((p, f) :: l)).
Proof.
  intros Hq Hp Hqp. eapply triple_bind with (Q := fun _ => known ((q, Some c) :: (p, f) :: l)).
  { eapply triple_conseq; [apply triple_known_call|done|done| |apply known_tail].
    intros e s [Hs ?]. split; [by eapply known_tail|done]. }
  intros []. apply triple_state. intros d s [Hs <-]. pose proof (known_head _ _ _ _ Hs) as H. unfold file_at in H.
  rewrite H. apply (known_insert p c l (Io (Disk (delete q (files (st s))) (locked (st s))) (script s) (trace s))); [done|].
  eapply known_tail, known_delete; [done|]. by do 2 eapply known_tail.
Qed.
Lemma triple_known_replace_any l q p c : absent_from q l → absent_from p l → q ≠ p →
  triple (known l) (known ((q, Some c) :: l)) (replace_file q p) (fun _ => known ((p, Some c) :: l)) (unharmed l).
Proof.
  intros Hq Hp Hqp s Hs.
  assert (known ((q, Some c) :: (p, file_at p s) :: l) s) as Hs' by (destruct Hs as [Hok Hl]; inversion_clear Hl; by repeat constructor).
  pose proof (triple_known_replace l q p c (file_at p s) Hq Hp Hqp s Hs') as H.
  destruct (replace_file q p s) as [[[]|e|] s']; [done| |by eapply known_tail].
  destruct H as [H He]. split; [by eapply known_tail|done].
Qed.
Lemma triple_known_unlink l p c :
  absent_from p l → triple (known ((p, c) :: l)) (known ((p, c) :: l)) (unlink p) (fun _ => known ((p, None) :: l)) (unharmed ((p, c) :: l)).
Proof.
  intros Hp. eapply triple_bind; [apply triple_known_call|]. intros []. apply triple_modify. intros s Hs.
  apply known_delete; [done|by eapply known_tail].
Qed.
(** [with suppress(OSError): path.unlink()] *)
Lemma triple_known_discard l p : absent_from p l →
  triple (known l) (known l) (suppress is_os_error (unlink_present p)) (fun _ => known l) (fun _ _ => False).
Proof.
  intros Hp. eapply triple_try with (R := unharmed l).
  - eapply triple_bind; [apply triple_known_call|]. intros []. eapply triple_bind; [apply triple_known_exists_any|].
    intros []; [|by apply triple_raise]. apply triple_modify. intros s Hs. by eapply known_tail, known_delete.
  - intros e s [Hs He]. rewrite He. exact Hs.
Qed.
Lemma triple_pure_after {S A : Type} (φ : Prop) I P (m : prog exn S A) Q R :
  (φ → triple I P m Q R) → triple I (fun s => P s ∧ φ) m Q R.
Proof. intros H s [Hs Hφ]. by apply H. Qed.
(** A guard in the middle of an operation *)
Lemma triple_guard {S A : Type} I P b e (m : prog exn S A) Q R :
  (b = true → ∀ s, P s → R e s) → (b = false → triple I P m Q R) → triple I P (lift (raise_if b e);; m) Q R.
Proof. intros He Hm s Hs. destruct b; [by apply (He eq_refl s)|by apply Hm]. Qed.
Lemma os_error_ordinary e : is_os_error e = true → is_exception e = true.
Proof. by destruct e as [[] ?|]. Qed.
(** A failure that a handler of ordinary exceptions takes *)
Definition failed (l : contents) (e : exn) (s : disk_io) : Prop := known l s ∧ is_exception e = true.
Lemma unharmed_failed l e s : unharmed l e s → failed l e s.
Proof. intros [H He]. split; [done|]. by apply os_error_ordinary. Qed.
Lemma failed_tail pc l e s : failed (pc :: l) e s → failed l e s.
Proof. intros [H He]. split; [by eapply known_tail|done]. Qed.
Lemma failed_head pc l e s : failed (pc :: l) e s → failed [pc] e s.
Proof. intros [[Hok Hl] He]. split; [split; [done|]|done]. inversion_clear Hl. by repeat constructor. Qed.
Lemma absent_nil p : absent_from p [].
Proof. apply not_elem_of_nil. Qed.
Lemma absent_one p q c : p ≠ q → absent_from p [(q, c)].
Proof. intros H. apply absent_cons. split; [done|apply absent_nil]. Qed.
