(* ===== verification/SshAlias.v ===== *)
(** * SshAlias: the managed alias of the OpenSSH configuration (setup/ssh_alias.py)

    The setup window keeps one [Host] block of its own at the top of the user's
    configuration.  A change is planned on the text, checked with [ssh -G] on a
    staged copy, put in place, checked again, and taken back when that fails. *)
From S2P Require Import Prelude Errors Text TextFacts Regex Prog Json ConfigModel Ssh Redaction Repository ManagedBlock.

Definition BEGIN_MARKER : str := u "# >>> codex-serverops-mcp managed ssh alias >>>".
Definition END_MARKER : str := u "# <<< codex-serverops-mcp managed ssh alias <<<".
Definition name_class (l : list (Z * Z)) : Z → bool := cls (l ++ [(65, 90); (97, 122); (48, 57)]).
Definition safe_name (more : list (Z * Z)) (n : nat) : re :=
  RSeqs [RBol; RChar (name_class []); RUpto n (RChar (name_class more)); REol].
Definition SAFE_ALIAS : re := safe_name [(45, 46); (95, 95)] 63.
Definition SAFE_HOST : re := safe_name [(45, 46)] 252.
Definition SAFE_USER : re := safe_name [(45, 46); (95, 95)] 63.
Definition runtime_error (m : str) : exn := Builtin RuntimeError m.

Record SshAliasSpec := Spec { alias : str; hostname : str; user : str; port : Z; identity_file : str }.
Record SshAliasChange := Change { previous_exists : bool; previous : bytes; updated : bytes; spec : SshAliasSpec; preview : str }.
Record SshAliasApplyResult := Applied { config_path : path; backup_path : option path }.

Section alias.
Context {U : UnicodeDB}.
(** [Path(p).expanduser().resolve()] as text, [Path(p).is_file()], what
    [ssh -G -F file alias] answers for a file of some content (its exit status
    and output; nothing when there is no [ssh]), and [strftime] *)
Variable resolve : str → res str.
Variable is_file : str → bool.
Variable ssh_G : option bytes → str → option (Z * str).
Variable stamp : Q → str.

(** ** The block *)
Definition validated (s : SshAliasSpec) : res SshAliasSpec :=
  raise_if (negb (fullmatch SAFE_ALIAS (alias s))) (value_error (u "SSH alias contains unsupported characters"));;
  raise_if (negb (fullmatch SAFE_HOST (hostname s))) (value_error (u "SSH hostname contains unsupported characters"));;
  raise_if (negb (fullmatch SAFE_USER (user s))) (value_error (u "SSH user contains unsupported characters"));;
  raise_if (negb ((1 <=? port s) && (port s <=? 65535))) (value_error (u "SSH port is outside the valid range"));;
  identity ← resolve (identity_file s);
  raise_if (negb (is_file identity)) (value_error (u "SSH identity file does not exist"));;
  raise_if (existsb (fun c => mem_Z c [10; 13; 34]) identity) (value_error (u "SSH identity path contains unsupported characters"));;
  Ok (Spec (alias s) (hostname s) (user s) (port s) identity).
(** [PureWindowsPath.as_posix] *)
Definition as_posix (p : str) : str := replace_all (u "\") (u "/") p.
Definition block_body (s : SshAliasSpec) : list str :=
  [u "Host " ++ alias s; u "    HostName " ++ hostname s; u "    User " ++ user s; u "    Port " ++ show_int (port s);
   u "    IdentityFile " ++ dq ++ as_posix (identity_file s) ++ dq; u "    IdentitiesOnly yes"].
Definition managed_alias_block (s : SshAliasSpec) : res str :=
  checked ← validated s;
  Ok (join nl (BEGIN_MARKER :: block_body checked ++ [END_MARKER])).

(** ** The plan *)
Definition bom : bytes := [239; 187; 191].
(** [_decode]: the text, and whether the file starts with a byte order mark *)
Definition decode (content : bytes) : res (str * bool) :=
  raise_if (mem_Z 0 content) (value_error (u "SSH config contains NUL bytes"));;
  let marked := starts_with bom content in
  match utf8_decode (if marked then drop 3 content else content) with
  | UText text => Ok (text, marked)
  | UBad _ _ => Err (value_error (u "SSH config must be UTF-8 text"))
  end.
Definition encode (text : str) (marked : bool) : res bytes :=
  b ← utf8_encode text; Ok (if marked then bom ++ b else b).
(** The patterns of a [Host] line *)
Definition host_patterns (line : str) : list str :=
  match split_once (lstrip is_space line) with
  | Some (keyword, rest) =>
      if str_eqb (casefold keyword) (u "host") then words (nth 0 (split_char 35 rest) []) else []
  | None => []
  end.
Definition has_exact_alias (content name : str) : bool :=
  existsb (fun line => existsb (fun pattern => str_eqb (casefold pattern) (casefold name)) (host_patterns line))
    (splitlines content).
Definition newline_of (text : str) : str := if contains (cr ++ nl) text then cr ++ nl else nl.
Definition separator (newline text : str) : str :=
  if str_eqb text [] then [] else if starts_with_any [cr; nl] text then newline else newline ++ newline.
Definition ambiguous : exn := value_error (u "managed SSH alias markers are ambiguous").
Definition plan_text (existed : bool) (content : bytes) (checked : SshAliasSpec) : res SshAliasChange :=
  decoded ← decode content;
  let '(text, marked) := decoded in
  span ← managed_span BEGIN_MARKER END_MARKER ambiguous text;
  text_block ← managed_alias_block checked;
  let block := replace_all nl (newline_of text) text_block in
  updated_text ← match span with
                 | None =>
                     raise_if (has_exact_alias text (alias checked))
                       (value_error (u "an unmanaged SSH block already uses the requested alias"));;
                     Ok (block ++ separator (newline_of text) text ++ text)
                 | Some (b, e) => Ok (take b text ++ block ++ drop e text)
                 end;
  data ← encode updated_text marked;
  Ok (Change existed content data checked block).
Definition plan_ssh_alias_change (p : path) (s : SshAliasSpec) : M disk_io SshAliasChange :=
  checked ← lift (validated s);
  existed ← exists_file p;
  content ← (if existed : bool then read_bytes p else mret []);
  lift (plan_text existed content checked).

(** ** The check with OpenSSH *)
Definition add_value (d : dict (list str)) (line : str) : dict (list str) :=
  match partition_at 32 line with
  | Some (key, v) => let k := casefold key in dset d k (default [] (dget d k) ++ [strip v])
  | None => d
  end.
Definition first_is (d : dict (list str)) (key expected : str) : bool :=
  match dget d key with Some (v :: _) => str_eqb v expected | _ => false end.
Fixpoint resolve_all (l : list str) : res (list str) :=
  match l with
  | [] => Ok []
  | v :: l => if str_eqb (casefold v) (u "none") then resolve_all l
              else r ← resolve v; rest ← resolve_all l; Ok (r :: rest)
  end.
Definition check_answer (s : SshAliasSpec) (code : Z) (output : str) : res unit :=
  raise_if (negb (code =? 0)) (runtime_error (u "OpenSSH rejected the proposed SSH config"));;
  let values := fold_left add_value (splitlines output) [] in
  expected ← resolve (identity_file s);
  identities ← resolve_all (default [] (dget values (u "identityfile")));
  raise_if (negb (first_is values (u "hostname") (hostname s)) || negb (first_is values (u "user") (user s))
            || negb (first_is values (u "port") (show_int (port s))) || negb (first_is values (u "identitiesonly") (u "yes"))
            || negb (bool_decide (expected ∈ identities)))
    (runtime_error (u "OpenSSH resolved different alias fields than requested")).
Definition ssh_accepts (content : option bytes) (s : SshAliasSpec) : res unit :=
  match ssh_G content (alias s) with
  | None => Err (Builtin FileNotFoundError (u "ssh"))
  | Some (code, output) => check_answer s code output
  end.
Definition validate_ssh_alias (p : path) (s : SshAliasSpec) : M disk_io unit :=
  d ← state; lift (ssh_accepts (files d !! p) s).

(** ** Putting it in place *)
Definition changed_after_preview : exn := runtime_error (u "SSH config changed after preview").
Definition assert_current (p : path) (c : SshAliasChange) : M disk_io unit :=
  present ← exists_file p;
  lift (raise_if (negb (Bool.eqb present (previous_exists c))) changed_after_preview);;
  again ← exists_file p;
  if again : bool then
    content ← read_bytes p;
    lift (raise_if (negb (str_eqb content (previous c))) changed_after_preview)
  else mret tt.
Definition backup_base (p : path) (now : Q) : path := (p.1, p.2 ++ u ".serverops-backup-" ++ stamp now).
Definition backup_for (p : path) (c : SshAliasChange) (now : Q) : M disk_io (option path) :=
  if previous_exists c then
    present ← exists_file (backup_base p now);
    if present : bool then
      hex ← fresh_name; mret (Some (p.1, (backup_base p now).2 ++ u "-" ++ take 8 hex))
    else mret (Some (backup_base p now))
  else mret None.
Definition stage_path (p : path) (hex : str) : path := (p.1, u "." ++ p.2 ++ u ".serverops-stage-" ++ hex).
Definition restore_path (p : path) (hex : str) : path := (p.1, u "." ++ p.2 ++ u ".serverops-restore-" ++ hex).
Definition update_failed (how : str) : exn := runtime_error (u "SSH config update failed" ++ how).
Definition restore (p : path) (c : SshAliasChange) : M disk_io unit :=
  if previous_exists c then
    hex ← fresh_name;
    write_fsynced (restore_path p hex) (previous c);;
    replace_file (restore_path p hex) p
  else unlink p.
(** The handler: [replaced] tells whether the new file was in place. *)
Definition give_up_update {A} (p stage : path) (c : SshAliasChange) (replaced : bool) (e : exn) : M disk_io A :=
  if negb (is_exception e) then raise e
  else
    suppress is_os_error (unlink_present stage);;
    if replaced then
      try_except (restore p c)
        (fun e' => if is_os_error e' then raise (update_failed (u " and rollback was incomplete")) else raise e');;
      raise (update_failed (u " and was rolled back"))
    else raise (update_failed (u " before replacement")).
Definition replace_config (p stage : path) (backup : option path) (c : SshAliasChange) : M disk_io unit :=
  match backup with
  | Some b => write_fsynced b (previous c);; call (SecurePath b.1 (Some b.2))
  | None => mret tt
  end;;
  write_fsynced stage (updated c);;
  validate_ssh_alias stage (spec c);;
  assert_current p c;;
  replace_file stage p.
Definition confirm_config (p : path) (backup : option path) (c : SshAliasChange) : M disk_io SshAliasApplyResult :=
  validate_ssh_alias p (spec c);;
  content ← read_bytes p;
  lift (raise_if (negb (str_eqb content (updated c))) (runtime_error (u "SSH config changed during post-write validation")));;
  mret (Applied p backup).
Definition apply_ssh_alias_change (p : path) (c : SshAliasChange) : M disk_io SshAliasApplyResult :=
  assert_current p c;;
  call (MakeDirectory p.1);;
  now ← clock;
  backup ← backup_for p c now;
  hex ← fresh_name;
  let stage := stage_path p hex in
  try_except (replace_config p stage backup c) (give_up_update p stage c false);;
  try_except (confirm_config p backup c) (give_up_update p stage c true).
End alias.

(** ** The plan touches its own block only *)
Lemma alias_begin_is_marker : marker BEGIN_MARKER.
Proof. by eexists. Qed.
Lemma alias_end_is_marker : marker END_MARKER.
Proof. by eexists. Qed.
Lemma alias_begin_end_apart : apart BEGIN_MARKER END_MARKER.
Proof. intros s. reflexivity. Qed.
Lemma alias_end_begin_apart : apart END_MARKER BEGIN_MARKER.
Proof. intros s. reflexivity. Qed.
#[local] Hint Resolve alias_begin_is_marker alias_end_is_marker alias_begin_end_apart alias_end_begin_apart : core.
Abbreviation no_markers := (unmarked BEGIN_MARKER END_MARKER).

(** A character that no line of a block may lack the meaning of *)
Definition quiet (c : Z) : Prop := char_ok c ∧ c ≠ 0 ∧ c ≠ 10 ∧ c ≠ 13 ∧ c ≠ 35.
Lemma quiet_class p s : (∀ c, p c = true → 45 <= c <= 122) → forallb p s = true → Forall quiet s.
Proof.
  intros Hp H. apply Forall_forall. intros c Hc. rewrite forallb_forall in H.
  specialize (Hp c (H c ltac:(by apply list_elem_of_In))). unfold quiet, char_ok. lia.
Qed.
Lemma cls_between l lo hi c : forallb (fun r => (lo <=? r.1) && (r.2 <=? hi)) l = true → cls l c = true → lo <= c <= hi.
Proof.
  unfold cls. rewrite forallb_forall. intros Hl Hc. apply existsb_exists in Hc as ([a b] & Hin & Hc).
  specialize (Hl _ Hin). cbn in *. boolean. lia.
Qed.
Lemma safe_name_quiet {U : UnicodeDB} more n s : forallb (fun r => (45 <=? r.1) && (r.2 <=? 122)) more = true →
  fullmatch (safe_name more n) s = true → Forall quiet s.
Proof.
  intros Hm (t & H & Ht)%fullmatch_lang. eapply quiet_class; [|by eapply class_upto_text]. cbv beta.
  intros c [Hc|Hc]%orb_true_iff; (eapply cls_between; [|exact Hc]); [reflexivity|]. by rewrite forallb_app, Hm.
Qed.
Lemma show_int_quiet n : Forall quiet (show_int n).
Proof.
  destruct (show_int_shape n) as (sign & ds & -> & Hs & _ & Hd). apply Forall_app. split.
  - destruct Hs as [->| ->]; repeat constructor; unfold char_ok; lia.
  - eapply quiet_class; [|exact Hd]. intros c Hc. unfold ascii_digit in Hc. boolean. lia.
Qed.
Definition is_quiet (c : Z) : bool := (1 <=? c) && (c <? 1114112) && negb (c =? 10) && negb (c =? 13) && negb (c =? 35).
Lemma quiet_literal s : forallb is_quiet s = true → Forall quiet s.
Proof.
  intros H. apply Forall_forall. intros c Hc. rewrite forallb_forall in H. specialize (H c ltac:(by apply list_elem_of_In)).
  unfold is_quiet in H. unfold quiet, char_ok. boolean. zprop. lia.
Qed.

Section planning.
Context {U : UnicodeDB}.
Variable resolve : str → res str.
Variable is_file : str → bool.
(** No path holds a NUL, and the key's path holds no number sign. *)
Definition plain_identity (i : str) : Prop := Forall (fun c => char_ok c ∧ c ≠ 0 ∧ c ≠ 35) i.

Lemma validated_lines s s' : validated resolve is_file s = Ok s' → plain_identity (identity_file s') → Forall (Forall quiet) (block_body s').
Proof.
  intros H Hi. unfold validated in H. inv_ok H. apply Ok_inj in H as <-. cbn [identity_file] in Hi. unfold block_body. cbn [alias hostname user port identity_file].
  repeat match goal with H : raise_if _ _ = Ok _ |- _ => apply raise_if_Ok in H; try apply negb_false_iff in H end.
  assert (Forall quiet (as_posix a3)) as Hp.
  { apply replace_one_Forall; [|by apply quiet_literal]. apply Forall_forall. intros c Hc.
    unfold plain_identity in Hi. rewrite Forall_forall in Hi. specialize (Hi c Hc) as (H1 & H2 & H3).
    assert (mem_Z c [10; 13; 34] = false) as Hm.
    { destruct (mem_Z c _) eqn:E; [|done]. rewrite (proj2 (existsb_exists _ _)) in Ha5; [done|].
      exists c. split; [by apply list_elem_of_In|exact E]. }
    cbn in Hm. boolean. zprop. unfold quiet. auto. }
  repeat match goal with
         | |- Forall (Forall quiet) _ => constructor
         | |- Forall quiet (_ ++ _) => apply Forall_app; split
         end; try (by apply quiet_literal); try exact Hp; try apply show_int_quiet.
  all: by eapply safe_name_quiet; [|eassumption].
Qed.
(** *** The shape of a block *)
Definition block_mid (newline : str) (s : SshAliasSpec) : str := newline ++ join newline (block_body s) ++ newline.
Lemma block_shape s b newline : managed_alias_block resolve is_file s = Ok b →
  (∀ s', validated resolve is_file s = Ok s' → plain_identity (identity_file s')) →
  ∃ s', validated resolve is_file s = Ok s' ∧ Forall (Forall quiet) (block_body s') ∧
        replace_all nl newline b = BEGIN_MARKER ++ block_mid newline s' ++ END_MARKER.
Proof.
  intros H Hplain. unfold managed_alias_block in H. inv_ok H. apply Ok_inj in H as <-. exists a.
  pose proof (validated_lines _ _ Ha (Hplain _ Ha)) as Hq. split_and!; [done|done|].
  unfold nl. rewrite replace_join; [unfold block_mid, block_body; cbn [join app]; by rewrite <- !app_assoc|].
  constructor; [done|]. apply Forall_app. split; [|by constructor]. eapply Forall_impl; [exact Hq|]. cbv beta.
  intros w Hw. apply lacks_Forall. eapply Forall_impl; [exact Hw|]. by intros c (_ & _ & ? & _).
Qed.
Lemma block_mid_Forall (P : Z → Prop) newline s : (∀ c, quiet c → P c) → Forall P newline → Forall (Forall quiet) (block_body s) →
  Forall P (block_mid newline s).
Proof.
  intros HP Hn Hq. unfold block_mid. apply Forall_app. split; [done|]. apply Forall_app. split; [|done].
  induction Hq as [|w l Hw Hl IH]; [constructor|].
  assert (Forall P w) by (by eapply Forall_impl).
  destruct l as [|v l]; [done|]. change (join newline (w :: v :: l)) with (w ++ newline ++ join newline (v :: l)).
  apply Forall_app. split; [done|]. by apply Forall_app.
Qed.
Lemma newline_cases text : newline_of text = cr ++ nl ∧ has_crlf text = true ∨ newline_of text = nl ∧ has_crlf text = false.
Proof. unfold newline_of. destruct (has_crlf text); auto. Qed.
Lemma lacks_unmarked s : lacks 35 s = true → no_markers s.
Proof. intros H. split; by apply lacks_none. Qed.

(** *** The shape of a plan *)
Definition mark_of (marked : bool) : bytes := if marked then bom else [].
Lemma decode_bytes content text marked : bytes_ok content → decode content = Ok (text, marked) →
  text_ok text ∧ content = mark_of marked ++ utf8_bytes text ∧ 0 ∉ content ∧ (marked = false → starts_with bom content = false).
Proof.
  intros Hb H. unfold decode in H. inv_ok H. apply raise_if_Ok in Ha.
  assert (0 ∉ content) as H0.
  { intros Hin. unfold mem_Z in Ha. rewrite (proj2 (existsb_exists _ _)) in Ha; [done|]. exists 0.
    split; [by apply list_elem_of_In|done]. }
  destruct (starts_with bom content) eqn:Em; (destruct (utf8_decode _) as [t|] eqn:E; [|done]); injection H as -> <-.
  - apply starts_with_spec in Em as [r ->]. rewrite forallb_app in Hb. apply andb_true_iff in Hb as [_ Hb].
    change (drop 3 (bom ++ r)) with r in E. apply utf8_decode_text in E as [? <-]; [|done]. by split_and!.
  - apply utf8_decode_text in E as [? Ht]; [|done]. split_and!; [done|by rewrite Ht|done|done].
Qed.
(** Either there was no block, and the plan puts one in front, or it replaces
    the block there was. *)
Definition after_plan (checked : SshAliasSpec) (pre old sep post : str) : Prop :=
  (old = [] ∧ pre = [] ∧ no_markers post ∧ has_exact_alias post (alias checked) = false) ∨
  (sep = [] ∧ no_markers pre ∧ no_markers post ∧ ∃ mid, old = BEGIN_MARKER ++ mid ++ END_MARKER ∧ no_markers mid).
Lemma plan_shape existed content checked c :
  plan_text resolve is_file existed content checked = Ok c →
  ∃ text marked pre old sep post b,
    decode content = Ok (text, marked) ∧ text = pre ++ old ++ post ∧
    managed_alias_block resolve is_file checked = Ok b ∧ preview c = replace_all nl (newline_of text) b ∧
    encode (pre ++ preview c ++ sep ++ post) marked = Ok (updated c) ∧
    c = Change existed content (updated c) checked (preview c) ∧
    sep = (if str_eqb old [] then separator (newline_of text) text else []) ∧
    after_plan checked pre old sep post.
Proof.
  intros H. unfold plan_text in H. inv_ok H. destruct a as [text marked]. inv_ok H.
  destruct a as [[b e]|].
  - apply Ok_inj in H as <-. injection Ha2 as <-. cbn [preview updated].
    apply span_some in Ha0 as (pre & mid & post & -> & Hpre & Hmid & Hpost & -> & ->); auto.
    exists (managed BEGIN_MARKER END_MARKER pre mid post), marked, pre, (BEGIN_MARKER ++ mid ++ END_MARKER), [], post, a0.
    assert (managed BEGIN_MARKER END_MARKER pre mid post = pre ++ (BEGIN_MARKER ++ mid ++ END_MARKER) ++ post) as Hm
      by (unfold managed; by rewrite <- !app_assoc).
    split_and!; [done|exact Hm|done|done| |done|done|right; split_and!; [done|done|done|by exists mid]].
    rewrite <- Ha3. f_equal. rewrite Hm, take_app_length. do 2 f_equal.
    rewrite (app_assoc pre), drop_app_length'; [done|by rewrite (length_app pre)].
  - apply span_none in Ha0; [|auto..]. inv_ok Ha2. match goal with H : raise_if _ _ = Ok _ |- _ => apply raise_if_Ok in H end. apply Ok_inj in Ha2 as <-. apply Ok_inj in H as <-.
    exists text, marked, [], [], (separator (newline_of text) text), text, a0. split_and!; try done. left. by split_and!.
Qed.
Lemma encode_bytes text marked data : encode text marked = Ok data → existsb surrogate text = false ∧ data = mark_of marked ++ utf8_bytes text.
Proof.
  unfold encode, utf8_encode. destruct (existsb surrogate text); [done|]. intros H. apply Ok_inj in H as <-. by destruct marked.
Qed.
Lemma text_ok_chars s : Forall char_ok s → existsb surrogate s = false → text_ok s.
Proof.
  intros Hs Hn. assert (utf8_encode s = Ok (utf8_bytes s)) as H by (unfold utf8_encode; by rewrite Hn).
  by destruct (encodable _ _ Hs H).
Qed.
Lemma text_ok_Forall s : text_ok s → Forall char_ok s.
Proof.
  intros H. apply Forall_forall. intros c Hc. rewrite forallb_forall in H. specialize (H c ltac:(by apply list_elem_of_In)).
  apply code_point_bounds in H. unfold char_ok. lia.
Qed.
(** A mark of a byte order needs bytes that no marker starts with. *)
Lemma no_bom pre x y : starts_with bom (pre ++ 35 :: x) = starts_with bom (pre ++ 35 :: y).
Proof. destruct pre as [|a [|b [|d pre]]]; try done; cbn; by rewrite ?andb_false_r. Qed.
Lemma decode_encoded text marked data :
  encode text marked = Ok data → Forall char_ok text → 0 ∉ text → (marked = false → starts_with bom (utf8_bytes text) = false) →
  decode data = Ok (text, marked).
Proof.
  intros He Hc H0 Hbom. apply encode_bytes in He as [Hs ->]. pose proof (text_ok_chars _ Hc Hs) as Hok. unfold decode.
  assert (mem_Z 0 (mark_of marked ++ utf8_bytes text) = false) as ->.
  { destruct (mem_Z _ _) eqn:E; [|done]. apply existsb_exists in E as (x & Hx & Hx0). apply Z.eqb_eq in Hx0 as <-.
    apply in_app_iff in Hx as [Hx|Hx]; [destruct marked; cbn in Hx; intuition discriminate|].
    exfalso. eapply utf8_bytes_absent; [exact Hok| |exact H0|by apply list_elem_of_In]. lia. }
  cbn [raise_if mbind result_mbind result_bind]. destruct marked; cbn [mark_of].
  - rewrite starts_with_app. change (drop 3 (bom ++ ?x)) with x. by rewrite utf8_decode_encode.
  - cbn [app]. rewrite Hbom by done. by rewrite utf8_decode_encode.
Qed.
Lemma newline_kept text pre old sep post block mid :
  text = pre ++ old ++ post → (∃ b, block = 35 :: b) → (old = [] ∨ ∃ o, old = 35 :: o) →
  sep = (if str_eqb old [] then separator (newline_of text) text else []) → (old = [] → pre = []) →
  block = BEGIN_MARKER ++ newline_of text ++ mid → (newline_of text = nl → Forall (fun c => c ≠ 13) block) →
  newline_of (pre ++ block ++ sep ++ post) = newline_of text.
Proof.
  intros Htext Hb Hold Hsep Hpre Hblock Hquiet. destruct (newline_cases text) as [[Hn Hc]|[Hn Hc]]; rewrite Hn in *.
  - unfold newline_of. enough (has_crlf (pre ++ block ++ sep ++ post) = true) as ->; [done|].
    apply has_crlf_later, has_crlf_earlier. rewrite Hblock. apply has_crlf_later, has_crlf_earlier. reflexivity.
  - unfold newline_of. enough (has_crlf (pre ++ block ++ sep ++ post) = false) as ->; [done|].
    specialize (Hquiet eq_refl). destruct Hb as [b Hb].
    rewrite has_crlf_app by (by rewrite Hb). rewrite (has_crlf_skip block) by done. rewrite has_crlf_skip.
    + apply not_true_is_false. intros [H|H]%orb_true_iff; apply not_true_iff_false in Hc; apply Hc; rewrite Htext.
      * by apply has_crlf_earlier.
      * by apply has_crlf_later, has_crlf_later.
    + rewrite Hsep. destruct (str_eqb old []); [|constructor]. unfold separator. destruct (str_eqb text []); [constructor|].
      by destruct (starts_with_any _ _); repeat constructor.
Qed.
Lemma newline_chars (P : Z → Prop) text : P 10 → P 13 → Forall P (newline_of text).
Proof. intros. by destruct (newline_cases text) as [[-> _]|[-> _]]; repeat constructor. Qed.
Lemma separator_chars (P : Z → Prop) text old : P 10 → P 13 →
  Forall P (if str_eqb old [] then separator (newline_of text) text else []).
Proof.
  intros. destruct (str_eqb old []); [|constructor]. unfold separator. destruct (str_eqb text []); [constructor|].
  destruct (starts_with_any _ _); [by apply newline_chars|]. apply Forall_app. split; by apply newline_chars.
Qed.
Lemma utf8_zero s : 0 ∈ s → 0 ∈ utf8_bytes s.
Proof.
  intros (a & b & ->)%list_elem_of_split. rewrite utf8_bytes_app. apply elem_of_app. right. by apply list_elem_of_here.
Qed.
Lemma plan_marked marked pre old post mid' : (starts_with bom (mark_of marked ++ utf8_bytes (pre ++ old ++ post)) = false) →
  marked = false → (old = [] ∧ pre = []) ∨ (∃ o, old = 35 :: o) → starts_with bom (utf8_bytes (pre ++ 35 :: mid')) = false.
Proof.
  intros H -> [[-> ->]|[o ->]]; [done|]. cbn [mark_of app] in H. rewrite !utf8_bytes_app in *.
  change (utf8_bytes (35 :: mid')) with (35 :: utf8_bytes mid').
  change (utf8_bytes (35 :: o ++ post)) with (35 :: utf8_bytes (o ++ post)) in H.
  by rewrite (no_bom _ _ (utf8_bytes (o ++ post))).
Qed.

(** A plan for the managed alias leaves every byte of the file outside
    its own block as it is: it replaces the text between its two markers, or puts
    the block in front when there is none, and refuses anything else.  Planning
    again on the result finds the block and changes nothing. *)
Theorem alias_plan_owns_its_block existed content checked c :
  bytes_ok content → (∀ s', validated resolve is_file checked = Ok s' → plain_identity (identity_file s')) →
  plan_text resolve is_file existed content checked = Ok c →
  (∃ mark pre old sep post, content = mark ++ utf8_bytes (pre ++ old ++ post) ∧
     updated c = mark ++ utf8_bytes (pre ++ preview c ++ sep ++ post) ∧ after_plan checked pre old sep post) ∧
  plan_text resolve is_file true (updated c) checked = Ok (Change true (updated c) (updated c) checked (preview c)).
Proof.
  intros Hbytes Hplain H.
  destruct (plan_shape _ _ _ _ H) as (text & marked & pre & old & sep & post & b & Hdec & Htext & Hblk & Hpv & Henc & Hc & Hsep & Hafter).
  destruct (decode_bytes _ _ _ Hbytes Hdec) as (Hok & Hcontent & H0 & Hmark).
  split; [exists (mark_of marked), pre, old, sep, post; split_and!; [by rewrite <- Htext|by apply encode_bytes in Henc as [_ ->]|done]|].
  destruct (block_shape _ _ (newline_of text) Hblk Hplain) as (s' & Hv & Hq & Hshape). rewrite <- Hpv in Hshape.
  assert (newline_of (pre ++ preview c ++ sep ++ post) = newline_of text) as Hnew.
  { eapply (newline_kept text pre old sep post (preview c) (join (newline_of text) (block_body s') ++ newline_of text ++ END_MARKER)); try done.
    - rewrite Hshape. by eexists.
    - destruct Hafter as [(-> & _)|(_ & _ & _ & mid & -> & _)]; [by left|right; by eexists].
    - destruct Hafter as [(_ & -> & _)|(_ & _ & _ & mid & -> & _)]; done.
    - rewrite Hshape. unfold block_mid. by rewrite <- !app_assoc.
    - intros Hn. rewrite Hshape. apply Forall_app. split; [by apply (bool_decide_unpack _)|]. apply Forall_app. split; [|by apply (bool_decide_unpack _)].
      apply block_mid_Forall; [by intros x (_ & _ & _ & ? & _)|rewrite Hn; by repeat constructor|done]. }
  assert (Forall (fun x => char_ok x ∧ x ≠ 0) (pre ++ preview c ++ sep ++ post)) as Hall.
  { assert (Forall (fun x => char_ok x ∧ x ≠ 0) text) as Ht.
    { apply Forall_forall. intros x Hx. split; [by apply (proj1 (Forall_forall _ _) (text_ok_Forall _ Hok))|].
      intros ->. apply H0. rewrite Hcontent, elem_of_app. right. by apply utf8_zero. }
    rewrite Htext, !Forall_app in Ht. destruct Ht as (Hpre & _ & Hpost). rewrite !Forall_app. split_and!; [done| | |done].
    - rewrite Hshape, !Forall_app. split_and!; [by apply (bool_decide_unpack _)| |by apply (bool_decide_unpack _)].
      apply block_mid_Forall; [by intros x (? & ? & _)|by apply newline_chars|done].
    - rewrite Hsep. by apply separator_chars. }
  assert (decode (updated c) = Ok (pre ++ preview c ++ sep ++ post, marked)) as Hdec'.
  { apply decode_encoded; [done|..].
    - eapply Forall_impl; [exact Hall|]. by intros x [? _].
    - intros Hin. rewrite Forall_forall in Hall. by destruct (Hall 0 Hin).
    - intros Hm. rewrite Hshape, <- !app_assoc. eapply plan_marked; [|exact Hm|].
      + rewrite <- Htext, <- Hcontent. by apply Hmark.
      + destruct Hafter as [(-> & -> & _)|(_ & _ & _ & mid & -> & _)]; [by left|right; by eexists]. }
  assert (managed_span BEGIN_MARKER END_MARKER ambiguous (pre ++ preview c ++ sep ++ post) =
          Ok (Some (length pre, (length pre + length (preview c))%nat))) as Hspan.
  { assert (pre ++ preview c ++ sep ++ post = managed BEGIN_MARKER END_MARKER pre (block_mid (newline_of text) s') (sep ++ post)) as ->
      by (rewrite Hshape; unfold managed; by rewrite <- !app_assoc).
    rewrite Hshape. apply span_found; auto.
    - destruct Hafter as [(_ & -> & _)|(_ & ? & _)]; [by apply lacks_unmarked|done].
    - apply lacks_unmarked, lacks_Forall, block_mid_Forall; [by intros x (_ & _ & _ & _ & ?)| |done].
      by destruct (newline_cases text) as [[-> _]|[-> _]]; repeat constructor.
    - assert (lacks 35 sep = true) as Hs by (rewrite Hsep; by apply lacks_Forall, separator_chars). split; (rewrite occurrences_lacks by done); destruct Hafter as [(_ & _ & [? ?] & _)|(_ & _ & [? ?] & _)]; done. }
  unfold plan_text. rewrite Hdec'. cbn [mbind result_mbind result_bind]. rewrite Hspan. cbn [mbind result_mbind result_bind].
  rewrite Hblk. cbn [mbind result_mbind result_bind]. rewrite Hnew, <- Hpv, take_app_length.
  rewrite (app_assoc pre (preview c) (sep ++ post)), drop_app_length' by (by rewrite length_app).
  by rewrite Henc.
Qed.
End planning.

(** ** A change is put in place whole, or taken back *)
Section putting.
Context {U : UnicodeDB}.
Variable resolve : str → res str.
Variable ssh_G : option bytes → str → option (Z * str).
Variable stamp : Q → str.
(** Resolving a path fails with ordinary exceptions. *)
Hypothesis resolve_ordinary : ∀ i e, resolve i = Err e → is_exception e = true.
Variables (p : path) (c : SshAliasChange).
Let apply := apply_ssh_alias_change resolve ssh_G stamp p c.

(** What the file held when the change was planned *)
Definition planned_over : option bytes := if previous_exists c then Some (previous c) else None.
Definition accepted (content : bytes) : Prop := ssh_accepts resolve ssh_G (Some content) (spec c) = Ok tt.
(** The file shows what it held or the update: nothing in between. *)
Definition shows_either (s : disk_io) : Prop :=
  script_ok s ∧ (file_at p s = planned_over ∨ file_at p s = Some (updated c)).

Lemma known_shows l s : known ((p, planned_over) :: l) s → shows_either s.
Proof. intros H. split; [apply H|]. left. by apply known_head in H. Qed.
Lemma known_shows_updated l s : known ((p, Some (updated c)) :: l) s → shows_either s.
Proof. intros H. split; [apply H|]. right. by apply known_head in H. Qed.
Lemma resolve_all_ordinary l e : resolve_all resolve l = Err e → is_exception e = true.
Proof.
  induction l as [|v l IH]; cbn [resolve_all]; [done|]. destruct (str_eqb _ _); [exact IH|]. intros H.
  apply result_bind_Err in H as [H|(r & _ & H)]; [by eapply resolve_ordinary|].
  apply result_bind_Err in H as [H|(? & _ & H)]; [by apply IH|done].
Qed.
Lemma ssh_accepts_ordinary content sp e : ssh_accepts resolve ssh_G content sp = Err e → is_exception e = true.
Proof.
  unfold ssh_accepts, check_answer. destruct (ssh_G content (alias sp)) as [[code output]|]; [|by intros [= <-]].
  intros H. repeat (apply result_bind_Err in H as [H|(? & _ & H)]).
  - unfold raise_if in H. destruct (negb _); [by injection H as <-|done].
  - by eapply resolve_ordinary.
  - by eapply resolve_all_ordinary.
  - unfold raise_if in H. destruct (_ || _); [by injection H as <-|done].
Qed.
Lemma triple_validate q b l :
  triple (known ((q, b) :: l)) (known ((q, b) :: l)) (validate_ssh_alias resolve ssh_G q (spec c))
    (fun _ s => ssh_accepts resolve ssh_G b (spec c) = Ok tt ∧ known ((q, b) :: l) s) (failed ((q, b) :: l)).
Proof.
  apply triple_state. intros d. apply triple_lift.
  - intros [] s H [Hs <-]. pose proof (known_head _ _ _ _ Hs) as Hq. unfold file_at in Hq. by rewrite Hq in H.
  - intros e s H [Hs _]. split; [done|]. by eapply ssh_accepts_ordinary.
Qed.
Lemma triple_alias_current l f :
  triple (known ((p, f) :: l)) (known ((p, f) :: l)) (assert_current p c)
    (fun _ s => f = planned_over ∧ known ((p, f) :: l) s) (failed ((p, f) :: l)).
Proof.
  unfold assert_current, planned_over.
  eapply triple_bind; [eapply triple_raising; [apply triple_known_exists|apply unharmed_failed]|]. intros b1. apply triple_pure. intros ->.
  apply triple_guard; [by split|]. intros Hb. apply negb_false_iff, eqb_prop in Hb.
  eapply triple_bind; [eapply triple_raising; [apply triple_known_exists|apply unharmed_failed]|]. intros b2. apply triple_pure. intros ->.
  rewrite <- Hb. case_bool_decide as Hf; [|apply triple_ret; intros s Hs; split; [|done]].
  - eapply triple_bind; [eapply triple_raising; [apply triple_known_read|apply unharmed_failed]|]. intros b. apply triple_pure. intros ->.
    apply triple_lift; intros x s Hx Hs; unfold raise_if, str_eqb in Hx; case_bool_decide as E; cbn [negb] in Hx; try discriminate.
    + split; [by rewrite E|done].
    + split; [done|]. by injection Hx as <-.
  - by destruct f; [destruct Hf; eexists|].
Qed.

(** *** The steps *)
Definition saved (backup : option path) : contents := match backup with Some b => [(b, Some (previous c))] | None => [] end.
Definition distinct (backup : option path) (stage : path) : Prop :=
  stage ≠ p ∧ match backup with Some b => b ≠ p ∧ b ≠ stage | None => True end.
Lemma triple_alias_replace_config stage backup : distinct backup stage →
  triple shows_either (known [(p, planned_over)]) (replace_config resolve ssh_G p stage backup c)
    (fun _ => known ((p, Some (updated c)) :: saved backup)) (failed [(p, planned_over)]).
Proof.
  intros [Hsp Hb]. unfold replace_config.
  assert (∀ l e s, failed ((p, planned_over) :: l) e s → failed [(p, planned_over)] e s) as Hfail.
  { intros l e s [Hs He]. split; [|done]. apply known_head in Hs as H. split; [apply Hs|]. by repeat constructor. }
  assert (∀ q l e s, failed ((q, Some (updated c)) :: (p, planned_over) :: l) e s → failed [(p, planned_over)] e s) as Hfail'.
  { intros q l e s [Hs He]. eapply Hfail. split; [by eapply known_tail|done]. }
  assert (absent_from stage ((p, planned_over) :: saved backup)) as Hstage.
  { apply absent_cons. split; [done|]. destruct backup as [b|]; [|apply not_elem_of_nil]. apply absent_cons. split; [by destruct Hb|apply not_elem_of_nil]. }
  eapply (triple_bind _ _ _ _ (fun _ => known ((p, planned_over) :: saved backup))).
  { destruct backup as [b|]; cbn [saved]; [|by apply triple_ret].
    eapply (triple_bind _ _ _ _ (fun _ => known ((p, planned_over) :: saved (Some b)))).
    - eapply triple_conseq; [apply (triple_write_fsynced [(p, planned_over)] b)| | | |]; [|done|..].
      + apply absent_cons. split; [by destruct Hb|apply not_elem_of_nil].
      + intros [] s. apply known_swap.
      + intros e s. apply unharmed_failed.
      + intros s. apply known_shows.
    - intros []. eapply triple_conseq; [apply triple_known_call|done|done| |intros s; apply known_shows].
      intros e s H. by eapply Hfail, unharmed_failed. }
  intros []. eapply (triple_bind _ _ _ _ (fun _ => known ((stage, Some (updated c)) :: (p, planned_over) :: saved backup))).
  { eapply triple_conseq; [by apply triple_write_fsynced|done|done| |intros s; apply known_shows].
    intros e s H. by eapply Hfail, unharmed_failed. }
  intros []. eapply (triple_bind _ _ _ _ (fun _ => known ((stage, Some (updated c)) :: (p, planned_over) :: saved backup))).
  { eapply triple_conseq; [apply triple_validate|done|by intros [] s [_ ?]| |].
    - intros e s H. by eapply Hfail'.
    - intros s H. by eapply known_shows, known_tail. }
  intros []. eapply (triple_bind _ _ _ _ (fun _ => known ((stage, Some (updated c)) :: (p, planned_over) :: saved backup))).
  { eapply triple_conseq; [apply (triple_alias_current ((stage, Some (updated c)) :: saved backup))| | | |].
    - intros s. apply known_swap.
    - intros [] s [_ H]. by apply known_swap.
    - intros e s. apply Hfail.
    - intros s. apply known_shows. }
  intros []. eapply triple_conseq; [apply triple_known_replace; [by apply absent_cons in Hstage as [_ ?]| |exact Hsp]|done|done| |intros s; apply known_shows].
  - destruct backup as [b|]; [|apply not_elem_of_nil]. apply absent_cons. split; [intros H; destruct Hb as [Hb _]; by apply Hb|apply not_elem_of_nil].
  - intros e s H. by eapply Hfail, unharmed_failed.
Qed.
(** What the handlers leave *)
Definition aborted (e : exn) (s : disk_io) : Prop :=
  file_at p s = planned_over ∨ (file_at p s = Some (updated c) ∧ e = update_failed (u " and rollback was incomplete")).
Lemma triple_alias_give_up_before {A} stage e : stage ≠ p →
  triple shows_either (failed [(p, planned_over)] e) (give_up_update (A := A) p stage c false e) (fun _ _ => False) aborted.
Proof.
  intros Hsp. unfold give_up_update. apply (triple_pure_after _ _ (known [(p, planned_over)])). intros He. rewrite He. cbn [negb].
  eapply (triple_bind _ _ _ _ (fun _ => known [(p, planned_over)])).
  - eapply triple_conseq; [apply triple_known_discard|done|done| |intros s; apply known_shows].
    + apply absent_cons. split; [done|apply not_elem_of_nil].
    + done.
  - intros []. apply triple_raise. intros s H. left. by apply known_head in H.
Qed.
Lemma triple_restore :
  triple shows_either (known [(p, Some (updated c))]) (restore p c) (fun _ => known [(p, planned_over)])
    (unharmed [(p, Some (updated c))]).
Proof.
  unfold restore, planned_over. destruct (previous_exists c) eqn:Ep.
  - eapply (triple_bind _ _ _ _ (fun _ => known [(p, Some (updated c))])).
    { eapply triple_conseq; [apply triple_known_name|done|done|done|intros s; apply known_shows_updated]. }
    intros hex. assert (restore_path p hex ≠ p) as Hr.
    { intros H. apply (f_equal (fun q : path => length q.2)) in H. unfold restore_path in H. cbn [snd] in H.
      rewrite !length_app in H. change (length (u ".")) with 1%nat in H. lia. }
    eapply (triple_bind _ _ _ _ (fun _ => known ((restore_path p hex, Some (previous c)) :: [(p, Some (updated c))]))).
    { eapply triple_conseq; [apply triple_write_fsynced|done|done|done|intros s; apply known_shows_updated].
      apply absent_cons. split; [done|apply not_elem_of_nil]. }
    intros []. eapply triple_conseq; [apply triple_known_replace|done|done|done|intros s; apply known_shows_updated]; [apply not_elem_of_nil..|done].
  - eapply triple_conseq; [apply (triple_known_unlink [] p), not_elem_of_nil|done|done|done|intros s; apply known_shows_updated].
Qed.
Lemma triple_alias_give_up_after {A} stage e : stage ≠ p →
  triple shows_either (failed [(p, Some (updated c))] e) (give_up_update (A := A) p stage c true e) (fun _ _ => False) aborted.
Proof.
  intros Hsp. unfold give_up_update. apply (triple_pure_after _ _ (known [(p, Some (updated c))])). intros He. rewrite He. cbn [negb].
  eapply (triple_bind _ _ _ _ (fun _ => known [(p, Some (updated c))])).
  - eapply triple_conseq; [apply triple_known_discard|done|done| |intros s; apply known_shows_updated].
    + apply absent_cons. split; [done|apply not_elem_of_nil].
    + done.
  - intros []. eapply (triple_bind _ _ _ _ (fun _ => known [(p, planned_over)])).
    + eapply triple_try; [apply triple_restore|]. intros e' s [Hs He']. rewrite He'. right. split; [by apply known_head in Hs|done].
    + intros []. apply triple_raise. intros s H. left. by apply known_head in H.
Qed.
Lemma triple_alias_confirm backup stage : stage ≠ p →
  triple shows_either (known ((p, Some (updated c)) :: saved backup))
    (try_except (confirm_config resolve ssh_G p backup c) (give_up_update p stage c true))
    (fun r s => r = Applied p backup ∧ accepted (updated c) ∧ known ((p, Some (updated c)) :: saved backup) s) aborted.
Proof.
  intros Hsp. eapply triple_try with (R := failed [(p, Some (updated c))]).
  - assert (∀ e s, failed ((p, Some (updated c)) :: saved backup) e s → failed [(p, Some (updated c))] e s) as Hfail.
    { intros e s [Hs He]. split; [|done]. apply known_head in Hs as H. split; [apply Hs|]. by repeat constructor. }
    eapply (triple_bind _ _ _ _ (fun _ s => accepted (updated c) ∧ known ((p, Some (updated c)) :: saved backup) s)).
    { eapply triple_conseq; [apply triple_validate|done|done|exact Hfail|intros s; apply known_shows_updated]. }
    intros []. apply triple_pure. intros Hacc.
    eapply (triple_bind _ _ _ _ (fun b s => Some (updated c) = Some b ∧ known ((p, Some (updated c)) :: saved backup) s)).
    { eapply triple_conseq; [apply triple_known_read|done|done| |intros s; apply known_shows_updated].
      intros e s H. by apply Hfail, unharmed_failed. }
    intros b. apply triple_pure. intros [= <-]. apply triple_guard; [|intros _; by apply triple_ret].
    unfold str_eqb. intros H. by rewrite bool_decide_eq_true_2 in H.
  - intros e. eapply triple_conseq; [by apply triple_alias_give_up_after|done| |done|done]. by intros a s.
Qed.
End putting.

(** A name that starts with no dot, as [config] does *)
Definition plain_name (p : path) : Prop := ∃ x n, p.2 = x :: n ∧ x ≠ 46.
Section placing.
Context {U : UnicodeDB}.
Variable resolve : str → res str.
Variable ssh_G : option bytes → str → option (Z * str).
Variable stamp : Q → str.
Lemma longer_name (p q : path) k : p.2 = k ++ q.2 ∨ p.2 = q.2 ++ k → k ≠ [] → p ≠ q.
Proof.
  intros [H|H] Hk ->; apply (f_equal length) in H; rewrite length_app in H; destruct k; [done|cbn in H; lia|done|cbn in H; lia].
Qed.
Lemma stage_distinct p hex now (b : option path) suffix : plain_name p →
  (∀ q, b = Some q → q = (p.1, (backup_base stamp p now).2 ++ suffix)) → distinct p b (stage_path p hex).
Proof.
  intros (x & n & Hn & Hx) Hb. split.
  - intros H. apply (f_equal (fun q : path => length q.2)) in H. unfold stage_path in H. cbn [snd] in H.
    rewrite !length_app in H. change (length (u ".")) with 1%nat in H. lia.
  - destruct b as [q|]; [|done]. rewrite (Hb q eq_refl). unfold backup_base, stage_path. cbn [snd]. split.
    + intros H. apply (f_equal (fun q : path => length q.2)) in H. cbn [snd] in H. rewrite !length_app in H.
      change (length (u ".serverops-backup-")) with 18%nat in H. lia.
    + rewrite Hn. cbn [app]. intros [= H]. by apply Hx.
Qed.

(** C20: applying a planned change writes over the content it was planned
    on only, and completely: whatever call fails, the OpenSSH configuration then
    shows what it showed before, but for a rollback that failed too, which the
    error says; a process that dies leaves the old content or the new.  When it
    returns, [ssh] accepts the file as it is, and the backup holds the old one. *)
Theorem alias_applied_or_taken_back (p : path) (c : SshAliasChange) s :
  (∀ i e, resolve i = Err e → is_exception e = true) → plain_name p → script_ok s →
  match apply_ssh_alias_change resolve ssh_G stamp p c s with
  | (Ret r, s') => file_at p s = planned_over c ∧ file_at p s' = Some (updated c) ∧ accepted resolve ssh_G c (updated c) ∧
                   (previous_exists c = true → ∃ b, backup_path r = Some b ∧ file_at b s' = Some (previous c))
  | (Raise e, s') => file_at p s' = file_at p s ∨
                     (file_at p s' = Some (updated c) ∧ e = update_failed (u " and rollback was incomplete"))
  | (Hang, s') => file_at p s' = file_at p s ∨ file_at p s' = Some (updated c)
  end.
Proof.
  intros Hres Hp Hs. set (f := file_at p s).
  set (I := fun s' => file_at p s' = f ∨ file_at p s' = Some (updated c)).
  assert (∀ s', known [(p, f)] s' → I s') as HI by (intros s' H; left; by apply known_head in H).
  assert (∀ e s', failed [(p, f)] e s' → file_at p s' = f ∨ (file_at p s' = Some (updated c) ∧ e = update_failed (u " and rollback was incomplete"))) as HR
    by (intros e s' [H _]; left; by apply known_head in H).
  enough (triple I (known [(p, f)]) (apply_ssh_alias_change resolve ssh_G stamp p c)
    (fun r s' => f = planned_over c ∧ file_at p s' = Some (updated c) ∧ accepted resolve ssh_G c (updated c) ∧
                 (previous_exists c = true → ∃ b, backup_path r = Some b ∧ file_at b s' = Some (previous c)))
    (fun e s' => file_at p s' = f ∨ (file_at p s' = Some (updated c) ∧ e = update_failed (u " and rollback was incomplete")))) as H.
  { apply (H s). split; [done|]. by repeat constructor. }
  eapply (triple_bind _ _ _ _ (fun _ s' => f = planned_over c ∧ known [(p, f)] s')).
  { eapply triple_conseq; [apply triple_alias_current|done|done|exact HR|exact HI]. }
  intros []. apply triple_pure. intros Hf.
  assert (∀ A (m : M disk_io A) Q, triple (known [(p, f)]) (known [(p, f)]) m Q (unharmed [(p, f)]) → triple I (known [(p, f)]) m Q
    (fun e s' => file_at p s' = f ∨ (file_at p s' = Some (updated c) ∧ e = update_failed (u " and rollback was incomplete")))) as Hstep.
  { intros A m Q Hm. eapply triple_conseq; [exact Hm|done|done| |exact HI]. intros e s' He. by apply (HR e), unharmed_failed. }
  eapply triple_bind; [apply Hstep, triple_known_call|]. intros [].
  eapply triple_bind; [apply Hstep, triple_known_clock|]. intros now.
  eapply (triple_bind _ _ _ _ (fun b s' => (∃ suffix, ∀ q, b = Some q → q = (p.1, (backup_base stamp p now).2 ++ suffix)) ∧
    (previous_exists c = true → is_Some b) ∧ known [(p, f)] s')).
  { apply Hstep. unfold backup_for. destruct (previous_exists c).
    - eapply triple_bind; [apply triple_known_exists_any|]. intros [].
      + eapply triple_bind; [apply triple_known_name|]. intros hex. apply triple_ret. intros s' H. split_and!; [|by eexists|done].
        exists (u "-" ++ take 8 hex). by intros q [= <-].
      + apply triple_ret. intros s' H. split_and!; [|by eexists|done]. exists []. intros q [= <-]. by rewrite app_nil_r.
    - apply triple_ret. intros s' H. split_and!; [|done|done]. exists []. by intros q. }
  intros b. apply triple_pure. intros [suffix Hb]. apply triple_pure. intros Hsome.
  eapply triple_bind; [apply Hstep, triple_known_name|]. intros hex.
  pose proof (stage_distinct p hex now b suffix Hp Hb) as Hd. pose proof Hd as [Hsp _].
  assert (∀ s', shows_either p c s' → I s') as HI' by (intros s' [_ H]; unfold I; by rewrite Hf).
  assert (∀ e s', aborted p c e s' → file_at p s' = f ∨ (file_at p s' = Some (updated c) ∧ e = update_failed (u " and rollback was incomplete"))) as HA
    by (intros e s' H; unfold aborted in H; by rewrite Hf).
  eapply (triple_bind _ _ _ _ (fun _ => known ((p, Some (updated c)) :: saved c b))).
  { eapply triple_conseq; [eapply triple_try; [apply (triple_alias_replace_config resolve ssh_G Hres p c (stage_path p hex) b Hd)|]|..].
    - intros e. eapply triple_conseq; [by apply triple_alias_give_up_before| |done|done|done]. done.
    - by rewrite Hf.
    - by intros [] s'.
    - exact HA.
    - exact HI'. }
  intros []. eapply triple_conseq; [by apply triple_alias_confirm|done| |exact HA|exact HI'].
  intros r s' (-> & Hacc & Hk). split_and!; [done|by apply known_head in Hk|done|]. intros Hpe. destruct (Hsome Hpe) as [q ->].
  exists q. split; [done|]. apply known_tail in Hk. by apply known_head in Hk.
Qed.
End placing.

(** An existing configuration, a system on which every call succeeds, and an
    OpenSSH that resolves the alias as the block says *)
Definition sample_spec : SshAliasSpec := Spec (u "web") (u "web.example") (u "deploy") 22 (u "C:\keys\web").
Definition sample_old : bytes := u "Host other" ++ nl.
Definition sample_block : str := default [] (match managed_alias_block (U := ascii_db) Ok (fun _ => true) sample_spec with Ok b => Some b | Err _ => None end).
Definition sample_change : SshAliasChange := Change true sample_old (sample_block ++ nl ++ nl ++ sample_old) sample_spec sample_block.
Definition sample_path : path := (u "C:\.ssh", u "config").
Definition sample_ssh (content : option bytes) (name : str) : option (Z * str) :=
  Some (0, join nl [u "hostname web.example"; u "user deploy"; u "port 22"; u "identityfile C:\keys\web"; u "identitiesonly yes"]).
Definition sample_disk : disk_io :=
  Io (Disk {[sample_path := sample_old]} false)
    ([Ok Done; Ok Done; Ok (Time (frac 0 1)); Ok (Token (u "00ff"))] ++ repeat (Ok Done) 10) [].
Lemma alias_applied_or_taken_back_witness :
  (apply_ssh_alias_change (U := ascii_db) Ok sample_ssh (fun _ => u "t") sample_path sample_change sample_disk).1
    = Ret (Applied sample_path (Some (u "C:\.ssh", u "config.serverops-backup-t"))) ∧
  file_at sample_path (apply_ssh_alias_change (U := ascii_db) Ok sample_ssh (fun _ => u "t") sample_path sample_change sample_disk).2
    = Some (updated sample_change).
Proof.
  pose proof (alias_applied_or_taken_back (U := ascii_db) Ok sample_ssh (fun _ => u "t") sample_path sample_change sample_disk
    ltac:(discriminate) ltac:(by exists 99, (u "onfig")) ltac:(by repeat constructor)) as H.
  destruct (apply_ssh_alias_change Ok sample_ssh (fun _ => u "t") sample_path sample_change sample_disk) as [o s'] eqn:E.
  assert ((o, s').1 = Ret (Applied sample_path (Some (u "C:\.ssh", u "config.serverops-backup-t")))) as Ho
    by (rewrite <- E; vm_compute; reflexivity).
  cbn [fst] in Ho. subst o.
  split; [reflexivity|]. by destruct H as (_ & H & _).
Defined.
Lemma alias_plan_owns_its_block_witness :
  plan_text (U := ascii_db) Ok (fun _ => true) true sample_old sample_spec = Ok sample_change ∧
  plan_text (U := ascii_db) Ok (fun _ => true) true (updated sample_change) sample_spec =
    Ok (Change true (updated sample_change) (updated sample_change) sample_spec sample_block).
Proof.
  assert (plan_text (U := ascii_db) Ok (fun _ => true) true sample_old sample_spec = Ok sample_change) as H by (vm_compute; reflexivity).
  split; [exact H|].
  refine (proj2 (alias_plan_owns_its_block (U := ascii_db) Ok (fun _ => true) true sample_old sample_spec sample_change _ _ H)).
  - vm_compute. reflexivity.
  - intros s' Hs. assert (validated (U := ascii_db) Ok (fun _ => true) sample_spec = Ok sample_spec) as Hv by (vm_compute; reflexivity).
    rewrite Hv in Hs. apply Ok_inj in Hs as <-. by apply (bool_decide_unpack _).
Defined.
