(* ===== verification/CodexConfig.v ===== *)
(** * CodexConfig: the installer's block in the Codex configuration (installer/codex_config.py)

    The installer keeps one marked block in the user's Codex configuration,
    which names the command of this server.  It plans the change on the text,
    shows it, and replaces the file in a way that can be taken back. *)
From S2P Require Import Prelude Errors Text TextFacts Regex Prog Json ConfigModel Codec Ssh Redaction Repository ManagedBlock Value.

Definition installer_error (m : str) : exn := controlled InstallerError m.
Definition BEGIN_MARKER : str := u "# >>> codex-serverops-mcp managed block >>>".
Definition END_MARKER : str := u "# <<< codex-serverops-mcp managed block <<<".
Definition SERVER_TABLE : str := u "[mcp_servers.serverops]".
Definition VERSION : re :=
  RSeqs [RBol; RChar (cls [(65, 90); (97, 122); (48, 57)]);
         RUpto 63 (RChar (cls [(65, 90); (97, 122); (48, 57); (46, 46); (95, 95); (43, 43); (33, 33); (45, 45)])); REol].
Definition DEVELOPMENT_VERSION_PREFIX : str := u "# Development wheel version: ".
Record CodexConfigChange := Change { previous_exists : bool; previous : str; updated : str; preview : str }.

(** What the development block asks of the system: paths, the members of a
    wheel, the headers of its metadata, the version a Python prints, and where
    [uvx] is.  [None] is an error that the code catches. *)
Record DevelopmentTools := Tools {
  resolve_path : str → res str;
  is_file : str → bool;
  wheel_members : str → option (list str);
  wheel_metadata : str → str → option (str → option str);
  python_version : str → option str;
  which_uvx : option str;
}.

(** [Path(p).suffix] on Windows *)
Definition name_of (p : str) : str :=
  rev (match partition_at 47 (map (fun c => if c =? 92 then 47 else c) (rev p)) with Some (r, _) => r | None => rev p end).
Definition suffix_of (p : str) : str :=
  match partition_at 46 (rev (name_of p)) with
  | Some (e, rest) => if str_eqb e [] || str_eqb rest [] then [] else 46 :: rev e
  | None => []
  end.

Section config.
Context {U : UnicodeDB} {T : TomlReader}.
Variable tools : DevelopmentTools.

(** ** The block *)
Definition toml_string (v : str) : str := dq ++ replace_all dq (u "\" ++ dq) (replace_all (u "\") (u "\\") v) ++ dq.
Definition validate_development_wheel (wheel version : str) : res unit :=
  raise_if (negb (is_file tools wheel) || negb (str_eqb (casefold (suffix_of wheel)) (u ".whl")))
    (installer_error (u "the development wheel must be an existing .whl file"));;
  let unreadable := installer_error (u "the development wheel could not be validated") in
  match wheel_members tools wheel with
  | None => Err unreadable
  | Some names =>
      match List.filter (ends_with (u ".dist-info/METADATA")) names with
      | [name] =>
          match wheel_metadata tools wheel name with
          | None => Err unreadable
          | Some header =>
              raise_if (negb (bool_decide (header (u "Name") = Some (u "codex-serverops-mcp"))))
                (installer_error (u "the development wheel has the wrong package name"));;
              raise_if (negb (bool_decide (header (u "Version") = Some version)))
                (installer_error (u "the development wheel version does not match this installer"))
          end
      | _ => Err (installer_error (u "the development wheel has ambiguous package metadata"))
      end
  end.
Definition validate_development_python (python : option str) : res str :=
  match python with
  | None => Err (installer_error (u "a development wheel requires an explicit Python 3.12 executable"))
  | Some python =>
      resolved ← resolve_path tools python;
      raise_if (negb (is_file tools resolved)) (installer_error (u "the development Python executable does not exist"));;
      match python_version tools resolved with
      | None => Err (installer_error (u "the development Python executable could not be verified"))
      | Some output =>
          raise_if (negb (str_eqb (strip output) (u "3.12")))
            (installer_error (u "the development Python executable must be Python 3.12"));;
          Ok resolved
      end
  end.
Definition development_lines (version command python wheel : str) : list str :=
  [DEVELOPMENT_VERSION_PREFIX ++ version; SERVER_TABLE; u "command = " ++ command;
   u "args = [" ++ dq ++ u "--python" ++ dq ++ u ", " ++ python ++ u ", " ++ dq ++ u "--offline" ++ dq ++ u ", "
   ++ dq ++ u "--from" ++ dq ++ u ", " ++ wheel ++ u ", " ++ dq ++ u "codex-serverops-mcp" ++ dq ++ u "]";
   u "startup_timeout_sec = 60"; u "tool_timeout_sec = 3730"].
Definition block_of (lines : list str) : str := join nl (BEGIN_MARKER :: lines ++ [END_MARKER]).
Definition development_wheel_block (version wheel : str) (python : option str) : res str :=
  resolved_wheel ← resolve_path tools wheel;
  validate_development_wheel resolved_wheel version;;
  resolved_python ← validate_development_python python;
  match which_uvx tools with
  | None => Err (installer_error (u "uvx is required for a development-wheel MCP configuration"))
  | Some uvx =>
      command ← resolve_path tools uvx;
      Ok (block_of (development_lines version (toml_string command) (toml_string resolved_python) (toml_string resolved_wheel)))
  end.
Definition release_lines (version : str) : list str :=
  [SERVER_TABLE; u "command = " ++ dq ++ u "uvx" ++ dq;
   u "args = [" ++ dq ++ u "--from" ++ dq ++ u ", " ++ dq ++ u "codex-serverops-mcp==" ++ version ++ dq ++ u ", "
   ++ dq ++ u "codex-serverops-mcp" ++ dq ++ u "]";
   u "startup_timeout_sec = 60"; u "tool_timeout_sec = 3730"].
Definition managed_block (version : str) (wheel python : option str) : res str :=
  raise_if (negb (fullmatch VERSION version))
    (installer_error (u "the distribution version is not safe for a pinned uvx command"));;
  match wheel with
  | Some wheel => development_wheel_block version wheel python
  | None =>
      raise_if (negb (is_None python)) (installer_error (u "a development Python requires a development wheel"));;
      Ok (block_of (release_lines version))
  end.

(** ** The plan *)
Definition parse_codex_config (content : str) : res (dict value) :=
  if str_eqb (strip content) [] then Ok []
  else match toml_loads content with
       | Ok d => Ok d
       | Err _ => Err (installer_error (u "the user Codex configuration is not valid TOML"))
       end.
Definition ambiguous : exn := installer_error (u "the managed Codex configuration markers are ambiguous").
Definition config_span (content : str) : res (option (nat * nat)) :=
  span ← managed_span BEGIN_MARKER END_MARKER ambiguous content;
  match span with
  | None => Ok None
  | Some (b, e) =>
      raise_if (negb (contains SERVER_TABLE (take (e - b) (drop b content))))
        (installer_error (u "the managed Codex configuration block is malformed"));;
      Ok (Some (b, e))
  end.
Definition has_unmarked_server (parsed : dict value) : bool :=
  match dget parsed (u "mcp_servers") with Some (VDict servers) => dhas servers (u "serverops") | _ => false end.
Definition strip_newlines : str → str := strip_with (Z.eqb 10).
Definition plan_text (existed : bool) (content version : str) (remove : bool) (wheel python : option str) : res CodexConfigChange :=
  parsed ← parse_codex_config content;
  span ← config_span content;
  match span with
  | None =>
      raise_if (has_unmarked_server parsed)
        (installer_error (u "an unmarked [mcp_servers.serverops] entry exists and was not changed"));;
      if remove then
        Ok (Change existed content content (u "No installer-managed Codex configuration block exists; no change is needed."))
      else
        block ← managed_block version wheel python;
        let separator := if str_eqb content [] then [] else if ends_with nl content then nl else nl ++ nl in
        let new := content ++ separator ++ block ++ nl in
        parse_codex_config new;;
        Ok (Change existed content new block)
  | Some (b, e) =>
      if remove then
        let rest := strip_newlines (take b content ++ drop e content) in
        let new := if str_eqb rest [] then rest else rest ++ nl in
        parse_codex_config new;;
        Ok (Change existed content new (u "Remove the installer-managed [mcp_servers.serverops] block."))
      else
        block ← managed_block version wheel python;
        let new := take b content ++ block ++ drop e content in
        parse_codex_config new;;
        Ok (Change existed content new block)
  end.
(** [path.read_text(encoding="utf-8")] makes every line end a newline. *)
Definition universal_newlines (t : str) : str := replace_all cr nl (replace_all (cr ++ nl) nl t).
Definition decode_text (content : bytes) : res str :=
  match utf8_decode content with
  | UText t => Ok (universal_newlines t)
  | UBad _ _ => Err (Builtin UnicodeDecodeError (u "invalid utf-8"))
  end.
Definition read_text (p : path) : M disk_io str := content ← read_bytes p; lift (decode_text content).
Definition plan_codex_config_change (p : path) (version : str) (remove : bool) (wheel python : option str) : M disk_io CodexConfigChange :=
  lift (raise_if (remove && (negb (is_None wheel) || negb (is_None python)))
          (installer_error (u "development runtime options cannot be combined with removal")));;
  existed ← exists_file p;
  content ← (if existed : bool then
               try_except (read_text p)
                 (fun e => if is_os_error e then raise (installer_error (u "the user Codex configuration could not be read")) else raise e)
             else mret []);
  lift (plan_text existed content version remove wheel python).

(** ** Putting it in place *)
Definition changed_after_preview : exn := installer_error (u "the Codex configuration changed after preview; generate it again").
Definition assert_current (p : path) (c : CodexConfigChange) : M disk_io unit :=
  present ← exists_file p;
  lift (raise_if (negb (Bool.eqb present (previous_exists c))) changed_after_preview);;
  again ← exists_file p;
  if again : bool then
    content ← read_text p;
    lift (raise_if (negb (str_eqb content (previous c))) changed_after_preview)
  else mret tt.
Definition backup_path (p : path) : path := (p.1, p.2 ++ u ".codex-serverops-mcp.backup").
Definition backup_stage_path (p : path) (hex : str) : path := (p.1, u "." ++ p.2 ++ u ".backup-" ++ hex).
Definition stage_path (p : path) (hex : str) : path := (p.1, u "." ++ p.2 ++ u ".stage-" ++ hex).
Definition restore_path (p : path) (hex : str) : path := (p.1, u "." ++ p.2 ++ u ".restore-" ++ hex).
Definition write_text (p : path) (t : str) : M disk_io unit := data ← lift (utf8_encode t); write_fsynced p data.
Definition rolled_back : exn := installer_error (u "the Codex configuration update failed and was rolled back").
Definition rollback_incomplete : exn := installer_error (u "the Codex configuration update failed and rollback was incomplete").
(** The rollback of the handler *)
Definition take_back (p : path) (had_previous replaced : bool) : M disk_io unit :=
  kept ← exists_file (backup_path p);
  if replaced && had_previous && kept then
    hex ← fresh_name;
    data ← read_bytes (backup_path p);
    write_fsynced (restore_path p hex) data;;
    replace_file (restore_path p hex) p
  else if replaced && negb had_previous then unlink p
  else mret tt.
Definition give_up_update (p backup_stage stage : path) (had_previous replaced : bool) (e : exn) : M disk_io unit :=
  if negb (is_exception e) then raise e
  else
    suppress is_os_error (unlink_present backup_stage);;
    suppress is_os_error (unlink_present stage);;
    try_except (take_back p had_previous replaced) (fun e' => if is_os_error e' then raise rollback_incomplete else raise e');;
    raise rolled_back.
Definition replace_config (p backup_stage stage : path) (had_previous : bool) (c : CodexConfigChange) : M disk_io unit :=
  (if had_previous then write_text backup_stage (previous c);; replace_file backup_stage (backup_path p) else mret tt);;
  write_text stage (updated c);;
  text ← read_text stage;
  lift (parse_codex_config text);;
  assert_current p c;;
  replace_file stage p.
Definition confirm_config (p : path) : M disk_io unit :=
  text ← read_text p; lift (parse_codex_config text);; mret tt.
Definition apply_codex_config_change (p : path) (c : CodexConfigChange) : M disk_io unit :=
  assert_current p c;;
  if str_eqb (updated c) (previous c) then mret tt
  else
    call (MakeDirectory p.1);;
    hex_backup ← fresh_name;
    hex_stage ← fresh_name;
    let backup_stage := backup_stage_path p hex_backup in
    let stage := stage_path p hex_stage in
    had_previous ← exists_file p;
    try_except (replace_config p backup_stage stage had_previous c) (give_up_update p backup_stage stage had_previous false);;
    try_except (confirm_config p) (give_up_update p backup_stage stage had_previous true).

(** ** The installed version *)
Definition PIN : re :=
  RSeqs [RLit (dq ++ u "codex-serverops-mcp=="); RGroup 1 (RPlus (RChar (fun c => negb (mem_Z c [34; 13; 10])))); RChar (one 34)].
Definition DEVELOPMENT_PIN : re :=
  RSeqs [RAlt RBol (RChar (one 10)); RLit DEVELOPMENT_VERSION_PREFIX;
         RGroup 1 (RPlus (RChar (fun c => negb (mem_Z c [13; 10])))); RAlt REol (RChar (one 10))].
Definition pinned (pattern : re) (block : str) : option str :=
  match search pattern block with Some (_, m) => group 1 m | None => None end.
Definition block_version (block : str) : res str :=
  match pinned PIN block with
  | Some version => Ok version
  | None =>
      match pinned DEVELOPMENT_PIN block with
      | Some version => if fullmatch VERSION version then Ok version
                        else Err (installer_error (u "the managed Codex block has no exact package pin"))
      | None => Err (installer_error (u "the managed Codex block has no exact package pin"))
      end
  end.
Definition inspect_text (content : str) : res (option str) :=
  parse_codex_config content;;
  span ← config_span content;
  match span with
  | None => Ok None
  | Some (b, e) => version ← block_version (take (e - b) (drop b content)); Ok (Some version)
  end.
Definition inspect_managed_version (p : path) : M disk_io (option str) :=
  present ← exists_file p;
  if negb present then mret None
  else content ← read_text p; lift (inspect_text content).
End config.

(** A release block names its version, and so does a development block. *)
Example release_version : block_version (U := ascii_db) (block_of (release_lines (u "1.2.3"))) = Ok (u "1.2.3").
Proof. vm_compute. reflexivity. Qed.
Example development_version :
  block_version (U := ascii_db) (block_of (development_lines (u "1.2.3") (u "uvx") (u "python") (u "wheel"))) = Ok (u "1.2.3").
Proof. vm_compute. reflexivity. Qed.

(** ** The block names its version *)
Lemma starts_with_long p z x : (length p ≤ length z)%nat → starts_with p (z ++ x) = starts_with p z.
Proof.
  revert z. induction p as [|a p IH]; intros [|b z] H; cbn in *; try done; [lia|]. by rewrite IH by lia.
Qed.
Section pins.
Context {U : UnicodeDB}.
Variables (lit : str) (f : Z → bool) (q : Z).
Let pattern : re := RSeqs [RLit lit; RGroup 1 (RPlus (RChar f)); RChar (one q)].
Lemma pattern_lang s t : lang pattern s t ↔
  ∃ v rest, after s = lit ++ v ++ q :: rest ∧ v ≠ [] ∧ forallb f v = true ∧
    t = MState (q :: rev v ++ rev lit ++ before s) rest
          ((1%nat, (mpos s + length lit, mpos s + length lit + length v)%nat) :: caps s).
Proof.
  unfold pattern. cbn [RSeqs]. rewrite lang_seq_inv. split.
  - intros (t1 & H1 & H2). apply lang_lit in H1 as (r1 & Ha & ->). apply lang_seq_inv in H2 as (t2 & H2 & H3).
    inversion H2 as [| | | | | | |n a s0 t0 Hp| | |]; subst. apply lang_plus_char in Hp as (v & r2 & Hb & Hv & Hf & ->).
    apply lang_char_inv in H3 as (c & r3 & Hc & Hq & ->). cbn [after before caps capture] in *. apply Z.eqb_eq in Hq as <-. subst.
    exists v, r3. split_and!; [done|done|done|]. unfold mpos. cbn [before]. rewrite !length_app, !length_rev. do 4 f_equal; lia.
  - intros (v & rest & Ha & Hv & Hf & ->). exists (MState (rev lit ++ before s) (v ++ q :: rest) (caps s)).
    split; [by apply lang_lit; exists (v ++ q :: rest)|]. apply lang_seq_inv.
    exists (capture 1 (length (rev lit ++ before s)) (MState (rev v ++ rev lit ++ before s) (q :: rest) (caps s))). split.
    + constructor. apply lang_plus_char. by exists v, (q :: rest).
    + apply lang_char_inv. exists q, rest. cbn. rewrite Z.eqb_refl. split_and!; [done|done|].
      unfold capture, mpos. cbn [before after caps]. rewrite !length_app, !length_rev. do 4 f_equal; lia.
Qed.
(** The first place where the literal stands, and the text up to the closing
    character *)
Lemma pinned_after w v rest :
  (∀ w1 w2, w = w1 ++ w2 → w2 ≠ [] → starts_with lit (w2 ++ lit ++ v ++ q :: rest) = false) →
  v ≠ [] → forallb f v = true → f q = false → pinned pattern (w ++ lit ++ v ++ q :: rest) = Some v.
Proof.
  intros Hw Hv Hf Hq. unfold pinned, search, search_from, start_of. cbn [after].
  rewrite search_skip; [|rewrite length_app; lia|].
  2: { intros w1 w2 Hww Hne. destruct (rmatch pattern Some _) as [t|] eqn:E; [|done].
       apply rmatch_sound in E as (s' & Hl & _). apply pattern_lang in Hl as (v' & r' & Ha & _). cbn [after] in Ha.
       specialize (Hw w1 w2 Hww Hne). by rewrite Ha, starts_with_app in Hw. }
  set (s := MState _ _ _).
  assert (is_Some (rmatch pattern Some s)) as [t Ht].
  { eapply rmatch_complete; [|by eexists]. apply pattern_lang. by exists v, rest. }
  assert (search_fuel (length (w ++ lit ++ v ++ q :: rest) - length w) pattern s = Some (mpos s, t)) as ->.
  { destruct (length (w ++ lit ++ v ++ q :: rest) - length w)%nat; cbn [search_fuel]; by rewrite Ht. }
  apply rmatch_sound in Ht as (s' & Hl & [= ->]). apply pattern_lang in Hl as (v' & r' & Ha & Hv' & Hf' & ->).
  cbn [after s] in Ha. apply app_inv_head in Ha.
  assert (v' = v ∧ r' = rest) as [-> ->].
  { clear -Ha Hf Hf' Hq. revert v' Hf' Ha. induction v as [|c v IH]; intros [|c' v'] Hf' Ha; cbn in *.
    - by injection Ha.
    - injection Ha as <- _. boolean. congruence.
    - injection Ha as -> _. boolean. congruence.
    - injection Ha as -> Ha. boolean. destruct (IH ltac:(done) v') as [-> ->]; auto. }
  unfold group, cap_of. cbn [List.find caps Nat.eqb fst snd]. f_equal. unfold whole, slice. cbn [before after s].
  unfold mpos. cbn [before s]. rewrite app_nil_r, !length_rev.
  cbn [rev]. rewrite !rev_app_distr, !rev_involutive, <- !app_assoc.
  rewrite (app_assoc w lit), drop_app_length' by (by rewrite length_app).
  replace (_ - _)%nat with (length v) by lia. cbn [app]. by rewrite take_app_length.
Qed.
End pins.

Section versions.
Context {U : UnicodeDB}.
Lemma version_chars v : fullmatch VERSION v = true → v ≠ [] ∧ Forall (fun c => 33 <= c <= 122 ∧ c ≠ 34 ∧ c ≠ 35) v.
Proof.
  intros (t & H & Ht)%fullmatch_lang. split.
  - intros ->. apply lang_seq_inv in H as (s1 & H1 & H). inversion H1; subst. apply lang_seq_inv in H as (s2 & H2 & H).
    by apply lang_char_inv in H2 as (c & rest & Ha & _).
  - apply class_upto_text in H; [|done]. apply Forall_forall. intros c Hc%list_elem_of_In. rewrite forallb_forall in H.
    specialize (H c Hc). unfold cls in H. cbn in H.
    repeat match goal with H : (_ || _) = true |- _ => apply orb_true_iff in H as [H|H] end; boolean; try discriminate; lia.
Qed.
Lemma release_block_version v : fullmatch VERSION v = true → block_version (block_of (release_lines v)) = Ok v.
Proof.
  intros H. apply version_chars in H as [Hne Hc]. unfold block_version.
  enough (pinned PIN (block_of (release_lines v)) = Some v) as -> by done.
  set (w := BEGIN_MARKER ++ nl ++ SERVER_TABLE ++ nl ++ u "command = " ++ dq ++ u "uvx" ++ dq ++ nl ++ u "args = [" ++ dq ++ u "--from" ++ dq ++ u ", ").
  set (lit := dq ++ u "codex-serverops-mcp==").
  set (rest := u ", " ++ dq ++ u "codex-serverops-mcp" ++ dq ++ u "]" ++ nl ++ u "startup_timeout_sec = 60" ++ nl ++ u "tool_timeout_sec = 3730" ++ nl ++ END_MARKER).
  assert (block_of (release_lines v) = w ++ lit ++ v ++ 34 :: rest) as ->.
  { unfold block_of, release_lines, w, lit, rest. cbn [join app]. rewrite <- !app_assoc. reflexivity. }
  apply pinned_after; [|done| |done].
  - intros w1 w2 Hw Hw2. rewrite (app_assoc w2 lit), starts_with_long by (rewrite length_app; lia).
    assert (forallb (fun i => negb (starts_with lit (drop i w ++ lit))) (seq 0 (length w)) = true) as Hall by (vm_compute; reflexivity).
    rewrite forallb_forall in Hall. specialize (Hall (length w1)).
    rewrite Hw, drop_app_length in Hall. apply negb_true_iff, Hall. apply in_seq. rewrite length_app.
    destruct w2; [done|cbn; lia].
  - apply forallb_forall. intros c Hin%list_elem_of_In. rewrite Forall_forall in Hc. specialize (Hc c Hin).
    apply negb_true_iff. unfold mem_Z. cbn [existsb]. zcmp. done.
Qed.
End versions.

(** ** Installing and removing *)
Lemma codex_begin_is_marker : marker BEGIN_MARKER.
Proof. by eexists. Qed.
Lemma codex_end_is_marker : marker END_MARKER.
Proof. by eexists. Qed.
Lemma codex_begin_end_apart : apart BEGIN_MARKER END_MARKER.
Proof. intros s. reflexivity. Qed.
Lemma codex_end_begin_apart : apart END_MARKER BEGIN_MARKER.
Proof. intros s. reflexivity. Qed.
#[local] Hint Resolve codex_begin_is_marker codex_end_is_marker codex_begin_end_apart codex_end_begin_apart : core.

Lemma drop_while_all p w s : forallb p w = true → drop_while p (w ++ s) = drop_while p s.
Proof. induction w as [|c w IH]; intros H; [done|]. cbn in *. boolean. by rewrite H, IH. Qed.
Lemma drop_while_some p w s : forallb p w = false → drop_while p (w ++ s) = drop_while p w ++ s.
Proof.
  induction w as [|c w IH]; intros H; [done|]. cbn in *. destruct (p c); [|done]. by apply IH.
Qed.
Lemma strip_with_end p s w : forallb p w = true → strip_with p (s ++ w) = strip_with p s.
Proof.
  intros Hw. unfold strip_with, lstrip, rstrip. destruct (forallb p s) eqn:Hs.
  - rewrite drop_while_all by done.
    assert (∀ x, forallb p x = true → drop_while p x = []) as H by (intros x Hx; rewrite <- (app_nil_r x); by rewrite drop_while_all).
    by rewrite (H w Hw), (H s Hs).
  - rewrite drop_while_some by done. rewrite rev_app_distr, drop_while_all; [done|].
    rewrite forallb_forall in *. intros c Hc%in_rev. auto.
Qed.
Lemma contains_later p w s : contains p s = true → contains p (w ++ s) = true.
Proof. intros Hs. induction w as [|a w IH]; [done|]. cbn [app]. by rewrite contains_cons, IH, orb_true_r. Qed.
Lemma contains_head p s : p ≠ [] → contains p (p ++ s) = true.
Proof.
  intros Hp. destruct p as [|c p]; [done|]. cbn [app]. rewrite contains_cons. change (c :: p ++ s) with ((c :: p) ++ s).
  by rewrite starts_with_app.
Qed.

Section installing.
Context {U : UnicodeDB} {T : TomlReader}.
Variable tools : DevelopmentTools.
Abbreviation no_markers := (unmarked BEGIN_MARKER END_MARKER).
(** What remains of a configuration without its block *)
Definition tidy (content : str) : str :=
  let rest := strip_newlines content in if str_eqb rest [] then rest else rest ++ nl.
Definition separator_of (content : str) : str := if str_eqb content [] then [] else if ends_with nl content then nl else nl ++ nl.
Lemma separator_newlines content : forallb (Z.eqb 10) (separator_of content) = true.
Proof. unfold separator_of. by destruct (str_eqb content []), (ends_with nl content). Qed.
Definition release_mid (version : str) : str := nl ++ join nl (release_lines version) ++ nl.
Lemma block_of_shape version : block_of (release_lines version) = BEGIN_MARKER ++ release_mid version ++ END_MARKER.
Proof. unfold block_of, release_mid, release_lines. cbn [join app]. by rewrite <- !app_assoc. Qed.
Lemma newlines_fit p s w : marker p → 10 ∉ p → forallb (Z.eqb 10) w = true → occurrences p (s ++ w) = occurrences p s.
Proof.
  intros Hp H10 Hw. rewrite occurrences_app.
  - rewrite (lacks_none p w); [lia|done|]. unfold lacks. rewrite forallb_forall in *. intros c Hc. by apply Hw, Z.eqb_eq in Hc as <-.
  - destruct w as [|c w]; [done|]. cbn [forallb] in Hw. boolean. zprop. cbn [fits]. intros Hin. apply H10. subst c. destruct p; [done|]. by right.
Qed.
Lemma no_markers_newlines s w : no_markers s → forallb (Z.eqb 10) w = true → no_markers (s ++ w).
Proof.
  intros [H1 H2] Hw. split; rewrite newlines_fit; auto; by apply (bool_decide_unpack (_ ∉ _)).
Qed.
Lemma release_mid_unmarked version : fullmatch VERSION version = true → no_markers (release_mid version).
Proof.
  intros [_ Hv]%version_chars.
  assert (lacks 35 (release_mid version) = true) as H; [|by split; apply lacks_none].
  assert (lacks 35 version = true) as Hl by (apply lacks_Forall; eapply Forall_impl; [exact Hv|]; by intros c (_ & _ & ?)).
  unfold release_mid, release_lines. cbn [join app]. rewrite !lacks_append, Hl. reflexivity.
Qed.

(** C21: installing and removing the Codex entry are inverse.  Installing
    puts the block behind the user's text, which it keeps, and the installed
    version can be read back from it; removing the block leaves the user's text
    as it was, but for the newlines at its ends. *)
Theorem codex_install_remove existed content version c :
  plan_text tools existed content version false None None = Ok c → no_markers content →
  updated c = content ++ separator_of content ++ preview c ++ nl ∧
  inspect_text (updated c) = Ok (Some version) ∧
  (is_ok (parse_codex_config (tidy content)) →
   ∀ other, ∃ c', plan_text tools true (updated c) other true None None = Ok c' ∧ updated c' = tidy content).
Proof.
  intros H Hc. unfold plan_text in H. inv_ok H.
  assert (config_span content = Ok None) as Hspan.
  { unfold config_span. by rewrite (proj2 (span_none _ _ codex_begin_is_marker codex_end_is_marker _ _) Hc). }
  rewrite Hspan in Ha0. injection Ha0 as <-. inv_ok H. apply raise_if_Ok in Ha0.
  match goal with H : managed_block _ _ _ _ = Ok _ |- _ => rename H into Hblk end.
  match goal with H : parse_codex_config (content ++ _) = Ok _ |- _ => rename H into Hparse end.
  unfold managed_block in Hblk. apply then_Ok in Hblk as [Hv Hblk]. apply raise_if_Ok, negb_false_iff in Hv.
  apply then_Ok in Hblk as [_ Hblk]. apply Ok_inj in Hblk as <-.
  apply Ok_inj in H as <-. cbn [updated preview]. fold (separator_of content) in *. split; [done|].
  set (new := content ++ separator_of content ++ block_of (release_lines version) ++ nl) in *.
  assert (new = managed BEGIN_MARKER END_MARKER (content ++ separator_of content) (release_mid version) nl) as Hnew
    by (unfold new, managed; rewrite block_of_shape; by rewrite <- !app_assoc).
  assert (managed_span BEGIN_MARKER END_MARKER ambiguous new =
    Ok (Some (length (content ++ separator_of content), (length (content ++ separator_of content) + length (block_of (release_lines version)))%nat))) as Hsp.
  { rewrite Hnew, block_of_shape. apply span_found; auto.
    - apply no_markers_newlines; [done|apply separator_newlines].
    - by apply release_mid_unmarked.
    - by split. }
  assert (config_span new = Ok (Some (length (content ++ separator_of content), (length (content ++ separator_of content) + length (block_of (release_lines version)))%nat)) ∧
          take (length (block_of (release_lines version))) (drop (length (content ++ separator_of content)) new) = block_of (release_lines version)) as [Hcs Htake].
  { assert (take (length (block_of (release_lines version))) (drop (length (content ++ separator_of content)) new) = block_of (release_lines version)) as Ht
      by (unfold new; rewrite app_assoc, drop_app_length; by rewrite take_app_length).
    split; [|exact Ht]. unfold config_span. rewrite Hsp. cbn [mbind result_mbind result_bind].
    replace (_ + _ - _)%nat with (length (block_of (release_lines version))) by lia. rewrite Ht, block_of_shape.
    unfold release_mid, release_lines. cbn [join]. rewrite <- !app_assoc.
    by rewrite (contains_later _ BEGIN_MARKER) by (by apply contains_later, contains_head). }
  split.
  - unfold inspect_text. rewrite Hparse. cbn [mbind result_mbind result_bind]. rewrite Hcs. cbn [mbind result_mbind result_bind].
    replace (_ + _ - _)%nat with (length (block_of (release_lines version))) by lia. by rewrite Htake, release_block_version.
  - intros Hok other. unfold plan_text. rewrite Hparse. cbn [mbind result_mbind result_bind]. rewrite Hcs. cbn [mbind result_mbind result_bind].
    assert (take (length (content ++ separator_of content)) new = content ++ separator_of content) as -> by (unfold new; by rewrite app_assoc, take_app_length).
    assert (drop (length (content ++ separator_of content) + length (block_of (release_lines version))) new = nl) as ->.
    { unfold new. rewrite (app_assoc content), (app_assoc (content ++ _)), drop_app_length'; [done|by rewrite (length_app (content ++ _))]. }
    assert (strip_newlines ((content ++ separator_of content) ++ nl) = strip_newlines content) as ->.
    { unfold strip_newlines. rewrite <- app_assoc. apply strip_with_end. by rewrite forallb_app, separator_newlines. }
    fold (tidy content). destruct (parse_codex_config (tidy content)) as [d|]; [|done].
    eexists. split; [reflexivity|done].
Qed.
End installing.

(** ** The file is replaced whole, or the text taken back *)
Definition plain_name (p : path) : Prop := ∃ x n, p.2 = x :: n ∧ x ≠ 46.
Section applying.
Context {U : UnicodeDB} {T : TomlReader}.
Variables (p : path) (c : CodexConfigChange).
Hypothesis Hname : plain_name p.
(** What the file held, and that it is what the change was planned on *)
Variable f : option bytes.
Definition planned_on : Prop :=
  match f with
  | Some b => previous_exists c = true ∧ decode_text b = Ok (previous c)
  | None => previous_exists c = false
  end.
Definition new_content : bytes := utf8_bytes (updated c).
Definition old_content : option bytes := if previous_exists c then Some (utf8_bytes (previous c)) else None.
Definition one_of_them (s : disk_io) : Prop :=
  file_at p s = f ∨ file_at p s = Some new_content ∨ file_at p s = old_content.

Lemma paths_distinct hex hex' :
  backup_stage_path p hex ≠ p ∧ stage_path p hex ≠ p ∧ restore_path p hex ≠ p ∧ backup_path p ≠ p ∧
  backup_stage_path p hex ≠ backup_path p ∧ stage_path p hex ≠ backup_path p ∧ restore_path p hex ≠ backup_path p ∧
  stage_path p hex ≠ backup_stage_path p hex'.
Proof.
  destruct Hname as (x & n & Hn & Hx).
  assert (∀ a b (q : path), (a, b) = q → b = q.2) as Hsnd by (by intros a b q <-).
  split_and!; intros H; apply Hsnd in H; cbn [backup_stage_path stage_path restore_path backup_path snd] in H;
    try (by rewrite Hn in H; injection H as H; apply Hx);
    try (apply (f_equal length) in H; rewrite ?length_app in H; change (length (u ".")) with 1%nat in H;
         change (length (u ".codex-serverops-mcp.backup")) with 27%nat in H; lia).
  apply app_inv_head in H. by apply app_inv_head in H.
Qed.
Lemma triple_write_text l q t : absent_from q l →
  triple (known l) (known l) (write_text q t) (fun _ => known ((q, Some (utf8_bytes t)) :: l)) (failed l).
Proof.
  intros Hq. unfold write_text, utf8_encode. destruct (existsb surrogate t).
  - intros s Hs. by split.
  - eapply triple_conseq; [by apply (triple_write_fsynced l q (utf8_bytes t))|done|done|apply unharmed_failed|done].
Qed.
Lemma triple_read_text l q b :
  triple (known ((q, b) :: l)) (known ((q, b) :: l)) (read_text q)
    (fun t s => (∃ d, b = Some d ∧ decode_text d = Ok t) ∧ known ((q, b) :: l) s) (failed ((q, b) :: l)).
Proof.
  eapply triple_bind; [eapply triple_raising; [apply triple_known_read|apply unharmed_failed]|].
  intros d. apply triple_pure. intros ->. apply triple_lift.
  - intros t s Ht Hs. split; [by eexists|done].
  - intros e s He Hs. split; [done|]. unfold decode_text in He. destruct (utf8_decode d); [done|]. by injection He as <-.
Qed.
Lemma triple_parse l t :
  triple (known l) (known l) (lift (parse_codex_config t)) (fun _ => known l) (failed l).
Proof.
  apply triple_lift; [done|]. intros e s He Hs. split; [done|]. unfold parse_codex_config in He.
  destruct (str_eqb _ _); [done|]. destruct (toml_loads t); [done|]. by injection He as <-.
Qed.
Lemma triple_codex_current l :
  triple (known ((p, f) :: l)) (known ((p, f) :: l)) (assert_current p c)
    (fun _ s => planned_on ∧ known ((p, f) :: l) s) (failed ((p, f) :: l)).
Proof.
  unfold assert_current, planned_on.
  eapply triple_bind; [eapply triple_raising; [apply triple_known_exists|apply unharmed_failed]|]. intros b1. apply triple_pure. intros ->.
  apply triple_guard; [by split|]. intros Hb. apply negb_false_iff, eqb_prop in Hb.
  eapply triple_bind; [eapply triple_raising; [apply triple_known_exists|apply unharmed_failed]|]. intros b2. apply triple_pure. intros ->.
  rewrite <- Hb. case_bool_decide as Hf; [|apply triple_ret; intros s Hs; split; [|done]; destruct f; [destruct Hf; by eexists|done]].
  eapply triple_bind; [apply triple_read_text|]. intros t. apply triple_pure. intros (d & Hd & Ht). rewrite Hd.
  apply triple_lift; intros x s Hx Hs; unfold raise_if, str_eqb in Hx; case_bool_decide as E; cbn [negb] in Hx; try discriminate.
  - split; [|done]. by rewrite Ht, E.
  - split; [done|]. by injection Hx as <-.
Qed.

Definition saved (had : bool) : contents := if had then [(backup_path p, Some (utf8_bytes (previous c)))] else [].
Lemma known_one l s : known ((p, f) :: l) s → one_of_them s.
Proof. intros H. left. by apply known_head in H. Qed.
Lemma known_new l s : known ((p, Some new_content) :: l) s → one_of_them s.
Proof. intros H. right. left. by apply known_head in H. Qed.
(** A step that keeps what the file held *)
Lemma old_step {A} l (m : M disk_io A) Q :
  triple (known ((p, f) :: l)) (known ((p, f) :: l)) m Q (failed ((p, f) :: l)) →
  triple one_of_them (known ((p, f) :: l)) m Q (failed [(p, f)]).
Proof.
  intros H. eapply triple_conseq; [exact H|done|done| |intros s; apply known_one]. intros e s. apply failed_head.
Qed.
Lemma saved_absent q had : q ≠ backup_path p → absent_from q (saved had).
Proof. intros H. destruct had; [by apply absent_one|apply absent_nil]. Qed.
Lemma triple_codex_replace_config hexb hexs had :
  triple one_of_them (known [(p, f)]) (replace_config p (backup_stage_path p hexb) (stage_path p hexs) had c)
    (fun _ => known ((p, Some new_content) :: saved had)) (failed [(p, f)]).
Proof.
  destruct (paths_distinct hexb hexs) as (Hb & _ & _ & Hk & Hbk & _ & _ & _).
  destruct (paths_distinct hexs hexb) as (_ & Hs & _ & _ & _ & Hsk & _ & Hsb). unfold replace_config.
  assert (absent_from (stage_path p hexs) ((p, f) :: saved had)) as Hstage by (apply absent_cons; split; [done|by apply saved_absent]).
  eapply (triple_bind _ _ _ _ (fun _ => known ((p, f) :: saved had))).
  { destruct had; cbn [saved]; [|by apply triple_ret].
    eapply triple_bind; [apply old_step, triple_write_text; by apply absent_one|]. intros [].
    eapply triple_conseq; [apply (triple_known_replace_any [(p, f)]); [by apply absent_one|by apply absent_one|done]|done| | |].
    - intros [] s. apply known_swap.
    - intros e s H. by apply unharmed_failed.
    - intros s. apply known_one. }
  intros []. eapply triple_bind; [by apply old_step, triple_write_text|]. intros [].
  eapply (triple_bind _ _ _ _ (fun _ => known ((stage_path p hexs, Some new_content) :: (p, f) :: saved had))).
  { eapply triple_conseq; [apply triple_read_text|done|by intros t s [_ ?]| |].
    - intros e s H. by eapply failed_head, failed_tail.
    - intros s H. by eapply known_one, known_tail. }
  intros text. eapply (triple_bind _ _ _ _ (fun _ => known ((stage_path p hexs, Some new_content) :: (p, f) :: saved had))).
  { eapply triple_conseq; [apply triple_parse|done|done| |].
    - intros e s H. by eapply failed_head, failed_tail.
    - intros s H. by eapply known_one, known_tail. }
  intros _. eapply (triple_bind _ _ _ _ (fun _ => known ((stage_path p hexs, Some new_content) :: (p, f) :: saved had))).
  { eapply triple_conseq; [apply (triple_codex_current ((stage_path p hexs, Some new_content) :: saved had))|intros s; apply known_swap|..].
    - intros [] s [_ H]. by apply known_swap.
    - intros e s. apply failed_head.
    - intros s. apply known_one. }
  intros []. eapply triple_conseq; [apply triple_known_replace; [|by apply saved_absent|exact Hs]|done|done| |].
  - by apply saved_absent.
  - intros e s H. by eapply failed_head, unharmed_failed.
  - intros s. apply known_one.
Qed.

(** *** The handlers *)
Definition gave_up (e : exn) (s : disk_io) : Prop :=
  file_at p s = f ∨ (file_at p s = old_content ∧ e = rolled_back) ∨ (file_at p s = Some new_content ∧ e = rollback_incomplete).
Lemma triple_discards l hexb hexs : absent_from (backup_stage_path p hexb) l → absent_from (stage_path p hexs) l →
  triple (known l) (known l)
    (suppress is_os_error (unlink_present (backup_stage_path p hexb));; suppress is_os_error (unlink_present (stage_path p hexs)))
    (fun _ => known l) (fun _ _ => False).
Proof. intros H1 H2. eapply triple_bind; [by apply triple_known_discard|]. intros []. by apply triple_known_discard. Qed.
Lemma give_up_split bs st had replaced e : is_exception e = true →
  ∀ s, give_up_update p bs st had replaced e s =
  ((suppress is_os_error (unlink_present bs);; suppress is_os_error (unlink_present st));;
   try_except (take_back p had replaced) (fun e' => if is_os_error e' then raise rollback_incomplete else raise e');;
   raise (A := unit) rolled_back) s.
Proof.
  intros He s. unfold give_up_update. rewrite He. cbn [negb]. unfold mbind, prog_mbind, prog_bind.
  by destruct (suppress is_os_error (unlink_present bs) s) as [[]].
Qed.
Lemma triple_codex_give_up_before hexb hexs had e :
  triple one_of_them (failed [(p, f)] e) (give_up_update p (backup_stage_path p hexb) (stage_path p hexs) had false e)
    (fun _ _ => False) gave_up.
Proof.
  destruct (paths_distinct hexb hexs) as (Hb & _). destruct (paths_distinct hexs hexb) as (_ & Hs & _).
  apply (triple_pure_after _ _ (known [(p, f)])). intros He s Hk. rewrite give_up_split by done. revert s Hk.
  eapply (triple_bind _ _ _ _ (fun _ => known [(p, f)])).
  { eapply triple_conseq; [apply triple_discards; by apply absent_one|done|done|done|intros s; apply known_one]. }
  intros []. eapply (triple_bind _ _ _ _ (fun _ => known [(p, f)])).
  - eapply triple_try with (R := fun _ _ => False); [|by intros e' s []]. unfold take_back. cbn [andb].
    eapply (triple_bind _ _ _ _ (fun _ => known [(p, f)])); [|intros _; by apply triple_ret].
    apply triple_state. intros d. apply triple_ret. by intros s [? _].
  - intros []. apply triple_raise. intros s H. left. by apply known_head in H.
Qed.
Lemma triple_take_back had : previous_exists c = had →
  triple one_of_them (known ((p, Some new_content) :: saved had)) (take_back p had true)
    (fun _ s => file_at p s = old_content) (fun e s => file_at p s = Some new_content ∧ is_os_error e = true).
Proof.
  intros Hhad. unfold take_back, old_content. rewrite Hhad. cbn [andb].
  assert (∀ l e s, unharmed ((p, Some new_content) :: l) e s → file_at p s = Some new_content ∧ is_os_error e = true) as HE
    by (intros l e s [H He]; split; [by apply known_head in H|done]).
  destruct (paths_distinct [] []) as (_ & _ & _ & Hbp & _). destruct had; cbn [saved negb].
  - set (l := [(p, Some new_content)]).
    eapply (triple_bind _ _ _ _ (fun b s => b = true ∧ known ((backup_path p, Some (utf8_bytes (previous c))) :: l) s)).
    { apply triple_state. intros d. apply triple_ret. intros s [Hs <-]. apply known_swap in Hs. split; [|exact Hs].
      apply known_head in Hs. unfold file_at in Hs. by rewrite Hs. }
    intros b. apply triple_pure. intros ->.
    eapply (triple_bind _ _ _ _ (fun _ => known ((backup_path p, Some (utf8_bytes (previous c))) :: l))).
    { eapply triple_conseq; [apply triple_known_name|done|done| |].
      - intros e s [H He]. split; [|done]. apply known_swap, known_head in H. done.
      - intros s H. by eapply known_new, known_swap. }
    intros hex. eapply (triple_bind _ _ _ _ (fun d s => Some (utf8_bytes (previous c)) = Some d ∧ known ((backup_path p, Some (utf8_bytes (previous c))) :: l) s)).
    { eapply triple_conseq; [apply triple_known_read|done|done| |].
      - intros e s [H He]. split; [|done]. apply known_swap, known_head in H. done.
      - intros s H. by eapply known_new, known_swap. }
    intros d. apply triple_pure. intros [= <-].
    destruct (paths_distinct hex []) as (_ & _ & Hr & _ & _ & _ & Hrb & _).
    eapply (triple_bind _ _ _ _ (fun _ => known ((restore_path p hex, Some (utf8_bytes (previous c))) :: l))).
    { eapply triple_conseq; [apply (triple_write_fsynced l (restore_path p hex)); by apply absent_one|intros s; apply known_tail|done|apply HE|].
      intros s. apply known_new. }
    intros []. eapply triple_conseq; [apply (triple_known_replace [] (restore_path p hex)); [apply absent_nil|apply absent_nil|exact Hr]|done| |apply HE|].
    + intros [] s H. by apply known_head in H.
    + intros s. apply known_new.
  - eapply (triple_bind _ _ _ _ (fun _ => known [(p, Some new_content)])).
    { apply triple_state. intros d. apply triple_ret. by intros s [? _]. }
    intros b. eapply triple_conseq; [apply (triple_known_unlink []), absent_nil|done| |apply HE|intros s; apply known_new].
    intros [] s H. by apply known_head in H.
Qed.
Lemma triple_codex_give_up_after hexb hexs had e : previous_exists c = had →
  triple one_of_them (failed ((p, Some new_content) :: saved had) e)
    (give_up_update p (backup_stage_path p hexb) (stage_path p hexs) had true e) (fun _ _ => False) gave_up.
Proof.
  intros Hhad. destruct (paths_distinct hexb hexs) as (Hb & _ & _ & _ & Hbk & _).
  destruct (paths_distinct hexs hexb) as (_ & Hs & _ & _ & _ & Hsk & _).
  apply (triple_pure_after _ _ (known ((p, Some new_content) :: saved had))). intros He s Hk. rewrite give_up_split by done. revert s Hk.
  eapply (triple_bind _ _ _ _ (fun _ => known ((p, Some new_content) :: saved had))).
  { eapply triple_conseq; [apply (triple_discards ((p, Some new_content) :: saved had)); (apply absent_cons; split; [done|by apply saved_absent])|done|done|done|intros s; apply known_new]. }
  intros []. eapply (triple_bind _ _ _ _ (fun _ s => file_at p s = old_content)).
  - eapply triple_try; [by apply triple_take_back|]. intros e' s [H He']. rewrite He'. right. right. by split.
  - intros []. apply triple_raise. intros s H. right. left. by split.
Qed.
Lemma triple_codex_confirm hexb hexs had : previous_exists c = had →
  triple one_of_them (known ((p, Some new_content) :: saved had))
    (try_except (confirm_config p) (give_up_update p (backup_stage_path p hexb) (stage_path p hexs) had true))
    (fun _ => known ((p, Some new_content) :: saved had)) gave_up.
Proof.
  intros Hhad. eapply triple_try with (R := failed ((p, Some new_content) :: saved had)).
  - eapply triple_bind.
    { eapply triple_conseq; [apply triple_read_text|done|done|done|intros s; apply known_new]. }
    intros t. apply triple_pure. intros _. eapply (triple_bind _ _ _ _ (fun _ => known ((p, Some new_content) :: saved had))).
    { eapply triple_conseq; [apply triple_parse|done|done|done|intros s; apply known_new]. }
    intros _. by apply triple_ret.
  - intros e. eapply triple_conseq; [by apply triple_codex_give_up_after|done|by intros a s|done|done].
Qed.
End applying.

Section applied.
Context {U : UnicodeDB} {T : TomlReader}.
(** Applying a planned change to the Codex configuration starts only
    when the file still reads as it did when the change was planned.  Then the file
    holds the new text when it returns, with the old text in the backup.  When it
    fails, the file is what it was, or the old text was written back after it had
    been replaced, or that failed too and the error says so.  A process that dies
    leaves one of these, never a part. *)
Theorem codex_applied_or_taken_back (p : path) (c : CodexConfigChange) s :
  plain_name p → script_ok s →
  match apply_codex_config_change p c s with
  | (Ret _, s') =>
      planned_on c (file_at p s) ∧
      (updated c = previous c ∧ file_at p s' = file_at p s ∨
       file_at p s' = Some (new_content c) ∧
       (previous_exists c = true → file_at (backup_path p) s' = Some (utf8_bytes (previous c))))
  | (Raise e, s') => gave_up p c (file_at p s) e s'
  | (Hang, s') => one_of_them p c (file_at p s) s'
  end.
Proof.
  intros Hname Hs. set (f := file_at p s).
  enough (triple (one_of_them p c f) (known [(p, f)]) (apply_codex_config_change p c)
    (fun _ s' => planned_on c f ∧ (updated c = previous c ∧ file_at p s' = f ∨
       file_at p s' = Some (new_content c) ∧ (previous_exists c = true → file_at (backup_path p) s' = Some (utf8_bytes (previous c)))))
    (gave_up p c f)) as H.
  { apply (H s). split; [done|]. by repeat constructor. }
  assert (∀ A (m : M disk_io A) Q, triple (known [(p, f)]) (known [(p, f)]) m Q (failed [(p, f)]) →
            triple (one_of_them p c f) (known [(p, f)]) m Q (gave_up p c f)) as Hold.
  { intros A m Q Hm. eapply triple_conseq; [exact Hm|done|done| |intros s'; apply known_one].
    intros e s' [H _]. left. by apply known_head in H. }
  assert (∀ A (m : M disk_io A) Q, triple (known [(p, f)]) (known [(p, f)]) m Q (unharmed [(p, f)]) →
            triple (one_of_them p c f) (known [(p, f)]) m Q (gave_up p c f)) as Hcall.
  { intros A m Q Hm. apply Hold. eapply triple_raising; [exact Hm|apply unharmed_failed]. }
  unfold apply_codex_config_change. eapply triple_bind; [apply Hold, triple_codex_current|]. intros []. apply triple_pure. intros Hplan.
  destruct (str_eqb (updated c) (previous c)) eqn:Eu.
  { apply triple_ret. intros s' H. split; [done|]. left. split; [by apply bool_decide_eq_true in Eu|by apply known_head in H]. }
  eapply triple_bind; [apply Hcall, triple_known_call|]. intros [].
  eapply triple_bind; [apply Hcall, triple_known_name|]. intros hexb.
  eapply triple_bind; [apply Hcall, triple_known_name|]. intros hexs.
  eapply triple_bind; [apply Hcall, triple_known_exists|]. intros had. apply triple_pure. intros ->.
  assert (previous_exists c = bool_decide (is_Some f)) as Hhad.
  { unfold planned_on in Hplan. destruct f as [b|]; [by destruct Hplan as [-> _]; rewrite bool_decide_eq_true_2 by (by eexists)|].
    rewrite bool_decide_eq_false_2; [done|]. by intros [? ?]. }
  set (had := bool_decide (is_Some f)) in *.
  eapply (triple_bind _ _ _ _ (fun _ => known ((p, Some (new_content c)) :: saved p c had))).
  { eapply triple_try; [by apply triple_codex_replace_config|]. intros e. eapply triple_conseq; [by apply triple_codex_give_up_before|done|by intros a s'|done|done]. }
  intros []. eapply triple_conseq; [by apply triple_codex_confirm|done| |done|done].
  intros [] s' Hk. split; [done|]. right. split; [by apply known_head in Hk|]. rewrite Hhad. intros Hh. rewrite Hh in Hk. cbn [saved] in Hk.
  apply known_tail in Hk. by apply known_head in Hk.
Qed.
End applied.

(** ** On a concrete file *)
#[local] Instance any_toml : TomlReader := fun _ => Ok [].
Definition no_tools : DevelopmentTools := Tools Ok (fun _ => true) (fun _ => None) (fun _ _ => None) (fun _ => None) None.
Definition sample_path : path := (u "C:\.codex", u "config.toml").
Definition sample_text : str := u "model = 1" ++ nl.
Definition sample_version : str := u "0.9.0".
Definition sample_change : CodexConfigChange :=
  match plan_text (U := ascii_db) no_tools true sample_text sample_version false None None with Ok c => c | Err _ => Change true [] [] [] end.
Lemma codex_install_remove_witness :
  inspect_text (U := ascii_db) (updated sample_change) = Ok (Some sample_version) ∧
  ∃ c', plan_text (U := ascii_db) no_tools true (updated sample_change) sample_version true None None = Ok c' ∧ updated c' = sample_text.
Proof.
  destruct (codex_install_remove (U := ascii_db) (T := any_toml) no_tools true sample_text sample_version sample_change
              ltac:(vm_compute; reflexivity) ltac:(by apply (bool_decide_unpack _))) as (_ & H1 & H2).
  split; [exact H1|]. exact (H2 ltac:(vm_compute; exact I) sample_version).
Defined.
(** Every call succeeds; a file with Windows line ends *)
Definition sample_disk (rest : list (res disk_reply)) : disk_io :=
  Io (Disk {[sample_path := u "model = 1" ++ cr ++ nl]} false)
    ([Ok Done; Ok Done; Ok (Token (u "0a")); Ok (Token (u "0b"))] ++ rest) [].
Lemma codex_applied_or_taken_back_witness :
  file_at sample_path (apply_codex_config_change (T := any_toml) sample_path sample_change (sample_disk (repeat (Ok Done) 12))).2
    = Some (new_content sample_change).
Proof.
  pose proof (codex_applied_or_taken_back (T := any_toml) sample_path sample_change (sample_disk (repeat (Ok Done) 12))
    ltac:(by exists 99, (u "onfig.toml")) ltac:(by repeat constructor)) as H.
  destruct (apply_codex_config_change sample_path sample_change (sample_disk (repeat (Ok Done) 12))) as [o s'] eqn:E.
  assert ((o, s').1 = Ret tt) as Ho by (rewrite <- E; vm_compute; reflexivity).
  cbn [fst] in Ho. subst o. destruct H as (_ & [[H _]|[H _]]); [|exact H]. apply (f_equal (fun l => len l =? 10)) in H. vm_compute in H. discriminate H.
Defined.
(** The old text that a rollback writes back has newlines for the line ends the
    file had. *)
Example rollback_changes_line_ends :
  let '(o, s) := apply_codex_config_change (T := any_toml) sample_path sample_change
                   (sample_disk (repeat (Ok Done) 10 ++ [Err (Builtin OSError [])] ++ repeat (Ok Done) 2 ++ [Ok (Token (u "0c"))] ++ repeat (Ok Done) 5)) in
  o = Raise rolled_back ∧ file_at sample_path s = Some (u "model = 1" ++ nl).
Proof. vm_compute. split; reflexivity. Qed.
