(* ===== verification/BrokerTask.v ===== *)
(** * BrokerTask: the per-user broker task (broker/task_model.py, broker/task_scheduler.py)

    Windows starts the broker through a scheduled task of the user.  A task
    belongs to this program when its description carries a marker and a digest
    of its action, and its principal, trigger and settings are the ones the
    program registers.  Anything else under the same name is left alone. *)
From S2P Require Import Prelude Errors Text TextFacts Regex Sha256 Prog Json ConfigModel Ssh Redaction CodexConfig.

Definition task_error (m : str) : exn := controlled BrokerTaskError m.
Definition task_unavailable (m : str) : exn := controlled BrokerTaskUnavailable m.

(** ** The task model *)
Definition MANAGED_TASK_MARKER : str := u "codex-serverops-mcp:broker-task:v1".
Definition description_start : str := u "Codex ServerOps MCP per-user broker. Managed marker: " ++ MANAGED_TASK_MARKER ++ u "; source=".
Definition MANAGED_DESCRIPTION : re :=
  RSeqs [RBol; RLit description_start; RGroup 1 (RPlus (RChar (fun c => negb (mem_Z c [13; 10]))));
         RLit (u "; action="); RGroup 2 (RRepeat 16 (RChar (cls [(48, 57); (97, 102)]))); REol].
Definition digest_of (action : str) : res str := b ← utf8_encode action; Ok (take 16 (sha256_hex b)).
Definition broker_action_digest (executable argument_line working_directory : str) : res str :=
  digest_of (executable ++ [0] ++ argument_line ++ [0] ++ working_directory).
Definition legacy_broker_action_digest (executable argument_line : str) : res str :=
  digest_of (executable ++ [0] ++ argument_line).
Definition managed_description_matches {U : UnicodeDB} (description executable argument_line working_directory : str) : res bool :=
  let found := fullmatch_state MANAGED_DESCRIPTION description in
  digest ← broker_action_digest executable argument_line working_directory;
  legacy ← (match working_directory with [] => Some <$> legacy_broker_action_digest executable argument_line | _ => Ok None end);
  Ok (match found with
      | Some m =>
          match group 1 m, group 2 m with
          | Some source, Some action =>
              negb (str_eqb (strip source) []) && (str_eqb action digest || bool_decide (Some action = legacy))
          | _, _ => false
          end
      | None => false
      end).

(** [subprocess.list2cmdline] *)
Fixpoint quote_argument (arg : str) (backslashes : nat) (quoted : bool) : str :=
  match arg with
  | [] => repeat 92 backslashes ++ (if quoted then repeat 92 backslashes ++ dq else [])
  | c :: arg =>
      if c =? 92 then quote_argument arg (S backslashes) quoted
      else if c =? 34 then repeat 92 (backslashes * 2) ++ u "\" ++ dq ++ quote_argument arg 0 quoted
      else repeat 92 backslashes ++ [c] ++ quote_argument arg 0 quoted
  end.
Definition command_line_argument (arg : str) : str :=
  let quoted := mem_Z 32 arg || mem_Z 9 arg || str_eqb arg [] in
  (if quoted then dq else []) ++ quote_argument arg 0 quoted.
Definition list2cmdline (args : list str) : str := join (u " ") (map command_line_argument args).

Record BrokerTaskSpec := Spec { executable : str; arguments : list str; source : str; working_directory : option str }.
Record BrokerTaskStatus := Status {
  status_name : str; exists_ : bool; managed : bool; running : bool; status_executable : option str; status_arguments : option str }.
Definition argument_line (s : BrokerTaskSpec) : str := list2cmdline (arguments s).
Definition spec_directory (s : BrokerTaskSpec) : str := default [] (working_directory s).
Definition description (s : BrokerTaskSpec) : res str :=
  digest ← broker_action_digest (executable s) (argument_line s) (spec_directory s);
  Ok (description_start ++ source s ++ u "; action=" ++ digest).
Definition broker_task_name (sid : str) : res str :=
  if forallb is_ascii sid then Ok (u "Codex ServerOps MCP Broker " ++ take 12 (sha256_hex sid))
  else Err (Builtin UnicodeEncodeError (u "ordinal not in range(128)")).

(** ** Tasks of the scheduler
    [None] is a property whose reading fails with an error the code catches. *)
Record TaskAction := Action {
  action_type : option Z; action_path : option str; action_arguments : option str; action_directory : option str }.
Record TaskTrigger := Trigger { trigger_type : option Z; trigger_enabled : option bool; trigger_user : option str }.
Record TaskPrincipal := Principal { user_id : option str; logon_type : option Z; run_level : option Z }.
Record TaskSettings := Settings {
  settings_enabled : option bool; allow_demand_start : option bool; start_when_available : option bool; hidden : option bool;
  disallow_start_if_on_batteries : option bool; stop_if_going_on_batteries : option bool;
  execution_time_limit : option str; multiple_instances : option Z }.
Record TaskDefinition := Definition_ {
  registration_description : option str; actions : option (list TaskAction); triggers : option (list TaskTrigger);
  principal : TaskPrincipal; settings : TaskSettings }.
Record RegisteredTask := Registered { definition : option TaskDefinition; task_state : option Z }.

Definition TASK_ACTION_EXEC : Z := 0.
Definition TASK_CREATE_OR_UPDATE : Z := 6.
Definition TASK_INSTANCES_IGNORE_NEW : Z := 2.
Definition TASK_LOGON_INTERACTIVE_TOKEN : Z := 3.
Definition TASK_RUNLEVEL_LUA : Z := 0.
Definition TASK_STATE_RUNNING : Z := 4.
Definition TASK_TRIGGER_LOGON : Z := 9.
Definition ERROR_FILE_NOT_FOUND_HRESULT : Z := 2147942402.
(** A [com_error]: its [hresult], and the sixth entry of [excepinfo] when that
    is an integer *)
Record com_error := ComError { hresult : Z; excepinfo_code : option Z }.
Definition hresult_of (e : com_error) : Z :=
  match excepinfo_code e with
  | Some code => if code =? 0 then Z.land (hresult e) 4294967295 else Z.land code 4294967295
  | None => Z.land (hresult e) 4294967295
  end.

Inductive task_call :=
  | GetTask (name : str)
  | NewTask
  | RegisterTaskDefinition (name : str) (d : TaskDefinition) (flags : Z) (user : str) (logon : Z)
  | RunTask (name : str)
  | DeleteTask (name : str).
Inductive task_reply := TDone | TFailed (e : com_error).
(** The tasks of the root folder *)
Abbreviation scheduler := (io (dict RegisteredTask) task_call task_reply).

Section controller.
Context {U : UnicodeDB}.
(** [LookupAccountName] with [ConvertSidToStringSid] (nothing when it fails),
    and [os.path.normcase(os.path.abspath(p))] *)
Variable lookup_sid : str → option str.
Variable normalized : str → str.
(** [Path.is_absolute] and [Path.is_file] *)
Variables is_absolute is_file : str → bool.
(** The account, its SID, the name of the task, and the version of the package *)
Variables (account_name : str) (account_sid : option str) (task_name : str) (PACKAGE_VERSION : str).

Definition account_matches (actual expected_name : str) (expected_sid : option str) : bool :=
  str_eqb (casefold actual) (casefold expected_name)
  || match expected_sid with
     | None => false
     | Some sid => bool_decide (lookup_sid actual = Some sid)
     end.
Definition is_attr {A} `{EqDecision A} (o : option A) (a : A) : bool := bool_decide (o = Some a).
(** [_managed_definition]: a property that cannot be read fails the check. *)
Definition managed_definition (d : TaskDefinition) (text : str) (action : option TaskAction) (trigger : option TaskTrigger) : bool :=
  match action, trigger with
  | Some a, Some t =>
      match action_path a, action_arguments a, action_directory a with
      | Some path, Some line, Some directory =>
          is_attr (action_type a) TASK_ACTION_EXEC
          && (match managed_description_matches text path line directory with Ok b => b | Err _ => false end)
          && (match user_id (principal d) with Some id => account_matches id account_name account_sid | None => false end)
          && is_attr (logon_type (principal d)) TASK_LOGON_INTERACTIVE_TOKEN
          && is_attr (run_level (principal d)) TASK_RUNLEVEL_LUA
          && is_attr (trigger_type t) TASK_TRIGGER_LOGON
          && is_attr (trigger_enabled t) true
          && (match trigger_user t with Some id => account_matches id account_name account_sid | None => false end)
          && is_attr (settings_enabled (settings d)) true
          && is_attr (allow_demand_start (settings d)) true
          && is_attr (start_when_available (settings d)) true
          && is_attr (hidden (settings d)) false
          && is_attr (disallow_start_if_on_batteries (settings d)) false
          && is_attr (stop_if_going_on_batteries (settings d)) false
          && is_attr (execution_time_limit (settings d)) (u "PT0S")
          && is_attr (multiple_instances (settings d)) TASK_INSTANCES_IGNORE_NEW
      | _, _, _ => false
      end
  | _, _ => false
  end.
(** The one element of a collection *)
Definition single {A} (l : list A) : option A := match l with [a] => Some a | _ => None end.
(** What [inspect] finds out of a task *)
Definition status_of (t : RegisteredTask) : BrokerTaskStatus :=
  let unknown := Status task_name true false false in
  match definition t with
  | None => unknown None None
  | Some d =>
      match registration_description d, actions d, triggers d with
      | Some text, Some all_actions, Some all_triggers =>
          let action := single all_actions in
          let path := match action with Some a => Some <$> action_path a | None => Some None end in
          let line := match action with Some a => Some <$> action_arguments a | None => Some None end in
          match path, line with
          | Some path, Some line =>
              match task_state t with
              | Some s => Status task_name true (managed_definition d text action (single all_triggers)) (s =? TASK_STATE_RUNNING) path line
              | None => unknown path line
              end
          | Some path, None => unknown path None
          | None, _ => unknown None None
          end
      | _, _, _ => unknown None None
      end
  end.

(** ** The controller *)
Definition get_task : M scheduler (option RegisteredTask) :=
  r ← ask (GetTask task_name);
  let failed e := if hresult_of e =? ERROR_FILE_NOT_FOUND_HRESULT then mret None
                  else raise (task_unavailable (u "could not inspect the per-user broker task")) in
  match r with
  | TFailed e => failed e
  | TDone =>
      tasks ← state;
      match dget tasks task_name with
      | Some t => mret (Some t)
      | None => failed (ComError ERROR_FILE_NOT_FOUND_HRESULT None)
      end
  end.
Definition inspect : M scheduler BrokerTaskStatus :=
  t ← get_task;
  mret (match t with None => Status task_name false false false None None | Some t => status_of t end).
Definition validate (s : BrokerTaskSpec) : res unit :=
  raise_if (negb (is_absolute (executable s) && is_file (executable s)))
    (value_error (u "broker task executable must be an existing absolute file"));;
  raise_if (match arguments s with [] => true | args => existsb (fun a => str_eqb a []) args end)
    (value_error (u "broker task arguments must not be empty"));;
  raise_if (str_eqb (strip (source s)) []) (value_error (u "broker task source must not be empty"));;
  raise_if (match working_directory s with Some d => negb (is_absolute d) | None => false end)
    (value_error (u "broker task working directory must be absolute")).
Definition new_definition (s : BrokerTaskSpec) (text : str) : TaskDefinition :=
  Definition_ (Some text)
    (Some [Action (Some TASK_ACTION_EXEC) (Some (executable s)) (Some (argument_line s)) (Some (spec_directory s))])
    (Some [Trigger (Some TASK_TRIGGER_LOGON) (Some true) (Some account_name)])
    (Principal (Some account_name) (Some TASK_LOGON_INTERACTIVE_TOKEN) (Some TASK_RUNLEVEL_LUA))
    (Settings (Some true) (Some true) (Some true) (Some false) (Some false) (Some false) (Some (u "PT0S")) (Some TASK_INSTANCES_IGNORE_NEW)).
(** A call whose failure is reported as [failure] *)
Definition perform (c : task_call) (failure : exn) : M scheduler unit :=
  r ← ask c; match r with TDone => mret tt | TFailed _ => raise failure end.
Definition register (s : BrokerTaskSpec) : M scheduler BrokerTaskStatus :=
  lift (validate s);;
  existing ← inspect;
  lift (raise_if (exists_ existing && negb (managed existing))
          (task_error (u "refusing to replace unmanaged scheduled task: " ++ task_name)));;
  perform NewTask (Builtin OtherException (u "com_error"));;
  text ← lift (description s);
  perform (RegisterTaskDefinition task_name (new_definition s text) TASK_CREATE_OR_UPDATE account_name TASK_LOGON_INTERACTIVE_TOKEN)
    (task_error (u "could not register the per-user broker task"));;
  update (fun d => dset d task_name (Registered (Some (new_definition s text)) (Some 3)));;
  inspect.

(** What a compatible task runs: that of a specification, or any executable with
    the arguments of a version *)
Inductive expectation := ExpectSpec (s : BrokerTaskSpec) | ExpectVersion (version : str).
Definition version_arguments (version : str) : str :=
  list2cmdline [u "--from"; u "codex-serverops-mcp==" ++ version; u "serverops-broker"].
Definition same_executable (actual expected : str) : bool := str_eqb (normalized actual) (normalized expected).
Definition compatible (e : expectation) (status : BrokerTaskStatus) : bool :=
  let expected_executable := match e with ExpectSpec s => Some (executable s) | ExpectVersion _ => status_executable status end in
  let expected_arguments := match e with ExpectSpec s => argument_line s | ExpectVersion v => version_arguments v end in
  (match expected_executable with
   | None => true
   | Some expected => match status_executable status with Some actual => same_executable actual expected | None => false end
   end)
  && bool_decide (status_arguments status = Some expected_arguments).
Definition occupied : exn := task_error (u "scheduled task name is occupied by an unmanaged task: " ++ task_name).
Definition inspect_compatible (e : expectation) : M scheduler BrokerTaskStatus :=
  status ← inspect;
  if negb (exists_ status) then mret status
  else
    lift (raise_if (negb (managed status)) occupied);;
    lift (raise_if (negb (compatible e status))
            (task_error (u "managed broker task is pinned to a different ServerOps runtime; refresh it explicitly with 'serverops-install setup --broker-task --apply --yes'")));;
    mret status.
Definition start_if_installed (expected : option expectation) (expected_version : option str) : M scheduler bool :=
  lift (raise_if (match expected, expected_version with Some _, Some _ => true | _, _ => false end)
          (value_error (u "expected and expected_version are mutually exclusive")));;
  status ← (match expected, expected_version with
            | Some e, _ => inspect_compatible e
            | None, Some v => inspect_compatible (ExpectVersion v)
            | None, None => inspect
            end);
  if negb (exists_ status) then mret false
  else
    lift (raise_if (negb (managed status)) occupied);;
    let failure := task_error (u "could not start the managed broker task") in
    perform (GetTask task_name) failure;;
    perform (RunTask task_name) failure;;
    mret true.
Definition remove : M scheduler bool :=
  status ← inspect;
  if negb (exists_ status) then mret false
  else
    lift (raise_if (negb (managed status)) (task_error (u "refusing to remove unmanaged scheduled task: " ++ task_name)));;
    perform (DeleteTask task_name) (task_error (u "could not remove the managed broker task"));;
    update (fun d => ddel d task_name);;
    mret true.
End controller.

(** ** The task of a release *)
Definition production_broker_task_spec (resolve : str → str) (version : str) (uvx_path which_uvx : option str) : res BrokerTaskSpec :=
  match (match uvx_path with Some (_ :: _) => uvx_path | _ => which_uvx end) with
  | None => Err (value_error (u "uvx is required to install the per-user broker task"))
  | Some executable =>
      Ok (Spec (resolve executable) [u "--from"; u "codex-serverops-mcp==" ++ version; u "serverops-broker"]
            (u "codex-serverops-mcp==" ++ version) None)
  end.

(** The task of a development wheel: [resolve] and [parents] are those of
    [Path], [join] is the [/] of paths. *)
Definition wheel_broker_task_spec (resolve : str → str) (is_file is_dir : str → bool) (parents : str → list str)
    (join_path : str → str → str) (wheel : str) (uvx_path which_uvx python_path : option str) (sys_executable : str) : res BrokerTaskSpec :=
  let resolved_wheel := resolve wheel in
  raise_if (negb (is_file resolved_wheel) || negb (str_eqb (suffix_of resolved_wheel) (u ".whl")))
    (value_error (u "development broker task requires an existing wheel"));;
  match parents resolved_wheel with
  | _ :: project :: _ =>
      let cache_directory := join_path project (u ".uv-cache") in
      raise_if (negb (is_dir cache_directory)) (value_error (u "development broker task requires the project-local uv cache"));;
      match (match uvx_path with Some (_ :: _) => uvx_path | _ => which_uvx end) with
      | None => Err (value_error (u "uvx is required to install the development broker task"))
      | Some executable =>
          let python := resolve (match python_path with Some (c :: p) => c :: p | _ => sys_executable end) in
          raise_if (negb (is_file python)) (value_error (u "development broker task requires an existing Python runtime"));;
          Ok (Spec (resolve executable)
                [u "--python"; python; u "--cache-dir"; cache_directory; u "--offline"; u "--from"; resolved_wheel; u "serverops-broker"]
                (u "development-wheel:" ++ name_of resolved_wheel) None)
      end
  | _ => Err (Builtin IndexError [])
  end.

(** ** A registered task is recognised *)
Section recognised.
Context {U : UnicodeDB}.
Let hex : Z → bool := cls [(48, 57); (97, 102)].
Lemma lang_group n a s t : lang (RGroup n a) s t ↔ ∃ t', lang a s t' ∧ t = capture n (mpos s) t'.
Proof. split; [inversion 1; subst; by eexists|]. intros (t' & H & ->). by constructor. Qed.
Definition found (source digest : str) : mstate :=
  MState (rev digest ++ rev (u "; action=") ++ rev source ++ rev description_start) []
    [(2%nat, (length (description_start ++ source ++ u "; action="), length (description_start ++ source ++ u "; action=") + length digest)%nat);
     (1%nat, (length description_start, length description_start + length source)%nat)].
Lemma captures_eq b a (i j k l i' j' k' l' : nat) : i = i' → j = j' → k = k' → l = l' →
  MState b a [(2%nat, (i, j)); (1%nat, (k, l))] = MState b a [(2%nat, (i', j')); (1%nat, (k', l'))].
Proof. by intros -> -> -> ->. Qed.
Lemma description_lang text t : lang MANAGED_DESCRIPTION (start_of text) t ∧ after t = [] ↔
  ∃ v d, text = description_start ++ v ++ u "; action=" ++ d ∧
    v ≠ [] ∧ forallb (fun c => negb (mem_Z c [13; 10])) v = true ∧ length d = 16%nat ∧ forallb hex d = true ∧ t = found v d.
Proof.
  unfold MANAGED_DESCRIPTION. cbn [RSeqs]. rewrite lang_seq_inv. split.
  - intros [(t1 & H1 & H) Hend]. inversion H1 as [| | | | | | | |s0 Hb| |]; subst. clear H1 Hb.
    apply lang_seq_inv in H as (t2 & H2 & H). apply lang_lit in H2 as (r1 & Ha & ->).
    apply lang_seq_inv in H as (t3 & H3 & H). apply lang_group in H3 as (t3' & Hp & ->).
    apply lang_plus_char in Hp as (v & r2 & Hv1 & Hv2 & Hv3 & ->).
    apply lang_seq_inv in H as (t4 & H4 & H). apply lang_lit in H4 as (r3 & Hl & ->).
    apply lang_seq_inv in H as (t5 & H5 & H6). apply lang_group in H5 as (t5' & Hp & ->).
    apply lang_repeat_char in Hp as (d & r4 & Hd1 & Hd2 & Hd3 & ->).
    inversion H6; subst. unfold capture in *. cbn [after before caps start_of] in *. subst.
    exists v, d. split_and!; try done; [by rewrite app_nil_r|]. unfold found, mpos. cbn [before]. rewrite !app_nil_r, !length_app, !length_rev.
    apply captures_eq; lia.
  - intros (v & d & -> & Hv & Hvf & Hd & Hdf & ->). split; [|done].
    eexists (start_of _). split; [by constructor|]. apply lang_seq_inv.
    eexists. split; [apply lang_lit; by eexists|]. apply lang_seq_inv.
    eexists. split; [apply lang_group; eexists; split; [apply lang_plus_char; exists v; by eexists|reflexivity]|]. apply lang_seq_inv.
    eexists. split; [apply lang_lit; by eexists|]. apply lang_seq_inv.
    eexists. split; [apply lang_group; eexists; split; [apply lang_repeat_char; exists d, []; split_and!; [symmetry; apply app_nil_r|done|done|reflexivity]|reflexivity]|].
    unfold capture, found, mpos. cbn [before after caps start_of]. rewrite !app_nil_r, !length_app, !length_rev.
    match goal with |- lang REol ?x ?y => replace y with x; [by constructor|] end.
    apply captures_eq; lia.
Qed.
Lemma whole_found v d : whole (found v d) = description_start ++ v ++ u "; action=" ++ d.
Proof. unfold whole, found. cbn [before after]. rewrite !rev_app_distr, !rev_involutive, app_nil_r, <- !app_assoc. reflexivity. Qed.
Lemma groups_found v d : group 1 (found v d) = Some v ∧ group 2 (found v d) = Some d.
Proof.
  unfold group. assert (cap_of 1 (found v d) = Some (length description_start, (length description_start + length v)%nat)) as -> by done.
  assert (cap_of 2 (found v d) = Some (length (description_start ++ v ++ u "; action="), (length (description_start ++ v ++ u "; action=") + length d)%nat)) as -> by done.
  rewrite whole_found. unfold slice. split; f_equal.
  - rewrite drop_app_length. replace (_ - _)%nat with (length v) by lia. apply take_app_length.
  - replace (description_start ++ v ++ u "; action=" ++ d) with ((description_start ++ v ++ u "; action=") ++ d) by (by rewrite <- !app_assoc).
    rewrite drop_app_length. apply take_ge. lia.
Qed.
Lemma own_description v d : v ≠ [] → forallb (fun c => negb (mem_Z c [13; 10])) v = true → length d = 16%nat → forallb hex d = true →
  fullmatch_state MANAGED_DESCRIPTION (description_start ++ v ++ u "; action=" ++ d) = Some (found v d).
Proof.
  intros Hv Hvf Hd Hdf. unfold fullmatch_state. set (text := description_start ++ v ++ u "; action=" ++ d). set (k := fun _ => _).
  assert (lang MANAGED_DESCRIPTION (start_of text) (found v d) ∧ after (found v d) = []) as [Hl Ha]
    by (apply description_lang; exists v, d; by split_and!).
  destruct (rmatch MANAGED_DESCRIPTION k (start_of text)) as [t|] eqn:E.
  - apply rmatch_sound in E as (s' & Hl' & Hk). unfold k in Hk. destruct (after s') eqn:Ea; [|done]. injection Hk as <-.
    destruct (proj1 (description_lang text s') (conj Hl' Ea)) as (v' & d' & Ht & _ & _ & Hd' & _ & ->).
    unfold text in Ht. apply app_inv_head in Ht. rewrite !app_assoc in Ht. apply app_inj_2 in Ht as [Hv' ->]; [|by rewrite Hd, Hd'].
    by apply app_inv_tail in Hv' as ->.
  - destruct (rmatch_complete MANAGED_DESCRIPTION k (start_of text) (found v d) Hl) as [t Ht]; [by eexists|]. pose proof (eq_trans (eq_sym E) Ht) as H. discriminate H.
Qed.
Lemma digest_shape action d : digest_of action = Ok d → length d = 16%nat ∧ forallb hex d = true.
Proof.
  intros H. unfold digest_of in H. inv_ok H. apply Ok_inj in H as <-. destruct (sha256_hex_shape a) as [Hl Hf].
  rewrite length_take, Hl. split; [done|]. rewrite <- (take_drop 16 (sha256_hex a)), forallb_app in Hf. apply andb_true_iff in Hf as [Hf _].
  rewrite forallb_forall in *. intros c Hc. specialize (Hf c Hc). unfold hex_char in Hf. unfold hex, cls. cbn. lia.
Qed.
Lemma encode_prefix x y b : utf8_encode (x ++ y) = Ok b → utf8_encode x = Ok (utf8_bytes x).
Proof. unfold utf8_encode. rewrite existsb_app. by destruct (existsb surrogate x). Qed.
Lemma own_description_matches s text :
  description s = Ok text → str_eqb (strip (source s)) [] = false → forallb (fun c => negb (mem_Z c [13; 10])) (source s) = true →
  managed_description_matches text (executable s) (argument_line s) (spec_directory s) = Ok true.
Proof.
  intros H Hs Hf. unfold description in H. inv_ok H. apply Ok_inj in H as <-.
  destruct (digest_shape _ _ Ha) as [Hd Hdf]. unfold managed_description_matches. rewrite Ha. cbn [mbind result_mbind result_bind].
  assert (source s ≠ []) as Hne by (intros E; rewrite E in Hs; discriminate).
  rewrite (own_description _ _ Hne Hf Hd Hdf).
  destruct (groups_found (source s) a) as [-> ->]. rewrite Hs. unfold str_eqb at 1. rewrite (bool_decide_eq_true_2 (a = a)) by done.
  destruct (spec_directory s) eqn:Edir; [|done]. unfold broker_action_digest, legacy_broker_action_digest, digest_of in *.
  inv_ok Ha. replace (executable s ++ [0] ++ argument_line s ++ [0] ++ []) with ((executable s ++ [0] ++ argument_line s) ++ [0]) in Ha0
    by (by rewrite <- !app_assoc). by rewrite (encode_prefix _ _ _ Ha0).
Qed.
End recognised.

(** ** The controller and the tasks of others *)
Section owning.
Context {U : UnicodeDB}.
Variable lookup_sid : str → option str.
Variable normalized : str → str.
Variables is_absolute is_file : str → bool.
Variables (account_name : str) (account_sid : option str) (task_name : str).
Let status := status_of lookup_sid account_name account_sid task_name.
Let inspect_task := inspect lookup_sid account_name account_sid task_name.

(** The scheduler says that a task is missing only when it is. *)
Definition honest_reply (r : res task_reply) : Prop :=
  match r with Ok (TFailed e) => hresult_of e ≠ ERROR_FILE_NOT_FOUND_HRESULT | _ => True end.
Definition honest (s : scheduler) : Prop := Forall honest_reply (script s).
Definition is_read (c : task_call) : Prop := match c with GetTask _ => True | _ => False end.
(** The tasks are still [d], and since [tr] there were reads only. *)
Definition untouched (d : dict RegisteredTask) (tr : list task_call) (s : scheduler) : Prop :=
  honest s ∧ st s = d ∧ ∃ cs, trace s = tr ++ cs ∧ Forall is_read cs.

Lemma triple_inspect d tr t : dget d task_name = Some t →
  triple (untouched d tr) (untouched d tr) inspect_task (fun r s => r = status t ∧ untouched d tr s) (fun _ => untouched d tr).
Proof.
  intros Hd s (Hh & <- & cs & Htr & Hcs). unfold inspect_task, inspect, get_task, ask.
  assert (∀ r, Forall honest_reply r → untouched (st s) tr (Io (st s) r (trace s ++ [GetTask task_name]))) as Hgo.
  { intros r Hr. split_and!; [done|done|]. exists (cs ++ [GetTask task_name]). split; [cbn; by rewrite Htr, app_assoc|].
    apply Forall_app. by repeat constructor. }
  unfold honest in Hh. unfold mbind, prog_mbind, prog_bind. destruct (script s) as [|[[|e]|e] rest]; [by apply Hgo| | |].
  - inversion_clear Hh. cbn. rewrite Hd. cbn. split; [done|]. by apply Hgo.
  - inversion_clear Hh. rewrite (proj2 (Z.eqb_neq _ _)) by done. cbn. by apply Hgo.
  - inversion_clear Hh. cbn. by apply Hgo.
Qed.
Lemma exists_status t : exists_ (status t) = true.
Proof.
  unfold status, status_of. destruct (definition t) as [d|]; [|done].
  destruct (registration_description d); [|done]. destruct (actions d) as [acts|]; [|done]. destruct (triggers d); [|done].
  destruct (single acts) as [a|]; [destruct (action_path a), (action_arguments a)|]; cbn; by destruct (task_state t).
Qed.

(** C23: the controller leaves a task that is not its own alone.  When
    the task of that name is not one the program registered, registering, starting
    and removing it all fail, the tasks of the scheduler stay as they are, and
    nothing but reads is asked of it; and a task that is its own but pinned to
    another runtime is not started. *)
Theorem foreign_task_untouched (s : scheduler) t :
  honest s → dget (st s) task_name = Some t →
  let refused {A} (m : M scheduler A) := match m s with (Ret _, _) => False | (_, s') => untouched (st s) (trace s) s' end in
  (managed (status t) = false →
   (∀ spec, refused (register lookup_sid is_absolute is_file account_name account_sid task_name spec)) ∧
   (∀ expected version, refused (start_if_installed lookup_sid normalized account_name account_sid task_name expected version)) ∧
   refused (remove lookup_sid account_name account_sid task_name)) ∧
  (∀ e, compatible normalized e (status t) = false →
   refused (start_if_installed lookup_sid normalized account_name account_sid task_name (Some e) None)).
Proof.
  intros Hh Hd refused. set (d := st s). set (tr := trace s).
  assert (untouched d tr s) as H0 by (split_and!; [done|done|exists []; by rewrite app_nil_r]).
  assert (∀ A (m : M scheduler A), triple (untouched d tr) (untouched d tr) m (fun _ _ => False) (fun _ => untouched d tr) → refused A m) as Hrefused.
  { intros A m Hm. specialize (Hm s H0). unfold refused. by destruct (m s) as [[a|e|] s']. }
  pose proof (triple_inspect d tr t Hd) as Hi. pose proof (exists_status t) as He.
  assert (∀ e, managed (status t) = false ∨ compatible normalized e (status t) = false →
    triple (untouched d tr) (untouched d tr) (inspect_compatible lookup_sid normalized account_name account_sid task_name e)
      (fun _ _ => False) (fun _ => untouched d tr)) as Hc.
  { intros e Hm. eapply triple_bind; [exact Hi|]. intros r. apply triple_pure. intros ->. rewrite He. cbn [negb].
    destruct (managed (status t)); [|by intros s' Hs']. destruct Hm as [Hm|Hm]; [done|]. rewrite Hm. by intros s' Hs'. }
  assert (∀ A (f : BrokerTaskStatus → M scheduler A) m, triple (untouched d tr) (untouched d tr) m (fun _ _ => False) (fun _ => untouched d tr) →
    triple (untouched d tr) (untouched d tr) (m ≫= f) (fun _ _ => False) (fun _ => untouched d tr)) as Hstop.
  { intros A f m Hm. eapply triple_bind; [exact Hm|]. by intros r s' []. }
  split.
  - intros Hm. split_and!.
    + intros spec. apply Hrefused. unfold register. apply triple_lift_at; [|by intros e s' Hs']. intros [] _.
      eapply triple_bind; [exact Hi|]. intros r. apply triple_pure. intros ->. rewrite He, Hm. by intros s' Hs'.
    + intros expected version. apply Hrefused. unfold start_if_installed. apply triple_lift_at; [|by intros e s' Hs']. intros [] _.
      destruct expected as [e|]; [apply Hstop, Hc; by left|]. destruct version as [v|]; [apply Hstop, Hc; by left|].
      eapply triple_bind; [exact Hi|]. intros r. apply triple_pure. intros ->. rewrite He, Hm. by intros s' Hs'.
    + apply Hrefused. unfold remove. eapply triple_bind; [exact Hi|]. intros r. apply triple_pure. intros ->. rewrite He, Hm. by intros s' Hs'.
  - intros e Hm. apply Hrefused. unfold start_if_installed. apply triple_lift_at; [|by intros e' s' Hs']. intros [] _. apply Hstop, Hc. by right.
Qed.

Lemma account_self id : account_matches lookup_sid id id account_sid = true.
Proof. unfold account_matches, str_eqb. by rewrite bool_decide_eq_true_2. Qed.
Definition one_line (text : str) : Prop := forallb (fun c => negb (mem_Z c [13; 10])) text = true.
Lemma new_task_status spec text : description spec = Ok text → str_eqb (strip (source spec)) [] = false → one_line (source spec) →
  status (Registered (Some (new_definition account_name spec text)) (Some 3)) =
  Status task_name true true false (Some (executable spec)) (Some (argument_line spec)).
Proof.
  intros Ht Hs Hl. unfold status, status_of, new_definition, managed_definition. cbn [definition registration_description actions triggers
    single action_path action_arguments action_directory task_state principal settings user_id trigger_user].
  rewrite (own_description_matches _ _ Ht Hs Hl), account_self. reflexivity.
Qed.

(** A task that the controller has registered is recognised as its
    own afterwards, with the executable and the arguments of the specification: it
    counts as managed and as compatible with that specification. *)
Theorem registered_task_recognised (s : scheduler) spec r s' :
  honest s → one_line (source spec) →
  register lookup_sid is_absolute is_file account_name account_sid task_name spec s = (Ret r, s') →
  r = Status task_name true true false (Some (executable spec)) (Some (argument_line spec)) ∧
  compatible normalized (ExpectSpec spec) r = true ∧ is_Some (dget (st s') task_name).
Proof.
  intros Hh Hl Hr.
  enough (triple (fun _ => True) honest (register lookup_sid is_absolute is_file account_name account_sid task_name spec)
    (fun r s' => r = Status task_name true true false (Some (executable spec)) (Some (argument_line spec)) ∧ is_Some (dget (st s') task_name))
    (fun _ _ => True)) as H.
  { specialize (H s Hh). rewrite Hr in H. destruct H as [-> Hd]. split_and!; [done| |done].
    unfold compatible, same_executable, str_eqb. cbn [status_executable status_arguments].
    by rewrite !bool_decide_eq_true_2. }
  clear s Hh Hr. assert (∀ c, triple (fun _ => True) honest (ask c) (fun _ => honest) (fun _ _ => True)) as Hask.
  { intros c s Hs. unfold ask. unfold honest in Hs. destruct (script s) as [|[a|e] rest]; [done| |done]. by inversion_clear Hs. }
  assert (∀ c e, triple (fun _ => True) honest (perform c e) (fun _ => honest) (fun _ _ => True)) as Hperform.
  { intros c e. eapply triple_bind; [apply Hask|]. intros [|]; [by apply triple_ret|by apply triple_raise]. }
  unfold register. apply triple_lift_at; [|done]. intros [] Hv.
  assert (str_eqb (strip (source spec)) [] = false) as Hsrc.
  { unfold validate in Hv. inv_ok Hv. by destruct (str_eqb (strip (source spec)) []). }
  eapply (triple_bind _ _ _ _ (fun _ => honest)).
  { unfold inspect, get_task. eapply (triple_bind _ _ _ _ (fun _ => honest)); [|intros o; by apply triple_ret].
    eapply triple_bind; [apply Hask|]. intros [|e].
    - apply triple_state. intros d. destruct (dget d task_name); [by apply triple_ret; intros ? [? _]|].
      by apply triple_ret; intros ? [? _].
    - destruct (_ =? _); [by apply triple_ret|by apply triple_raise]. }
  intros existing. apply triple_lift_at; [|done]. intros [] _.
  eapply triple_bind; [apply Hperform|]. intros []. apply triple_lift_at; [|done]. intros text Ht.
  eapply triple_bind; [apply Hperform|]. intros [].
  set (task := Registered (Some (new_definition account_name spec text)) (Some 3)).
  eapply (triple_bind _ _ _ _ (fun _ s => honest s ∧ dget (st s) task_name = Some task)).
  { apply triple_modify. intros s Hs. split; [exact Hs|]. cbn [st]. apply dget_dset_eq. }
  intros []. intros s [Hs Hd].
  pose proof (triple_inspect (st s) (trace s) task Hd s) as Hi. unfold inspect_task in Hi.
  destruct (inspect lookup_sid account_name account_sid task_name s) as [[r'|e|] s''] eqn:E; [|done|done].
  destruct Hi as [-> (_ & Hst & _)]; [split_and!; [done|done|exists []; by rewrite app_nil_r]|].
  split; [by apply new_task_status|]. rewrite Hst, Hd. by eexists.
Qed.
End owning.

(** ** On concrete tasks *)
Definition sample_spec : BrokerTaskSpec :=
  Spec (u "C:\uv\uvx.exe") [u "--from"; u "codex-serverops-mcp==0.1.1"; u "serverops-broker"] (u "codex-serverops-mcp==0.1.1") None.
Definition sample_account : str := u "HOST\user".
Definition sample_task : str := u "Codex ServerOps MCP Broker 0123456789ab".
Definition foreign_task : RegisteredTask :=
  Registered (Some (Definition_ (Some (u "somebody else")) (Some []) (Some []) (Principal None None None)
                      (Settings None None None None None None None None))) (Some 4).
Lemma foreign_task_untouched_witness :
  let s : scheduler := Io [(sample_task, foreign_task)] (repeat (Ok TDone) 5) [] in
  let '(o, s') := remove (U := ascii_db) (fun _ => None) sample_account None sample_task s in
  o = Raise (task_error (u "refusing to remove unmanaged scheduled task: " ++ sample_task)) ∧ st s' = st s.
Proof.
  pose proof (foreign_task_untouched (U := ascii_db) (fun _ => None) id (fun _ => true) (fun _ => true) sample_account None sample_task
    (Io [(sample_task, foreign_task)] (repeat (Ok TDone) 5) []) foreign_task ltac:(by repeat constructor) ltac:(vm_compute; reflexivity)) as H.
  destruct H as [H _]. destruct (H ltac:(vm_compute; reflexivity)) as (_ & _ & Hr). cbn zeta.
  destruct (remove (U := ascii_db) (fun _ => None) sample_account None sample_task (Io [(sample_task, foreign_task)] (repeat (Ok TDone) 5) [])) as [o s'] eqn:E.
  assert ((o, s').1 = Raise (task_error (u "refusing to remove unmanaged scheduled task: " ++ sample_task))) as Ho
    by (rewrite <- E; vm_compute; reflexivity).
  cbn [fst] in Ho. subst o. split; [reflexivity|]. by destruct Hr as (_ & H' & _).
Defined.
Lemma registered_task_recognised_witness :
  exists r s', register (U := ascii_db) (fun _ => None) (fun _ => true) (fun _ => true) sample_account None sample_task sample_spec
                 (Io [] (repeat (Ok TDone) 5) []) = (Ret r, s') ∧ managed r = true ∧ is_Some (dget (st s') sample_task).
Proof.
  destruct (register (U := ascii_db) (fun _ => None) (fun _ => true) (fun _ => true) sample_account None sample_task sample_spec
              (Io [] (repeat (Ok TDone) 5) [])) as [o s'] eqn:E.
  assert ((match (o, s').1 with Ret _ => true | _ => false end) = true) as Ho by (rewrite <- E; vm_compute; reflexivity).
  destruct o as [r|e|]; [|discriminate|discriminate]. exists r, s'. split; [reflexivity|].
  destruct (registered_task_recognised (U := ascii_db) (fun _ => None) id (fun _ => true) (fun _ => true) sample_account None sample_task
    (Io [] (repeat (Ok TDone) 5) []) sample_spec r s' ltac:(by repeat constructor) ltac:(vm_compute; reflexivity) E) as (-> & _ & Hd).
  split; [reflexivity|exact Hd].
Defined.
