(* ===== verification/BrokerManager.v ===== *)
(** * BrokerManager: reaching the broker, and starting it (broker/manager.py)

    A client connects to the broker that runs, and otherwise starts one: through
    the scheduled task when it is installed, and as a process of its own else.
    Clients, the task, processes and the clock are a script of answers. *)
From Stdlib Require Import QArith Qround Lqa.
From S2P Require Import Prelude Errors Text Prog Runtime BrokerTask.
#[local] Close Scope Q_scope.
#[local] Open Scope Z_scope.

Inductive manager_call : Type :=
  | GClient                              (* BrokerClient(self.runtime_path) *)
  | GScheduler                           (* BrokerTaskController.connect() *)
  | GInspectCompatible (s : BrokerTaskSpec)
  | GStartTask (s : BrokerTaskSpec)
  | GPopen (arguments : list str)
  | GPoll
  | GWait (timeout : Q)
  | GTerminate
  | GShutdown                            (* client.request("broker.shutdown") *)
  | GCloseClient
  | GMonotonic
  | GSleep.                              (* time.sleep(0.05) *)
Inductive manager_reply : Type :=
  | GDone
  | GStarted (b : bool)
  | GExit (code : option Z)
  | GTime (t : Q).

Definition unavailable (m : str) : exn := controlled BrokerUnavailable m.

Section manager.
Variables (runtime_path : option str) (resolve : str → str) (which_uvx : option str) (PACKAGE_VERSION sys_executable : str).
Variable startup_timeout : Q.
(** The state says whether there is a process that this manager launched. *)
Abbreviation P := (M (io bool manager_call manager_reply)).
Definition perform (c : manager_call) : P unit := ask c;; mret tt.
Definition poll : P (option Z) := r ← ask GPoll; match r with GExit code => mret code | _ => hang end.
Definition monotonic : P Q := r ← ask GMonotonic; match r with GTime t => mret t | _ => hang end.
Definition task_spec : res BrokerTaskSpec := production_broker_task_spec resolve PACKAGE_VERSION None which_uvx.

Definition validate_installed_task : P unit :=
  match runtime_path with
  | Some _ => mret tt
  | None =>
      try_except (perform GScheduler;; s ← lift task_spec; perform (GInspectCompatible s))
        (fun e => if isinstance e BrokerTaskUnavailable then mret tt
                  else if isinstance e BrokerTaskError then raise (unavailable (error_message e))
                  else raise e)
  end.
Definition process_runs : P bool :=
  launched ← state;
  if launched : bool then code ← poll; mret (match code with None => true | Some _ => false end) else mret false.
Definition broker_arguments : list str :=
  [sys_executable; u "-m"; u "codex_serverops_mcp.broker.server"]
  ++ match runtime_path with Some p => [u "--runtime"; resolve p] | None => [] end.
Definition launch : P unit := perform (GPopen broker_arguments);; update (fun _ => true).
Definition start_installed_task : P bool :=
  match runtime_path with
  | Some _ => mret false
  | None =>
      try_except (perform GScheduler;; s ← lift task_spec;
                  r ← ask (GStartTask s); match r with GStarted b => mret b | _ => hang end)
        (fun e => if isinstance e BrokerTaskUnavailable then mret false
                  else if isinstance e BrokerTaskError then raise (unavailable (u "managed broker task could not start"))
                  else raise e)
  end.
Definition start_broker : P unit :=
  runs ← process_runs;
  if runs : bool then mret tt
  else started ← start_installed_task; if started : bool then mret tt else launch.

(** One attempt; whether the broker could be reached *)
Definition attempt : P bool :=
  try_except (perform GClient;; mret true) (fun e => if isinstance e BrokerUnavailable then mret false else raise e).
Fixpoint connect_loop (fuel : nat) (deadline : Q) : P unit :=
  match fuel with
  | O => hang
  | S fuel =>
      now ← monotonic;
      if qlt now deadline then
        reached ← attempt;
        if reached : bool then mret tt else perform GSleep;; connect_loop fuel deadline
      else raise (unavailable (u "broker did not become reachable"))
  end.
Definition connect : P unit :=
  validate_installed_task;;
  reached ← attempt;
  if reached : bool then mret tt
  else
    start_broker;;
    now ← monotonic;
    s ← Prelude.get; connect_loop (S (length (script s))) (qadd now startup_timeout).

Definition wait_for_launched_broker (timeout : Q) : P unit :=
  launched ← state;
  if launched : bool then perform (GWait timeout);; update (fun _ => false) else mret tt.
Definition shutdown_request : P unit :=
  try_except (perform GClient;; try_finally (perform GShutdown) (perform GCloseClient))
    (fun e => if is_exception e then mret tt else raise e).
Definition shutdown_launched_broker (timeout : Q) : P bool :=
  launched ← state;
  if negb launched then mret false
  else
    code ← poll;
    (match code with
     | None =>
         shutdown_request;;
         try_except (perform (GWait timeout))
           (fun e => match e with
                     | Builtin TimeoutExpired _ => perform GTerminate;; perform (GWait timeout)
                     | _ => raise e
                     end)
     | Some _ => mret tt
     end);;
    update (fun _ => false);;
    mret true.
End manager.

(** ** How long a connection takes
    An environment that answers: every call gets an answer of its kind, and the
    clock never goes back and counts what was slept. *)
Record watch := Watch { now : Q; slept : nat }.
Definition tick : Q := (1 # 20)%Q.
Definition next (w : watch) (c : manager_call) (a : res manager_reply) : option watch :=
  match c, a with
  | GMonotonic, Ok (GTime t) => if qlt t (now w) then None else Some (Watch t (slept w))
  | GMonotonic, _ => None
  | GSleep, Ok _ => Some (Watch (qadd (now w) tick) (S (slept w)))
  | GSleep, Err _ => None
  | GPoll, Ok (GExit _) | GStartTask _, Ok (GStarted _) => Some w
  | GPoll, Ok _ | GStartTask _, Ok _ => None
  | _, _ => Some w
  end.
Fixpoint watched (w : watch) (cs : list manager_call) (answers : list (res manager_reply)) : option watch :=
  match cs, answers with
  | c :: cs, a :: answers => match next w c a with Some w => watched w cs answers | None => None end
  | _, _ => Some w
  end.
Definition answers_properly (t0 : Q) (cs : list manager_call) (answers : list (res manager_reply)) : Prop :=
  is_Some (watched (Watch t0 0) cs answers).
Definition starts_one (c : manager_call) : bool := match c with GPopen _ => true | _ => false end.
Definition launches (cs : list manager_call) : nat := length (filter (fun c => starts_one c = true) cs).
(** The attempts that fit into the time *)
Definition attempts (timeout : Q) : nat := S (Z.to_nat (Qceiling (20 * timeout)%Q)).

Lemma launches_one c : launches [c] = if starts_one c then 1%nat else 0%nat.
Proof. unfold launches. by destruct c. Qed.
Lemma launches_app a b : launches (a ++ b) = (launches a + launches b)%nat.
Proof. unfold launches. by rewrite filter_app, length_app. Qed.
Lemma watched_step w cs answers c a rest :
  drop (length cs) answers = a :: rest →
  watched w (cs ++ [c]) answers = match watched w cs answers with Some w => next w c a | None => None end.
Proof.
  revert w answers. induction cs as [|c' cs IH]; intros w answers; cbn [app length watched].
  - rewrite drop_0. intros ->. by destruct (next w c a).
  - destruct answers as [|a' answers]; [done|]. rewrite skipn_cons. intros Hd.
    destruct (next w c' a'); [|done]. by apply IH.
Qed.
Lemma attempts_enough timeout k : k = 0%nat ∨ ((inject_Z (Z.of_nat k) - 1) * tick < timeout)%Q → (k <= attempts timeout)%nat.
Proof.
  intros [->|H]; [lia|]. unfold attempts. pose proof (Qle_ceiling (20 * timeout)%Q) as Hc.
  assert (inject_Z (Z.of_nat k - 1) < inject_Z (Qceiling (20 * timeout)))%Q as Hlt.
  { eapply Qlt_le_trans; [|exact Hc]. unfold tick in H. unfold Z.sub. rewrite inject_Z_plus. change (inject_Z (- (1))) with (-1)%Q. lra. }
  rewrite <- Zlt_Qlt in Hlt. lia.
Qed.

Section timing.
Variables (runtime_path : option str) (resolve : str → str) (which_uvx : option str) (PACKAGE_VERSION sys_executable : str).
Variable startup_timeout : Q.
Context (tr : list manager_call) (scr : list (res manager_reply)) (t0 : Q) (N : nat).
Abbreviation IO := (io bool manager_call manager_reply).
(** Since the environment was at [tr], the calls are [cs]: [φ] holds of what the
    watch shows and of them, unless the environment did not answer properly. *)
Definition followed (φ : watch → nat → nat → Prop) (s : IO) : Prop :=
  ∃ cs, trace s = tr ++ cs ∧ script s = drop (length cs) scr ∧ (length cs <= length scr)%nat ∧
        match watched (Watch t0 0) cs scr with Some w => φ w (length cs) (launches cs) | None => True end.
(** Where a program stops: the environment did not answer properly, or it has
    no more answers and was asked at most [N] times. *)
Definition stopped (s : IO) : Prop :=
  ∃ cs, trace s = tr ++ cs ∧
        (watched (Watch t0 0) cs scr = None ∨ length cs = S (length scr) ∧ (length cs <= N)%nat ∧ (launches cs <= 1)%nat).
Lemma triple_followed (φ : watch → nat → nat → Prop) c (Q : manager_reply → IO → Prop) (R : exn → IO → Prop) :
  (∀ w n l, φ w n l → (S n <= N)%nat ∧ (l + launches [c] <= 1)%nat) →
  (∀ a, (∀ s, followed (fun w' n' l' => ∃ w n l, φ w n l ∧ next w c (Ok a) = Some w' ∧ n' = S n ∧ l' = (l + launches [c])%nat) s → Q a s)) →
  (∀ e, (∀ s, followed (fun w' n' l' => ∃ w n l, φ w n l ∧ next w c (Err e) = Some w' ∧ n' = S n ∧ l' = (l + launches [c])%nat) s → R e s)) →
  triple stopped (followed φ) (ask c) Q R.
Proof.
  intros HN HQ HR s (cs & Ht & Hs & Hl & Hw).
  unfold ask. destruct (script s) as [|a rest] eqn:E.
  - exists (cs ++ [c]). cbn [trace]. rewrite Ht, app_assoc. split; [done|].
    symmetry in Hs. assert (length cs = length scr) as Hlen.
    { apply (f_equal length) in Hs. rewrite length_drop in Hs. cbn in Hs. lia. }
    destruct (watched (Watch t0 0) cs scr) as [w|] eqn:Ew.
    + right. rewrite length_app, launches_app. cbn [length]. destruct (HN _ _ _ Hw). lia.
    + left. clear -Ew. revert Ew. generalize (Watch t0 0) scr. induction cs as [|c' cs IH]; intros w answers; [done|].
      cbn [app watched]. destruct answers as [|a answers]; [done|]. destruct (next w c' a); [|done]. apply IH.
  - symmetry in Hs. pose proof (watched_step (Watch t0 0) cs scr c a rest Hs) as Hstep.
    assert (length cs < length scr)%nat as Hlt
      by (destruct (Nat.ltb_spec (length cs) (length scr)) as [|Hge]; [done|by rewrite drop_ge in Hs by lia]).
    assert (followed (fun w' n' l' => ∃ w n l, φ w n l ∧ next w c a = Some w' ∧ n' = S n ∧ l' = (l + launches [c])%nat)
              (Io (st s) rest (trace s ++ [c]))) as Hf.
    { exists (cs ++ [c]). cbn [trace script]. rewrite Ht, app_assoc, length_app. cbn [length]. split_and!; [done| |lia|].
      - rewrite <- drop_drop, Hs. done.
      - rewrite Hstep. destruct (watched (Watch t0 0) cs scr) as [w|]; [|done]. destruct (next w c a) as [w'|] eqn:En; [|done].
        rewrite launches_app. exists w, (length cs), (launches cs). split_and!; [done|done|lia|done]. }
    destruct a as [a|e]; [by apply HQ|by apply HR].
Qed.
Lemma followed_mono φ ψ s : (∀ w n l, (n <= length scr)%nat → φ w n l → ψ w n l) → followed φ s → followed ψ s.
Proof.
  intros H (cs & Ht & Hs & Hl & Hw). exists cs. split_and!; [done..|].
  destruct (watched _ _ _); [by apply H|done].
Qed.
Lemma followed_absurd s : followed (fun _ _ _ => False) s → stopped s.
Proof. intros (cs & Ht & _ & _ & Hw). exists cs. split; [done|]. left. by destruct (watched _ _ _). Qed.

(** Before the first sleep: at most [n0] calls, [l0] of them launches *)
Definition early (n0 l0 : nat) (w : watch) (n l : nat) : Prop := slept w = 0%nat ∧ (n <= n0)%nat ∧ (l <= l0)%nat.
Hypothesis Hlarge : (9 <= N)%nat.
Definition untimed (c : manager_call) : bool := match c with GMonotonic | GSleep => false | _ => true end.
Lemma untimed_next c w a w' : untimed c = true → next w c a = Some w' → w' = w.
Proof. intros Hc H. destruct c; try discriminate Hc; destruct a as [[]|]; cbn in H; congruence. Qed.
Lemma triple_early n l n' l' c (Q : manager_reply → IO → Prop) (R : exn → IO → Prop) :
  untimed c = true → (n < n' <= 9)%nat → (l + (if starts_one c then 1 else 0) <= l' <= 1)%nat →
  (∀ a s, followed (fun w' m k => ∃ w, next w c (Ok a) = Some w' ∧ early n' l' w' m k) s → Q a s) →
  (∀ e s, followed (early n' l') s → R e s) →
  triple stopped (followed (early n l)) (ask c) Q R.
Proof.
  intros Hc Hn Hl HQ HR. eapply triple_followed.
  - intros w m k (_ & ? & ?). rewrite launches_one. lia.
  - intros a s Hs. apply HQ. revert s Hs. intros s. apply followed_mono.
    intros w' m k _ (w & n1 & l1 & (Hw & ? & ?) & Hx & -> & ->). exists w. split; [done|].
    apply untimed_next in Hx as ->; [|done]. rewrite launches_one. split_and!; [done|lia|lia].
  - intros e s Hs. apply HR. revert s Hs. intros s. apply followed_mono.
    intros w' m k _ (w & n1 & l1 & (Hw & ? & ?) & Hx & -> & ->).
    apply untimed_next in Hx as ->; [|done]. rewrite launches_one. split_and!; [done|lia|lia].
Qed.
(** From [n] calls and [l] launches to at most [n'] and [l'], however it ends *)
Definition costs {A} (n l n' l' : nat) (m : M IO A) : Prop :=
  triple stopped (followed (early n l)) m (fun _ => followed (early n' l')) (fun _ => followed (early n' l')).
Lemma costs_nothing {A} n l n' l' (m : M IO A) : (∀ s, ∃ o, o ≠ Hang ∧ m s = (o, s)) → (n <= n')%nat → (l <= l')%nat → costs n l n' l' m.
Proof.
  intros Hm Hn Hl s Hs. destruct (Hm s) as (o & Ho & ->).
  assert (followed (early n' l') s) by (revert Hs; apply followed_mono; intros w m' k _ (? & ? & ?); split_and!; [done|lia|lia]).
  by destruct o.
Qed.
Lemma costs_ret {A} n l n' l' (a : A) : (n <= n')%nat → (l <= l')%nat → costs n l n' l' (mret a).
Proof. apply costs_nothing. intros s. by exists (Ret a). Qed.
Lemma costs_raise {A} n l n' l' e : (n <= n')%nat → (l <= l')%nat → costs n l n' l' (raise e : M IO A).
Proof. apply costs_nothing. intros s. by exists (Raise e). Qed.
Lemma costs_perform n l n' l' c :
  untimed c = true → (n < n' <= 9)%nat → (l + (if starts_one c then 1 else 0) <= l' <= 1)%nat → costs n l n' l' (perform c).
Proof.
  intros Hc Hn Hl. eapply triple_bind; [apply (triple_early n l n' l' c (fun _ => followed (early n' l')) (fun _ => followed (early n' l'))); [done..| |done]|].
  - intros a s. apply followed_mono. by intros w m k _ (w' & _ & H).
  - intros a. by apply costs_ret.
Qed.
Lemma costs_bind {A B} n l n1 l1 n' l' (m : M IO A) (f : A → M IO B) :
  costs n l n1 l1 m → (∀ a, costs n1 l1 n' l' (f a)) → (n1 <= n')%nat → (l1 <= l')%nat → costs n l n' l' (m ≫= f).
Proof.
  intros Hm Hf Hn Hl. eapply triple_bind; [|intros a; apply Hf]. eapply triple_raising; [apply Hm|].
  intros e s. apply followed_mono. intros w k j _ (? & ? & ?). split_and!; [done|lia|lia].
Qed.
Lemma costs_lift {A} n l (r : res A) : costs n l n l (lift r).
Proof. apply costs_nothing; [|done..]. intros s. unfold lift. destruct r as [a|e]; [by exists (Ret a)|by exists (Raise e)]. Qed.
Lemma costs_try {A} n l n1 l1 n' l' (m : M IO A) h :
  costs n l n1 l1 m → (∀ e, costs n1 l1 n' l' (h e)) → (n1 <= n')%nat → (l1 <= l')%nat → costs n l n' l' (try_except m h).
Proof.
  intros Hm Hh Hn Hl. eapply triple_try; [|intros e; apply Hh]. eapply triple_conseq; [apply Hm|..]; try done.
  intros a s. apply followed_mono. intros w k j _ (? & ? & ?). split_and!; [done|lia|lia].
Qed.
Ltac costs_task :=
  match goal with
  | |- costs _ _ _ _ (if ?b then _ else _) => destruct b; costs_task
  | |- costs _ _ _ _ (mret _) => apply costs_ret; lia
  | |- costs _ _ _ _ (raise _) => apply costs_raise; lia
  | |- _ => idtac
  end.
Lemma costs_attempt n l : (n < 9)%nat → (l <= 1)%nat → costs n l (S n) l attempt.
Proof.
  intros Hn Hl. eapply (costs_try n l (S n) l); [|intros e; costs_task|lia|lia].
  eapply (costs_bind n l (S n) l); [apply costs_perform; cbn; (done || lia)|intros []; costs_task|lia|lia].
Qed.
Lemma costs_validate : costs 0 0 2 0 (validate_installed_task runtime_path resolve which_uvx PACKAGE_VERSION).
Proof.
  unfold validate_installed_task. destruct runtime_path; [costs_task|].
  eapply (costs_try 0 0 2 0); [|intros e; cbn; costs_task|lia|lia].
  eapply (costs_bind 0 0 1 0); [apply costs_perform; cbn; (done || lia)|intros []|lia|lia].
  eapply (costs_bind 1 0 1 0); [apply costs_lift|intros spec|lia|lia].
  apply costs_perform; cbn; (done || lia).
Qed.
(** A call whose answer has a kind *)
Lemma costs_expect {A} n l c (f : manager_reply → option A) (m : manager_reply → M IO A) :
  untimed c = true → starts_one c = false → (n < 9)%nat → (l <= 1)%nat →
  (∀ a, m a = match f a with Some x => mret x | None => hang end) →
  (∀ w a, f a = None → next w c (Ok a) = None) → costs n l (S n) l (a ← ask c; m a).
Proof.
  intros Hc Hs Hn Hl Hm Hf.
  eapply triple_bind; [apply (triple_early n l (S n) l c (fun a s => match f a with Some _ => followed (early (S n) l) s | None => stopped s end)
    (fun _ => followed (early (S n) l))); [done|lia|rewrite Hs; lia| |done]|].
  - intros a s Hfs. destruct (f a) eqn:E.
    + revert Hfs. apply followed_mono. by intros w m' k _ (w' & _ & H).
    + apply followed_absurd. revert Hfs. apply followed_mono. intros w m' k _ (w' & H & _). by rewrite Hf in H.
  - intros a. rewrite Hm. destruct (f a); [by apply costs_ret|]. intros s H. exact H.
Qed.
Lemma costs_start n : (n <= 4)%nat →
  costs n 0 (n + 4) 1 (start_broker runtime_path resolve which_uvx PACKAGE_VERSION sys_executable).
Proof.
  intros Hn. unfold start_broker, process_runs.
  eapply (costs_bind n 0 (n + 1) 0); [|intros runs|lia|lia].
  { intros s Hs. cbn. unfold state, gets, mbind, prog_mbind, prog_bind. destruct (st s); [|revert Hs; apply costs_ret; [lia|done]].
    revert s Hs. change (costs n 0 (n + 1) 0 (code ← poll; mret (match code with None => true | Some _ => false end))).
    eapply (costs_bind n 0 (S n) 0); [|intros code; costs_task|lia|lia].
    apply (costs_expect n 0 GPoll (fun r => match r with GExit code => Some code | _ => None end)); [done|done|lia|lia| |]; by intros; destruct a. }
  destruct runs; [costs_task|].
  eapply (costs_bind _ 0 (n + 3) 0); [|intros started|lia|lia].
  - unfold start_installed_task. destruct runtime_path; [costs_task|].
    eapply (costs_try _ 0 (n + 3) 0); [|intros e; cbn; costs_task|lia|lia].
    eapply (costs_bind _ 0 (n + 2) 0); [apply costs_perform; cbn; (done || lia)|intros []|lia|lia].
    eapply (costs_bind _ 0 (n + 2) 0); [apply costs_lift|intros spec|lia|lia].
    replace (n + 3)%nat with (S (n + 2)) by lia.
    apply (costs_expect (n + 2) 0 (GStartTask spec) (fun r => match r with GStarted b => Some b | _ => None end)); [done|done|lia|lia| |]; by intros; destruct a.
  - destruct started; [costs_task|]. unfold launch.
    eapply (costs_bind _ 0 (n + 4) 1); [apply costs_perform; cbn; (done || lia)|intros []|lia|lia].
    intros s Hs. exact Hs.
Qed.

(** In the loop that began at [b], with [fuel] turns left and [extra] calls made
    in this turn *)
Hypothesis HN : N = (9 + 3 * attempts startup_timeout)%nat.
Definition looping (b : Q) (fuel extra : nat) (w : watch) (n l : nat) : Prop :=
  (l <= 1)%nat ∧ (n <= 8 + extra + 3 * slept w)%nat ∧ (b + inject_Z (Z.of_nat (slept w)) * tick <= now w)%Q ∧
  (slept w = 0%nat ∨ ((inject_Z (Z.of_nat (slept w)) - 1) * tick < startup_timeout)%Q) ∧ (length scr + extra < fuel + n)%nat.
Definition in_time (b : Q) (w : watch) : Prop := (inject_Z (Z.of_nat (slept w)) * tick < startup_timeout)%Q.
Definition ended : IO → Prop := followed (fun _ n l => (n <= N)%nat ∧ (l <= 1)%nat).
Lemma in_time_attempts b w : in_time b w → (S (slept w) <= attempts startup_timeout)%nat.
Proof.
  intros H. apply attempts_enough. right. unfold in_time in H. rewrite Nat2Z.inj_succ. unfold Z.succ.
  rewrite inject_Z_plus. change (inject_Z 1) with 1%Q. lra.
Qed.
Lemma looping_ended b fuel extra s : (extra <= 1)%nat → followed (looping b fuel extra) s → ended s.
Proof.
  intros He. apply followed_mono. intros w n l _ (Hl & Hn & _ & Hs & _). split; [|done]. apply attempts_enough in Hs. lia.
Qed.
Lemma timed_ended b fuel extra s :
  (extra <= 3)%nat → followed (fun w n l => looping b fuel extra w n l ∧ in_time b w) s → ended s.
Proof.
  intros He. apply followed_mono. intros w n l _ ((Hl & Hn & _) & Ht). split; [|done]. apply in_time_attempts in Ht. lia.
Qed.
Lemma triple_loop b fuel :
  triple stopped (followed (looping b fuel 0)) (connect_loop fuel (qadd b startup_timeout)) (fun _ => ended) (fun _ => ended).
Proof.
  induction fuel as [|fuel IH]; cbn [connect_loop].
  { intros s Hs. assert (followed (fun _ _ _ => False) s) as H; [|by apply followed_absurd].
    revert Hs. apply followed_mono. intros w n l Hn (_ & _ & _ & _ & H). lia. }
  eapply (triple_bind _ _ _ _ (fun t => followed (fun w n l => looping b (S fuel) 1 w n l ∧ now w = t))).
  { eapply triple_bind.
    - apply (triple_followed _ _ (fun a s => match a with GTime t => followed (fun w n l => looping b (S fuel) 1 w n l ∧ now w = t) s | _ => stopped s end)
        (fun _ => ended)).
      + intros w n l (Hl & Hn & _ & Hs & _). apply attempts_enough in Hs. rewrite launches_one. cbn [starts_one]. lia.
      + intros a s Hs. destruct a; try (apply followed_absurd; revert Hs; apply followed_mono; by intros w' n' l' _ (w & n & l & _ & H & _)).
        revert Hs. apply followed_mono. intros w' n' l' _ (w & n & l & (Hl & Hn & Hb & Hk & Hf) & H & -> & ->).
        cbn in H. destruct (qlt t (now w)) eqn:Et; [done|]. injection H as <-. apply qlt_spec_false in Et.
        split; [|done]. rewrite launches_one. unfold looping. cbn [starts_one slept now]. split_and!; [lia|lia|lra|done|lia].
      + intros e s. apply followed_mono. by intros w' n' l' _ (w & n & l & _ & H & _).
    - intros [| | |t]; [intros s H; exact H..|by apply triple_ret]. }
  intros t. destruct (qlt t (qadd b startup_timeout)) eqn:Et.
  - apply qlt_spec in Et. apply (triple_before _ _ (followed (fun w n l => looping b (S fuel) 1 w n l ∧ in_time b w))).
    2: { intros s. apply followed_mono. intros w n l _ ((Hl & Hn & Hb & Hk & Hf) & <-). split; [done|]. unfold in_time, qadd in *. lra. }
    eapply (triple_bind _ _ _ _ (fun reached => followed (fun w n l => looping b (S fuel) 2 w n l ∧ in_time b w))).
    { eapply (triple_try _ _ _ _ _ (fun _ => followed (fun w n l => looping b (S fuel) 2 w n l ∧ in_time b w))).
      - unfold perform. eapply (triple_bind _ _ _ _ (fun _ => followed (fun w n l => looping b (S fuel) 2 w n l ∧ in_time b w)));
          [|intros []; by apply triple_ret].
        eapply (triple_bind _ _ _ _ (fun _ => followed (fun w n l => looping b (S fuel) 2 w n l ∧ in_time b w))); [|intros a; by apply triple_ret].
        eapply triple_followed.
        + intros w n l ((Hl & Hn & _) & Ht). apply in_time_attempts in Ht. rewrite launches_one. cbn [starts_one]. lia.
        + intros a s. apply followed_mono. intros w' n' l' _ (w & n & l & ((Hl & Hn & Hb & Hk & Hf) & Ht) & H & -> & ->).
          injection H as <-. split; [|done]. rewrite launches_one. cbn [starts_one]. split_and!; [lia|lia|done|done|lia].
        + intros e s. apply followed_mono. intros w' n' l' _ (w & n & l & ((Hl & Hn & Hb & Hk & Hf) & Ht) & H & -> & ->).
          injection H as <-. split; [|done]. rewrite launches_one. cbn [starts_one]. split_and!; [lia|lia|done|done|lia].
      - intros e. destruct (isinstance e BrokerUnavailable); [by apply triple_ret|]. apply triple_raise. intros s. apply timed_ended. lia. }
    intros [|]; [apply triple_ret; intros s; apply timed_ended; lia|].
    eapply (triple_bind _ _ _ _ (fun _ => followed (looping b fuel 0))); [|intros []; apply IH]. unfold perform.
    eapply (triple_bind _ _ _ _ (fun _ => followed (looping b fuel 0))); [|intros a; by apply triple_ret].
    apply triple_followed.
    + intros w n l ((Hl & Hn & _) & Ht). apply in_time_attempts in Ht. rewrite launches_one. cbn [starts_one]. lia.
    + intros a s. apply followed_mono. intros w' n' l' _ (w & n & l & ((Hl & Hn & Hb & Hk & Hf) & Ht) & H & -> & ->).
      injection H as <-. rewrite launches_one. cbn [starts_one]. unfold in_time, looping in *. cbn [slept now].
      rewrite Nat2Z.inj_succ. unfold Z.succ. rewrite inject_Z_plus. change (inject_Z 1) with 1%Q. unfold qadd.
      split_and!; [lia|lia|lra|right; lra|lia].
    + intros e s. apply followed_mono. by intros w' n' l' _ (w & n & l & _ & H & _).
  - apply triple_raise. intros s Hs. apply (looping_ended b (S fuel) 1); [lia|]. revert Hs. apply followed_mono. by intros w n l _ [H _].
Qed.
Lemma early_ended n l s : (n <= 9)%nat → (l <= 1)%nat → followed (early n l) s → ended s.
Proof. intros Hn Hl. apply followed_mono. intros w m k _ (_ & ? & ?). lia. Qed.
Lemma triple_connect :
  triple stopped (followed (early 0 0)) (connect runtime_path resolve which_uvx PACKAGE_VERSION sys_executable startup_timeout) (fun _ => ended) (fun _ => ended).
Proof.
  assert (∀ n l s, (n <= 9)%nat → (l <= 1)%nat → followed (early n l) s → ended s) as Hend by (intros n l s; apply early_ended).
  unfold connect. eapply triple_bind; [eapply triple_raising; [apply costs_validate|]; intros e s; apply Hend; lia|].
  intros []. eapply triple_bind; [eapply triple_raising; [apply (costs_attempt 2 0); lia|]; intros e s; apply Hend; lia|].
  intros [|]; [apply triple_ret; intros s; apply Hend; lia|].
  eapply triple_bind; [eapply triple_raising; [apply (costs_start 3); lia|]; intros e s; apply Hend; lia|].
  intros []. change (3 + 4)%nat with 7%nat.
  eapply (triple_bind _ _ _ _ (fun t => followed (fun w n l => early 8 1 w n l ∧ now w = t))).
  { eapply triple_bind.
    - apply (triple_followed _ _ (fun a s => match a with GTime t => followed (fun w n l => early 8 1 w n l ∧ now w = t) s | _ => stopped s end)
        (fun _ => ended)).
      + intros w n l (_ & Hn & Hl). rewrite launches_one. cbn [starts_one]. lia.
      + intros a s Hs. destruct a; try (apply followed_absurd; revert Hs; apply followed_mono; by intros w' n' l' _ (w & n & l & _ & H & _)).
        revert Hs. apply followed_mono. intros w' n' l' _ (w & n & l & (Hk & Hn & Hl) & H & -> & ->).
        cbn in H. destruct (qlt t (now w)); [done|]. injection H as <-. rewrite launches_one. unfold early. cbn [starts_one slept now].
        split; [|done]. split_and!; [done|lia|lia].
      + intros e s. apply followed_mono. by intros w' n' l' _ (w & n & l & _ & H & _).
    - intros [| | |t]; [intros s H; exact H..|by apply triple_ret]. }
  intros b. apply triple_get. intros s0 Hs0. eapply triple_before; [apply triple_loop|]. intros s ->.
  pose proof Hs0 as (cs & _ & Hscr & Hlen & _). revert Hs0. rewrite Hscr, length_drop.
  intros (cs' & Ht & Hscr' & Hlen' & Hw). exists cs'. split_and!; [done..|].
  assert (length cs = length cs') as Hcs.
  { rewrite Hscr in Hscr'. apply (f_equal length) in Hscr'. rewrite !length_drop in Hscr'. lia. }
  destruct (watched _ _ _) as [w|]; [|done]. destruct Hw as ((Hk & Hn & Hl) & <-). unfold looping. rewrite Hk.
  split_and!; [done|lia|change (inject_Z (Z.of_nat 0)) with 0%Q; lra|by left|lia].
Qed.
End timing.

(** C5: connecting ends.  Let the environment answer every call with
    an answer of its kind, and let the clock never go back and count what was
    slept.  Then connecting stops after a number of calls that depends on the
    start-up timeout only, and at most one process has been launched; it waits for
    an answer forever only when the environment gives fewer answers than that. *)
Theorem connect_finishes runtime_path resolve which_uvx version sys_executable timeout t0 (s : io bool manager_call manager_reply) :
  let '(o, s') := connect runtime_path resolve which_uvx version sys_executable timeout s in
  let bound := (9 + 3 * attempts timeout)%nat in
  ∃ cs, trace s' = trace s ++ cs ∧
    (answers_properly t0 cs (script s) →
     (length cs <= bound)%nat ∧ (launches cs <= 1)%nat ∧
     (o = Hang → length cs = S (length (script s))) ∧ ((bound <= length (script s))%nat → o ≠ Hang)).
Proof.
  pose proof (triple_connect runtime_path resolve which_uvx version sys_executable timeout (trace s) (script s) t0
    (9 + 3 * attempts timeout) ltac:(lia) eq_refl s) as H.
  assert (followed (trace s) (script s) t0 (early 0 0) s) as Hs.
  { exists []. rewrite app_nil_r. split_and!; [done|done|cbn; lia|]. cbn. destruct (script s); cbn; by split_and!. }
  specialize (H Hs). destruct (connect runtime_path resolve which_uvx version sys_executable timeout s) as [[[]|e|] s'].
  1,2: destruct H as (cs & Ht & _ & _ & Hw); exists cs; split; [done|]; intros [w Hp]; unfold answers_properly in *; rewrite Hp in Hw;
    destruct Hw; split_and!; [done|done|discriminate|by intros _ Hx].
  destruct H as (cs & Ht & Hw). exists cs. split; [done|]. intros [w Hp]. destruct Hw as [Hw|(Hl & Hb & Hone)]; [congruence|].
  split_and!; [done|done|done|]. intros Hbig _. lia.
Qed.

(** The task service is unreachable; the broker is up after 100 ms. *)
Definition sample_answers : list (res manager_reply) :=
  let down := Err (unavailable (u "broker status is unavailable")) in
  [Err (task_unavailable (u "Windows Task Scheduler is unavailable")); down;
   Err (task_unavailable (u "Windows Task Scheduler is unavailable")); Ok GDone; Ok (GTime 0%Q);
   Ok (GTime 0%Q); down; Ok GDone; Ok (GTime tick); down; Ok GDone; Ok (GTime (1 # 10)%Q); Ok GDone] ++ repeat (Ok GDone) 20.
Lemma connect_finishes_witness :
  let '(o, s') := connect None id None (u "0.1.1") (u "python") (1 # 5)%Q (Io false sample_answers []) in
  answers_properly 0%Q (trace s') sample_answers ∧ o ≠ Hang ∧ (launches (trace s') <= 1)%nat ∧ length (trace s') = 13%nat.
Proof.
  pose proof (connect_finishes None id None (u "0.1.1") (u "python") (1 # 5)%Q 0%Q (Io false sample_answers [])) as H.
  destruct (connect None id None (u "0.1.1") (u "python") (1 # 5)%Q (Io false sample_answers [])) as [o s'] eqn:E.
  assert (trace (o, s').2 = [GScheduler; GClient; GScheduler; GPopen (broker_arguments None id (u "python")); GMonotonic;
    GMonotonic; GClient; GSleep; GMonotonic; GClient; GSleep; GMonotonic; GClient]) as Ht by (rewrite <- E; vm_compute; reflexivity).
  cbn [snd] in Ht. destruct H as (cs & Hcs & H). cbn [trace] in Hcs. change ([] ++ cs) with cs in Hcs. subst cs.
  cbv zeta in H. rewrite Ht in *. cbn [script] in H.
  assert (∀ cs, is_Some (watched (Watch 0%Q 0) cs sample_answers) → answers_properly 0%Q cs sample_answers) as Hp by (intros cs Hx; exact Hx).
  destruct H as (_ & Hl & _ & Hh); [apply Hp; eexists; vm_compute; reflexivity|].
  split; [apply Hp; eexists; vm_compute; reflexivity|]. split; [|by split].
  apply Hh. vm_compute. lia.
Defined.

(** Without [uvx] the check of the installed task fails before any connection
    is tried, also when no task is installed and the broker runs. *)
Lemma missing_uvx_blocks_connection resolve version sys_executable timeout launched rest :
  connect None resolve None version sys_executable timeout (Io launched (Ok GDone :: rest) []) =
  (Raise (value_error (u "uvx is required to install the per-user broker task")), Io launched rest [GScheduler]).
Proof. reflexivity. Qed.
