(* ===== verification/Draft.v ===== *)
(** * Draft: the form of the setup window (setup/draft.py, setup/form_state.py, setup/form.py)

    What the user typed becomes a profile; an existing profile fills the form
    when it is edited.  A tk variable is the text or the truth value it holds. *)
From S2P Require Import Prelude Errors Text TextFacts Regex ConfigModel.

Inductive CredentialMode : Set := CPassword | COpenSSH | CExistingKey | CNewKey.
#[export] Instance CredentialMode_eq_dec : EqDecision CredentialMode.
Proof. solve_decision. Defined.
Definition credential_value (c : CredentialMode) : str :=
  match c with
  | CPassword => u "password" | COpenSSH => u "openssh" | CExistingKey => u "existing_key" | CNewKey => u "new_key"
  end.
Definition uses_key (c : CredentialMode) : bool := match c with CExistingKey | CNewKey => true | _ => false end.

Record ProfileDraft := ProfileDraft_ {
  draft_name : str; draft_profile : ServerProfile; password_profile : option ServerProfile; credential_mode : CredentialMode;
  install_public_key : bool; private_key_path : option str; public_key_path : option str }.

(** The letters of the messages that are not ASCII *)
Definition ue : str := [252].
Definition oe : str := [246].
Definition sz : str := [223].

(** [Enum(value)] *)
Definition enum_of {U : UnicodeDB} {A} (members : list A) (value_of : A → str) (class value : str) : res A :=
  match List.find (fun a => str_eqb (value_of a) value) members with
  | Some a => Ok a
  | None => Err (value_error (py_repr value ++ u " is not a valid " ++ class))
  end.
Definition connection_types : list ConnectionType := [SSH_CONFIG; DIRECT].
Definition credential_modes : list CredentialMode := [CPassword; COpenSSH; CExistingKey; CNewKey].
Definition elevation_modes : list ElevationMode := [DISABLED; NON_INTERACTIVE; INTERACTIVE].
(** [int(text)] *)
Definition int_of {U : UnicodeDB} (text : str) : res Z :=
  match parse_int text with
  | Some n => Ok n
  | None => Err (value_error (u "invalid literal for int() with base 10: " ++ py_repr text))
  end.

(** What the form holds; [roots_text] is the text widget of the permissions page. *)
Record FormState := Form {
  f_profile_name : str; f_display_name : str; f_connection_type : str; f_target : str; f_user : str; f_port : str;
  f_credential_mode : str; f_identity_file : str; f_public_key_file : str; f_install_public_key : bool; roots_text : str;
  f_allow_terminal : bool; f_allow_file_read : bool; f_allow_file_write : bool; f_elevation_mode : str;
  f_allow_root_session : bool; f_environment : str; f_command_timeout : str; f_max_output : str;
  key_passphrase : str; key_passphrase_repeat : str }.
(** The keyword arguments of [build_profile_draft] *)
Record DraftFields := Fields {
  d_profile_name : str; d_display_name : str; d_connection_type : str; d_target : str; d_user : str; d_port : str;
  d_credential_mode : str; d_identity_file : str; d_public_key_file : str; d_install_public_key : bool; d_allowed_roots : str;
  d_allow_terminal : bool; d_allow_file_read : bool; d_allow_file_write : bool; d_elevation_mode : str;
  d_allow_root_session : bool; d_environment : str; d_command_timeout : str; d_max_output : str }.

Section drafting.
Context {U : UnicodeDB}.
(** [str(Path(p).expanduser().resolve())], [Path(p).is_file()], [path.with_name(path.name + ".pub")],
    the [/] of paths, and the environment variable USERPROFILE *)
Variable resolve : str → res str.
Variable is_file : str → bool.
Variable with_pub : str → res str.
Variable join_path : str → str → str.
Variable USERPROFILE : option str.

Definition default_private_key_path (profile_name : str) (user_profile : option str) : res str :=
  validate_profile_name profile_name;;
  root ← (match user_profile with
          | Some root => Ok root
          | None => match USERPROFILE with
                    | Some ((_ :: _) as value) => Ok value
                    | _ => Err (Builtin RuntimeError (u "USERPROFILE is unavailable"))
                    end
          end);
  Ok (join_path (join_path (join_path root (u ".ssh")) (u "serverops")) (profile_name ++ u "_ed25519")).
Definition identity_path (profile_name : str) (credential : CredentialMode) (file : str) : res (option str) :=
  if negb (uses_key credential) then Ok None
  else
    raw ← (match strip file, credential with
           | [], CNewKey => default_private_key_path profile_name None
           | raw, _ => Ok raw
           end);
    raise_if (str_eqb raw [])
      (value_error (u "Eine private Schl" ++ ue ++ u "sseldatei muss ausgew" ++ [228] ++ u "hlt werden."));;
    identity ← resolve raw;
    raise_if (bool_decide (credential = CExistingKey) && negb (is_file identity))
      (value_error (u "Die ausgew" ++ [228] ++ u "hlte private Schl" ++ ue ++ u "sseldatei existiert nicht."));;
    Ok (Some identity).
Definition find_public_key (install : bool) (credential : CredentialMode) (identity : option str) (file : str) : res (option str) :=
  if negb install || bool_decide (credential = CNewKey) then Ok None
  else
    match identity with
    | None => Err (value_error (u "Die private Schl" ++ ue ++ u "sseldatei fehlt."))
    | Some identity =>
        path ← (match strip file with [] => with_pub identity | raw => resolve raw end);
        raise_if (negb (is_file path))
          (value_error (u "Die " ++ oe ++ u "ffentliche Schl" ++ ue ++ u "sseldatei wurde nicht gefunden."));;
        Ok (Some path)
    end.
(** [allowed_roots.splitlines()], stripped, without the empty ones *)
Definition root_lines (text : str) : list str :=
  List.filter (fun line => negb (str_eqb line [])) (map strip (splitlines text)).
Definition password_variant (p : ServerProfile) : ServerProfile :=
  Profile (display_name p) (connection_type p) INTERACTIVE_PASSWORD (ssh_host p) (host p) (port p) (user p) None
    (allowed_roots p) (allow_terminal p) (allow_file_read p) (allow_file_write p) (elevation_mode p)
    (allow_root_session p) (environment p) (command_timeout_seconds p) (max_output_bytes p).
Definition build_profile_draft (f : DraftFields) : res ProfileDraft :=
  let name := strip (d_profile_name f) in
  connection ← enum_of connection_types connection_type_value (u "ConnectionType") (d_connection_type f);
  credential ← enum_of credential_modes credential_value (u "CredentialMode") (d_credential_mode f);
  identity ← identity_path name credential (d_identity_file f);
  raise_if (bool_decide (credential = CPassword) && bool_decide (connection = SSH_CONFIG))
    (value_error (u "SSH-Aliase verwenden die vorhandene OpenSSH-Authentifizierung."));;
  let target := strip (d_target f) in
  let direct := bool_decide (connection = DIRECT) in
  port ← (if direct then Some <$> int_of (d_port f) else Ok None);
  elevation ← enum_of elevation_modes elevation_mode_value (u "ElevationMode") (d_elevation_mode f);
  timeout ← int_of (d_command_timeout f);
  output ← int_of (d_max_output f);
  profile ← server_profile
    (Profile (strip (d_display_name f)) connection (if bool_decide (credential = CPassword) then INTERACTIVE_PASSWORD else OPENSSH)
       (if direct then None else Some target) (if direct then Some target else None) port
       (if direct then Some (strip (d_user f)) else None) identity (root_lines (d_allowed_roots f))
       (d_allow_terminal f) (d_allow_file_read f) (d_allow_file_write f) elevation (d_allow_root_session f)
       (strip (d_environment f)) timeout output);
  raise_if (d_install_public_key f && (negb direct || negb (uses_key credential)))
    (value_error (u "Die automatische Schl" ++ ue ++ u "sselinstallation ben" ++ oe ++ u "tigt ein direktes Ziel und einen Schl" ++ ue ++ u "ssel."));;
  public ← find_public_key (d_install_public_key f) credential identity (d_public_key_file f);
  variant ← (if d_install_public_key f then Some <$> server_profile (password_variant profile) else Ok None);
  Ok (ProfileDraft_ name profile variant credential (d_install_public_key f) identity public).

Definition or_text (o : option str) : str := default [] o.
Definition show_opt (o : option str) : str := match o with Some s => s | None => u "None" end.
Definition yes_no (b : bool) : str := if b then u "ja" else u "nein".
Definition profile_confirmation_text (d : ProfileDraft) : str :=
  let p := draft_profile d in
  let target := match ssh_host p with
                | Some ((_ :: _) as h) => h
                | _ => show_opt (user p) ++ u "@" ++ show_opt (host p) ++ u ":" ++ match port p with Some n => show_int n | None => u "None" end
                end in
  let roots := match join (u ", ") (allowed_roots p) with [] => u "keine strukturierten Dateipfade" | t => t end in
  u "Profil: " ++ draft_name d ++ nl
  ++ u "Anzeige: " ++ display_name p ++ nl
  ++ u "Ziel: " ++ target ++ nl
  ++ u "Authentifizierung: " ++ authentication_value (authentication p) ++ nl
  ++ u "Dateipfade: " ++ roots ++ nl
  ++ u "Terminal: " ++ yes_no (allow_terminal p) ++ nl
  ++ u "Elevation: " ++ elevation_mode_value (elevation_mode p) ++ nl
  ++ u "Umgebung: " ++ environment p ++ nl ++ nl
  ++ u "Dies ist keine Sandbox. Ma" ++ sz ++ u "geblich bleiben SSH-Benutzer, Dateirechte und sudoers.".

(** ** The state of the form *)
Definition connection_label (c : ConnectionType) : str :=
  match c with DIRECT => u "Server direkt angeben" | SSH_CONFIG => u "Vorhandenen SSH-Alias verwenden" end.
Definition credential_label (c : CredentialMode) : str :=
  match c with
  | CPassword => u "Passwort beim Verbinden verwenden"
  | COpenSSH => u "OpenSSH-Standard verwenden"
  | CExistingKey => u "Vorhandenen SSH-Schl" ++ ue ++ u "ssel verwenden"
  | CNewKey => u "Neuen SSH-Schl" ++ ue ++ u "ssel erstellen"
  end.
Definition elevation_label (m : ElevationMode) : str :=
  match m with
  | DISABLED => u "Keine gef" ++ ue ++ u "hrten Administratoraktionen"
  | NON_INTERACTIVE => u "Nur bereits passwortlos erlaubtes sudo"
  | INTERACTIVE => u "sudo bei Bedarf im sicheren Fenster freigeben"
  end.
(** The member whose label is selected; the labels are looked through in the
    order of their dictionary. *)
Definition selected {A} (members : list A) (label : A → str) (text : str) : res A :=
  match List.find (fun a => str_eqb text (label a)) members with
  | Some a => Ok a
  | None => Err (value_error (u "Die ausgew" ++ [228] ++ u "hlte Option ist ung" ++ ue ++ u "ltig."))
  end.
Definition form_connection (s : FormState) : res ConnectionType := selected [DIRECT; SSH_CONFIG] connection_label (f_connection_type s).
Definition form_credential (s : FormState) : res CredentialMode := selected credential_modes credential_label (f_credential_mode s).
Definition form_elevation (s : FormState) : res ElevationMode := selected elevation_modes elevation_label (f_elevation_mode s).

Definition initial_credential (p : option ServerProfile) : CredentialMode :=
  match p with
  | None => CPassword
  | Some p =>
      match identity_file p with
      | Some (_ :: _) => CExistingKey
      | _ => match authentication p with INTERACTIVE_PASSWORD => CPassword | OPENSSH => COpenSSH end
      end
  end.
Definition initial_target (p : option ServerProfile) (suggested_host : option str) : str :=
  match p with
  | Some p => or_text (str_or (ssh_host p) (host p))
  | None => or_text suggested_host
  end.
Definition initial_user (p : option ServerProfile) (suggested_user : option str) : str :=
  or_text (str_or (p ≫= user) suggested_user).
Definition initial_port (p : option ServerProfile) : str :=
  show_int (match p ≫= port with Some n => if n =? 0 then 22 else n | None => 22 end).
(** [ProfileFormState(...)] *)
Definition form_state (profile_name : option str) (p : option ServerProfile) (suggested_host suggested_user : option str) : FormState :=
  let get {A} (f : ServerProfile → A) (d : A) : A := match p with Some p => f p | None => d end in
  Form (or_text profile_name) (get display_name (or_text suggested_host)) (connection_label (get connection_type DIRECT))
    (initial_target p suggested_host) (initial_user p suggested_user) (initial_port p)
    (credential_label (initial_credential p)) (or_text (p ≫= identity_file)) [] false (join nl (get allowed_roots []))
    (get allow_terminal true) (get allow_file_read false) (get allow_file_write false) (elevation_label (get elevation_mode DISABLED))
    (get allow_root_session false) (get environment (u "unspecified")) (show_int (get command_timeout_seconds 60))
    (show_int (get max_output_bytes 2097152)) [] [].
Definition set_credential (s : FormState) (label : str) (install : bool) : FormState :=
  Form (f_profile_name s) (f_display_name s) (f_connection_type s) (f_target s) (f_user s) (f_port s) label (f_identity_file s)
    (f_public_key_file s) install (roots_text s) (f_allow_terminal s) (f_allow_file_read s) (f_allow_file_write s)
    (f_elevation_mode s) (f_allow_root_session s) (f_environment s) (f_command_timeout s) (f_max_output s)
    (key_passphrase s) (key_passphrase_repeat s).
Definition normalize_connection (s : FormState) : res FormState :=
  connection ← form_connection s;
  Ok (match connection with SSH_CONFIG => set_credential s (credential_label COpenSSH) false | DIRECT => s end).
(** [_build_draft]; the arguments left out stand in the form. *)
Definition build_draft (s : FormState) (roots : str) (terminal read write : bool) (elevation : str) (root_session : bool)
    (environment_ timeout output : str) (credential identity public : option str) (install : option bool) : res ProfileDraft :=
  connection ← form_connection s;
  mode ← (match connection, credential with
          | SSH_CONFIG, _ => Ok (credential_value COpenSSH)
          | DIRECT, Some ((_ :: _) as c) => Ok c
          | DIRECT, _ => credential_value <$> form_credential s
          end);
  build_profile_draft
    (Fields (f_profile_name s) (f_display_name s) (connection_type_value connection) (f_target s) (f_user s) (f_port s) mode
       (default (f_identity_file s) identity) (default (f_public_key_file s) public) (default (f_install_public_key s) install)
       roots terminal read write elevation root_session environment_ timeout output).
Definition draft (s : FormState) : res ProfileDraft :=
  elevation ← form_elevation s;
  build_draft s (roots_text s) (f_allow_terminal s) (f_allow_file_read s) (f_allow_file_write s) (elevation_mode_value elevation)
    (f_allow_root_session s) (f_environment s) (f_command_timeout s) (f_max_output s) None None None None.
Definition validate_connection (s : FormState) : res unit :=
  _ ← build_draft s [] true false false (elevation_mode_value DISABLED) false (u "unspecified") (u "60") (u "2097152")
        (Some (credential_value CPassword)) (Some []) (Some []) (Some false);
  Ok tt.
Definition passphrases_differ : exn := value_error (u "Die beiden Passphrasen stimmen nicht " ++ ue ++ u "berein.").
Definition validate_authentication (s : FormState) : res unit :=
  _ ← build_draft s [] true false false (elevation_mode_value DISABLED) false (u "unspecified") (u "60") (u "2097152") None None None None;
  raise_if (negb (str_eqb (key_passphrase s) (key_passphrase_repeat s))) passphrases_differ.
(** The bytes of the passphrase; both fields are emptied first. *)
Definition take_key_secret (s : FormState) : res bytes * FormState :=
  ((raise_if (negb (str_eqb (key_passphrase s) (key_passphrase_repeat s))) passphrases_differ;; utf8_encode (key_passphrase s)),
   Form (f_profile_name s) (f_display_name s) (f_connection_type s) (f_target s) (f_user s) (f_port s) (f_credential_mode s)
     (f_identity_file s) (f_public_key_file s) (f_install_public_key s) (roots_text s) (f_allow_terminal s) (f_allow_file_read s)
     (f_allow_file_write s) (f_elevation_mode s) (f_allow_root_session s) (f_environment s) (f_command_timeout s) (f_max_output s) [] []).

(** ** The steps of the form: connection, authentication, permissions, review *)
Definition LAST_STEP : nat := 3.
Definition go_next (s : FormState) (step : nat) : res nat :=
  if (step =? LAST_STEP)%nat then Ok step
  else
    match step with
    | 0%nat => validate_connection s
    | 1%nat => validate_authentication s
    | 2%nat => _ ← draft s; Ok tt
    | _ => Ok tt
    end;;
    Ok (S step).
Definition go_back (step : nat) : nat := match step with 0%nat => 0%nat | S step => step end.
End drafting.

(** ** Editing a profile *)
Section editing.
Context {U : UnicodeDB}.
Variable resolve : str → res str.
Variable is_file : str → bool.
Variable with_pub : str → res str.
Variable join_path : str → str → str.
Variable USERPROFILE : option str.
Abbreviation draft_of := (draft resolve is_file with_pub join_path USERPROFILE).
Abbreviation next_step := (go_next resolve is_file with_pub join_path USERPROFILE).

Lemma set_same_roots p : set_allowed_roots p (allowed_roots p) = p.
Proof. by destruct p. Qed.
(** What the constructor checks of a profile it leaves alone *)
Record accepted (p : ServerProfile) : Prop := {
  ok_display : validate_display_text (display_name p) (u "display_name") 128 = Ok tt;
  ok_environment : validate_display_text (environment p) (u "environment") 64 = Ok tt;
  ok_roots : normalize_allowed_roots (allowed_roots p) = Ok (allowed_roots p);
  ok_connection : check_connection p = Ok tt;
  ok_identity : check_identity p = Ok tt;
  ok_permissions : check_permissions p = Ok tt }.
Lemma server_profile_accepted p : server_profile p = Ok p ↔ accepted p.
Proof.
  split.
  - intros H. unfold server_profile in H. apply then_Ok in H as [H1 H]. apply then_Ok in H as [H2 H].
    destruct (normalize_allowed_roots (allowed_roots p)) as [roots|] eqn:E; [|done]. cbn in H.
    apply then_Ok in H as [H3 H]. apply then_Ok in H as [H4 H]. apply then_Ok in H as [H5 H]. apply Ok_inj in H.
    assert (roots = allowed_roots p) as -> by (by apply (f_equal allowed_roots) in H). rewrite set_same_roots in *. by constructor.
  - intros [H1 H2 H3 H4 H5 H6]. unfold server_profile. rewrite H1, H2, H3. cbn. rewrite set_same_roots, H4, H5. cbn. by rewrite H6.
Qed.
Lemma display_trimmed v name n : validate_display_text v name n = Ok tt → strip v = v ∧ v ≠ [].
Proof.
  intros [H _]%then_Ok. apply raise_if_Ok in H. rewrite !orb_false_iff, negb_false_iff in H.
  destruct H as [[H1 H2] _]. unfold str_eqb in *. apply bool_decide_eq_true in H2. apply bool_decide_eq_false in H1. by split.
Qed.
Lemma target_trimmed v name : validate_target v name = Ok tt → strip v = v ∧ v ≠ [].
Proof. intros [H _]%then_Ok. by apply display_trimmed in H. Qed.
Lemma user_trimmed n : fullmatch REMOTE_USER n = true → strip n = n ∧ n ≠ [].
Proof.
  intros H. split; [|by intros ->].
  apply fullmatch_lang in H as (t & Hl & Ht). apply class_upto_text in Hl; [|done].
  apply strip_id. rewrite forallb_forall in *. intros c Hc. specialize (Hl c Hc). unfold cls in Hl. cbn in Hl.
  rewrite !orb_false_r in Hl. rewrite !orb_true_iff, !andb_true_iff, !Z.leb_le in Hl.
  apply negb_true_iff. unfold is_space, mem_Z. cbn. rewrite !orb_false_iff, ?andb_false_iff, !Z.eqb_neq, ?Z.leb_gt. lia.
Qed.
Lemma int_shown n : 0 <= n < 16777217 → int_of (show_int n) = Ok n.
Proof.
  intros Hn. unfold int_of. rewrite parse_show_int; [done|].
  assert (Z.log2 (Z.abs n) <= Z.log2 16777216) by (apply Z.log2_le_mono; lia).
  change (Z.log2 16777216) with 24 in H. lia.
Qed.

(** The lines of roots without line breaks are the roots. *)
Definition no_break (r : str) : Prop := forallb (fun c => negb (line_break c)) r = true.
Lemma splitlines_line r s acc : no_break r → splitlines_acc (r ++ 10 :: s) acc = (rev acc ++ r ++ [10]) :: splitlines_acc s [].
Proof.
  revert acc. unfold no_break. induction r as [|c r IH]; intros acc; cbn [app forallb].
  - intros _. cbn. by destruct s.
  - intros [Hc Hr]%andb_true_iff. apply negb_true_iff in Hc. cbn [splitlines_acc]. rewrite Hc, IH by done. cbn. by rewrite <- app_assoc.
Qed.
Lemma splitlines_last r acc : no_break r → splitlines_acc r acc = match rev acc ++ r with [] => [] | l => [l] end.
Proof.
  revert acc. unfold no_break. induction r as [|c r IH]; intros acc; cbn [forallb splitlines_acc].
  - intros _. rewrite app_nil_r. destruct acc as [|a acc]; [done|]. destruct (rev (a :: acc)) eqn:E; [|done].
    apply (f_equal length) in E. rewrite length_rev in E. done.
  - intros [Hc Hr]%andb_true_iff. apply negb_true_iff in Hc. rewrite Hc, IH by done. cbn. by rewrite <- app_assoc.
Qed.
Lemma line_end_removed r : no_break r → strip_line_end (r ++ [10]) = r ∧ strip_line_end r = r.
Proof.
  intros H. unfold strip_line_end. rewrite rev_app_distr. cbn [rev app]. change (line_break 10) with true. cbn match. split.
  - destruct (rev r) as [|d l] eqn:E; [apply (f_equal (@rev Z)) in E; rewrite rev_involutive in E; by subst|].
    assert (d =? 13 = false) as ->.
    { apply Z.eqb_neq. intros ->. unfold no_break in H. rewrite forallb_forall in H.
      assert (In 13 r) as Hin by (apply in_rev; rewrite E; by left). by apply H in Hin. }
    rewrite <- E. by rewrite rev_involutive.
  - destruct (rev r) as [|d l] eqn:E; [done|]. unfold no_break in H. rewrite forallb_forall in H.
    assert (In d r) as Hin by (apply in_rev; rewrite E; by left). apply H in Hin. apply negb_true_iff in Hin. by rewrite Hin.
Qed.
Lemma splitlines_roots rs : Forall (fun r => no_break r ∧ r ≠ []) rs → splitlines (join nl rs) = rs.
Proof.
  intros H. unfold splitlines, splitlines_keep. induction H as [|r rs [Hr Hne] H IH]; [done|].
  destruct rs as [|r' rs].
  - cbn [join]. rewrite splitlines_last by done. cbn. destruct r; [done|]. cbn. f_equal. by apply line_end_removed.
  - change (join nl (r :: r' :: rs)) with (r ++ 10 :: join nl (r' :: rs)). rewrite splitlines_line by done. cbn [rev app map].
    rewrite (proj1 (line_end_removed r Hr)). by rewrite IH.
Qed.
Definition plain_root (r : str) : Prop := no_break r ∧ strip r = r.
Lemma absolute_nonempty r : posix_is_absolute r = true → r ≠ [].
Proof. by intros H ->. Qed.
Lemma root_lines_joined rs : Forall plain_root rs → Forall (fun r => r ≠ []) rs → root_lines (join nl rs) = rs.
Proof.
  intros Hp Hne. unfold root_lines. rewrite splitlines_roots.
  - clear -Hp Hne. induction Hp as [|r rs [_ Hr] Hp IH]; [done|]. inversion_clear Hne. cbn. rewrite Hr.
    destruct r; [done|]. cbn. by rewrite IH.
  - clear -Hp Hne. induction Hp as [|r rs [Hr _] Hp IH]; [constructor|]. inversion_clear Hne. constructor; auto.
Qed.
Lemma roots_nonempty p : accepted p → Forall (fun r => r ≠ []) (allowed_roots p).
Proof.
  intros H%server_profile_accepted%server_profile_wf. destruct H as [Hr _ _ _ _ _ _ _ _]. eapply Forall_impl; [exact Hr|].
  intros r [Ha _]. by apply absolute_nonempty.
Qed.

(** The fields [f] describe the profile [q], with the credentials [mode]. *)
Record describes (f : DraftFields) (q : ServerProfile) (mode : CredentialMode) : Prop := {
  says_display : strip (d_display_name f) = display_name q;
  says_connection : d_connection_type f = connection_type_value (connection_type q);
  says_target : (match connection_type q with
                 | DIRECT => host q = Some (strip (d_target f)) ∧ ssh_host q = None ∧ user q = Some (strip (d_user f)) ∧
                             (∃ n, port q = Some n ∧ int_of (d_port f) = Ok n)
                 | SSH_CONFIG => ssh_host q = Some (strip (d_target f)) ∧ host q = None ∧ user q = None ∧ port q = None ∧ mode ≠ CPassword
                 end);
  says_mode : d_credential_mode f = credential_value mode;
  says_authentication : authentication q = if bool_decide (mode = CPassword) then INTERACTIVE_PASSWORD else OPENSSH;
  says_identity : identity_path resolve is_file join_path USERPROFILE (strip (d_profile_name f)) mode (d_identity_file f) = Ok (identity_file q);
  says_install : d_install_public_key f = false;
  says_roots : root_lines (d_allowed_roots f) = allowed_roots q;
  says_flags : (d_allow_terminal f, d_allow_file_read f, d_allow_file_write f, d_allow_root_session f) =
               (allow_terminal q, allow_file_read q, allow_file_write q, allow_root_session q);
  says_elevation : d_elevation_mode f = elevation_mode_value (elevation_mode q);
  says_environment : strip (d_environment f) = environment q;
  says_timeout : int_of (d_command_timeout f) = Ok (command_timeout_seconds q);
  says_output : int_of (d_max_output f) = Ok (max_output_bytes q) }.
Lemma enum_connection c : enum_of connection_types connection_type_value (u "ConnectionType") (connection_type_value c) = Ok c.
Proof. by destruct c. Qed.
Lemma enum_credential c : enum_of credential_modes credential_value (u "CredentialMode") (credential_value c) = Ok c.
Proof. by destruct c. Qed.
Lemma enum_elevation c : enum_of elevation_modes elevation_mode_value (u "ElevationMode") (elevation_mode_value c) = Ok c.
Proof. by destruct c. Qed.
Lemma described_draft f q mode : accepted q → describes f q mode →
  build_profile_draft resolve is_file with_pub join_path USERPROFILE f =
  Ok (ProfileDraft_ (strip (d_profile_name f)) q None mode false (identity_file q) None).
Proof.
  intros Hq [H1 H2 H3 H4 H5 H6 H7 H8 H9 H10 H11 H12 H13]. injection H9 as Ht Hr Hw Hs.
  unfold build_profile_draft. rewrite H2, enum_connection, H4, enum_credential. cbn [mbind result_mbind result_bind].
  rewrite H6. cbn [mbind result_mbind result_bind].
  assert (bool_decide (mode = CPassword) && bool_decide (connection_type q = SSH_CONFIG) = false) as ->.
  { destruct (connection_type q); [destruct H3 as (_ & _ & _ & _ & H3); by rewrite bool_decide_eq_false_2|by rewrite andb_comm]. }
  cbn [raise_if]. rewrite H10, enum_elevation, H1, H7, H8, H11, H12, H13, Ht, Hr, Hw, Hs, <- H5.
  apply server_profile_accepted in Hq. destruct q as [dn ct au sh ho po us idf ro te re wr el rs en ti ou]. cbn -[server_profile] in *.
  destruct ct; cbn -[server_profile].
  - destruct H3 as (-> & -> & -> & -> & _). rewrite bool_decide_eq_false_2 by done. cbn -[server_profile]. by rewrite Hq.
  - destruct H3 as (-> & -> & -> & n & -> & ->). rewrite bool_decide_eq_true_2 by done. cbn -[server_profile]. by rewrite Hq.
Qed.

(** What the form makes of a profile: the key file of an alias is lost. *)
Definition with_identity (p : ServerProfile) (auth : Authentication) (file : option str) : ServerProfile :=
  Profile (display_name p) (connection_type p) auth (ssh_host p) (host p) (port p) (user p) file
    (allowed_roots p) (allow_terminal p) (allow_file_read p) (allow_file_write p) (elevation_mode p)
    (allow_root_session p) (environment p) (command_timeout_seconds p) (max_output_bytes p).
Definition edited (p : ServerProfile) : ServerProfile :=
  match connection_type p with DIRECT => p | SSH_CONFIG => with_identity p OPENSSH None end.
Definition edited_mode (p : ServerProfile) : CredentialMode :=
  match connection_type p with DIRECT => initial_credential (Some p) | SSH_CONFIG => COpenSSH end.
(** The least a profile of this connection can be *)
Definition least (p : ServerProfile) (auth : Authentication) (file : option str) : ServerProfile :=
  Profile (display_name p) (connection_type p) auth (ssh_host p) (host p) (port p) (user p) file [] true false false DISABLED false
    (u "unspecified") 60 2097152.
Definition identity_here (p : ServerProfile) : Prop :=
  ∀ path, identity_file p = Some path → resolve path = Ok path ∧ is_file path = true.
Definition form_of (p : ServerProfile) (name : str) (h n : option str) : FormState :=
  match connection_type p with
  | DIRECT => form_state (Some name) (Some p) h n
  | SSH_CONFIG => set_credential (form_state (Some name) (Some p) h n) (credential_label COpenSSH) false
  end.
Lemma form_normalized p name h n : normalize_connection (form_state (Some name) (Some p) h n) = Ok (form_of p name h n).
Proof. unfold normalize_connection, form_connection, form_of. cbn. by destruct (connection_type p). Qed.
Lemma chosen_connection p name h n : form_connection (form_of p name h n) = Ok (connection_type p).
Proof. unfold form_connection, form_of. destruct (connection_type p) eqn:E; cbn; by rewrite E. Qed.
Lemma chosen_credential p name h n : form_credential (form_of p name h n) = Ok (edited_mode p).
Proof.
  unfold form_credential, form_of, edited_mode. destruct (connection_type p); [done|].
  change (selected credential_modes credential_label (credential_label (initial_credential (Some p))) = Ok (initial_credential (Some p))).
  by destruct (initial_credential (Some p)).
Qed.
Lemma chosen_elevation p name h n : form_elevation (form_of p name h n) = Ok (elevation_mode p).
Proof.
  unfold form_elevation. assert (f_elevation_mode (form_of p name h n) = elevation_label (elevation_mode p)) as ->
    by (unfold form_of; by destruct (connection_type p)). by destruct (elevation_mode p).
Qed.
Lemma edited_accepted p : accepted p → accepted (edited p).
Proof.
  intros H. unfold edited. destruct (connection_type p) eqn:E; [|done]. destruct H as [H1 H2 H3 H4 H5 H6]. constructor; try done.
  unfold check_connection in *. cbn. rewrite E in *. destruct (ssh_host p); [|done].
  apply then_Ok in H4 as [-> H4]. apply then_Ok in H4 as [-> H4]. done.
Qed.
Lemma check_connection_auth p auth : accepted p → (connection_type p = SSH_CONFIG → auth = OPENSSH) → ∀ file, check_connection (least p auth file) = Ok tt.
Proof.
  intros H Ha file. pose proof (ok_connection _ H) as Hc. unfold check_connection in *. cbn. destruct (connection_type p); [|done].
  rewrite Ha by done. destruct (ssh_host p); [|done]. apply then_Ok in Hc as [-> Hc]. by apply then_Ok in Hc as [-> _].
Qed.
Lemma least_accepted p auth file : accepted p → (connection_type p = SSH_CONFIG → auth = OPENSSH) →
  (file = None ∨ file = identity_file p ∧ auth = OPENSSH) → accepted (least p auth file).
Proof.
  intros H Ha Hf. constructor; try done; try apply H; [by apply check_connection_auth|].
  pose proof (ok_identity _ H) as Hi. unfold check_identity in *. cbn. destruct Hf as [->|[-> ->]]; [done|].
  destruct (identity_file p); [|done]. by apply then_Ok in Hi as [-> _].
Qed.
Lemma chosen_identity p name : accepted p → identity_here p →
  identity_path resolve is_file join_path USERPROFILE name (initial_credential (Some p)) (or_text (identity_file p)) = Ok (identity_file p) ∧
  authentication p = if bool_decide (initial_credential (Some p) = CPassword) then INTERACTIVE_PASSWORD else OPENSSH.
Proof.
  intros H Hh. pose proof (ok_identity _ H) as Hi. unfold check_identity in Hi. unfold initial_credential.
  destruct (identity_file p) as [path|] eqn:E; [|by destruct (authentication p)].
  apply then_Ok in Hi as [Hi Ha]. apply display_trimmed in Hi as [Hs Hne]. destruct (Hh path E) as [Hr Hf].
  apply raise_if_Ok in Ha. apply negb_false_iff, bool_decide_eq_true in Ha. destruct path as [|c path]; [done|].
  split; [|done]. unfold identity_path. change (or_text (Some (c :: path))) with (c :: path). rewrite Hs.
  cbn [uses_key negb mbind result_mbind result_bind]. assert (str_eqb (c :: path) [] = false) as -> by reflexivity. cbn [raise_if mbind result_mbind result_bind]. rewrite Hr. cbn. by rewrite Hf.
Qed.

(** The connection part of what the form says *)
Definition says_connection_of (f : DraftFields) (p : ServerProfile) (h n : option str) (name : str) : Prop :=
  d_display_name f = display_name p ∧ d_connection_type f = connection_type_value (connection_type p) ∧
  d_target f = initial_target (Some p) h ∧ d_user f = initial_user (Some p) n ∧ d_port f = initial_port (Some p) ∧
  d_profile_name f = name.
Lemma target_said f p h n name q mode :
  accepted p → says_connection_of f p h n name → (connection_type p = SSH_CONFIG → mode ≠ CPassword) →
  (connection_type q, ssh_host q, host q, user q, port q) = (connection_type p, ssh_host p, host p, user p, port p) →
  match connection_type q with
  | DIRECT => host q = Some (strip (d_target f)) ∧ ssh_host q = None ∧ user q = Some (strip (d_user f)) ∧
              (∃ k, port q = Some k ∧ int_of (d_port f) = Ok k)
  | SSH_CONFIG => ssh_host q = Some (strip (d_target f)) ∧ host q = None ∧ user q = None ∧ port q = None ∧ mode ≠ CPassword
  end.
Proof.
  intros H (_ & _ & -> & -> & -> & _) Hm [= -> -> -> -> ->].
  pose proof (ok_connection _ H) as Hc. unfold check_connection in Hc. unfold initial_target, initial_user, initial_port, or_text, str_or. cbn [mbind option_bind].
  destruct (connection_type p).
  - destruct (ssh_host p) as [a|]; [|done]. apply then_Ok in Hc as [Ha Hc]. apply target_trimmed in Ha as [Ha Hne].
    apply then_Ok in Hc as [Hc _]. apply raise_if_Ok in Hc. rewrite !orb_false_iff in Hc. destruct Hc as [[Hh Hp] Hu].
    destruct (host p), (port p), (user p); try done. destruct a; [done|]. cbn [default]. unfold id. rewrite Ha. split_and!; [done..|by apply Hm].
  - apply then_Ok in Hc as [Hs Hc]. apply raise_if_Ok in Hs. destruct (ssh_host p); [done|].
    destruct (host p) as [a|]; [|done]. destruct (user p) as [b|]; [|done]. destruct (port p) as [k|]; [|done].
    apply then_Ok in Hc as [Ha Hc]. apply target_trimmed in Ha as [Ha Hne]. apply then_Ok in Hc as [Hb Hc]. apply raise_if_Ok in Hb.
    apply negb_false_iff, user_trimmed in Hb as [Hb Hbne]. apply raise_if_Ok in Hc. apply negb_false_iff, andb_true_iff in Hc as [Hk1 Hk2].
    apply Z.leb_le in Hk1, Hk2. destruct a; [done|]. destruct b; [done|]. cbn [default]. unfold id. rewrite Ha, Hb. split_and!; [done..|].
    exists k. split; [done|]. rewrite (proj2 (Z.eqb_neq k 0)) by lia. apply int_shown. lia.
Qed.

Ltac said p h n name E :=
  apply (target_said _ p h n name); [eassumption|..];
    [unfold says_connection_of; cbn; rewrite ?E; by split_and!|by rewrite ?E|cbn; by rewrite ?E].

(** C40: editing a profile without changing a field keeps it, when its
    roots are plain (each a single line without blanks around it, as the text
    field splits and trims them) and the key file of a direct profile is written
    as the path it resolves to and is there (the draft stores the resolved path,
    and a key that is gone stops the form).  Then the form filled from a
    constructed profile lets the user go through every step, and its draft is the
    profile itself; of a profile that uses an alias the key file is dropped. *)
Theorem editing_keeps_profile p name h n :
  server_profile p = Ok p → Forall plain_root (allowed_roots p) → (connection_type p = DIRECT → identity_here p) →
  ∃ s, normalize_connection (form_state (Some name) (Some p) h n) = Ok s ∧
    draft_of s = Ok (ProfileDraft_ (strip name) (edited p) None (edited_mode p) false (identity_file (edited p)) None) ∧
    next_step s 0%nat = Ok 1%nat ∧ next_step s 1%nat = Ok 2%nat ∧ next_step s 2%nat = Ok 3%nat.
Proof.
  intros H%server_profile_accepted Hroots Hid. exists (form_of p name h n). split; [apply form_normalized|].
  pose proof (server_profile_wf _ _ (proj2 (server_profile_accepted p) H)) as Hwf.
  assert (connection_type p = DIRECT → _) as Hkey by (intros E; exact (chosen_identity p (strip name) H (Hid E))).
  pose proof (display_trimmed _ _ _ (ok_display _ H)) as [Hdisplay _]. pose proof (display_trimmed _ _ _ (ok_environment _ H)) as [Henv _].
  assert (root_lines (join nl (allowed_roots p)) = allowed_roots p) as Hlines by (by apply root_lines_joined; [|apply roots_nonempty]).
  assert (int_of (show_int (command_timeout_seconds p)) = Ok (command_timeout_seconds p)) as Ht
    by (apply int_shown; destruct Hwf; lia).
  assert (int_of (show_int (max_output_bytes p)) = Ok (max_output_bytes p)) as Ho by (apply int_shown; destruct Hwf; lia).
  assert (draft_of (form_of p name h n) = Ok (ProfileDraft_ (strip name) (edited p) None (edited_mode p) false (identity_file (edited p)) None)) as Hdraft.
  { unfold draft. rewrite chosen_elevation. cbn [mbind result_mbind result_bind]. unfold build_draft.
    rewrite chosen_connection. cbn [mbind result_mbind result_bind].
    unfold edited, edited_mode, form_of. destruct (connection_type p) eqn:E.
    - cbn [mbind result_mbind result_bind]. erewrite described_draft; [reflexivity|..].
      + pose proof (edited_accepted p H) as He. unfold edited in He. rewrite E in He. exact He.
      + constructor; try done; [cbn; by rewrite E|]. by said p h n name E.
    - destruct (Hkey eq_refl) as [Hidentity Hauth]. cbn [fmap result_fmap]. unfold form_credential. cbn [form_state f_credential_mode].
      assert (selected credential_modes credential_label (credential_label (initial_credential (Some p))) = Ok (initial_credential (Some p))) as ->
        by (by destruct (initial_credential (Some p))).
      cbn [mbind result_mbind result_bind fmap result_fmap]. erewrite described_draft; [reflexivity|done|].
      constructor; try done; [cbn; by rewrite E|]. by said p h n name E. }
  split; [exact Hdraft|]. unfold go_next. cbn [Nat.eqb LAST_STEP]. split_and!.
  - unfold validate_connection, build_draft. rewrite chosen_connection. cbn [mbind result_mbind result_bind].
    destruct (connection_type p) eqn:E; cbn [mbind result_mbind result_bind credential_value].
    + erewrite (described_draft _ (least p OPENSSH None) COpenSSH); [reflexivity|by apply least_accepted; [| |left]|].
      constructor; try done; try (unfold form_of; by rewrite E); try (cbn; by rewrite E). unfold form_of. rewrite E. by said p h n name E.
    + let x := eval vm_compute in (u "password") in change (u "password") with x. cbn [mbind result_mbind result_bind].
      erewrite (described_draft _ (least p INTERACTIVE_PASSWORD None) CPassword); [reflexivity|apply least_accepted; [done|by rewrite E|by left]|].
      constructor; try done; try (unfold form_of; by rewrite E); try (cbn; by rewrite E). unfold form_of. rewrite E. by said p h n name E.
  - unfold validate_authentication, build_draft. rewrite chosen_connection. cbn [mbind result_mbind result_bind].
    assert (match connection_type p with SSH_CONFIG => Ok (credential_value COpenSSH)
            | DIRECT => credential_value <$> form_credential (form_of p name h n) end = Ok (credential_value (edited_mode p))) as ->
      by (rewrite chosen_credential; unfold edited_mode; by destruct (connection_type p)).
    cbn [mbind result_mbind result_bind].
    erewrite (described_draft _ (least p (authentication (edited p)) (identity_file (edited p))) (edited_mode p)).
    + unfold form_of. by destruct (connection_type p).
    + apply least_accepted; [done|unfold edited; by intros ->|].
      unfold edited. destruct (connection_type p); [by left|]. destruct (identity_file p) eqn:E; [|by left]. right. split; [done|].
      apply (wf_identity _ Hwf). by rewrite E.
    + unfold edited, edited_mode. destruct (connection_type p) eqn:E; [|destruct (Hkey eq_refl) as [Hidentity Hauth]];
        (constructor; try done; try (unfold form_of; by rewrite E)); (try (cbn; by rewrite E)); unfold form_of; rewrite E; by said p h n name E.
  - rewrite Hdraft. reflexivity.
Qed.

(** A draft holds a constructed profile; a key that is to be installed has a
    direct target and a second profile that logs in with the password; the files
    it names were there, except the key that is still to be made. *)
Theorem draft_is_checked f d :
  build_profile_draft resolve is_file with_pub join_path USERPROFILE f = Ok d →
  server_profile (draft_profile d) = Ok (draft_profile d) ∧
  private_key_path d = identity_file (draft_profile d) ∧
  (is_Some (private_key_path d) ↔ uses_key (credential_mode d) = true) ∧
  (credential_mode d = CExistingKey → ∃ path, private_key_path d = Some path ∧ is_file path = true) ∧
  (if install_public_key d
   then connection_type (draft_profile d) = DIRECT ∧ uses_key (credential_mode d) = true ∧
        (∃ q, password_profile d = Some q ∧ authentication q = INTERACTIVE_PASSWORD ∧ identity_file q = None ∧ server_profile q = Ok q)
   else password_profile d = None ∧ public_key_path d = None) ∧
  (∀ path, public_key_path d = Some path → is_file path = true ∧ credential_mode d ≠ CNewKey).
Proof.
  intros H. unfold build_profile_draft in H. inv_ok H. apply Ok_inj in H as <-. cbn.
  assert (∀ p q, server_profile p = Ok q → ∃ roots, q = set_allowed_roots p roots) as Hroots.
  { intros p q Hp. unfold server_profile in Hp. inv_ok Hp. apply Ok_inj in Hp as <-. by eexists. }
  destruct (Hroots _ _ Ha7) as [roots E]. pose proof (server_profile_idem _ _ Ha7) as Hq. rewrite Hq.
  assert (connection_type a7 = a ∧ identity_file a7 = a1) as [Hct Hid] by (by rewrite E).
  assert ((is_Some a1 ↔ uses_key a0 = true) ∧ (a0 = CExistingKey → ∃ path, a1 = Some path ∧ is_file path = true)) as [Hkey Hexisting].
  { clear -Ha1. unfold identity_path in Ha1. destruct (uses_key a0) eqn:Ek; cbn [negb] in Ha1.
    - inv_ok Ha1. apply Ok_inj in Ha1 as <-. split; [split; [done|by eexists]|]. intros ->. eexists. split; [done|].
      match goal with H : raise_if (_ && negb (is_file _)) _ = _ |- _ => apply raise_if_Ok in H; rename H into Hmissing end.
      rewrite bool_decide_eq_true_2 in Hmissing by done. by apply negb_false_iff in Hmissing.
    - apply Ok_inj in Ha1 as <-. split; [split; [by intros []|done]|]. by intros ->. }
  split_and!; [done|by rewrite Hid|done|done|..].
  - apply raise_if_Ok in Ha8. destruct (d_install_public_key f).
    + cbn [andb] in Ha8. apply orb_false_iff in Ha8 as [Hdirect Huses]. apply negb_false_iff, bool_decide_eq_true in Hdirect.
      apply negb_false_iff in Huses. rewrite Hct. split_and!; [done|done|]. destruct (server_profile (password_variant a7)) as [q|] eqn:Eq; [|done].
      apply Ok_inj in Ha10 as <-. exists q. destruct (Hroots _ _ Eq) as [roots' ->]. split_and!; [done..|].
      by apply server_profile_idem in Eq.
    + apply Ok_inj in Ha10 as <-. split; [done|]. cbn in Ha9. by apply Ok_inj in Ha9 as <-.
  - intros path ->. unfold find_public_key in Ha9. destruct (negb (d_install_public_key f) || bool_decide (a0 = CNewKey)) eqn:Ei;
      cbn match in Ha9; [by apply Ok_inj in Ha9|].
    apply orb_false_iff in Ei as [_ Hmode]. apply bool_decide_eq_false in Hmode. split; [|done].
    destruct a1 as [identity|]; [|done]. inv_ok Ha9. apply Ok_inj in Ha9 as [= <-]. 
    match goal with H : raise_if (negb (is_file _)) _ = _ |- _ => apply raise_if_Ok, negb_false_iff in H; exact H end.
Qed.
End editing.

(** A direct profile that logs in with a key file, and its steps *)
Definition direct_profile (key : str) : ServerProfile :=
  Profile (u "Web") DIRECT OPENSSH None (Some (u "web.example")) (Some 22) (Some (u "deploy")) (Some key) [u "/srv"; u "/var/log"] true true false
    DISABLED false (u "unspecified") 60 2097152.
Lemma editing_keeps_profile_witness :
  let p := direct_profile (u "C:\keys\web") in
  let step := go_next (U := ascii_db) Ok (fun _ => true) Ok (fun a b => a ++ u "\" ++ b) None in
  ∃ s d, normalize_connection (form_state (Some (u "web")) (Some p) None None) = Ok s ∧
    draft (U := ascii_db) Ok (fun _ => true) Ok (fun a b => a ++ u "\" ++ b) None s = Ok d ∧
    draft_profile d = p ∧ credential_mode d = CExistingKey ∧ step s 0%nat = Ok 1%nat ∧ step s 1%nat = Ok 2%nat ∧ step s 2%nat = Ok 3%nat.
Proof.
  intros p step.
  destruct (editing_keeps_profile (U := ascii_db) Ok (fun _ => true) Ok (fun a b => a ++ u "\" ++ b) None p (u "web") None None)
    as (s & Hs & Hd & Hsteps); [vm_compute; reflexivity|by repeat constructor|by intros _ path [= <-]|].
  exists s. eexists. split; [exact Hs|]. split; [exact Hd|]. split; [reflexivity|]. split; [reflexivity|exact Hsteps].
Defined.
(** Editing a profile of an alias through the form loses its key file. *)
Definition alias_profile : ServerProfile :=
  Profile (u "Web") SSH_CONFIG OPENSSH (Some (u "web")) None None None (Some (u "C:\keys\web")) [u "/srv"] true true false DISABLED false
    (u "unspecified") 60 2097152.
Definition redrafted (resolve : str → res str) (is_file : str → bool) (p : ServerProfile) : res ProfileDraft :=
  s ← normalize_connection (form_state (Some (u "web")) (Some p) None None);
  draft (U := ascii_db) resolve is_file Ok (fun a b => a ++ u "\" ++ b) None s.
Example alias_loses_its_key :
  (d ← redrafted Ok (fun _ => true) alias_profile; Ok (identity_file (draft_profile d))) = Ok None.
Proof. by vm_compute. Qed.
(** A key file written from the home directory is replaced by what it resolves
    to, and one that is gone cannot be kept. *)
Example home_key_is_resolved :
  (d ← redrafted (fun _ => Ok (u "C:\Users\a\.ssh\id")) (fun _ => true) (direct_profile (u "~/.ssh/id")); Ok (identity_file (draft_profile d)))
  = Ok (Some (u "C:\Users\a\.ssh\id")).
Proof. by vm_compute. Qed.
Example missing_key_is_refused : ∃ e, redrafted Ok (fun _ => false) (direct_profile (u "C:\keys\web")) = Err e.
Proof. eexists. by vm_compute. Qed.
