(* ===== verification/Doctor.v ===== *)
(** * Doctor: the checks of an installation (installer/model.py, installer/checks.py, installer/doctor.py)

    Each check answers with a code, a level and a message; the doctor also opens
    a session of one profile and looks at the server with a few fixed commands.
    The system, the broker and the services of the tools answer from a script. *)
From S2P Require Import Prelude Errors Text TextFacts Prog ConfigModel BrokerModel Value.

(** ** Reports *)
Inductive CheckLevel : Set := PASS | WARNING | FAIL.
#[export] Instance CheckLevel_eq_dec : EqDecision CheckLevel.
Proof. solve_decision. Defined.
Definition level_value (l : CheckLevel) : str := match l with PASS => u "pass" | WARNING => u "warning" | FAIL => u "fail" end.
Record CheckResult := Result { check_code : str; level : CheckLevel; message : str }.
Definition check_dict (c : CheckResult) : dict value :=
  [(u "code", VStr (check_code c)); (u "level", VStr (level_value (level c))); (u "message", VStr (message c))].
Definition at_level (l : CheckLevel) (checks : list CheckResult) : bool := existsb (fun c => bool_decide (level c = l)) checks.
Definition report_status (checks : list CheckResult) : str :=
  if at_level FAIL checks then u "failed"
  else if at_level WARNING checks then u "ready_with_warnings"
  else u "ready".
Definition succeeded (checks : list CheckResult) : bool := negb (str_eqb (report_status checks) (u "failed")).
Definition report_dict (checks : list CheckResult) : dict value :=
  [(u "status", VStr (report_status checks)); (u "checks", VList (map (fun c => VDict (check_dict c)) checks))].
Definition passed (code m : str) : CheckResult := Result code PASS m.
Definition warning (code m : str) : CheckResult := Result code WARNING m.
Definition failed (code m : str) : CheckResult := Result code FAIL m.

Inductive doctor_call : Type :=
  | DWhich (program : str)
  | DFindSsh                                    (* find_windows_ssh() *)
  | DLoad                                       (* TomlProfileRepository.load() *)
  | DResolve (p : ServerProfile) (ssh : str)    (* resolve_ssh_target *)
  | DIsFile (path : str)
  | DExists (path : str)
  | DReadCodex                                  (* read_text and parse_codex_config *)
  | DManagedVersion                             (* inspect_managed_version *)
  | DInspectSecurity                            (* inspect_path_security *)
  | DConnect                                    (* BrokerManager.connect() *)
  | DPing                                       (* client.request("broker.ping") *)
  | DCloseClient
  | DShutdownBroker                             (* manager.shutdown_launched_broker() *)
  | DOpen (name : str)                          (* services.server_connection("open") *)
  | DExec (session command : str)               (* services.server_exec *)
  | DSudoStatus (session : str)                 (* services.server_elevation("status") *)
  | DClose (session : str).                     (* services.server_connection("close") *)
Inductive doctor_reply : Type :=
  | DDone | DText (s : option str) | DFlag (b : bool) | DConfig (c : ServerOpsConfig) | DTarget (t : ResolvedSshTarget)
  | DDict (d : dict value).

(** What the checks know of the program and of its process *)
Record Host := MkHost {
  is_windows : bool; python_version : Z * Z * Z; app_dir : str; codex_config_file : str;
  PACKAGE_VERSION : str; BROKER_VERSION : Z; WORKER_VERSION : Z }.
(** The list of results that a method builds, and the session it holds *)
Record doctor_state := Doctor { checks : list CheckResult; session : option str }.

Section checking.
Context {U : UnicodeDB}.
Variable h : Host.
(** [str(v)] of a value that is not text *)
Variable str_of : value → str.
Abbreviation P := (M (io doctor_state doctor_call doctor_reply)).
Definition as_text (v : value) : str := match v with VStr s => s | _ => str_of v end.
Definition ask_text (c : doctor_call) : P (option str) := r ← ask c; match r with DText s => mret s | _ => hang end.
Definition ask_flag (c : doctor_call) : P bool := r ← ask c; match r with DFlag b => mret b | _ => hang end.
Definition ask_dict (c : doctor_call) : P (dict value) := r ← ask c; match r with DDict d => mret d | _ => hang end.
Definition perform (c : doctor_call) : P unit := ask c;; mret tt.
(** [except Exception as error: ...] *)
Definition otherwise {A} (m : P A) (f : exn → P A) : P A := try_except m (fun e => if is_exception e then f e else raise e).

(** ** The local checks *)
Definition platform_check : CheckResult :=
  if is_windows h then passed (u "windows") (u "Windows runtime detected")
  else failed (u "windows_required") (u "Version 0.1 supports Windows 10 and 11 only").
Definition python_check : CheckResult :=
  let '(major, minor, micro) := python_version h in
  let version := show_int major ++ u "." ++ show_int minor ++ u "." ++ show_int micro in
  if (major =? 3) && (minor =? 12) then passed (u "python") (u "Python " ++ version ++ u " matches the 3.12 contract")
  else failed (u "python_unsupported") (u "Python " ++ version ++ u " is not the required 3.12 runtime").
Definition found (o : option str) : option str := match o with Some (c :: s) => Some (c :: s) | _ => None end.
Definition uvx_check : P CheckResult :=
  path ← ask_text (DWhich (u "uvx"));
  mret (match found path with
        | Some _ => passed (u "uvx") (u "uvx is available for checkout-free MCP startup")
        | None => failed (u "uvx_missing") (u "uvx was not found on PATH")
        end).
Definition claude_code_check : P CheckResult :=
  path ← ask_text (DWhich (u "claude"));
  mret (match found path with
        | Some p => passed (u "claude_code") (u "Claude Code CLI found at " ++ p)
        | None => failed (u "claude_code_missing") (u "Claude Code CLI was not found on PATH; plugin state is owned by Claude Code")
        end).
Definition find_ssh : P str := path ← ask_text DFindSsh; match path with Some p => mret p | None => hang end.
Definition ssh_check : P CheckResult :=
  otherwise (path ← find_ssh; mret (passed (u "ssh") (u "Windows OpenSSH client found at " ++ path)))
    (fun e => mret (failed (u "ssh_missing") (error_message e))).
Definition package_contract_check : CheckResult :=
  passed (u "version_contract")
    (u "package=" ++ PACKAGE_VERSION h ++ u ", broker=" ++ show_int (BROKER_VERSION h) ++ u ", worker=" ++ show_int (WORKER_VERSION h)
     ++ u ", config=" ++ show_int CONFIG_SCHEMA_VERSION).
Definition load : P ServerOpsConfig := r ← ask DLoad; match r with DConfig c => mret c | _ => hang end.
Definition profiles_check : P CheckResult :=
  otherwise (c ← load; mret (passed (u "profiles")
               (u "Server profile configuration is valid (" ++ show_int (len (profiles c)) ++ u " profiles)")))
    (fun e => mret (failed (u "profiles_invalid") (u "Server profile configuration is invalid: " ++ error_message e))).
Definition local_security_check : P CheckResult :=
  exists_ ← ask_flag (DExists (app_dir h));
  if negb exists_ then mret (warning (u "local_data_missing") (u "Local application data has not been prepared"))
  else if negb (is_windows h) then mret (failed (u "local_acl_unsupported") (u "Current-user DACL checks require Windows"))
  else
    otherwise
      (own ← ask_flag DInspectSecurity;
       mret (if own : bool then passed (u "local_acl") (u "Local application data is restricted to the current user")
             else failed (u "local_acl_shared") (u "Local application data is not current-user-only")))
      (fun e => mret (failed (u "local_acl_invalid") (u "Local application data ACL check failed: " ++ error_message e))).
Definition codex_config_check : P CheckResult :=
  exists_ ← ask_flag (DExists (codex_config_file h));
  if negb exists_ then mret (warning (u "codex_config_missing") (u "Codex config.toml does not exist yet"))
  else
    inspected ← otherwise (parsed ← ask_dict DReadCodex; pinned ← ask_text DManagedVersion; mret (inr (parsed, pinned)))
                  (fun e => mret (inl (failed (u "codex_config_invalid") (u "Codex configuration is invalid: " ++ error_message e))));
    mret (match inspected with
          | inl result => result
          | inr (parsed, None) =>
              match vget parsed (u "mcp_servers") with
              | VDict servers =>
                  if dhas servers (u "serverops")
                  then warning (u "codex_config_unmanaged") (u "An unmarked ServerOps MCP entry exists and will not be overwritten")
                  else warning (u "codex_config_not_installed") (u "The installer-managed ServerOps MCP block is not configured")
              | _ => warning (u "codex_config_not_installed") (u "The installer-managed ServerOps MCP block is not configured")
              end
          | inr (_, Some pinned) =>
              if negb (str_eqb pinned (PACKAGE_VERSION h))
              then warning (u "codex_config_version_mismatch")
                     (u "Codex pins " ++ pinned ++ u ", while this installer is " ++ PACKAGE_VERSION h)
              else passed (u "codex_config") (u "Codex MCP block is exactly pinned to " ++ pinned)
          end).
Definition is_true (v : value) : bool := match v with VBool true => true | _ => false end.
Definition broker_results (ping : dict value) : list CheckResult :=
  [passed (u "broker") (u "Broker is reachable (PID " ++ as_text (vget ping (u "pid")) ++ u ")");
   if eq_int (vget ping (u "protocol_version")) (BROKER_VERSION h)
   then passed (u "broker_protocol") (u "Broker protocol handshake is compatible")
   else failed (u "broker_protocol") (u "Broker protocol version is incompatible");
   if is_true (vget ping (u "ipc_current_user_only"))
   then passed (u "broker_acl") (u "Broker IPC is restricted to the current user")
   else failed (u "broker_acl") (u "Broker IPC ACL could not be verified")].
Definition broker_check : P (list CheckResult) :=
  try_finally
    (otherwise (perform DConnect;; ping ← try_finally (ask_dict DPing) (perform DCloseClient); mret (broker_results ping))
       (fun e => mret [failed (u "broker_unavailable") (u "Broker could not start or respond: " ++ error_message e)]))
    (perform DShutdownBroker).
Definition run_local (include_broker : bool) (client : str) : P (list CheckResult) :=
  lift (raise_if (negb (bool_decide (client ∈ [u "core"; u "codex"; u "claude"; u "all"])))
          (value_error (u "unsupported client check: " ++ client)));;
  uvx ← uvx_check;
  ssh ← ssh_check;
  profiles ← profiles_check;
  security ← local_security_check;
  codex ← (if bool_decide (client ∈ [u "codex"; u "all"]) then c ← codex_config_check; mret [c] else mret []);
  claude ← (if bool_decide (client ∈ [u "claude"; u "all"]) then c ← claude_code_check; mret [c] else mret []);
  broker ← (if include_broker then broker_check else mret []);
  mret ([platform_check; python_check; uvx; ssh; package_contract_check; profiles; security] ++ codex ++ claude ++ broker).

(** ** The remote checks *)
Definition REQUIRED_REMOTE_COMMANDS : list str :=
  [u "bash"; u "realpath"; u "base64"; u "stat"; u "sha256sum"; u "find"; u "grep"; u "od"; u "sed"; u "head"; u "wc"; u "mktemp";
   u "mv"; u "chmod"; u "chgrp"; u "sync"].
Definition bash_probe : str := sh "printf '%s' `${BASH_VERSION-}`".
Definition commands_probe : str :=
  u "for _serverops_cmd in " ++ join (u " ") REQUIRED_REMOTE_COMMANDS ++ u "; do "
  ++ sh "command -v `$_serverops_cmd` >/dev/null 2>&1 || printf '%s\n' `$_serverops_cmd`; done".
Definition root_probe (encoded : str) : str :=
  u "_serverops_root=$(printf '%s' '" ++ encoded ++ u "' | base64 -d) && "
  ++ sh "test -d `$_serverops_root` && realpath -e -- `$_serverops_root`".
Definition sudo_probe : str := u "sudo -n -l".
Definition output_of (d : dict value) : str := as_text (get_or (VStr []) d (u "output")).
Definition exited_with_zero (d : dict value) : bool := eq_int (vget d (u "exit_code")) 0.

Definition bash_and_commands (id : str) : P (list CheckResult) :=
  bash ← ask_dict (DExec id bash_probe);
  let first := if exited_with_zero bash && negb (str_eqb (strip (output_of bash)) [])
               then passed (u "bash") (u "Remote interactive shell is Bash")
               else failed (u "bash_missing") (u "Remote shell did not expose BASH_VERSION") in
  result ← ask_dict (DExec id commands_probe);
  let missing := List.filter (fun line => negb (str_eqb line [])) (splitlines (output_of result)) in
  mret [first;
        match missing with
        | [] => passed (u "remote_commands") (u "Required remote commands are available")
        | _ => failed (u "remote_commands_missing") (u "Required commands missing: " ++ join (u ", ") missing)
        end].
Fixpoint check_roots (id : str) (roots : list str) : P (list CheckResult) :=
  match roots with
  | [] => mret []
  | root :: roots =>
      b ← lift (utf8_encode root);
      result ← ask_dict (DExec id (root_probe (b64_encode b)));
      rest ← check_roots id roots;
      mret ((if exited_with_zero result then passed (u "allowed_root") (u "Allowed root is canonicalizable: " ++ root)
             else failed (u "allowed_root_invalid") (u "Allowed root is unavailable: " ++ root)) :: rest)
  end.
Definition allowed_roots_check (id : str) (roots : list str) : P (list CheckResult) :=
  match roots with
  | [] => mret [passed (u "allowed_roots") (u "No structured file roots are configured")]
  | _ => check_roots id roots
  end.
Definition sudo_check (id : str) (mode : ElevationMode) : P (list CheckResult) :=
  guided ← (match mode with
            | DISABLED => mret (passed (u "guided_sudo_disabled") (u "Guided elevation is disabled"))
            | _ =>
                status ← ask_dict (DSudoStatus id);
                mret (if is_true (vget status (u "active"))
                      then warning (u "sudo_noninteractive_active")
                             (u "sudo currently succeeds without a prompt; this may be cached or NOPASSWD")
                      else passed (u "sudo_prompt_required") (u "sudo -n does not currently elevate"))
            end);
  listing ← ask_dict (DExec id sudo_probe);
  mret (guided ::
        (if exited_with_zero listing
         then [warning (u "sudo_noninteractive_available") (u "The SSH user can inspect or use sudo non-interactively")] else []) ++
        (if contains (u "NOPASSWD:") (output_of listing) && contains (u "ALL") (output_of listing)
         then [warning (u "sudo_broad_nopasswd") (u "sudo output suggests a broad NOPASSWD rule; review sudoers manually")] else [])).

Definition append (l : list CheckResult) : P unit := update (fun s => Doctor (checks s ++ l) (session s)).
(** Up to the profile; [inl] is the result of the method. *)
Definition preflight (name : str) : P (list CheckResult + ServerProfile) :=
  lift (validate_profile_name name);;
  c ← load;
  p ← lift (match dget (profiles c) name with Some p => Ok p | None => Err (Builtin KeyError (py_repr name)) end);
  ssh ← find_ssh;
  r ← ask (DResolve p ssh);
  t ← (match r with DTarget t => mret t | _ => hang end);
  append [passed (u "profile_resolved")
            (u "Profile resolves to " ++ target_user t ++ u "@" ++ target_host t ++ u ":" ++ show_int (target_port t))];;
  present ← (match identity_file p with Some path => ask_flag (DIsFile path) | None => mret true end);
  if present : bool then mret (inr p)
  else append [failed (u "identity_file_missing") (u "Configured identity file is missing")];; s ← state; mret (inl (checks s)).
Definition examine (name : str) (p : ServerProfile) : P unit :=
  opened ← ask_dict (DOpen name);
  id ← lift (getitem opened (u "session_id"));
  update (fun s => Doctor (checks s) (Some (as_text id)));;
  let ssh_user := vget opened (u "ssh_user") in
  append [passed (u "connection") (u "SSH connection reached a held Bash session")];;
  append [passed (u "effective_user")
            (u "SSH user is " ++ as_text ssh_user ++ u "; effective user is " ++ as_text (vget opened (u "effective_user")))];;
  (if eq_str ssh_user (u "root")
   then append [warning (u "root_login") (u "The profile logs in directly as root; use a restricted account when possible")]
   else mret tt);;
  l ← bash_and_commands (as_text id); append l;;
  l ← allowed_roots_check (as_text id) (allowed_roots p); append l;;
  l ← sudo_check (as_text id) (elevation_mode p); append l.
Definition close_session : P unit :=
  s ← state;
  match session s with
  | None => mret tt
  | Some id => otherwise (perform (DClose id))
                 (fun _ => append [warning (u "session_cleanup") (u "Doctor could not confirm session cleanup")])
  end.
Definition remote (name : str) : P (list CheckResult) :=
  update (fun _ => Doctor [] None);;
  start ← try_except (preflight name)
            (fun e => match e with
                      | Builtin KeyError _ => mret (inl [failed (u "profile_missing") (u "Profile does not exist: " ++ name)])
                      | _ => if is_exception e
                             then mret (inl [failed (u "profile_unresolved") (u "Profile could not be resolved: " ++ error_message e)])
                             else raise e
                      end);
  match start with
  | inl l => mret l
  | inr p =>
      try_finally
        (otherwise (examine name p)
           (fun e => append [failed (u "remote_preflight_failed") (u "Remote preflight failed: " ++ error_message e)]))
        close_session;;
      s ← state; mret (checks s)
  end.
(** [Doctor.run] *)
Definition run_doctor (name : option str) (client : str) : P (list CheckResult) :=
  local ← run_local true client;
  match name with
  | None => mret (local ++ [warning (u "remote_not_checked")
                              (u "No profile was selected; connection and remote preflight were not run")])
  | Some name => l ← remote name; perform DShutdownBroker;; mret (local ++ l)
  end.
End checking.

(** ** What the doctor does on a server *)
Section harmless.
Context {U : UnicodeDB}.
Variable str_of : value → str.
Abbreviation IO := (io doctor_state doctor_call doctor_reply).
(** The commands are fixed up to the text of a root, which is quoted base64. *)
Definition probe (command : str) : Prop :=
  command ∈ [bash_probe; commands_probe; sudo_probe] ∨ ∃ root b, utf8_encode root = Ok b ∧ command = root_probe (b64_encode b).
Inductive phase := Away | Inside (session : str).
Definition allowed (name : str) (ph : phase) (c : doctor_call) : Prop :=
  match ph, c with
  | Away, (DLoad | DFindSsh | DResolve _ _ | DIsFile _) => True
  | Away, DOpen n => n = name
  | Inside id, DExec id' command => id' = id ∧ probe command
  | Inside id, (DSudoStatus id' | DClose id') => id' = id
  | _, _ => False
  end.
Definition after (ph : phase) (c : doctor_call) (a : res doctor_reply) : phase :=
  match c, a with
  | DOpen _, Ok (DDict d) => match dget d (u "session_id") with Some id => Inside (as_text str_of id) | None => Away end
  | DClose _, _ => Away
  | _, _ => ph
  end.

Section run.
Context (name : str) (tr : list doctor_call) (scr : list (res doctor_reply)).
Abbreviation stopped := (obeyed (allowed name) after tr scr Away).
(** In phase [ph], with the session that the method remembers *)
Definition at_ (ph : phase) (id : option str) (s : IO) : Prop :=
  at_phase (allowed name) after tr scr Away ph s ∧ session (st s) = id.
Lemma inside_stopped ph id s : at_ ph id s → stopped s.
Proof. intros [H _]. by eapply at_phase_obeyed. Qed.
Lemma doctor_asks ph id c (Q : doctor_reply → IO → Prop) (R : exn → IO → Prop) :
  allowed name ph c → (∀ a s, at_ (after ph c (Ok a)) id s → Q a s) → (∀ e s, at_ (after ph c (Err e)) id s → R e s) →
  triple stopped (at_ ph id) (ask c) Q R.
Proof.
  intros Hc HQ HR. by apply (triple_asked _ _ (fun x => session x = id)).
Qed.
Definition stays (ph : phase) (id : option str) {A} (m : M IO A) : Prop :=
  triple stopped (at_ ph id) m (fun _ => at_ ph id) (fun _ => at_ ph id).
Lemma stays_ret ph id {A} (a : A) : stays ph id (mret a).
Proof. by apply triple_ret. Qed.
Lemma stays_hang ph id {A} : stays ph id (hang : M IO A).
Proof. intros s H. by eapply inside_stopped. Qed.
Lemma stays_raise ph id {A} e : stays ph id (raise e : M IO A).
Proof. by apply triple_raise. Qed.
Lemma stays_bind ph id {A B} (m : M IO A) (f : A → M IO B) : stays ph id m → (∀ a, stays ph id (f a)) → stays ph id (m ≫= f).
Proof. intros Hm Hf. eapply triple_bind; [exact Hm|exact Hf]. Qed.
Lemma stays_lift ph id {A} (r : res A) : stays ph id (lift r).
Proof. by apply triple_lift. Qed.
Lemma stays_append ph id l : stays ph id (append l).
Proof. by apply triple_modify. Qed.
Lemma stays_state ph id {B} (f : doctor_state → M IO B) : (∀ x, stays ph id (f x)) → stays ph id (state ≫= f).
Proof. intros Hf. apply triple_state. intros x. eapply triple_before; [apply Hf|]. by intros s [H _]. Qed.
Lemma stays_ask ph id c : allowed name ph c → (∀ a, after ph c a = ph) → stays ph id (ask c).
Proof. intros Hc Ha. apply doctor_asks; [done|..]; intros ? s; by rewrite Ha. Qed.
Ltac stay :=
  repeat match goal with
  | |- stays _ _ (ask _) => apply stays_ask; [cbn; auto|intros []; done]
  | |- stays _ _ (ask_dict _) => unfold ask_dict
  | |- stays _ _ (ask_flag _) => unfold ask_flag
  | |- stays _ _ (ask_text _) => unfold ask_text
  | |- stays _ _ (state ≫= _) => apply stays_state; intros ?
  | |- stays _ _ (_ ≫= _) => apply stays_bind; [|intros ?]
  | |- stays _ _ (mret _) => apply stays_ret
  | |- stays _ _ hang => apply stays_hang
  | |- stays _ _ (raise _) => apply stays_raise
  | |- stays _ _ (lift _) => apply stays_lift
  | |- stays _ _ (append _) => apply stays_append
  | |- stays _ _ (match ?x with _ => _ end) => destruct x
  | |- stays _ _ (if ?x then _ else _) => destruct x
  end.
Lemma stays_preflight : stays Away None (preflight name).
Proof. unfold preflight, load, find_ssh. stay. Qed.
Lemma stays_bash id : stays (Inside id) (Some id) (bash_and_commands str_of id).
Proof.
  assert (∀ c, c ∈ [bash_probe; commands_probe; sudo_probe] → allowed name (Inside id) (DExec id c)) as Hp by (intros c Hc; split; [done|by left]).
  unfold bash_and_commands, ask_dict. apply stays_bind; [apply stays_bind; [apply stays_ask; [apply Hp; by left|by intros []]|intros ?; stay]|].
  intros bash. apply stays_bind; [apply stays_bind; [apply stays_ask; [apply Hp; by right; left|by intros []]|intros ?; stay]|].
  intros result. stay.
Qed.
Lemma stays_roots id roots : stays (Inside id) (Some id) (allowed_roots_check id roots).
Proof.
  assert (∀ rs, stays (Inside id) (Some id) (check_roots id rs)) as H.
  { induction rs as [|root rs IH]; cbn [check_roots]; [stay|]. apply triple_lift_at; [|done]. intros b Hb.
    apply stays_bind; [unfold ask_dict; apply stays_bind; [apply stays_ask; [|by intros []]|intros ?; stay]|].
    - split; [done|]. right. by exists root, b.
    - intros result. apply stays_bind; [exact IH|]. intros rest. stay. }
  unfold allowed_roots_check. destruct roots; [stay|apply H].
Qed.
Lemma stays_sudo id mode : stays (Inside id) (Some id) (sudo_check str_of id mode).
Proof.
  unfold sudo_check. apply stays_bind; [stay|]. intros guided. apply stays_bind; [|intros ?; stay].
  unfold ask_dict. apply stays_bind; [apply stays_ask; [|by intros []]|intros ?; stay]. split; [done|]. left. by do 2 right; left.
Qed.
(** Inside a session, the method remembers it. *)
Definition holding (s : IO) : Prop := at_ Away None s ∨ ∃ id, at_ (Inside id) (Some id) s.
Lemma triple_examine p : triple stopped (at_ Away None) (examine str_of name p) (fun _ => holding) (fun _ => holding).
Proof.
  assert (∀ ph id A (m : M IO A), (ph, id) = (Away, None) ∨ (∃ i, (ph, id) = (Inside i, Some i)) → stays ph id m →
    triple stopped (at_ ph id) m (fun _ => holding) (fun _ => holding)) as Hholds.
  { intros ph id A m Hph Hm. eapply triple_conseq; [exact Hm|done|intros ? s|intros ? s|done]; intros H;
      (destruct Hph as [Eq|[i Eq]]; injection Eq; intros; subst; [by left|right; by exists i]). }
  unfold examine.
  eapply (triple_bind _ _ _ _ (fun opened s => at_ (match dget opened (u "session_id") with Some id => Inside (as_text str_of id) | None => Away end) None s)).
  { unfold ask_dict. eapply (triple_bind _ _ _ _ (fun a => at_ (after Away (DOpen name) (Ok a)) None)).
    - eapply triple_raising; [apply (doctor_asks _ _ _ (fun a => at_ (after Away (DOpen name) (Ok a)) None) (fun _ => at_ Away None)); try done|].
      intros e s H. by left.
    - intros a s H. destruct a; try exact (inside_stopped _ _ _ H). exact H. }
  intros opened. unfold getitem. destruct (dget opened (u "session_id")) as [id|] eqn:E.
  2: { intros s H. unfold lift. by left. }
  assert (∀ B (k : value → M IO B), (lift (Ok id) : M IO value) ≫= k = k id) as Hlift by done. rewrite Hlift.
  eapply (triple_bind _ _ _ _ (fun _ => at_ (Inside (as_text str_of id)) (Some (as_text str_of id)))).
  { apply triple_modify. intros s [H _]. by split. }
  intros []. apply Hholds; [right; by eexists|].
  apply stays_bind; [stay|]. intros []. apply stays_bind; [stay|]. intros []. apply stays_bind; [stay|]. intros [].
  apply stays_bind; [apply stays_bash|]. intros l. apply stays_bind; [stay|]. intros [].
  apply stays_bind; [apply stays_roots|]. intros l'. apply stays_bind; [stay|]. intros [].
  apply stays_bind; [apply stays_sudo|]. intros l''. stay.
Qed.
Definition left_ (s : IO) : Prop := at_phase (allowed name) after tr scr Away Away s.
Lemma triple_close : triple stopped holding (close_session) (fun _ => left_) (fun e s => left_ s ∧ is_exception e = false).
Proof.
  intros s H. unfold close_session, state, gets, mbind, prog_mbind, prog_bind. destruct H as [[H Hid]|[id [H Hid]]]; rewrite Hid; [exact H|].
  enough (triple stopped (at_ (Inside id) (Some id)) (otherwise (perform (DClose id))
            (fun _ => append [warning (u "session_cleanup") (u "Doctor could not confirm session cleanup")]))
            (fun _ => left_) (fun e s => left_ s ∧ is_exception e = false)) as Ht by (by apply (Ht s)). clear s H Hid.
  eapply (triple_try _ _ _ _ _ (fun _ => at_ Away (Some id))).
  - eapply (triple_bind _ _ _ _ (fun _ => at_ Away (Some id))).
    + by apply doctor_asks.
    + intros a. apply triple_ret. by intros s [H _].
  - intros e. destruct (is_exception e) eqn:He.
    + apply triple_modify. intros s [H _]. exact H.
    + apply triple_raise. intros s [H _]. by split.
Qed.
End run.

(** C24: the doctor leaves no session behind and looks only.  Whatever the
    broker and the server answer, a remote check opens a session of its own
    profile, sends it nothing but the fixed probes and the status request of sudo,
    and ends only after it asked for every session it was given to be closed; and it
    ends with its results, unless the user interrupts it. *)
Theorem doctor_leaves_no_session name (s : IO) :
  match remote str_of name s with
  | (Hang, s') => obeyed (allowed name) after (trace s) (script s) Away s'
  | (Ret _, s') => at_phase (allowed name) after (trace s) (script s) Away Away s'
  | (Raise e, s') => at_phase (allowed name) after (trace s) (script s) Away Away s' ∧ is_exception e = false
  end.
Proof.
  set (tr := trace s). set (scr := script s).
  pose (gone := left_ name tr scr). pose (interrupted := fun (e : exn) (s : IO) => gone s ∧ is_exception e = false).
  enough (triple (obeyed (allowed name) after tr scr Away) (at_phase (allowed name) after tr scr Away Away) (remote str_of name)
            (fun _ => gone) interrupted) as H by (apply (H s), at_phase_start).
  unfold remote. eapply (triple_bind _ _ _ _ (fun _ => at_ name tr scr Away None)).
  { apply triple_modify. intros s' H. by split. }
  intros []. eapply (triple_bind _ _ _ _ (fun _ => at_ name tr scr Away None)).
  { eapply triple_try; [apply stays_preflight|]. intros e.
    assert (∀ e', is_exception e' = false → triple (obeyed (allowed name) after tr scr Away) (at_ name tr scr Away None)
      (raise e' : M IO (list CheckResult + ServerProfile)) (fun _ => at_ name tr scr Away None) interrupted) as Hraise
      by (intros e' He; apply triple_raise; intros s' [H _]; by split).
    destruct e as [[] m|c code m st0]; try (by apply triple_ret); try (by apply Hraise). }
  intros [l|p]; [apply triple_ret; by intros s' [H _]|].
  eapply (triple_bind _ _ _ _ (fun _ => gone)); [|intros []; apply triple_state; intros x; apply triple_ret; by intros s' [H _]].
  assert (∀ e, triple (obeyed (allowed name) after tr scr Away) (holding name tr scr)
    (append [failed (u "remote_preflight_failed") (u "Remote preflight failed: " ++ error_message e)])
    (fun _ => holding name tr scr) (fun e s => holding name tr scr s ∧ is_exception e = false)) as Happend.
  { intros e. apply triple_modify. intros s' [[H Hid]|[id [H Hid]]]; [left|right; exists id]; by split. }
  eapply (triple_cleanup _ _ _ _ (fun _ => holding name tr scr) _ (fun e s => holding name tr scr s ∧ is_exception e = false)).
  - eapply triple_try; [apply triple_examine|]. intros e. destruct (is_exception e) eqn:He; [apply Happend|by apply triple_raise].
  - intros []. apply triple_close.
  - intros e. intros s' [H He]. pose proof (triple_close name tr scr s' H) as Hc.
    destruct (close_session s') as [[[]|e'|] s'']; [by split|done|done].
Qed.
End harmless.

(** A report succeeds when nothing in it failed. *)
Lemma succeeded_spec l : succeeded l = true ↔ Forall (fun c => level c ≠ FAIL) l.
Proof.
  assert (at_level FAIL l = false ↔ Forall (fun c => level c ≠ FAIL) l) as <-.
  { unfold at_level. induction l as [|c l IH]; cbn; [by split|]. rewrite orb_false_iff, bool_decide_eq_false, IH, Forall_cons. done. }
  unfold succeeded, report_status. destruct (at_level FAIL l), (at_level WARNING l); by split.
Qed.

(** A run: the open session is examined, the broker breaks, the session is closed. *)
Definition doctor_answers : list (res doctor_reply) :=
  [Ok (DConfig sample_config); Ok (DText (Some (u "ssh.exe"))); Ok (DTarget (Target (u "h") 22 (u "n")));
   Ok (DDict [(u "session_id", VStr (u "sess-0"))]); Ok (DDict [(u "exit_code", VInt 0); (u "output", VStr (u "5.2"))]);
   Err (controlled BrokerUnavailable (u "gone")); Ok DDone].
Example doctor_run :
  let '(o, s) := remote (U := ascii_db) (fun _ => []) (u "web") (Io (Doctor [] None) doctor_answers []) in
  match o with Ret l => map check_code l = [u "profile_resolved"; u "connection"; u "effective_user"; u "remote_preflight_failed"] | _ => False end
  ∧ drop 3 (trace s) = [DOpen (u "web"); DExec (u "sess-0") bash_probe; DExec (u "sess-0") commands_probe; DClose (u "sess-0")].
Proof. vm_compute. split; reflexivity. Qed.
