(* ===== verification/Installer.v ===== *)
(** * Installer: the command line of the installer (installer/cli.py, installer/setup.py, installer/paths.py)

    The commands prepare the local state, check it, change the Codex
    configuration and the broker task, and remove what they set up.  The parsed
    arguments are an argument; the system answers from a script. *)
From S2P Require Import Prelude Errors Text TextFacts Prog ConfigModel Ssh Value CodexConfig BrokerTask Doctor.

Record InstallPaths := Paths { app_dir : str; config_file : str; runtime_dir : str; audit_dir : str; codex_config_file : str }.
(** The parsed command line *)
Inductive arguments : Type :=
  | ASetup (broker_task apply yes : bool)
  | ACheck (client : str) (json : bool)
  | ADoctor (profile : option str) (client : str) (json : bool)
  | ACodexConfig (apply yes remove : bool) (wheel python : option str)
  | AUpdate
  | AUninstall (apply yes remove_data : bool).

Inductive install_call : Type :=
  | IPrepare                                            (* LocalStateBootstrapper(...).ensure() *)
  | IPrint (line : str)
  | IPrintReport (d : dict value)                       (* print(json.dumps(...)) *)
  | IComplain (line : str)                              (* print(..., file=sys.stderr) *)
  | IInput (prompt : str)
  | ICheckLocal (client : str)                          (* LocalChecker(paths).run(include_broker=False) *)
  | IDoctor (profile : option str) (client : str)       (* Doctor(paths).run *)
  | IPlan (remove : bool) (wheel python : option str)   (* plan_codex_config_change *)
  | IApply (c : CodexConfigChange)                      (* apply_codex_config_change *)
  | IScheduler                                          (* BrokerTaskController.connect() *)
  | IInspect
  | IInspectCompatible (s : BrokerTaskSpec)
  | IRegister (s : BrokerTaskSpec)
  | IRemoveTask
  | IClient | IShutdown | ICloseClient                  (* BrokerClient, request("broker.shutdown"), __exit__ *)
  | IExists (p : str) | IIsSymlink (p : str)
  | IStat (p : str)                                     (* path.stat(follow_symlinks=False) *)
  | IRemoveTree (p : str).                              (* shutil.rmtree *)
Inductive install_reply : Type :=
  | IDone | IText (s : str) | IFlag (b : bool) | IMigrated (b : bool) | IChecks (l : list CheckResult)
  | IChange (c : CodexConfigChange) | IStatus (s : BrokerTaskStatus)
  | IDetails (reparse_point directory : bool).

Section installer.
Context {U : UnicodeDB}.
(** The environment, [Path(p)], the [/] of paths and [os.path.abspath], and
    [name], [parent] and [anchor] of a path *)
Variable environ : dict str.
Variables (as_path abspath path_name parent anchor : str → str) (join_path : str → str → str).
Variables (resolve : str → str) (which_uvx : option str) (PACKAGE_VERSION task_name : str).
Abbreviation P := (M (io unit install_call install_reply)).
Definition perform (c : install_call) : P unit := ask c;; mret tt.
Definition say (line : str) : P unit := perform (IPrint line).
Definition ask_flag (c : install_call) : P bool := r ← ask c; match r with IFlag b => mret b | _ => hang end.
Definition ask_status (c : install_call) : P BrokerTaskStatus := r ← ask c; match r with IStatus s => mret s | _ => hang end.
Definition ask_checks (c : install_call) : P (list CheckResult) := r ← ask c; match r with IChecks l => mret l | _ => hang end.

Definition nonempty (o : option str) : option str := match o with Some (c :: s) => Some (c :: s) | _ => None end.
Definition install_paths : res InstallPaths :=
  let get k := nonempty (dget environ k) in
  match get (u "LOCALAPPDATA"), (match get (u "USERPROFILE") with Some p => Some p | None => get (u "HOME") end) with
  | Some local_app_data, Some user_profile =>
      let app := join_path (as_path local_app_data) (u "codex-serverops-mcp") in
      let codex_home := as_path (default (join_path (as_path user_profile) (u ".codex")) (dget environ (u "CODEX_HOME"))) in
      Ok (Paths app (join_path app (u "config.toml")) (join_path app (u "runtime")) (join_path app (u "audit"))
            (join_path codex_home (u "config.toml")))
  | _, _ => Err (installer_error (u "LOCALAPPDATA and USERPROFILE are required on Windows"))
  end.
Definition prepare_local_install : P bool := r ← ask IPrepare; match r with IMigrated b => mret b | _ => hang end.

Definition validate_confirmation_flags (apply yes : bool) : res unit :=
  raise_if (yes && negb apply) (installer_error (u "--yes is valid only together with --apply")).
Definition affirmative (answer : str) : bool := bool_decide (casefold (strip answer) ∈ [u "y"; u "yes"]).
Definition confirm_or_raise (yes : bool) : P unit :=
  if yes then mret tt
  else
    r ← ask (IInput (u "Apply this user-wide change? [y/N] "));
    answer ← (match r with IText t => mret t | _ => hang end);
    lift (raise_if (negb (affirmative answer)) (installer_error (u "the user-wide change was not applied"))).
Definition print_preview (preview : str) : P unit :=
  say (u "Proposed user-wide Codex configuration change:");; say preview.
Definition shutdown_broker : P unit :=
  try_except (perform IClient;; try_finally (perform IShutdown) (perform ICloseClient))
    (fun e => if isinstance e BrokerUnavailable then mret tt else raise e).
Definition task_action (s : BrokerTaskSpec) : str := dq ++ executable s ++ dq ++ u " " ++ argument_line s.
Definition task_spec : res BrokerTaskSpec := production_broker_task_spec resolve PACKAGE_VERSION None which_uvx.
Definition configure_broker_task (apply yes : bool) : P unit :=
  spec ← lift task_spec;
  perform IScheduler;;
  current ← ask_status IInspect;
  say (u "Proposed current-user broker task: " ++ task_name);;
  say (u "Action: " ++ task_action spec);;
  say (u "Logon: current interactive user; password stored: no; admin rights: no");;
  lift (raise_if (exists_ current && negb (managed current))
          (installer_error (u "scheduled task name is occupied by an unmanaged task: " ++ status_name current)));;
  if negb apply then say (u "Preview only; Windows Task Scheduler was not changed.")
  else
    confirm_or_raise yes;;
    installed ← ask_status (IRegister spec);
    lift (raise_if (negb (exists_ installed) || negb (managed installed))
            (installer_error (u "broker task registration could not be verified")));;
    say (u "Managed broker task installed: " ++ status_name installed).

Definition label (l : CheckLevel) : str := match l with PASS => u "PASS" | WARNING => u "WARN" | FAIL => u "FAIL" end.
Fixpoint print_checks (l : list CheckResult) : P unit :=
  match l with
  | [] => mret tt
  | c :: l => say (u "[" ++ label (level c) ++ u "] " ++ check_code c ++ u ": " ++ message c);; print_checks l
  end.
Definition report (l : list CheckResult) (as_json : bool) : P Z :=
  (if as_json then perform (IPrintReport (report_dict l))
   else print_checks l;; say (u "Doctor status: " ++ report_status l));;
  mret (if succeeded l then 0 else 1).

Definition remove_local_data (paths : InstallPaths) : P unit :=
  let target := abspath (app_dir paths) in
  let root := as_path (anchor target) in
  lift (raise_if (negb (str_eqb (path_name target) (u "codex-serverops-mcp")) || str_eqb target root || str_eqb (parent target) root)
          (installer_error (u "refusing to remove an unexpected application data path")));;
  present ← ask_flag (IExists target);
  link ← (if present : bool then mret true else ask_flag (IIsSymlink target));
  if negb link then mret tt
  else
    r ← try_except (ask (IStat target))
          (fun e => raise (if is_os_error e then installer_error (u "the local application data path could not be inspected") else e));
    match r with
    | IDetails reparse directory =>
        link ← ask_flag (IIsSymlink target);
        lift (raise_if (link || reparse) (installer_error (u "refusing to remove a reparse-point application data path")));;
        lift (raise_if (negb directory) (installer_error (u "the local application data path is not a directory")));;
        perform (IRemoveTree target)
    | _ => hang
    end.

Definition plan (remove : bool) (wheel python : option str) : P CodexConfigChange :=
  r ← ask (IPlan remove wheel python); match r with IChange c => mret c | _ => hang end.
Definition run_setup (paths : InstallPaths) (broker_task apply yes : bool) : P Z :=
  lift (raise_if ((apply || yes) && negb broker_task)
          (installer_error (u "--apply and --yes require --broker-task for setup")));;
  lift (validate_confirmation_flags apply yes);;
  migrated ← prepare_local_install;
  say (u "Local ServerOps state prepared at " ++ app_dir paths);;
  (if migrated : bool then say (u "Profile configuration was migrated atomically.") else mret tt);;
  (if broker_task then configure_broker_task apply yes else mret tt);;
  say (u "AI client configuration was not changed.");;
  say (u "For direct Codex setup, run: serverops-install codex-config");;
  mret 0.
Definition run_codex_config (apply yes remove : bool) (wheel python : option str) : P Z :=
  lift (validate_confirmation_flags apply yes);;
  change ← plan remove wheel python;
  print_preview (preview change);;
  if negb apply then say (u "Preview only; Codex configuration was not changed.");; mret 0
  else
    confirm_or_raise yes;;
    perform (IApply change);;
    say (u "Codex configuration updated atomically. Restart Codex to load the change.");;
    mret 0.
Definition run_update : P Z :=
  migrated ← prepare_local_install;
  perform IScheduler;;
  spec ← lift task_spec;
  status ← ask_status (IInspectCompatible spec);
  say (u "Local state is compatible with package " ++ PACKAGE_VERSION ++ u ".");;
  (if migrated : bool then say (u "Profile configuration was migrated atomically.") else mret tt);;
  (if exists_ status then say (u "Managed broker task is pinned to this package version.") else mret tt);;
  say (u "AI client configuration was not changed.");;
  l ← ask_checks (ICheckLocal (u "core"));
  report l false.
Definition run_uninstall (paths : InstallPaths) (apply yes remove_data : bool) : P Z :=
  lift (validate_confirmation_flags apply yes);;
  change ← plan true None None;
  print_preview (preview change);;
  perform IScheduler;;
  status ← ask_status IInspect;
  (if exists_ status && managed status then say (u "Also remove managed current-user task: " ++ status_name status)
   else lift (raise_if (exists_ status) (installer_error (u "scheduled task is not managed by ServerOps: " ++ status_name status))));;
  (if remove_data then say (u "Also remove local profiles, runtime and audit data at " ++ app_dir paths) else mret tt);;
  if negb apply then say (u "Preview only; nothing was removed.");; mret 0
  else
    confirm_or_raise yes;;
    shutdown_broker;;
    ask_flag IRemoveTask;;
    perform (IApply change);;
    (if remove_data then remove_local_data paths else mret tt);;
    say (u "Managed Codex configuration removed. Restart Codex to finish uninstalling.");;
    mret 0.
Definition run_command (args : arguments) : P Z :=
  paths ← lift install_paths;
  match args with
  | ASetup broker_task apply yes => run_setup paths broker_task apply yes
  | ACheck client json => prepare_local_install;; l ← ask_checks (ICheckLocal client); report l json
  | ADoctor profile client json => prepare_local_install;; l ← ask_checks (IDoctor profile client); report l json
  | ACodexConfig apply yes remove wheel python => run_codex_config apply yes remove wheel python
  | AUpdate => run_update
  | AUninstall apply yes remove_data => run_uninstall paths apply yes remove_data
  end.
Definition reported (e : exn) : bool :=
  isinstance e BrokerTaskError || isinstance e InstallerError || is_os_error e || is_value_error e.
Definition run (args : arguments) : P Z :=
  try_except (run_command args)
    (fun e => if reported e then perform (IComplain (u "serverops-install: " ++ error_message e));; mret 1 else raise e).
End installer.

(** ** Consent
    The calls that change something: the local data, which the commands that
    need it prepare without asking, creating the state and migrating the
    profiles' configuration; and what is changed with consent only, the
    configuration of Codex, the scheduled task, the broker that runs, and the
    local data when it is removed. *)
Definition applies (args : arguments) : bool :=
  match args with ASetup _ a _ | ACodexConfig a _ _ _ _ | AUninstall a _ _ => a | _ => false end.
Definition says_yes (args : arguments) : bool :=
  match args with ASetup _ _ y | ACodexConfig _ y _ _ _ | AUninstall _ y _ => y | _ => false end.
Section consent.
Context {U : UnicodeDB}.
Variable environ : dict str.
Variables (as_path abspath path_name parent anchor : str → str) (join_path : str → str → str).
Variables (resolve : str → str) (which_uvx : option str) (PACKAGE_VERSION task_name : str).
Variable args : arguments.
Abbreviation IO := (io unit install_call install_reply).
(** What a changing call belongs to *)
Definition belongs (c : install_call) : Prop :=
  match c, args with
  | IPrepare, (ASetup _ _ _ | ACheck _ _ | ADoctor _ _ _ | AUpdate) => True
  | IApply _, (ACodexConfig _ _ _ _ _ | AUninstall _ _ _) => True
  | IRegister _, ASetup true _ _ => True
  | (IRemoveTask | IShutdown), AUninstall _ _ _ => True
  | IRemoveTree p, AUninstall _ _ true => path_name p = u "codex-serverops-mcp" ∧ p ≠ as_path (anchor p) ∧ parent p ≠ as_path (anchor p)
  | _, _ => False
  end.
Definition changes (c : install_call) : bool :=
  match c with IPrepare | IApply _ | IRegister _ | IRemoveTask | IShutdown | IRemoveTree _ => true | _ => false end.
(** Whether the user has agreed in this run, and the local data was prepared *)
Record progress := Progress { agreed : bool; prepared : bool }.
Definition allowed (ph : progress) (c : install_call) : Prop :=
  changes c = true → belongs c ∧
    match c with
    | IPrepare => prepared ph = false
    | _ => applies args = true ∧ (says_yes args = true ∨ agreed ph = true)
    end.
Definition after (ph : progress) (c : install_call) (a : res install_reply) : progress :=
  match c, a with
  | IInput _, Ok (IText t) => Progress (agreed ph || affirmative t) (prepared ph)
  | IPrepare, _ => Progress (agreed ph) true
  | _, _ => ph
  end.
Definition at_first : progress := Progress false false.

Section run.
Context (tr : list install_call) (scr : list (res install_reply)).
Abbreviation stopped := (obeyed allowed after tr scr at_first).
(** [ok] is whether there is consent. *)
Definition consent (ph : progress) : Prop := applies args = true ∧ (says_yes args = true ∨ agreed ph = true).
Definition at_ (ok : bool) (s : IO) : Prop :=
  ∃ ph, at_phase allowed after tr scr at_first ph s ∧ (ok = true → consent ph).
Lemma consent_stopped ok s : at_ ok s → stopped s.
Proof. intros (ph & H & _). by eapply at_phase_obeyed. Qed.
Lemma consent_weaken ok s : at_ ok s → at_ false s.
Proof. intros (ph & H & _). by exists ph. Qed.
Definition consents (ok : bool) {A} (m : M IO A) : Prop := triple stopped (at_ ok) m (fun _ => at_ ok) (fun _ => at_ ok).
Lemma consent_ret ok {A} (a : A) : consents ok (mret a).
Proof. by apply triple_ret. Qed.
Lemma consent_hang ok {A} : consents ok (hang : M IO A).
Proof. intros s H. by eapply consent_stopped. Qed.
Lemma consent_raise ok {A} e : consents ok (raise e : M IO A).
Proof. by apply triple_raise. Qed.
Lemma consent_bind ok {A B} (m : M IO A) (f : A → M IO B) : consents ok m → (∀ a, consents ok (f a)) → consents ok (m ≫= f).
Proof. intros Hm Hf. eapply triple_bind; [exact Hm|exact Hf]. Qed.
Lemma consent_lift ok {A} (r : res A) : consents ok (lift r).
Proof. by apply triple_lift. Qed.
Lemma consent_lift_at ok {A B} (r : res A) (f : A → M IO B) : (∀ a, r = Ok a → consents ok (f a)) → consents ok (lift r ≫= f).
Proof. intros Hf. by apply triple_lift_at. Qed.
Lemma consent_try ok {A} (m : M IO A) h : consents ok m → (∀ e, consents ok (h e)) → consents ok (try_except m h).
Proof. intros Hm Hh. eapply triple_try; [exact Hm|exact Hh]. Qed.
Lemma consent_finally ok {A} (m : M IO A) f : consents ok m → consents ok f → consents ok (try_finally m f).
Proof. intros Hm Hf. eapply triple_finally; [exact Hm|intros a; exact Hf|intros e; exact Hf]. Qed.
Lemma after_keeps ph c a : consent ph → consent (after ph c a).
Proof.
  intros [Ha [Hy|Hy]]; (split; [done|]); [by left|right]. destruct c, a as [[]|]; cbn; try done. by rewrite Hy.
Qed.
Lemma triple_consent ok ok' c (Q : install_reply → IO → Prop) (R : exn → IO → Prop) :
  c ≠ IPrepare → (ok' = true → ok = true) → (changes c = true → ok = true ∧ belongs c) →
  (∀ a s, (∃ ph, at_phase allowed after tr scr at_first (after ph c (Ok a)) s ∧ (ok = true → consent ph)) → Q a s) →
  (∀ e s, at_ ok' s → R e s) →
  triple stopped (at_ ok) (ask c) Q R.
Proof.
  intros Hne Hok Hc HQ HR s (ph & Hs & Hagreed).
  pose proof (triple_monitored (State := unit) allowed after tr scr at_first ph c (fun a => at_phase allowed after tr scr at_first (after ph c (Ok a)))
    (fun e => at_phase allowed after tr scr at_first (after ph c (Err e)))) as H.
  assert (allowed ph c) as Hallowed.
  { intros Hch. destruct (Hc Hch) as [Hx Hb]. split; [done|]. specialize (Hagreed Hx). by destruct c. }
  specialize (H Hallowed ltac:(done) ltac:(done) s Hs).
  destruct (ask c s) as [[a|e|] s']; [|apply HR|exact H].
  - apply HQ. by exists ph.
  - exists (after ph c (Err e)). split; [exact H|]. intros Hx. by apply after_keeps, Hagreed, Hok.
Qed.
Lemma consent_ask ok c : c ≠ IPrepare → (changes c = true → ok = true ∧ belongs c) → consents ok (ask c).
Proof.
  intros Hne Hc. eapply triple_consent; [done|intros H; exact H|done| |done]. intros a s (ph & H & Ha). exists (after ph c (Ok a)).
  split; [done|]. intros Hx. by apply after_keeps, Ha.
Qed.
(** The local data was not prepared yet. *)
Definition unprepared (s : IO) : Prop := ∃ ph, at_phase allowed after tr scr at_first ph s ∧ prepared ph = false.
Definition begins {A} (m : M IO A) : Prop := triple stopped unprepared m (fun _ => at_ false) (fun _ => at_ false).
Lemma unprepared_at s : unprepared s → at_ false s.
Proof. intros (ph & H & _). by exists ph. Qed.
Lemma begins_consents {A} (m : M IO A) : consents false m → begins m.
Proof. intros H. eapply triple_conseq; [exact H|apply unprepared_at|done|done|done]. Qed.
Lemma begins_lift {A B} (r : res A) (f : A → M IO B) : (∀ a, begins (f a)) → begins (lift r ≫= f).
Proof. intros Hf. apply triple_lift_at; [intros a _; apply Hf|intros e s; apply unprepared_at]. Qed.
Lemma begins_prepare {B} (f : bool → M IO B) :
  belongs IPrepare → (∀ b, consents false (f b)) → begins (prepare_local_install ≫= f).
Proof.
  intros Hb Hf. eapply (triple_bind _ _ _ _ (fun _ => at_ false)); [|exact Hf].
  eapply (triple_bind _ _ _ _ (fun _ => at_ false)); [|intros []; try apply consent_hang; apply consent_ret].
  intros s (ph & Hs & Hp).
  pose proof (triple_monitored (State := unit) allowed after tr scr at_first ph IPrepare (fun a => at_phase allowed after tr scr at_first (after ph IPrepare (Ok a)))
    (fun e => at_phase allowed after tr scr at_first (after ph IPrepare (Err e)))) as H.
  specialize (H ltac:(by intros _) ltac:(done) ltac:(done) s Hs).
  destruct (ask IPrepare s) as [[a|e|] s']; [by eexists|by eexists|exact H].
Qed.
Ltac stay :=
  repeat match goal with
  | |- consents _ (ask _) => apply consent_ask; [done|first [done | cbn; intros _; by split]]
  | |- consents _ (perform _) => unfold perform
  | |- consents _ (say _) => unfold say
  | |- consents _ (ask_flag _) => unfold ask_flag
  | |- consents _ (ask_status _) => unfold ask_status
  | |- consents _ (ask_checks _) => unfold ask_checks
  | |- consents _ (_ ≫= _) => apply consent_bind; [|intros ?]
  | |- consents _ (try_except _ _) => apply consent_try; [|intros ?]
  | |- consents _ (try_finally _ _) => apply consent_finally
  | |- consents _ (mret _) => apply consent_ret
  | |- consents _ hang => apply consent_hang
  | |- consents _ (raise _) => apply consent_raise
  | |- consents _ (lift _) => apply consent_lift
  | |- consents _ (match ?x with _ => _ end) => destruct x
  | |- consents _ (if ?x then _ else _) => destruct x
  end.
(** After a confirmation there is consent. *)
Lemma triple_confirm yes {B} (k : M IO B) :
  applies args = true → yes = says_yes args →
  consents true k → triple stopped (at_ false) (confirm_or_raise yes;; k) (fun _ => at_ false) (fun _ => at_ false).
Proof.
  intros Ha -> Hk. eapply (triple_bind _ _ _ _ (fun _ => at_ true)).
  2: { intros _. eapply triple_conseq; [exact Hk|done|intros ? s; apply consent_weaken|intros ? s; apply consent_weaken|done]. }
  unfold confirm_or_raise. destruct (says_yes args) eqn:Ey.
  { apply triple_ret. intros s (ph & H & _). exists ph. split; [done|]. by split; [|left]. }
  eapply (triple_bind _ _ _ _ (fun a s => match a with IText t => ∃ ph, at_phase allowed after tr scr at_first (Progress (agreed ph || affirmative t) (prepared ph)) s | _ => stopped s end)).
  { eapply (triple_consent false false); [done|done|done| |done].
    intros a s (ph & H & _). destruct a as [|t| | | | | |]; try (by eapply at_phase_obeyed). by exists ph. }
  intros [|t| | | | | |]; try (intros ? H; exact H).
  intros s (ph & H). unfold mbind, prog_mbind, prog_bind, mret, prog_ret, lift, raise_if. cbn.
  destruct (affirmative t) eqn:Et; cbn; [|by eexists]. eexists. split; [exact H|]. intros _. split; [done|right]. cbn. by rewrite orb_true_r.
Qed.
Lemma consent_any {A} (m : M IO A) : consents false m → triple stopped (at_ false) m (fun _ => at_ false) (fun _ => at_ false).
Proof. done. Qed.
Lemma consent_report l json : consents false (report l json).
Proof.
  unfold report. apply consent_bind; [|intros ?; stay]. destruct json; [stay|]. apply consent_bind; [|intros ?; stay].
  induction l as [|c l IH]; cbn [print_checks]; [stay|]. apply consent_bind; [stay|intros ?; exact IH].
Qed.
Lemma consent_remove paths : (∃ a y, args = AUninstall a y true) → consents true (remove_local_data as_path abspath path_name parent anchor paths).
Proof.
  intros (a & y & Ha). unfold remove_local_data. apply consent_lift_at. intros [] Hp. apply raise_if_Ok in Hp.
  apply orb_false_iff in Hp as [Hp Hparent]. apply orb_false_iff in Hp as [Hname Hroot]. apply negb_false_iff in Hname.
  unfold str_eqb in *. apply bool_decide_eq_true in Hname. apply bool_decide_eq_false in Hroot, Hparent.
  stay. apply consent_ask; [done|]. intros _. split; [done|]. unfold belongs. by rewrite Ha.
Qed.
Lemma consent_configure a y : args = ASetup true a y → consents false (configure_broker_task resolve which_uvx PACKAGE_VERSION task_name a y).
Proof.
  intros Ha. unfold configure_broker_task. do 7 (apply consent_bind; [stay|intros ?]). destruct a; cbn [negb]; [|stay].
  apply triple_confirm; [by rewrite Ha|by rewrite Ha|]. apply consent_bind; [|intros ?; stay].
  unfold ask_status. apply consent_bind; [|intros ?; stay]. apply consent_ask; [done|]. intros _. split; [done|]. unfold belongs. by rewrite Ha.
Qed.
Lemma consent_shutdown a y r : args = AUninstall a y r → consents true shutdown_broker.
Proof.
  intros Ha. unfold shutdown_broker. apply consent_try; [|intros ?; stay]. apply consent_bind; [stay|]. intros [].
  apply consent_finally; [|stay]. unfold perform. apply consent_bind; [|intros ?; stay]. apply consent_ask; [done|]. intros _. split; [done|].
  unfold belongs. by rewrite Ha.
Qed.
Lemma consent_uninstall paths a y r : args = AUninstall a y r → consents false (run_uninstall as_path abspath path_name parent anchor paths a y r).
Proof.
  intros Ha. unfold run_uninstall, plan, print_preview. do 7 (apply consent_bind; [stay|intros ?]). destruct a; cbn [negb]; [|stay].
  assert (∀ c, c ≠ IPrepare → belongs c → consents true (ask c)) as Hask by (intros c Hne Hb; apply consent_ask; [done|by split]).
  apply triple_confirm; [by rewrite Ha|by rewrite Ha|]. apply consent_bind; [by eapply consent_shutdown|intros ?].
  apply consent_bind; [unfold ask_flag; apply consent_bind; [apply Hask; [done|unfold belongs; by rewrite Ha]|intros ?; stay]|intros ?].
  apply consent_bind; [unfold perform; apply consent_bind; [apply Hask; [done|unfold belongs; by rewrite Ha]|intros ?; stay]|intros ?].
  apply consent_bind; [|intros ?; stay]. destruct r; [|stay]. apply consent_remove. by exists true, y.
Qed.
Lemma consent_codex a y r w p : args = ACodexConfig a y r w p → consents false (run_codex_config a y r w p).
Proof.
  intros Ha. unfold run_codex_config, plan, print_preview. do 3 (apply consent_bind; [stay|intros ?]). destruct a; cbn [negb]; [|stay].
  apply triple_confirm; [by rewrite Ha|by rewrite Ha|]. apply consent_bind; [|intros ?; stay].
  unfold perform. apply consent_bind; [|intros ?; stay]. apply consent_ask; [done|]. intros _. split; [done|]. unfold belongs. by rewrite Ha.
Qed.
Lemma begins_run :
  begins (run environ as_path abspath path_name parent anchor join_path resolve which_uvx PACKAGE_VERSION task_name args).
Proof.
  unfold run. eapply triple_try with (R := fun _ => at_ false); [|intros e; change (consents false (if reported e then
    perform (IComplain (u "serverops-install: " ++ error_message e));; mret 1 else raise e)); stay].
  unfold run_command. apply begins_lift. intros paths.
  destruct args as [broker a y|client json|profile client json|a y r w p| |a y r] eqn:Ha.
  - unfold run_setup. do 2 (apply begins_lift; intros ?). apply begins_prepare; [unfold belongs; by rewrite Ha|]. intros ?.
    do 2 (apply consent_bind; [stay|intros ?]). apply consent_bind; [|intros ?; stay]. destruct broker; [by apply consent_configure|stay].
  - apply begins_prepare; [unfold belongs; by rewrite Ha|]. intros ?. apply consent_bind; [stay|intros ?]. apply consent_report.
  - apply begins_prepare; [unfold belongs; by rewrite Ha|]. intros ?. apply consent_bind; [stay|intros ?]. apply consent_report.
  - by apply begins_consents, consent_codex.
  - unfold run_update. apply begins_prepare; [unfold belongs; by rewrite Ha|]. intros ?. do 8 (apply consent_bind; [stay|intros ?]). apply consent_report.
  - by apply begins_consents, consent_uninstall.
Qed.
End run.

End consent.

(** The user agrees to a change of the Codex configuration, or does not. *)
Definition sample_change : CodexConfigChange := Change false [] (u "x") (u "+x").
Definition sample_environment : dict str := [(u "LOCALAPPDATA", u "L"); (u "USERPROFILE", u "H")].
Definition sample_codex_run (answer : str) : outcome exn Z * io unit install_call install_reply :=
  run (U := ascii_db) sample_environment id id id id id (fun a b => a ++ u "\" ++ b) id None (u "0.1.1") (u "task")
    (ACodexConfig true false false None None)
    (Io tt ([Ok (IChange sample_change); Ok IDone; Ok IDone; Ok (IText answer)] ++ repeat (Ok IDone) 3) []).
Example agreed_run : (sample_codex_run (u " Yes ")).1 = Ret 0 ∧ In (IApply sample_change) (trace (sample_codex_run (u " Yes ")).2).
Proof. vm_compute. split; [reflexivity|]. do 4 right. by left. Qed.
Example refused_run : (sample_codex_run (u "no")).1 = Ret 1 ∧ List.filter changes (trace (sample_codex_run (u "no")).2) = [].
Proof. vm_compute. by split. Qed.
(** A check prepares the local data first, without asking. *)
Example checking_prepares :
  List.filter changes (trace (run (U := ascii_db) sample_environment id id id id id (fun a b => a ++ u "\" ++ b) id None (u "0.1.1") (u "task")
    (ACheck (u "core") false) (Io tt [Ok (IMigrated true); Ok (IChecks [])] [])).2) = [IPrepare].
Proof. by vm_compute. Qed.
