(* ===== verification/NamedPipe.v ===== *)
(** * NamedPipe: the listeners of the processes (ipc/security.py, ipc/named_pipe.py)

    A pipe or a path belongs to the current user when its owner is that user and
    nobody else is granted access.  A listener hands each pipe instance to the
    connection it accepts; closing it while another thread accepts leaves every
    handle with exactly one owner. *)
From stdpp Require Import list_tactics.
From S2P Require Import Prelude Errors Text TextFacts Regex Sha256 Prog ConfigModel.

(** ** Security descriptors
    Access masks and inheritance flags are left out: the program neither sets
    them by its data nor looks at them. *)
Record Ace := MkAce { ace_type : Z; ace_sid : str }.
Record Descriptor := MkDescriptor { owner : option str; dacl : option (list Ace) }.
Record PipeSecurityReport := Report { owner_sid : str; allowed_sids : list str; denied_sids : list str }.
Definition ACCESS_ALLOWED_ACE_TYPE : Z := 0.
Definition ACCESS_DENIED_ACE_TYPE : Z := 1.
Definition pipe_security_error (m : str) : exn := controlled PipeSecurityError m.
Definition sids_of (type : Z) (aces : list Ace) : list str := map ace_sid (List.filter (fun a => ace_type a =? type) aces).
Definition security_report (d : Descriptor) : res PipeSecurityReport :=
  match owner d, dacl d with
  | Some o, Some aces => Ok (Report o (sids_of ACCESS_ALLOWED_ACE_TYPE aces) (sids_of ACCESS_DENIED_ACE_TYPE aces))
  | _, _ => Err (pipe_security_error (u "named pipe has no explicit owner or DACL"))
  end.
Definition PIPE_ROLE : re :=
  RSeqs [RBol; RChar (cls [(97, 122)]); RUpto 31 (RChar (cls [(97, 122); (48, 57); (45, 45)])); REol].
Definition PIPE_PREFIX : str := u "codex-serverops".
Definition PIPE_NAMESPACE : str := u "\\.\pipe\codex-serverops-".
Definition validate_pipe_name (path : str) : res unit :=
  raise_if (negb (starts_with PIPE_NAMESPACE path) || (240 <? len path))
    (value_error (u "named-pipe path is outside the ServerOps namespace")).

Section user.
Context {U : UnicodeDB}.
(** The SID of the user that runs the process *)
Variable current : str.
Definition current_user_only (r : PipeSecurityReport) : bool :=
  str_eqb (owner_sid r) current && bool_decide (allowed_sids r ≠ []) && forallb (str_eqb current) (allowed_sids r).
Definition require_current_user_only (d : Descriptor) : res PipeSecurityReport :=
  r ← security_report d;
  raise_if (negb (current_user_only r))
    (pipe_security_error (u "named pipe DACL must grant access only to the current Windows user SID"));;
  Ok r.
Definition current_user_descriptor : Descriptor := MkDescriptor (Some current) (Some [MkAce ACCESS_ALLOWED_ACE_TYPE current]).
(** What [secure_path_for_current_user] makes of the descriptor of a path *)
Definition secure_path_for_current_user (existing : Descriptor) : Descriptor :=
  MkDescriptor (match owner existing with
                | Some o => if str_eqb o current then owner existing else owner current_user_descriptor
                | None => owner current_user_descriptor
                end)
    (dacl current_user_descriptor).
Definition pipe_name_for_current_user (role : str) : res str :=
  raise_if (negb (fullmatch PIPE_ROLE role)) (value_error (u "pipe role has an invalid format"));;
  raise_if (negb (forallb is_ascii current)) (Builtin UnicodeEncodeError (u "ordinal not in range(128)"));;
  Ok (u "\\.\pipe\" ++ PIPE_PREFIX ++ u "-" ++ role ++ u "-" ++ take 20 (sha256_hex current)).

Theorem secured_path_is_private d r :
  security_report (secure_path_for_current_user d) = Ok r → current_user_only r = true.
Proof.
  unfold security_report, secure_path_for_current_user. destruct (owner d) as [o|]; cbn.
  - destruct (str_eqb o current) eqn:E; intros [= <-]; unfold current_user_only; cbn;
      [apply bool_decide_eq_true in E as ->|]; unfold str_eqb; by rewrite !bool_decide_eq_true_2.
  - intros [= <-]. unfold current_user_only. cbn. unfold str_eqb. by rewrite !bool_decide_eq_true_2.
Qed.
(** A private object grants access to nobody else. *)
Theorem private_means_nobody_else d r a :
  require_current_user_only d = Ok r → owner d = Some current ∧
  (∀ aces, dacl d = Some aces → In a aces → ace_type a = ACCESS_ALLOWED_ACE_TYPE → ace_sid a = current).
Proof.
  intros H. unfold require_current_user_only, security_report in H. destruct (owner d) as [o|], (dacl d) as [aces|]; try done.
  cbn in H. destruct (current_user_only _) eqn:E; [|done]. clear H. unfold current_user_only in E. cbn in E.
  rewrite !andb_true_iff in E. destruct E as [[Ho _] Hall]. apply bool_decide_eq_true in Ho as ->. split; [done|].
  intros aces' [= <-] Hin Ht. rewrite forallb_forall in Hall. symmetry. apply (bool_decide_eq_true (current = ace_sid a)).
  apply Hall. apply in_map, filter_In. split; [done|]. by apply Z.eqb_eq.
Qed.
End user.

(** The pipe of every role is in the namespace. *)
Theorem pipe_name_is_valid `{U : UnicodeDB} current role path :
  pipe_name_for_current_user current role = Ok path → validate_pipe_name path = Ok tt.
Proof.
  intros H. unfold pipe_name_for_current_user in H. inv_ok H. apply Ok_inj in H as <-.
  apply raise_if_Ok, negb_false_iff in Ha. unfold validate_pipe_name.
  assert (length role <= 32)%nat as Hl.
  { apply fullmatch_lang in Ha as (t & H & Ht). apply lang_seq_inv in H as (s1 & H1 & H). inversion H1; subst.
    apply lang_seq_inv in H as (s2 & H2 & H). apply lang_char_inv in H2 as (c & rest & Hs & _ & ->).
    apply lang_seq_inv in H as (s3 & H3 & H). apply lang_upto_char in H3 as (w & rest' & Hw & Hn & _ & ->).
    cbn [Regex.after start_of] in Hs, Hw. subst role rest. inversion H; subst. cbn [Regex.after] in Ht. subst rest'. rewrite app_nil_r. cbn. lia. }
  change (u "\\.\pipe\" ++ PIPE_PREFIX ++ u "-" ++ role ++ u "-" ++ take 20 (sha256_hex current))
    with (PIPE_NAMESPACE ++ role ++ u "-" ++ take 20 (sha256_hex current)).
  rewrite starts_with_app. cbn [negb orb].
  assert (240 <? len (PIPE_NAMESPACE ++ role ++ u "-" ++ take 20 (sha256_hex current)) = false) as ->; [|done].
  apply Z.ltb_ge. unfold len. rewrite !length_app, length_take. change (length PIPE_NAMESPACE) with 25%nat. change (length (u "-")) with 1%nat. lia.
Qed.

(** ** The listener
    Every block between taking and releasing the lock, and every call outside,
    is one step.  One thread accepts at a time (it holds the accept lock); any
    number close. *)
Inductive accepting : Type :=
  | Idle                                  (* nobody is in [accept] *)
  | Waiting (h : Z)                       (* in ConnectNamedPipe *)
  | Connected (h : Z)                     (* about to check the security of the handle *)
  | Verified (h : Z)                      (* about to take the handle *)
  | Failing (h : Z)                       (* in the except clause, before the lock *)
  | Dropping (h : Z).                     (* the listener's handle, about to be closed *)
Record listener := Listener {
  closed : bool; created_any : bool; pending : option Z; connecting : option Z;
  accept_thread : accepting;
  closing : list Z;                       (* what the closing thread still has to close *)
  connections : list Z;                   (* handles of the connections that were returned *)
  open_handles : list Z;                  (* what the process has open *)
  verified : list Z;                      (* handles whose security was found private *)
  strays : list Z }.                      (* instances whose first check failed *)
(** What happened at the system's side *)
Inductive effect : Type := Created (h : Z) (first : bool) | Closed (h : Z) | Returned (h : Z) | Quiet.

Definition first_instance (l : listener) : bool := negb (created_any l).
(** [CreateNamedPipe] gave [h], and then the security of [h] was checked. *)
Definition created (l : listener) (h : Z) (private : bool) : listener :=
  Listener (closed l) true (pending l) (connecting l) (accept_thread l) (closing l) (connections l) (h :: open_handles l)
    (if private then h :: verified l else verified l) (if private then strays l else h :: strays l).
Definition with_accept (l : listener) (p : option Z) (c : option Z) (t : accepting) : listener :=
  Listener (closed l) (created_any l) p c t (closing l) (connections l) (open_handles l) (verified l) (strays l).
Definition without (h : Z) (hs : list Z) : list Z := filter (fun x => x ≠ h) hs.
Definition close_handle (l : listener) (h : Z) (t : accepting) (rest : list Z) : listener :=
  Listener (closed l) (created_any l) (pending l) (connecting l) t rest (connections l)
    (without h (open_handles l)) (without h (verified l)) (strays l).
Definition options (a b : option Z) : list Z := option_list a ++ option_list b.

Inductive step : listener → effect → listener → Prop :=
  (** [accept], up to its first release of the lock *)
  | accept_closed l : accept_thread l = Idle → closed l = true → step l Quiet l
  | accept_pending l h : accept_thread l = Idle → closed l = false → pending l = Some h →
      step l Quiet (with_accept l None (Some h) (Waiting h))
  | accept_create l h : accept_thread l = Idle → closed l = false → pending l = None → h ∉ open_handles l →
      step l (Created h (first_instance l)) (with_accept (created l h true) None (Some h) (Waiting h))
  | accept_create_refused l h : accept_thread l = Idle → closed l = false → pending l = None → h ∉ open_handles l →
      step l (Created h (first_instance l)) (created l h false)
  | accept_create_failed l : accept_thread l = Idle → closed l = false → pending l = None → step l Quiet l
  (** [ConnectNamedPipe] and [require_current_user_only] *)
  | accept_connected l h : accept_thread l = Waiting h → step l Quiet (with_accept l (pending l) (connecting l) (Connected h))
  | accept_connect_failed l h : accept_thread l = Waiting h → step l Quiet (with_accept l (pending l) (connecting l) (Failing h))
  | accept_verified l h : accept_thread l = Connected h →
      step l Quiet (Listener (closed l) (created_any l) (pending l) (connecting l) (Verified h) (closing l) (connections l)
                      (open_handles l) (if bool_decide (h ∈ open_handles l) then h :: verified l else verified l) (strays l))
  | accept_refused l h : accept_thread l = Connected h → step l Quiet (with_accept l (pending l) (connecting l) (Failing h))
  (** the second block under the lock *)
  | accept_taken l h : accept_thread l = Verified h → closed l = false → connecting l = Some h →
      step l (Returned h) (Listener (closed l) (created_any l) (pending l) None Idle (closing l) (h :: connections l)
                             (open_handles l) (verified l) (strays l))
  | accept_lost l h : accept_thread l = Verified h → closed l = true ∨ connecting l ≠ Some h →
      step l Quiet (with_accept l (pending l) (connecting l) (Failing h))
  (** the except clause *)
  | accept_owned l h : accept_thread l = Failing h → connecting l = Some h → closed l = false →
      step l Quiet (with_accept l (pending l) None (Dropping h))
  | accept_owned_closed l h : accept_thread l = Failing h → connecting l = Some h → closed l = true →
      step l Quiet (with_accept l (pending l) None Idle)
  | accept_not_owned l h : accept_thread l = Failing h → connecting l ≠ Some h → step l Quiet (with_accept l (pending l) (connecting l) Idle)
  | accept_dropped l h : accept_thread l = Dropping h → step l (Closed h) (close_handle l h Idle (closing l))
  (** [close]: the block under the lock, then one handle after the other *)
  | close_again l : closed l = true → step l Quiet l
  | close_first l : closed l = false →
      step l Quiet (Listener true (created_any l) None None (accept_thread l) (options (pending l) (connecting l)) (connections l)
                      (open_handles l) (verified l) (strays l))
  | close_next l h rest : closing l = h :: rest → step l (Closed h) (close_handle l h (accept_thread l) rest)
  (** a connection closes its own handle *)
  | connection_closed l h before after : connections l = before ++ h :: after →
      step l (Closed h) (Listener (closed l) (created_any l) (pending l) (connecting l) (accept_thread l) (closing l) (before ++ after)
                           (without h (open_handles l)) (without h (verified l)) (strays l)).
(** [NamedPipeListener(path)] *)
Definition new_listener (h : Z) : listener := Listener false true (Some h) None Idle [] [] [h] [h] [].
Inductive reachable (h : Z) : listener → Prop :=
  | reach_new : reachable h (new_listener h)
  | reach_step l e l' : reachable h l → step l e l' → reachable h l'.

(** ** Ownership *)
Definition dropping (t : accepting) : list Z := match t with Dropping h => [h] | _ => [] end.
(** Everybody who has to close a handle *)
Definition owners (l : listener) : list Z :=
  options (pending l) (connecting l) ++ dropping (accept_thread l) ++ closing l ++ connections l ++ strays l.
Definition handle_of (t : accepting) : option Z :=
  match t with Waiting h | Connected h | Verified h | Failing h => Some h | _ => None end.
Record listener_wf (l : listener) : Prop := {
  one_owner : owners l ≡ₚ open_handles l;
  open_once : NoDup (open_handles l);
  closed_empty : closed l = true → pending l = None ∧ connecting l = None;
  open_nothing_to_close : closed l = false → closing l = [];
  connecting_current : ∀ h, connecting l = Some h → handle_of (accept_thread l) = Some h;
  verified_pending : ∀ h, pending l = Some h → h ∈ verified l;
  verified_waiting : ∀ h, accept_thread l = Verified h → connecting l = Some h → h ∈ verified l;
  verified_connections : ∀ h, h ∈ connections l → h ∈ verified l;
}.

Lemma without_perm h rest hs : h :: rest ≡ₚ hs → NoDup hs → rest ≡ₚ without h hs.
Proof.
  intros Hp Hn. pose proof Hn as Hn'. rewrite <- Hp in Hn'. apply NoDup_cons in Hn' as [Hh Hr].
  apply NoDup_Permutation; [done| |].
  - by apply NoDup_filter.
  - intros x. unfold without. rewrite list_elem_of_filter, <- Hp, elem_of_cons. split.
    + intros Hx. split; [by intros ->|by right].
    + by intros [? [->|?]].
Qed.
Lemma elem_of_without x h hs : x ∈ hs → x ≠ h → x ∈ without h hs.
Proof. intros Hx Hne. unfold without. by apply list_elem_of_filter. Qed.
Lemma owner_open l h : listener_wf l → h ∈ owners l → h ∈ open_handles l.
Proof. intros H. by rewrite (one_owner _ H). Qed.
Lemma owners_once l : listener_wf l → NoDup (owners l).
Proof. intros H. rewrite (one_owner _ H). apply H. Qed.
(** Two different places own two different handles. *)
Lemma closes_another l h rest x : listener_wf l → owners l ≡ₚ h :: rest → x ∈ rest → x ≠ h.
Proof.
  intros H Hp Hx ->. pose proof (owners_once _ H) as Hn. rewrite Hp in Hn. by apply NoDup_cons in Hn as [? _].
Qed.
Lemma step_open_once l e l' : listener_wf l → step l e l' → NoDup (open_handles l').
Proof.
  intros H Hs. pose proof (open_once _ H). destruct Hs; cbn; try done; try by apply NoDup_filter.
  all: by apply NoDup_cons.
Qed.
Lemma idle_not_connecting l : listener_wf l → handle_of (accept_thread l) = None → connecting l = None.
Proof. intros H Ht. destruct (connecting l) as [h|] eqn:E; [|done]. apply (connecting_current _ H) in E. congruence. Qed.
Lemma step_one_owner l e l' : listener_wf l → step l e l' → owners l' ≡ₚ open_handles l'.
Proof.
  intros H Hs. pose proof (one_owner _ H) as Ho. pose proof (open_once _ H) as Hn. pose proof (idle_not_connecting _ H) as Hidle.
  assert (closed l = false → closing l = []) as Hnothing by apply H. assert (closed l = true → pending l = None ∧ connecting l = None) as Hclosed by apply H.
  unfold owners in *. destruct Hs; cbn in *; try (destruct Hclosed; [assumption|congruence]);
    repeat match goal with
    | E : ?t = _ |- _ => lazymatch t with accept_thread l => idtac | pending l => idtac | closing l => idtac | connections l => idtac | connecting l => idtac end;
        rewrite E in *; clear E; cbn in *
    | E : ?x = ?y → _, E' : ?x = ?y |- _ => specialize (E E')
    | E : ?x = ?x → _ |- _ => specialize (E eq_refl)
    end; rewrite ?app_nil_r in *; try done;
    try (apply without_perm; [|done]); try (rewrite <- Ho; solve_Permutation).
Qed.
Lemma closed_gone l h l' x : listener_wf l → step l (Closed h) l' → x ∈ owners l' → x ≠ h.
Proof.
  intros H Hs Hx. rewrite (step_one_owner _ _ _ H Hs) in Hx.
  assert (open_handles l' = without h (open_handles l)) as E by (by inversion Hs).
  rewrite E in Hx. unfold without in Hx. by apply list_elem_of_filter in Hx as [? _].
Qed.
Lemma connection_owned x l : x ∈ connections l → x ∈ owners l.
Proof. intros Hx. unfold owners. do 3 (apply elem_of_app; right). apply elem_of_app. by left. Qed.
Lemma step_wf l e l' : listener_wf l → step l e l' → listener_wf l'.
Proof.
  intros H Hs. assert (∀ h x, e = Closed h → x ∈ owners l' → x ≠ h) as Hgone by (intros h x ->; by eapply closed_gone). constructor.
  - by eapply step_one_owner.
  - by eapply step_open_once.
  - pose proof (closed_empty _ H). destruct Hs; cbn in *; try done; intros Hc; try congruence; try (by destruct (closed_empty _ H Hc)).
  - pose proof (open_nothing_to_close _ H) as Hn. destruct Hs; cbn in *; try done. intros Hc. specialize (Hn Hc). congruence.
  - pose proof (connecting_current _ H) as Hn. pose proof (idle_not_connecting _ H) as Hi.
    destruct Hs; cbn in *; try done; try (by intros x [= ->]); intros x Hx;
      repeat match goal with E : accept_thread l = _ |- _ => rewrite E in *; clear E end; cbn in *; try (by apply Hn in Hx); try congruence.
    exfalso. pose proof (Hn x Hx). congruence.
  - pose proof (verified_pending _ H) as Hv. destruct Hs; cbn in *; try done; intros x Hx; try (by apply Hv in Hx).
    + case_bool_decide; [right|]; by apply Hv.
    + apply elem_of_without; [by apply Hv|]. eapply Hgone; [done|]. unfold owners, options. cbn. rewrite Hx. by left.
    + apply elem_of_without; [by apply Hv|]. eapply Hgone; [done|]. unfold owners, options. cbn. rewrite Hx. by left.
    + apply elem_of_without; [by apply Hv|]. eapply Hgone; [done|]. unfold owners, options. cbn. rewrite Hx. by left.
  - pose proof (verified_waiting _ H) as Hv. pose proof (verified_pending _ H) as Hp.
    assert (∀ x, connecting l = Some x → x ∈ open_handles l) as Hopen.
    { intros x Hx. apply owner_open; [done|]. unfold owners, options. rewrite Hx. apply elem_of_app. left. apply elem_of_app. right. by left. }
    destruct Hs; cbn in *; try done; intros x Hx Hc; try congruence.
    + injection Hx as ->. rewrite bool_decide_eq_true_2 by (by apply Hopen). by left.
    + apply elem_of_without; [by apply Hv|]. eapply Hgone; [done|]. unfold owners, options. cbn. rewrite Hc.
      apply elem_of_app. left. apply elem_of_app. right. by left.
    + apply elem_of_without; [by apply Hv|]. eapply Hgone; [done|]. unfold owners, options. cbn. rewrite Hc.
      apply elem_of_app. left. apply elem_of_app. right. by left.
  - pose proof (verified_connections _ H) as Hv. pose proof (verified_waiting _ H) as Hw.
    destruct Hs; cbn in *; try done; intros x Hx; try (by right; apply Hv).
    + case_bool_decide; [right|]; by apply Hv.
    + apply elem_of_cons in Hx as [->|Hx]; [by apply Hw|by apply Hv].
    + apply elem_of_without; [by apply Hv|]. by eapply Hgone, connection_owned.
    + apply elem_of_without; [by apply Hv|]. by eapply Hgone, connection_owned.
    + apply elem_of_without; [|by eapply Hgone, connection_owned]. apply Hv.
      match goal with E : connections l = _ |- _ => rewrite E end. apply elem_of_app in Hx as [Hx|Hx]; apply elem_of_app; [by left|right; by right].
Qed.

(** C29: however threads accept connections and close the listener at the
    same time, every handle the listener ever made has exactly one owner as long as
    it is open: it is closed at most once, and only by its owner; a returned
    connection was found private before; and when the listener is closed and
    everybody is done, nothing is left open but the connections that were returned
    and the instances whose first security check failed. *)
Theorem handles_have_one_owner h l :
  reachable h l →
  NoDup (open_handles l) ∧ owners l ≡ₚ open_handles l ∧
  (∀ l' x, step l (Closed x) l' → x ∈ open_handles l ∧ x ∉ owners l') ∧
  (∀ x, x ∈ connections l → x ∈ verified l) ∧
  (closed l = true → closing l = [] → accept_thread l = Idle → open_handles l ≡ₚ connections l ++ strays l).
Proof.
  intros Hr. assert (listener_wf l) as H.
  { induction Hr as [|l e l' Hr IH Hs]; [|by eapply step_wf]. constructor; cbn; try done.
    - by apply NoDup_singleton.
    - intros x [= ->]. by left.
    - intros x Hx. by apply elem_of_nil in Hx. }
  split_and!; [apply H|apply H| |apply H|].
  - intros l' x Hs. split; [|intros Hx; by apply (closed_gone l x l' x H Hs Hx)].
    apply owner_open; [done|]. unfold owners. inversion Hs; subst.
    + match goal with E : accept_thread l = _ |- _ => rewrite E end. apply elem_of_app. right. by left.
    + match goal with E : closing l = _ |- _ => rewrite E end. do 2 (apply elem_of_app; right). by left.
    + match goal with E : connections l = _ |- _ => rewrite E end. do 3 (apply elem_of_app; right). rewrite <- app_assoc. apply elem_of_app. right. by left.
  - intros Hc Hn Ht. rewrite <- (one_owner _ H). unfold owners, options. destruct (closed_empty _ H Hc) as [-> ->]. by rewrite Hn, Ht.
Qed.

(** The listener is closed while a thread waits for a client: the handle is
    closed by [close], and not again by [accept]. *)
Lemma handles_have_one_owner_witness :
  ∃ l, reachable 7 l ∧ closed l = true ∧ open_handles l = [] ∧ open_handles l ≡ₚ connections l ++ strays l.
Proof.
  pose (l1 := with_accept (new_listener 7) None (Some 7) (Waiting 7)).
  pose (l2 := Listener true true None None (Waiting 7) [7] [] [7] [7] []).
  pose (l3 := close_handle l2 7 (Waiting 7) []). pose (l4 := with_accept l3 None None (Failing 7)). pose (l5 := with_accept l4 None None Idle).
  assert (reachable 7 l5) as H.
  { eapply (reach_step _ l4 Quiet); [|by apply (accept_not_owned l4 7)].
    eapply (reach_step _ l3 Quiet); [|by apply (accept_connect_failed l3 7)].
    eapply (reach_step _ l2 (Closed 7)); [|by apply (close_next l2 7 [])].
    eapply (reach_step _ l1 Quiet); [|by apply (close_first l1)].
    eapply (reach_step _ (new_listener 7) Quiet); [constructor|by apply (accept_pending (new_listener 7) 7)]. }
  exists l5. split; [exact H|]. split; [reflexivity|]. split; [vm_compute; reflexivity|].
  destruct (handles_have_one_owner 7 l5 H) as (_ & _ & _ & _ & Hend). by apply Hend.
Defined.

(** ** Connecting *)
Inductive connect_call : Type :=
  | NMonotonic | NWaitPipe (path : str) (ms : Z) | NCreateFile (path : str) | NInspect (h : Z) | NCloseHandle (h : Z) | NSleep.
(** [NFailed] is a [pywintypes.error] with its [winerror]. *)
Inductive connect_reply : Type :=
  | NDone | NTime (t : Q) | NHandle (h : Z) | NDescriptor (d : Descriptor) | NFailed (winerror : Z).
Definition RETRYABLE_CONNECT_ERRORS : list Z := [2; 121; 231].
Definition ipc_error (m : str) : exn := controlled IpcError m.
Section connecting.
Variable current : str.
Abbreviation P := (M (io unit connect_call connect_reply)).
Definition now : P Q := r ← ask NMonotonic; match r with NTime t => mret t | _ => hang end.
(** A call that gives nothing; the error it failed with *)
Definition try_call (c : connect_call) : P (option Z) :=
  r ← ask c; match r with NDone => mret None | NFailed code => mret (Some code) | _ => hang end.
(** The body of the loop: a handle, or the error that was caught *)
Definition attempt (path : str) (deadline : Q) : P (Z + Z) :=
  t ← now;
  failed ← try_call (NWaitPipe path (Z.max 1 (qround (qmul (qsub deadline t) (qz 1000)))));
  match failed with
  | Some code => mret (inr code)
  | None =>
      r ← ask (NCreateFile path);
      match r with
      | NHandle h =>
          r ← ask (NInspect h);
          match r with
          | NDescriptor d =>
              match require_current_user_only current d with
              | Ok _ => mret (inl h)
              | Err e =>
                  failed ← try_call (NCloseHandle h);
                  match failed with Some code => mret (inr code) | None => raise e end
              end
          | NFailed code =>
              failed ← try_call (NCloseHandle h);
              mret (inr (default code failed))
          | _ => hang
          end
      | NFailed code => mret (inr code)
      | _ => hang
      end
  end.
Fixpoint connect_loop (fuel : nat) (path : str) (deadline : Q) : P Z :=
  match fuel with
  | O => hang
  | S fuel =>
      t ← now;
      if qlt t deadline then
        r ← attempt path deadline;
        match r with
        | inl h => mret h
        | inr code =>
            lift (raise_if (negb (bool_decide (code ∈ RETRYABLE_CONNECT_ERRORS)))
                    (ipc_error (u "could not connect to named pipe: " ++ show_int code)));;
            ask NSleep;;
            connect_loop fuel path deadline
        end
      else raise (ipc_error (u "timed out connecting to the local named pipe"))
  end.
(** [connect_named_pipe]: the handle of the connection *)
Definition connect_named_pipe (path : str) (timeout : Q) : P Z :=
  lift (validate_pipe_name path);;
  t ← now;
  s ← Prelude.get; connect_loop (S (length (script s))) path (qadd t timeout).

(** *** One handle at a time *)
Inductive handle_phase := Nothing | Fresh (h : Z) | Private (h : Z) | Unusable (h : Z) | Broken.
Definition handle_allowed (ph : handle_phase) (c : connect_call) : Prop :=
  match c, ph with
  | NInspect h, Fresh h' => h' = h
  | NCloseHandle h, (Fresh h' | Unusable h') => h' = h
  | (NInspect _ | NCloseHandle _), _ => False
  | _, Nothing => True
  | _, _ => False
  end.
Definition handle_after (ph : handle_phase) (c : connect_call) (a : res connect_reply) : handle_phase :=
  match c, a with
  | NCreateFile _, Ok (NHandle h) => Fresh h
  | NInspect h, Ok (NDescriptor d) => match require_current_user_only current d with Ok _ => Private h | Err _ => Unusable h end
  | NInspect h, Ok (NFailed _) => Unusable h
  | NCloseHandle _, Ok _ => Nothing
  | (NInspect _ | NCloseHandle _), _ => Broken
  | _, _ => ph
  end.
Section run.
Context (tr : list connect_call) (scr : list (res connect_reply)).
Abbreviation stopped := (obeyed (State := unit) handle_allowed handle_after tr scr Nothing).
Abbreviation at_ := (at_phase (State := unit) handle_allowed handle_after tr scr Nothing).
(** Calls that fail by an error of another class are not foreseen: they leave
    the handle to the caller's exception. *)
Definition foreseen (e : exn) (s : io unit connect_call connect_reply) : Prop := at_ Nothing s ∨ Err e ∈ scr.
Lemma script_error (s : io unit connect_call connect_reply) c e s' : at_ Nothing s ∨ (∃ ph, at_ ph s) → ask c s = (Raise e, s') → Err e ∈ scr.
Proof.
  intros H Ha. assert (∃ ph, at_ ph s) as (ph & cs & _ & Hs & _) by (destruct H as [H|H]; [by exists Nothing|done]).
  unfold ask in Ha. destruct (script s) as [|[a|e'] rest] eqn:E; try done. injection Ha as -> <-.
  assert (Err e ∈ drop (length cs) scr) as Hin by (rewrite <- Hs; by left).
  rewrite <- (take_drop (length cs) scr). apply elem_of_app. by right.
Qed.
Lemma triple_handle ph c (Q : connect_reply → io unit connect_call connect_reply → Prop) :
  handle_allowed ph c → (∀ a s, at_ (handle_after ph c (Ok a)) s → Q a s) →
  triple stopped (at_ ph) (ask c) Q foreseen.
Proof.
  intros Hc HQ s Hs. pose proof (triple_monitored (State := unit) handle_allowed handle_after tr scr Nothing ph c
    (fun a => at_ (handle_after ph c (Ok a))) (fun _ _ => True) Hc ltac:(done) ltac:(done) s Hs) as H.
  destruct (ask c s) as [[a|e|] s'] eqn:E; [by apply HQ| |exact H].
  right. eapply script_error; [|exact E]. right. by exists ph.
Qed.
Lemma at_stop ph s : at_ ph s → stopped s.
Proof. by apply at_phase_obeyed. Qed.
Lemma triple_now : triple stopped (at_ Nothing) now (fun _ => at_ Nothing) foreseen.
Proof.
  eapply (triple_bind _ _ _ _ (fun _ => at_ Nothing)); [by apply triple_handle|].
  intros a s H. destruct a; try exact (at_stop _ _ H). exact H.
Qed.
Lemma triple_try_call ph c : handle_allowed ph c → (∀ a, handle_after ph c (Ok a) = Nothing) →
  triple stopped (at_ ph) (try_call c) (fun _ => at_ Nothing) foreseen.
Proof.
  intros Hc Ha. eapply (triple_bind _ _ _ _ (fun _ => at_ Nothing)); [apply triple_handle; [done|]; intros a s; by rewrite Ha|].
  intros a s H. destruct a; try exact (at_stop _ _ H); exact H.
Qed.
Definition attempted (r : Z + Z) : io unit connect_call connect_reply → Prop :=
  match r with inl h => at_ (Private h) | inr _ => at_ Nothing end.
Lemma triple_attempt_handle path deadline : triple stopped (at_ Nothing) (attempt path deadline) attempted foreseen.
Proof.
  eapply triple_bind; [apply triple_now|]. intros t. eapply triple_bind; [by apply triple_try_call|].
  intros [code|]; [by apply triple_ret|].
  eapply (triple_bind _ _ _ _ (fun a => at_ (handle_after Nothing (NCreateFile path) (Ok a)))); [by apply triple_handle|].
  intros [| |h|d|code]; try (intros s H; exact (at_stop _ _ H)); [|by apply triple_ret].
  eapply (triple_bind _ _ _ _ (fun a => at_ (handle_after (Fresh h) (NInspect h) (Ok a)))); [by apply triple_handle|].
  intros [| |h'|d|code]; try (intros s H; exact (at_stop _ _ H)); cbn [handle_after].
  - destruct (require_current_user_only current d) as [r|e]; [by apply triple_ret|].
    eapply triple_bind; [by apply triple_try_call|]. intros [code|]; [by apply triple_ret|]. apply triple_raise. intros s H. by left.
  - eapply triple_bind; [by apply triple_try_call|]. intros failed. by apply triple_ret.
Qed.
Lemma triple_connect_loop path deadline fuel :
  triple stopped (at_ Nothing) (connect_loop fuel path deadline) (fun h => at_ (Private h)) foreseen.
Proof.
  induction fuel as [|fuel IH]; cbn [connect_loop]; [intros s H; exact (at_stop _ _ H)|].
  eapply triple_bind; [apply triple_now|]. intros t. destruct (qlt t deadline).
  - eapply triple_bind; [apply triple_attempt_handle|]. intros [h|code]; [by apply triple_ret|].
    apply triple_lift_at; [|intros e s H; by left]. intros [] _.
    eapply (triple_bind _ _ _ _ (fun _ => at_ Nothing)); [by apply triple_handle|]. intros _. exact IH.
  - apply triple_raise. intros s H. by left.
Qed.
End run.

(** Connecting returns only a handle that was found private, and has no other
    handle open; when it fails with an error of its own, no handle is open. *)
Theorem connects_to_private_pipe path timeout s :
  match connect_named_pipe path timeout s with
  | (Ret h, s') => at_phase handle_allowed handle_after (trace s) (script s) Nothing (Private h) s'
  | (Raise e, s') => at_phase handle_allowed handle_after (trace s) (script s) Nothing Nothing s' ∨ Err e ∈ script s
  | (Hang, s') => obeyed handle_allowed handle_after (trace s) (script s) Nothing s'
  end.
Proof.
  enough (triple (obeyed handle_allowed handle_after (trace s) (script s) Nothing)
            (at_phase handle_allowed handle_after (trace s) (script s) Nothing Nothing) (connect_named_pipe path timeout)
            (fun h => at_phase handle_allowed handle_after (trace s) (script s) Nothing (Private h)) (foreseen (trace s) (script s))) as H
    by (apply (H s), at_phase_start).
  unfold connect_named_pipe. apply triple_lift_at; [|intros e s' H; by left]. intros [] _.
  eapply triple_bind; [apply triple_now|]. intros t. apply triple_get. intros s' Hs'. eapply triple_before; [apply triple_connect_loop|].
  by intros ? ->.
Qed.
End connecting.
