(* ===== verification/KeyGenerator.v ===== *)
(** * KeyGenerator: making a key pair (setup/keys.py)

    ssh-keygen runs in a terminal of its own, which answers its two questions
    with the passphrase the window took from the user.  The terminal, the file
    system and the clock answer from a script. *)
From S2P Require Import Prelude Errors Text TextFacts Regex Prog ConfigModel PublicKey ProfileSetup Draft.

Inductive key_call : Type :=
  | YExists (p : str) | YMakeDirectory (p : str) | YSecure (p : str) (directory : bool)
  | YTake                                       (* secret_source.take() *)
  | YTerminal                                   (* self.terminal_factory() *)
  | YFindKeygen                                 (* self.executable_finder() *)
  | YStart (arguments : list str)
  | YMonotonic
  | YWaitData (cursor : Z)                      (* terminal.wait_for_data(cursor, timeout=0.1) *)
  | YWrite (data : bytes)
  | YRunning
  | YWait                                       (* terminal.wait(timeout=30) *)
  | YTerminate
  | YIsFile (p : str) | YRead (p : str)
  | YUnlink (p : str)                           (* p.unlink(missing_ok=True) *)
  | YCloseTerminal.
Inductive key_reply : Type :=
  | YDone | YFlag (b : bool) | YBytes (b : bytes) | YPath (p : str) | YTime (t : Q) | YChunk (data : bytes) (next_cursor : Z)
  | YExit (code : option Z).

Definition KEYGEN_TIMEOUT_SECONDS : Z := 30.
Definition FIRST_PROMPT : bytes := u "Enter passphrase".
Definition SECOND_PROMPT : bytes := u "Enter same passphrase".
Definition OBSERVED_BYTES : nat := 4096.

Section generating.
Context {U : UnicodeDB}.
(** [Path.resolve], the [.pub] sibling, the [parent] and the [/] of paths *)
Variable resolve : str → str.
Variable with_pub : str → res str.
Variable parent : str → str.
Variable join_path : str → str → str.
Variables (USERPROFILE user_profile : option str).
(** The state is the bytearray of the secret. *)
Abbreviation P := (M (io bytes key_call key_reply)).
Definition perform (c : key_call) : P unit := ask c;; mret tt.
Definition ask_flag (c : key_call) : P bool := r ← ask c; match r with YFlag b => mret b | _ => hang end.
Definition monotonic : P Q := r ← ask YMonotonic; match r with YTime t => mret t | _ => hang end.

(** The last bytes of what the terminal printed *)
Definition keep_last (observed : bytes) : bytes := drop (length observed - OBSERVED_BYTES) observed.
Definition prompt_missing : exn := Builtin RuntimeError (u "ssh-keygen ended before its local passphrase prompt").
Fixpoint prompt_loop (fuel : nat) (marker : bytes) (deadline : Q) (cursor : Z) (observed : bytes) : P unit :=
  match fuel with
  | O => hang
  | S fuel =>
      now ← monotonic;
      if negb (qlt now deadline) then raise prompt_missing
      else
        r ← ask (YWaitData cursor);
        match r with
        | YChunk data next_cursor =>
            let observed := keep_last (observed ++ data) in
            if contains marker observed then
              secret ← state; perform (YWrite secret);; perform (YWrite cr)
            else
              running ← ask_flag YRunning;
              if running : bool then prompt_loop fuel marker deadline next_cursor observed else raise prompt_missing
        | _ => hang
        end
  end.
Definition answer_prompt (marker : bytes) : P unit :=
  now ← monotonic;
  s ← Prelude.get; prompt_loop (S (length (script s))) marker (qadd now (qz KEYGEN_TIMEOUT_SECONDS)) 0 [].
Definition keygen_arguments (executable target profile_name : str) : list str :=
  [executable; u "-q"; u "-t"; u "ed25519"; u "-f"; target; u "-C"; u "serverops:" ++ profile_name].
(** The body of the try statement *)
Definition make_key (profile_name target public_path : str) : P GeneratedKey :=
  r ← ask YFindKeygen;
  executable ← (match r with YPath p => mret p | _ => hang end);
  perform (YStart (keygen_arguments executable target profile_name));;
  answer_prompt FIRST_PROMPT;;
  answer_prompt SECOND_PROMPT;;
  r ← ask YWait;
  code ← (match r with YExit code => mret code | _ => hang end);
  match code with
  | None => perform YTerminate;; raise (Builtin OSError (u "ssh-keygen did not finish before the local timeout"))
  | Some code =>
      lift (raise_if (negb (code =? 0)) (Builtin RuntimeError (u "ssh-keygen did not create the Ed25519 key")));;
      private ← ask_flag (YIsFile target);
      public ← (if private : bool then ask_flag (YIsFile public_path) else mret false);
      lift (raise_if (negb public) (Builtin RuntimeError (u "ssh-keygen completed without both key files")));;
      perform (YSecure target false);;
      perform (YSecure public_path false);;
      r ← ask (YRead public_path);
      content ← (match r with YBytes b => mret b | _ => hang end);
      key ← lift (public_key_of content);
      mret (Key target public_path key)
  end.
Definition key_exists : exn := Builtin FileExistsError (u "the selected SSH key path already exists").
Definition key_path (profile_name : str) (destination : option str) : res str :=
  match destination with Some d => Ok d | None => default_private_key_path join_path USERPROFILE profile_name user_profile end.
Definition generate (profile_name : str) (destination : option str) : P GeneratedKey :=
  lift (validate_profile_name profile_name);;
  path ← lift (key_path profile_name destination);
  let target := resolve path in
  public_path ← lift (with_pub target);
  private ← ask_flag (YExists target);
  existing ← (if private : bool then mret true else ask_flag (YExists public_path));
  lift (raise_if existing key_exists);;
  perform (YMakeDirectory (parent target));;
  perform (YSecure (parent target) true);;
  r ← ask YTake;
  secret ← (match r with YBytes b => mret b | _ => hang end);
  update (fun _ => secret);;
  perform YTerminal;;
  try_finally
    (try_except (make_key profile_name target public_path)
       (fun e => perform (YUnlink target);; perform (YUnlink public_path);; raise e))
    (update (fun _ => []);; perform YCloseTerminal).
End generating.

(** The loop ends with its answers: its bound is never the reason. *)
Section bound.
Context {U : UnicodeDB}.
Lemma prompt_loop_agree marker deadline k n m : (k < n)%nat → (k < m)%nat →
  ∀ cursor observed, agree k (prompt_loop n marker deadline cursor observed) (prompt_loop m marker deadline cursor observed).
Proof.
  revert k m. induction n as [|n IH]; intros k [|m] Hn Hm cursor observed; [lia..|]. cbn [prompt_loop].
  apply agree_consumed with (R := fun _ => fewer k).
  { unfold monotonic. eapply triple_bind; [apply triple_ask_fewer|]. intros []; try done; by apply triple_ret. }
  intros now k' Hk. destruct (negb _); [apply agree_refl|].
  apply agree_bind; [apply agree_refl|apply spec_ask_within|]. intros []; try apply agree_refl.
  destruct (contains marker _); [apply agree_refl|].
  apply agree_bind; [apply agree_refl| |].
  - unfold ask_flag. eapply spec_bind; [apply spec_ask_within|]. intros [] _; try apply spec_hang; by apply spec_ret.
  - intros []; [apply IH; lia|apply agree_refl].
Qed.
(** So waiting for a prompt is waiting with any larger bound. *)
Lemma answer_prompt_unbounded marker deadline s n :
  (length (script s) < n)%nat →
  prompt_loop (S (length (script s))) marker deadline 0 [] s = prompt_loop n marker deadline 0 [] s.
Proof. intros Hn. apply (prompt_loop_agree marker deadline (length (script s))); [lia..|]. by red. Qed.
End bound.

(** ** What a generation leaves behind *)
Section leaving.
Context {U : UnicodeDB}.
Variable resolve : str → str.
Variable with_pub : str → res str.
Variable parent : str → str.
Variable join_path : str → str → str.
Variables (USERPROFILE user_profile : option str).
Variables target public_path : str.
Abbreviation IO := (io bytes key_call key_reply).
(** Where a generation is: what it found to be absent; the secret it was given;
    what the terminal printed since the last question was answered; what was
    removed again; and how it was left. *)
Inductive key_phase :=
  | Looking (absent : list str) | Given (secret : bytes) | Running (secret observed : bytes)
  | PrivateGone | BothGone | NotGone | Made | Removed | Unclean.
Definition key_allowed (ph : key_phase) (c : key_call) : Prop :=
  match ph, c with
  | Looking _, YExists p => p = target ∨ p = public_path
  | Looking absent, (YMakeDirectory _ | YSecure _ true | YTake) => target ∈ absent ∧ public_path ∈ absent
  | Given _, YTerminal => True
  | Running secret observed, YWrite w =>
      w = cr ∨ w = secret ∧ (contains FIRST_PROMPT observed = true ∨ contains SECOND_PROMPT observed = true)
  | Running _ _, (YFindKeygen | YStart _ | YMonotonic | YWaitData _ | YRunning | YWait | YTerminate | YRead _) => True
  | Running _ _, (YIsFile p | YSecure p false) => p = target ∨ p = public_path
  | Running _ _, YUnlink p => p = target
  | PrivateGone, YUnlink p => p = public_path
  | (Running _ _ | BothGone | NotGone), YCloseTerminal => True
  | _, _ => False
  end.
Definition key_after (ph : key_phase) (c : key_call) (a : res key_reply) : key_phase :=
  match ph, c, a with
  | Looking absent, YExists p, Ok (YFlag false) => Looking (p :: absent)
  | Looking _, YTake, Ok (YBytes b) => Given b
  | Given secret, YTerminal, Ok _ => Running secret []
  | Running secret observed, YWaitData _, Ok (YChunk data _) => Running secret (keep_last (observed ++ data))
  | Running secret observed, YWrite w, _ => if str_eqb w cr then Running secret [] else ph
  | Running _ _, YUnlink _, Ok _ => PrivateGone
  | PrivateGone, YUnlink _, Ok _ => BothGone
  | _, YUnlink _, Err _ => NotGone
  | Running _ _, YCloseTerminal, Ok _ => Made
  | BothGone, YCloseTerminal, Ok _ => Removed
  | _, YCloseTerminal, _ => Unclean
  | _, _, _ => ph
  end.

Section run.
Context (tr : list key_call) (scr : list (res key_reply)).
Abbreviation stopped := (obeyed (State := bytes) key_allowed key_after tr scr (Looking [])).
Definition at_ (ph : key_phase) (b : bytes) (s : IO) : Prop := at_phase key_allowed key_after tr scr (Looking []) ph s ∧ st s = b.
Lemma key_at_obeyed ph b s : at_ ph b s → stopped s.
Proof. intros [H _]. by eapply at_phase_obeyed. Qed.
Lemma key_asks ph b c (Q : key_reply → IO → Prop) (R : exn → IO → Prop) :
  key_allowed ph c → (∀ a s, at_ (key_after ph c (Ok a)) b s → Q a s) → (∀ e s, at_ (key_after ph c (Err e)) b s → R e s) →
  triple stopped (at_ ph b) (ask c) Q R.
Proof.
  intros Hc HQ HR. by apply (triple_asked _ _ (fun x => x = b)).
Qed.
Section secret.
Context (secret : bytes).
(** In the try statement *)
Definition running (s : IO) : Prop := ∃ observed, at_ (Running secret observed) secret s.
Definition works {A} (m : M IO A) : Prop := triple stopped running m (fun _ => running) (fun _ => running).
Lemma works_ask c : (∀ o, key_allowed (Running secret o) c) → (∀ o a, ∃ o', key_after (Running secret o) c a = Running secret o') → works (ask c).
Proof.
  intros Hc Ha. apply triple_exists. intros o. apply key_asks; [done|..]; intros ? s H;
    [destruct (Ha o (Ok a)) as [o' E]|destruct (Ha o (Err e)) as [o' E]]; rewrite E in H; by exists o'.
Qed.
Lemma works_bind {A B} (m : M IO A) (f : A → M IO B) : works m → (∀ a, works (f a)) → works (m ≫= f).
Proof. intros Hm Hf. eapply triple_bind; [exact Hm|exact Hf]. Qed.
Lemma works_ret {A} (a : A) : works (mret a).
Proof. by apply triple_ret. Qed.
Lemma works_raise {A} e : works (raise e : M IO A).
Proof. by apply triple_raise. Qed.
Lemma works_hang {A} : works (hang : M IO A).
Proof. intros s [o H]. by eapply key_at_obeyed. Qed.
Lemma works_lift {A} (r : res A) : works (lift r).
Proof. by apply triple_lift. Qed.
Ltac work :=
  repeat match goal with
  | |- triple _ _ ?m _ _ => change (works m)
  | |- works (ask _) => apply works_ask; [intros ?; cbn; auto|intros ? [[]|]; by eexists]
  | |- works (perform _) => unfold perform
  | |- works (ask_flag _) => unfold ask_flag
  | |- works (monotonic) => unfold monotonic
  | |- works (_ ≫= _) => apply works_bind; [|intros ?]
  | |- works (mret _) => apply works_ret
  | |- works hang => apply works_hang
  | |- works (raise _) => apply works_raise
  | |- works (lift _) => apply works_lift
  | |- works (match ?x with _ => _ end) => destruct x
  | |- works (if ?x then _ else _) => destruct x
  end.
Lemma key_performs (Q Q' : IO → Prop) c R :
  triple stopped Q (ask c) (fun _ => Q') R → triple stopped Q (perform c) (fun _ => Q') R.
Proof. intros H. eapply (triple_bind _ _ _ _ (fun _ => Q')); [exact H|]. intros _. by apply triple_ret. Qed.
(** The secret is written once the prompt was seen. *)
Lemma works_write o :
  (contains FIRST_PROMPT o = true ∨ contains SECOND_PROMPT o = true) →
  triple stopped (at_ (Running secret o) secret) (secret ← state; perform (YWrite secret);; perform (YWrite cr))
    (fun _ => at_ (Running secret []) secret) (fun _ => running).
Proof.
  intros Ho. apply triple_state. intros x. apply (triple_before _ _ (fun s => x = secret ∧ at_ (Running secret o) secret s));
    [|intros s [[Hp Hs] Hx]; by rewrite Hs in Hx].
  apply triple_pure. intros ->. unfold perform. eapply (triple_bind _ _ _ _ (fun _ => running)).
  - eapply (triple_bind _ _ _ _ (fun _ => running)); [|intros _; apply works_ret].
    apply key_asks; [cbn; auto|..]; intros ? s H; cbn [key_after] in H; (destruct (str_eqb secret cr); eexists; exact H).
  - intros _. apply triple_exists. intros o'. eapply (triple_bind _ _ _ _ (fun _ => at_ (Running secret []) secret)).
    + apply key_asks; [cbn; auto|..]; intros ? s H; [exact H|exists []; exact H].
    + intros _. by apply triple_ret.
Qed.
Lemma observing_monotonic o :
  triple stopped (at_ (Running secret o) secret) monotonic (fun _ => at_ (Running secret o) secret) (fun _ => running).
Proof.
  unfold monotonic. eapply (triple_bind _ _ _ _ (fun _ => at_ (Running secret o) secret)).
  - apply key_asks; [done|..]; intros ? s H; [exact H|by eexists].
  - intros []; try (by apply triple_ret); intros s H; by eapply key_at_obeyed.
Qed.
Lemma works_prompt_loop fuel marker : marker = FIRST_PROMPT ∨ marker = SECOND_PROMPT → ∀ deadline cursor observed,
  triple stopped (at_ (Running secret observed) secret) (prompt_loop fuel marker deadline cursor observed)
    (fun _ => at_ (Running secret []) secret) (fun _ => running).
Proof.
  intros Hm. induction fuel as [|fuel IH]; intros deadline cursor observed; cbn [prompt_loop].
  { intros s H. by eapply key_at_obeyed. }
  eapply (triple_bind _ _ _ _ (fun _ => at_ (Running secret observed) secret)); [by apply observing_monotonic|].
  intros now. destruct (negb _); [apply triple_raise; intros s H; by eexists|].
  set (seen := fun r : key_reply => match r with YChunk data _ => keep_last (observed ++ data) | _ => observed end).
  eapply (triple_bind _ _ _ _ (fun r s => ∃ o, at_ (Running secret o) secret s ∧
     o = seen r)).
  { apply key_asks; [done| |]; intros a s H; [|destruct observed; by eexists].
    eexists. split; [|done]. by destruct a. }
  intros r. apply triple_exists. intros o. apply (triple_before _ _ (fun s => o = seen r ∧ at_ (Running secret o) secret s)); [|intros s [H1 H2]; by split].
  apply triple_pure. intros ->. destruct r; cbn [seen]; try (intros s H; by eapply key_at_obeyed).
  destruct (contains marker _) eqn:Hc; [apply works_write; destruct Hm as [->| ->]; auto|].
  eapply (triple_bind _ _ _ _ (fun _ => at_ (Running secret (keep_last (observed ++ data))) secret)).
  { unfold ask_flag. eapply (triple_bind _ _ _ _ (fun _ => at_ (Running secret (keep_last (observed ++ data))) secret)).
    - apply key_asks; [done|..]; intros ? s H; [exact H|by eexists].
    - intros []; try (apply triple_ret; done); intros s H; by eapply key_at_obeyed. }
  intros []; [apply IH|]. apply triple_raise. intros s H. by eexists.
Qed.
Lemma works_answer_prompt marker : marker = FIRST_PROMPT ∨ marker = SECOND_PROMPT →
  triple stopped (at_ (Running secret []) secret) (answer_prompt marker) (fun _ => at_ (Running secret []) secret) (fun _ => running).
Proof.
  intros Hm. unfold answer_prompt. eapply (triple_bind _ _ _ _ (fun _ => at_ (Running secret []) secret)); [by apply observing_monotonic|].
  intros now. apply triple_get. intros x Hx. eapply triple_before; [by apply works_prompt_loop|]. by intros s ->.
Qed.
Lemma works_make_key profile_name :
  triple stopped (at_ (Running secret []) secret) (make_key profile_name target public_path)
    (fun k s => (ProfileSetup.private_key_path k = target ∧ ProfileSetup.public_key_path k = public_path) ∧ running s) (fun _ => running).
Proof.
  assert (∀ c, key_allowed (Running secret []) c → (∀ a, key_after (Running secret []) c a = Running secret []) →
    triple stopped (at_ (Running secret []) secret) (ask c) (fun _ => at_ (Running secret []) secret) (fun _ => running)) as Hask.
  { intros c Hc Ha. apply key_asks; [done|..]; intros ? s H; rewrite Ha in H; [done|by eexists]. }
  unfold make_key. eapply (triple_bind _ _ _ _ (fun _ => at_ (Running secret []) secret)); [apply Hask; [done|by intros [[]|]]|].
  intros r. eapply (triple_bind _ _ _ _ (fun _ => at_ (Running secret []) secret)).
  { destruct r; try (by apply triple_ret); intros s H; by eapply key_at_obeyed. }
  intros executable. eapply (triple_bind _ _ _ _ (fun _ => at_ (Running secret []) secret)).
  { apply key_performs, Hask; [done|by intros [[]|]]. }
  intros _. eapply (triple_bind _ _ _ _ (fun _ => at_ (Running secret []) secret)); [apply works_answer_prompt; by left|]. intros _.
  eapply (triple_bind _ _ _ _ (fun _ => at_ (Running secret []) secret)); [apply works_answer_prompt; by right|]. intros _.
  eapply (triple_bind _ _ _ _ (fun _ => running)); [apply (triple_before _ _ running); [work|intros s H; by eexists]|]. intros r'.
  eapply (triple_bind _ _ _ _ (fun _ => running)); [work|]. intros [code|].
  2: { eapply (triple_bind _ _ _ _ (fun _ => running)); [work|]. intros _. apply triple_raise. done. }
  repeat (eapply (triple_bind _ _ _ _ (fun _ => running)); [work; auto|intros ?]).
  by apply triple_ret.
Qed.
(** The clean-up *)
Definition taken_back (s : IO) : Prop := at_ Removed [] s ∨ at_ Unclean [] s.
Definition removing (s : IO) : Prop := at_ BothGone secret s ∨ at_ NotGone secret s.
Lemma triple_remove_keys {A} e :
  triple stopped running (perform (YUnlink target);; perform (YUnlink public_path);; raise e : M IO A) (fun _ _ => False) (fun _ => removing).
Proof.
  apply triple_exists. intros o. eapply (triple_bind _ _ _ _ (fun _ => at_ PrivateGone secret)).
  - apply key_performs, key_asks; [done|..]; intros ? s H; [exact H|by right].
  - intros _. eapply (triple_bind _ _ _ _ (fun _ => at_ BothGone secret)).
    + apply key_performs, key_asks; [done|..]; intros ? s H; [exact H|by right].
    + intros _. apply triple_raise. by left.
Qed.
Lemma triple_close_terminal ph :
  key_allowed ph YCloseTerminal → (∀ e, key_after ph YCloseTerminal (Err e) = Unclean) →
  triple stopped (at_ ph secret) (update (fun _ => []);; perform YCloseTerminal)
    (fun _ s => ∃ a, at_ (key_after ph YCloseTerminal (Ok a)) [] s) (fun _ => taken_back).
Proof.
  intros Hc He. eapply (triple_bind _ _ _ _ (fun _ => at_ ph [])).
  - apply triple_modify. intros s [H _]. by split.
  - intros _. apply key_performs, key_asks; [done|..]; intros ? s H; [by eexists|]. rewrite He in H. by right.
Qed.
End secret.
(** How a call ends: with the key; before the terminal was made; or taken back. *)
Definition never_started (s : IO) : Prop := (∃ absent, at_phase key_allowed key_after tr scr (Looking []) (Looking absent) s) ∨ ∃ b, at_ (Given b) b s.
End run.
Section starting.
Context (tr : list key_call) (scr : list (res key_reply)) (b : bytes).
Abbreviation stopped := (obeyed (State := bytes) key_allowed key_after tr scr (Looking [])).
Abbreviation looking absent := (at_ tr scr (Looking absent) b).
Lemma never_looking absent s : looking absent s → never_started tr scr s.
Proof. intros [H _]. left. by eexists. Qed.
Lemma looks absent c : key_allowed (Looking absent) c → (∀ a, key_after (Looking absent) c a = Looking absent) →
  triple stopped (looking absent) (ask c) (fun _ => looking absent) (fun _ => never_started tr scr).
Proof. intros Hc Ha. apply key_asks; [done|..]; intros ? s H; rewrite Ha in H; [done|by eapply never_looking]. Qed.
(** What is found to be absent *)
Lemma looks_for absent p : p = target ∨ p = public_path →
  triple stopped (looking absent) (ask_flag (YExists p)) (fun f => looking (if f then absent else p :: absent)) (fun _ => never_started tr scr).
Proof.
  intros Hp. unfold ask_flag.
  eapply (triple_bind _ _ _ _ (fun r => looking (match r with YFlag false => p :: absent | _ => absent end))).
  - apply key_asks; [done|..]; intros a s H; [|by eapply never_looking]. destruct a as [|[]| | | | |]; exact H.
  - intros [|[]| | | | |]; try (by apply triple_ret); intros s H; by eapply key_at_obeyed.
Qed.
Lemma triple_either {A} (P P' : IO → Prop) (m : M IO A) Q R :
  triple stopped P m Q R → triple stopped P' m Q R → triple stopped (fun s => P s ∨ P' s) m Q R.
Proof. intros H H' s [Hs|Hs]; [exact (H s Hs)|exact (H' s Hs)]. Qed.
(** The try statement *)
Lemma making secret profile_name :
  triple stopped (at_ tr scr (Running secret []) secret)
    (try_finally
       (try_except (make_key profile_name target public_path)
          (fun e => perform (YUnlink target);; perform (YUnlink public_path);; raise e))
       (update (fun _ => []);; perform YCloseTerminal))
    (fun k s => (ProfileSetup.private_key_path k = target ∧ ProfileSetup.public_key_path k = public_path) ∧ at_ tr scr Made [] s)
    (fun _ s => never_started tr scr s ∨ taken_back tr scr s).
Proof.
  eapply triple_raising; [|intros e s H; right; exact H].
  apply (triple_cleanup _ _ _ _ (fun k s => (ProfileSetup.private_key_path k = target ∧ ProfileSetup.public_key_path k = public_path) ∧ running tr scr secret s)
    _ (fun _ => removing tr scr secret)).
  - eapply triple_try; [apply works_make_key|]. intros e. eapply triple_conseq; [apply triple_remove_keys|done..].
  - intros k. apply triple_pure. intros Hk. apply triple_exists. intros o.
    eapply triple_conseq; [by apply (triple_close_terminal tr scr secret (Running secret o))|done| |done|done]. intros _ s [a H]. by split.
  - intros e. apply triple_either.
    + eapply triple_conseq; [by apply (triple_close_terminal tr scr secret BothGone)|done| |done|done]. intros _ s [a H]. by left.
    + eapply triple_conseq; [by apply (triple_close_terminal tr scr secret NotGone)|done| |done|done]. intros _ s [a H]. by right.
Qed.
End starting.
(** C22: a key pair is made where none was, or taken back.  Whatever
    ssh-keygen, the terminal, the file system and the clock answer, [generate]
    asks for the passphrase and touches a file only after it saw that neither key
    file exists; it types the passphrase only after the terminal printed one of
    the two questions; if it returns the key, the terminal is closed and the
    passphrase is wiped, and if it raises, either the terminal was never made,
    or both files are gone again, the passphrase is wiped and the
    terminal is closed, unless a step of the clean-up itself failed. *)
Theorem key_made_or_taken_back profile_name destination path (s : IO) :
  key_path join_path USERPROFILE user_profile profile_name destination = Ok path →
  resolve path = target → with_pub target = Ok public_path →
  match generate resolve with_pub parent join_path USERPROFILE user_profile profile_name destination s with
  | (Hang, s') => obeyed key_allowed key_after (trace s) (script s) (Looking []) s'
  | (Ret k, s') => ProfileSetup.private_key_path k = target ∧ ProfileSetup.public_key_path k = public_path ∧
      at_ (trace s) (script s) Made [] s'
  | (Raise e, s') => never_started (trace s) (script s) s' ∨ taken_back (trace s) (script s) s'
  end.
Proof.
  intros Hpath Htarget Hpub. set (tr := trace s). set (scr := script s).
  enough (triple (obeyed key_allowed key_after tr scr (Looking [])) (at_ tr scr (Looking []) (st s))
     (generate resolve with_pub parent join_path USERPROFILE user_profile profile_name destination)
     (fun k s' => (ProfileSetup.private_key_path k = target ∧ ProfileSetup.public_key_path k = public_path) ∧ at_ tr scr Made [] s')
     (fun e s' => never_started tr scr s' ∨ taken_back tr scr s')) as H.
  { specialize (H s ltac:(split; [apply at_phase_start|done])). destruct (generate _ _ _ _ _ _ _ _ s) as [[]]; [|done..].
    by destruct H as [[??]?]. }
  set (b := st s). assert (∀ absent A (r : res A), triple (obeyed key_allowed key_after tr scr (Looking []))
    (at_ tr scr (Looking absent) b) (lift r) (fun a s => r = Ok a ∧ at_ tr scr (Looking absent) b s)
    (fun e s => never_started tr scr s ∨ taken_back tr scr s)) as Hlift.
  { intros absent A r. apply triple_lift; [done|]. intros e s' _ H. left. by eapply never_looking. }
  assert (∀ A absent (m : M IO A) Q, triple (obeyed key_allowed key_after tr scr (Looking [])) (at_ tr scr (Looking absent) b) m Q (fun _ => never_started tr scr) →
    triple (obeyed key_allowed key_after tr scr (Looking [])) (at_ tr scr (Looking absent) b) m Q
    (fun e s => never_started tr scr s ∨ taken_back tr scr s)) as Hearly.
  { intros A absent m Q H. eapply triple_raising; [exact H|]. by left. }
  unfold generate. rewrite Hpath. 
  eapply (triple_bind _ _ _ _ (fun _ => at_ tr scr (Looking []) b)); [eapply triple_conseq; [apply (Hlift [])|..]; naive_solver|]. intros [].
  eapply triple_bind; [apply Hlift|]. intros p. apply triple_pure. intros [= <-].
  rewrite Htarget, Hpub.
  eapply triple_bind; [apply Hlift|]. intros p. apply triple_pure. intros [= <-].
  eapply triple_bind; [apply Hearly, looks_for; by left|]. intros private. cbv beta.
  set (both := [public_path; target]).
  eapply (triple_bind _ _ _ _ (fun ex s => at_ tr scr (Looking (if ex : bool then if private then [] else [target] else both)) b s)).
  { destruct private; [by apply triple_ret|]. eapply triple_conseq; [apply Hearly, looks_for; by right|done| |done|done]. by intros []. }
  intros ex. eapply (triple_bind _ _ _ _ (fun _ => at_ tr scr (Looking both) b)).
  { eapply triple_conseq; [apply Hlift|done| |done|done]. intros [] s' [Hex H]. by destruct ex. }
  intros []. assert (target ∈ both ∧ public_path ∈ both) as Hboth by (split; set_solver).
  eapply (triple_bind _ _ _ _ (fun _ => at_ tr scr (Looking both) b)); [by apply Hearly, key_performs, looks|]. intros [].
  eapply (triple_bind _ _ _ _ (fun _ => at_ tr scr (Looking both) b)); [by apply Hearly, key_performs, looks|]. intros [].
  eapply (triple_bind _ _ _ _ (fun r => at_ tr scr (match r with YBytes x => Given x | _ => Looking both end) b)).
  { apply Hearly, key_asks; [done|..]; intros a s' H; [by destruct a|by eapply never_looking]. }
  intros r. eapply (triple_bind _ _ _ _ (fun x => at_ tr scr (Given x) b)).
  { destruct r; try (intros s' H; by eapply key_at_obeyed). by apply triple_ret. }
  intros secret. eapply (triple_bind _ _ _ _ (fun _ => at_ tr scr (Given secret) secret)).
  { apply triple_modify. intros s' [H _]. by split. }
  intros []. eapply (triple_bind _ _ _ _ (fun _ => at_ tr scr (Running secret []) secret)).
  { apply key_performs, key_asks; [done|..]; intros ? s' H; [done|]. left. right. by eexists. }
  intros []. apply making.
Qed.
End leaving.
Definition keygen_script : list (res key_reply) :=
  [Ok (YFlag false); Ok (YFlag false); Ok YDone; Ok YDone; Ok (YBytes (u "secret")); Ok YDone;
   Ok (YPath (u "ssh-keygen")); Ok YDone;
   Ok (YTime (qz 0)); Ok (YTime (qz 0)); Ok (YChunk (u "Enter pass") 10); Ok (YFlag true);
   Ok (YTime (qz 0)); Ok (YChunk (u "phrase (empty for none): ") 35); Ok YDone; Ok YDone;
   Ok (YTime (qz 1)); Ok (YTime (qz 1)); Ok (YChunk (u "Enter same passphrase again: ") 64); Ok YDone; Ok YDone;
   Ok (YExit (Some 0)); Ok (YFlag true); Ok (YFlag true); Ok YDone; Ok YDone;
   Ok (YBytes (u "ssh-ed25519 AAAAC3NzaC1lZDI1NTE5 serverops:web" ++ [10])); Ok YDone].
Lemma key_made_or_taken_back_witness :
  ∃ k s', generate (U := ascii_db) id (fun p => Ok (p ++ u ".pub")) id (fun a b => a ++ u "/" ++ b) None None (u "web") (Some (u "/k"))
            (Io [] keygen_script []) = (Ret k, s') ∧
    public_key k = u "ssh-ed25519 AAAAC3NzaC1lZDI1NTE5 serverops:web" ∧
    at_ (u "/k") (u "/k.pub") [] keygen_script Made [] s'.
Proof.
  pose proof (key_made_or_taken_back (U := ascii_db) id (fun p => Ok (p ++ u ".pub")) id (fun a b => a ++ u "/" ++ b) None None
    (u "/k") (u "/k.pub") (u "web") (Some (u "/k")) (u "/k") (Io [] keygen_script []) eq_refl eq_refl eq_refl) as H.
  assert (∃ k s', generate (U := ascii_db) id (fun p => Ok (p ++ u ".pub")) id (fun a b => a ++ u "/" ++ b) None None (u "web") (Some (u "/k"))
            (Io [] keygen_script []) = (Ret k, s') ∧ public_key k = u "ssh-ed25519 AAAAC3NzaC1lZDI1NTE5 serverops:web") as (k & s' & E & Hk)
    by (do 2 eexists; split; [vm_compute; reflexivity|vm_compute; reflexivity]).
  rewrite E in H. exists k, s'. split; [done|]. split; [done|]. apply H.
Defined.
(** A terminal that closes early: both files are removed again. *)
Example keygen_ends_early :
  (generate (U := ascii_db) id (fun p => Ok (p ++ u ".pub")) id (fun a b => a ++ u "/" ++ b) None None (u "web") (Some (u "/k"))
     (Io [] (take 10 keygen_script ++ [Ok (YChunk [] 0); Ok (YFlag false); Ok YDone; Ok YDone; Ok YDone]) [])).1 = Raise prompt_missing.
Proof. by vm_compute. Qed.
