(* ===== verification/SetupWindow.v ===== *)
(** * SetupWindow: the setup window and its program (setup/window.py, setup/app.py)

    The window shows the form of [Draft], or one button, and runs the operations
    of [ProfileSetup] when the user asks for them; the program around it keeps
    the request of [SetupStore] up to date.  The user, the operations and the
    store answer from a script; a tk variable is the text it holds. *)
From S2P Require Import Prelude Errors Text TextFacts Regex Prog Value Json ConfigModel AuditedCalls PublicKey Repository ProfileSetup SetupModel Draft.

(** ** The window *)
Definition window_outcome : Type := SetupStatus * option (dict value) * option str.
Record window := Window { form : FormState; current_step : nat; outcome : option window_outcome }.
(** What the event loop delivers; [EEdit] is anything the user does to the
    fields, [EAction] the button of the windows without a form, and [EGone] a
    root that was destroyed by something else. *)
Inductive event : Type := EEdit (fields : FormState) | EPrimary | EBack | EAction | ECancel | EExpire | EGone.
Inductive window_call : Type :=
  | WNext                                                       (* root.mainloop() *)
  | WLoad                                                       (* operations.repository.load() *)
  | WGenerate (name : str) (secret : bytes) (destination : option str)   (* operations.generate_key *)
  | WReadKey (path : str)                                       (* read_public_key *)
  | WInstall (name : str) (staged final : ServerProfile) (key : str) (replace_existing : bool)
  | WAdd (name : str) (p : ServerProfile) | WEdit (name : str) (p : ServerProfile)
  | WRemove (name : str) | WTest (name : str)
  | WAskRemove (name : str)                                     (* messagebox.askyesno *)
  | WInfo | WError (message : str).                             (* messagebox.showinfo, showerror *)
(** A dialog runs the event loop: the request may expire while it is shown. *)
Inductive window_reply : Type :=
  | WDone | WEvent (e : event) | WSnapshot (s : ConfigSnapshot) | WGenerated (k : ProfileSetup.GeneratedKey) (logged : bool)
  | WKey (line : str) | WResult (d : dict value) | WClicked (yes expired : bool).

Definition ae : str := [228].
Definition local_failure : str :=
  u "Der lokale Vorgang ist fehlgeschlagen. Die Profil" ++ ae ++ u "nderung wurde nicht best" ++ ae ++ u "tigt.".
Definition shown_message (e : exn) : str :=
  if isinstance e ServerOpsError || is_value_error e then error_message e else local_failure.
Definition set_identity (p : ServerProfile) (file : option str) : ServerProfile :=
  Profile (display_name p) (connection_type p) (authentication p) (ssh_host p) (host p) (port p) (user p) file
    (allowed_roots p) (allow_terminal p) (allow_file_read p) (allow_file_write p) (elevation_mode p)
    (allow_root_session p) (environment p) (command_timeout_seconds p) (max_output_bytes p).
Definition is_form (a : SetupAction) : bool := match a with ADD | EDIT => true | _ => false end.

Section window.
Context {U : UnicodeDB}.
(** The file system as the form sees it *)
Variable resolve : str → res str.
Variable is_file : str → bool.
Variable with_pub : str → res str.
Variable join_path : str → str → str.
Variable USERPROFILE : option str.
Variable q : SetupRequest.
Abbreviation IO := (io window window_call window_reply).
Abbreviation P := (M IO).

Definition requested_name : str := default [] (SetupModel.profile_name q).
Definition set_form (f : FormState) : P unit := update (fun w => Window f (current_step w) (outcome w)).
Definition set_step (n : nat) : P unit := update (fun w => Window (form w) n (outcome w)).
(** [_complete]; destroying the root ends the event loop. *)
Definition complete (s : SetupStatus) (result : option (dict value)) (message : option str) : P unit :=
  w ← state;
  match outcome w with
  | Some _ => mret tt
  | None => update (fun w => Window (form w) (current_step w) (Some (s, result, message)))
  end.
Definition cancel : P unit := complete CANCELLED None (Some (u "Setup was cancelled locally.")).
Definition expire : P unit := complete EXPIRED None (Some (u "The local setup request expired.")).
Definition dialog (c : window_call) : P bool :=
  r ← ask c;
  match r with
  | WClicked yes expired => (if expired : bool then expire else mret tt);; mret yes
  | _ => hang
  end.
Definition show_error (e : exn) : P unit := dialog (WError (shown_message e));; mret tt.
Definition existing_profile : P ServerProfile :=
  r ← ask WLoad;
  match r with
  | WSnapshot s =>
      match dget (profiles (config s)) requested_name with
      | Some p => mret p
      | None => raise (value_error (u "Profil existiert nicht: " ++ requested_name))
      end
  | _ => hang
  end.
Definition ask_result (c : window_call) : P (dict value) :=
  r ← ask c; match r with WResult d => mret d | _ => hang end.
(** [except Exception as error: self._show_error(error); return] *)
Definition shown {A} (m : P A) (k : A → P unit) : P unit :=
  a ← try_except (Some <$> m) (fun e => if is_exception e then show_error e;; mret None else raise e);
  match a with Some a => k a | None => mret tt end.

Definition no_public_file : exn := value_error (u "Die " ++ oe ++ u "ffentliche Schl" ++ ue ++ u "sseldatei fehlt.").
Definition required_public_path (d : ProfileDraft) : res str :=
  match public_key_path d with Some p => Ok p | None => Err no_public_file end.
(** The secret leaves the form whether or not the key is made. *)
Definition take_secret : P bytes :=
  w ← state;
  let '(secret, f) := take_key_secret (form w) in
  set_form f;; lift secret.
Definition with_new_key (d : ProfileDraft) : P (ProfileDraft * str * bool) :=
  secret ← take_secret;
  r ← ask (WGenerate (draft_name d) secret (private_key_path d));
  match r with
  | WGenerated k logged =>
      p ← lift (server_profile (set_identity (draft_profile d) (Some (ProfileSetup.private_key_path k))));
      mret (ProfileDraft_ (draft_name d) p (password_profile d) (credential_mode d) (install_public_key d)
              (Some (ProfileSetup.private_key_path k)) (Some (ProfileSetup.public_key_path k)),
            ProfileSetup.public_key k, logged)
  | _ => hang
  end.
Definition no_staging_profile : exn := Builtin RuntimeError (u "password staging profile is unavailable").
Definition install_draft (d : ProfileDraft) (key : option str) : P (dict value) :=
  staged ← lift (match password_profile d with Some p => Ok p | None => Err no_staging_profile end);
  line ← (match key with
          | Some line => mret line
          | None => path ← lift (required_public_path d);
                    r ← ask (WReadKey path); match r with WKey line => mret line | _ => hang end
          end);
  ask_result (WInstall (draft_name d) staged (draft_profile d) line (bool_decide (action q = EDIT))).
Definition persist_draft (d : ProfileDraft) : P (dict value) :=
  made ← (if bool_decide (credential_mode d = CNewKey)
          then m ← with_new_key d; mret (m.1.1, Some m.1.2, Some m.2)
          else mret (d, None, None));
  let '(d, key, audit) := made in
  result ← (if install_public_key d then install_draft d key
            else ask_result (if bool_decide (action q = ADD) then WAdd (draft_name d) (draft_profile d)
                             else WEdit (draft_name d) (draft_profile d)));
  mret (match audit with Some logged => attach logged result | None => result end).
Definition saved_status : SetupStatus := if bool_decide (action q = ADD) then CREATED else UPDATED.
Definition save : P unit :=
  shown (w ← state;
         d ← lift (draft resolve is_file with_pub join_path USERPROFILE (form w));
         persist_draft d)
    (fun result => complete saved_status (Some result) None).
Definition primary : P unit :=
  w ← state;
  if (current_step w =? LAST_STEP)%nat then save
  else shown (n ← lift (go_next resolve is_file with_pub join_path USERPROFILE (form w) (current_step w)); set_step n)
         (fun _ => mret tt).
Definition back : P unit := w ← state; set_step (go_back (current_step w)).
Definition remove : P unit :=
  yes ← dialog (WAskRemove requested_name);
  if yes : bool
  then shown (ask_result (WRemove requested_name)) (fun d => complete REMOVED (Some d) None)
  else mret tt.
Definition test : P unit :=
  shown (ask_result (WTest requested_name))
    (fun d => dialog WInfo;; complete TESTED (Some d) None).

(** The buttons of a window without a form are [_cancel] and the action's. *)
Definition handle (e : event) : P unit :=
  match e, is_form (action q) with
  | EEdit f, true => set_form f
  | EPrimary, true => primary
  | EBack, true => back
  | EAction, false => if bool_decide (action q = REMOVE) then remove else test
  | ECancel, _ => cancel
  | EExpire, _ => expire
  | _, _ => mret tt
  end.
(** An exception that leaves a handler is reported on stderr. *)
Fixpoint mainloop (fuel : nat) : P unit :=
  match fuel with
  | O => hang
  | S fuel =>
      w ← state;
      match outcome w with
      | Some _ => mret tt
      | None =>
          r ← ask WNext;
          match r with
          | WEvent EGone => mret tt
          | WEvent e => try_except (handle e) (fun _ => mret tt);; mainloop fuel
          | _ => hang
          end
      end
  end.
(** [_build]; the window of a form starts with the profile it edits. *)
Definition build : P unit :=
  if bool_decide (action q = ADD)
  then set_form (form_state (SetupModel.profile_name q) None (suggested_host q) (suggested_user q))
  else
    p ← existing_profile;
    if bool_decide (action q = EDIT)
    then set_form (form_state (SetupModel.profile_name q) (Some p) (suggested_host q) (suggested_user q))
    else mret tt.
Definition run_window : P window_outcome :=
  build;;
  s ← Prelude.get; mainloop (S (length (script s)));;
  w ← state;
  mret (default (CANCELLED, None, Some (u "Setup was cancelled locally.")) (outcome w)).
End window.

(** ** What the window asks for, and what it says *)
Section telling.
Context {U : UnicodeDB}.
Variable resolve : str → res str.
Variable is_file : str → bool.
Variable with_pub : str → res str.
Variable join_path : str → str → str.
Variable USERPROFILE : option str.
Variable q : SetupRequest.
Abbreviation IO := (io window window_call window_reply).
Abbreviation draft_of := (draft resolve is_file with_pub join_path USERPROFILE).

(** The fields the user sees, the key made for the click that is handled,
    the answer to the question about removing, and the changes that succeeded *)
Record window_phase := WP {
  fields : FormState; new_key : option ProfileSetup.GeneratedKey; confirmed : bool; done_changes : list (SetupStatus * dict value) }.
(** The profile that the fields and the new key make *)
Definition makes (ph : window_phase) (d : ProfileDraft) (p : ServerProfile) : Prop :=
  draft_of (fields ph) = Ok d ∧
  match new_key ph with
  | None => credential_mode d ≠ CNewKey ∧ p = draft_profile d
  | Some k => credential_mode d = CNewKey ∧ server_profile (set_identity (draft_profile d) (Some (ProfileSetup.private_key_path k))) = Ok p
  end.
Definition window_allowed (ph : window_phase) (c : window_call) : Prop :=
  match c with
  | WNext | WLoad | WInfo | WError _ => True
  | WGenerate name _ destination =>
      is_form (action q) = true ∧ new_key ph = None ∧
      ∃ d, draft_of (fields ph) = Ok d ∧ credential_mode d = CNewKey ∧ name = draft_name d ∧ destination = private_key_path d
  | WReadKey path => ∃ d p, makes ph d p ∧ install_public_key d = true ∧ public_key_path d = Some path
  | WInstall name staged final key replace_existing =>
      is_form (action q) = true ∧ replace_existing = bool_decide (action q = EDIT) ∧
      ∃ d, makes ph d final ∧ install_public_key d = true ∧ name = draft_name d ∧ password_profile d = Some staged ∧
           (∀ k, new_key ph = Some k → key = ProfileSetup.public_key k)
  | WAdd name p => action q = ADD ∧ ∃ d, makes ph d p ∧ install_public_key d = false ∧ name = draft_name d
  | WEdit name p => action q = EDIT ∧ ∃ d, makes ph d p ∧ install_public_key d = false ∧ name = draft_name d
  | WAskRemove name => action q = REMOVE ∧ name = requested_name q
  | WRemove name => action q = REMOVE ∧ name = requested_name q ∧ confirmed ph = true
  | WTest name => action q = TEST ∧ name = requested_name q
  end.
Definition changed (c : window_call) : option SetupStatus :=
  match c with
  | WAdd _ _ => Some CREATED | WEdit _ _ => Some UPDATED
  | WInstall _ _ _ _ replace_existing => Some (if replace_existing : bool then UPDATED else CREATED)
  | WRemove _ => Some REMOVED | WTest _ => Some TESTED | _ => None
  end.
Definition initial_fields (p : option ServerProfile) : FormState :=
  form_state (SetupModel.profile_name q) p (suggested_host q) (suggested_user q).
Definition window_after (ph : window_phase) (c : window_call) (a : res window_reply) : window_phase :=
  match c, a with
  | WLoad, Ok (WSnapshot s) =>
      match dget (profiles (config s)) (requested_name q) with
      | Some p => WP (initial_fields (Some p)) None false (done_changes ph)
      | None => ph
      end
  | WNext, Ok (WEvent (EEdit f)) => WP f None false (done_changes ph)
  | WNext, _ => WP (fields ph) None false (done_changes ph)
  | WGenerate _ _ _, Ok (WGenerated k _) => WP (fields ph) (Some k) (confirmed ph) (done_changes ph)
  | WAskRemove _, Ok (WClicked yes _) => WP (fields ph) (new_key ph) yes (done_changes ph)
  | _, Ok (WResult d) =>
      match changed c with
      | Some s => WP (fields ph) (new_key ph) false ((s, d) :: done_changes ph)
      | None => ph
      end
  | _, _ => ph
  end.
(** An outcome that names a change names one that succeeded, with its result. *)
Definition truthful (ph : window_phase) (o : window_outcome) : Prop :=
  let '(s, result, message) := o in
  match s with
  | CREATED | UPDATED | REMOVED | TESTED =>
      message = None ∧ ∃ d, (s, d) ∈ done_changes ph ∧ (result = Some d ∨ ∃ logged, result = Some (attach logged d))
  | CANCELLED | EXPIRED => result = None
  | _ => False
  end.
Definition starts : window_phase := WP (initial_fields None) None false [].

Section run.
Context (tr : list window_call) (scr : list (res window_reply)).
Abbreviation stopped := (obeyed (State := window) window_allowed window_after tr scr starts).
Definition true_so_far (ph : window_phase) (w : window) : Prop := ∀ o, outcome w = Some o → truthful ph o.
Definition holds_fields (ph : window_phase) (w : window) : Prop :=
  is_form (action q) = true → draft_of (form w) = draft_of (fields ph).
(** Between the clicks: the form holds the fields, but for the passphrases. *)
Definition window_at (ph : window_phase) (s : IO) : Prop :=
  at_phase window_allowed window_after tr scr starts ph s ∧ true_so_far ph (st s) ∧ holds_fields ph (st s).
Definition somewhere (s : IO) : Prop := ∃ ph, window_at ph s.
Lemma window_stopped ph s : window_at ph s → stopped s.
Proof. intros [H _]. by eapply at_phase_obeyed. Qed.
Lemma somewhere_at ph s : window_at ph s → somewhere s.
Proof. intros H. by exists ph. Qed.
Lemma truthful_later ph ph' o : done_changes ph ⊆ done_changes ph' → truthful ph o → truthful ph' o.
Proof. intros Hd. destruct o as [[[] r] m]; cbn; try done; intros (Hm & d & Hin & Hr); (split; [done|]); exists d; (split; [by apply Hd|done]). Qed.
(** A call that changes neither the fields nor the click *)
Definition settled_call (ph : window_phase) (c : window_call) : Prop :=
  ∀ a, fields (window_after ph c a) = fields ph ∧ done_changes ph ⊆ done_changes (window_after ph c a).
Lemma window_asks ph c (Q : window_reply → IO → Prop) (R : exn → IO → Prop) :
  window_allowed ph c → settled_call ph c →
  (∀ a s, window_at (window_after ph c (Ok a)) s → Q a s) → (∀ e s, window_at (window_after ph c (Err e)) s → R e s) →
  triple stopped (window_at ph) (ask c) Q R.
Proof.
  intros Hc Ha HQ HR. apply (triple_asked _ _ (fun w => true_so_far ph w ∧ holds_fields ph w)); [done|..];
    intros a s (H1 & H2 & H3); [apply HQ|apply HR]; [destruct (Ha (Ok a)) as [E1 E2]|destruct (Ha (Err a)) as [E1 E2]];
    (split; [done|]); (split; [intros o Ho; by eapply truthful_later, H2|]); unfold holds_fields; by rewrite E1.
Qed.
Definition keeps_phase (ph : window_phase) {A} (m : M IO A) : Prop :=
  triple stopped (window_at ph) m (fun _ => window_at ph) (fun _ => window_at ph).
Lemma window_complete ph s r m : truthful ph (s, r, m) → keeps_phase ph (complete s r m).
Proof.
  intros Ht. unfold complete. apply triple_state. intros w. destruct (outcome w) eqn:E; [apply triple_ret; by intros s' [? _]|].
  apply triple_modify. intros s' [(H1 & H2 & H3) <-]. split; [done|]. split; [|done]. intros o [= <-]. done.
Qed.
Lemma window_expire ph : keeps_phase ph (expire).
Proof. by apply window_complete. Qed.
Definition after_dialog (ph : window_phase) (c : window_call) (yes : bool) : window_phase := window_after ph c (Ok (WClicked yes false)).
Lemma window_dialog ph c :
  (∃ name, c = WAskRemove name) ∨ c = WInfo ∨ (∃ m, c = WError m) → window_allowed ph c →
  triple stopped (window_at ph) (dialog c) (fun yes => window_at (after_dialog ph c yes)) (fun _ => somewhere).
Proof.
  intros Hk Hc. unfold dialog. eapply (triple_bind _ _ _ _ (fun a => window_at (window_after ph c (Ok a)))).
  - apply window_asks; [done| |done|intros e s; apply somewhere_at].
    intros a. by destruct Hk as [[n ->]|[->|[m ->]]], a as [[]|].
  - intros [| | | | | |yes expired]; try (intros ? H; by eapply window_stopped).
    assert (window_after ph c (Ok (WClicked yes expired)) = after_dialog ph c yes) as -> by (by destruct Hk as [[n ->]|[->|[m ->]]]).
    eapply (triple_bind _ _ _ _ (fun _ => window_at (after_dialog ph c yes))).
    + destruct expired; [|by apply triple_ret]. eapply triple_raising; [apply window_expire|]. intros e s. apply somewhere_at.
    + intros _. by apply triple_ret.
Qed.
Lemma window_show_error ph e : triple stopped (window_at ph) (show_error e) (fun _ => window_at ph) (fun _ => somewhere).
Proof.
  unfold show_error. eapply triple_bind; [apply window_dialog; [eauto|done]|]. intros yes. by apply triple_ret.
Qed.
Lemma window_shown {A} P (m : M IO A) k Q :
  triple stopped P m Q (fun _ => somewhere) → (∀ a, triple stopped (Q a) (k a) (fun _ => somewhere) (fun _ => somewhere)) →
  triple stopped P (shown m k) (fun _ => somewhere) (fun _ => somewhere).
Proof.
  intros Hm Hk. unfold shown. eapply (triple_bind _ _ _ _ (fun a s => match a with Some a => Q a s | None => somewhere s end)).
  - eapply (triple_try _ _ _ _ _ (fun _ => somewhere)).
    + change (Some <$> m) with (m ≫= fun a => mret (Some a)). eapply triple_bind; [exact Hm|]. intros a. by apply triple_ret.
    + intros e. destruct (is_exception e); [|by apply triple_raise].
      apply triple_exists. intros ph. eapply (triple_bind _ _ _ _ (fun _ => window_at ph)); [apply window_show_error|].
      intros _. apply triple_ret. intros s. apply somewhere_at.
  - intros [a|]; [apply Hk|by apply triple_ret].
Qed.
(** The secret leaves the form; the fields make the same profile. *)
Lemma window_take_secret ph : triple stopped (window_at ph) take_secret (fun _ => window_at ph) (fun _ => somewhere).
Proof.
  unfold take_secret. apply triple_state. intros w. destruct (take_key_secret (form w)) as [secret f] eqn:E.
  eapply (triple_bind _ _ _ _ (fun _ => window_at ph)).
  - apply triple_modify. intros s [(H1 & H2 & H3) <-]. split; [done|]. split; [exact H2|].
    intros Hf. rewrite <- (H3 Hf). by injection E as <- <-.
  - intros _. apply triple_lift; [done|]. intros e s _. apply somewhere_at.
Qed.
(** A call of an operation, and what it did *)
Definition told (ph : window_phase) (r : SetupStatus * dict value) (s : IO) : Prop :=
  ∃ ph', window_at ph' s ∧ r ∈ done_changes ph'.
Lemma window_result ph c st' : window_allowed ph c → changed c = Some st' →
  triple stopped (window_at ph) (ask_result c) (fun d => told ph (st', d)) (fun _ => somewhere).
Proof.
  intros Hc Hch. unfold ask_result. eapply (triple_bind _ _ _ _ (fun a => window_at (window_after ph c (Ok a)))).
  - apply window_asks; [done| |done|intros e s; apply somewhere_at].
    intros a. destruct c; try done; destruct a as [[]|]; cbn [window_after changed]; try done; (split; [done|]); cbn; set_solver.
  - intros [| | | | |d|]; try (intros ? H; by eapply window_stopped).
    apply triple_ret. intros s H. eexists. split; [exact H|].
    destruct c; try done; injection Hch as <-; cbn; set_solver.
Qed.
(** The draft that is stored, with the line of the key that was made for it *)
Definition prepared (ph : window_phase) (d' : ProfileDraft) (key : option str) : Prop :=
  ∃ d, makes ph d (draft_profile d') ∧ install_public_key d' = install_public_key d ∧ draft_name d' = draft_name d ∧
       password_profile d' = password_profile d ∧ (new_key ph = None → public_key_path d' = public_key_path d) ∧
       key = ProfileSetup.public_key <$> new_key ph.
Definition is_prepared (d : ProfileDraft) (key : option str) (s : IO) : Prop := ∃ ph, window_at ph s ∧ prepared ph d key.
Lemma window_with_new_key ph d :
  is_form (action q) = true → new_key ph = None → draft_of (fields ph) = Ok d → credential_mode d = CNewKey →
  triple stopped (window_at ph) (with_new_key d) (fun m => is_prepared m.1.1 (Some m.1.2)) (fun _ => somewhere).
Proof.
  intros Hf Hn Hd Hm. unfold with_new_key. eapply (triple_bind _ _ _ _ (fun _ => window_at ph)); [apply window_take_secret|]. intros secret.
  set (c := WGenerate _ _ _). eapply (triple_bind _ _ _ _ (fun a => window_at (window_after ph c (Ok a)))).
  - apply window_asks; [split; [done|]; split; [done|]; by exists d| |done|intros e s; apply somewhere_at].
    intros [[]|]; done.
  - intros [| | |k logged| | |]; try (intros ? H; by eapply window_stopped).
    apply triple_lift_at; [|intros e s; apply somewhere_at]. intros p Hp. apply triple_ret. intros s H. eexists. split; [exact H|].
    exists d. by repeat split.
Qed.
Lemma saved_by_install : is_form (action q) = true →
  (if bool_decide (action q = EDIT) then UPDATED else CREATED) = saved_status q.
Proof. unfold saved_status. by destruct (action q). Qed.
Lemma window_install ph d key :
  is_form (action q) = true → prepared ph d key → install_public_key d = true →
  triple stopped (window_at ph) (install_draft q d key) (fun r => told ph (saved_status q, r)) (fun _ => somewhere).
Proof.
  intros Hf (d0 & Hmakes & Hi & Hn & Hp & Hpub & Hk) Hinst. unfold install_draft.
  apply triple_lift_at; [|intros e s; apply somewhere_at]. intros staged Hst.
  assert (password_profile d = Some staged) as Hstaged by (by destruct (password_profile d); [injection Hst as <-|]).
  eapply (triple_bind _ _ _ _ (fun line s => (∀ k, new_key ph = Some k → line = ProfileSetup.public_key k) ∧ window_at ph s)).
  - destruct key as [line|].
    + apply triple_ret. intros s H. split; [|done]. intros k Hk'. rewrite Hk' in Hk. by injection Hk.
    + destruct (new_key ph) eqn:En; [done|]. apply triple_lift_at; [|intros e s; apply somewhere_at]. intros path Hpath.
      unfold required_public_path in Hpath. destruct (public_key_path d) as [path'|] eqn:Epath; [injection Hpath as ->|done].
      eapply (triple_bind _ _ _ _ (fun _ => window_at ph)).
      * apply window_asks; [exists d0, (draft_profile d); split; [done|]; split; [congruence|by rewrite <- Hpub]|by intros [[]|]| |intros e s; apply somewhere_at].
        intros a s. by destruct a.
      * intros []; try (intros ? H; by eapply window_stopped). by apply triple_ret.
  - intros line. apply triple_pure. intros Hline. apply window_result; [|cbn; by rewrite saved_by_install].
    split; [done|]. split; [done|]. exists d0. split; [done|]. split; [congruence|]. split; [done|]. split; [congruence|done].
Qed.
Definition saved_result (r : dict value) (s : IO) : Prop :=
  ∃ ph d, window_at ph s ∧ (saved_status q, d) ∈ done_changes ph ∧ (r = d ∨ ∃ logged, r = attach logged d).
Lemma window_persist ph d :
  is_form (action q) = true → new_key ph = None → draft_of (fields ph) = Ok d →
  triple stopped (window_at ph) (persist_draft q d) saved_result (fun _ => somewhere).
Proof.
  intros Hf Hn Hd. unfold persist_draft.
  eapply (triple_bind _ _ _ _ (fun m => is_prepared m.1.1 m.1.2)).
  - case_bool_decide as Hc.
    + eapply triple_bind; [by apply (window_with_new_key ph)|]. intros m. by apply triple_ret.
    + apply triple_ret. intros s H. exists ph. split; [done|]. exists d. rewrite Hn. by repeat split; try done; rewrite Hn.
  - intros [[d' key] audit]. apply triple_exists. intros ph'. 
    apply (triple_before _ _ (fun s => prepared ph' d' key ∧ window_at ph' s)); [|by intros s [? ?]]. apply triple_pure. intros Hprep.
    eapply (triple_bind _ _ _ _ (fun r => told ph' (saved_status q, r))).
    + destruct (install_public_key d') eqn:Ei; [by apply window_install|].
      destruct Hprep as (d0 & Hmakes & Hi & Hname & _). unfold saved_status.
      case_bool_decide as Ha; (apply window_result; [|done]); (split; [|exists d0; split; [done|]; split; congruence]).
      * done.
      * by destruct (action q).
    + intros r. apply triple_ret. intros s (ph2 & H & Hin). exists ph2, r. split; [done|]. split; [done|].
      destruct audit; [right; by eexists|by left].
Qed.
Lemma window_save ph :
  is_form (action q) = true → new_key ph = None →
  triple stopped (window_at ph) (save resolve is_file with_pub join_path USERPROFILE q) (fun _ => somewhere) (fun _ => somewhere).
Proof.
  intros Hf Hn. unfold save. apply (window_shown _ _ _ saved_result).
  - apply triple_state. intros w. apply (triple_before _ _ (fun s => draft_of (form w) = draft_of (fields ph) ∧ window_at ph s)).
    + apply triple_pure. intros Hw. apply triple_lift_at; [|intros e s; apply somewhere_at]. intros d Hd. apply window_persist; [done..|congruence].
    + intros s [(H1 & H2 & H3) <-]. split; [by apply H3|done].
  - intros r. apply triple_exists. intros ph'. apply triple_exists. intros d.
    apply (triple_before _ _ (fun s => truthful ph' (saved_status q, Some r, None) ∧ window_at ph' s)).
    + apply triple_pure. intros Ht. eapply triple_conseq; [by apply window_complete|done|intros ? s; apply somewhere_at|intros ? s; apply somewhere_at|done].
    + intros s (H & Hin & Hr). split; [|done]. unfold saved_status in *.
      destruct (bool_decide _); (split; [done|]); exists d; (split; [done|]); destruct Hr as [->|[b ->]]; eauto.
Qed.
Lemma window_step ph n : triple stopped (window_at ph) (set_step n) (fun _ => window_at ph) (fun _ => somewhere).
Proof. apply triple_modify. intros s (H1 & H2 & H3). by repeat split. Qed.
Lemma to_somewhere {A} ph (m : M IO A) R : triple stopped (window_at ph) m (fun _ => window_at ph) R →
  (∀ e s, R e s → somewhere s) → triple stopped (window_at ph) m (fun _ => somewhere) (fun _ => somewhere).
Proof. intros Hm HR. eapply triple_conseq; [exact Hm|done|intros ? s; apply somewhere_at|exact HR|done]. Qed.
Lemma window_primary ph :
  is_form (action q) = true → new_key ph = None →
  triple stopped (window_at ph) (primary resolve is_file with_pub join_path USERPROFILE q) (fun _ => somewhere) (fun _ => somewhere).
Proof.
  intros Hf Hn. unfold primary. apply triple_state. intros w. apply (triple_before _ _ (window_at ph)); [|by intros s [? _]].
  destruct (_ =? _)%nat; [by apply window_save|]. apply (window_shown _ _ _ (fun _ => somewhere)); [|intros []; by apply triple_ret].
  apply triple_lift_at; [|intros e s; apply somewhere_at]. intros n _. by eapply to_somewhere; [apply window_step|].
Qed.
Lemma window_remove ph :
  action q = REMOVE → triple stopped (window_at ph) (remove q) (fun _ => somewhere) (fun _ => somewhere).
Proof.
  intros Ha. unfold remove. eapply triple_bind; [apply window_dialog; [by left; eexists|done]|].
  intros [|]; cbv beta; [|apply triple_ret; intros s; apply somewhere_at].
  apply (window_shown _ _ _ (fun d => told (after_dialog ph (WAskRemove (requested_name q)) true) (REMOVED, d))); [by apply window_result|].
  intros d. apply triple_exists. intros ph'. apply (triple_before _ _ (fun s => (REMOVED, d) ∈ done_changes ph' ∧ window_at ph' s)); [|by intros s [? ?]].
  apply triple_pure. intros Hin. eapply to_somewhere; [apply window_complete|intros e s; apply somewhere_at]. by split; [|eauto].
Qed.
Lemma window_test ph :
  action q = TEST → triple stopped (window_at ph) (test q) (fun _ => somewhere) (fun _ => somewhere).
Proof.
  intros Ha. unfold test. apply (window_shown _ _ _ (fun d => told ph (TESTED, d))); [by apply window_result|].
  intros d. apply triple_exists. intros ph'. apply (triple_before _ _ (fun s => (TESTED, d) ∈ done_changes ph' ∧ window_at ph' s)); [|by intros s [? ?]].
  apply triple_pure. intros Hin. eapply triple_bind; [apply window_dialog; [by auto|done]|]. intros yes.
  eapply to_somewhere; [apply window_complete|intros e s; apply somewhere_at]. by split; [|eauto].
Qed.
(** An event that has just arrived *)
Definition arrived (ph : window_phase) (e : event) (s : IO) : Prop :=
  at_phase window_allowed window_after tr scr starts ph s ∧ true_so_far ph (st s) ∧
  (∀ f, e = EEdit f → fields ph = f) ∧ ((∀ f, e ≠ EEdit f) → holds_fields ph (st s)).
Lemma window_handle ph e : new_key ph = None →
  triple stopped (arrived ph e) (handle resolve is_file with_pub join_path USERPROFILE q e) (fun _ => somewhere) (fun _ => somewhere).
Proof.
  intros Hn. assert ((∀ f, e ≠ EEdit f) → ∀ s, arrived ph e s → window_at ph s) as Hno by (intros He s (H1 & H2 & _ & H3); split; auto).
  unfold handle. destruct (is_form (action q)) eqn:Hf.
  - destruct e; try (apply (triple_before _ _ (window_at ph)); [|by apply Hno]).
    + apply triple_modify. intros s (H1 & H2 & H3 & _). exists ph. split; [done|]. split; [exact H2|]. intros _. cbn. by rewrite (H3 _ eq_refl).
    + by apply window_primary.
    + unfold back. apply triple_state. intros w. eapply triple_before; [eapply to_somewhere; [apply window_step|done]|by intros s [? _]].
    + apply triple_ret. intros s. apply somewhere_at.
    + eapply to_somewhere; [by apply window_complete|intros ? s; apply somewhere_at].
    + eapply to_somewhere; [by apply window_expire|intros ? s; apply somewhere_at].
    + apply triple_ret. intros s. apply somewhere_at.
  - destruct e; try (apply (triple_before _ _ (window_at ph)); [|by apply Hno]);
      try (apply triple_ret; intros s; apply somewhere_at).
    + apply triple_ret. intros s (H1 & H2 & _). exists ph. split; [done|]. split; [done|]. intros Hf'. congruence.
    + case_bool_decide as Ha; [by apply window_remove|]. apply window_test. by destruct (action q).
    + eapply to_somewhere; [by apply window_complete|intros ? s; apply somewhere_at].
    + eapply to_somewhere; [by apply window_expire|intros ? s; apply somewhere_at].
Qed.
Lemma window_next ph : 
  triple stopped (window_at ph) (ask WNext)
    (fun a s => match a with WEvent e => ∃ ph', new_key ph' = None ∧ arrived ph' e s | _ => stopped s end) (fun _ => somewhere).
Proof.
  apply (triple_asked _ _ (fun w => true_so_far ph w ∧ holds_fields ph w)); [done|..].
  - intros a s (H1 & H2 & H3). destruct a as [|e|snapshot|k b|l|d|y x]; try (by eapply at_phase_obeyed).
    eexists. split; [|split; [exact H1|]]; [by destruct e|].
    split; [intros o Ho; specialize (H2 o Ho); eapply truthful_later, H2; by destruct e|].
    split; [by intros f ->|]. intros Hne. destruct e as [f| | | | | |]; try exact H3. by destruct (Hne f).
  - intros e s (H1 & H2 & H3). eexists. split; [exact H1|]. by split.
Qed.
Lemma window_mainloop fuel :
  triple stopped somewhere (mainloop resolve is_file with_pub join_path USERPROFILE q fuel) (fun _ => somewhere) (fun _ => somewhere).
Proof.
  induction fuel as [|fuel IH]; cbn [mainloop]; [intros s [ph H]; by eapply window_stopped|].
  apply triple_state. intros w. apply (triple_before _ _ somewhere); [|by intros s [? _]].
  destruct (outcome w); [by apply triple_ret|]. apply triple_exists. intros ph. eapply triple_bind; [apply window_next|].
  intros [|e| | | | |]; try (intros ? H; exact H). apply triple_exists. intros ph'. apply triple_pure. intros Hn.
  assert (triple stopped (arrived ph' e)
     (try_except (handle resolve is_file with_pub join_path USERPROFILE q e) (fun _ => mret tt);;
      mainloop resolve is_file with_pub join_path USERPROFILE q fuel) (fun _ => somewhere) (fun _ => somewhere)) as Hstep.
  { eapply (triple_bind _ _ _ _ (fun _ => somewhere)); [|by intros _].
    eapply triple_try; [by apply window_handle|]. intros e'. by apply triple_ret. }
  destruct e; try exact Hstep. apply triple_ret. intros s (H1 & H2 & _ & H3). exists ph'. split; [done|]. split; [done|]. by apply H3.
Qed.
(** Building the window: the form is filled from the profile that was loaded. *)
Definition building (ph : window_phase) (s : IO) : Prop :=
  at_phase window_allowed window_after tr scr starts ph s ∧ outcome (st s) = None.
Lemma building_stopped ph s : building ph s → stopped s.
Proof. intros [H _]. by eapply at_phase_obeyed. Qed.
Lemma built ph s f : building ph s → (is_form (action q) = true → f = fields ph) → somewhere (Io (Window f (current_step (st s)) (outcome (st s))) (script s) (trace s)).
Proof. intros [H Ho] Hf. exists ph. split; [exact H|]. split; [intros o; cbn; by rewrite Ho|]. intros Hform. cbn. by rewrite (Hf Hform). Qed.
Lemma window_existing_profile :
  triple stopped (building starts) (existing_profile q) (fun p s => ∃ ph, building ph s ∧ fields ph = initial_fields (Some p)) (fun _ => stopped).
Proof.
  unfold existing_profile. eapply (triple_bind _ _ _ _ (fun a => building (window_after starts WLoad (Ok a)))).
  - apply (triple_asked _ _ (fun w => outcome w = None)); [done|done|]. intros e s. apply building_stopped.
  - intros []; try (intros ? H; by eapply building_stopped). cbn [window_after].
    destruct (dget _ _) as [p|]; [|apply triple_raise; intros s'; apply building_stopped].
    apply triple_ret. intros s' H. eexists. split; [exact H|done].
Qed.
Lemma window_build : triple stopped (building starts) (build q) (fun _ => somewhere) (fun _ => stopped).
Proof.
  unfold build. case_bool_decide as Ha.
  - apply triple_modify. intros s H. by apply (built starts).
  - eapply triple_bind; [apply window_existing_profile|]. intros p. apply triple_exists. intros ph.
    apply (triple_before _ _ (fun s => fields ph = initial_fields (Some p) ∧ building ph s)); [|by intros s [? ?]].
    apply triple_pure. intros Hfd. case_bool_decide as He.
    + apply triple_modify. intros s H. by apply (built ph).
    + apply triple_ret. intros s [H Ho]. exists ph. split; [done|]. split; [intros o; by rewrite Ho|].
      intros Hf. by destruct (action q).
Qed.
End run.
(** C18: the setup window changes what the user saw, and reports what
    was done.  Whatever the user does and whatever the operations answer, a window
    asks only for the operations of its own request: it stores or installs the
    profile that its fields make (with the file of the key made for the same click),
    it generates a key only when the fields ask for one, removes the
    requested profile only after the user said yes, and tests only the requested one;
    and the outcome it returns names a change only if an operation of
    that kind succeeded, with its result, and carries no result otherwise. *)
Theorem window_tells_what_was_done (s : IO) :
  outcome (st s) = None →
  match run_window resolve is_file with_pub join_path USERPROFILE q s with
  | (Ret o, s') => ∃ ph, at_phase window_allowed window_after (trace s) (script s) starts ph s' ∧ truthful ph o
  | (_, s') => obeyed window_allowed window_after (trace s) (script s) starts s'
  end.
Proof.
  intros Hs. set (tr := trace s). set (scr := script s).
  enough (triple (obeyed window_allowed window_after tr scr starts) (building tr scr starts)
    (run_window resolve is_file with_pub join_path USERPROFILE q)
    (fun o s' => ∃ ph, at_phase window_allowed window_after tr scr starts ph s' ∧ truthful ph o)
    (fun _ => obeyed window_allowed window_after tr scr starts)) as H
    by (specialize (H s ltac:(split; [apply at_phase_start|done])); by destruct (run_window _ _ _ _ _ _ s) as [[]]).
  unfold run_window. eapply (triple_bind _ _ _ _ (fun _ => somewhere tr scr)); [apply window_build|]. intros _. apply triple_get. intros x Hx.
  eapply (triple_bind _ _ _ _ (fun _ => somewhere tr scr)).
  - eapply (triple_raising _ _ _ _ _ (fun _ => somewhere tr scr)); [|intros e s' [ph H]; by eapply window_stopped].
    apply (triple_before _ _ (somewhere tr scr)); [apply window_mainloop|by intros s' ->].
  - intros _. apply triple_state. intros w. apply triple_ret. intros s' [[ph (H1 & H2 & H3)] <-]. exists ph. split; [exact H1|].
    destruct (outcome (st s')) as [o|] eqn:E; [by apply H2|done].
Qed.
End telling.

(** ** The program *)
Inductive app_call : Type :=
  | AExpireIfNeeded                                                          (* store.expire_if_needed *)
  | AUpdate (s : SetupStatus) (result : option (dict value)) (message : option str)   (* store.update *)
  | AWindow (r : SetupRecord)                                                (* the window is made and runs *)
  | ALoad.                                                                   (* store.load *)
Inductive app_reply : Type := ARecord (r : SetupRecord) | AOutcome (o : window_outcome).
Section app.
Abbreviation IO := (io unit app_call app_reply).
Abbreviation P := (M IO).
Definition is_change (s : SetupStatus) : bool := match s with CREATED | UPDATED | REMOVED | TESTED => true | _ => false end.
Definition ask_record (c : app_call) : P SetupRecord := r ← ask c; match r with ARecord r => mret r | _ => hang end.
Definition program_failed : str := u "The local setup program failed before completion.".
(** [except Exception: pass] *)
Definition mark_failed : P unit :=
  try_except
    (current ← ask_record ALoad;
     if negb (terminal (status current)) then ask_record (AUpdate FAILED None (Some program_failed));; mret tt else mret tt)
    (fun e => if is_exception e then mret tt else raise e).
Definition run_setup_app : P Z :=
  try_except
    (r ← ask_record AExpireIfNeeded;
     if negb (bool_decide (status r = PENDING)) then mret 3
     else
       running ← ask_record (AUpdate RUNNING None None);
       a ← ask (AWindow running);
       match a with
       | AOutcome (s, result, message) =>
           ask_record (AUpdate s result message);;
           mret (if is_change s then 0 else 2)
       | _ => hang
       end)
    (fun e => if is_exception e then mark_failed;; mret 3 else raise e).

(** What the program asked the store and the window, and what they answered *)
Definition reported (s : SetupStatus) (asked : list app_call) (scr : list (res app_reply)) : Prop :=
  ∃ r running result message stored rest,
    status r = PENDING ∧
    asked = [AExpireIfNeeded; AUpdate RUNNING None None; AWindow running; AUpdate s result message] ∧
    scr = Ok (ARecord r) :: Ok (ARecord running) :: Ok (AOutcome (s, result, message)) :: Ok (ARecord stored) :: rest.
(** Nothing was started, or the request was looked at again and failed if it was open. *)
Definition given_up (asked : list app_call) (scr : list (res app_reply)) : Prop :=
  (∃ r rest, asked = [AExpireIfNeeded] ∧ scr = Ok (ARecord r) :: rest ∧ status r ≠ PENDING) ∨
  (∃ before answered e a rest,
     scr = answered ++ Err e :: a :: rest ∧ is_exception e = true ∧ length before = S (length answered) ∧
     ((asked = before ++ [ALoad] ∧ ∀ current, a = Ok (ARecord current) → terminal (status current) = true) ∨
      (asked = before ++ [ALoad; AUpdate FAILED None (Some program_failed)] ∧
       ∃ current, a = Ok (ARecord current) ∧ terminal (status current) = false))).
(** Giving up after the calls [before], the last of which failed *)
Lemma gives_up e before answered rest :
  is_exception e = true → length before = S (length answered) →
  match (mark_failed;; mret 3 : P Z) (Io tt rest before) with
  | (Ret c, s) => c = 3 ∧ given_up (trace s) (answered ++ Err e :: rest)
  | (Raise e', _) => is_exception e' = false
  | (Hang, _) => True
  end.
Proof.
  intros He Hl. unfold mark_failed, ask_record, try_except, mbind, prog_mbind, prog_bind.
  destruct rest as [|[[current|o]|e1] rest]; [done| |done|].
  - cbn. destruct (terminal (status current)) eqn:Ht; cbn.
    + split; [done|]. right. exists before, answered, e. do 2 eexists. split; [done|]. split; [done|]. split; [done|]. left.
      split; [done|]. by intros ? [= <-].
    + assert (given_up ((before ++ [ALoad]) ++ [AUpdate FAILED None (Some program_failed)]) (answered ++ Err e :: Ok (ARecord current) :: rest)) as Hg.
      { right. exists before, answered, e. do 2 eexists. split; [done|]. split; [done|]. split; [done|]. right.
        rewrite <- app_assoc. split; [done|]. by exists current. }
      destruct rest as [|[[r|o]|e2] rest]; cbn; [done|by split|done|]. destruct (is_exception e2) eqn:E; cbn; [by split|done].
  - cbn. destruct (is_exception e1) eqn:E; cbn; [|done]. split; [done|]. right. exists before, answered, e. do 2 eexists.
    split; [done|]. split; [done|]. split; [done|]. left. by split.
Qed.
(** The setup program reports what it stored.  Whatever the store
    and the window answer, exit code 0 means that the store accepted a change the
    window reported for a request that was pending, and 2 that it accepted an outcome without a change;
    exit code 3 means that the request was not pending, or that something failed,
    the request was loaded again and marked as failed if it was still open; there is
    no other code and no exception but an interruption. *)
Theorem setup_program_reports scr :
  match run_setup_app (Io tt scr []) with
  | (Ret code, s) =>
      (∃ st', reported st' (trace s) scr ∧ code = (if is_change st' then 0 else 2)) ∨ (code = 3 ∧ given_up (trace s) scr)
  | (Raise e, _) => is_exception e = false
  | (Hang, _) => True
  end.
Proof.
  assert (∀ e before answered rest, length before = S (length answered) →
    match (if is_exception e then mark_failed;; mret 3 else raise e : P Z) (Io tt rest before) with
    | (Ret code, s) =>
        (∃ st', reported st' (trace s) (answered ++ Err e :: rest) ∧ code = (if is_change st' then 0 else 2)) ∨
        (code = 3 ∧ given_up (trace s) (answered ++ Err e :: rest))
    | (Raise e', _) => is_exception e' = false
    | (Hang, _) => True
    end) as Hfail.
  { intros e before answered rest Hl. destruct (is_exception e) eqn:He; [|done].
    pose proof (gives_up e before answered rest He Hl) as H. destruct ((mark_failed;; mret 3 : P Z) _) as [[c|e'|] s]; [|done..]. by right. }
  unfold run_setup_app. destruct scr as [|[[r|o]|e] scr]; [done| |done|exact (Hfail e [_] [] scr eq_refl)].
  destruct (decide (status r = PENDING)) as [Hr|Hr].
  2: { unfold ask_record, try_except, mbind, prog_mbind, prog_bind. cbn. rewrite bool_decide_eq_false_2 by done. cbn.
       right. split; [done|]. left. by exists r, scr. }
  destruct scr as [|[[running|o]|e] scr].
  - unfold ask_record, try_except, mbind, prog_mbind, prog_bind. cbn. by rewrite bool_decide_eq_true_2.
  - destruct scr as [|[[r'|[[st' result] message]]|e] scr].
    all: unfold ask_record, try_except, mbind, prog_mbind, prog_bind; cbn -[mark_failed]; rewrite bool_decide_eq_true_2 by done; cbn -[mark_failed].
    1, 2: done.
    2: exact (Hfail e [_; _; _] [_; _] scr eq_refl).
    destruct scr as [|[[stored|o]|e] scr]; [done| |done|exact (Hfail e [_; _; _; _] [_; _; _] scr eq_refl)].
    left. exists st'. split; [|done]. by exists r, running, result, message, stored, scr.
  - unfold ask_record, try_except, mbind, prog_mbind, prog_bind. cbn. by rewrite bool_decide_eq_true_2.
  - unfold ask_record, try_except, mbind, prog_mbind, prog_bind. cbn -[mark_failed]. rewrite bool_decide_eq_true_2 by done.
    exact (Hfail e [_; _] [_] scr eq_refl).
Qed.
End app.

(** ** Runs *)
Definition open_form (answers : list (res window_reply)) : io window window_call window_reply :=
  Io (Window (form_state None None None None) 0 None) answers [].
Definition remove_request : SetupRequest :=
  Request (u "setup-000000000000000000000000") REMOVE (Finite (qz 0)) (Finite (qz 1800)) (Some (u "web")) None None.
Definition removed_result : dict value := [(u "profile_name", VStr (u "web"))].
Definition remove_script : list (res window_reply) :=
  [Ok (WSnapshot (Snapshot (Config [(u "web", alias_profile)] 2) (u "hash"))); Ok (WEvent EAction); Ok (WClicked true false);
   Ok (WResult removed_result)].
Lemma window_tells_what_was_done_witness :
  ∃ s' ph,
    run_window (U := ascii_db) Ok (fun _ => true) Ok (fun a b => a ++ u "\" ++ b) None remove_request (open_form remove_script)
      = (Ret (REMOVED, Some removed_result, None), s') ∧
    at_phase (window_allowed (U := ascii_db) Ok (fun _ => true) Ok (fun a b => a ++ u "\" ++ b) None remove_request) (window_after remove_request) []
      remove_script (starts remove_request) ph s' ∧
    truthful ph (REMOVED, Some removed_result, None).
Proof.
  pose proof (window_tells_what_was_done (U := ascii_db) Ok (fun _ => true) Ok (fun a b => a ++ u "\" ++ b) None remove_request
    (open_form remove_script) eq_refl) as H.
  assert (∃ s', run_window (U := ascii_db) Ok (fun _ => true) Ok (fun a b => a ++ u "\" ++ b) None remove_request (open_form remove_script)
      = (Ret (REMOVED, Some removed_result, None), s')) as [s' E] by (eexists; vm_compute; reflexivity).
  rewrite E in H. destruct H as [ph [H1 H2]]. exists s', ph. split; [exact E|]. by split.
Defined.

(** A second attempt has no passphrase: taking the secret empties the fields,
    so a save that is tried again after the key could not be made asks for a key
    that nothing protects. *)
Lemma second_secret_is_empty f : (take_key_secret (take_key_secret f).2).1 = Ok [].
Proof. reflexivity. Qed.
Definition add_request : SetupRequest :=
  Request (u "setup-000000000000000000000000") ADD (Finite (qz 0)) (Finite (qz 1800)) (Some (u "web")) None None.
Definition key_form : FormState :=
  Form (u "web") (u "Web") (connection_label DIRECT) (u "example.org") (u "deploy") (u "22") (credential_label CNewKey) (u "/k") [] false []
    true false false (elevation_label DISABLED) false (u "unspecified") (u "60") (u "2097152") (u "secret") (u "secret").
Definition retry_script : list (res window_reply) :=
  [Ok (WEvent (EEdit key_form)); Ok (WEvent EPrimary); Ok (WEvent EPrimary); Ok (WEvent EPrimary); Ok (WEvent EPrimary);
   Err (Builtin RuntimeError (u "ssh-keygen did not create the Ed25519 key")); Ok (WClicked true false);
   Ok (WEvent EPrimary)].
Example retried_key_has_no_passphrase :
  List.filter (fun c => match c with WGenerate _ _ _ => true | _ => false end)
    (trace (run_window (U := ascii_db) Ok (fun _ => true) Ok (fun a b => a ++ u "\" ++ b) None add_request (open_form retry_script)).2)
  = [WGenerate (u "web") (u "secret") (Some (u "/k")); WGenerate (u "web") [] (Some (u "/k"))].
Proof. vm_compute. reflexivity. Qed.
