(* ===== verification/ConPty.v ===== *)
(** * ConPty: a child process in a pseudo console (terminal/conpty.py, terminal/contracts.py)

    The process that owns the child, the thread that reads its output into the
    buffer of [RingBuffer], and the answers to the queries of the terminal
    protocol.  pywinpty and the clock answer from a script. *)
From S2P Require Import Prelude Errors Text TextFacts Prog RingBuffer BrokerTask.

Inductive pty_call : Type :=
  | TSpawn (command_line : str) (cwd : option str) (environment : option (dict str)) (rows columns : Z)   (* PtyProcess.spawn *)
  | TStartReader                                                (* Thread.start() *)
  | TAlive                                                      (* process.isalive() *)
  | TRead                                                       (* process.read(4096) *)
  | TWrite (text : str) | TInterrupt | TSetSize (rows columns : Z)
  | TMonotonic | TSleep
  | TExitCode                                                   (* process.wait() *)
  | TTerminate
  | TClose | TCancelIo | TCloseFile | TCloseServer              (* process.close, pty.cancel_io, fileobj.close, _server.close *)
  | TJoin.                                                      (* reader.join(timeout=2) *)
Inductive pty_reply : Type := TDone | TFlag (b : bool) | TText (text : str) | TTime (t : Q) | TCode (code : Z).

(** [_process is not None] and [_reader is not None] are [started] and [reading]. *)
Record conpty := ConPty {
  backend_name : str; ring : TerminalRingBuffer; started : bool; reading : bool; closed : bool;
  device_attributes_replies : Z; cursor_position_replies : Z; protocol_tail : str }.
(** [ConPtyError] is a [RuntimeError]. *)
Definition conpty_error (m : str) : exn := Builtin RuntimeError m.
Definition DEVICE_ATTRIBUTES : str := esc ++ u "[c".
Definition CURSOR_POSITION : str := esc ++ u "[6n".
Definition DEVICE_REPLY : str := esc ++ u "[?1;0c".
Definition CURSOR_REPLY : str := esc ++ u "[1;1R".
Definition TAIL : nat := 16.

Definition new_conpty (max_output_bytes : Z) (backend : str) : res conpty :=
  raise_if (negb (str_eqb backend (u "conpty") || str_eqb backend (u "winpty"))) (value_error (u "backend must be 'conpty' or 'winpty'"));;
  b ← new_ring max_output_bytes;
  Ok (ConPty backend b false false false 0 0 []).

Section process.
Context {U : UnicodeDB}.
(** The exceptions [EOFError] and [winpty.WinptyError] *)
Variable is_pty_end : exn → bool.
Abbreviation IO := (io conpty pty_call pty_reply).
Abbreviation P := (M IO).
Definition perform (c : pty_call) : P unit := ask c;; mret tt.
Definition flag (c : pty_call) : P bool := r ← ask c; match r with TFlag b => mret b | _ => hang end.
Definition monotonic : P Q := r ← ask TMonotonic; match r with TTime t => mret t | _ => hang end.
(** [except Exception as exc: raise ConPtyError(...) from exc] *)
Definition controlled_by {A} (message : str) (m : P A) : P A :=
  try_except m (fun e => if is_exception e then raise (conpty_error (message ++ error_message e)) else raise e).
Definition require_process : P unit :=
  c ← state; lift (raise_if (negb (started c)) (conpty_error (u "process has not been started"))).
Definition require_open (message : str) : P unit :=
  c ← state; lift (raise_if (closed c) (conpty_error message)).
Definition running : P bool := c ← state; if started c then flag TAlive else mret false.
Definition bad_dimensions (columns rows : Z) : bool :=
  negb ((1 <=? columns) && (columns <=? 32767) && ((1 <=? rows) && (rows <=? 32767))).
Definition out_of_range : exn := value_error (u "terminal dimensions are out of range").

Definition set_started : P unit :=
  update (fun c => ConPty (backend_name c) (ring c) true (reading c) (closed c) (device_attributes_replies c) (cursor_position_replies c) (protocol_tail c)).
Definition set_reading : P unit :=
  update (fun c => ConPty (backend_name c) (ring c) (started c) true (closed c) (device_attributes_replies c) (cursor_position_replies c) (protocol_tail c)).
Definition set_closed : P unit :=
  update (fun c => ConPty (backend_name c) (ring c) (started c) (reading c) true (device_attributes_replies c) (cursor_position_replies c) (protocol_tail c)).
Definition on_ring (f : TerminalRingBuffer → TerminalRingBuffer) : P unit :=
  update (fun c => ConPty (backend_name c) (f (ring c)) (started c) (reading c) (closed c) (device_attributes_replies c) (cursor_position_replies c) (protocol_tail c)).
Definition set_tail (t : str) : P unit :=
  update (fun c => ConPty (backend_name c) (ring c) (started c) (reading c) (closed c) (device_attributes_replies c) (cursor_position_replies c) t).
Definition set_device_replies (n : Z) : P unit :=
  update (fun c => ConPty (backend_name c) (ring c) (started c) (reading c) (closed c) n (cursor_position_replies c) (protocol_tail c)).
Definition set_cursor_replies (n : Z) : P unit :=
  update (fun c => ConPty (backend_name c) (ring c) (started c) (reading c) (closed c) (device_attributes_replies c) n (protocol_tail c)).

Definition start (arguments : list str) (cwd : option str) (environment : option (dict str)) (columns rows : Z) : P unit :=
  c ← state;
  lift (raise_if (started c) (conpty_error (u "process already started")));;
  lift (raise_if (bool_decide (arguments = [])) (value_error (u "arguments must not be empty")));;
  lift (raise_if (bad_dimensions columns rows) out_of_range);;
  controlled_by (u "could not start ConPTY child: ") (perform (TSpawn (list2cmdline arguments) cwd environment rows columns);; set_started);;
  set_reading;;
  perform TStartReader.
Definition write_text (text : str) : P unit :=
  require_process;;
  require_open (u "terminal input is closed");;
  controlled_by (u "could not write ConPTY input: ") (perform (TWrite text)).
Definition write (data : bytes) : P unit :=
  match data with
  | [] => mret tt
  | _ =>
      match utf8_decode data with
      | UText t => write_text t
      | UBad _ _ => raise (value_error (u "ConPTY input must be valid UTF-8"))
      end
  end.
Definition interrupt : P unit :=
  require_process;;
  require_open (u "terminal input is closed");;
  controlled_by (u "could not send ConPTY interrupt: ") (perform TInterrupt).
Definition resize (columns rows : Z) : P unit :=
  lift (raise_if (bad_dimensions columns rows) out_of_range);;
  require_process;;
  require_open (u "pseudoconsole is closed");;
  controlled_by (u "could not resize ConPTY: ") (perform (TSetSize rows columns)).
Fixpoint wait_exit (fuel : nat) (deadline : option Q) : P (option Z) :=
  match fuel with
  | O => hang
  | S fuel =>
      alive ← flag TAlive;
      if alive : bool then
        over ← (match deadline with Some d => now ← monotonic; mret (qle d now) | None => mret false end);
        if over : bool then mret None else perform TSleep;; wait_exit fuel deadline
      else r ← ask TExitCode; match r with TCode code => mret (Some code) | _ => hang end
  end.
Definition wait (timeout : option Q) : P (option Z) :=
  require_process;;
  deadline ← (match timeout with Some t => now ← monotonic; mret (Some (qadd now t)) | None => mret None end);
  s ← Prelude.get; wait_exit (S (length (script s))) deadline.
Definition terminate : P unit :=
  c ← state;
  alive ← (if started c then flag TAlive else mret false);
  if alive : bool then controlled_by (u "could not terminate ConPTY child: ") (perform TTerminate) else mret tt.
Definition close : P unit :=
  c ← state;
  if closed c then mret tt
  else
    set_closed;;
    (if started c then
       suppress (fun e => is_os_error e || is_pty_end e) (perform TClose);;
       suppress is_exception (perform TCancelIo);;
       suppress is_exception (perform TCloseFile);;
       suppress is_exception (perform TCloseServer)
     else mret tt);;
    (if reading c then perform TJoin else mret tt);;
    on_ring close_ring.

(** ** The reader *)
Definition last_part (text : str) : str := drop (length text - TAIL) text.
(** Answering what was not answered before *)
Definition answer (query reply combined : str) (answered : conpty → Z) (set_answered : Z → P unit) : P unit :=
  c ← state;
  let queries := count query combined in
  if answered c <? queries
  then for_each (repeat tt (Z.to_nat (queries - answered c))) (fun _ => write_text reply);; set_answered queries
  else mret tt.
Definition answer_terminal_protocol_queries (text : str) : P unit :=
  c ← state;
  let combined := protocol_tail c ++ text in
  set_tail (last_part combined);;
  answer DEVICE_ATTRIBUTES DEVICE_REPLY combined device_attributes_replies set_device_replies;;
  answer CURSOR_POSITION CURSOR_REPLY combined cursor_position_replies set_cursor_replies.
Fixpoint read_loop (fuel : nat) : P unit :=
  match fuel with
  | O => hang
  | S fuel =>
      alive ← flag TAlive;
      if alive : bool then
        text ← try_except (r ← ask TRead; match r with TText t => mret (Some t) | _ => hang end)
                 (fun e => if is_os_error e || is_pty_end e then mret None else raise e);
        match text with
        | None => mret tt
        | Some [] => read_loop fuel
        | Some t =>
            content ← lift (utf8_encode t);
            on_ring (append content);;
            answer_terminal_protocol_queries t;;
            read_loop fuel
        end
      else mret tt
  end.
Definition read_output : P unit :=
  require_process;;
  s ← Prelude.get;
  try_finally (read_loop (S (length (script s)))) (on_ring close_ring).
End process.

(** The loops end with their answers. *)
Section bounds.
Context {U : UnicodeDB}.
Variable is_pty_end : exn → bool.
Lemma flag_fewer k c : triple (fun _ => True) (within k) (flag c : M (io conpty pty_call pty_reply) bool) (fun _ => fewer k) (fun _ => fewer k).
Proof. unfold flag. eapply triple_bind; [apply triple_ask_fewer|]. intros []; try done; by apply triple_ret. Qed.
Lemma wait_exit_agree deadline k n m : (k < n)%nat → (k < m)%nat → agree k (wait_exit n deadline) (wait_exit m deadline).
Proof.
  revert k m. induction n as [|n IH]; intros k [|m] Hn Hm; [lia..|]. cbn [wait_exit].
  eapply agree_consumed; [apply flag_fewer|]. intros [] k' Hk; [|apply agree_refl].
  apply agree_bind; [apply agree_refl| |].
  - destruct deadline; [|by apply spec_ret]. unfold monotonic. apply (spec_bind _ _ anything); [|intros ? _; by apply spec_ret].
    eapply spec_bind; [apply spec_ask_within|]. intros [] _; try apply spec_hang; by apply spec_ret.
  - intros []; [apply agree_refl|]. apply agree_bind; [apply agree_refl| |intros _; apply IH; lia].
    unfold perform. eapply spec_bind; [apply spec_ask_within|]. intros ? _. by apply spec_ret.
Qed.
End bounds.

(** ** Counting queries *)
(** The places where [p] is *)
Fixpoint occurrences (p s : str) : nat :=
  match s with
  | [] => 0%nat
  | _ :: s' => ((if starts_with p s then 1 else 0) + occurrences p s')%nat
  end.
Lemma occurrences_drop p s k : (occurrences p (drop k s) <= occurrences p s)%nat.
Proof. revert k. induction s as [|c s IH]; intros [|k]; cbn [drop]; [done..|]. specialize (IH k). cbn [occurrences]. lia. Qed.
Lemma occurrences_some p a b : p ≠ [] → (0 < occurrences p (a ++ p ++ b))%nat.
Proof.
  intros Hp. induction a as [|c a IH]; cbn [app].
  - destruct p as [|x p]; [done|]. cbn [app occurrences]. change (x :: p ++ b) with ((x :: p) ++ b). rewrite starts_with_app. lia.
  - cbn [occurrences]. lia.
Qed.
Lemma occurrences_found p s : (0 < occurrences p s)%nat → ∃ a b, s = a ++ p ++ b.
Proof.
  induction s as [|c s IH]; cbn [occurrences]; [lia|]. destruct (starts_with p (c :: s)) eqn:E.
  - intros _. apply starts_with_spec in E as [t ->]. by exists [], t.
  - intros H. destruct IH as (a & b & ->); [lia|]. by exists (c :: a), b.
Qed.
(** A first occurrence at the end is still in what is kept. *)
Lemma occurrences_kept p seen text k :
  (length p <= TAIL)%nat → p ≠ [] → (k <= length seen - TAIL)%nat → occurrences p seen = 0%nat →
  (0 < occurrences p (seen ++ text))%nat → (0 < occurrences p (drop k (seen ++ text)))%nat.
Proof.
  intros Hl Hp Hk H0 H. apply occurrences_found in H as (a & b & E).
  destruct (le_lt_dec (length a + length p) (length seen)) as [Hle|Hgt].
  - assert (seen = a ++ p ++ take (length seen - length a - length p) b) as E'.
    { apply (f_equal (take (length seen))) in E. rewrite take_app_length in E. rewrite E at 1.
      rewrite app_assoc, take_app, take_ge by (rewrite length_app; lia). rewrite <- app_assoc. do 3 f_equal. rewrite length_app. lia. }
    rewrite E' in H0. pose proof (occurrences_some p a (take (length seen - length a - length p) b) Hp). lia.
  - rewrite E. rewrite drop_app_le by (unfold TAIL in *; lia). by apply occurrences_some.
Qed.
(** A query starts with a character it does not hold again: [count] finds every place. *)
Lemma occurrences_skip e p q t : e ∉ q → occurrences (e :: p) (q ++ t) = occurrences (e :: p) t.
Proof.
  induction q as [|c q IH]; intros He; [done|]. cbn [app occurrences starts_with].
  assert (e =? c = false) as -> by (apply Z.eqb_neq; set_solver). cbn. apply IH. set_solver.
Qed.
Lemma split_occurrences e p fuel s acc : e ∉ p → (length s < fuel)%nat →
  length (split_fuel fuel (e :: p) s acc) = S (occurrences (e :: p) s).
Proof.
  intros He. revert s acc. induction fuel as [|fuel IH]; intros s acc Hf; [lia|]. cbn [split_fuel].
  destruct s as [|c s]; [done|]. destruct (starts_with (e :: p) (c :: s)) eqn:E.
  - cbn [occurrences]. rewrite E. apply starts_with_spec in E as [t E]. injection E as -> ->.
    cbn [length] in *. rewrite length_app in Hf. change (drop (S (length p)) (e :: p ++ t)) with (drop (length p) (p ++ t)).
    rewrite drop_app_length, IH, occurrences_skip by (done || lia). done.
  - cbn [occurrences]. rewrite E, IH by (cbn in *; lia). done.
Qed.
Lemma count_is_occurrences e p s : e ∉ p → count (e :: p) s = Z.of_nat (occurrences (e :: p) s).
Proof. intros He. unfold count, len, split. rewrite split_occurrences by (done || lia). lia. Qed.

(** ** What the reader answers *)
Section reader.
Context {U : UnicodeDB}.
Variable is_pty_end : exn → bool.
Variable log0 : bytes.                     (* what the buffer was given before *)
Abbreviation IO := (io conpty pty_call pty_reply).
(** The output read so far, and the answers that were written *)
Record read_phase := RP { seen : str; device_answers : nat; cursor_answers : nat }.
Definition read_allowed (ph : read_phase) (c : pty_call) : Prop :=
  match c with
  | TAlive | TRead => True
  | TWrite t => (t = DEVICE_REPLY ∧ (device_answers ph < occurrences DEVICE_ATTRIBUTES (seen ph))%nat) ∨
                (t = CURSOR_REPLY ∧ (cursor_answers ph < occurrences CURSOR_POSITION (seen ph))%nat)
  | _ => False
  end.
Definition read_after (ph : read_phase) (c : pty_call) (a : res pty_reply) : read_phase :=
  match c, a with
  | TRead, Ok (TText t) => RP (seen ph ++ t) (device_answers ph) (cursor_answers ph)
  | TWrite t, _ => if str_eqb t DEVICE_REPLY then RP (seen ph) (S (device_answers ph)) (cursor_answers ph)
                   else RP (seen ph) (device_answers ph) (S (cursor_answers ph))
  | _, _ => ph
  end.
Definition answered_enough (query : str) (text : str) (answers : nat) : Prop :=
  (answers <= occurrences query text)%nat ∧ ((0 < occurrences query text)%nat → (0 < answers)%nat).
(** The state between two reads *)
Record read_state (ph : read_phase) (c : conpty) : Prop := {
  rs_tail : protocol_tail c = last_part (seen ph);
  rs_ring : ∃ content, utf8_encode (seen ph) = Ok content ∧ refines (ring c) (log0 ++ content);
  rs_device : device_attributes_replies c = Z.of_nat (device_answers ph);
  rs_cursor : cursor_position_replies c = Z.of_nat (cursor_answers ph);
  rs_device_answers : answered_enough DEVICE_ATTRIBUTES (seen ph) (device_answers ph);
  rs_cursor_answers : answered_enough CURSOR_POSITION (seen ph) (cursor_answers ph) }.

Section run.
Context (tr : list pty_call) (scr : list (res pty_reply)).
Abbreviation stopped := (obeyed (State := conpty) read_allowed read_after tr scr (RP [] 0 0)).
Abbreviation at_read ph := (at_phase (State := conpty) read_allowed read_after tr scr (RP [] 0 0) ph).
(** Between two reads; and after an error in the middle of one *)
Definition between (s : IO) : Prop := ∃ ph, at_read ph s ∧ read_state ph (st s).
Lemma last_part_app a b : last_part (last_part a ++ b) = last_part (a ++ b).
Proof.
  unfold last_part. rewrite <- drop_app_le by lia. rewrite drop_drop. f_equal.
  rewrite length_app, length_drop, length_app. lia.
Qed.
Lemma utf8_encode_app a b x y : utf8_encode a = Ok x → utf8_encode b = Ok y → utf8_encode (a ++ b) = Ok (x ++ y).
Proof.
  unfold utf8_encode. rewrite existsb_app. destruct (existsb surrogate a); [done|]. destruct (existsb surrogate b); [done|].
  intros [= <-] [= <-]. cbn. f_equal. unfold utf8_bytes. by rewrite map_app, concat_app.
Qed.
(** The answers to one read: as many as the read with its tail shows beyond
    those that were written. *)
Lemma answers_after query seen_ text answers :
  (∃ e p, query = e :: p ∧ e ∉ p) → (length query <= TAIL)%nat →
  answered_enough query seen_ answers →
  let combined := last_part seen_ ++ text in
  let queries := occurrences query combined in
  answered_enough query (seen_ ++ text) (Nat.max answers queries).
Proof.
  intros (e & p & -> & He) Hl [H1 H2] combined queries.
  assert (combined = drop (length seen_ - TAIL) (seen_ ++ text)) as E by (unfold combined, last_part; by rewrite drop_app_le by lia).
  assert (queries <= occurrences (e :: p) (seen_ ++ text))%nat as Hq by (unfold queries; rewrite E; apply occurrences_drop).
  assert (occurrences (e :: p) seen_ <= occurrences (e :: p) (seen_ ++ text))%nat as Hs.
  { clear. induction seen_ as [|c s IH]; cbn [app occurrences]; [lia|].
    destruct (starts_with (e :: p) (c :: s)) eqn:E; [|lia]. apply starts_with_spec in E as [t E].
    assert (starts_with (e :: p) (c :: s ++ text) = true) as ->; [|lia]. apply starts_with_spec. exists (t ++ text). by rewrite app_assoc, <- E. }
  split; [lia|]. intros H. destruct (decide (occurrences (e :: p) seen_ = 0%nat)) as [Hz|Hz]; [|specialize (H2 ltac:(lia)); lia].
  enough (0 < queries)%nat by lia. unfold queries. rewrite E. by apply occurrences_kept.
Qed.
(** The two kinds of query *)
Variant side := Device | Cursor.
Definition query_of (d : side) : str := match d with Device => DEVICE_ATTRIBUTES | Cursor => CURSOR_POSITION end.
Definition reply_of (d : side) : str := match d with Device => DEVICE_REPLY | Cursor => CURSOR_REPLY end.
Definition answers_of (d : side) (ph : read_phase) : nat := match d with Device => device_answers ph | Cursor => cursor_answers ph end.
Definition with_answers (d : side) (ph : read_phase) (n : nat) : read_phase :=
  match d with Device => RP (seen ph) n (cursor_answers ph) | Cursor => RP (seen ph) (device_answers ph) n end.
Definition replies_of (d : side) : conpty → Z := match d with Device => device_attributes_replies | Cursor => cursor_position_replies end.
Definition set_replies (d : side) : Z → M IO unit := match d with Device => set_device_replies | Cursor => set_cursor_replies end.
Lemma side_query d : (∃ e p, query_of d = e :: p ∧ e ∉ p) ∧ (length (query_of d) <= TAIL)%nat.
Proof. destruct d; (split; [do 2 eexists; split; [reflexivity|]; by apply (bool_decide_unpack _); vm_compute|by apply Nat.leb_le]). Qed.
Definition in_read (ph : read_phase) (φ : conpty → Prop) (s : IO) : Prop := at_read ph s ∧ φ (st s).
Definition cut_off (s : IO) : Prop := ∃ ph, at_read ph s.
Lemma in_read_cut ph φ s : in_read ph φ s → cut_off s.
Proof. intros [H _]. by eexists. Qed.
Lemma in_read_stopped ph φ s : in_read ph φ s → stopped s.
Proof. intros [H _]. by eapply at_phase_obeyed. Qed.
Lemma write_reply d ph φ : (answers_of d ph < occurrences (query_of d) (seen ph))%nat →
  triple stopped (in_read ph φ) (write_text (reply_of d)) (fun _ => in_read (with_answers d ph (S (answers_of d ph))) φ) (fun _ => cut_off).
Proof.
  intros Hn. unfold write_text, require_process, require_open.
  assert (∀ (f : conpty → res unit), triple stopped (in_read ph φ) (c ← state; lift (f c) : M IO unit) (fun _ => in_read ph φ) (fun _ => cut_off)) as Hcheck.
  { intros f. apply triple_state. intros c. apply triple_lift; [by intros ? s _ [? _]|intros e s _ [H _]; by eapply in_read_cut]. }
  eapply (triple_bind _ _ _ _ (fun _ => in_read ph φ)); [apply Hcheck|]. intros _.
  eapply (triple_bind _ _ _ _ (fun _ => in_read ph φ)); [apply Hcheck|]. intros _.
  unfold controlled_by. eapply (triple_try _ _ _ _ _ (fun _ => cut_off)); [|intros e; destruct (is_exception e); by apply triple_raise].
  unfold perform. eapply (triple_bind _ _ _ _ (fun _ => in_read (with_answers d ph (S (answers_of d ph))) φ)); [|intros _; by apply triple_ret].
  apply triple_asked; [destruct d; cbn; auto|..]; intros ? s H; [|eapply in_read_cut; exact H].
  replace (with_answers d ph (S (answers_of d ph))) with (read_after ph (TWrite (reply_of d)) (Ok a)); [exact H|]. by destruct d.
Qed.
Lemma write_replies d n ph φ : (answers_of d ph + n <= occurrences (query_of d) (seen ph))%nat →
  triple stopped (in_read ph φ) (for_each (repeat tt n) (fun _ => write_text (reply_of d)))
    (fun _ => in_read (with_answers d ph (answers_of d ph + n)) φ) (fun _ => cut_off).
Proof.
  revert ph. induction n as [|n IH]; intros ph Hn; cbn [repeat for_each].
  - apply triple_ret. intros s. replace (with_answers d ph (answers_of d ph + 0)) with ph; [done|].
    destruct ph, d; cbn; by rewrite Nat.add_0_r.
  - eapply (triple_bind _ _ _ _ (fun _ => in_read (with_answers d ph (S (answers_of d ph))) φ)); [apply write_reply; lia|].
    intros _. replace (with_answers d ph (answers_of d ph + S n))
      with (with_answers d (with_answers d ph (S (answers_of d ph))) (answers_of d (with_answers d ph (S (answers_of d ph))) + n)) by (destruct d; cbn; f_equal; lia).
    apply IH. destruct d; cbn in *; lia.
Qed.
(** Answering one kind of query *)
Lemma triple_answer_side d combined ph (φ φ' : conpty → Prop) n :
  n = occurrences (query_of d) combined → (n <= occurrences (query_of d) (seen ph))%nat →
  (∀ c, φ c → replies_of d c = Z.of_nat (answers_of d ph)) → (∀ c, φ c → (n <= answers_of d ph)%nat → φ' c) →
  (∀ c, φ c → (answers_of d ph < n)%nat → ∀ s, st s = c → φ' (st (set_replies d (Z.of_nat n) s).2)) →
  triple stopped (in_read ph φ) (answer (query_of d) (reply_of d) combined (replies_of d) (set_replies d))
    (fun _ => in_read (with_answers d ph (Nat.max (answers_of d ph) n)) φ') (fun _ => cut_off).
Proof.
  intros Hn Hle Hrep Hkeep Hset. unfold answer. destruct (side_query d) as [(e & p & Eq & He) _].
  assert (count (query_of d) combined = Z.of_nat n) as -> by (rewrite Hn, Eq; by apply count_is_occurrences).
  apply triple_state. intros c. apply (triple_before _ _ (fun s => φ c ∧ in_read ph φ s)); [|by intros s [[? ?] <-]].
  apply triple_pure. intros Hc. rewrite (Hrep c Hc). case_match eqn:Hlt.
  - apply Z.ltb_lt in Hlt. eapply (triple_bind _ _ _ _ (fun _ => in_read (with_answers d ph n) φ)).
    + replace (with_answers d ph n) with (with_answers d ph (answers_of d ph + Z.to_nat (Z.of_nat n - Z.of_nat (answers_of d ph)))) by (f_equal; lia).
      apply write_replies. lia.
    + intros _ s [H1 H2]. rewrite Nat.max_r by lia. specialize (Hset _ H2 ltac:(lia) s eq_refl). destruct d; (split; [exact H1|exact Hset]).
  - apply Z.ltb_ge in Hlt. apply triple_ret. intros s [H1 H2]. rewrite Nat.max_l by lia.
    replace (with_answers d ph (answers_of d ph)) with ph by (by destruct ph, d). split; [done|]. apply Hkeep; [done|lia].
Qed.
(** What the state holds of the phase in the middle of a read *)
Record mid (ph : read_phase) (c : conpty) : Prop := {
  mid_tail : protocol_tail c = last_part (seen ph);
  mid_ring : ∃ content, utf8_encode (seen ph) = Ok content ∧ refines (ring c) (log0 ++ content);
  mid_device : device_attributes_replies c = Z.of_nat (device_answers ph);
  mid_cursor : cursor_position_replies c = Z.of_nat (cursor_answers ph) }.
Lemma mid_same ph d n c : mid ph c → (n <= answers_of d ph)%nat → mid (with_answers d ph (Nat.max (answers_of d ph) n)) c.
Proof. intros H Hn. rewrite Nat.max_l by lia. by destruct ph, d. Qed.
Lemma triple_answer_mid d combined ph :
  (occurrences (query_of d) combined <= occurrences (query_of d) (seen ph))%nat →
  triple stopped (in_read ph (mid ph)) (answer (query_of d) (reply_of d) combined (replies_of d) (set_replies d))
    (fun _ s => let ph' := with_answers d ph (Nat.max (answers_of d ph) (occurrences (query_of d) combined)) in in_read ph' (mid ph') s) (fun _ => cut_off).
Proof.
  intros Hle. apply triple_answer_side; [done|done|by intros c []; destruct d|by intros c Hc ?; apply mid_same|].
  intros c [H1 H2 H3 H4] Hlt s <-. rewrite Nat.max_r by lia. destruct d; by constructor.
Qed.
Lemma triple_answer_queries ph text :
  answered_enough DEVICE_ATTRIBUTES (seen ph) (device_answers ph) → answered_enough CURSOR_POSITION (seen ph) (cursor_answers ph) →
  triple stopped
    (in_read (RP (seen ph ++ text) (device_answers ph) (cursor_answers ph))
       (fun c => protocol_tail c = last_part (seen ph) ∧ mid (RP (seen ph ++ text) (device_answers ph) (cursor_answers ph)) (ConPty (backend_name c) (ring c)
          (started c) (reading c) (closed c) (device_attributes_replies c) (cursor_position_replies c) (last_part (seen ph ++ text)))))
    (answer_terminal_protocol_queries text) (fun _ => between) (fun _ => cut_off).
Proof.
  intros Hd Hc. set (ph' := RP (seen ph ++ text) (device_answers ph) (cursor_answers ph)).
  pose proof (answers_after DEVICE_ATTRIBUTES _ text _ (proj1 (side_query Device)) (proj2 (side_query Device)) Hd) as Ha1.
  pose proof (answers_after CURSOR_POSITION _ text _ (proj1 (side_query Cursor)) (proj2 (side_query Cursor)) Hc) as Ha2.
  cbv zeta in Ha1, Ha2. set (combined := last_part (seen ph) ++ text) in *.
  assert (combined = drop (length (seen ph) - TAIL) (seen ph ++ text)) as E by (unfold combined, last_part; by rewrite drop_app_le by lia).
  unfold answer_terminal_protocol_queries. apply triple_state. intros c.
  apply (triple_before _ _ (fun s => protocol_tail c = last_part (seen ph) ∧ in_read ph' (fun c => mid ph' (ConPty (backend_name c) (ring c)
     (started c) (reading c) (closed c) (device_attributes_replies c) (cursor_position_replies c) (last_part (seen ph ++ text)))) s)).
  2: { intros s [[H1 [H2 H3]] <-]. split; [exact H2|by split]. }
  apply triple_pure. intros ->. fold combined.
  eapply (triple_bind _ _ _ _ (fun _ => in_read ph' (mid ph'))).
  { apply triple_modify. intros s [H1 H2]. split; [done|]. unfold combined. rewrite last_part_app. exact H2. }
  intros _. set (ph2 := with_answers Device ph' (Nat.max (answers_of Device ph') (occurrences (query_of Device) combined))).
  eapply (triple_bind _ _ _ _ (fun _ => in_read ph2 (mid ph2))).
  { apply (triple_answer_mid Device combined ph'). rewrite E. apply occurrences_drop. }
  intros _. eapply triple_conseq; [apply (triple_answer_mid Cursor combined ph2)|done| |done|done].
  { cbn [ph2 with_answers seen]. rewrite E. apply occurrences_drop. }
  intros _ s [H1 H2]. eexists. split; [exact H1|]. destruct H2 as [M1 M2 M3 M4]. by constructor.
Qed.
Lemma between_cut s : between s → cut_off s.
Proof. intros (ph & H & _). by eexists. Qed.
Lemma triple_read_loop fuel :
  triple stopped between (read_loop is_pty_end fuel) (fun _ => between) (fun _ => cut_off).
Proof.
  induction fuel as [|fuel IH]; cbn [read_loop]; [intros s (ph & H & _); by eapply at_phase_obeyed|].
  eapply (triple_bind _ _ _ _ (fun _ => between)).
  { unfold flag. apply triple_exists. intros ph. eapply (triple_bind _ _ _ _ (fun _ => in_read ph (read_state ph))).
    - apply triple_asked; [done|..]; intros ? s H; [exact H|eapply in_read_cut; exact H].
    - intros []; try (intros s H; by eapply in_read_stopped). apply triple_ret. intros s H. by exists ph. }
  intros [|]; [|by apply triple_ret]. apply triple_exists. intros ph.
  eapply (triple_bind _ _ _ _ (fun text s => match text with
     | None => between s
     | Some t => in_read (RP (seen ph ++ t) (device_answers ph) (cursor_answers ph)) (read_state ph) s end)).
  { eapply (triple_try _ _ _ _ _ (fun _ => in_read ph (read_state ph))).
    - eapply (triple_bind _ _ _ _ (fun a => in_read (read_after ph TRead (Ok a)) (read_state ph))).
      + by apply triple_asked.
      + intros [| |t| |]; try (intros s H; by eapply in_read_stopped). by apply triple_ret.
    - intros e. destruct (_ || _); [apply triple_ret|apply triple_raise; intros s; apply in_read_cut]. intros s H. by exists ph. }
  intros [[|c t]|]; [| |by apply triple_ret].
  { eapply triple_before; [exact IH|]. intros s [H1 H2]. exists ph. rewrite app_nil_r in H1. by destruct ph. }
  apply triple_lift_at; [|intros e s; apply in_read_cut]. intros content Hcontent.
  apply (triple_before _ _ (fun s => (answered_enough DEVICE_ATTRIBUTES (seen ph) (device_answers ph) ∧ answered_enough CURSOR_POSITION (seen ph) (cursor_answers ph)) ∧
     in_read (RP (seen ph ++ c :: t) (device_answers ph) (cursor_answers ph)) (read_state ph) s)).
  2: { intros s [H1 H2]. split; [by split; apply H2|by split]. }
  apply triple_pure. intros [Hd Hc].
  pose proof (triple_answer_queries ph (c :: t) Hd Hc) as Hanswers.
  match type of Hanswers with triple _ ?P _ _ _ => apply (triple_bind _ _ _ _ (fun _ => P)) end.
  2: { intros _. eapply (triple_bind _ _ _ _ (fun _ => between)); [exact Hanswers|intros _; exact IH]. }
  apply triple_modify. intros s [H1 [R1 (before & Rb & R2) R3 R4 _ _]]. split; [exact H1|]. split; [exact R1|]. constructor; [done| |done|done].
  exists (before ++ content). split; [by apply utf8_encode_app|]. cbn. rewrite app_assoc. by apply append_refines.
Qed.
(** How the reader leaves the buffer *)
Definition read_to_the_end (s : IO) : Prop :=
  ∃ ph content, at_read ph s ∧ utf8_encode (seen ph) = Ok content ∧ refines (ring (st s)) (log0 ++ content) ∧ rb_closed (ring (st s)) = true ∧
    answered_enough DEVICE_ATTRIBUTES (seen ph) (device_answers ph) ∧ answered_enough CURSOR_POSITION (seen ph) (cursor_answers ph).
Lemma triple_reading fuel :
  triple stopped between (try_finally (read_loop is_pty_end fuel) (on_ring close_ring))
    (fun _ => read_to_the_end) (fun _ s => cut_off s ∧ rb_closed (ring (st s)) = true).
Proof.
  apply (triple_cleanup _ _ _ _ (fun _ => between) _ (fun _ => cut_off)); [apply triple_read_loop| |].
  - intros []. apply triple_modify. intros s (ph & H1 & [_ (content & Hc & Hr) _ _ Hd Hcur]). exists ph, content.
    split; [exact H1|]. split; [done|]. split; [by apply close_refines|]. by split.
  - intros e. apply triple_modify. intros s [ph H]. split; [by exists ph|done].
Qed.
End run.

(** C32: the reader keeps the output and answers the terminal.  Whatever
    the child prints, in whatever pieces, the reader of a started terminal writes
    nothing but answers, and at no time more answers of a kind than the output read
    so far holds queries; when it ends at the end of the output, the buffer
    holds exactly the bytes of everything that was read and is closed, and a kind of query
    that occurred, even one cut in two by the reads, was answered; when an
    error ends it, the buffer is closed as well. *)
Theorem terminal_queries_answered (s : IO) :
  started (st s) = true → refines (ring (st s)) log0 →
  device_attributes_replies (st s) = 0 → cursor_position_replies (st s) = 0 → protocol_tail (st s) = [] →
  match read_output is_pty_end s with
  | (Ret _, s') => read_to_the_end (trace s) (script s) s'
  | (Raise _, s') => cut_off (trace s) (script s) s' ∧ rb_closed (ring (st s')) = true
  | (Hang, s') => obeyed read_allowed read_after (trace s) (script s) (RP [] 0 0) s'
  end.
Proof.
  intros Hst Hr Hd Hc Ht. set (tr := trace s). set (scr := script s).
  assert (read_output is_pty_end s = try_finally (read_loop is_pty_end (S (length scr))) (on_ring close_ring) s) as ->.
  { unfold read_output, require_process, state, gets, mbind, prog_mbind, prog_bind, lift. cbn. by rewrite Hst. }
  apply (triple_reading tr scr). exists (RP [] 0 0). split; [apply at_phase_start|].
  constructor; [done| |done|done|by split; cbn; lia..]. exists []. split; [done|]. by rewrite app_nil_r.
Qed.
End reader.

Definition fresh_conpty : conpty := ConPty (u "conpty") (Ring 1048576 [] 0 false) true true false 0 0 [].
Lemma fresh_ring : refines (ring fresh_conpty) [].
Proof. by apply (new_ring_refines 1048576). Qed.
(** A query in two pieces *)
Definition split_query_script : list (res pty_reply) :=
  [Ok (TFlag true); Ok (TText (u "ok" ++ esc)); Ok (TFlag true); Ok (TText (u "[c")); Ok TDone; Ok (TFlag false)].
Lemma terminal_queries_answered_witness :
  ∃ s', read_output (fun _ => false) (Io fresh_conpty split_query_script []) = (Ret tt, s') ∧
    trace s' = [TAlive; TRead; TAlive; TRead; TWrite DEVICE_REPLY; TAlive] ∧ read_to_the_end [] [] split_query_script s'.
Proof.
  pose proof (terminal_queries_answered (fun _ => false) [] (Io fresh_conpty split_query_script [])
    eq_refl fresh_ring eq_refl eq_refl eq_refl) as H.
  assert (∃ s', read_output (fun _ => false) (Io fresh_conpty split_query_script []) = (Ret tt, s') ∧
    trace s' = [TAlive; TRead; TAlive; TRead; TWrite DEVICE_REPLY; TAlive]) as (s' & E & Ht) by (eexists; split; vm_compute; reflexivity).
  rewrite E in H. exists s'. split; [exact E|]. split; [exact Ht|exact H].
Defined.
(** The number of answers is compared with the number of queries in one read
    and its tail only: a query of a later read, with more than the tail between
    the two, is not answered. *)
Definition second_query_script : list (res pty_reply) :=
  [Ok (TFlag true); Ok (TText DEVICE_ATTRIBUTES); Ok TDone; Ok (TFlag true); Ok (TText (u "a prompt and some other output"));
   Ok (TFlag true); Ok (TText DEVICE_ATTRIBUTES); Ok (TFlag false)].
Example later_query_unanswered :
  trace (read_output (fun _ => false) (Io fresh_conpty second_query_script [])).2
  = [TAlive; TRead; TWrite DEVICE_REPLY; TAlive; TRead; TAlive; TRead; TAlive].
Proof. vm_compute. reflexivity. Qed.

(** ** Input, waiting and closing *)
Section closing.
Context {U : UnicodeDB}.
Variable is_pty_end : exn → bool.
Abbreviation IO := (io conpty pty_call pty_reply).
(** Input reaches the child as the text it is the encoding of, or not at all. *)
Theorem write_is_exact data (s : IO) :
  match write data s with
  | (Ret _, s') => (data = [] ∧ s' = s) ∨
                   ∃ text, utf8_decode data = UText text ∧ started (st s) = true ∧ closed (st s) = false ∧ trace s' = trace s ++ [TWrite text]
  | (_, s') => trace s' = trace s ∨ ∃ text, utf8_decode data = UText text ∧ trace s' = trace s ++ [TWrite text]
  end.
Proof.
  destruct data as [|b data]; [by left|]. cbn [write]. destruct (utf8_decode (b :: data)) as [text|]; [|by left].
  unfold write_text, require_process, require_open, controlled_by, perform, state, gets, try_except, mbind, prog_mbind, prog_bind, lift, raise_if, ask. cbn.
  destruct (started (st s)); cbn; [|by left]. destruct (closed (st s)) eqn:Ec; cbn; [by left|].
  destruct (script s) as [|[a|e] rest]; cbn; [right; eauto|right; eauto|]. destruct (is_exception e); cbn; right; eauto.
Qed.
(** A terminal is closed once: the second call does nothing. *)
Theorem close_is_final (s : IO) :
  match close is_pty_end s with
  | (Ret _, s') => closed (st s') = true ∧ (closed (st s) = false → rb_closed (ring (st s')) = true) ∧ close is_pty_end s' = (Ret tt, s')
  | (_, s') => closed (st s') = true
  end.
Proof.
  assert (∀ s, closed (st s) = true → close is_pty_end s = (Ret tt, s)) as Hagain.
  { intros s0 H. unfold close, state, gets, mbind, prog_mbind, prog_bind. by rewrite H. }
  destruct (closed (st s)) eqn:Ec; [rewrite (Hagain s Ec); by rewrite Ec, Hagain|].
  set (P := fun s : IO => closed (st s) = true).
  assert (∀ c (p : exn → bool), triple P P (suppress p (perform c)) (fun _ => P) (fun _ => P)) as Hsup.
  { intros c p. unfold suppress. eapply (triple_try _ _ _ _ _ (fun _ => P)).
    - unfold perform. eapply (triple_bind _ _ _ _ (fun _ => P)); [by apply triple_ask|intros _; by apply triple_ret].
    - intros e. destruct (p e); [by apply triple_ret|by apply triple_raise]. }
  enough (triple P (fun s => closed (st s) = false) (close is_pty_end) (fun _ s => P s ∧ rb_closed (ring (st s)) = true) (fun _ => P)) as H.
  { specialize (H s Ec). destruct (close is_pty_end s) as [[[]|e|] s']; [|exact H..]. destruct H as [H1 H2]. split; [done|]. split; [done|]. by apply Hagain. }
  unfold close. apply triple_state. intros c. destruct (closed c) eqn:E.
  { intros s' [H1 H2]. congruence. }
  eapply (triple_bind _ _ _ _ (fun _ => P)); [by apply triple_modify|]. intros _.
  eapply (triple_bind _ _ _ _ (fun _ => P)).
  { destruct (started c); [|by apply triple_ret]. repeat (eapply (triple_bind _ _ _ _ (fun _ => P)); [apply Hsup|intros _]). apply Hsup. }
  intros _. eapply (triple_bind _ _ _ _ (fun _ => P)).
  { destruct (reading c); [|by apply triple_ret]. unfold perform. eapply (triple_bind _ _ _ _ (fun _ => P)); [by apply triple_ask|intros _; by apply triple_ret]. }
  intros _. apply triple_modify. intros s' H. by split.
Qed.
End closing.
