(* ===== verification/Bootstrap.v ===== *)
(** * Bootstrap: the local state of a user (bootstrap/model.py, bootstrap/service.py)

    Every program starts by making the directories, the lock files, the
    configuration and the state file it needs, none of which may be a link.
    The disk is that of [Repository]; what a path is on it, is asked of the
    file system when the program looks. *)
From S2P Require Import Prelude Errors Text TextFacts Regex Value Prog Json ConfigModel Codec Repository Ipc.

Definition BOOTSTRAP_SCHEMA_VERSION : Z := 1.
(** A managed path: a directory, or a file with its directory *)
Inductive managed : Type := MDir (d : str) | MFile (p : path).
#[export] Instance managed_eq_dec : EqDecision managed.
Proof. solve_decision. Defined.
Record LocalStatePaths := Paths {
  app_dir : str; config_file : path; runtime_dir : str; audit_dir : str; migrations_dir : str; state_file : path; bootstrap_lock : path }.
Record BootstrapReport := Report {
  report_app_dir : str; config_created : bool; config_migrated : bool; migration_backup : option path; state_schema_version : Z }.
(** [root / name] *)
Definition under (root name : str) : str := root ++ u "\" ++ name.
(** The two directories are absolute here. *)
Definition from_app_dir (root : str) (runtime : option str) : LocalStatePaths :=
  Paths root (root, u "config.toml") (default (under root (u "runtime")) runtime) (under root (u "audit")) (under root (u "migrations"))
    (root, u "state.json") (root, u ".bootstrap.lock").
Definition from_environment (LOCALAPPDATA runtime : option str) (abspath : str → str) : res LocalStatePaths :=
  match LOCALAPPDATA with
  | Some ((_ :: _) as root) => Ok (from_app_dir (abspath (under root (u "codex-serverops-mcp"))) (abspath <$> runtime))
  | _ => Err (config_error (u "LOCALAPPDATA is unavailable"))
  end.
Definition show_managed (m : managed) : str := match m with MDir d => d | MFile p => under p.1 p.2 end.
(** What is found at a path; a reparse point is a link of any kind. *)
Inductive looked : Type := Absent | Unreadable | Reparse | IsDirectory | IsRegular | IsOther.

Section bootstrap.
Context {U : UnicodeDB} {T : TomlReader} {F : FloatIO}.
(** The file system's answer, after the calls that were made *)
Variable look : list disk_call → managed → looked.
Variable lock_timeout : Q.
Variable paths : LocalStatePaths.

Definition inspect (l : looked) (m : managed) : res unit :=
  match l, m with
  | Absent, _ | IsDirectory, MDir _ | IsRegular, MFile _ => Ok tt
  | Unreadable, _ => Err (config_error (u "managed local path cannot be inspected: " ++ show_managed m))
  | Reparse, _ => Err (config_error (u "managed local path must not be a reparse point: " ++ show_managed m))
  | _, MDir _ => Err (config_error (u "managed local path must be a directory: " ++ show_managed m))
  | _, MFile _ => Err (config_error (u "managed local path must be a file: " ++ show_managed m))
  end.
Definition reject_reparse_or_wrong_type (m : managed) : M disk_io unit :=
  s ← get; lift (inspect (look (trace s) m) m).
Definition secure_managed (m : managed) : M disk_io unit :=
  match m with MDir d => call (SecurePath d None) | MFile p => call (SecurePath p.1 (Some p.2)) end.
Definition ensure_directory (d : str) : M disk_io unit :=
  reject_reparse_or_wrong_type (MDir d);; call (MakeDirectory d);; secure_managed (MDir d).
Definition ensure_lock_file (p : path) : M disk_io unit :=
  reject_reparse_or_wrong_type (MFile p);;
  present ← exists_file p;
  (if negb present then open_exclusive p;; write_content p [0] else mret tt);;
  secure_managed (MFile p).
(** [document != {"schema_version": 1}]: the numbers that equal 1 are accepted. *)
Definition is_state (v : value) : bool :=
  match v with VDict [(k, n)] => str_eqb k (u "schema_version") && eq_int n BOOTSTRAP_SCHEMA_VERSION | _ => false end.
Definition plain_dict (pairs : list (str * value)) : res value := Ok (VDict (fold_left (fun d p => dset d p.1 p.2) pairs [])).
Definition state_document (content : bytes) : res value :=
  match utf8_decode content with
  | UBad _ _ => Err (config_error (u "bootstrap state is invalid"))
  | UText t =>
      match json_loads plain_dict t with
      | Ok v => Ok v
      | Err JsonDecodeError => Err (config_error (u "bootstrap state is invalid"))
      | Err (JsonRaised e) => Err e
      end
  end.
Definition check_state (content : bytes) : res unit :=
  v ← state_document content;
  raise_if (negb (is_state v)) (config_error (u "bootstrap state has an unsupported schema")).
Definition state_content : bytes := u "{" ++ dq ++ u "schema_version" ++ dq ++ u ":1}" ++ nl.
(** The state file with the naming of its temporaries *)
Definition place (p : path) : TomlProfileRepository := Repository p.1 p.2 lock_timeout true.
Definition atomic_write (p : path) (content : bytes) : M disk_io unit :=
  hex ← fresh_name;
  let temporary := temporary_path (place p) hex in
  open_exclusive temporary;;
  try_finally
    (write_content temporary content;;
     secure_managed (MFile temporary);;
     replace_file temporary p;;
     secure_managed (MFile p))
    (unlink temporary).
Definition ensure_state : M disk_io unit :=
  let p := state_file paths in
  reject_reparse_or_wrong_type (MFile p);;
  present ← exists_file p;
  if present : bool then
    content ← try_except (read_bytes p)
      (fun e => if is_os_error e then raise (config_error (u "bootstrap state is invalid")) else raise e);
    lift (check_state content);;
    secure_managed (MFile p)
  else atomic_write p state_content.
Definition config_store : TomlProfileRepository := Repository (config_file paths).1 (config_file paths).2 lock_timeout true.
(** The store whose lock file is [.bootstrap.lock] *)
Definition bootstrap_store : TomlProfileRepository :=
  Repository (bootstrap_lock paths).1 (removesuffix (u ".lock") (bootstrap_lock paths).2) lock_timeout true.
Definition directories : list str :=
  [runtime_dir paths; under (runtime_dir paths) (u "workers"); under (runtime_dir paths) (u "setup"); audit_dir paths; migrations_dir paths].
Definition config_lock : path := lock_path config_store.
Definition audit_lock : path := (audit_dir paths, u ".audit.lock").
Definition ensure : M disk_io BootstrapReport :=
  ensure_directory (app_dir paths);;
  reject_reparse_or_wrong_type (MFile (bootstrap_lock paths));;
  preparation ← with_lock bootstrap_store
    (secure_managed (MFile (bootstrap_lock paths));;
     for_each directories ensure_directory;;
     reject_reparse_or_wrong_type (MFile (config_file paths));;
     ensure_lock_file config_lock;;
     preparation ← initialize_or_migrate config_store (migrations_dir paths);
     secure_managed (MFile (config_file paths));;
     ensure_lock_file audit_lock;;
     ensure_state;;
     mret preparation);
  mret (Report (app_dir paths) (created preparation) (migrated preparation) (backup_path preparation) BOOTSTRAP_SCHEMA_VERSION).
End bootstrap.

(** ** Links are left alone *)
(** The directories and files a call names *)
Definition places (c : disk_call) : list (str * option str) :=
  let file (p : path) := (p.1, Some p.2) in
  match c with
  | MakeDirectory d | SyncDirectory d => [(d, None)]
  | SecurePath d n => [(d, n)]
  | OpenExclusive p | OpenWrite p | WriteContent p _ | FlushFile p | RemoveFile p | ReadContent p
  | OpenLock p | TryLock p | Unlock p | CloseLock p => [file p]
  | Rename a b => [file a; file b]
  | ReadClock | NewName => []
  end.
(** A call leaves a file alone when it does not name it, and a directory when
    it names neither the directory nor anything in it. *)
Definition untouched (m : managed) (c : disk_call) : Prop :=
  Forall (fun x => match m with MDir d => x.1 ≠ d | MFile p => x ≠ (p.1, Some p.2) end) (places c).
(** Every file and directory that [ensure] makes or uses itself *)
Definition managed_paths (paths : LocalStatePaths) : list managed :=
  [MDir (app_dir paths); MFile (bootstrap_lock paths)] ++ map MDir (directories paths) ++
  [MFile (config_file paths); MFile (config_lock (qz 0) paths); MFile (audit_lock paths); MFile (state_file paths)].

Section links.
Context {U : UnicodeDB} {T : TomlReader} {F : FloatIO}.
Variable look : list disk_call → managed → looked.
Variable timeout : Q.
Variable m : managed.
Hypothesis Hlink : ∀ tr, ∃ e, inspect (look tr m) m = Err e.
Context (tr : list disk_call) (scr : list (res disk_reply)).
Abbreviation P := (calls_in (State := disk) tr scr (untouched m)).
Abbreviation leaves prog Q := (spec P prog Q).

Definition apart (d : str) : Prop := m ≠ MDir d.
Definition apart_file (p : path) : Prop := apart p.1 ∧ m ≠ MFile p.
Lemma untouched_dir d c : apart d → places c = [(d, None)] → untouched m c.
Proof. intros H E. unfold untouched. rewrite E. constructor; [|done]. destruct m as [d'|q] eqn:Em; cbn; [intros <-; by apply H|done]. Qed.
Lemma untouched_file p c : apart_file p → places c = [(p.1, Some p.2)] → untouched m c.
Proof.
  intros [H1 H2] E. unfold untouched. rewrite E. constructor; [|done]. destruct m as [d|q] eqn:Em; cbn; [intros <-; by apply H1|].
  intros E'. apply H2. f_equal. destruct p, q. cbn in *. congruence.
Qed.
Lemma leaves_call c : untouched m c → leaves (call c) anything.
Proof. intros H. unfold call. eapply spec_bind; [by apply spec_ask|]. intros a _. by apply spec_ret. Qed.
Lemma leaves_state {A} (f : disk → M disk_io A) Q : (∀ d, leaves (f d) Q) → leaves (state ≫= f) Q.
Proof. intros H. eapply spec_bind; [apply spec_gets|]. intros d _. apply H. Qed.
Lemma leaves_update f : leaves (update f) anything.
Proof. apply spec_modify. intros s H. exact H. Qed.
Lemma leaves_dir d c : apart d → places c = [(d, None)] → leaves (call c) anything.
Proof. intros ??. by eapply leaves_call, untouched_dir. Qed.
Lemma leaves_file p c : apart_file p → places c = [(p.1, Some p.2)] → leaves (call c) anything.
Proof. intros ??. by eapply leaves_call, untouched_file. Qed.
Lemma leaves_clock : leaves clock anything.
Proof. unfold clock. eapply spec_bind; [apply spec_ask; constructor|]. intros [] _; try apply spec_hang; by apply spec_ret. Qed.
Lemma leaves_fresh : leaves fresh_name anything.
Proof. unfold fresh_name. eapply spec_bind; [apply spec_ask; constructor|]. intros [] _; try apply spec_hang; by apply spec_ret. Qed.
Create HintDb leaves.
#[local] Hint Resolve leaves_call leaves_update leaves_clock leaves_fresh : leaves.
Ltac leave :=
  repeat first
    [ progress cbv beta zeta
    | match goal with
      | |- spec _ (state ≫= _) _ => apply leaves_state; intros ?
      | |- spec _ (_ ≫= _) _ => apply (spec_bind _ _ anything); [|intros ? _]
      | |- spec _ (mret _) _ => by apply spec_ret
      | |- spec _ (raise _) _ => apply spec_raise
      | |- spec _ hang _ => apply spec_hang
      | |- spec _ (lift _) _ => eapply spec_anything, spec_lift
      | |- spec _ (gets _) _ => eapply spec_anything, spec_gets
      | |- spec _ state _ => eapply spec_anything, spec_gets
      | |- spec _ (update _) _ => apply leaves_update
      | |- spec _ clock _ => apply leaves_clock
      | |- spec _ fresh_name _ => apply leaves_fresh
      | |- spec _ (call _) _ => first [eapply leaves_dir; [by eauto|reflexivity] | eapply leaves_file; [|reflexivity]; by eauto | eapply leaves_file; [by eauto|reflexivity]]
      | |- spec _ (try_except _ _) _ => apply spec_try; [|intros ?]
      | |- spec _ (try_finally _ _) _ => apply spec_finally
      | |- spec _ (match ?x with _ => _ end) _ => destruct x
      end ].
Lemma leaves_read p : apart_file p → leaves (read_bytes p) anything.
Proof. intros Hp. unfold read_bytes. leave. Qed.
Lemma leaves_open p : apart_file p → leaves (open_exclusive p) anything.
Proof. intros Hp. unfold open_exclusive, exists_file, set_file. leave. Qed.
Lemma leaves_content p c : apart_file p → leaves (write_content p c) anything.
Proof.
  intros Hp. unfold write_content, set_file. eapply spec_bind; [apply spec_ask; by eapply untouched_file|]. intros ? _. leave.
Qed.
Lemma leaves_replace a b : apart_file a → apart_file b → leaves (replace_file a b) anything.
Proof.
  intros Ha Hb. unfold replace_file, drop_file, set_file. apply (spec_bind _ _ anything); [|intros ? _; leave].
  apply leaves_call. unfold untouched. cbn.
  pose proof (untouched_file a (OpenLock a) Ha eq_refl) as H1. pose proof (untouched_file b (OpenLock b) Hb eq_refl) as H2.
  unfold untouched in H1, H2. cbn in H1, H2. rewrite Forall_singleton in H1, H2. by repeat constructor.
Qed.
Lemma leaves_unlink p : apart_file p → leaves (unlink p) anything.
Proof. intros Hp. unfold unlink, drop_file. leave. Qed.
Lemma leaves_secure r d n : apart d → (match n with Some n => m ≠ MFile (d, n) | None => True end) → leaves (secure r d n) anything.
Proof.
  intros Hd Hn. unfold secure. destruct (nt r); [|by apply spec_ret]. destruct n as [n|]; [|leave].
  eapply (leaves_file (d, n)); [by split|done].
Qed.
(** Looking at a path: what comes after only runs when it is not the link. *)
Lemma leaves_reject x : leaves (reject_reparse_or_wrong_type look x) (fun _ => m ≠ x).
Proof.
  unfold reject_reparse_or_wrong_type. intros s Hs. unfold mbind, prog_mbind, prog_bind, Prelude.get, lift. destruct (inspect (look (trace s) x) x) as [[]|e] eqn:E; cbn; [|exact Hs].
  split; [|exact Hs]. intros <-. destruct (Hlink (trace s)) as [e E']. congruence.
Qed.
Lemma leaves_ensure_directory d : leaves (ensure_directory look d) (fun _ => apart d).
Proof.
  unfold ensure_directory. eapply spec_bind; [apply leaves_reject|]. intros [] Hd.
  apply (spec_bind _ _ anything); [by eapply leaves_dir|]. intros _ _. eapply spec_conseq; [by eapply leaves_dir|done].
Qed.
Lemma leaves_directories ds : leaves (for_each ds (ensure_directory look)) (fun _ => Forall apart ds).
Proof.
  induction ds as [|d ds IH]; cbn [for_each]; [apply spec_ret; constructor|].
  eapply spec_bind; [apply leaves_ensure_directory|]. intros [] Hd. eapply spec_conseq; [exact IH|]. intros [] H. by constructor.
Qed.
Lemma leaves_lock_file p : apart p.1 → leaves (ensure_lock_file look p) (fun _ => m ≠ MFile p).
Proof.
  intros Hd. unfold ensure_lock_file. eapply spec_bind; [apply leaves_reject|]. intros [] Hp. assert (apart_file p) as Hf by (by split).
  eapply spec_conseq; [|intros _ _; exact Hp]. unfold exists_file. leave. 
  - by apply leaves_open.
  - by apply leaves_content.
  - unfold secure_managed. leave.
Qed.
Section store.
Variable r : TomlProfileRepository.
Hypotheses (Hd : apart (directory r)) (Hl : m ≠ MFile (lock_path r)) (Hf : m ≠ MFile (path_of r))
  (Ht : ∀ hex, m ≠ MFile (temporary_path r hex)).
Lemma lock_apart : apart_file (lock_path r).
Proof. by split. Qed.
Lemma leaves_lock_rounds fuel deadline : leaves (lock_rounds r fuel deadline) anything.
Proof.
  pose proof lock_apart. induction fuel as [|fuel IH]; cbn [lock_rounds]; [apply spec_hang|].
  unfold set_locked. leave. exact IH.
Qed.
Lemma leaves_with_lock {A} (body : M disk_io A) Q : leaves body Q → leaves (with_lock r body) Q.
Proof.
  intros Hb. pose proof lock_apart. unfold with_lock. apply (spec_bind _ _ anything).
  - unfold lock_enter, open_lock, set_file. leave; try (by apply leaves_content); [by intros s Hs|apply leaves_lock_rounds].
  - intros _ _. apply spec_finally; [exact Hb|]. unfold lock_exit, set_locked. leave.
Qed.
Lemma temporary_apart hex : apart_file (temporary_path r hex).
Proof. by split. Qed.
Lemma path_apart : apart_file (path_of r).
Proof. by split. Qed.
Lemma leaves_write_bytes content : leaves (write_bytes_unlocked r content) anything.
Proof.
  pose proof temporary_apart. pose proof path_apart. unfold write_bytes_unlocked, sync_directory. leave;
    try (by apply leaves_open); try (by apply leaves_content); try (by apply leaves_replace); try (by apply leaves_unlink); (apply leaves_secure; [done|first [exact I|exact Hf|apply Ht]]).
Qed.
Lemma leaves_write_unlocked c : leaves (write_unlocked r c) anything.
Proof. unfold write_unlocked. leave. apply leaves_write_bytes. Qed.
Lemma leaves_load_unlocked : leaves (load_unlocked r) anything.
Proof. pose proof path_apart. unfold load_unlocked, exists_file. leave. by apply leaves_read. Qed.
Lemma leaves_initialize backups : apart backups → (∀ c, m ≠ MFile (backups, backup_name c)) → leaves (initialize_or_migrate r backups) anything.
Proof.
  intros Hb Hn. pose proof path_apart. assert (∀ c, apart_file (backups, backup_name c)) as Hbackup by (by split).
  unfold initialize_or_migrate. apply leaves_with_lock. unfold backup_migration_unlocked, migrate_verified, roll_back, exists_file.
  leave; try apply leaves_write_unlocked; try apply leaves_load_unlocked; try (by apply leaves_read); try apply leaves_write_bytes;
    try (by apply leaves_open); try (by apply leaves_content); (apply leaves_secure; [done|first [exact I|apply Hn]]).
Qed.
End store.
Lemma leaves_atomic_write p content :
  apart_file p → (∀ hex, m ≠ MFile (temporary_path (place timeout p) hex)) → leaves (atomic_write timeout p content) anything.
Proof.
  intros Hp Ht. assert (∀ hex, apart_file (temporary_path (place timeout p) hex)) as Htemp by (split; [apply Hp|apply Ht]).
  unfold atomic_write, secure_managed. leave; try (by apply leaves_open); try (by apply leaves_content); try (by apply leaves_replace); by apply leaves_unlink.
Qed.
Variables (root : str) (runtime : option str).
Abbreviation the_paths := (from_app_dir root runtime).
(** The names of managed files are not those of temporaries and backups. *)
Definition managed_name (x : managed) : Prop :=
  match x with
  | MDir _ => True
  | MFile p => p.2 ∈ [u "config.toml"; u "config.toml.lock"; u ".bootstrap.lock"; u ".audit.lock"; u "state.json"]
  end.
Lemma managed_names x : x ∈ managed_paths the_paths → managed_name x.
Proof.
  intros H. unfold managed_paths in H. rewrite !elem_of_app, list_elem_of_fmap in H. destruct x as [d|p]; [done|].
  rewrite !elem_of_cons in H. cbn. destruct_or!; try done; try (by apply elem_of_nil in H);
    [|by destruct H as (d & E & _)|..]; injection H as ->; cbn; set_solver.
Qed.
Lemma not_temporary store hex : managed_name m → file_name store = u "config.toml" ∨ file_name store = u "state.json" → m ≠ MFile (temporary_path store hex).
Proof.
  intros Hm Hn ->. unfold managed_name, temporary_path in Hm. cbn [snd] in Hm. rewrite !elem_of_cons in Hm.
  destruct Hn as [E|E]; rewrite E in Hm; destruct_or!; try (by apply elem_of_nil in Hm); apply (f_equal (take 9)) in Hm; vm_compute in Hm; discriminate.
Qed.
Lemma not_backup dir c : managed_name m → m ≠ MFile (dir, backup_name c).
Proof.
  intros Hm ->. unfold managed_name in Hm. cbn [snd] in Hm. rewrite !elem_of_cons in Hm. unfold backup_name in Hm.
  destruct_or!; try (by apply elem_of_nil in Hm); apply (f_equal (take 7)) in Hm; vm_compute in Hm; discriminate.
Qed.
Lemma leaves_ensure : m ∈ managed_paths the_paths → leaves (ensure look timeout the_paths) (fun _ => False).
Proof.
  intros Hm. pose proof (managed_names m Hm) as Hname. unfold ensure.
  eapply spec_bind; [apply leaves_ensure_directory|]. intros [] Happ. cbn [app_dir from_app_dir] in Happ.
  eapply spec_bind; [apply leaves_reject|]. intros [] Hlock.
  apply (spec_bind _ _ (fun _ => False)); [|intros p []].
  apply leaves_with_lock; [done|exact Hlock|].
  assert (apart_file (bootstrap_lock the_paths)) as Hl by (by split).
  apply (spec_bind _ _ anything); [by eapply leaves_file|]. intros _ _.
  eapply spec_bind; [apply leaves_directories|]. intros [] Hdirs.
  eapply spec_bind; [apply leaves_reject|]. intros [] Hconfig.
  assert (∀ d, d ∈ directories the_paths → apart d) as Hdir by (intros d Hd; by eapply Forall_forall in Hdirs).
  eapply spec_bind; [by apply leaves_lock_file|]. intros [] Hclock.
  apply (spec_bind _ _ anything).
  { apply leaves_initialize; try done; [|apply Hdir; cbn; set_solver|intros c; by apply not_backup].
    intros hex. apply not_temporary; [done|by left]. }
  intros p _. apply (spec_bind _ _ anything); [by eapply leaves_file; [|reflexivity]|]. intros _ _.
  eapply spec_bind; [apply leaves_lock_file; apply Hdir; cbn; set_solver|]. intros [] Halock.
  unfold ensure_state. cbn zeta.
  apply (spec_bind _ _ (fun _ => m ≠ MFile (state_file the_paths))); [|intros [] Hstate; apply spec_ret; revert Hm; unfold managed_paths; rewrite !elem_of_app, list_elem_of_fmap, !elem_of_cons;
     intros H; destruct_or!; first [done|by apply elem_of_nil in H|by apply Happ|destruct H as (d & E & Hd); by apply (Hdir d Hd)]].
  eapply spec_bind; [apply leaves_reject|]. intros [] Hstate. assert (apart_file (state_file the_paths)) as Hs by (by split).
  eapply spec_conseq; [|intros _ _; exact Hstate]. unfold exists_file, secure_managed. leave; [by apply leaves_read|].
  apply leaves_atomic_write; [done|]. intros hex. apply not_temporary; [done|by right].
Qed.
End links.

(** A link in place of a managed path is left alone.  Whatever
    the other paths are and however the system calls answer: when a managed file is
    a link, cannot be inspected or is not a file, or a managed directory is
    not a directory, the bootstrap does not succeed, and none of its calls, those of the
    configuration store and its migration included, names that file, or that
    directory or anything in it. *)
Theorem links_are_left_alone `{U : UnicodeDB} `{T : TomlReader} `{F : FloatIO} look timeout root runtime m (s : disk_io) :
  m ∈ managed_paths (from_app_dir root runtime) → (∀ tr, ∃ e, inspect (look tr m) m = Err e) →
  let '(o, s') := ensure look timeout (from_app_dir root runtime) s in
  (∀ r, o ≠ Ret r) ∧ ∃ new, trace s' = trace s ++ new ∧ Forall (untouched m) new.
Proof.
  intros Hm Hlink. destruct (spec_calls _ _ _ s (leaves_ensure look timeout m Hlink (trace s) (script s) root runtime Hm)) as (new & H1 & H2 & H3).
  destruct (ensure _ _ _ s) as [o s']. split; [|by exists new]. intros r ->. by apply (H3 r).
Qed.

(** ** Runs *)
Definition root : str := u "C:\Users\a\codex-serverops-mcp".
Definition linked (m : managed) (_ : list disk_call) (x : managed) : looked := if decide (x = m) then Reparse else Absent.
Definition linked_script : list (res disk_reply) := replicate 8 (Ok Done) ++ [Ok (Time (qz 0))] ++ replicate 20 (Ok Done).
Lemma links_are_left_alone_witness :
  ∃ s', ensure (U := ascii_db) (T := fragment_reader) (F := half_float) (linked (MDir (under root (u "audit")))) (qz 5) (from_app_dir root None)
          (Io (Disk ∅ false) linked_script [])
        = (Raise (config_error (u "managed local path must not be a reparse point: C:\Users\a\codex-serverops-mcp\audit")), s') ∧
    length (trace s') = 19%nat ∧ Forall (untouched (MDir (under root (u "audit")))) (trace s').
Proof.
  assert (MDir (under root (u "audit")) ∈ managed_paths (from_app_dir root None)) as Hm by (apply (bool_decide_unpack _); vm_compute; exact I).
  assert (∀ tr, ∃ e, inspect (linked (MDir (under root (u "audit"))) tr (MDir (under root (u "audit")))) (MDir (under root (u "audit"))) = Err e) as Hlink
    by (intros tr; unfold linked; rewrite decide_True by done; by eexists).
  pose proof (links_are_left_alone (U := ascii_db) (T := fragment_reader) (F := half_float) _ (qz 5) root None _
    (Io (Disk ∅ false) linked_script []) Hm Hlink) as H.
  assert (∃ s', ensure (U := ascii_db) (T := fragment_reader) (F := half_float) (linked (MDir (under root (u "audit")))) (qz 5) (from_app_dir root None)
      (Io (Disk ∅ false) linked_script [])
    = (Raise (config_error (u "managed local path must not be a reparse point: C:\Users\a\codex-serverops-mcp\audit")), s') ∧
    length (trace s') = 19%nat) as (s' & E & El) by (eexists; split; vm_compute; reflexivity).
  rewrite E in H. destruct H as [_ (new & Ht & Hn)]. exists s'. split; [exact E|]. split; [exact El|]. cbn in Ht. by rewrite Ht.
Defined.
(** A first start makes everything. *)
Definition fresh_script : list (res disk_reply) :=
  replicate 8 (Ok Done) ++ [Ok (Time (qz 0))] ++ replicate 20 (Ok Done) ++ [Ok (Time (qz 0))] ++ replicate 3 (Ok Done) ++
  [Ok (Token (u "1"))] ++ replicate 14 (Ok Done) ++ [Ok (Token (u "2"))] ++ replicate 9 (Ok Done).
Example first_start :
  let '(o, s') := ensure (U := ascii_db) (T := fragment_reader) (F := half_float) (fun _ _ => Absent) (qz 5) (from_app_dir root None)
                    (Io (Disk ∅ false) fresh_script []) in
  o = Ret (Report root true false None 1) ∧ files (st s') !! (root, u "state.json") = Some state_content ∧
  length (map_to_list (files (st s'))) = 5%nat ∧ script s' = [].
Proof. vm_compute. auto. Qed.
Example state_is_checked : check_state (F := half_float) state_content = Ok tt.
Proof. by vm_compute. Qed.
