(* ===== verification/AuthWindow.v ===== *)
(** * AuthWindow: the authentication window (auth/app.py)

    The window asks the user what OpenSSH or sudo asked, hands the answer to the
    client of [AuthClient], and ends with a code.  The user, the client's calls
    and the dialog answer from a script. *)
From S2P Require Import Prelude Errors Text Prog Prompts.

(** The buttons, the closed window and the timer *)
Inductive auth_event : Type := ESubmit (text : str) | EConfirm | EReject | ECancel | ETimeout.
Inductive auth_call : Type :=
  | WNext                                             (* root.mainloop() *)
  | COpen | CSubmit (secret : bytes) | CConfirm | CReject | CCancel | CReportTimeout | CClose   (* DirectAuthClient *)
  | WShowFailure.                                     (* messagebox.showerror *)
(** A dialog runs the event loop: the timer may fire while it is shown. *)
Inductive auth_reply : Type := ADone | APrompt (kind : PromptKind) | AEvent (e : auth_event) | AShown (timed_out : bool).
Record auth_window := AuthWindow_ { exit_code : Z; destroyed : bool }.

Section window.
Abbreviation IO := (io auth_window auth_call auth_reply).
Abbreviation P := (M IO).
Definition perform (c : auth_call) : P unit := ask c;; mret tt.
Definition set_exit_code (n : Z) : P unit := update (fun w => AuthWindow_ n (destroyed w)).
Definition destroy : P unit := update (fun w => AuthWindow_ (exit_code w) true).
(** [_send_decision] with [show_failure=False] *)
Definition send_quietly (action : auth_call) (code : Z) : P unit :=
  ok ← try_except (perform action;; mret true)
         (fun e => if is_exception e then perform CClose;; destroy;; mret false else raise e);
  if ok : bool then set_exit_code code;; destroy else mret tt.
Definition timeout : P unit := send_quietly CReportTimeout 3.
Definition cancel : P unit := send_quietly CCancel 2.
Definition show_failure : P unit :=
  r ← ask WShowFailure;
  match r with
  | AShown timed_out => (if timed_out : bool then timeout else mret tt);; perform CClose;; set_exit_code 3;; destroy
  | _ => hang
  end.
Definition send_decision (action : auth_call) (code : Z) : P unit :=
  ok ← try_except (perform action;; mret true)
         (fun e => if is_exception e then show_failure;; mret false else raise e);
  if ok : bool then set_exit_code code;; destroy else mret tt.
Definition submit (text : str) : P unit :=
  response ← lift (utf8_encode text);
  send_decision (CSubmit response) 0.
Definition confirm : P unit := send_decision CConfirm 0.
Definition reject : P unit := send_decision CReject 2.
(** The window of a host key has two buttons and no entry. *)
Definition handle (kind : PromptKind) (e : auth_event) : P unit :=
  match e, bool_decide (kind = HOST_KEY) with
  | ESubmit text, false => submit text
  | EConfirm, true => confirm
  | EReject, true => reject
  | ECancel, _ => cancel
  | ETimeout, _ => timeout
  | _, _ => mret tt
  end.
Fixpoint mainloop (fuel : nat) (kind : PromptKind) : P unit :=
  match fuel with
  | O => hang
  | S fuel =>
      w ← state;
      if destroyed w then mret tt
      else
        r ← ask WNext;
        match r with
        | AEvent e => try_except (handle kind e) (fun _ => mret tt);; mainloop fuel kind
        | _ => hang
        end
  end.
Definition run_window (kind : PromptKind) : P Z :=
  update (fun _ => AuthWindow_ 2 false);;
  s ← Prelude.get; mainloop (S (length (script s))) kind;;
  w ← state; mret (exit_code w).
(** The token of the environment variable, which is removed from it *)
Definition run_auth_app (token : option str) : P Z :=
  match token with
  | Some (_ :: _) =>
      kind ← try_except (r ← ask COpen; match r with APrompt k => mret (Some k) | _ => hang end)
               (fun e => if is_exception e then perform CClose;; mret None else raise e);
      match kind with Some k => run_window k | None => mret 3 end
  | _ => mret 3
  end.
End window.

(** ** One answer, of the kind that was asked for *)
Section answering.
Variable kind : PromptKind.
Abbreviation IO := (io auth_window auth_call auth_reply).
(** What the user typed last, while no answer was accepted; the accepted answer *)
Inductive auth_phase := Asking (typed : option str) | Accepted (answer : auth_call).
Definition code_of (answer : auth_call) : Z :=
  match answer with CSubmit _ | CConfirm => 0 | CReportTimeout => 3 | _ => 2 end.
Definition auth_allowed (ph : auth_phase) (c : auth_call) : Prop :=
  match ph, c with
  | Asking typed, CSubmit b => kind ≠ HOST_KEY ∧ ∃ t, typed = Some t ∧ utf8_encode t = Ok b
  | Asking _, (CConfirm | CReject) => kind = HOST_KEY
  | Asking _, (WNext | CCancel | CReportTimeout | CClose | WShowFailure) => True
  | Accepted answer, CClose => answer = CReportTimeout
  | _, _ => False
  end.
Definition is_answer (c : auth_call) : bool := match c with CSubmit _ | CConfirm | CReject | CCancel | CReportTimeout => true | _ => false end.
Definition auth_after (ph : auth_phase) (c : auth_call) (a : res auth_reply) : auth_phase :=
  match ph, c, a with
  | Asking _, WNext, Ok (AEvent (ESubmit t)) => Asking (Some t)
  | Asking _, WNext, _ => Asking None
  | Asking _, _, Ok _ => if is_answer c then Accepted c else ph
  | _, _, _ => ph
  end.
Section run.
Context (tr : list auth_call) (scr : list (res auth_reply)).
Abbreviation stopped := (obeyed (State := auth_window) auth_allowed auth_after tr scr (Asking None)).
Abbreviation at_auth ph := (at_phase (State := auth_window) auth_allowed auth_after tr scr (Asking None) ph).
(** While it asks, the code is not that of an answer that lets the connection go
    on; an accepted answer gave its code and closed the window. *)
Definition asking (typed : option str) (s : IO) : Prop := at_auth (Asking typed) s ∧ exit_code (st s) ≠ 0.
Definition answered_by (c : auth_call) (s : IO) : Prop := at_auth (Accepted c) s ∧ exit_code (st s) = code_of c ∧ destroyed (st s) = true.
Definition asks_or (c : auth_call) (s : IO) : Prop := (∃ typed, asking typed s) ∨ answered_by c s.
Definition window_state (s : IO) : Prop := ∃ c, asks_or c s.
Lemma asking_state typed s : asking typed s → window_state s.
Proof. intros H. exists CClose. left. by exists typed. Qed.
Lemma asking_stopped typed s : asking typed s → stopped s.
Proof. intros [H _]. by eapply at_phase_obeyed. Qed.
Lemma auth_window_stopped s : window_state s → stopped s.
Proof. intros [c [[typed H]|[H _]]]; [by eapply asking_stopped|by eapply at_phase_obeyed]. Qed.
Lemma asks_or_state c s : asks_or c s → window_state s.
Proof. intros H. by exists c. Qed.
(** A call that is not an answer *)
Lemma asks_aside typed c : auth_allowed (Asking typed) c → is_answer c = false → c ≠ WNext →
  triple stopped (asking typed) (ask c) (fun _ => asking typed) (fun _ => asking typed).
Proof.
  intros Hc Ha Hn. apply (triple_asked _ _ (fun w => exit_code w ≠ 0)); [done|..]; intros ? s H;
    (replace (auth_after (Asking typed) c _) with (Asking typed) in H by (by destruct c)); exact H.
Qed.
Lemma sends typed c : auth_allowed (Asking typed) c → is_answer c = true →
  triple stopped (asking typed) (ask c) (fun _ => at_auth (Accepted c)) (fun _ => asking typed).
Proof.
  intros Hc Ha. apply (triple_asked _ _ (fun w => exit_code w ≠ 0)); [done|..]; intros a s H.
  - replace (auth_after (Asking typed) c (Ok a)) with (Accepted c) in H by (by destruct c). apply H.
  - replace (auth_after (Asking typed) c (Err a)) with (Asking typed) in H by (by destruct c). exact H.
Qed.
Lemma auth_accept c : 
  triple stopped (at_auth (Accepted c)) (set_exit_code (code_of c);; destroy : M IO unit) (fun _ => answered_by c) (fun _ => window_state).
Proof.
  eapply (triple_bind _ _ _ _ (fun _ s => at_auth (Accepted c) s ∧ exit_code (st s) = code_of c)).
  - apply triple_modify. intros s H. by split.
  - intros _. apply triple_modify. intros s [H1 H2]. by repeat split.
Qed.
Lemma triple_sending typed c (h : exn → M IO bool) (W : IO → Prop) :
  auth_allowed (Asking typed) c → is_answer c = true → (∀ s, answered_by c s → W s) →
  (∀ e, triple stopped (asking typed) (h e) (fun ok s => ok = false ∧ W s) (fun _ => window_state)) →
  triple stopped (asking typed) (ok ← try_except (perform c;; mret true) h; if ok : bool then set_exit_code (code_of c);; destroy else mret tt)
    (fun _ => W) (fun _ => window_state).
Proof.
  intros Hc Ha HW Hh. eapply (triple_bind _ _ _ _ (fun ok s => if ok : bool then at_auth (Accepted c) s else W s)).
  - eapply (triple_try _ _ _ _ _ (fun _ => asking typed)).
    + eapply (triple_bind _ _ _ _ (fun _ => at_auth (Accepted c))); [|intros _; by apply triple_ret].
      unfold perform. eapply (triple_bind _ _ _ _ (fun _ => at_auth (Accepted c))); [by apply sends|intros _; by apply triple_ret].
    + intros e. eapply triple_conseq; [apply Hh|done| |done|done]. by intros ok s [-> H].
  - intros [|]; [|by apply triple_ret]. eapply triple_conseq; [apply (auth_accept c)|done| |done|done]. intros [] s H. by apply HW.
Qed.
Lemma auth_close typed : triple stopped (asking typed) (perform CClose) (fun _ => asking typed) (fun _ => window_state).
Proof.
  unfold perform. eapply (triple_bind _ _ _ _ (fun _ => asking typed)); [|intros _; by apply triple_ret].
  eapply triple_raising; [by apply asks_aside|]. intros ? s. apply asking_state.
Qed.
Lemma triple_send_quietly typed c : auth_allowed (Asking typed) c → is_answer c = true →
  triple stopped (asking typed) (send_quietly c (code_of c)) (fun _ => asks_or c) (fun _ => window_state).
Proof.
  intros Hc Ha. unfold send_quietly. apply triple_sending; [done..|by right|]. intros e.
  destruct (is_exception e); [|apply triple_raise; intros s; apply asking_state].
  eapply (triple_bind _ _ _ _ (fun _ => asking typed)); [apply auth_close|].
  intros _. eapply (triple_bind _ _ _ _ (fun _ => asking typed)); [by apply triple_modify|]. intros _. apply triple_ret.
  intros s H. split; [done|]. left. by exists typed.
Qed.
(** The dialog; an answer that the timer gave while it was shown stands. *)
Lemma triple_show_failure typed : triple stopped (asking typed) show_failure (fun _ => window_state) (fun _ => window_state).
Proof.
  unfold show_failure. eapply (triple_bind _ _ _ _ (fun _ => asking typed)).
  { eapply triple_raising; [by apply asks_aside|]. intros ? s. apply asking_state. }
  intros [| | |timed_out]; try (intros s H; by eapply asking_stopped).
  eapply (triple_bind _ _ _ _ (fun _ => asks_or CReportTimeout)).
  { destruct timed_out; [by apply (triple_send_quietly typed CReportTimeout)|]. apply triple_ret. intros s H. left. by exists typed. }
  intros _. eapply (triple_bind _ _ _ _ (fun _ => asks_or CReportTimeout)).
  - intros s [[typed' H]|H].
    + pose proof (auth_close typed' s H) as Hc. destruct (perform CClose s) as [[]]; [|done..]. left. by exists typed'.
    + assert (triple stopped (answered_by CReportTimeout) (perform CClose) (fun _ => asks_or CReportTimeout) (fun _ => window_state)) as Hc; [|exact (Hc s H)].
      unfold perform. eapply (triple_bind _ _ _ _ (fun _ => answered_by CReportTimeout)); [|intros _; apply triple_ret; by right].
      apply (triple_asked _ _ (fun w => exit_code w = 3 ∧ destroyed w = true)); [done|done|]. intros e s' H'. exists CReportTimeout. by right.
  - intros _. eapply (triple_bind _ _ _ _ (fun _ => asks_or CReportTimeout)).
    + apply triple_modify. intros s [[typed' [H _]]|(H1 & H2 & H3)]; [left; by exists typed'|by right].
    + intros _. apply triple_modify. intros s [[typed' H]|(H1 & H2 & H3)]; [eapply asking_state; exact H|exists CReportTimeout; by right].
Qed.
Lemma triple_send_decision typed c : auth_allowed (Asking typed) c → is_answer c = true →
  triple stopped (asking typed) (send_decision c (code_of c)) (fun _ => window_state) (fun _ => window_state).
Proof.
  intros Hc Ha. unfold send_decision. apply triple_sending; [done..|intros s H; exists c; by right|]. intros e.
  destruct (is_exception e); [|apply triple_raise; intros s; apply asking_state].
  eapply (triple_bind _ _ _ _ (fun _ => window_state)); [apply triple_show_failure|]. intros _. by apply triple_ret.
Qed.
Lemma auth_handle typed e : (∀ t, e = ESubmit t → typed = Some t) →
  triple stopped (asking typed) (handle kind e) (fun _ => window_state) (fun _ => window_state).
Proof.
  intros Ht. assert (triple stopped (asking typed) (mret tt : M IO unit) (fun _ => window_state) (fun _ => window_state)) as Hskip
    by (apply triple_ret; intros s; apply asking_state).
  assert (∀ c, auth_allowed (Asking typed) c → is_answer c = true → triple stopped (asking typed) (send_quietly c (code_of c)) (fun _ => window_state) (fun _ => window_state)) as Hquiet.
  { intros c Hc Ha. eapply triple_conseq; [by apply triple_send_quietly|done| |done|done]. intros [] s. apply asks_or_state. }
  unfold handle. destruct e as [t| | | |], (bool_decide (kind = HOST_KEY)) eqn:Hk; try exact Hskip;
    try (by apply (Hquiet CCancel)); try (by apply (Hquiet CReportTimeout)).
  - unfold submit. apply triple_lift_at; [|intros ? s; apply asking_state]. intros b Hb.
    apply (triple_send_decision typed (CSubmit b)); [|done]. split; [by apply bool_decide_eq_false in Hk|]. exists t. by rewrite (Ht t).
  - apply (triple_send_decision typed CConfirm); [by apply bool_decide_eq_true in Hk|done].
  - apply (triple_send_decision typed CReject); [by apply bool_decide_eq_true in Hk|done].
Qed.
Lemma triple_mainloop fuel : triple stopped window_state (mainloop fuel kind) (fun _ => window_state) (fun _ => window_state).
Proof.
  induction fuel as [|fuel IH]; cbn [mainloop]; [intros s; apply auth_window_stopped|].
  apply triple_state. intros w. destruct (destroyed w) eqn:Hd; [apply triple_ret; by intros s [? _]|].
  intros s [[c [[typed H]|(_ & _ & Hd')]] Hw]; [|congruence].
  enough (triple stopped (asking typed) (r ← ask WNext; match r with
      | AEvent e => try_except (handle kind e) (fun _ => mret tt);; mainloop fuel kind | _ => hang end) (fun _ => window_state) (fun _ => window_state)) as Ht
    by exact (Ht s H).
  eapply (triple_bind _ _ _ _ (fun a => asking (match a with AEvent (ESubmit t) => Some t | _ => None end))).
  - apply (triple_asked _ _ (fun w => exit_code w ≠ 0)); [done|..].
    + intros a s' H'. destruct a as [| |[]|]; exact H'.
    + intros e s' H'. eapply asking_state. exact H'.
  - intros [| |e|]; try (intros s'; apply asking_stopped).
    eapply (triple_bind _ _ _ _ (fun _ => window_state)); [|intros _; exact IH].
    eapply triple_try; [apply auth_handle; by intros t ->|]. intros e'. by apply triple_ret.
Qed.
End run.
(** The code of the window is that of the answer the worker accepted. *)
Definition ended (scr : list (res auth_reply)) (tr : list auth_call) (code : Z) (s : IO) : Prop :=
  ∃ ph, at_phase auth_allowed auth_after tr scr (Asking None) ph s ∧
    match ph with Asking _ => code ≠ 0 | Accepted c => code = code_of c end.
(** One answer is given, of the kind that was asked for.  Whatever the
    user does and the client answers: the window hands over a secret only when a
    secret was asked for, the encoding of what was typed into it
    last, and a decision about a host key only when that was asked for; after an
    answer was accepted it gives no other; and it ends with code 0 only
    when a secret or a confirmation was accepted. *)
Theorem one_answer_of_its_kind (s : IO) :
  match run_window kind s with
  | (Ret code, s') => ended (script s) (trace s) code s'
  | (_, s') => obeyed auth_allowed auth_after (trace s) (script s) (Asking None) s'
  end.
Proof.
  set (tr := trace s). set (scr := script s).
  enough (triple (obeyed auth_allowed auth_after tr scr (Asking None)) (at_phase auth_allowed auth_after tr scr (Asking None) (Asking None)) (run_window kind)
    (ended scr tr) (fun _ => obeyed auth_allowed auth_after tr scr (Asking None))) as H
    by (specialize (H s (at_phase_start _ _ s _)); by destruct (run_window kind s) as [[]]).
  unfold run_window. eapply (triple_bind _ _ _ _ (fun _ => asking tr scr None)); [apply triple_modify; intros s' H; by split|].
  intros _. apply triple_get. intros x Hx. eapply (triple_bind _ _ _ _ (fun _ => window_state tr scr)).
  - eapply (triple_raising _ _ _ _ _ (fun _ => window_state tr scr)); [|intros e; apply auth_window_stopped].
    apply (triple_before _ _ (window_state tr scr)); [apply triple_mainloop|]. intros s' ->. by eapply asking_state.
  - intros _. apply triple_state. intros w. apply triple_ret. intros s' [[c [[typed [H1 H2]]|(H1 & H2 & _)]] <-]; by eexists.
Qed.
End answering.
(** No token, or a client that cannot be opened: code 3, and the client is closed. *)
Theorem no_prompt_no_window token (s : io auth_window auth_call auth_reply) :
  match token with Some (_ :: _) => False | _ => True end → run_auth_app token s = (Ret 3, s).
Proof. by destruct token as [[|]|]. Qed.
(** The timer may be earlier than the user, even behind a dialog. *)
Example refused_then_timed_out :
  (run_window PASSWORD (Io (AuthWindow_ 0 false)
     [Ok (AEvent (ESubmit (u "secret"))); Err (value_error (u "x")); Ok (AShown true); Ok ADone; Ok ADone] [])).1 = Ret 3.
Proof. by vm_compute. Qed.
