(* ===== verification/Tools.v ===== *)
(** * Tools: what an MCP client can call (tools/core.py, tools/files.py, tools/elevation.py, server.py)

    The table of the registered tools and what a call of each does.  FastMCP
    checks the arguments against the annotations: a call here has arguments of
    their types, and [admitted] says that its action is one of the literals. *)
From S2P Require Import Prelude Errors Text ConfigModel BrokerServer WorkerProtocol AuditedCalls Application Value.

Record ToolAnnotations := Annotations { readOnlyHint : bool; destructiveHint : bool; idempotentHint : bool; openWorldHint : bool }.
(** The literals of [action], if the tool has one, and the other parameters *)
Record tool := Tool { name : str; annotations : ToolAnnotations; actions : list str; parameters : list str }.
Definition reading : ToolAnnotations := Annotations true false true true.
Definition changing : ToolAnnotations := Annotations false true false true.

Definition register_core_tools : list tool :=
  [Tool (u "server_profiles") (Annotations true false true false) [u "list"; u "inspect"] [u "profile_name"];
   Tool (u "server_profile_setup") changing [u "add"; u "edit"; u "remove"; u "test"; u "status"; u "wait"]
     [u "profile_name"; u "suggested_host"; u "suggested_user"; u "request_id"; u "wait_timeout"];
   Tool (u "server_connection") changing [u "open"; u "status"; u "list"; u "rediscover"; u "close"] [u "profile_name"; u "session_id"];
   Tool (u "server_exec") changing [] [u "session_id"; u "command"; u "timeout"];
   Tool (u "server_terminal") changing [u "start"; u "read"; u "write"; u "interrupt"; u "resize"; u "status"; u "close"]
     [u "session_id"; u "command"; u "cursor"; u "text"; u "columns"; u "rows"; u "timeout"]].
Definition register_file_tools : list tool :=
  [Tool (u "server_files") reading [u "list"; u "stat"; u "read_text"; u "search_text"; u "hash"]
     [u "session_id"; u "path"; u "query"; u "byte_limit"; u "start_line"; u "end_line"; u "max_results"];
   Tool (u "server_file_edit") changing [u "write_text"; u "apply_patch"; u "mkdir"; u "rename"; u "remove"]
     [u "session_id"; u "path"; u "content"; u "patch"; u "expected_sha256"; u "destination_path"; u "recursive"]].
Definition register_elevation_tool : list tool :=
  [Tool (u "server_elevation") changing [u "acquire"; u "status"; u "release"; u "exec"; u "open_root_session"; u "close_root_session"]
     [u "session_id"; u "command"; u "timeout"]].
Definition build_server : list tool := register_core_tools ++ register_file_tools ++ register_elevation_tool.

(** ** Calls *)
Definition opt_int (n : option Z) : value := match n with Some n => VInt n | None => VNone end.
Definition opt_float (q : option Q) : value := match q with Some q => VFloat (Finite q) | None => VNone end.
Definition opt_bool (b : option bool) : value := match b with Some b => VBool b | None => VNone end.
Inductive tool_call : Type :=
  | server_profiles (action : str) (profile_name : option str)
  | server_profile_setup (action : str) (profile_name suggested_host suggested_user request_id : option str) (wait_timeout : option Q)
  | server_connection (action : str) (profile_name session_id : option str)
  | server_exec (session_id command : str) (timeout : option Q)
  | server_terminal (action session_id : str) (command : option str) (cursor : option Z) (text : option str)
      (columns rows : option Z) (timeout : option Q)
  | server_files (action session_id path : str) (query : option str) (byte_limit start_line end_line max_results : option Z)
  | server_file_edit (action session_id path : str) (content patch expected_sha256 destination_path : option str) (recursive : option bool)
  | server_elevation (action session_id : str) (command : option str) (timeout : option Q).
Definition called (t : tool_call) : str * option str :=
  match t with
  | server_profiles a _ => (u "server_profiles", Some a) | server_profile_setup a _ _ _ _ _ => (u "server_profile_setup", Some a)
  | server_connection a _ _ => (u "server_connection", Some a) | server_exec _ _ _ => (u "server_exec", None)
  | server_terminal a _ _ _ _ _ _ _ => (u "server_terminal", Some a) | server_files a _ _ _ _ _ _ _ => (u "server_files", Some a)
  | server_file_edit a _ _ _ _ _ _ _ => (u "server_file_edit", Some a) | server_elevation a _ _ _ => (u "server_elevation", Some a)
  end.
Definition admitted (t : tool_call) : Prop :=
  ∃ x, x ∈ build_server ∧ name x = (called t).1 ∧ ∀ a, (called t).2 = Some a → a ∈ actions x.
(** The operation of [Application] that asks the broker *)
Definition operation_of (t : tool_call) : option operation :=
  match t with
  | server_connection action profile session => Some (OpConnection action profile session)
  | server_exec session command timeout => Some (OpExec session (VStr command) (opt_float timeout))
  | server_terminal action session command cursor text columns rows timeout =>
      Some (OpTerminal action session
        [(u "command", opt_str command); (u "cursor", opt_int cursor); (u "text", opt_str text); (u "columns", opt_int columns);
         (u "rows", opt_int rows); (u "timeout", opt_float timeout)])
  | server_files action session path query byte_limit start_line end_line max_results =>
      Some (OpFiles action session
        [(u "path", VStr path); (u "query", opt_str query); (u "byte_limit", opt_int byte_limit); (u "start_line", opt_int start_line);
         (u "end_line", opt_int end_line); (u "max_results", opt_int max_results)])
  | server_file_edit action session path content patch expected_sha256 destination_path recursive =>
      Some (OpFileEdit action session
        [(u "path", VStr path); (u "content", opt_str content); (u "patch", opt_str patch); (u "expected_sha256", opt_str expected_sha256);
         (u "destination_path", opt_str destination_path); (u "recursive", opt_bool recursive)])
  | server_elevation action session command timeout => Some (OpElevation action session (opt_str command) (opt_float timeout))
  | _ => None
  end.
Definition call_tool {U : UnicodeDB} {S} `{Profiles S} `{BrokerProvider S} {setup : option (SetupOps S)} {logger : option (Recorder S)}
    (t : tool_call) : M S (dict value) :=
  match t with
  | server_profiles action profile => Application.server_profiles action profile
  | server_profile_setup action profile host user request wait_timeout =>
      Application.server_profile_setup (setup := setup) action profile host user request (opt_float wait_timeout)
  | server_connection action profile session => Application.server_connection (logger := logger) action profile session
  | server_exec session command timeout => Application.server_exec (logger := logger) session (VStr command) (opt_float timeout)
  | _ => match operation_of t with Some o => run (logger := logger) o | None => hang end
  end.

(** ** The surface fits what is behind it *)
(** A tool offers exactly the actions of a table of operations, its parameters
    are exactly the fields of those operations, beside the session. *)
Definition fits (x : tool) (table : operations) : bool :=
  let used := flat_map (fun row => row.2.1 ++ row.2.2) table in
  same_set (actions x) (dkeys table) && same_set (parameters x) (u "session_id" :: used).
Definition find_tool (n : str) : option tool := List.find (fun x => str_eqb (name x) n) build_server.
Definition tool_fits (n : str) (table : operations) : bool := match find_tool n with Some x => fits x table | None => false end.
Theorem tools_fit_operations :
  tool_fits (u "server_terminal") terminal_operations = true ∧
  tool_fits (u "server_files") (file_operations false) = true ∧
  tool_fits (u "server_file_edit") (file_operations true) = true ∧
  tool_fits (u "server_elevation") BrokerServer.elevation_operations = true.
Proof. by vm_compute. Qed.
(** Names are unique, and every tool that may change a server says so. *)
Theorem tools_are_declared :
  NoDup (map name build_server) ∧
  Forall (fun x => readOnlyHint (annotations x) = negb (destructiveHint (annotations x))) build_server ∧
  Forall (fun x => readOnlyHint (annotations x) = true → name x ∈ [u "server_profiles"; u "server_files"]) build_server.
Proof. split; [by apply (bool_decide_unpack _); vm_compute|split; by apply (bool_decide_unpack _); vm_compute]. Qed.

Section calls.
Context {U : UnicodeDB} {S : Type} `{Profiles S} `{BrokerProvider S} {setup : option (SetupOps S)} {logger : option (Recorder S)}.
(** A call of a tool that goes to the broker is the operation of the
    application, with arguments that [application_asks_what_was_meant] speaks of. *)
Theorem tool_calls_are_operations t o :
  operation_of t = Some o → callable o ∧ call_tool (setup := setup) (logger := logger) t = run (logger := logger) o.
Proof.
  destruct t; intros E; try discriminate; injection E as <-; (split; [|done]); cbn [callable]; try done;
    (split; [by apply (bool_decide_unpack _); vm_compute|split; by apply (bool_decide_unpack _); vm_compute]).
Qed.
(** An admitted action of the profile tools is one the application knows. *)
Theorem profile_actions_known t :
  admitted t → match t with
  | server_profiles a _ => a ∈ [u "list"; u "inspect"]
  | server_profile_setup a _ _ _ _ _ => a ∈ [u "add"; u "edit"; u "remove"; u "test"] ∨ a ∈ [u "status"; u "wait"]
  | server_connection a _ _ => a ∈ [u "open"; u "list"] ∨ a ∈ [u "status"; u "rediscover"; u "close"]
  | _ => True
  end.
Proof.
  intros (x & Hx & Hn & Ha). destruct t; try done; specialize (Ha _ eq_refl);
    unfold build_server, register_core_tools, register_file_tools, register_elevation_tool in Hx; cbn [app] in Hx;
    rewrite !elem_of_cons in Hx; destruct_or!; subst; try (by vm_compute in Hn); try (by apply elem_of_nil in Hx);
    cbn [actions] in Ha; set_solver.
Qed.
End calls.
